(* ===== verification/_CoqProject ===== *)
-Q . S2P
Prelude.v
JsText.v
Decimal.v
Interpreter.v
Json.v
AstJson.v
Tighten.v
Store.v
AuditLedger.v
Lifecycle.v
GoldenCorpus.v
Rubrics.v
Facts.v
Evaluator.v
Jsonb.v
Manifest.v
X12.v
JsDate.v
Database.v
Tx.v
Findings.v
Jobs.v
Workflow.v
WorkflowOps.v
Money.v
Claims.v
ClaimsSafety.v
Reconcile.v
Disputes.v
DisputesSafety.v
Payments.v
PaymentsSafety.v
Persist.v
Replay.v
PersistSafety.v
ReplaySafety.v
Ingest.v
IngestSafety.v
Cascade.v
CascadeSafety.v
Resolver.v
ResolverSafety.v
WorkflowScan.v
RuleTypes.v
RateEngine.v
RateEngineSafety.v
Proposals.v
ProposalsSafety.v
ProposalLifecycle.v
ProposalLifecycleSafety.v
Amendments.v
RuleHistory.v
RateTable.v
RateTableSafety.v
Extraction.v
ExtractionSafety.v
ExtractionReview.v
ExtractionReviewSafety.v
ExtractionReviewHistory.v
Exports.v
Identity.v
