(* ===== verification/Prelude.v ===== *)
(** freight-auditor: a verification library.

    The program (TypeScript, under [src/src/]) audits freight invoices.  A carrier's
    EDI document is ingested into a normalized invoice, the invoice is resolved
    into facts, the facts are judged by a rubric of rules, the result is persisted
    with a replay manifest, and its findings go on to review, disputes, claims and
    a payment decision; rules have a life cycle of their own, and recurring work
    runs through a queue.  Every part keeps its state in one PostgreSQL database
    and writes an append-only audit ledger.

    ** Parts, files and code

    Foundations.
    - [Prelude.v], [JsText.v], [Json.v], [JsDate.v], [Store.v]: results, stable
      sorting, insertion-ordered maps; JavaScript strings; canonical JSON; dates;
      tables and INSERT ... ON CONFLICT ([src/src/db/insert-idempotent.ts]).
    - [Decimal.v], [Money.v]: the decimal.js interface, its documented laws and an
      exact implementation; exact amounts in ten-thousandths.
    - [Database.v], [Tx.v]: the shared tables (migrations/) and the
      state-and-error monad the handlers run in.

    Rules and rubrics.
    - [Interpreter.v], [RuleTypes.v]: [modules/rule-engine/ast.ts],
      [interpreter.ts]; a type system for rules that is sound for them.
    - [AstJson.v], [Tighten.v]: [monotonic-tighten.ts] and its soundness.
    - [Lifecycle.v], [GoldenCorpus.v], [RuleHistory.v]: rule versions, promotion,
      quarantine, human overrides, backtests, seeding, and the history of rule
      versions over every writer ([modules/rule-engine/],
      [src/scripts/seed-criteria.mjs]).
    - [Rubrics.v], [Cascade.v], [CascadeSafety.v], [Resolver.v],
      [ResolverSafety.v]: the two authored rubrics and [modules/rubric-resolver/].

    Audit.
    - [X12.v], [Facts.v], [Ingest.v], [IngestSafety.v]: [modules/ingestion/] and
      [modules/evaluator/fact-bundle.ts]: from bytes to facts.
    - [Evaluator.v]: [evaluate-invoice.ts]; [Persist.v], [PersistSafety.v]:
      [persist.ts]; [Jsonb.v], [Manifest.v], [Replay.v], [ReplaySafety.v]:
      [modules/audit-ledger/] manifests and replay; [AuditLedger.v]: the ledger.
    - [RateEngine.v], [RateEngineSafety.v]: [modules/rate-engine/]: expected charges,
      tier 1 alignment, grouped variances (not called by the rest yet).

    After the audit.
    - [Findings.v]: [modules/findings/]; [Disputes.v], [DisputesSafety.v]:
      [modules/disputes/]; [Claims.v], [ClaimsSafety.v], [Reconcile.v]:
      [modules/claims/]; [Payments.v], [PaymentsSafety.v]: [modules/payments/].

    Work.
    - [Jobs.v], [Workflow.v], [WorkflowOps.v], [WorkflowScan.v]: [src/src/jobs/]
      and [modules/workflow/]: job contracts, the two claimable queues behind the
      interface [QueueRow], the handlers, and the recurring scans as the worker
      registers them.

    Proposals, exports and access.
    - [Proposals.v], [ProposalsSafety.v]: model-written rule proposals: clause
      normalization, the citation and money-authority gates, the proposed
      criteria ([modules/contracts/], [modules/discovery/]).
    - [ProposalLifecycle.v], [ProposalLifecycleSafety.v], [Amendments.v]:
      backtesting, accepting and ratifying proposals; what an amendment impacts
      and retires.
    - [Exports.v]: [modules/exports/], [jobs/export-record-handler.ts]: adapters
      behind the record [ExportAdapter], acknowledgements, the transaction of the
      worker.
    - [Identity.v]: [modules/identity/], [findings/tenant-auth.ts],
      [db/tenant-context.ts]: memberships, what row-level security shows, who is
      admitted to which tenant.
    - [RateTable.v], [RateTableSafety.v]: rate tables joined over pages and the
      verdict on them ([modules/contracts/reassemble-multipage-tables.ts],
      [validate-rate-table.ts]).
    - [Extraction.v], [ExtractionSafety.v]: what a model extracts from a contract:
      schema, pins, abstention, questions, rows.
    - [ExtractionReview.v], [ExtractionReviewSafety.v], [ExtractionReviewHistory.v]:
      storing an extraction, answering its questions, correcting its fields and
      verifying a version ([modules/contracts/persist-contract-extraction.ts] to
      [finalize-contract-version.ts]); the relation [review_step] ranges over
      every order of these handlers.

    The operations of a component come first in its file and keep the names of the
    code; a file named ...Safety holds its invariants and theorems where the
    component is large.  PROJECT.json maps every definition to its lines.

    ** What the theorems show

    - Functional correctness: gate-then-score, the scorecard adds up, persisted
      rows agree with the outcome, exact short payments, reconciliation reports,
      applicable rubric versions, exact retries.
    - Refinement and equivalence: cascades and snapshots against their
      specifications, order independence of the folds.
    - Invariants over every history of handlers (relations [claim_step],
      [dispute_step], [payment_step], [rule_step], [history_step], [queue_step],
      [proposal_step], [export_step], [identity_step], [review_step]): recoveries
      never exceed claims where the recoveries of a claim do not overlap, dispute amounts are the sum of their lines, ACTIVE rules have
      evidence, approvals an analyst, rules born of a proposal a ratifier,
      acknowledgements and memberships are unique, extracted evidence is never
      rewritten, the ledger only grows.
    - Extraction: abstention invents nothing and leaves no doubtful value without
      a question; an extraction is stored whole; a version is verified from
      answered questions and the latest corrections.
    - Access: exactly which sessions and headers reach which tenant, and with which
      role; portal role changes touch nothing but portal roles.
    - Bounds: an expected charge is within half a ten-thousandth of its flat amount
      or of its rate times its basis, and not negative.
    - Round trips: the X12 reader inverts a printer, canonical documents survive
      jsonb, an ingested audit replays byte for byte.
    - Types, totality and termination: well-typed rules cannot go wrong, audits
      always complete, a queue whose worker is restarted often enough drains.
    - Error behaviour: which exemptions, transitions, recoveries and documents are
      refused, and with which error.
    - Findings: theorems (or examples) that exhibit where the code departs from
      its documentation; PROJECT.json lists them.

    ** Conventions

    A string is a sequence of 8-bit code units, which stands both for a JavaScript
    string over Latin-1 and for raw bytes; NUL is not modelled.  Amounts in
    [numeric(18,4)] columns are integers in ten-thousandths, bounded by 10^18;
    amount texts are [Decimal]s of 20 significant digits, and the theorems about
    sums assume running totals below 10^20 ten-thousandths, which those columns
    guarantee up to a hundred rows at their limit.  Dates are milliseconds (in the
    rubric tables days and microseconds).  uuid columns compare ignoring case;
    generated identifiers come from [UuidSource], and a clash is a primary-key
    error.  A jsonb value is a JSON value up to the order of its keys.  A table is
    the list of its rows in insertion order, a handler a function from the tables
    to the tables it commits or the error that rolls it back; concurrency is the
    interleaving of whole transactions, with rows locked by others as an argument
    where the code skips them.  Row-level security is modelled ([visible],
    [visible_shared], [insertable]) where a statement names no account; foreign
    keys are not enforced.  Reference tables are threaded explicitly as a
    [catalog].  The only fuel is that of [int_digits] (the number of binary digits
    bounds that of decimal ones); every other recursion is structural.

    Parameters, each with a concrete instance used by the witnesses: decimal.js
    ([DecimalJs], laws [DecimalLaws], instance [ExactDecimal]), collation
    ([Collator]), sha256 ([Sha256]), zod formats ([Zod], [IsoTime]), pg-boss
    ([PgBoss]), the object store ([ObjectStore]), generated identifiers,
    [Decimal.toFixed()] without argument ([DecimalNotation]), Unicode NFKC
    and NFC, decimal negation, the database's collation, the language model (its answer is any list of
    proposals), the world an export adapter acts on, the session a cookie names
    ([getSession]) and which of several rows a LIMIT 1 without ORDER BY returns.

    ** Not modelled

    The HTTP routes ([src/src/server/]), the web client ([src/web/]), scripts and
    tests: glue over the modelled handlers, or presentation.  How better-auth keeps
    its sessions ([src/src/auth/]) and the SDK adapters (Azure, Anthropic, S3,
    SFTP, PDF text) are calls to code outside the repository.  Read-only listings
    whose content is one SQL query are not modelled beyond those the handlers use.
    Metrics only format what other parts computed.  PROJECT.json names
    each part left out with its reason. *)

From Stdlib Require Export ZArith Lia Permutation.
From Stdlib Require Export Ascii.
From stdpp Require Export base tactics option list strings gmap sorting.

#[global] Open Scope Z_scope.

(** ** Results: a value, or the error the code throws *)

Inductive result (E A : Type) : Type :=
  | Ok (a : A)
  | Err (e : E).
Arguments Ok {E A} a.
Arguments Err {E A} e.

Definition res_bind {E A B} (f : A → result E B) (r : result E A) : result E B :=
  match r with Ok a => f a | Err e => Err e end.
Definition res_map {E A B} (f : A → B) (r : result E A) : result E B :=
  match r with Ok a => Ok (f a) | Err e => Err e end.
Definition map_err {E F A} (f : E → F) (r : result E A) : result F A :=
  match r with Ok a => Ok a | Err e => Err (f e) end.
Definition is_ok {E A} (r : result E A) : bool :=
  match r with Ok _ => true | Err _ => false end.

#[export] Instance result_ret E : MRet (result E) := λ A a, Ok a.
#[export] Instance result_bind E : MBind (result E) := λ A B f r, res_bind f r.
#[export] Instance result_fmap E : FMap (result E) := λ A B f r, res_map f r.

#[export] Instance result_eq_dec `{EqDecision E, EqDecision A} : EqDecision (result E A).
Proof. solve_decision. Defined.

(** [guard_or b e]: the statement [if (!b) throw e]. *)
Definition guard_or {E} (b : bool) (e : E) : result E unit :=
  if b then Ok tt else Err e.

(** [map_res f l] is [l.map(f)] where the first throwing call aborts the map. *)
Definition map_res {E A B} (f : A → result E B) : list A → result E (list B) :=
  fix go l :=
    match l with
    | [] => Ok []
    | x :: l' => y ← f x; ys ← go l'; Ok (y :: ys)
    end.

(** [fold_res f a l]: a [for] loop over [l] updating [a], aborted by a throw. *)
Definition fold_res {E A B} (f : A → B → result E A) : A → list B → result E A :=
  fix go a l :=
    match l with
    | [] => Ok a
    | x :: l' => a' ← f a x; go a' l'
    end.

Section result_lemmas.
Context {E A B : Type}.

Lemma bind_Ok (r : result E A) (f : A → result E B) b :
  (r ≫= f) = Ok b ↔ ∃ a, r = Ok a ∧ f a = Ok b.
Proof.
  unfold mbind, result_bind. destruct r; simpl; naive_solver.
Qed.

Lemma bind_Err (r : result E A) (f : A → result E B) e :
  (r ≫= f) = Err e ↔ r = Err e ∨ ∃ a, r = Ok a ∧ f a = Err e.
Proof.
  unfold mbind, result_bind. destruct r; simpl; naive_solver.
Qed.

Lemma bind_ret_l (a : A) (f : A → result E B) : (Ok a ≫= f) = f a.
Proof. done. Qed.

Lemma guard_or_Ok (b : bool) (e : E) u : guard_or b e = Ok u ↔ b = true.
Proof. unfold guard_or. destruct b, u; naive_solver. Qed.

Lemma guard_or_Err (b : bool) (e e' : E) :
  guard_or b e = Err e' ↔ b = false ∧ e = e'.
Proof. unfold guard_or. destruct b; naive_solver. Qed.

End result_lemmas.

Section map_res_lemmas.
Context {E A B : Type}.

Lemma map_res_cons (f : A → result E B) x l :
  map_res f (x :: l) = y ← f x; ys ← map_res f l; Ok (y :: ys).
Proof. done. Qed.

Lemma map_res_Ok (f : A → result E B) l l' :
  map_res f l = Ok l' ↔ Forall2 (λ x y, f x = Ok y) l l'.
Proof.
  revert l'. induction l as [|x l IH]; intros l'.
  - simpl. split; [by intros [= <-]|]. by inv 1.
  - rewrite map_res_cons, bind_Ok. split.
    + intros (y & Hy & Hl). apply bind_Ok in Hl as (ys & Hys & [= <-]).
      apply IH in Hys. by constructor.
    + inv 1. eexists. split; [done|]. apply bind_Ok.
      eexists. by rewrite IH.
Qed.

Lemma map_res_ext (f g : A → result E B) l :
  (∀ x, x ∈ l → f x = g x) → map_res f l = map_res g l.
Proof.
  induction l as [|x l IH]; intros Hl; [done|].
  rewrite !map_res_cons, (Hl x), IH; [done|set_solver..].
Qed.

Lemma map_res_total (f : A → result E B) l :
  (∀ x, x ∈ l → ∃ y, f x = Ok y) → ∃ l', map_res f l = Ok l'.
Proof.
  induction l as [|x l IH]; intros Hl; [by exists []|].
  destruct (Hl x) as [y Hy]; [set_solver|].
  destruct IH as [l' Hl']; [set_solver|].
  exists (y :: l'). by rewrite map_res_cons, Hy, bind_ret_l, Hl'.
Qed.

Lemma fold_res_cons (f : A → B → result E A) a x l :
  fold_res f a (x :: l) = a' ← f a x; fold_res f a' l.
Proof. done. Qed.

Lemma fold_res_nil (f : A → B → result E A) a : fold_res f a [] = Ok a.
Proof. done. Qed.
Lemma fold_res_app (f : A → B → result E A) a l1 l2 : fold_res f a (l1 ++ l2) = a' ← fold_res f a l1; fold_res f a' l2.
Proof.
  revert a. induction l1 as [|x l1 IH]; intros a; [done|]. cbn [app]. rewrite !fold_res_cons.
  destruct (f a x) as [a2|]; [|done]. rewrite !bind_ret_l. apply IH.
Qed.

(** The loop-invariant rule for [for] loops. *)
Lemma fold_res_inv (P : A → list B → Prop) (f : A → B → result E A) a l a' :
  P a [] →
  (∀ a x a1 seen, P a seen → f a x = Ok a1 → P a1 (seen ++ [x])) →
  fold_res f a l = Ok a' → P a' l.
Proof.
  intros H0 Hstep. change l with ([] ++ l) at 2. revert a H0.
  generalize (@nil B) as seen.
  induction l as [|x l IH]; intros seen a Ha Hf.
  - simpl in Hf. rewrite app_nil_r. congruence.
  - rewrite fold_res_cons in Hf. apply bind_Ok in Hf as (a1 & Hx & Hf).
    rewrite (cons_middle x seen l), app_assoc. eauto.
Qed.
End map_res_lemmas.
#[global] Opaque map_res fold_res.

(** Evaluate the closed decisions of the goal. *)
Ltac decide_closed :=
  repeat match goal with
  | |- context [@bool_decide ?P ?d] =>
      let b := eval vm_compute in (@bool_decide P d) in
      match b with true => idtac | false => idtac end; change (@bool_decide P d) with b
  end; cbn [negb andb orb].

Create HintDb js discriminated.
(** Break a successful monadic computation into its steps. *)
Ltac res_inv :=
  repeat match goal with
  | H : Ok _ = Ok _ |- _ => injection H as H; subst
  | H : Err _ = Err _ |- _ => injection H as H; subst
  | H : Ok _ = Err _ |- _ => discriminate H
  | H : Err _ = Ok _ |- _ => discriminate H
  | H : mret _ = Ok _ |- _ => injection H as H; subst
  | H : (_ ≫= _) = Ok _ |- _ =>
      let Hx := fresh "Hb" in apply bind_Ok in H as (? & Hx & H)
  | H : guard_or _ _ = Ok _ |- _ => apply guard_or_Ok in H
  | H : _ ∧ _ |- _ => destruct H
  | H : ∃ _, _ |- _ => destruct H
  | x : unit |- _ => destruct x
  end.

(** Case split on the first [match] or [if] of hypothesis [H]. *)
Ltac case_in H :=
  match type of H with
  | context [match ?x with _ => _ end] => destruct x eqn:?
  end.
Ltac cases_in H := repeat (case_in H; simplify_eq/=).

(** ** Orders: JavaScript comparators *)

(** A comparator as [Array.prototype.sort] wants it, by the sign of its
    result. *)
Class TotalPreorder {A} (cmp : A → A → comparison) : Prop := {
  cmp_refl x : cmp x x = Eq;
  cmp_anti x y : cmp y x = CompOpp (cmp x y);
  cmp_trans x y z : cmp x y ≠ Gt → cmp y z ≠ Gt → cmp x z ≠ Gt;
}.

(** [(a, b) => c(f(a), f(b))] *)
Definition cmp_on {A B} (f : A → B) (c : B → B → comparison) : A → A → comparison :=
  λ x y, c (f x) (f y).
(** [(a, b) => c1(a, b) || c2(a, b)] *)
Definition cmp_then {A} (c1 c2 : A → A → comparison) : A → A → comparison :=
  λ x y, match c1 x y with Eq => c2 x y | r => r end.

(** [(a, b) => c(b, a)]: descending order. *)
Definition cmp_flip {A} (c : A → A → comparison) : A → A → comparison := λ x y, c y x.

#[global] Typeclasses Opaque cmp_on cmp_then cmp_flip.

#[export] Instance Z_compare_preorder : TotalPreorder Z.compare.
Proof.
  split.
  - apply Z.compare_refl.
  - intros x y. apply Z.compare_antisym.
  - intros x y z. rewrite <- !Z.le_lteq || idtac.
    change (x <= y → y <= z → x <= z). lia.
Qed.

#[export] Instance cmp_on_preorder {A B} (f : A → B) c :
  TotalPreorder c → TotalPreorder (cmp_on f c).
Proof.
  intros [Hr Ha Ht]. unfold cmp_on. split; [done|intros; apply Ha|intros ???; apply Ht].
Qed.

#[export] Instance cmp_flip_preorder {A} (c : A → A → comparison) :
  TotalPreorder c → TotalPreorder (cmp_flip c).
Proof.
  intros [Hr Ha Ht]. unfold cmp_flip. split; [done|intros; apply Ha|]. intros x y z H1 H2. eauto.
Qed.

#[export] Instance cmp_then_preorder {A} (c1 c2 : A → A → comparison) :
  TotalPreorder c1 → TotalPreorder c2 → TotalPreorder (cmp_then c1 c2).
Proof.
  intros [Hr1 Ha1 Ht1] [Hr2 Ha2 Ht2]. unfold cmp_then. split.
  - intros x. by rewrite Hr1.
  - intros x y. rewrite (Ha1 x y), (Ha2 x y). by destruct (c1 x y).
  - intros x y z.
    pose proof (Ht1 x y z) as H1. pose proof (Ht1 z x y) as H2.
    pose proof (Ht1 y z x) as H3. pose proof (Ht2 x y z) as H4.
    rewrite (Ha1 x z), (Ha1 y z) in H2. rewrite (Ha1 x y), (Ha1 x z) in H3.
    destruct (c1 x y) eqn:E1, (c1 y z) eqn:E2, (c1 x z) eqn:E3; simpl in *;
      try done; try naive_solver.
Qed.

(** ** [Array.prototype.sort]: a stable sort *)

Fixpoint sort_insert {A} (cmp : A → A → comparison) (x : A) (l : list A) : list A :=
  match l with
  | [] => [x]
  | y :: l' => match cmp x y with Gt => y :: sort_insert cmp x l' | _ => x :: l end
  end.
Definition js_sort {A} (cmp : A → A → comparison) (l : list A) : list A :=
  foldr (sort_insert cmp) [] l.

Definition cmp_le {A} (cmp : A → A → comparison) (x y : A) : Prop := cmp x y ≠ Gt.

Section sort_lemmas.
Context {A : Type} (cmp : A → A → comparison).

Lemma sort_insert_perm x l : sort_insert cmp x l ≡ₚ x :: l.
Proof.
  induction l as [|y l IH]; simpl; [done|].
  destruct (cmp x y); [done..|]. rewrite IH. constructor.
Qed.

Lemma js_sort_perm l : js_sort cmp l ≡ₚ l.
Proof. induction l as [|x l IH]; simpl; [done|]. by rewrite sort_insert_perm, IH. Qed.

Lemma js_sort_length l : length (js_sort cmp l) = length l.
Proof. by rewrite js_sort_perm. Qed.

Lemma elem_of_js_sort x l : x ∈ js_sort cmp l ↔ x ∈ l.
Proof. by rewrite js_sort_perm. Qed.

Context `{!TotalPreorder cmp}.

Lemma sort_insert_sorted x l :
  StronglySorted (cmp_le cmp) l → StronglySorted (cmp_le cmp) (sort_insert cmp x l).
Proof.
  induction 1 as [|y l Hl IH Hy]; simpl.
  - repeat constructor.
  - assert (cmp_le cmp x y → StronglySorted (cmp_le cmp) (x :: y :: l)) as Hle.
    { intros Hxy. repeat constructor; [done..|].
      eapply Forall_impl; [exact Hy|]. intros z Hyz. by eapply cmp_trans. }
    destruct (cmp x y) eqn:E; [apply Hle; unfold cmp_le; congruence..|].
    constructor; [done|]. rewrite sort_insert_perm. constructor; [|done].
    unfold cmp_le. rewrite cmp_anti, E. done.
Qed.

Lemma js_sort_sorted l : StronglySorted (cmp_le cmp) (js_sort cmp l).
Proof. induction l; simpl; [constructor|]. by apply sort_insert_sorted. Qed.

(** Sorting a sorted array changes nothing. *)
Lemma js_sort_id l : StronglySorted (cmp_le cmp) l → js_sort cmp l = l.
Proof using Type.
  induction 1 as [|x l Hl IH Hx]; simpl; [done|]. rewrite IH.
  destruct Hx as [|y l' Hxy]; simpl; [done|].
  unfold cmp_le in Hxy. by destruct (cmp x y).
Qed.

(** Arrays with the same elements sort alike when only equal elements tie. *)
Lemma js_sort_unique l l' : l ≡ₚ l' →
  (∀ x y, x ∈ l → y ∈ l → cmp x y = Eq → x = y) → js_sort cmp l = js_sort cmp l'.
Proof.
  intros Hp Hties. apply (StronglySorted_unique_strong (cmp_le cmp));
    [|apply js_sort_sorted..|by rewrite !js_sort_perm].
  intros x y Hx Hy H1 H2. rewrite elem_of_js_sort in Hx, Hy. rewrite <- Hp in Hy.
  apply Hties; [done..|]. unfold cmp_le in H1, H2. rewrite cmp_anti in H2. by destruct (cmp x y).
Qed.

(** Stability: elements a filter keeps together stay in source order when
    they compare equal. *)
Lemma js_sort_stable (P : A → Prop) `{!∀ x, Decision (P x)} l :
  (∀ x y, P x → P y → cmp x y = Eq) → filter P (js_sort cmp l) = filter P l.
Proof.
  intros HP. induction l as [|x l IH]; simpl; [done|].
  rewrite (filter_cons P x l), <- IH. clear IH.
  induction (js_sort cmp l) as [|y k IH]; simpl.
  { rewrite filter_cons, filter_nil. done. }
  destruct (cmp x y) eqn:E; try (rewrite (filter_cons _ x); done).
  rewrite !(filter_cons _ y), IH. repeat case_decide; try done.
  by rewrite (HP x y) in E.
Qed.
End sort_lemmas.

(** ** [new Set(list)] and insertion-ordered [Map]s *)

(** [[...new Set(l)]]: the distinct elements, in order of first occurrence. *)
Fixpoint set_of {A} `{EqDecision A} (l : list A) : list A :=
  match l with
  | [] => []
  | x :: l' => x :: filter (λ y, y ≠ x) (set_of l')
  end.

Section set_lemmas.
Context `{EqDecision A}.
Implicit Types l : list A.

Lemma elem_of_set_of x l : x ∈ set_of l ↔ x ∈ l.
Proof.
  induction l as [|y l IH]; simpl; [done|].
  rewrite !elem_of_cons, list_elem_of_filter, IH.
  destruct (decide (x = y)); naive_solver.
Qed.

Lemma list_filter_all_id (P : A → Prop) `{!∀ x, Decision (P x)} l :
  (∀ x, x ∈ l → P x) → filter P l = l.
Proof.
  induction l as [|x l IH]; intros Hl; [done|].
  rewrite filter_cons_True by set_solver. f_equal. apply IH. set_solver.
Qed.

Lemma filter_all (p : A → bool) l : (∀ x, x ∈ l → p x = true) → List.filter p l = l.
Proof using Type. induction l as [|x l IH]; intros H; simpl; [done|]. rewrite H, IH by set_solver. done. Qed.
Lemma filter_none (p : A → bool) l : (∀ x, x ∈ l → p x = false) → List.filter p l = [].
Proof using Type.
  induction l as [|x l IH]; intros Hl; [done|]. simpl. rewrite Hl by (by left). apply IH. intros. apply Hl. by right.
Qed.

Lemma filter_filter_ext (p q r : A → bool) l : (∀ x, q x && p x = r x) → List.filter p (List.filter q l) = List.filter r l.
Proof using Type.
  intros Hr. induction l as [|x l IH]; [done|]. simpl. rewrite <- Hr, <- IH. destruct (q x); [|done]. done.
Qed.

Lemma NoDup_set_of l : NoDup (set_of l).
Proof.
  induction l as [|y l IH]; simpl; constructor.
  - rewrite list_elem_of_filter. naive_solver.
  - by apply NoDup_filter.
Qed.

Lemma set_of_snoc l x : set_of (l ++ [x]) = if decide (x ∈ l) then set_of l else set_of l ++ [x].
Proof.
  induction l as [|y l IH]; [done|]. cbn [set_of app]. rewrite IH. destruct (decide (x ∈ l)) as [Hx|Hx].
  - by rewrite decide_True by (by right).
  - rewrite filter_app. destruct (decide (x = y)) as [->|Hne].
    + rewrite decide_True by (by left). by rewrite filter_cons_False, filter_nil, app_nil_r by (by intros ?).
    + rewrite decide_False by (by rewrite not_elem_of_cons). by rewrite filter_cons_True, filter_nil.
Qed.

(** A set with at most one element holds whatever the list holds. *)
Lemma single_value l x : (length (set_of l) <= 1)%nat → x ∈ l → head (set_of l) = Some x.
Proof.
  intros Hl Hx%elem_of_set_of. destruct (set_of l) as [|y [|z k]]; simpl in *; [by apply elem_of_nil in Hx| |lia].
  by apply list_elem_of_singleton in Hx as ->.
Qed.

(** [new Set(l).size !== l.length] detects a duplicate. *)
Lemma set_of_length l : (length (set_of l) ≤ length l)%nat ∧
  (length (set_of l) = length l ↔ NoDup l).
Proof.
  assert (∀ P `{!∀ x, Decision (P x)} k, (length (filter P k : list A) ≤ length k)%nat) as Hf.
  { intros. apply length_filter. }
  induction l as [|x l [IH1 IH2]]; simpl; [split; [done|]; split; [constructor|done]|].
  pose proof (Hf (λ y, y ≠ x) _ (set_of l)) as H1. split; [lia|].
  rewrite NoDup_cons. split.
  - intros Heq. assert (length (set_of l) = length l) as Hl by lia.
    split; [|by apply IH2]. rewrite <- elem_of_set_of.
    intros Hx. apply (length_filter_lt (λ y, y ≠ x)) in Hx; [lia|naive_solver].
  - intros [Hx Hnd]. f_equal. apply IH2 in Hnd. rewrite <- Hnd.
    rewrite list_filter_all_id; [done|].
    intros y Hy ->. by rewrite elem_of_set_of in Hy.
Qed.
End set_lemmas.

Lemma set_of_map {A B} `{EqDecision A, EqDecision B} (f : A → B) `{!Inj (=) (=) f} (l : list A) :
  set_of (map f l) = map f (set_of l).
Proof.
  induction l as [|x l IH]; [done|]. cbn [map set_of]. rewrite IH. f_equal. clear IH.
  induction (set_of l) as [|y k IHk]; [done|]. cbn [map]. rewrite !filter_cons, IHk.
  destruct (decide (y = x)) as [->|Hne]; [by rewrite !decide_False by auto|].
  by rewrite !decide_True by (try intros ?%(inj f); done).
Qed.


(** ** Sums *)

Definition zsum (l : list Z) : Z := foldr Z.add 0 l.
(** The sum of [f] over [l]. *)
Definition zsum_by {A} (f : A → Z) (l : list A) : Z := zsum (map f l).

Section sums.
Context {A : Type}.
Implicit Types (f g : A → Z) (l : list A).

Lemma zsum_app (l1 l2 : list Z) : zsum (l1 ++ l2) = zsum l1 + zsum l2.
Proof. induction l1 as [|x l IH]; simpl; [done|]. rewrite IH. lia. Qed.
Lemma zsum_by_app f l1 l2 : zsum_by f (l1 ++ l2) = zsum_by f l1 + zsum_by f l2.
Proof. unfold zsum_by. by rewrite map_app, zsum_app. Qed.
Lemma zsum_by_cons f x l : zsum_by f (x :: l) = f x + zsum_by f l.
Proof. done. Qed.
Lemma zsum_by_nonneg f l : (∀ x, x ∈ l → 0 <= f x) → 0 <= zsum_by f l.
Proof.
  induction l as [|x l IH]; intros Hf; [done|]. rewrite zsum_by_cons.
  pose proof (Hf x ltac:(set_solver)). specialize (IH ltac:(set_solver)). lia.
Qed.
Lemma zsum_by_triangle f l : Z.abs (zsum_by f l) <= zsum_by (λ x, Z.abs (f x)) l.
Proof. induction l as [|x l IH]; [done|]. rewrite !zsum_by_cons. lia. Qed.
Lemma zsum_by_perm f l1 l2 : l1 ≡ₚ l2 → zsum_by f l1 = zsum_by f l2.
Proof. induction 1; rewrite ?zsum_by_cons; try lia; congruence. Qed.
Lemma zsum_perm (l1 l2 : list Z) : l1 ≡ₚ l2 → zsum l1 = zsum l2.
Proof. induction 1; simpl; lia. Qed.
Lemma zsum_by_ext f g l : (∀ x, x ∈ l → f x = g x) → zsum_by f l = zsum_by g l.
Proof.
  induction l as [|x l IH]; intros Hf; [done|]. rewrite !zsum_by_cons.
  rewrite (Hf x), IH by set_solver. done.
Qed.
Lemma zsum_by_plus f g l : zsum_by (λ x, f x + g x) l = zsum_by f l + zsum_by g l.
Proof. induction l as [|x l IH]; [done|]. rewrite !zsum_by_cons, IH. lia. Qed.
Lemma zsum_by_zero f l : (∀ x, x ∈ l → f x = 0) → zsum_by f l = 0.
Proof.
  induction l as [|x l IH]; intros Hf; [done|]. rewrite zsum_by_cons, (Hf x), IH by set_solver. done.
Qed.
Lemma zsum_by_elem_le f l x : (∀ y, y ∈ l → 0 <= f y) → x ∈ l → f x <= zsum_by f l.
Proof.
  induction l as [|y l IH]; intros Hf Hx; [set_solver|]. rewrite zsum_by_cons.
  apply elem_of_cons in Hx as [->|Hx].
  - pose proof (zsum_by_nonneg f l ltac:(set_solver)). lia.
  - pose proof (Hf y ltac:(set_solver)). specialize (IH ltac:(set_solver) Hx). lia.
Qed.
End sums.

(** ** [mapM] and filters *)

Lemma mapM_perm {A B} (f : A → option B) l l' : l ≡ₚ l' →
  match mapM f l, mapM f l' with Some k, Some k' => k ≡ₚ k' | None, None => True | _, _ => False end.
Proof.
  induction 1 as [|x l l' _ IH|x y l|l1 l2 l3 _ IH1 _ IH2]; cbn [mapM].
  - constructor.
  - destruct (f x); simpl; [|done]. destruct (mapM f l), (mapM f l'); simpl; try done. by constructor.
  - destruct (f x), (f y); simpl; try done; destruct (mapM f l); simpl; try done. by constructor.
  - destruct (mapM f l1), (mapM f l2), (mapM f l3); try done. by etrans.
Qed.

Lemma mapM_elem {A B} (f : A → option B) l k y : mapM f l = Some k → y ∈ k → ∃ x, x ∈ l ∧ f x = Some y.
Proof.
  intros H%mapM_Some Hy. induction H as [|x y' l k Hx _ IH]; [set_solver|].
  apply elem_of_cons in Hy as [->|Hy]; [set_solver|]. destruct (IH Hy) as (z & ? & ?). set_solver.
Qed.

Lemma mapM_has {A B} (f : A → option B) l k x : mapM f l = Some k → x ∈ l → ∃ y, y ∈ k ∧ f x = Some y.
Proof.
  intros H%mapM_Some Hx. induction H as [|x' y l k Hxy _ IH]; [by apply elem_of_nil in Hx|].
  apply elem_of_cons in Hx as [->|Hx]; [exists y; split; [by left|done]|].
  destruct (IH Hx) as (z & ? & ?). exists z. split; [by right|done].
Qed.
Lemma mapM_fixed {A B} (f : B → option A) (g : A → B) l : (∀ y, y ∈ l → f (g y) = Some y) → mapM f (map g l) = Some l.
Proof.
  induction l as [|y l IH]; intros Hf; [done|]. cbn [map mapM]. rewrite Hf by set_solver. cbn.
  by rewrite IH by set_solver.
Qed.
Lemma NoDup_map_inj {A B} (f : A → B) l x y : NoDup (map f l) → x ∈ l → y ∈ l → f x = f y → x = y.
Proof.
  induction l as [|z l IH]; cbn [map]; [set_solver|]. intros [Hz Hnd]%NoDup_cons Hx Hy Hf.
  apply elem_of_cons in Hx as [->|Hx], Hy as [->|Hy]; auto.
  - destruct Hz. rewrite Hf. by apply list_elem_of_fmap_2.
  - destruct Hz. rewrite <- Hf. by apply list_elem_of_fmap_2.
Qed.
Lemma filter_empty_in {A} (p : A → bool) l x : List.filter p l = [] → x ∈ l → p x = true → False.
Proof. intros Hn Hx Hp. apply list_elem_of_In in Hx. pose proof (proj2 (filter_In p x l) (conj Hx Hp)) as H. by rewrite Hn in H. Qed.
Lemma filter_snoc_none {A} (p : A → bool) l k : (∀ x, x ∈ k → p x = false) → List.filter p (l ++ k) = List.filter p l.
Proof. intros H. by rewrite List.filter_app, (filter_none p k H), app_nil_r. Qed.
Lemma filter_prod_none {A B} (p : A * B → bool) (l : list A) (k k' : list B) :
  (∀ x y, y ∈ k' → p (x, y) = false) → List.filter p (list_prod l (k ++ k')) = List.filter p (list_prod l k).
Proof.
  intros H. induction l as [|x l IH]; [done|]. cbn [list_prod].
  rewrite map_app, !List.filter_app, IH, (filter_none p (map _ k')), app_nil_r; [done|].
  intros q (y & -> & Hy)%list_elem_of_fmap. by apply H.
Qed.
