(* ===== verification/JsText.v ===== *)
(** JavaScript text and dictionaries, as the sources use them: [trim], case
    mapping, the currency-code pattern, [localeCompare], insertion-ordered
    [Map]s.  A string is a sequence of 8-bit code units; white space is the
    Latin-1 part of what [String.prototype.trim] removes, and case mapping acts
    on the ASCII letters. *)

From S2P Require Import Prelude.

#[global] Arguments String.append : simpl nomatch.

Definition code (c : ascii) : N := N_of_ascii c.

(** ** Numbers *)

(** A JavaScript number: the sources only test it for finiteness and hand it to
    [new Decimal] or [JSON.stringify], which see its decimal text. *)
Inductive js_number : Set :=
  | JsFinite (text : string)
  | JsNaN
  | JsInfinity (negative : bool).

#[export] Instance js_number_eq_dec : EqDecision js_number.
Proof. solve_decision. Defined.

(** ** White space *)

Definition is_ws (c : ascii) : bool :=
  let n := code c in
  ((9 <=? n) && (n <=? 13) || (n =? 32) || (n =? 160))%N.

Fixpoint trim_start (s : string) : string :=
  match s with
  | "" => ""
  | String c s' => if is_ws c then trim_start s' else s
  end.
Fixpoint trim_end (s : string) : string :=
  match s with
  | "" => ""
  | String c s' =>
      match trim_end s' with
      | "" => if is_ws c then "" else String c ""
      | t => String c t
      end
  end.
(** [s.trim()] *)
Definition trim (s : string) : string := trim_end (trim_start s).

(** JavaScript truthiness of a string: the empty string is falsy. *)
Definition truthy (s : string) : bool := negb (bool_decide (s = "")).
(** [Boolean(o?.trim())] *)
Definition truthy_trim (o : option string) : bool :=
  match o with Some s => truthy (trim s) | None => false end.

Lemma trim_start_head s c s' : trim_start s = String c s' → is_ws c = false.
Proof.
  induction s as [|d s IH]; simpl; [done|].
  destruct (is_ws d) eqn:E; [done|]. by intros [= -> _].
Qed.

Lemma trim_end_idem s : trim_end (trim_end s) = trim_end s.
Proof.
  induction s as [|c s IH]; simpl; [done|].
  destruct (trim_end s) as [|d t] eqn:E.
  - destruct (is_ws c) eqn:Hc; simpl; [done|]. by rewrite Hc.
  - simpl in IH |- *. by rewrite IH.
Qed.

Lemma trim_end_cons c s : is_ws c = false → ∃ t, trim_end (String c s) = String c t.
Proof. intros Hc. simpl. destruct (trim_end s); [rewrite Hc|]; eauto. Qed.

Lemma trim_idem s : trim (trim s) = trim s.
Proof.
  unfold trim. destruct (trim_start s) as [|c t] eqn:E; [done|].
  pose proof (trim_start_head _ _ _ E) as Hc.
  destruct (trim_end_cons c t Hc) as [u Hu].
  rewrite Hu. simpl trim_start. rewrite Hc, <- Hu. apply trim_end_idem.
Qed.

(** ** Case mapping and character classes *)

Definition is_upper (c : ascii) : bool := let n := code c in ((65 <=? n) && (n <=? 90))%N.
Definition is_lower (c : ascii) : bool := let n := code c in ((97 <=? n) && (n <=? 122))%N.
Definition is_digit (c : ascii) : bool := let n := code c in ((48 <=? n) && (n <=? 57))%N.

Definition upper_char (c : ascii) : ascii :=
  if is_lower c then ascii_of_N (code c - 32) else c.
Definition lower_char (c : ascii) : ascii :=
  if is_upper c then ascii_of_N (code c + 32) else c.

Fixpoint string_map (f : ascii → ascii) (s : string) : string :=
  match s with "" => "" | String c s' => String (f c) (string_map f s') end.
Definition to_upper : string → string := string_map upper_char.
Definition to_lower : string → string := string_map lower_char.

Fixpoint string_all (p : ascii → bool) (s : string) : bool :=
  match s with "" => true | String c s' => p c && string_all p s' end.

(** [/^[A-Z]{3}$/.test(s)] *)
Definition is_currency_code (s : string) : bool :=
  (String.length s =? 3)%nat && string_all is_upper s.

Lemma upper_char_idem c : upper_char (upper_char c) = upper_char c.
Proof. by destruct c as [[] [] [] [] [] [] [] []]. Qed.

Lemma upper_char_id c : is_upper c = true → upper_char c = c.
Proof. by destruct c as [[] [] [] [] [] [] [] []]. Qed.

Lemma to_upper_idem s : to_upper (to_upper s) = to_upper s.
Proof.
  unfold to_upper. induction s as [|c s IH]; simpl; [done|].
  by rewrite upper_char_idem, IH.
Qed.

Lemma to_upper_id s : string_all is_upper s = true → to_upper s = s.
Proof.
  unfold to_upper. induction s as [|c s IH]; simpl; [done|].
  intros [??]%andb_true_iff. rewrite upper_char_id, IH; done.
Qed.

Lemma is_currency_code_upper s : is_currency_code s = true → to_upper s = s.
Proof. unfold is_currency_code. intros [_ ?]%andb_true_iff. by apply to_upper_id. Qed.

Lemma is_currency_code_nonempty s : is_currency_code s = true → s ≠ "".
Proof. by intros H ->. Qed.

(** [parts.join(sep)] *)
Fixpoint join (sep : string) (parts : list string) : string :=
  match parts with
  | [] => ""
  | [p] => p
  | p :: ps => p +:+ sep +:+ join sep ps
  end.

Lemma sapp_assoc (a b c : string) : (a +:+ b) +:+ c = a +:+ b +:+ c.
Proof. induction a as [|x a IH]; simpl; [done|]. by rewrite IH. Qed.
Lemma append_nil_r (a : string) : a +:+ "" = a.
Proof. induction a as [|x a IH]; simpl; [done|]. by rewrite IH. Qed.
Lemma sapp_length (a b : string) : String.length (a +:+ b) = (String.length a + String.length b)%nat.
Proof. induction a as [|x a IH]; simpl; [done|]. by rewrite IH. Qed.

(** ** [String.prototype.localeCompare]

    Its order is chosen by the host's collation tables, so it is a parameter;
    the code relies on it being a total preorder.  Distinct strings may compare
    equal (canonically equivalent ones do). *)
Class Collator := localeCompare : string → string → comparison.
Class CollatorLaws {C : Collator} : Prop := localeCompare_preorder :: TotalPreorder localeCompare.
Arguments CollatorLaws : clear implicits.

(** A collation for concrete runs: by code unit. *)
Definition code_unit_collator : Collator := String.compare.

(** The order [Array.prototype.sort] uses without a comparator, on strings. *)
Definition code_unit_compare : string → string → comparison := String.compare.

Lemma ascii_compare_lt c d : Ascii.compare c d = Lt ↔ (code c < code d)%N.
Proof. unfold Ascii.compare, code. apply N.compare_lt_iff. Qed.

#[export] Instance code_unit_preorder : TotalPreorder code_unit_compare.
Proof.
  unfold code_unit_compare. split.
  - intros x. induction x as [|c x IH]; simpl; [done|].
    unfold Ascii.compare. by rewrite N.compare_refl.
  - intros x y. apply String.compare_antisym.
  - intros x. induction x as [|c x IH]; intros [|d y] [|e z]; simpl; try done.
    unfold Ascii.compare. intros H1 H2.
    destruct (N_of_ascii c ?= N_of_ascii d)%N eqn:E1,
      (N_of_ascii d ?= N_of_ascii e)%N eqn:E2; try done;
    rewrite ?N.compare_eq_iff, ?N.compare_lt_iff in *.
    + rewrite E1, E2, N.compare_refl. eauto.
    + rewrite E1. by rewrite (proj2 (N.compare_lt_iff _ _)).
    + rewrite <- E2. by rewrite (proj2 (N.compare_lt_iff _ _)).
    + rewrite (proj2 (N.compare_lt_iff _ _)); [done|]. by etrans.
Qed.

#[export] Instance code_unit_collator_laws : CollatorLaws code_unit_collator :=
  code_unit_preorder.

(** ** Insertion-ordered [Map]s *)

Section js_map.
Context {K V : Type} `{EqDecision K}.

(** [m.get(k)] *)
Fixpoint map_get (m : list (K * V)) (k : K) : option V :=
  match m with
  | [] => None
  | (k', v) :: m' => if decide (k = k') then Some v else map_get m' k
  end.
(** [m.set(k, v)]: an existing key keeps its position. *)
Fixpoint map_set (m : list (K * V)) (k : K) (v : V) : list (K * V) :=
  match m with
  | [] => [(k, v)]
  | (k', v') :: m' => if decide (k = k') then (k, v) :: m' else (k', v') :: map_set m' k v
  end.
(** [new Map(entries)]: later entries win. *)
Definition map_of (entries : list (K * V)) : list (K * V) :=
  foldl (λ m e, map_set m e.1 e.2) [] entries.

Lemma map_get_set_eq m k v : map_get (map_set m k v) k = Some v.
Proof.
  induction m as [|[k' v'] m IH]; simpl; [by rewrite decide_True|].
  destruct (decide (k = k')); simpl; [by rewrite decide_True|by rewrite decide_False].
Qed.

Lemma map_get_set_ne m k k' v : k' ≠ k → map_get (map_set m k v) k' = map_get m k'.
Proof.
  intros Hne. induction m as [|[k2 v2] m IH]; simpl; [by rewrite decide_False|].
  destruct (decide (k = k2)) as [<-|]; simpl.
  - by rewrite !decide_False by done.
  - by rewrite IH.
Qed.

Lemma map_get_elem m k v : map_get m k = Some v → (k, v) ∈ m.
Proof.
  induction m as [|[k2 v2] m IH]; simpl; [done|].
  destruct (decide (k = k2)) as [<-|]; set_solver.
Qed.

Lemma map_get_Some m k v : NoDup m.*1 → (k, v) ∈ m → map_get m k = Some v.
Proof.
  induction m as [|[k2 v2] m IH]; simpl; [set_solver|].
  intros [Hk Hnd]%NoDup_cons [[= -> ->]|Hin]%elem_of_cons.
  - by rewrite decide_True.
  - rewrite decide_False; [by apply IH|]. intros ->. apply Hk.
    apply list_elem_of_fmap. by exists (k2, v).
Qed.

Lemma map_get_None m k : map_get m k = None ↔ k ∉ m.*1.
Proof.
  induction m as [|[k2 v2] m IH]; simpl; [set_solver|].
  destruct (decide (k = k2)) as [<-|]; [set_solver|]. rewrite IH. set_solver.
Qed.

Lemma map_set_keys m k v :
  (map_set m k v).*1 = if decide (k ∈ m.*1) then m.*1 else m.*1 ++ [k].
Proof.
  induction m as [|[k2 v2] m IH]; [done|]. cbn [map_set fmap list_fmap fst].
  destruct (decide (k = k2)) as [<-|]; cbn [fmap list_fmap fst].
  - rewrite decide_True by set_solver. done.
  - rewrite IH. repeat case_decide; set_solver.
Qed.

Lemma NoDup_map_set m k v : NoDup m.*1 → NoDup (map_set m k v).*1.
Proof.
  intros Hnd. rewrite map_set_keys. case_decide; [done|].
  apply NoDup_app. split; [done|]. split; [set_solver|]. apply NoDup_singleton.
Qed.
End js_map.
