(* ===== verification/Decimal.v ===== *)
(** The decimal.js interface: the operations the sources call on [Decimal]
    objects (class [DecimalJs]), the documented behaviour they rely on (class
    [DecimalLaws]: 20 significant digits, ROUND_HALF_UP), exact amounts in
    ten-thousandths of a currency unit ([d ≐ m]), and a concrete exact
    implementation ([ExactDecimal]) for evaluating the definitions. *)

From Stdlib Require Import QArith Qabs Lqa Qround.
From S2P Require Import Prelude JsText.
#[local] Open Scope Z_scope.

(** ** Plain decimal notation *)

Definition digit_char (d : Z) : ascii := ascii_of_N (48 + Z.to_N d).
Definition digit_val (c : ascii) : Z := Z.of_N (code c) - 48.

(** The digits of [n], most significant first, in front of [acc]; [fuel] bounds
    the number of digits. *)
Fixpoint int_digits (fuel : nat) (n : Z) (acc : string) : string :=
  match fuel with
  | O => acc
  | S f =>
      let acc' := String (digit_char (n mod 10)) acc in
      if n / 10 =? 0 then acc' else int_digits f (n / 10) acc'
  end.
(** Exactly the [sc] lowest digits of [n], in front of [acc]. *)
Fixpoint frac_digits (sc : nat) (n : Z) (acc : string) : string :=
  match sc with
  | O => acc
  | S k => frac_digits k (n / 10) (String (digit_char (n mod 10)) acc)
  end.
Definition nat_text (n : Z) (acc : string) : string :=
  int_digits (S (Z.to_nat (Z.log2 n))) n acc.

(** [fixed sc m] writes [m / 10^sc] in normal notation with [sc] decimals. *)
Definition fixed (sc : nat) (m : Z) : string :=
  let a := Z.abs m in
  let tail := match sc with O => "" | _ => String "." (frac_digits sc a "") end in
  let body := nat_text (a / 10 ^ Z.of_nat sc) tail in
  if m <? 0 then String "-" body else body.

(** Read digits with at most one decimal point: the digits' value and the number
    of decimals. *)
Fixpoint scan (v : Z) (sc : option nat) (s : string) : option (Z * nat) :=
  match s with
  | "" => Some (v, default 0%nat sc)
  | String c s' =>
      if is_digit c then scan (v * 10 + digit_val c) (S <$> sc) s'
      else if decide (c = "."%char) then
        match sc with None => scan v (Some 0%nat) s' | Some _ => None end
      else None
  end.
(** [plain s]: [s] as an optional sign, a digit, then digits with at most one
    point, i.e. the part of decimal.js's input grammar that database numerics
    and EDI amounts use. *)
Definition plain (s : string) : option (Z * nat) :=
  match s with
  | String c s' =>
      if is_digit c then scan 0 None s
      else if decide (c = "-"%char) then
        match s' with
        | String d _ => if is_digit d then '(m, sc) ← scan 0 None s'; Some (- m, sc) else None
        | "" => None
        end
      else None
  | "" => None
  end.

Section digits.
Lemma digit_char_ok d : 0 <= d < 10 →
  is_digit (digit_char d) = true ∧ digit_val (digit_char d) = d.
Proof.
  intros Hd.
  assert (d = 0 ∨ d = 1 ∨ d = 2 ∨ d = 3 ∨ d = 4 ∨ d = 5 ∨ d = 6 ∨ d = 7 ∨ d = 8 ∨ d = 9)
    as H by lia.
  by repeat destruct H as [->|H]; subst.
Qed.

Lemma scan_digit v sc d s : 0 <= d < 10 →
  scan v sc (String (digit_char d) s) = scan (v * 10 + d) (S <$> sc) s.
Proof. intros [H1 H2]%digit_char_ok. simpl. by rewrite H1, H2. Qed.

Lemma scan_int_digits fuel n acc :
  0 <= n → n < 2 ^ Z.of_nat fuel → (0 < fuel)%nat →
  scan 0 None (int_digits fuel n acc) = scan n None acc.
Proof.
  revert n acc. induction fuel as [|f IH]; intros n acc Hn Hlt Hf; [lia|].
  pose proof (Z.mod_pos_bound n 10). pose proof (Z.div_mod n 10). cbn [int_digits].
  destruct (Z.eqb_spec (n / 10) 0) as [E|E].
  - rewrite scan_digit by lia. simpl. f_equal. lia.
  - rewrite Nat2Z.inj_succ, Z.pow_succ_r in Hlt by lia.
    assert (0 < n / 10) by (pose proof (Z.div_pos n 10); lia).
    assert (f ≠ 0%nat) by (intros ->; simpl in Hlt; lia).
    rewrite IH by lia. rewrite scan_digit by lia. simpl. f_equal. lia.
Qed.

Lemma scan_frac_digits sc v k n acc :
  0 <= n →
  scan v (Some k) (frac_digits sc n acc) =
  scan (v * 10 ^ Z.of_nat sc + n mod 10 ^ Z.of_nat sc) (Some (k + sc)%nat) acc.
Proof.
  revert n acc. induction sc as [|sc IH]; intros n acc Hn; cbn [frac_digits].
  - rewrite Z.mod_1_r. simpl Z.of_nat. f_equal; [lia|f_equal; lia].
  - pose proof (Z.mod_pos_bound n 10).
    rewrite IH by (apply Z.div_pos; lia). rewrite scan_digit by lia.
    rewrite Nat2Z.inj_succ, Z.pow_succ_r by lia.
    rewrite (Z.rem_mul_r n 10) by (try lia; apply Z.pow_nonzero; lia).
    simpl. f_equal; [ring|f_equal; lia].
Qed.

Lemma scan_nat_text n acc : 0 <= n → scan 0 None (nat_text n acc) = scan n None acc.
Proof.
  intros Hn. unfold nat_text. apply scan_int_digits; [done| |lia].
  destruct (Z.eq_dec n 0) as [->|]; [done|].
  pose proof (Z.log2_spec n) as [_ H]; [lia|].
  rewrite Nat2Z.inj_succ, Z2Nat.id by apply Z.log2_nonneg. done.
Qed.

Lemma int_digits_head fuel n acc :
  (0 < fuel)%nat → 0 <= n → ∃ c s, int_digits fuel n acc = String c s ∧ is_digit c = true.
Proof.
  revert n acc. induction fuel as [|f IH]; intros n acc Hf Hn; [lia|]. cbn [int_digits].
  pose proof (Z.mod_pos_bound n 10).
  destruct (n / 10 =? 0) eqn:E; [eexists _, _; split; [done|]; by apply digit_char_ok; lia|].
  destruct f as [|f]; [|apply IH; [lia|apply Z.div_pos; lia]].
  simpl. eexists _, _; split; [done|]. by apply digit_char_ok; lia.
Qed.

(** Reading back what [fixed] writes. *)
Lemma plain_fixed sc m : plain (fixed sc m) = Some (m, sc).
Proof.
  set (a := Z.abs m). set (P := 10 ^ Z.of_nat sc).
  assert (0 < P) by (apply Z.pow_pos_nonneg; lia).
  assert (0 <= a / P) by (apply Z.div_pos; lia).
  set (tail := match sc with O => "" | _ => String "." (frac_digits sc a "") end).
  assert (scan 0 None (nat_text (a / P) tail) = Some (a, sc)) as Hs.
  { rewrite scan_nat_text by done. unfold tail. destruct sc as [|k].
    - unfold P. simpl. by rewrite Z.div_1_r.
    - cbn [scan]. change (is_digit ".") with false.
      rewrite decide_True by done. rewrite scan_frac_digits by lia.
      simpl. fold P. f_equal. f_equal. rewrite (Z.div_mod a P) at 3 by lia. ring. }
  destruct (int_digits_head (S (Z.to_nat (Z.log2 (a / P)))) (a / P) tail)
    as (c & s & Hc & Hd); [lia|done|].
  change (int_digits _ _ _) with (nat_text (a / P) tail) in Hc.
  unfold fixed. fold a P tail. rewrite Hc in Hs |- *. unfold plain.
  destruct (Z.ltb_spec m 0).
  - change (is_digit "-") with false. rewrite decide_True by done.
    rewrite Hd, Hs. simpl. f_equal. f_equal. lia.
  - rewrite Hd, Hs. f_equal. f_equal. lia.
Qed.

Lemma plain_neg_zero sc : plain (String "-" (fixed sc 0)) = Some (0, sc).
Proof.
  pose proof (plain_fixed sc 0) as Hp. unfold fixed in *. change (0 <? 0) with false in *.
  destruct (int_digits_head (S (Z.to_nat (Z.log2 (Z.abs 0 / 10 ^ Z.of_nat sc)))) (Z.abs 0 / 10 ^ Z.of_nat sc)
    match sc with O => "" | _ => String "." (frac_digits sc (Z.abs 0) "") end)
    as (c & s & Hc & Hd); [lia|by rewrite Z.div_0_l by (apply Z.pow_nonzero; lia)|].
  cbv zeta in *. unfold nat_text in *. rewrite Hc in *. unfold plain in *. rewrite Hd in Hp.
  change (is_digit "-") with false. rewrite decide_True, Hd by done. by rewrite Hp.
Qed.

Lemma fixed_inj sc m n : fixed sc m = fixed sc n → m = n.
Proof. intros H%(f_equal plain). rewrite !plain_fixed in H. congruence. Qed.
End digits.

(** [money_units s]: the amount [s] writes, in ten-thousandths, when it is plain
    notation and a whole number of them. *)
Definition money_units (s : string) : option Z :=
  '(m, sc) ← plain s;
  let p := 10 ^ Z.of_nat sc in
  if m * 10000 mod p =? 0 then Some (m * 10000 / p) else None.

Lemma money_units_fixed m : money_units (fixed 4 m) = Some m.
Proof.
  unfold money_units. rewrite plain_fixed. simpl.
  by rewrite Z.mod_mul, Z.div_mul by lia.
Qed.
Lemma money_units_neg_zero : money_units (String "-" (fixed 4 0)) = Some 0.
Proof. unfold money_units. by rewrite plain_neg_zero. Qed.

(** ** The interface *)

Class DecimalJs := {
  dec : Type;
  new_Decimal : string → option dec;  (** [new Decimal(s)]; [None]: it throws *)
  d_of_int : Z → dec;                 (** [new Decimal(n)], an integer literal *)
  d_plus : dec → dec → dec;
  d_minus : dec → dec → dec;
  d_times : dec → dec → dec;
  d_div : dec → dec → dec;
  d_abs : dec → dec;
  d_cmp : dec → dec → option comparison; (** [None]: an operand is NaN *)
  d_isFinite : dec → bool;
  d_isZero : dec → bool;
  d_isNeg : dec → bool;                  (** sign bit set, also for [-0] *)
  d_isPos : dec → bool;
  d_toString : dec → string;
  d_toFixed : nat → dec → string;
  d_toDP : nat → dec → dec;              (** [toDecimalPlaces(n, ROUND_HALF_UP)] *)
}.

Section comparisons.
Context `{DecimalJs}.
(** [a.eq(b)], [a.lt(b)], ...: false when an operand is NaN. *)
Definition d_eq (a b : dec) : bool :=
  match d_cmp a b with Some Eq => true | _ => false end.
Definition d_lt (a b : dec) : bool :=
  match d_cmp a b with Some Lt => true | _ => false end.
Definition d_lte (a b : dec) : bool :=
  match d_cmp a b with Some Lt | Some Eq => true | _ => false end.
Definition d_gt (a b : dec) : bool :=
  match d_cmp a b with Some Gt => true | _ => false end.
Definition d_gte (a b : dec) : bool :=
  match d_cmp a b with Some Gt | Some Eq => true | _ => false end.
End comparisons.

(** ** The documented behaviour *)

Definition scaled (m : Z) (sc : nat) : Q := (inject_Z m / inject_Z (10 ^ Z.of_nat sc))%Q.

Arguments scaled : simpl never.

(** A value 20 significant digits hold exactly. *)
Definition fits (q : Q) : Prop :=
  ∃ m sc, Z.abs m < 10 ^ 20 ∧ (sc ≤ 40)%nat ∧ (q == scaled m sc)%Q.

(** [q] rounded to [n] decimals, halves away from zero, in units of [10^-n]. *)
Definition half_up (n : nat) (q : Q) : Z :=
  let x := (q * inject_Z (10 ^ Z.of_nat n))%Q in
  if Qle_bool 0 x then Qfloor (x + (1 # 2)) else - Qfloor (- x + (1 # 2)).

Arguments half_up : simpl never.

Class DecimalLaws (D : DecimalJs) := {
  dval : dec → Q;
  law_new s m sc : plain s = Some (m, sc) →
    ∃ d, new_Decimal s = Some d ∧ d_isFinite d = true ∧ (dval d == scaled m sc)%Q;
  law_int n : Z.abs n < 10 ^ 15 →
    d_isFinite (d_of_int n) = true ∧ (dval (d_of_int n) == inject_Z n)%Q ∧
    d_isNeg (d_of_int n) = (n <? 0);
  law_plus a b : d_isFinite a = true → d_isFinite b = true → fits (dval a + dval b) →
    d_isFinite (d_plus a b) = true ∧ (dval (d_plus a b) == dval a + dval b)%Q;
  law_minus a b : d_isFinite a = true → d_isFinite b = true → fits (dval a - dval b) →
    d_isFinite (d_minus a b) = true ∧ (dval (d_minus a b) == dval a - dval b)%Q;
  law_times a b : d_isFinite a = true → d_isFinite b = true → fits (dval a * dval b) →
    d_isFinite (d_times a b) = true ∧ (dval (d_times a b) == dval a * dval b)%Q;
  law_abs a : d_isFinite a = true →
    d_isFinite (d_abs a) = true ∧ (dval (d_abs a) == Qabs (dval a))%Q ∧
    d_isNeg (d_abs a) = false;
  law_cmp a b : d_isFinite a = true → d_isFinite b = true →
    d_cmp a b = Some (dval a ?= dval b)%Q;
  law_zero a : d_isFinite a = true → d_isZero a = true ↔ (dval a == 0)%Q;
  law_neg a : d_isFinite a = true → (dval a < 0)%Q → d_isNeg a = true;
  law_nonneg a : d_isFinite a = true → (0 < dval a)%Q → d_isNeg a = false;
  law_pos a : d_isFinite a = true → d_isPos a = negb (d_isNeg a);
  (** the sign of a zero result, under ROUND_HALF_UP *)
  law_plus_sign a b : d_isFinite a = true → d_isFinite b = true →
    d_isNeg a = false → d_isNeg b = false → d_isNeg (d_plus a b) = false;
  law_minus_zero a b : d_isFinite a = true → d_isFinite b = true →
    d_isNeg a = false → d_isNeg b = false → (dval a == dval b)%Q →
    d_isNeg (d_minus a b) = false;
  law_toString a : ∃ d, new_Decimal (d_toString a) = Some d ∧
    d_isFinite d = d_isFinite a ∧ (d_isFinite a = true → (dval d == dval a)%Q);
  law_toString_eq a b : d_isFinite a = true → d_isFinite b = true → (dval a == dval b)%Q →
    d_toString a = d_toString b;
  (** [cmp] orders all non-NaN values, infinities included *)
  law_cmp_flip a b : d_cmp b a = CompOpp <$> d_cmp a b;
  law_lte_trans a b c : d_lte a b = true → d_lte b c = true → d_lte a c = true;
  law_lt_lte_trans a b c : d_lt a b = true → d_lte b c = true → d_lt a c = true;
  law_toFixed_new n a : is_Some (new_Decimal (d_toFixed n a));
  law_toFixed n a : d_isFinite a = true →
    half_up n (dval a) ≠ 0 ∨ (0 <= dval a)%Q →
    d_toFixed n a = fixed n (half_up n (dval a));
  law_toFixed_neg0 n a : d_isFinite a = true → half_up n (dval a) = 0 → (dval a < 0)%Q →
    d_toFixed n a = String "-" (fixed n 0);
  law_toDP n a : d_isFinite a = true →
    d_isFinite (d_toDP n a) = true ∧ (dval (d_toDP n a) == scaled (half_up n (dval a)) n)%Q ∧
    d_isNeg (d_toDP n a) = d_isNeg a;
}.

(** ** Scaled integers as rationals *)

Lemma pow10_pos (sc : nat) : 0 < 10 ^ Z.of_nat sc.
Proof. apply Z.pow_pos_nonneg; lia. Qed.

Lemma pow10_Q (sc : nat) : (0 < inject_Z (10 ^ Z.of_nat sc))%Q.
Proof. rewrite <- (Zlt_Qlt 0). apply pow10_pos. Qed.

Lemma scaled_units m sc : (scaled m sc * inject_Z (10 ^ Z.of_nat sc) == inject_Z m)%Q.
Proof. unfold scaled. field. pose proof (pow10_Q sc). lra. Qed.

Lemma scaled_cmp m n sc : (scaled m sc ?= scaled n sc)%Q = (m ?= n).
Proof.
  pose proof (pow10_Q sc) as Hp.
  assert (∀ a b, a <= b → (scaled a sc <= scaled b sc)%Q) as Hle.
  { intros a b Hab. unfold scaled, Qdiv.
    apply Qmult_le_compat_r; [by rewrite <- Zle_Qle|]. apply Qlt_le_weak.
    by apply Qinv_lt_0_compat. }
  assert (∀ a b, a < b → (scaled a sc < scaled b sc)%Q) as Hlt.
  { intros a b Hab. unfold scaled, Qdiv.
    apply Qmult_lt_compat_r; [by apply Qinv_lt_0_compat|by rewrite <- Zlt_Qlt]. }
  destruct (Z.compare_spec m n) as [->|H|H].
  - by apply Qeq_alt.
  - apply Qlt_alt. by apply Hlt.
  - apply Qgt_alt. by apply Hlt.
Qed.

Lemma scaled_lt m n sc : (scaled m sc < scaled n sc)%Q → m < n.
Proof.
  intros H. rewrite Qlt_alt, scaled_cmp in H. by apply Z.compare_lt_iff in H.
Qed.

Lemma scaled_inj m n sc : (scaled m sc == scaled n sc)%Q → m = n.
Proof. intros H%Qeq_alt. rewrite scaled_cmp in H. by apply Z.compare_eq_iff. Qed.

Lemma scaled_plus m n sc : (scaled m sc + scaled n sc == scaled (m + n) sc)%Q.
Proof. unfold scaled. rewrite inject_Z_plus. field. pose proof (pow10_Q sc). lra. Qed.

Lemma scaled_minus m n sc : (scaled m sc - scaled n sc == scaled (m - n) sc)%Q.
Proof.
  unfold scaled, Z.sub. rewrite inject_Z_plus, inject_Z_opp.
  field. pose proof (pow10_Q sc). lra.
Qed.

Lemma scaled_times m n k l :
  (scaled m k * scaled n l == scaled (m * n) (k + l))%Q.
Proof.
  unfold scaled. rewrite Nat2Z.inj_add, Z.pow_add_r, !inject_Z_mult by lia.
  field. pose proof (pow10_Q k). pose proof (pow10_Q l). lra.
Qed.

Lemma scaled_0 sc : (scaled 0 sc == 0)%Q.
Proof. unfold scaled. field. pose proof (pow10_Q sc). lra. Qed.

Lemma scaled_int m : (scaled m 0 == inject_Z m)%Q.
Proof. unfold scaled. change (10 ^ Z.of_nat 0) with 1. by field. Qed.

Lemma scaled_opp m sc : (scaled (- m) sc == - scaled m sc)%Q.
Proof. unfold scaled. rewrite inject_Z_opp. field. pose proof (pow10_Q sc). lra. Qed.

Lemma scaled_abs m sc : (Qabs (scaled m sc) == scaled (Z.abs m) sc)%Q.
Proof.
  destruct (Z.abs_spec m) as [[H ->]|[H ->]].
  - apply Qabs_pos. rewrite <- (scaled_0 sc). apply Qle_alt.
    rewrite scaled_cmp. change (0 <= m). done.
  - rewrite Qabs_neg.
    + unfold scaled. rewrite inject_Z_opp. field. pose proof (pow10_Q sc). lra.
    + rewrite <- (scaled_0 sc). apply Qle_alt. rewrite scaled_cmp. change (m <= 0). lia.
Qed.

Lemma half_up_int n q m : (q * inject_Z (10 ^ Z.of_nat n) == inject_Z m)%Q → half_up n q = m.
Proof.
  intros Hq. unfold half_up.
  assert (∀ k : Z, Qfloor (inject_Z k + (1 # 2)) = k) as Hf.
  { intros k. assert (inject_Z k + (1 # 2) == (k * 2 + 1) # 2)%Q as ->.
    { unfold Qeq, Qplus, inject_Z. simpl. lia. }
    unfold Qfloor. symmetry. apply (Z.div_unique _ _ _ 1); lia. }
  destruct (Qle_bool 0 _); rewrite Hq.
  - apply Hf.
  - rewrite <- inject_Z_opp, Hf. lia.
Qed.

Lemma half_up_scaled n m : half_up n (scaled m n) = m.
Proof. apply half_up_int, scaled_units. Qed.

#[export] Instance half_up_proper n : Proper (Qeq ==> eq) (half_up n).
Proof.
  intros q r Hqr. unfold half_up.
  assert (Qle_bool 0 (q * inject_Z (10 ^ Z.of_nat n)) =
          Qle_bool 0 (r * inject_Z (10 ^ Z.of_nat n))) as -> by by rewrite Hqr.
  destruct (Qle_bool _ _); by rewrite Hqr.
Qed.

(** ** Exact money: [d ≐ m] says [d] is [m] ten-thousandths *)

Section money.
Context {D : DecimalJs} {L : DecimalLaws D}.

Definition denotes (d : dec) (m : Z) : Prop :=
  d_isFinite d = true ∧ (dval d == scaled m 4)%Q.

Lemma money_fits m : Z.abs m < 10 ^ 20 → fits (scaled m 4).
Proof. intros. exists m, 4%nat. split; [done|]. split; [lia|done]. Qed.

Lemma fits_proper q r : (q == r)%Q → fits r → fits q.
Proof. intros Hq (m & sc & ? & ? & Hr). exists m, sc. rewrite Hq. done. Qed.

Lemma denotes_inj d m n : denotes d m → denotes d n → m = n.
Proof. intros [_ H1] [_ H2]. apply (scaled_inj _ _ 4). by rewrite <- H1, <- H2. Qed.

Lemma money_int n : Z.abs n < 10 ^ 15 → denotes (d_of_int n) (n * 10000).
Proof.
  intros (Hf & Hv & _)%law_int. split; [done|]. rewrite Hv.
  unfold scaled. rewrite inject_Z_mult. change (10 ^ Z.of_nat 4) with 10000.
  by field.
Qed.
Lemma money_zero : denotes (d_of_int 0) 0.
Proof. by apply (money_int 0). Qed.

Lemma money_new s m : money_units s = Some m →
  ∃ d, new_Decimal s = Some d ∧ denotes d m.
Proof.
  unfold money_units. intros ([m' sc] & Hp & Hm)%bind_Some. cbv zeta in Hm.
  destruct (Z.eqb_spec (m' * 10000 mod 10 ^ Z.of_nat sc) 0) as [E|]; [|done].
  injection Hm as <-. destruct (law_new _ _ _ Hp) as (d & ? & ? & Hv).
  exists d. split; [done|]. split; [done|]. rewrite Hv. unfold scaled.
  pose proof (pow10_pos sc). pose proof (pow10_Q sc).
  assert (m' * 10000 = 10 ^ Z.of_nat sc * (m' * 10000 / 10 ^ Z.of_nat sc)) as Hd
    by (rewrite (Z.div_mod _ (10 ^ Z.of_nat sc)) at 1 by lia; lia).
  set (k := m' * 10000 / _) in *. clearbody k.
  assert (inject_Z m' * inject_Z 10000 == inject_Z (10 ^ Z.of_nat sc) * inject_Z k)%Q as Hq
    by (rewrite <- !inject_Z_mult, Hd; done).
  change (10 ^ Z.of_nat 4) with 10000.
  assert (inject_Z m' == inject_Z (10 ^ Z.of_nat sc) * inject_Z k / inject_Z 10000)%Q as ->
    by (rewrite <- Hq; field).
  field. lra.
Qed.

Lemma money_plus a b m n : denotes a m → denotes b n → Z.abs (m + n) < 10 ^ 20 →
  denotes (d_plus a b) (m + n).
Proof.
  intros [Ha Hm] [Hb Hn] Hlt.
  assert (dval a + dval b == scaled (m + n) 4)%Q as Hs by by rewrite Hm, Hn, scaled_plus.
  destruct (law_plus a b) as [? Hv]; [done..|by eapply fits_proper, money_fits|].
  split; [done|]. by rewrite Hv.
Qed.

Lemma money_minus a b m n : denotes a m → denotes b n → Z.abs (m - n) < 10 ^ 20 →
  denotes (d_minus a b) (m - n).
Proof.
  intros [Ha Hm] [Hb Hn] Hlt.
  assert (dval a - dval b == scaled (m - n) 4)%Q as Hs by by rewrite Hm, Hn, scaled_minus.
  destruct (law_minus a b) as [? Hv]; [done..|by eapply fits_proper, money_fits|].
  split; [done|]. by rewrite Hv.
Qed.

Lemma money_abs a m : denotes a m → denotes (d_abs a) (Z.abs m).
Proof.
  intros [Ha Hm]. destruct (law_abs a Ha) as (? & Hv & _). split; [done|].
  by rewrite Hv, Hm, scaled_abs.
Qed.

Lemma money_cmp a b m n : denotes a m → denotes b n → d_cmp a b = Some (m ?= n).
Proof.
  intros [Ha Hm] [Hb Hn]. rewrite law_cmp by done.
  by rewrite Hm, Hn, scaled_cmp.
Qed.

Lemma money_fixed d m : denotes d m → d_toFixed 4 d = fixed 4 m.
Proof.
  intros [Hd Hm]. assert (half_up 4 (dval d) = m) as Hh by by rewrite Hm, half_up_scaled.
  rewrite law_toFixed; [by rewrite Hh|done|]. rewrite Hh.
  destruct (decide (m = 0)) as [->|]; [right|by left]. by rewrite Hm, scaled_0.
Qed.

(** Whatever finite amount is printed at four decimals reads back rounded. *)
Lemma toFixed_units d : d_isFinite d = true →
  money_units (d_toFixed 4 d) = Some (half_up 4 (dval d)).
Proof.
  intros Hd. destruct (decide (half_up 4 (dval d) = 0)) as [H0|H0].
  - destruct (Qlt_le_dec (dval d) 0) as [Hlt|Hle].
    + rewrite law_toFixed_neg0 by done. by rewrite money_units_neg_zero, H0.
    + rewrite law_toFixed by auto. apply money_units_fixed.
  - rewrite law_toFixed by auto. apply money_units_fixed.
Qed.

Lemma money_toDP d m : denotes d m → denotes (d_toDP 4 d) m.
Proof.
  intros [Hd Hm]. destruct (law_toDP 4 d Hd) as (? & Hv & _). split; [done|].
  by rewrite Hv, Hm, half_up_scaled.
Qed.

Lemma money_neg d m : denotes d m → m < 0 → d_isNeg d = true.
Proof.
  intros [Hd Hm] Hlt. apply law_neg; [done|]. rewrite Hm, <- (scaled_0 4).
  apply Qlt_alt. rewrite scaled_cmp. by apply Z.compare_lt_iff.
Qed.

Lemma money_nonneg d m : denotes d m → 0 < m → d_isNeg d = false.
Proof.
  intros [Hd Hm] Hlt. apply law_nonneg; [done|]. rewrite Hm, <- (scaled_0 4).
  apply Qlt_alt. rewrite scaled_cmp. by apply Z.compare_lt_iff.
Qed.

Lemma money_isZero d m : denotes d m → d_isZero d = bool_decide (m = 0).
Proof.
  intros [Hd Hm]. pose proof (law_zero d Hd) as Hz.
  destruct (d_isZero d); symmetry; [apply bool_decide_eq_true|apply bool_decide_eq_false].
  - apply (scaled_inj _ _ 4). rewrite <- Hm, scaled_0. by apply Hz.
  - intros ->. rewrite Hm, scaled_0 in Hz. destruct Hz as [_ Hz]. by specialize (Hz ltac:(done)).
Qed.
End money.

(** ** Comparisons of any two decimals *)

Section order.
Context {D : DecimalJs} {L : DecimalLaws D}.

Lemma d_gte_flip a b : d_gte a b = d_lte b a.
Proof. unfold d_gte, d_lte. rewrite law_cmp_flip. by destruct (d_cmp b a) as [[]|]. Qed.
Lemma d_gt_flip a b : d_gt a b = d_lt b a.
Proof. unfold d_gt, d_lt. rewrite law_cmp_flip. by destruct (d_cmp b a) as [[]|]. Qed.
Lemma d_eq_flip a b : d_eq a b = d_eq b a.
Proof. unfold d_eq. rewrite law_cmp_flip. by destruct (d_cmp b a) as [[]|]. Qed.

Lemma d_lte_lt_trans a b c : d_lte a b = true → d_lt b c = true → d_lt a c = true.
Proof.
  intros Hab Hbc. assert (d_lte a c = true) as Hac.
  { apply (law_lte_trans a b c); [done|]. unfold d_lt, d_lte in *. by destruct (d_cmp b c) as [[]|]. }
  destruct (d_eq a c) eqn:E; [|unfold d_lte, d_lt, d_eq in *; by destruct (d_cmp a c) as [[]|]].
  assert (d_lte c a = true) as Hca
    by (unfold d_lte, d_eq in *; rewrite (law_cmp_flip a c); by destruct (d_cmp a c) as [[]|]).
  pose proof (law_lte_trans c a b Hca Hab) as Hcb. unfold d_lt, d_lte in Hbc, Hcb.
  rewrite (law_cmp_flip b c) in Hcb. by destruct (d_cmp b c) as [[]|].
Qed.

Lemma d_eq_trans a b c : d_eq a b = true → d_eq b c = true → d_eq a c = true.
Proof.
  assert (∀ x y, d_eq x y = true ↔ d_lte x y = true ∧ d_lte y x = true) as H.
  { intros x y. unfold d_eq, d_lte. rewrite (law_cmp_flip x y).
    destruct (d_cmp x y) as [[]|]; naive_solver. }
  rewrite !H. naive_solver eauto using law_lte_trans.
Qed.
End order.

Infix "≐" := denotes (at level 70).
Create HintDb money discriminated.
#[export] Hint Resolve money_zero money_plus money_minus money_abs money_toDP : money.

(** ** A concrete implementation: exact sign-magnitude decimals *)

Module ExactDecimal.

Inductive t : Type :=
  | Num (neg : bool) (mag : N) (sc : nat)   (** [± mag / 10^sc] *)
  | NaN.

Definition signed (neg : bool) (mag : N) : Z := if neg then - Z.of_N mag else Z.of_N mag.
Definition make (tie : bool) (v : Z) (sc : nat) : t :=
  Num (if v =? 0 then tie else v <? 0) (Z.abs_N v) sc.
Definition val (d : t) : Q :=
  match d with Num s a sc => scaled (signed s a) sc | NaN => 0%Q end.

(** Drop trailing zeros. *)
Fixpoint norm (m : Z) (sc : nat) : Z * nat :=
  match sc with
  | O => (m, O)
  | S k => if m mod 10 =? 0 then norm (m / 10) k else (m, sc)
  end.

Definition new (s : string) : option t :=
  match plain s with
  | Some (m, sc) => Some (make (match s with String c _ => bool_decide (c = "-"%char) | _ => false end) m sc)
  | None => if decide (s = "NaN") then Some NaN else None
  end.

Definition lift2 (tie : bool → bool → bool) (op : Z → Z → Z) (a b : t) : t :=
  match a, b with
  | Num s x k, Num u y l =>
      make (tie s u) (op (signed s x * 10 ^ Z.of_nat l) (signed u y * 10 ^ Z.of_nat k)) (k + l)
  | _, _ => NaN
  end.

#[export] Instance ops : DecimalJs := {|
  dec := t;
  new_Decimal := new;
  d_of_int n := make false n 0;
  d_plus := lift2 andb Z.add;
  d_minus := lift2 (λ _ _, false) Z.sub;
  d_times a b :=
    match a, b with
    | Num s x k, Num u y l => make (xorb s u) (signed s x * signed u y) (k + l)
    | _, _ => NaN
    end;
  d_div a b :=
    match a, b with
    | Num s x k, Num u y l =>
        if (y =? 0)%N then NaN else
        make (xorb s u)
          (Z.quot (signed s x * 10 ^ Z.of_nat l * 10 ^ 20) (signed u y * 10 ^ Z.of_nat k)) 20
    | _, _ => NaN
    end;
  d_abs a := match a with Num _ x k => Num false x k | NaN => NaN end;
  d_cmp a b :=
    match a, b with
    | Num s x k, Num u y l =>
        Some (signed s x * 10 ^ Z.of_nat l ?= signed u y * 10 ^ Z.of_nat k)
    | _, _ => None
    end;
  d_isFinite a := match a with Num _ _ _ => true | NaN => false end;
  d_isZero a := match a with Num _ x _ => (x =? 0)%N | NaN => false end;
  d_isNeg a := match a with Num s _ _ => s | NaN => false end;
  d_isPos a := match a with Num s _ _ => negb s | NaN => false end;
  d_toString a :=
    match a with
    | Num s x k => let '(m, sc) := norm (signed s x) k in fixed sc m
    | NaN => "NaN"
    end;
  d_toFixed n a :=
    match a with
    | Num s x k =>
        let h := half_up n (val a) in
        if (h =? 0) && s && negb (x =? 0)%N then String "-" (fixed n 0) else fixed n h
    | NaN => "NaN"
    end;
  d_toDP n a :=
    match a with
    | Num s x k => Num s (Z.abs_N (half_up n (val a))) n
    | NaN => NaN
    end;
|}.

Lemma signed_make v (tie : bool) :
  signed (if v =? 0 then tie else v <? 0) (Z.abs_N v) = v.
Proof.
  unfold signed. rewrite N2Z.inj_abs_N. destruct (Z.eqb_spec v 0) as [->|]; [by destruct tie|].
  destruct (Z.ltb_spec v 0); lia.
Qed.

Lemma val_make tie v sc : val (make tie v sc) = scaled v sc.
Proof. unfold make, val. by rewrite signed_make. Qed.

Lemma scaled_shift m sc k : (scaled m sc == scaled (m * 10 ^ Z.of_nat k) (sc + k))%Q.
Proof.
  unfold scaled. rewrite Nat2Z.inj_add, Z.pow_add_r, !inject_Z_mult by lia.
  field. pose proof (pow10_Q sc). pose proof (pow10_Q k). lra.
Qed.

Lemma norm_val m sc : (scaled (norm m sc).1 (norm m sc).2 == scaled m sc)%Q.
Proof.
  revert m. induction sc as [|sc IH]; intros m; simpl; [done|].
  destruct (Z.eqb_spec (m mod 10) 0) as [E|]; [|done].
  rewrite IH, (scaled_shift (m / 10) sc 1). rewrite Nat.add_1_r.
  replace (m / 10 * 10 ^ Z.of_nat 1) with m; [done|].
  change (10 ^ Z.of_nat 1) with 10. rewrite (Z.div_mod m 10) at 1 by lia. lia.
Qed.

Lemma norm_shift m sc k : norm (m * 10 ^ Z.of_nat k) (sc + k) = norm m sc.
Proof.
  induction k as [|k IH]; [by rewrite Z.mul_1_r, Nat.add_0_r|].
  rewrite Nat.add_succ_r, Nat2Z.inj_succ, Z.pow_succ_r by lia. cbn [norm].
  replace (m * (10 * 10 ^ Z.of_nat k)) with (m * 10 ^ Z.of_nat k * 10) by ring.
  by rewrite Z.mod_mul, Z.div_mul by lia.
Qed.

Lemma norm_eq m sc n k : (scaled m sc == scaled n k)%Q → norm m sc = norm n k.
Proof.
  rewrite (scaled_shift m sc k), (scaled_shift n k sc), (Nat.add_comm k sc).
  intros H%scaled_inj. rewrite <- (norm_shift m sc k), H, (Nat.add_comm sc k). apply norm_shift.
Qed.

(** Transitivity of comparisons across scales. *)
Lemma cross_le a b c p q r : 0 < p → 0 < q → 0 < r →
  a * q <= b * p → b * r <= c * q → a * r <= c * p.
Proof.
  intros ??? H1 H2. apply (Z.mul_le_mono_pos_r _ _ q); [done|].
  transitivity (b * p * r); [nia|]. nia.
Qed.
Lemma cross_lt a b c p q r : 0 < p → 0 < q → 0 < r →
  a * q < b * p → b * r <= c * q → a * r < c * p.
Proof.
  intros ??? H1 H2. apply (Z.mul_lt_mono_pos_r q); [done|].
  apply Z.lt_le_trans with (b * p * r); nia.
Qed.

Lemma half_up_sign n s a sc :
  signed s (Z.abs_N (half_up n (val (Num s a sc)))) = half_up n (val (Num s a sc)).
Proof.
  unfold signed at 1. rewrite N2Z.inj_abs_N. simpl val.
  set (q := scaled (signed s a) sc). unfold half_up.
  set (x := (q * inject_Z (10 ^ Z.of_nat n))%Q).
  pose proof (pow10_Q n) as Hn. pose proof (pow10_Q sc) as Hsc.
  assert (∀ y, (0 <= y)%Q → 0 <= Qfloor (y + (1 # 2))) as Hfl.
  { intros y Hy. rewrite <- (Qfloor_Z 0). apply Qfloor_resp_le.
    change (inject_Z 0) with 0%Q. lra. }
  assert (∀ y, (y == 0)%Q → Qfloor (y + (1 # 2)) = 0) as H0 by by intros y ->.
  assert (∀ b, 0 <= b → (0 <= scaled b sc)%Q) as Hsn.
  { intros b Hb. rewrite <- (scaled_0 sc). apply Qle_alt. by rewrite scaled_cmp. }
  destruct s; simpl in q.
  - assert (x <= 0)%Q as Hx.
    { subst x q. rewrite scaled_opp.
      pose proof (Hsn (Z.of_N a) (N2Z.is_nonneg a)). nra. }
    destruct (Qle_bool 0 x) eqn:E.
    + apply Qle_bool_iff in E. rewrite H0 by lra. done.
    + specialize (Hfl (- x)%Q ltac:(lra)). lia.
  - assert (0 <= x)%Q as Hx by (subst x q; specialize (Hsn (Z.of_N a) ltac:(lia)); nra).
    rewrite (proj2 (Qle_bool_iff _ _) Hx). specialize (Hfl x Hx). lia.
Qed.

Ltac simpl_make := unfold make, lift2; simpl; rewrite ?signed_make.

#[export] Instance laws : DecimalLaws ops.
Proof.
  refine {| dval := val : @dec ops → Q |}; simpl.
  - intros s m sc Hp. unfold new. rewrite Hp. eexists. split; [done|]. split; [done|].
    by simpl_make.
  - intros n Hn. split; [done|]. simpl_make. split; [|by destruct (Z.eqb_spec n 0) as [->|]].
    by rewrite scaled_int.
  - intros [s x k|] [u y l|] ?? _; try done. split; [done|].
    simpl_make. rewrite (scaled_shift (signed s x) k l).
    rewrite (scaled_shift (signed u y) l k), (Nat.add_comm l k). by rewrite scaled_plus.
  - intros [s x k|] [u y l|] ?? _; try done. split; [done|].
    simpl_make. rewrite (scaled_shift (signed s x) k l).
    rewrite (scaled_shift (signed u y) l k), (Nat.add_comm l k). by rewrite scaled_minus.
  - intros [s x k|] [u y l|] ?? _; try done. split; [done|].
    simpl_make. by rewrite scaled_times.
  - intros [s x k|] ?; [|done]. split; [done|]. split; [|done].
    cbn [dval d_abs ops val]. rewrite scaled_abs. unfold signed. by destruct s; rewrite ?Z.abs_opp, Z.abs_eq by lia.
  - intros [s x k|] [u y l|] ??; try done. simpl. f_equal.
    rewrite (scaled_shift (signed s x) k l), (scaled_shift (signed u y) l k), (Nat.add_comm l k).
    by rewrite scaled_cmp.
  - intros [s x k|] ?; [|done]. simpl. rewrite N.eqb_eq. split.
    + intros ->. destruct s; apply scaled_0.
    + rewrite <- (scaled_0 k). intros Hx%scaled_inj. unfold signed in Hx. destruct s; lia.
  - intros [[] x k|] ?; [done| |done]. intros Hlt. exfalso. cbn [val] in Hlt.
    rewrite <- (scaled_0 k) in Hlt. apply scaled_lt in Hlt. unfold signed in Hlt. lia.
  - intros [[] x k|] ?; [|done|done]. intros Hlt. exfalso. cbn [val] in Hlt.
    rewrite <- (scaled_0 k) in Hlt. apply scaled_lt in Hlt. unfold signed in Hlt. lia.
  - by intros [s x k|].
  - intros [[] x k|] [[] y l|]; try done. intros _ _ _ _. simpl.
    destruct (Z.eqb_spec (Z.of_N x * 10 ^ Z.of_nat l + Z.of_N y * 10 ^ Z.of_nat k) 0); [done|].
    pose proof (pow10_pos l). pose proof (pow10_pos k). apply Z.ltb_ge. nia.
  - intros [s x k|] [u y l|]; try done. intros _ _ _ _ Heq. simpl in *.
    rewrite (scaled_shift (signed s x) k l), (scaled_shift (signed u y) l k), (Nat.add_comm l k) in Heq.
    apply scaled_inj in Heq. by rewrite Heq, Z.sub_diag.
  - intros [s x k|]; simpl; [|by exists NaN].
    destruct (norm (signed s x) k) as [m sc] eqn:E. unfold new. rewrite plain_fixed.
    eexists. split; [done|]. split; [done|]. intros _. simpl_make.
    pose proof (norm_val (signed s x) k) as Hn. by rewrite E in Hn.
  - intros [s x k|] [u y l|] ??; try done. simpl. intros Heq.
    rewrite (norm_eq (signed s x) k (signed u y) l); done.
  - intros [s x k|] [u y l|]; try done. simpl. f_equal. apply Z.compare_antisym.
  - intros [s x k|] [u y l|] [v z m|]; try done. intros H1%Z.leb_le H2%Z.leb_le.
    apply Z.leb_le. eapply (cross_le _ (signed u y)); eauto using pow10_pos.
  - intros [s x k|] [u y l|] [v z m|]; try done. intros H1%Z.ltb_lt H2%Z.leb_le.
    apply Z.ltb_lt. eapply (cross_lt _ (signed u y)); eauto using pow10_pos.
  - intros n [s x k|]; simpl; [|by exists NaN]. unfold new.
    destruct (_ && _); rewrite ?plain_fixed, ?plain_neg_zero; by eexists.
  - intros n [s x k|] Hf Hn; [|done]. cbn [d_toFixed ops]. cbn [val] in *.
    destruct (Z.eqb_spec (half_up n (scaled (signed s x) k)) 0) as [H0|]; [|done].
    destruct s; [|done]. destruct (N.eqb_spec x 0) as [|Hx]; [done|]. exfalso.
    destruct Hn as [Hn|Hn]; [done|]. apply Qle_not_lt in Hn. apply Hn.
    rewrite <- (scaled_0 k). apply Qlt_alt. rewrite scaled_cmp. apply Z.compare_lt_iff.
    unfold signed. lia.
  - intros n [s x k|] Hf H0 Hlt; [|done]. cbn [d_toFixed ops]. cbn [val] in *. rewrite H0, Z.eqb_refl.
    rewrite <- (scaled_0 k) in Hlt. apply scaled_lt in Hlt. unfold signed in Hlt.
    destruct s; [|lia]. destruct (N.eqb_spec x 0) as [->|]; [lia|done].
  - intros n [s x k|] ?; [|done]. split; [done|]. split; [|done].
    change (scaled (signed s (Z.abs_N (half_up n (val (Num s x k))))) n ==
            scaled (half_up n (val (Num s x k))) n)%Q.
    by rewrite half_up_sign.
Qed.
End ExactDecimal.
