(* ===== verification/Interpreter.v ===== *)
(** The rule engine: the predicate AST ([src/src/modules/rule-engine/ast.ts]) and
    its interpreter ([interpreter.ts]).  A thrown [Decimal] error is the [Err]
    case of the result; every other defect of the data is an UNASSESSABLE
    value, as in the code. *)

From S2P Require Import Prelude JsText Decimal.

(** ** Data *)

Inductive LitValue : Set :=
  | LitNumber (n : js_number)
  | LitString (s : string)
  | LitBool (b : bool).

Inductive ArithOp : Set := OpAdd | OpSub | OpMul | OpDiv | OpAbs.
Inductive CompareOp : Set := CmpEq | CmpNe | CmpGt | CmpGte | CmpLt | CmpLte | CmpApprox.
Inductive LogicOp : Set := LogAnd | LogOr | LogNot.

Inductive AstNode : Set :=
  | AstLit (value : LitValue)
  | AstMoney (amount currency : string)
  | AstFactRef (key : string)
  | AstArith (op : ArithOp) (args : list AstNode)
  | AstCompare (op : CompareOp) (left right : AstNode) (tolerance : option string)
  | AstLogic (op : LogicOp) (args : list AstNode)
  | AstRequire (key : string) (body : AstNode).

(** A fact; a key bound to [undefined] is the same as an absent key for every
    reader, so the bundle is a finite map. *)
Inductive FactValue : Set :=
  | FactNumber (n : js_number)
  | FactString (s : string)
  | FactBool (b : bool)
  | FactMoney (amount currency : string)
  | FactDecimal (decimal : string).
Abbreviation FactBundle := (gmap string FactValue).

Inductive EvalValue : Set :=
  | VNumber (value : string)
  | VMoney (amount currency : string)
  | VBool (value : bool)
  | VString (value : string)
  | VUnassessable (reason : string).

Inductive EvalNode : Set :=
  mkEval (node : AstNode) (value : EvalValue) (children : option (list EvalNode)).
Definition ev_node (ev : EvalNode) : AstNode := let 'mkEval n _ _ := ev in n.
Definition ev_value (ev : EvalNode) : EvalValue := let 'mkEval _ v _ := ev in v.
Definition ev_children (ev : EvalNode) : option (list EvalNode) := let 'mkEval _ _ c := ev in c.

Inductive Verdict : Set := PASS | FAIL | UNASSESSABLE.

(** [new Decimal(x)] threw on [x]. *)
Inductive DecimalError : Set := InvalidDecimal (argument : string).

#[export] Instance DecimalError_eq_dec : EqDecision DecimalError.
Proof. solve_decision. Defined.
#[export] Instance LitValue_eq_dec : EqDecision LitValue.
Proof. solve_decision. Defined.
#[export] Instance ArithOp_eq_dec : EqDecision ArithOp.
Proof. solve_decision. Defined.
#[export] Instance CompareOp_eq_dec : EqDecision CompareOp.
Proof. solve_decision. Defined.
#[export] Instance LogicOp_eq_dec : EqDecision LogicOp.
Proof. solve_decision. Defined.
#[export] Instance EvalValue_eq_dec : EqDecision EvalValue.
Proof. solve_decision. Defined.
#[export] Instance FactValue_eq_dec : EqDecision FactValue.
Proof. solve_decision. Defined.
#[export] Instance Verdict_eq_dec : EqDecision Verdict.
Proof. solve_decision. Defined.

(** Structural induction that reaches the argument lists. *)
Section AstNode_induction.
Variable P : AstNode → Prop.
Hypothesis HLit : ∀ v, P (AstLit v).
Hypothesis HMoney : ∀ a c, P (AstMoney a c).
Hypothesis HFact : ∀ k, P (AstFactRef k).
Hypothesis HArith : ∀ op args, Forall P args → P (AstArith op args).
Hypothesis HCompare : ∀ op l r tol, P l → P r → P (AstCompare op l r tol).
Hypothesis HLogic : ∀ op args, Forall P args → P (AstLogic op args).
Hypothesis HRequire : ∀ k b, P b → P (AstRequire k b).

Fixpoint AstNode_ind' (n : AstNode) : P n :=
  let go := fix go (l : list AstNode) : Forall P l :=
    match l with
    | [] => Forall_nil_2 P
    | x :: l' => Forall_cons_2 P x l' (AstNode_ind' x) (go l')
    end in
  match n with
  | AstLit v => HLit v
  | AstMoney a c => HMoney a c
  | AstFactRef k => HFact k
  | AstArith op args => HArith op args (go args)
  | AstCompare op l r tol => HCompare op l r tol (AstNode_ind' l) (AstNode_ind' r)
  | AstLogic op args => HLogic op args (go args)
  | AstRequire k b => HRequire k b (AstNode_ind' b)
  end.
End AstNode_induction.

(** ** The interpreter *)

Section interpreter.
Context {D : DecimalJs}.

Definition isUnassessable (v : EvalValue) : bool :=
  match v with VUnassessable _ => true | _ => false end.

(** [new Decimal(text)] in a position where a throw escapes. *)
Definition decimal_or_throw (text : string) : result DecimalError dec :=
  match new_Decimal text with Some d => Ok d | None => Err (InvalidDecimal text) end.

Definition toDecimal (v : EvalValue) : result DecimalError (option dec) :=
  match v with
  | VNumber value => d ← decimal_or_throw value; Ok (Some d)
  | VMoney amount _ => d ← decimal_or_throw amount; Ok (Some d)
  | _ => Ok None
  end.

Definition safeDecimal_text (raw : string) : option dec :=
  d ← new_Decimal raw; if d_isFinite d then Some d else None.
Definition safeDecimal (raw : js_number + string) : option dec :=
  match raw with
  | inl (JsFinite text) => safeDecimal_text text
  | inl _ => None
  | inr text => safeDecimal_text text
  end.

Definition valueScalar (v : EvalValue) : option (bool + string) :=
  match v with
  | VString s => Some (inr s)
  | VBool b => Some (inl b)
  | VNumber s => Some (inr s)
  | VMoney amount _ => Some (inr amount)
  | VUnassessable _ => None
  end.

Definition fact_present (facts : FactBundle) (key : string) : bool :=
  match facts !! key with
  | None | Some (FactString "") => false
  | Some _ => true
  end.

Definition arith_op_text (op : ArithOp) : string :=
  match op with OpAdd => "add" | OpSub => "sub" | OpMul => "mul" | OpDiv => "div" | OpAbs => "abs" end.
Definition logic_op_text (op : LogicOp) : string :=
  match op with LogAnd => "and" | LogOr => "or" | LogNot => "not" end.

Definition eval_lit (v : LitValue) : EvalValue :=
  match v with
  | LitBool b => VBool b
  | LitNumber n =>
      match safeDecimal (inl n) with
      | None => VUnassessable "non-finite literal"
      | Some d => VNumber (d_toString d)
      end
  | LitString s => VString s
  end.

Definition eval_money (amount currency : string) : EvalValue :=
  match safeDecimal (inr amount) with
  | None => VUnassessable "non-numeric money amount"
  | Some d => VMoney (d_toFixed 4 d) currency
  end.

Definition eval_fact (key : string) (facts : FactBundle) : EvalValue :=
  let fact := "fact '" +:+ key +:+ "'" in
  match facts !! key with
  | None | Some (FactString "") => VUnassessable (fact +:+ " absent")
  | Some (FactBool b) => VBool b
  | Some (FactNumber n) =>
      match safeDecimal (inl n) with
      | None => VUnassessable (fact +:+ " is NaN/Infinity")
      | Some d => VNumber (d_toString d)
      end
  | Some (FactDecimal decimal) =>
      match safeDecimal (inr decimal) with
      | None => VUnassessable (fact +:+ " has a non-numeric decimal")
      | Some d => VNumber (d_toString d)
      end
  | Some (FactMoney amount currency) =>
      match safeDecimal (inr amount) with
      | None => VUnassessable (fact +:+ " has a non-numeric money amount")
      | Some d => VMoney (d_toFixed 4 d) currency
      end
  | Some (FactString s) => VString s
  end.

Definition arith_result (op : ArithOp) (first : dec) (rest nums : list dec) : option dec :=
  match op with
  | OpAdd => Some (foldl d_plus (d_of_int 0) nums)
  | OpSub => Some (foldl d_minus first rest)
  | OpMul => Some (foldl d_times (d_of_int 1) nums)
  | OpDiv => if existsb d_isZero rest then None else Some (foldl d_div first rest)
  | OpAbs => Some (d_abs first)
  end.

Definition eval_arith (op : ArithOp) (children : list EvalNode) : result DecimalError EvalValue :=
  if existsb (λ c, isUnassessable (ev_value c)) children
  then Ok (VUnassessable "operand unassessable") else
  decs ← map_res (λ c, toDecimal (ev_value c)) children;
  match mapM id decs with
  | None => Ok (VUnassessable "non-numeric operand")
  | Some nums =>
      let minArgs := match op with OpAbs => 1%nat | _ => 2%nat end in
      match nums with
      | first :: rest =>
          if (length nums <? minArgs)%nat
          then Ok (VUnassessable (arith_op_text op +:+ ": too few operands"))
          else match arith_result op first rest nums with
               | None => Ok (VUnassessable "division by zero")
               | Some result => Ok (VNumber (d_toString result))
               end
      | [] => Ok (VUnassessable (arith_op_text op +:+ ": too few operands"))
      end
  end.

Definition eval_compare (op : CompareOp) (tolerance : option string) (left right : EvalNode) :
    result DecimalError EvalValue :=
  if isUnassessable (ev_value left) || isUnassessable (ev_value right)
  then Ok (VUnassessable "comparand unassessable") else
  a ← toDecimal (ev_value left);
  b ← toDecimal (ev_value right);
  match a, b with
  | Some a, Some b =>
      match op with
      | CmpEq => Ok (VBool (d_eq a b))
      | CmpNe => Ok (VBool (negb (d_eq a b)))
      | CmpGt => Ok (VBool (d_gt a b))
      | CmpGte => Ok (VBool (d_gte a b))
      | CmpLt => Ok (VBool (d_lt a b))
      | CmpLte => Ok (VBool (d_lte a b))
      | CmpApprox =>
          tol ← decimal_or_throw (default "0" tolerance);
          Ok (VBool (d_lte (d_abs (d_minus a b)) tol))
      end
  | _, _ =>
      let eq := bool_decide (valueScalar (ev_value left) = valueScalar (ev_value right)) in
      match op with
      | CmpEq => Ok (VBool eq)
      | CmpNe => Ok (VBool (negb eq))
      | _ => Ok (VUnassessable "non-numeric comparison")
      end
  end.

Definition bool_of (v : EvalValue) : option bool :=
  match v with VBool b => Some b | _ => None end.

Definition eval_logic (op : LogicOp) (children : list EvalNode) : EvalValue :=
  match op with
  | LogNot =>
      match children with
      | c :: _ =>
          match ev_value c with
          | VBool b => VBool (negb b)
          | _ => VUnassessable "not: non-bool"
          end
      | [] => VUnassessable "not: non-bool"
      end
  | _ =>
      match mapM (λ c, bool_of (ev_value c)) children with
      | None => VUnassessable (logic_op_text op +:+ ": non-bool operand")
      | Some bools =>
          VBool (match op with LogAnd => forallb id bools | _ => existsb id bools end)
      end
  end.

Fixpoint evaluate (node : AstNode) (facts : FactBundle) : result DecimalError EvalNode :=
  match node with
  | AstLit v => Ok (mkEval node (eval_lit v) None)
  | AstMoney amount currency => Ok (mkEval node (eval_money amount currency) None)
  | AstFactRef key => Ok (mkEval node (eval_fact key facts) None)
  | AstRequire key body =>
      if fact_present facts key then
        child ← evaluate body facts;
        Ok (mkEval node (ev_value child) (Some [child]))
      else Ok (mkEval node (VUnassessable ("required fact '" +:+ key +:+ "' absent")) None)
  | AstArith op args =>
      children ← map_res (λ a, evaluate a facts) args;
      value ← eval_arith op children;
      Ok (mkEval node value (Some children))
  | AstCompare op lhs rhs tolerance =>
      l ← evaluate lhs facts;
      r ← evaluate rhs facts;
      value ← eval_compare op tolerance l r;
      Ok (mkEval node value (Some [l; r]))
  | AstLogic op args =>
      children ← map_res (λ a, evaluate a facts) args;
      Ok (mkEval node (eval_logic op children) (Some children))
  end.

Definition verdict (ev : EvalNode) : Verdict :=
  match ev_value ev with
  | VBool true => PASS
  | VBool false => FAIL
  | _ => UNASSESSABLE
  end.
End interpreter.

(** ** Values and their texts *)

Section totality.
Context {D : DecimalJs} {L : DecimalLaws D}.

(** The number texts inside a value parse back. *)
Definition value_ok (v : EvalValue) : Prop :=
  match v with
  | VNumber t | VMoney t _ => is_Some (new_Decimal t)
  | _ => True
  end.

Lemma toString_parses d : is_Some (new_Decimal (d_toString d)).
Proof. destruct (law_toString d) as (d' & -> & _). by eexists. Qed.
Lemma toFixed_parses n d : is_Some (new_Decimal (d_toFixed n d)).
Proof. apply law_toFixed_new. Qed.
Hint Resolve toString_parses toFixed_parses : core.

Lemma toDecimal_ok v : value_ok v → ∃ o, toDecimal v = Ok o.
Proof.
  destruct v; simpl; eauto; intros [d Hd];
    unfold decimal_or_throw; rewrite Hd; eexists; reflexivity.
Qed.

Lemma eval_lit_ok v : value_ok (eval_lit v).
Proof. destruct v; simpl; repeat case_match; simpl; auto. Qed.
Lemma eval_money_ok a c : value_ok (eval_money a c).
Proof. unfold eval_money. case_match; simpl; auto. Qed.
Lemma eval_fact_ok k facts : value_ok (eval_fact k facts).
Proof. unfold eval_fact. repeat case_match; simpl; auto. Qed.
Lemma eval_logic_ok op cs : value_ok (eval_logic op cs).
Proof. unfold eval_logic. repeat case_match; simpl; auto. Qed.

Lemma eval_arith_ok op cs v : eval_arith op cs = Ok v → value_ok v.
Proof.
  unfold eval_arith. case_match; [by intros [= <-]|].
  intros (decs & _ & Hv)%bind_Ok. repeat case_match; simplify_eq/=; auto.
Qed.

Lemma eval_arith_total op cs : Forall (λ c, value_ok (ev_value c)) cs →
  ∃ v, eval_arith op cs = Ok v.
Proof.
  intros Hcs. unfold eval_arith. case_match; [eauto|].
  destruct (map_res_total (λ c, toDecimal (ev_value c)) cs) as [decs ->].
  { intros c Hc. apply toDecimal_ok. by eapply Forall_forall in Hcs. }
  rewrite bind_ret_l. repeat case_match; eauto.
Qed.

Lemma eval_compare_ok op tol l r v : eval_compare op tol l r = Ok v → value_ok v.
Proof.
  unfold eval_compare. case_match; [by intros [= <-]|].
  intros (a & _ & (b & _ & Hv)%bind_Ok)%bind_Ok.
  repeat case_match; simplify_eq/=; try done.
  by apply bind_Ok in Hv as (tl & _ & [= <-]).
Qed.

(** The texts that [approx] hands to [new Decimal] parse. *)
Definition tolerance_ok (op : CompareOp) (tol : option string) : Prop :=
  match op with CmpApprox => is_Some (new_Decimal (default "0" tol)) | _ => True end.

Fixpoint tolerances_ok (n : AstNode) : Prop :=
  match n with
  | AstLit _ | AstMoney _ _ | AstFactRef _ => True
  | AstRequire _ b => tolerances_ok b
  | AstArith _ args | AstLogic _ args =>
      (fix go l := match l with [] => True | x :: l' => tolerances_ok x ∧ go l' end) args
  | AstCompare op l r tol => tolerance_ok op tol ∧ tolerances_ok l ∧ tolerances_ok r
  end.

Lemma tolerances_ok_args args :
  (fix go l := match l with [] => True | x :: l' => tolerances_ok x ∧ go l' end) args ↔
  Forall tolerances_ok args.
Proof. induction args; [by split|]. rewrite Forall_cons. naive_solver. Qed.

Lemma eval_compare_total op tol l r :
  tolerance_ok op tol → value_ok (ev_value l) → value_ok (ev_value r) →
  ∃ v, eval_compare op tol l r = Ok v.
Proof.
  intros Ht (a & Ha)%toDecimal_ok (b & Hb)%toDecimal_ok. unfold eval_compare.
  case_match; [eauto|]. rewrite Ha, Hb, !bind_ret_l.
  repeat case_match; eauto. destruct Ht as [dt Hdt].
  unfold decimal_or_throw. rewrite Hdt. eexists; reflexivity.
Qed.

Lemma evaluate_value_ok n facts ev : evaluate n facts = Ok ev → value_ok (ev_value ev).
Proof.
  revert ev. induction n as [v|a c|k|op args _|op l r tol _ _|op args _|k b IH]
    using AstNode_ind'; intros ev; simpl.
  - intros [= <-]. apply eval_lit_ok.
  - intros [= <-]. apply eval_money_ok.
  - intros [= <-]. apply eval_fact_ok.
  - intros (cs & _ & (v & Hv & [= <-])%bind_Ok)%bind_Ok. by eapply eval_arith_ok.
  - intros (x & _ & (y & _ & (v & Hv & [= <-])%bind_Ok)%bind_Ok)%bind_Ok.
    by eapply eval_compare_ok.
  - intros (cs & _ & [= <-])%bind_Ok. apply eval_logic_ok.
  - case_match; [|intros [= <-]; exact I]. intros (x & Hx & [= <-])%bind_Ok. by apply (IH x).
Qed.

Lemma evaluate_args args facts :
  Forall (λ a, ∃ ev, evaluate a facts = Ok ev) args →
  ∃ evs, map_res (λ a, evaluate a facts) args = Ok evs ∧
    Forall (λ c, value_ok (ev_value c)) evs.
Proof.
  rewrite Forall_forall. intros Hargs.
  destruct (map_res_total (λ a, evaluate a facts) args) as [evs Hevs]; [done|].
  exists evs. split; [done|]. apply map_res_Ok in Hevs. clear Hargs.
  induction Hevs; constructor; eauto using evaluate_value_ok.
Qed.
End totality.

(** ** Which facts an evaluation reads *)

(** Every key the AST mentions. *)
Fixpoint ast_keys (n : AstNode) : list string :=
  match n with
  | AstLit _ | AstMoney _ _ => []
  | AstFactRef k => [k]
  | AstRequire k b => k :: ast_keys b
  | AstArith _ args | AstLogic _ args => flat_map ast_keys args
  | AstCompare _ l r _ => ast_keys l ++ ast_keys r
  end.

(** The keys without which there is no assessable value: all of them, except
    under the operands [not] ignores. *)
Fixpoint demanded_keys (n : AstNode) : list string :=
  match n with
  | AstLit _ | AstMoney _ _ => []
  | AstFactRef k => [k]
  | AstRequire k b => k :: demanded_keys b
  | AstLogic LogNot args => match args with a :: _ => demanded_keys a | [] => [] end
  | AstArith _ args | AstLogic _ args => flat_map demanded_keys args
  | AstCompare _ l r _ => demanded_keys l ++ demanded_keys r
  end.

Section facts.
Context {D : DecimalJs}.

Lemma evaluate_compare op l r tol facts :
  evaluate (AstCompare op l r tol) facts =
  a ← evaluate l facts; b ← evaluate r facts; v ← eval_compare op tol a b;
  Ok (mkEval (AstCompare op l r tol) v (Some [a; b])).
Proof. done. Qed.

Lemma evaluate_require k b facts : fact_present facts k = true →
  evaluate (AstRequire k b) facts =
  c ← evaluate b facts; Ok (mkEval (AstRequire k b) (ev_value c) (Some [c])).
Proof. intros Hk. cbn [evaluate]. by rewrite Hk. Qed.

Lemma fact_present_ext f g k : f !! k = g !! k → fact_present f k = fact_present g k.
Proof. unfold fact_present. by intros ->. Qed.

(** Evaluation is pure in the facts it mentions: two fact bundles that
    agree on the keys of the AST give the same evaluated tree, or the same
    thrown error. *)
Theorem evaluate_depends_on_keys (n : AstNode) (f g : FactBundle) :
  (∀ k, k ∈ ast_keys n → f !! k = g !! k) → evaluate n f = evaluate n g.
Proof.
  induction n as [v|a c|k|op args IH|op l r tol IHl IHr|op args IH|k b IH]
    using AstNode_ind'; intros Hk; simpl in *; try done.
  - unfold eval_fact. by rewrite (Hk k) by set_solver.
  - rewrite Forall_forall in IH. erewrite map_res_ext; [done|].
    intros x Hx. apply IH; [done|]. intros k Hkx. apply Hk.
    apply list_elem_of_In, in_flat_map. exists x. by rewrite <- !list_elem_of_In.
  - rewrite IHl, IHr by set_solver. done.
  - rewrite Forall_forall in IH. erewrite map_res_ext; [done|].
    intros x Hx. apply IH; [done|]. intros k Hkx. apply Hk.
    apply list_elem_of_In, in_flat_map. exists x. by rewrite <- !list_elem_of_In.
  - rewrite (fact_present_ext f g k) by set_solver. case_match; [|done].
    rewrite IH by set_solver. done.
Qed.
End facts.

(** ** Totality, honesty, explanation *)

(** [subtree c ev]: [c] occurs in the evaluated tree [ev]. *)
Inductive subtree (c : EvalNode) : EvalNode → Prop :=
  | subtree_refl : subtree c c
  | subtree_child n v children d :
      d ∈ children → subtree c d → subtree c (mkEval n v (Some children)).

Section guarantees.
Context {D : DecimalJs} {L : DecimalLaws D}.

(** The interpreter is total on every AST whose [approx] tolerances are
    decimals: whatever the facts, it returns an evaluated tree and throws
    nothing. *)
Lemma evaluate_total (n : AstNode) (facts : FactBundle) :
  tolerances_ok n → ∃ ev, evaluate n facts = Ok ev.
Proof.
  induction n as [v|a c|k|op args IH|op l r tol IHl IHr|op args IH|k b IH]
    using AstNode_ind'; simpl; eauto.
  - intros Hok%tolerances_ok_args. destruct (evaluate_args args facts) as (evs & -> & Hv).
    { rewrite Forall_forall in IH, Hok |- *. eauto. }
    destruct (eval_arith_total op evs Hv) as [v Hv']. rewrite bind_ret_l, Hv'. by eexists.
  - intros (Ht & (x & Hx)%IHl & (y & Hy)%IHr). rewrite Hx, Hy, !bind_ret_l.
    destruct (eval_compare_total op tol x y Ht) as [v ->];
      [by eapply evaluate_value_ok..|by eexists].
  - intros Hok%tolerances_ok_args. destruct (evaluate_args args facts) as (evs & -> & Hv).
    { rewrite Forall_forall in IH, Hok |- *. eauto. }
    rewrite bind_ret_l. by eexists.
  - intros (ev & Hev)%IH. rewrite Hev. case_match; by eexists.
Qed.

Lemma eval_arith_strict op cs v : eval_arith op cs = Ok v → isUnassessable v = false →
  Forall (λ c, isUnassessable (ev_value c) = false) cs.
Proof.
  unfold eval_arith. destruct (existsb _ cs) eqn:E; [by intros [= <-]|].
  intros _ _. apply Forall_forall. intros c Hc.
  destruct (isUnassessable (ev_value c)) eqn:Hu; [|done].
  assert (existsb (λ c, isUnassessable (ev_value c)) cs = true); [|congruence].
  apply existsb_exists. exists c. by rewrite <- list_elem_of_In.
Qed.

Lemma eval_compare_strict op tol l r v : eval_compare op tol l r = Ok v →
  isUnassessable v = false →
  isUnassessable (ev_value l) = false ∧ isUnassessable (ev_value r) = false.
Proof.
  unfold eval_compare. destruct (isUnassessable (ev_value l)), (isUnassessable (ev_value r));
    simpl; try done; by intros [= <-].
Qed.

Lemma eval_logic_strict op cs : op ≠ LogNot → isUnassessable (eval_logic op cs) = false →
  Forall (λ c, isUnassessable (ev_value c) = false) cs.
Proof.
  intros Hop. unfold eval_logic. destruct op; [..|done];
  (destruct (mapM _ cs) as [bs|] eqn:E; [|done]; intros _; apply mapM_Some in E;
   induction E as [|c b cs' bs' Hb _ IH]; constructor; [|done];
   by destruct (ev_value c)).
Qed.

Lemma demanded_args args facts evs :
  Forall (λ a, ∀ ev, evaluate a facts = Ok ev → isUnassessable (ev_value ev) = false →
    Forall (λ k, fact_present facts k = true) (demanded_keys a)) args →
  map_res (λ a, evaluate a facts) args = Ok evs →
  Forall (λ c, isUnassessable (ev_value c) = false) evs →
  Forall (λ k, fact_present facts k = true) (flat_map demanded_keys args).
Proof using Type.
  intros HIH Hevs%map_res_Ok. revert HIH.
  induction Hevs as [|a ev args evs Ha _ IH]; simpl; [constructor|].
  rewrite !Forall_cons, Forall_app. intros [Hx Hxs] [Hv Hvs]. eauto.
Qed.

(** C28: no verdict on missing evidence: an evaluation that is not UNASSESSABLE
    had every demanded fact present and non-empty. *)
Theorem assessable_needs_facts (n : AstNode) (facts : FactBundle) (ev : EvalNode) (k : string) :
  evaluate n facts = Ok ev → verdict ev ≠ UNASSESSABLE →
  k ∈ demanded_keys n → fact_present facts k = true.
Proof using Type.
  intros Hev Hv. assert (isUnassessable (ev_value ev) = false) as Hu.
  { unfold verdict in Hv. by destruct (ev_value ev). }
  clear Hv. revert k. apply Forall_forall. revert ev Hev Hu.
  induction n as [v|a c|k|op args IH|op l r tol IHl IHr|op args IH|k b IH]
    using AstNode_ind'; intros ev; cbn [evaluate demanded_keys].
  - constructor.
  - constructor.
  - intros [= <-]. simpl. unfold eval_fact, fact_present. intros Hu.
    repeat constructor. by repeat case_match.
  - intros (evs & Hevs & (v & Hv & [= <-])%bind_Ok)%bind_Ok Hu; cbn [ev_value] in Hu.
    eapply demanded_args; eauto using eval_arith_strict.
  - intros (x & Hx & (y & Hy & (v & Hv & [= <-])%bind_Ok)%bind_Ok)%bind_Ok Hu; cbn [ev_value] in Hu.
    apply eval_compare_strict in Hv as [??]; [|done]. apply Forall_app. eauto.
  - intros (evs & Hevs & [= <-])%bind_Ok Hu; cbn [ev_value] in Hu.
    destruct op; [by eapply demanded_args; eauto; eapply eval_logic_strict, Hu..|].
    simpl in Hu. destruct args as [|a args]; [constructor|].
    rewrite map_res_cons in Hevs. apply bind_Ok in Hevs as (x & Hx & (xs & _ & [= <-])%bind_Ok).
    apply Forall_cons in IH as [IH _]. eapply IH; [done|]. by destruct (ev_value x).
  - case_match eqn:Hp; [|by intros [= <-]]. intros (x & Hx & [= <-])%bind_Ok Hu.
    constructor; eauto.
Qed.

Lemma evaluate_node n facts ev : evaluate n facts = Ok ev → ev_node ev = n.
Proof using Type.
  destruct n; cbn [evaluate]; try case_match; intros Hev; res_inv; done.
Qed.

(** The evaluated tree is its own explanation: every node in it carries
    exactly the value (and subtree) that evaluating that node's AST on the
    same facts produces. *)
Theorem evaluated_tree_explains (n : AstNode) (facts : FactBundle) (ev c : EvalNode) :
  evaluate n facts = Ok ev → subtree c ev → evaluate (ev_node c) facts = Ok c.
Proof using Type.
  intros Hev Hsub. revert n Hev.
  induction Hsub as [|m v children d Hd Hsub IH]; intros n Hev.
  { by rewrite (evaluate_node _ _ _ Hev). }
  assert (∃ n', evaluate n' facts = Ok d) as [n' ?]; [|by eapply IH].
  assert (∀ args evs, map_res (λ a, evaluate a facts) args = Ok evs → d ∈ evs →
    ∃ n', evaluate n' facts = Ok d) as Hargs.
  { intros args evs Hm%map_res_Ok Hin. induction Hm; set_solver. }
  clear IH Hsub. destruct n; cbn [evaluate] in Hev; try case_match; res_inv; eauto; set_solver.
Qed.

(** A money fact evaluates to its amount at four decimals. *)
Lemma evaluate_money_fact (facts : FactBundle) k a c z :
  facts !! k = Some (FactMoney a c) → money_units a = Some z →
  evaluate (AstFactRef k) facts = Ok (mkEval (AstFactRef k) (VMoney (fixed 4 z) c) None).
Proof.
  intros Hk (d & Hd & Hz)%money_new. cbn [evaluate]. unfold eval_fact. rewrite Hk.
  unfold safeDecimal, safeDecimal_text. rewrite Hd. simpl. rewrite (proj1 Hz).
  by rewrite (money_fixed _ _ Hz).
Qed.

(** Comparing two money facts: both sides are decimals. *)
Lemma evaluate_money_compare (facts : FactBundle) op tol kl kr al cl ar cr x y :
  facts !! kl = Some (FactMoney al cl) → facts !! kr = Some (FactMoney ar cr) →
  money_units al = Some x → money_units ar = Some y →
  ∃ dx dy, dx ≐ x ∧ dy ≐ y ∧
  (v ← evaluate (AstCompare op (AstFactRef kl) (AstFactRef kr) tol) facts; Ok (ev_value v)) =
  match op with
  | CmpEq => Ok (VBool (d_eq dx dy)) | CmpNe => Ok (VBool (negb (d_eq dx dy)))
  | CmpGt => Ok (VBool (d_gt dx dy)) | CmpGte => Ok (VBool (d_gte dx dy))
  | CmpLt => Ok (VBool (d_lt dx dy)) | CmpLte => Ok (VBool (d_lte dx dy))
  | CmpApprox => t ← decimal_or_throw (default "0" tol);
      Ok (VBool (d_lte (d_abs (d_minus dx dy)) t))
  end.
Proof.
  intros Hl Hr Hx Hy.
  destruct (money_new _ _ (money_units_fixed x)) as (dx & Hdx & Hdx').
  destruct (money_new _ _ (money_units_fixed y)) as (dy & Hdy & Hdy').
  exists dx, dy. split; [done|]. split; [done|].
  rewrite evaluate_compare, (evaluate_money_fact facts kl al cl x),
    (evaluate_money_fact facts kr ar cr y) by done.
  rewrite !bind_ret_l. unfold eval_compare. simpl. unfold decimal_or_throw.
  rewrite Hdx, !bind_ret_l, Hdy, !bind_ret_l. destruct op; try done.
  by destruct (new_Decimal (default "0" tol)).
Qed.

(** On amounts in ten-thousandths, [approx] with tolerance [t] decides
    [|left - right| <= t] exactly, whatever the currencies. *)
Theorem approx_decides_distance (facts : FactBundle) (kl kr al cl ar cr t : string) (x y m : Z) :
  facts !! kl = Some (FactMoney al cl) → facts !! kr = Some (FactMoney ar cr) →
  money_units al = Some x → money_units ar = Some y → money_units t = Some m →
  Z.abs (x - y) < 10 ^ 20 →
  verdict <$> evaluate (AstCompare CmpApprox (AstFactRef kl) (AstFactRef kr) (Some t)) facts =
  Ok (if Z.abs (x - y) <=? m then PASS else FAIL).
Proof.
  intros Hl Hr Hx Hy (dt & Hdt & Ht)%money_new Hb.
  destruct (evaluate_money_compare facts CmpApprox (Some t) kl kr al cl ar cr x y)
    as (dx & dy & Hdx & Hdy & Hev); [done..|].
  unfold decimal_or_throw in Hev. simpl default in Hev. rewrite Hdt, bind_ret_l in Hev.
  apply bind_Ok in Hev as (ev & -> & [= Hv]). unfold verdict. simpl. rewrite Hv.
  unfold d_lte. erewrite money_cmp by eauto with money.
  unfold Z.leb. by destruct (Z.abs (x - y) ?= m).
Qed.

(** The exception to totality: an [approx] whose tolerance is not a
    decimal throws as soon as both comparands are numbers, instead of being
    UNASSESSABLE. *)
Theorem malformed_tolerance_throws (facts : FactBundle) (kl kr al cl ar cr t : string) (x y : Z) :
  facts !! kl = Some (FactMoney al cl) → facts !! kr = Some (FactMoney ar cr) →
  money_units al = Some x → money_units ar = Some y → new_Decimal t = None →
  evaluate (AstCompare CmpApprox (AstFactRef kl) (AstFactRef kr) (Some t)) facts =
  Err (InvalidDecimal t).
Proof.
  intros Hl Hr Hx Hy Ht.
  destruct (evaluate_money_compare facts CmpApprox (Some t) kl kr al cl ar cr x y)
    as (dx & dy & _ & _ & Hev); [done..|].
  unfold decimal_or_throw in Hev. simpl default in Hev. rewrite Ht in Hev.
  destruct (evaluate _ _) as [ev|e]; [done|]. by injection Hev as ->.
Qed.
End guarantees.

(** ** The theorems at concrete inputs *)

Section witnesses.
#[local] Existing Instance ExactDecimal.ops.
#[local] Existing Instance ExactDecimal.laws.

Definition demo_node : AstNode :=
  AstRequire "expected"
    (AstCompare CmpApprox (AstFactRef "billed") (AstFactRef "expected") (Some "0.01")).
Definition demo_facts : FactBundle :=
  {[ "billed" := FactMoney "100.0050" "USD"; "expected" := FactMoney "100.0000" "USD" ]}.
Definition demo_compare (t : string) : AstNode :=
  AstCompare CmpApprox (AstFactRef "billed") (AstFactRef "expected") (Some t).

Lemma evaluate_depends_on_keys_witness :
  evaluate demo_node demo_facts = evaluate demo_node (<["other":=FactBool true]> demo_facts).
Proof.
  apply evaluate_depends_on_keys. intros k Hk. symmetry. apply lookup_insert_ne.
  intros <-. simpl in Hk. by rewrite !elem_of_cons, elem_of_nil in Hk; naive_solver.
Defined.

Lemma demo_evaluates : ∃ ev, evaluate demo_node demo_facts = Ok ev ∧ verdict ev = PASS.
Proof. eexists. split; vm_compute; reflexivity. Qed.

Lemma assessable_needs_facts_witness : fact_present demo_facts "billed" = true.
Proof.
  destruct demo_evaluates as (ev & Hev & Hv).
  apply (assessable_needs_facts demo_node demo_facts ev); [done|by rewrite Hv|].
  apply list_elem_of_In. simpl. tauto.
Defined.

Lemma evaluated_tree_explains_witness : ∃ ev c,
  evaluate demo_node demo_facts = Ok ev ∧ c ≠ ev ∧ evaluate (ev_node c) demo_facts = Ok c.
Proof.
  assert (∃ c, evaluate (demo_compare "0.01") demo_facts = Ok c) as [c Hc]
    by (eexists; vm_compute; reflexivity).
  exists (mkEval demo_node (ev_value c) (Some [c])), c.
  assert (evaluate demo_node demo_facts = Ok (mkEval demo_node (ev_value c) (Some [c]))) as He.
  { unfold demo_node. rewrite evaluate_require by reflexivity.
    change (AstCompare _ _ _ _) with (demo_compare "0.01"). by rewrite Hc. }
  split; [done|]. split.
  - intros Heq. assert (ev_node c = demo_node) as Hn by by rewrite Heq.
    by rewrite (evaluate_node _ _ _ Hc) in Hn.
  - apply (evaluated_tree_explains _ _ _ _ He). eapply subtree_child; [|apply subtree_refl].
    by apply list_elem_of_singleton.
Defined.

Lemma approx_decides_distance_witness :
  verdict <$> evaluate (demo_compare "0.01") demo_facts = Ok PASS.
Proof.
  apply (approx_decides_distance demo_facts "billed" "expected" "100.0050" "USD" "100.0000" "USD"
    "0.01" 1000050 1000000 100); vm_compute; reflexivity.
Defined.

Lemma malformed_tolerance_throws_witness :
  evaluate (demo_compare "1%") demo_facts = Err (InvalidDecimal "1%").
Proof.
  apply (malformed_tolerance_throws demo_facts "billed" "expected" "100.0050" "USD" "100.0000" "USD"
    "1%" 1000050 1000000); vm_compute; reflexivity.
Defined.
End witnesses.
