(* ===== verification/Json.v ===== *)
(** Canonical JSON text.  [canonical] is the recursive printer with sorted keys
    that the tightening prover ([canonical] in monotonic-tighten.ts), the rubric
    hash ([stableStringify] in snapshot.ts) and the replay manifest
    ([canonicalJson] in replay-manifest.ts) share, up to the order they sort keys
    with.  The main lemma is that the text determines the value up to key order. *)

From S2P Require Import Prelude JsText.

Inductive json : Set :=
  | JNull
  | JBool (b : bool)
  | JNumber (n : js_number)
  | JString (s : string)
  | JArray (items : list json)
  | JObject (entries : list (string * json)).

Section json_induction.
Variable P : json → Prop.
Hypothesis HNull : P JNull.
Hypothesis HBool : ∀ b, P (JBool b).
Hypothesis HNumber : ∀ n, P (JNumber n).
Hypothesis HString : ∀ s, P (JString s).
Hypothesis HArray : ∀ l, Forall P l → P (JArray l).
Hypothesis HObject : ∀ l, Forall (λ e, P e.2) l → P (JObject l).
Fixpoint json_ind' (j : json) : P j :=
  match j with
  | JNull => HNull
  | JBool b => HBool b
  | JNumber n => HNumber n
  | JString s => HString s
  | JArray l => HArray l ((fix go l : Forall P l :=
      match l with
      | [] => Forall_nil_2 P
      | x :: l' => Forall_cons_2 P x l' (json_ind' x) (go l')
      end) l)
  | JObject l => HObject l ((fix go l : Forall (λ e, P e.2) l :=
      match l with
      | [] => Forall_nil_2 _
      | (k, x) :: l' => Forall_cons_2 (λ e : string * json, P e.2) (k, x) l' (json_ind' x) (go l')
      end) l)
  end.
End json_induction.

(** ** [JSON.stringify] of scalars *)

Definition hex_digit (n : N) : ascii := ascii_of_N (if n <? 10 then 48 + n else 87 + n)%N.

(** The escape of one code unit inside a JSON string. *)
Definition escape (c : ascii) : string :=
  let n := code c in
  if (n =? 34)%N then String "\" (String c "")
  else if (n =? 92)%N then String "\" (String c "")
  else if (n =? 8)%N then "\b" else if (n =? 9)%N then "\t"
  else if (n =? 10)%N then "\n" else if (n =? 12)%N then "\f"
  else if (n =? 13)%N then "\r"
  else if (n <? 32)%N
  then "\u00" +:+ String (hex_digit (n / 16)) (String (hex_digit (n mod 16)) "")
  else String c "".

Definition dquote : ascii := ascii_of_N 34.

Fixpoint escape_all (s : string) : string :=
  match s with "" => "" | String c s' => escape c +:+ escape_all s' end.
Definition quote (s : string) : string := String dquote (escape_all s +:+ String dquote "").

Definition number_text (n : js_number) : string :=
  match n with JsFinite t => t | _ => "null" end.

(** ** The printers *)

Definition print_entry (k v : string) : string := quote k +:+ ":" +:+ v.
Definition brackets (o c : ascii) (items : list string) : string :=
  String o (join "," items +:+ String c "").

(** [JSON.stringify] without white space. *)
Fixpoint print (j : json) : string :=
  match j with
  | JNull => "null"
  | JBool b => if b then "true" else "false"
  | JNumber n => number_text n
  | JString s => quote s
  | JArray l => brackets "[" "]" (map print l)
  | JObject l => brackets "{" "}" (map (λ e, print_entry e.1 (print e.2)) l)
  end.

(** The canonical text: object entries sorted by key with [cmp]. *)
Fixpoint canonical (cmp : string → string → comparison) (j : json) : string :=
  match j with
  | JArray l => brackets "[" "]" (map (canonical cmp) l)
  | JObject l =>
      brackets "{" "}" (map (λ e, print_entry e.1 e.2)
        (js_sort (cmp_on fst cmp) (map (λ e, (e.1, canonical cmp e.2)) l)))
  | _ => print j
  end.

(** The value the canonical text prints. *)
Fixpoint sorted_keys (cmp : string → string → comparison) (j : json) : json :=
  match j with
  | JArray l => JArray (map (sorted_keys cmp) l)
  | JObject l => JObject (js_sort (cmp_on fst cmp) (map (λ e, (e.1, sorted_keys cmp e.2)) l))
  | _ => j
  end.

Lemma js_sort_map {A B} (f : A → B) (c : A → A → comparison) (c' : B → B → comparison) l :
  (∀ x y, c' (f x) (f y) = c x y) → js_sort c' (map f l) = map f (js_sort c l).
Proof.
  intros Hf. induction l as [|x l IH]; simpl; [done|]. rewrite IH. clear IH.
  induction (js_sort c l) as [|y k IH]; simpl; [done|].
  rewrite Hf. destruct (c x y); simpl; [done..|]. by rewrite IH.
Qed.

Lemma canonical_print cmp j : canonical cmp j = print (sorted_keys cmp j).
Proof.
  induction j as [| | | |l IH|l IH] using json_ind'; simpl; try done.
  - f_equal. rewrite map_map. by apply map_ext_Forall.
  - f_equal. rewrite (js_sort_map (λ e : string * json, (e.1, canonical cmp e.2)) (cmp_on fst cmp))
      by done.
    rewrite (js_sort_map (λ e : string * json, (e.1, sorted_keys cmp e.2)) (cmp_on fst cmp)) by done.
    rewrite !map_map. apply map_ext_Forall. simpl. rewrite js_sort_perm.
    eapply Forall_impl; [exact IH|]. by intros [k v] ->.
Qed.

(** ** The text determines the value *)

Definition numeral_char (c : ascii) : bool :=
  is_digit c || existsb (λ d, bool_decide (c = d)) ["-"; "+"; "."; "e"; "E"]%char.
Definition numeral_head (c : ascii) : bool := is_digit c || bool_decide (c = "-"%char).

(** The number texts [Number.prototype.toString] yields for finite numbers. *)
Definition number_wf (n : js_number) : bool :=
  match n with
  | JsFinite (String c s) => numeral_head c && string_all numeral_char s
  | _ => false
  end.
Fixpoint json_wf (j : json) : bool :=
  match j with
  | JNumber n => number_wf n
  | JArray l => forallb json_wf l
  | JObject l => forallb (λ e, json_wf e.2) l
  | _ => true
  end.

(** What may follow a value: nothing, or a character that ends a numeral. *)
Definition delimited (r : string) : bool :=
  match r with "" => true | String c _ => negb (numeral_char c) end.

Section injectivity.
Lemma forallb_True_elem {A} (p : A → bool) l : forallb p l = true → ∀ x, x ∈ l → p x = true.
Proof. rewrite forallb_forall. setoid_rewrite list_elem_of_In. done. Qed.

Definition all_ascii : list ascii := map (λ n, ascii_of_nat n) (seq 0 256).
Lemma all_ascii_complete c : c ∈ all_ascii.
Proof.
  unfold all_ascii. apply list_elem_of_In, in_map_iff. exists (nat_of_ascii c).
  split; [apply ascii_nat_embedding|]. apply in_seq.
  pose proof (nat_ascii_bounded c). lia.
Qed.

Lemma prefix_of_app a b x y : a +:+ x = b +:+ y → String.prefix a b ∨ String.prefix b a.
Proof.
  revert b. induction a as [|c a IH]; intros [|d b]; simpl; try (intros; by (left + right)).
  intros [= -> H]. destruct (ascii_dec d d); [|done]. by apply IH.
Qed.

(** Escapes form a prefix code, and none starts with the closing quote. *)
Lemma escape_prefix c d : String.prefix (escape c) (escape d) = true → c = d.
Proof.
  assert (forallb (λ c, forallb (λ d, implb (String.prefix (escape c) (escape d))
    (bool_decide (c = d))) all_ascii) all_ascii = true) as H by by vm_compute.
  rewrite forallb_forall in H. specialize (H c (proj1 (list_elem_of_In _ _) (all_ascii_complete c))).
  rewrite forallb_forall in H. specialize (H d (proj1 (list_elem_of_In _ _) (all_ascii_complete d))).
  intros Hp. rewrite Hp in H. simpl in H. by apply bool_decide_eq_true in H.
Qed.

Lemma escape_head c : ∃ d s, escape c = String d s ∧ d ≠ dquote.
Proof.
  assert (forallb (λ c, match escape c with String d _ => bool_decide (d ≠ dquote) | "" => false end)
    all_ascii = true) as H by by vm_compute.
  rewrite forallb_forall in H. specialize (H c (proj1 (list_elem_of_In _ _) (all_ascii_complete c))).
  destruct (escape c) as [|d s]; [done|]. apply bool_decide_eq_true in H. eauto.
Qed.

Lemma escape_inj c d x y : escape c +:+ x = escape d +:+ y → c = d ∧ x = y.
Proof.
  intros H. assert (c = d) as ->.
  { destruct (prefix_of_app _ _ _ _ H) as [Hp|Hp]; [|symmetry];
      apply escape_prefix; by destruct (String.prefix _ _). }
  split; [done|]. by apply (inj (String.append (escape d))).
Qed.

Lemma escape_all_inj s t x y :
  escape_all s +:+ String dquote x = escape_all t +:+ String dquote y → s = t ∧ x = y.
Proof.
  revert t. induction s as [|c s IH]; intros [|d t]; simpl.
  - by intros [= ->].
  - destruct (escape_head d) as (e & u & -> & He). simpl. intros [= ? _]. done.
  - destruct (escape_head c) as (e & u & -> & He). simpl. intros [= ? _]. done.
  - rewrite !sapp_assoc. intros [-> H]%escape_inj. by apply IH in H as [-> ->].
Qed.

Lemma quote_inj s t x y : quote s +:+ x = quote t +:+ y → s = t ∧ x = y.
Proof.
  unfold quote. simpl. rewrite !sapp_assoc. simpl. intros [= H]. by apply escape_all_inj.
Qed.

Lemma numeral_inj s t x y : string_all numeral_char s = true → string_all numeral_char t = true →
  delimited x = true → delimited y = true → s +:+ x = t +:+ y → s = t ∧ x = y.
Proof.
  revert t. induction s as [|c s IH]; intros [|d t]; simpl.
  - done.
  - intros _ [Hd _]%andb_true_iff Hx _ ->. simpl in Hx. by rewrite Hd in Hx.
  - intros [Hc _]%andb_true_iff _ _ Hy <-. simpl in Hy. by rewrite Hc in Hy.
  - intros [_ Hs]%andb_true_iff [_ Ht]%andb_true_iff Hx Hy [= -> H].
    by destruct (IH t Hs Ht Hx Hy H) as [-> ->].
Qed.

(** The first character of a value's text tells its kind. *)
Inductive kind : Set := KNull | KTrue | KFalse | KNumber | KString | KArray | KObject.
#[local] Instance kind_eq_dec : EqDecision kind.
Proof. solve_decision. Defined.
Definition kind_of (j : json) : kind :=
  match j with
  | JNull => KNull | JBool true => KTrue | JBool false => KFalse | JNumber _ => KNumber
  | JString _ => KString | JArray _ => KArray | JObject _ => KObject
  end.
Definition head_kind (c : ascii) : option kind :=
  if bool_decide (c = "n"%char) then Some KNull
  else if bool_decide (c = "t"%char) then Some KTrue
  else if bool_decide (c = "f"%char) then Some KFalse
  else if bool_decide (c = dquote) then Some KString
  else if bool_decide (c = "["%char) then Some KArray
  else if bool_decide (c = "{"%char) then Some KObject
  else if numeral_head c then Some KNumber else None.

Lemma numeral_head_kind c : numeral_head c = true → head_kind c = Some KNumber.
Proof. by destruct c as [[] [] [] [] [] [] [] []]. Qed.

Lemma print_head j : json_wf j = true →
  ∃ c s, print j = String c s ∧ head_kind c = Some (kind_of j).
Proof.
  destruct j as [|[]|[[|c s]| |]|s|l|l]; simpl; intros Hwf; try done; try (by eexists _, _).
  apply andb_true_iff in Hwf as [Hc _]. eexists _, _. split; [done|].
  by apply numeral_head_kind.
Qed.

Lemma print_kind a b x y : json_wf a = true → json_wf b = true →
  print a +:+ x = print b +:+ y → kind_of a = kind_of b.
Proof.
  intros (c & s & -> & Hc)%print_head (d & t & -> & Hd)%print_head. simpl.
  intros [= -> _]. congruence.
Qed.

(** Items separated by commas up to a closing character. *)
Lemma join_inj {A} (wf : A → Prop) (p : A → string) (c : ascii) l l' x y :
  c ≠ ","%char → numeral_char c = false →
  (∀ a, wf a → ∃ d s, p a = String d s ∧ d ≠ c) →
  Forall (λ a, ∀ b x y, wf a → wf b → delimited x = true → delimited y = true →
    p a +:+ x = p b +:+ y → a = b ∧ x = y) l →
  Forall wf l → Forall wf l' →
  join "," (map p l) +:+ String c x = join "," (map p l') +:+ String c y → l = l' ∧ x = y.
Proof.
  intros Hcomma Hnum Hhead Hl. revert l'.
  assert (∀ z, delimited (String c z) = true) as Hd1 by (intros z; simpl; by rewrite Hnum).
  assert (∀ z, delimited (String "," z) = true) as Hd2 by done.
  induction Hl as [|a l Ha Hl IH]; intros [|b l'] Hwl Hwl'.
  - simpl. by intros [= ->].
  - apply Forall_cons in Hwl' as [Hb _]. destruct (Hhead b Hb) as (d & s & E & Hd).
    simpl. destruct (map p l'); rewrite E; simpl; intros [= ? _]; congruence.
  - apply Forall_cons in Hwl as [Ha' _]. destruct (Hhead a Ha') as (d & s & E & Hd).
    simpl. destruct (map p l); rewrite E; simpl; intros [= ? _]; congruence.
  - apply Forall_cons in Hwl as [Hwa Hwl], Hwl' as [Hwb Hwl'].
    specialize (IH l' Hwl Hwl'). simpl in *.
    destruct l as [|a2 l], l' as [|b2 l']; simpl in *; rewrite ?sapp_assoc; intros H;
      apply Ha in H as [-> H]; auto;
      try (injection H; congruence); try (by injection H as ->).
    injection H as H. apply IH in H as [-> ->]. done.
Qed.

Lemma brackets_app o c l x : brackets o c l +:+ x = String o (join "," l +:+ String c x).
Proof. unfold brackets. simpl. by rewrite sapp_assoc. Qed.

Lemma entry_inj k v k' v' x y : print_entry k v +:+ x = print_entry k' v' +:+ y →
  k = k' ∧ v +:+ x = v' +:+ y.
Proof.
  unfold print_entry. rewrite !sapp_assoc. intros [-> H]%quote_inj. simpl in H.
  by injection H as H.
Qed.

Lemma print_inj_app a b x y : json_wf a = true → json_wf b = true →
  delimited x = true → delimited y = true → print a +:+ x = print b +:+ y → a = b ∧ x = y.
Proof.
  revert b x y. induction a as [|a|n|s|l IH|l IH] using json_ind'; intros b x y Ha Hb Hx Hy H;
    pose proof (print_kind _ _ _ _ Ha Hb H) as Hk.
  - destruct b as [|[]| | | |]; try done. by injection H as ->.
  - destruct a, b as [|[]| | | |]; try done; by injection H as ->.
  - destruct b as [|[]|m| | |]; try done. destruct n as [[|c n]| |], m as [[|d m]| |]; try done.
    simpl in Ha, Hb. apply andb_true_iff in Ha as [Ha Ha'], Hb as [Hb Hb'].
    assert (∀ c, numeral_head c = true → numeral_char c = true) as Hn
      by (by intros [[] [] [] [] [] [] [] []]).
    apply (numeral_inj (String c n) (String d m)) in H as [-> ->]; try done; simpl;
      by rewrite Hn.
  - destruct b as [|[]| |t| |]; try done. by apply quote_inj in H as [-> ->].
  - destruct b as [|[]| | |l'|]; try done. simpl print in H. rewrite !brackets_app in H.
    injection H as H. simpl in Ha, Hb.
    apply (join_inj (λ j, json_wf j = true)) in H as [-> ->]; try done.
    + intros a (d & s & -> & Hd)%print_head. eexists _, _. split; [done|]. intros ->. done.
    + apply Forall_forall. by apply forallb_True_elem.
    + apply Forall_forall. by apply forallb_True_elem.
  - destruct b as [|[]| | | |l']; try done. simpl print in H. rewrite !brackets_app in H.
    injection H as H. simpl in Ha, Hb.
    apply (join_inj (λ e, json_wf e.2 = true)) in H as [-> ->]; try done.
    + intros [k v] _. by eexists dquote, _.
    + eapply Forall_impl; [exact IH|]. intros [k v] Hv [k' v'] x' y' Hw Hw' ?? He. simpl in *.
      apply entry_inj in He as [-> He]. by destruct (Hv v' x' y') as [-> ->].
    + apply Forall_forall. by apply (forallb_True_elem (λ e, json_wf e.2)).
    + apply Forall_forall. by apply (forallb_True_elem (λ e, json_wf e.2)).
Qed.

Lemma print_inj a b : json_wf a = true → json_wf b = true → print a = print b → a = b.
Proof.
  intros Ha Hb H. by destruct (print_inj_app a b "" "" Ha Hb) as [-> _]; [done..|rewrite H|].
Qed.

Lemma sorted_keys_wf cmp j : json_wf (sorted_keys cmp j) = json_wf j.
Proof.
  induction j as [| | | |l IH|l IH] using json_ind'; simpl; try done.
  - induction IH as [|x l Hx _ IH]; simpl; [done|]. by rewrite Hx, IH.
  - apply eq_true_iff_eq. rewrite !forallb_forall. setoid_rewrite <- list_elem_of_In.
    setoid_rewrite elem_of_js_sort. setoid_rewrite list_elem_of_In.
    rewrite Forall_forall in IH. setoid_rewrite list_elem_of_In in IH. split.
    + intros H e He. rewrite <- (IH e He). apply (H (e.1, sorted_keys cmp e.2)).
      apply in_map_iff. eauto.
    + intros H e (e' & <- & He')%in_map_iff. simpl. rewrite IH; eauto.
Qed.

(** Canonical text is injective up to key order: two well-formed values
    with the same canonical text are the same value once object entries are
    sorted, for any collation. *)
Theorem canonical_injective cmp (a b : json) :
  json_wf a = true → json_wf b = true → canonical cmp a = canonical cmp b →
  sorted_keys cmp a = sorted_keys cmp b.
Proof.
  intros Ha Hb. rewrite !canonical_print. apply print_inj; by rewrite sorted_keys_wf.
Qed.
End injectivity.

Lemma canonical_injective_witness :
  let a := JObject [("b", JNumber (JsFinite "1")); ("a", JBool true)] in
  let b := JObject [("a", JBool true); ("b", JNumber (JsFinite "1"))] in
  a ≠ b ∧ sorted_keys code_unit_compare a = sorted_keys code_unit_compare b.
Proof.
  split; [done|].
  apply (canonical_injective code_unit_compare); vm_compute; reflexivity.
Defined.
