(* ===== verification/AstJson.v ===== *)
(** The JSON value of a predicate AST, as rules are stored, and the fact that its
    canonical text identifies the AST. *)

From S2P Require Import Prelude JsText Decimal Json Interpreter.

(** ** The JSON value of an AST *)

Definition lit_json (v : LitValue) : json :=
  match v with LitNumber n => JNumber n | LitString s => JString s | LitBool b => JBool b end.

Definition compare_op_text (op : CompareOp) : string :=
  match op with
  | CmpEq => "eq" | CmpNe => "ne" | CmpGt => "gt" | CmpGte => "gte"
  | CmpLt => "lt" | CmpLte => "lte" | CmpApprox => "approx"
  end.

Fixpoint ast_json (n : AstNode) : json :=
  match n with
  | AstLit v => JObject [("type", JString "lit"); ("value", lit_json v)]
  | AstMoney a c => JObject [("type", JString "money"); ("amount", JString a); ("currency", JString c)]
  | AstFactRef k => JObject [("type", JString "fact"); ("key", JString k)]
  | AstArith op args =>
      JObject [("type", JString "arith"); ("op", JString (arith_op_text op));
               ("args", JArray (map ast_json args))]
  | AstCompare op l r tol =>
      JObject ([("type", JString "compare"); ("op", JString (compare_op_text op));
                ("left", ast_json l); ("right", ast_json r)] ++
               match tol with Some t => [("tolerance", JString t)] | None => [] end)
  | AstLogic op args =>
      JObject [("type", JString "logic"); ("op", JString (logic_op_text op));
               ("args", JArray (map ast_json args))]
  | AstRequire k b =>
      JObject [("type", JString "require"); ("key", JString k); ("then", ast_json b)]
  end.

(** ** Canonical text identifies ASTs *)

(** Every number literal has the text of a finite JavaScript number. *)
Fixpoint ast_wf (n : AstNode) : bool :=
  match n with
  | AstLit (LitNumber x) => number_wf x
  | AstLit _ | AstMoney _ _ | AstFactRef _ => true
  | AstArith _ args | AstLogic _ args => forallb ast_wf args
  | AstCompare _ l r _ => ast_wf l && ast_wf r
  | AstRequire _ b => ast_wf b
  end.

Section canonical_ast.
Lemma ast_json_wf n : json_wf (ast_json n) = ast_wf n.
Proof.
  assert (∀ args, Forall (λ n, json_wf (ast_json n) = ast_wf n) args →
    forallb json_wf (map ast_json args) = forallb ast_wf args) as Hargs.
  { induction 1 as [|x l Hx _ IH]; simpl; [done|]. by rewrite Hx, IH. }
  induction n as [[x|s|b]|a c|k|op args IH|op l r tol IHl IHr|op args IH|k b IH]
    using AstNode_ind'; simpl; rewrite ?andb_true_r; auto.
  rewrite IHl, IHr. destruct (ast_wf l), (ast_wf r), tol; done.
Qed.

(** Sorted objects with the same entries agree on every key. *)
Lemma sorted_keys_get cmp e1 e2 k :
  sorted_keys cmp (JObject e1) = sorted_keys cmp (JObject e2) →
  NoDup e1.*1 → NoDup e2.*1 →
  sorted_keys cmp <$> map_get e1 k = sorted_keys cmp <$> map_get e2 k.
Proof.
  set (f := λ e : string * json, (e.1, sorted_keys cmp e.2)).
  assert (∀ e, sorted_keys cmp <$> map_get e k = map_get (map f e) k) as Hget.
  { induction e as [|[k' v] e IH]; simpl; [done|]. by destruct (decide (k = k')). }
  assert (∀ e : list (string * json), (map f e).*1 = e.*1) as Hkeys.
  { induction e as [|[k' v] e IH]; simpl; [done|]. by f_equal. }
  simpl. intros [= H] Hnd1 Hnd2. rewrite !Hget. fold f in H.
  assert (map f e1 ≡ₚ map f e2) as Hp.
  { rewrite <- (js_sort_perm (cmp_on fst cmp) (map f e1)), H. apply js_sort_perm. }
  destruct (map_get (map f e1) k) as [v|] eqn:E; symmetry.
  - apply map_get_elem in E. apply map_get_Some; [by rewrite Hkeys|]. by rewrite <- Hp.
  - apply map_get_None in E. apply map_get_None. by rewrite <- Hp.
Qed.
End canonical_ast.

Section canonical_injectivity.
Variable cmp : string → string → comparison.

(** The field equations two equal canonical objects give. *)
Lemma field_eq e1 e2 k :
  sorted_keys cmp (JObject e1) = sorted_keys cmp (JObject e2) →
  NoDup e1.*1 → NoDup e2.*1 →
  sorted_keys cmp <$> map_get e1 k = sorted_keys cmp <$> map_get e2 k.
Proof. apply sorted_keys_get. Qed.

Ltac nodup_keys := repeat (first [apply NoDup_nil_2 | apply NoDup_cons; split; [set_solver|]]).
(** [field H k as H']: the equation for key [k] out of object equation [H]. *)
Ltac field H k H' :=
  pose proof (field_eq _ _ k H ltac:(simpl; nodup_keys) ltac:(simpl; nodup_keys)) as H';
  vm_compute map_get in H'; simpl in H'; injection H' as H'.

Lemma ast_json_type n1 n2 :
  sorted_keys cmp (ast_json n1) = sorted_keys cmp (ast_json n2) →
  match n1, n2 with
  | AstLit _, AstLit _ | AstMoney _ _, AstMoney _ _ | AstFactRef _, AstFactRef _
  | AstArith _ _, AstArith _ _ | AstCompare _ _ _ _, AstCompare _ _ _ _
  | AstLogic _ _, AstLogic _ _ | AstRequire _ _, AstRequire _ _ => True
  | _, _ => False
  end.
Proof.
  assert (∀ n, ∃ e t, ast_json n = JObject (("type", JString t) :: e) ∧
    NoDup ("type" :: e.*1) ∧
    t = match n with
        | AstLit _ => "lit" | AstMoney _ _ => "money" | AstFactRef _ => "fact"
        | AstArith _ _ => "arith" | AstCompare _ _ _ _ => "compare"
        | AstLogic _ _ => "logic" | AstRequire _ _ => "require" end) as Hn.
  { intros []; eexists _, _; (split; [done|]); (split; [|done]);
      try destruct tolerance; simpl; nodup_keys. }
  intros H. destruct (Hn n1) as (e1 & t1 & E1 & Hd1 & Ht1), (Hn n2) as (e2 & t2 & E2 & Hd2 & Ht2).
  rewrite E1, E2 in H. pose proof (field_eq _ _ "type" H Hd1 Hd2) as Ht. simpl in Ht.
  injection Ht as Ht. rewrite Ht1, Ht2 in Ht. by destruct n1, n2.
Qed.

Lemma ast_json_args args args' :
  Forall (λ a, ∀ b, sorted_keys cmp (ast_json a) = sorted_keys cmp (ast_json b) → a = b) args →
  map (sorted_keys cmp) (map ast_json args) = map (sorted_keys cmp) (map ast_json args') →
  args = args'.
Proof.
  intros Hargs. revert args'. induction Hargs as [|x l Hx _ IH]; intros [|y l']; try done.
  simpl. intros [= H1 H2]. f_equal; auto.
Qed.

Lemma ast_json_inj a b : sorted_keys cmp (ast_json a) = sorted_keys cmp (ast_json b) → a = b.
Proof.
  revert b. induction a as [v|am c|k|op args IH|op l r tol IHl IHr|op args IH|k a IH]
    using AstNode_ind'; intros b H; pose proof (ast_json_type _ _ H) as Ht;
    destruct b as [v'|am' c'|k'|op' args'|op' l' r' tol'|op' args'|k' a']; try done;
    clear Ht; simpl ast_json in H.
  - field H "value" H1. by destruct v, v'; simplify_eq/=.
  - field H "amount" H1. field H "currency" H2. congruence.
  - field H "key" H1. congruence.
  - field H "op" H1. field H "args" H2. apply ast_json_args in H2; [|done].
    by destruct op, op'; simplify_eq/=.
  - assert (∀ t, NoDup ([("type", JString "compare"); ("op", JString (compare_op_text op));
        ("left", ast_json l); ("right", ast_json r)] ++
        match t with Some t => [("tolerance", JString t)] | None => [] end).*1) as Hnd
      by (intros [t|]; simpl; nodup_keys).
    assert (∀ k', _) as Hf by exact (λ k, field_eq _ _ k H (Hnd tol) (Hnd tol')).
    pose proof (Hf "op") as H1. pose proof (Hf "left") as H2.
    pose proof (Hf "right") as H3. pose proof (Hf "tolerance") as H4. clear Hf Hnd H.
    simpl in H1, H2, H3, H4. injection H1 as H1. injection H2 as H2%IHl. injection H3 as H3%IHr.
    destruct tol, tol'; simpl in H4; simplify_eq/=; by destruct op, op'.
  - field H "op" H1. field H "args" H2. apply ast_json_args in H2; [|done].
    by destruct op, op'; simplify_eq/=.
  - field H "key" H1. field H "then" H2. apply IH in H2. congruence.
Qed.

Lemma canonical_ast_inj a b : ast_wf a = true → ast_wf b = true →
  canonical cmp (ast_json a) = canonical cmp (ast_json b) → a = b.
Proof.
  rewrite <- !ast_json_wf. intros Ha Hb H. apply ast_json_inj.
  rewrite !canonical_print in H. apply print_inj; by rewrite ?sorted_keys_wf.
Qed.
End canonical_injectivity.

