(* ===== verification/Tighten.v ===== *)
(** The monotonic-tightening prover
    ([src/src/modules/rubric-resolver/monotonic-tighten.ts]): [proveCompare],
    [proveMonotonicTighten], and the soundness of a [monotonic] answer against
    the interpreter. *)

From S2P Require Import Prelude JsText Decimal Json Interpreter AstJson.

(** ** The prover *)

Inductive TightenReason : Set := UNSUPPORTED_SHAPE | OPERAND_CHANGED | BOUND_WEAKENED | CLAUSE_REMOVED.
Inductive TightenKind : Set := IDENTICAL | NARROWER_BOUND | NARROWER_TOLERANCE | ADDED_CONJUNCTS.
Inductive TightenProof : Set :=
  | Monotonic (proof : TightenKind)
  | NotMonotonic (reason : TightenReason).

Section prover.
Context {D : DecimalJs} {C : Collator}.

Definition canonical_ast (n : AstNode) : string := canonical localeCompare (ast_json n).

(** [new Decimal(number)]: a non-finite number is accepted as such. *)
Definition number_decimal (n : js_number) : option dec :=
  match n with
  | JsFinite t => new_Decimal t
  | JsNaN => new_Decimal "NaN"
  | JsInfinity neg => new_Decimal (if neg then "-Infinity" else "Infinity")
  end.

Definition numericLiteral (n : AstNode) : option dec :=
  match n with
  | AstLit (LitNumber x) => number_decimal x
  | AstLit (LitString s) => new_Decimal s
  | _ => None
  end.

Definition proveCompare (op op' : CompareOp) (l l' r r' : AstNode) (tol tol' : option string) :
    TightenProof :=
  if negb (bool_decide (op = op')) || negb (bool_decide (canonical_ast l = canonical_ast l'))
  then NotMonotonic OPERAND_CHANGED else
  match op with
  | CmpApprox =>
      if negb (bool_decide (canonical_ast r = canonical_ast r'))
      then NotMonotonic OPERAND_CHANGED else
      match new_Decimal (default "0" tol), new_Decimal (default "0" tol') with
      | Some before, Some after =>
          if d_lte after before
          then Monotonic (if d_eq after before then IDENTICAL else NARROWER_TOLERANCE)
          else NotMonotonic BOUND_WEAKENED
      | _, _ => NotMonotonic UNSUPPORTED_SHAPE
      end
  | _ =>
      match numericLiteral r, numericLiteral r' with
      | Some before, Some after =>
          let safe :=
            match op with
            | CmpLt | CmpLte => d_lte after before
            | CmpGt | CmpGte => d_gte after before
            | _ => d_eq after before
            end in
          if safe then Monotonic (if d_eq after before then IDENTICAL else NARROWER_BOUND)
          else NotMonotonic BOUND_WEAKENED
      | _, _ => NotMonotonic UNSUPPORTED_SHAPE
      end
  end.

Definition proveMonotonicTighten (base tightened : AstNode) : TightenProof :=
  if bool_decide (canonical_ast base = canonical_ast tightened) then Monotonic IDENTICAL else
  match base, tightened with
  | AstCompare op l r tol, AstCompare op' l' r' tol' => proveCompare op op' l l' r r' tol tol'
  | AstLogic LogAnd args, AstLogic LogAnd args' =>
      let nextClauses := map canonical_ast args' in
      if forallb (λ clause, bool_decide (canonical_ast clause ∈ nextClauses)) args
      then Monotonic ADDED_CONJUNCTS else NotMonotonic CLAUSE_REMOVED
  | _, _ => NotMonotonic UNSUPPORTED_SHAPE
  end.

(** [isNonMonotonic] of persist-tighten-conflict.ts. *)
Definition isNonMonotonic (p : TightenProof) : bool :=
  match p with Monotonic _ => false | NotMonotonic _ => true end.
End prover.

(** ** Soundness *)

Section soundness.
Context {D : DecimalJs} {L : DecimalLaws D} {C : Collator}.

(** The bound of a comparison is a number literal the interpreter accepts. *)
Definition numeric_bound (n : AstNode) : bool :=
  match n with
  | AstCompare CmpApprox _ _ _ => true
  | AstCompare _ _ (AstLit (LitNumber x)) _ =>
      match safeDecimal (inl x) with Some _ => true | None => false end
  | AstCompare _ _ _ _ => false
  | _ => true
  end.

Definition passes (n : AstNode) (facts : FactBundle) : Prop :=
  verdict <$> evaluate n facts = Ok PASS.

Lemma passes_iff n facts :
  passes n facts ↔ ∃ ev, evaluate n facts = Ok ev ∧ ev_value ev = VBool true.
Proof using Type.
  unfold passes, verdict. destruct (evaluate n facts) as [ev|e]; simpl.
  - split.
    + intros [= Hv]. exists ev. split; [done|]. by destruct (ev_value ev) as [| |[]| |].
    + intros (ev' & [= <-] & Hv). by rewrite Hv.
  - split; [done|]. by intros (ev & ? & _).
Qed.

(** What a bound literal evaluates to. *)
Lemma eval_bound x d facts : safeDecimal (inl x) = Some d →
  evaluate (AstLit (LitNumber x)) facts =
  Ok (mkEval (AstLit (LitNumber x)) (VNumber (d_toString d)) None).
Proof using Type. intros Hx. cbn [evaluate]. unfold eval_lit. by rewrite Hx. Qed.

Lemma numericLiteral_safe x d : safeDecimal (inl x) = Some d →
  numericLiteral (AstLit (LitNumber x)) = Some d ∧ d_isFinite d = true.
Proof using Type.
  destruct x as [t| |]; try done. simpl. unfold safeDecimal_text.
  intros (d' & Hd & Hf)%bind_Some. destruct (d_isFinite d') eqn:E; naive_solver.
Qed.

(** The decimal a printed number reads back as compares like the original. *)
Lemma toString_decimal d : d_isFinite d = true →
  ∃ d', new_Decimal (d_toString d) = Some d' ∧ d_isFinite d' = true ∧ d_eq d' d = true.
Proof.
  intros Hd. destruct (law_toString d) as (d' & Hn & Hf & Hv). rewrite Hd in Hf, Hv.
  exists d'. split; [done|]. split; [done|]. unfold d_eq. rewrite law_cmp by done.
  rewrite (proj1 (QArith_base.Qeq_alt _ _)); [done|by apply Hv].
Qed.

Lemma d_eq_lte a b : d_eq a b = true → d_lte a b = true ∧ d_lte b a = true.
Proof.
  intros H. rewrite <- (d_gte_flip a b). unfold d_eq, d_lte, d_gte in *.
  by destruct (d_cmp a b) as [[]|].
Qed.

(** Comparison against a bound: the outcome by operator. *)
Definition bound_test (op : CompareOp) (x d : dec) : bool :=
  match op with
  | CmpEq => d_eq x d | CmpNe => negb (d_eq x d)
  | CmpGt => d_gt x d | CmpGte => d_gte x d
  | CmpLt => d_lt x d | CmpLte => d_lte x d
  | CmpApprox => false
  end.
Definition bound_safe (op : CompareOp) (after before : dec) : bool :=
  match op with
  | CmpLt | CmpLte => d_lte after before
  | CmpGt | CmpGte => d_gte after before
  | _ => d_eq after before
  end.

Lemma bound_test_narrow op x a b :
  bound_safe op a b = true → bound_test op x a = true → bound_test op x b = true.
Proof.
  destruct op; simpl; try done.
  - intros ??. by eapply d_eq_trans.
  - rewrite !negb_true_iff. intros Hab Hx. destruct (d_eq x b) eqn:E; [|done].
    rewrite <- Hx. symmetry. eapply d_eq_trans; [done|]. by rewrite d_eq_flip.
  - rewrite !d_gt_flip, d_gte_flip. intros ??. by eapply d_lte_lt_trans.
  - rewrite !d_gte_flip. intros ??. by eapply law_lte_trans.
  - intros ??. by eapply law_lt_lte_trans.
  - intros ??. by eapply law_lte_trans.
Qed.

Lemma d_lte_congr a b a' b' : d_eq a' a = true → d_eq b' b = true →
  d_lte a b = true → d_lte a' b' = true.
Proof.
  intros [Ha _]%d_eq_lte [_ Hb]%d_eq_lte H.
  apply (law_lte_trans _ a); [done|]. by apply (law_lte_trans _ b).
Qed.

Lemma bound_safe_eq op a b a' b' : d_eq a' a = true → d_eq b' b = true →
  bound_safe op a b = true → bound_safe op a' b' = true.
Proof.
  intros Ha Hb.
  assert (d_eq a b = true → d_eq a' b' = true) as Heq.
  { intros H. rewrite d_eq_flip in Hb. by eapply d_eq_trans, d_eq_trans. }
  destruct op; simpl; try done; rewrite ?d_gte_flip; by apply d_lte_congr.
Qed.

(** [eval_compare] against a printed bound, for every operator but [approx]. *)
Lemma eval_compare_bound op tol l r d dr :
  op ≠ CmpApprox → ev_value r = VNumber (d_toString d) →
  new_Decimal (d_toString d) = Some dr →
  eval_compare op tol l r = Ok (VBool true) ↔
    (∃ dl, toDecimal (ev_value l) = Ok (Some dl) ∧ bound_test op dl dr = true) ∨
    (∃ s, toDecimal (ev_value l) = Ok None ∧ valueScalar (ev_value l) = Some s ∧
      match op with
      | CmpEq => s = inr (d_toString d) | CmpNe => s ≠ inr (d_toString d) | _ => False
      end).
Proof using Type.
  intros Hop Hr Hdr.
  assert (toDecimal (VNumber (d_toString d)) = Ok (Some dr)) as Htd
    by (simpl; unfold decimal_or_throw; by rewrite Hdr).
  unfold eval_compare. rewrite Hr, Htd. simpl isUnassessable. rewrite orb_false_r.
  assert (∀ b, Ok (VBool b) = (Ok (VBool true) : result DecimalError EvalValue) ↔ b = true)
    as Hb by (intros []; split; congruence).
  destruct (isUnassessable (ev_value l)) eqn:Eu.
  { destruct (ev_value l); try done. simpl. split; [done|]. naive_solver. }
  assert (∃ s, valueScalar (ev_value l) = Some s) as [s Hs]
    by (destruct (ev_value l); [by eexists..|done]).
  rewrite Hs. destruct (toDecimal (ev_value l)) as [[dl|]|e]; rewrite ?bind_ret_l.
  - destruct op; cbn; try done; rewrite Hb; naive_solver.
  - destruct op; cbn; try done;
      rewrite ?Hb, ?negb_true_iff, ?bool_decide_eq_true, ?bool_decide_eq_false;
      naive_solver.
  - split; [done|]. naive_solver.
Qed.

Lemma proveCompare_bound op l l' r r' tol tol' k :
  op ≠ CmpApprox → proveCompare op op l l' r r' tol tol' = Monotonic k →
  ∃ before after, numericLiteral r = Some before ∧ numericLiteral r' = Some after ∧
    bound_safe op after before = true.
Proof using Type.
  intros Hop. unfold proveCompare. case_match; [done|].
  destruct op; try done; destruct (numericLiteral r) as [before|], (numericLiteral r') as [after|];
    try done; case_match; try done; intros _; by eexists _, _.
Qed.

Lemma passes_same_left op l r r' tol tol' facts :
  (∀ el er', evaluate l facts = Ok el → evaluate r' facts = Ok er' →
     eval_compare op tol' el er' = Ok (VBool true) →
     ∃ er, evaluate r facts = Ok er ∧ eval_compare op tol el er = Ok (VBool true)) →
  passes (AstCompare op l r' tol') facts → passes (AstCompare op l r tol) facts.
Proof using Type.
  intros H (ev & Hev & Hv)%passes_iff. rewrite evaluate_compare in Hev. res_inv.
  simpl in Hv. subst. destruct (H x x0) as (er & Her & Hc); [done..|].
  apply passes_iff. rewrite evaluate_compare, Hb, Her, !bind_ret_l, Hc. by eexists.
Qed.

Lemma sound_bound op l x x' tol tol' d d' facts :
  op ≠ CmpApprox → safeDecimal (inl x) = Some d → safeDecimal (inl x') = Some d' →
  bound_safe op d' d = true →
  passes (AstCompare op l (AstLit (LitNumber x')) tol') facts →
  passes (AstCompare op l (AstLit (LitNumber x)) tol) facts.
Proof.
  intros Hop Hx Hx' Hsafe. apply passes_same_left. intros el er' _ Her' Hc.
  rewrite (eval_bound x' d') in Her' by done. injection Her' as <-.
  rewrite (eval_bound x d) by done. eexists. split; [done|].
  apply numericLiteral_safe in Hx as [_ Hf], Hx' as [_ Hf'].
  destruct (toString_decimal d Hf) as (dr & Hdr & _ & Heq),
    (toString_decimal d' Hf') as (dr' & Hdr' & _ & Heq').
  assert (bound_safe op dr' dr = true) as Hs by by eapply bound_safe_eq.
  eapply eval_compare_bound in Hc; [|done..]. eapply eval_compare_bound; [done..|].
  destruct Hc as [(dl & Hl & Ht)|(s & Hl & Hv & Ht)].
  - left. exists dl. split; [done|]. by eapply bound_test_narrow.
  - right. exists s. split; [done|]. split; [done|].
    assert (op = CmpEq ∨ op = CmpNe → d_toString d' = d_toString d) as Hts.
    { intros Hor. apply law_toString_eq; [done..|]. apply QArith_base.Qeq_alt.
      assert (d_eq d' d = true) as He by by destruct Hor as [->| ->].
      unfold d_eq in He. rewrite law_cmp in He by done. by case_match. }
    destruct op; try done; rewrite Hts in Ht by auto; done.
Qed.

Lemma sound_approx l r tol tol' t t' facts :
  new_Decimal (default "0" tol) = Some t → new_Decimal (default "0" tol') = Some t' →
  d_lte t' t = true →
  passes (AstCompare CmpApprox l r tol') facts → passes (AstCompare CmpApprox l r tol) facts.
Proof.
  intros Ht Ht' Hle. apply passes_same_left. intros el er _ Her Hc. exists er.
  split; [done|]. unfold eval_compare in *. case_match; [done|].
  apply bind_Ok in Hc as (a & Ha & Hc). apply bind_Ok in Hc as (b & Hb & Hc).
  rewrite Ha, bind_ret_l, Hb, bind_ret_l. destruct a as [a|], b as [b|]; try done.
  unfold decimal_or_throw in *. rewrite Ht, bind_ret_l. rewrite Ht', bind_ret_l in Hc.
  injection Hc as Hc. do 2 f_equal. by eapply law_lte_trans.
Qed.

Lemma sound_and args args' facts :
  (∀ a, a ∈ args → a ∈ args') →
  passes (AstLogic LogAnd args') facts → passes (AstLogic LogAnd args) facts.
Proof using Type.
  intros Hsub (ev & Hev & Hv)%passes_iff. cbn [evaluate] in Hev. res_inv. simpl in Hv.
  rename x into evs, Hb into Hevs.
  assert (∀ a, a ∈ args' → ∃ e, evaluate a facts = Ok e ∧ ev_value e = VBool true) as Hall.
  { destruct (mapM _ evs) as [bs|] eqn:E; [|done]. injection Hv as Hv.
    apply mapM_Some in E. apply map_res_Ok in Hevs. revert bs E Hv. clear Hsub.
    induction Hevs as [|a e args' evs Ha _ IH]; intros bs E Hv; [set_solver|].
    inversion E as [|? b ? bs' Hb E']; subst. simpl in Hv.
    apply andb_true_iff in Hv as [Hb1 Hbs]. intros a' [->|Ha']%elem_of_cons; [|by eapply IH].
    exists e. split; [done|]. unfold id in Hb1. subst b. by destruct (ev_value e); simplify_eq/=. }
  destruct (map_res_total (λ a, evaluate a facts) args) as [es Hes].
  { intros a Ha. destruct (Hall a) as (e & He & _); eauto. }
  apply passes_iff. cbn [evaluate]. rewrite Hes, bind_ret_l. eexists. split; [done|].
  simpl. apply map_res_Ok in Hes.
  assert (∃ bs, mapM (λ c, bool_of (ev_value c)) es = Some bs ∧ forallb id bs = true)
    as (bs & -> & Hbs); [|by rewrite Hbs].
  clear Hv Hevs. induction Hes as [|a e args es Ha _ IH]; [by exists []|].
  destruct IH as (bs & Hbs & Hand); [set_solver|].
  destruct (Hall a) as (e' & He' & Hv'); [set_solver|]. rewrite Ha in He'.
  injection He' as <-. exists (true :: bs). simpl. by rewrite Hv', Hbs.
Qed.

(** C18: what the prover calls monotonic is monotonic, where the bounds of a changed
    comparison are number literals: when it accepts a tightening, every fact bundle
    that passes the tightened rule passed the base rule. Both rules are trees of the
    AST's schema. With string literals as bounds the prover accepts tightenings that
    are not monotonic ([tighten_string_bound_unsound]). *)
Theorem proveMonotonicTighten_sound (base tightened : AstNode) (k : TightenKind)
    (facts : FactBundle) :
  ast_wf base = true → ast_wf tightened = true →
  (base ≠ tightened → numeric_bound base = true ∧ numeric_bound tightened = true) →
  proveMonotonicTighten base tightened = Monotonic k →
  passes tightened facts → passes base facts.
Proof.
  intros Hwf Hwf' Hnum. unfold proveMonotonicTighten.
  case_bool_decide as Heq; [by rewrite (canonical_ast_inj _ _ _ Hwf Hwf' Heq)|].
  destruct Hnum as [Hn Hn']; [by intros ->|].
  destruct base as [| | | |op l r tol|[] args|], tightened as [| | | |op' l' r' tol'|[] args'|];
    try done.
  - intros Hp. pose proof Hp as Hp'. unfold proveCompare in Hp'.
    apply andb_true_iff in Hwf as [Hwl Hwr], Hwf' as [Hwl' Hwr'].
    destruct (negb _ || negb _) eqn:E; [done|].
    apply orb_false_iff in E as [Eop%negb_false_iff%bool_decide_eq_true
      El%negb_false_iff%bool_decide_eq_true]. subst op'.
    apply canonical_ast_inj in El as <-; [|done..].
    destruct (decide (op = CmpApprox)) as [->|Hop].
    + destruct (negb _) eqn:E; [done|].
      apply negb_false_iff, bool_decide_eq_true, canonical_ast_inj in E as <-; [|done..].
      destruct (new_Decimal (default "0" tol)) as [t|] eqn:Et; [|done].
      destruct (new_Decimal (default "0" tol')) as [t'|] eqn:Et'; [|done].
      destruct (d_lte t' t) eqn:Hle; [|done]. by apply (sound_approx _ _ _ _ t t').
    + clear Hp'. destruct (proveCompare_bound _ _ _ _ _ _ _ _ Hop Hp) as (b & a & Hb & Ha & Hs).
      destruct r as [[x| |]| | | | | |], r' as [[x'| |]| | | | | |];
        try (by destruct op).
      destruct (safeDecimal (inl x)) as [d|] eqn:Ed; [|by destruct op; unfold numeric_bound in Hn; rewrite ?Ed in Hn].
      destruct (safeDecimal (inl x')) as [d'|] eqn:Ed'; [|by destruct op; unfold numeric_bound in Hn'; rewrite ?Ed' in Hn'].
      pose proof (numericLiteral_safe _ _ Ed) as [Hd _].
      pose proof (numericLiteral_safe _ _ Ed') as [Hd' _].
      rewrite Hd in Hb. rewrite Hd' in Ha. simplify_eq.
      by eapply sound_bound.
  - case_match eqn:E; [|done]. intros _. apply sound_and. intros a Ha.
    rewrite forallb_forall in E. specialize (E a (proj1 (list_elem_of_In _ _) Ha)).
    apply bool_decide_eq_true, list_elem_of_In, in_map_iff in E as (a' & Ha' & Hin).
    apply list_elem_of_In in Hin. simpl in Hwf, Hwf'.
    rewrite (canonical_ast_inj localeCompare a a'); [done|..]; [| |done].
    + by apply (forallb_True_elem ast_wf args).
    + by apply (forallb_True_elem ast_wf args').
Qed.

(** Where the bounds are string literals the prover is wrong: it calls
    [= "5"] IDENTICAL to [= "5.0"], but on the text fact "5" the first passes
    and the second fails, since the interpreter compares strings as strings. *)
Theorem tighten_string_bound_unsound (key : string) :
  let rule s := AstCompare CmpEq (AstFactRef key) (AstLit (LitString s)) None in
  let facts : FactBundle := {[ key := FactString "5" ]} in
  proveMonotonicTighten (rule "5.0") (rule "5") = Monotonic IDENTICAL ∧
  passes (rule "5") facts ∧ ¬ passes (rule "5.0") facts.
Proof.
  intros rule facts.
  assert (∀ s, evaluate (rule s) facts = Ok (mkEval (rule s) (VBool (bool_decide ("5" = s)))
    (Some [mkEval (AstFactRef key) (VString "5") None;
           mkEval (AstLit (LitString s)) (VString s) None]))) as Hev.
  { intros s. unfold rule. rewrite evaluate_compare. cbn [evaluate].
    unfold eval_fact, facts. rewrite lookup_singleton_eq. cbn. do 3 f_equal.
    by apply bool_decide_ext; naive_solver. }
  split; [|split].
  - unfold proveMonotonicTighten. case_bool_decide as Hc; [done|]. unfold proveCompare.
    unfold rule. rewrite (bool_decide_eq_true_2 (CmpEq = CmpEq)), bool_decide_eq_true_2 by done.
    cbn [negb orb numericLiteral].
    destruct (money_new "5.0" 50000) as (d & -> & Hd); [done|].
    destruct (money_new "5" 50000) as (d' & -> & Hd'); [done|].
    unfold d_eq. rewrite (money_cmp _ _ _ _ Hd' Hd). done.
  - unfold passes. by rewrite Hev.
  - unfold passes. by rewrite Hev.
Qed.
End soundness.

(** ** The theorems at concrete inputs *)

Section witnesses.
#[local] Existing Instance ExactDecimal.ops.
#[local] Existing Instance ExactDecimal.laws.
#[local] Existing Instance code_unit_collator.

Definition demo_rule (bound : string) : AstNode :=
  AstCompare CmpLte (AstFactRef "billed") (AstLit (LitNumber (JsFinite bound))) None.

Lemma proveMonotonicTighten_sound_witness :
  passes (demo_rule "200") {[ "billed" := FactMoney "120" "USD" ]}.
Proof.
  apply (proveMonotonicTighten_sound (demo_rule "200") (demo_rule "150") NARROWER_BOUND);
    try (vm_compute; reflexivity). intros _. split; vm_compute; reflexivity.
Defined.
End witnesses.
