(* ===== verification/Store.v ===== *)
(** Tables, and the [INSERT ... ON CONFLICT] idiom of the handlers
    ([src/src/db/insert-idempotent.ts]).  A table is the list of its rows in
    insertion order; one statement sees the rows committed before it, which is
    what the sequential handlers of the model run on.  Identifiers the database
    generates ([gen_random_uuid()]) are arguments. *)

From S2P Require Import Prelude JsText.

Section table.
Context {R : Type}.
Implicit Types (t : list R) (r : R) (p : R → bool).

(** [SELECT ... WHERE p LIMIT 1], in insertion order. *)
Definition select_one p t : option R := find p t.
(** [UPDATE ... SET f WHERE p]: the new table. *)
Definition update_where p (f : R → R) t : list R := map (λ r, if p r then f r else r) t.
(** [INSERT ... ON CONFLICT ... DO NOTHING]: whether a row was inserted. *)
Definition insert_on_conflict (clash : R → bool) r t : bool * list R :=
  if existsb clash t then (false, t) else (true, t ++ [r]).

(** [insertIdempotent]: insert, or read back the row the fallback names. *)
Definition insertIdempotent (key : R → string) (clash fallback : R → bool) r t :
    option (string * bool) * list R :=
  match insert_on_conflict clash r t with
  | (true, t') => (Some (key r, true), t')
  | (false, t') => ((λ x, (key x, false)) <$> select_one fallback t', t')
  end.

Lemma existsb_false p t : existsb p t = false ↔ ∀ r, r ∈ t → p r = false.
Proof.
  induction t as [|x t IH]; simpl; [set_solver|].
  rewrite orb_false_iff, IH. split; [set_solver|]. intros H. split; [|intros]; apply H; set_solver.
Qed.
Lemma existsb_true p t : existsb p t = true ↔ ∃ r, r ∈ t ∧ p r = true.
Proof. rewrite existsb_exists. by setoid_rewrite <- list_elem_of_In. Qed.

Lemma select_one_Some p t r : select_one p t = Some r → r ∈ t ∧ p r = true.
Proof. intros [H1 H2]%find_some. by rewrite list_elem_of_In. Qed.
Lemma select_one_None p t : select_one p t = None ↔ ∀ r, r ∈ t → p r = false.
Proof.
  split.
  - intros H r Hr. apply (find_none _ _ H). by rewrite <- list_elem_of_In.
  - intros H. destruct (select_one p t) as [r|] eqn:E; [|done].
    apply select_one_Some in E as [Hr Hp]. by rewrite H in Hp.
Qed.
Lemma select_one_existsb p t : existsb p t = true → ∃ r, select_one p t = Some r.
Proof.
  intros (r & Hr & Hp)%existsb_true. destruct (select_one p t) eqn:E; [eauto|].
  rewrite select_one_None in E. by rewrite E in Hp.
Qed.
Lemma select_one_app p t t' : select_one p (t ++ t') =
  match select_one p t with Some r => Some r | None => select_one p t' end.
Proof.
  unfold select_one. induction t as [|r t IH]; simpl; [done|]. by destruct (p r).
Qed.

(** Reading back by a key nothing else carries. *)
Lemma select_one_unique {K} `{EqDecision K} (key : R → K) t r :
  NoDup (map key t) → r ∈ t → select_one (λ x, bool_decide (key x = key r)) t = Some r.
Proof.
  induction t as [|x t IH]; intros Hnd Hr; [set_solver|].
  simpl in Hnd. apply NoDup_cons in Hnd as [Hx Hnd]. unfold select_one. simpl.
  case_bool_decide as Hk.
  - apply elem_of_cons in Hr as [->|Hr]; [done|]. destruct Hx. rewrite Hk.
    by apply list_elem_of_fmap_2.
  - apply IH; [done|]. set_solver.
Qed.

Lemma insert_on_conflict_spec clash r t b t' :
  insert_on_conflict clash r t = (b, t') →
  (b = true ∧ t' = t ++ [r] ∧ ∀ x, x ∈ t → clash x = false) ∨
  (b = false ∧ t' = t ∧ ∃ x, x ∈ t ∧ clash x = true).
Proof.
  unfold insert_on_conflict. destruct (existsb clash t) eqn:E; intros [= <- <-].
  - right. by apply existsb_true in E.
  - left. by rewrite existsb_false in E.
Qed.

(** Uniqueness constraints survive a guarded insert. *)
Lemma insert_on_conflict_NoDup {K} `{EqDecision K} (key : R → K) clash r t b t' :
  (∀ x, clash x = false → key x ≠ key r) →
  insert_on_conflict clash r t = (b, t') → NoDup (map key t) → NoDup (map key t').
Proof.
  intros Hc [(-> & -> & Hn)|(-> & -> & _)]%insert_on_conflict_spec Hnd; [|done].
  rewrite map_app. apply NoDup_app. split; [done|]. split; [|apply NoDup_singleton].
  intros k (x & -> & Hx)%list_elem_of_fmap Hk. simpl in Hk. rewrite list_elem_of_singleton in Hk.
  by eapply Hc; eauto.
Qed.

(** A second identical call finds the row of the first. *)
Lemma insertIdempotent_spec key clash fallback r t o t' :
  insertIdempotent key clash fallback r t = (o, t') →
  (o = Some (key r, true) ∧ t' = t ++ [r] ∧ ∀ x, x ∈ t → clash x = false) ∨
  (t' = t ∧ ∃ x, x ∈ t ∧ clash x = true) ∧
    (o = None ∧ (∀ x, x ∈ t → fallback x = false) ∨
     ∃ x, x ∈ t ∧ fallback x = true ∧ o = Some (key x, false)).
Proof.
  unfold insertIdempotent. destruct (insert_on_conflict clash r t) as [b t1] eqn:E.
  apply insert_on_conflict_spec in E as [(-> & -> & Hn)|(-> & -> & Hx)]; intros [= <- <-]; [by left|].
  right. split; [done|]. destruct (select_one fallback t) as [x|] eqn:E; simpl.
  - right. apply select_one_Some in E as [??]. eauto.
  - left. by rewrite select_one_None in E.
Qed.

(** The row is there already, under the identifier [k]. *)
Lemma insertIdempotent_found key clash fallback r t k x :
  (∀ y, fallback y = true → key y = k ∧ clash y = true) → x ∈ t → fallback x = true →
  insertIdempotent key clash fallback r t = (Some (k, false), t).
Proof.
  intros Hk Hx Hf. unfold insertIdempotent, insert_on_conflict.
  rewrite (proj2 (existsb_true clash t)) by (exists x; split; [done|by apply Hk]).
  destruct (select_one_existsb fallback t) as [y Hy]; [apply existsb_true; eauto|].
  rewrite Hy. cbn. apply select_one_Some in Hy as [_ Hy]. by destruct (Hk y Hy) as [-> _].
Qed.

Lemma insertIdempotent_again key clash fallback r t o t' :
  insertIdempotent key clash fallback r t = (o, t') → clash r = true → fallback r = true →
  (o = None ∧ insertIdempotent key clash fallback r t' = (None, t')) ∨
  ∃ i b, o = Some (i, b) ∧
    ((∀ x, x ∈ t → fallback x = true → clash x = true) →
     insertIdempotent key clash fallback r t' = (Some (i, false), t')).
Proof.
  intros H Hc Hf. unfold insertIdempotent, insert_on_conflict in H |- *.
  destruct (existsb clash t) eqn:E; injection H as <- <-.
  - rewrite E. destruct (select_one fallback t) as [x|]; simpl; eauto.
  - right. eexists _, _. split; [done|]. intros Hsub. rewrite existsb_app. simpl. rewrite Hc.
    rewrite orb_true_r, select_one_app.
    replace (select_one fallback t) with (@None R).
    { unfold select_one. simpl. by rewrite Hf. }
    symmetry. apply select_one_None. intros x Hx.
    rewrite existsb_false in E. destruct (fallback x) eqn:Ex; [|done].
    by rewrite <- (Hsub x Hx Ex), E.
Qed.

Lemma update_where_length p f t : length (update_where p f t) = length t.
Proof. apply length_map. Qed.
Lemma update_where_key {K} (key : R → K) p f t :
  (∀ r, key (f r) = key r) → map key (update_where p f t) = map key t.
Proof.
  intros Hf. unfold update_where. rewrite map_map. apply map_ext. intros r.
  by destruct (p r).
Qed.
Lemma elem_of_update_where p f t r :
  r ∈ update_where p f t → (r ∈ t ∧ p r = false) ∨ ∃ r0, r0 ∈ t ∧ p r0 = true ∧ r = f r0.
Proof.
  unfold update_where. intros (x & -> & Hx)%list_elem_of_fmap. destruct (p x) eqn:E; [right|left]; eauto.
Qed.
Lemma update_where_keeps p f t r : r ∈ t → (if p r then f r else r) ∈ update_where p f t.
Proof. intros Hr. unfold update_where. by apply (list_elem_of_fmap_2 (λ r, if p r then f r else r)). Qed.
Lemma update_where_none p f t : (∀ r, r ∈ t → p r = false) → update_where p f t = t.
Proof.
  unfold update_where. induction t as [|x t IH]; intros H; [done|]. simpl.
  rewrite H, IH by set_solver. done.
Qed.
End table.
