(* ===== verification/AuditLedger.v ===== *)
(** The append-only audit ledger
    ([src/src/modules/audit-ledger/write-audit-event.ts]) and the request checks
    it shares with the routes ([src/src/shared/request-validation.ts]).  The hash
    function is a parameter; uuid columns are compared as PostgreSQL compares
    them, ignoring case. *)

From S2P Require Import Prelude JsText Json Store.

(** ** Request validation *)

Definition is_hex (c : ascii) : bool :=
  is_digit c || let n := code (lower_char c) in ((97 <=? n) && (n <=? 102))%N.
Definition is_dash (c : ascii) : bool := (code c =? 45)%N.

(** A pattern that is a sequence of character classes, anchored at both ends. *)
Fixpoint match_classes (ps : list (ascii → bool)) (s : string) : bool :=
  match ps, s with
  | [], "" => true
  | p :: ps', String c s' => p c && match_classes ps' s'
  | _, _ => false
  end.
Definition UUID_PATTERN : list (ascii → bool) :=
  replicate 8 is_hex ++ [is_dash] ++ replicate 4 is_hex ++ [is_dash] ++ replicate 4 is_hex ++
  [is_dash] ++ replicate 4 is_hex ++ [is_dash] ++ replicate 12 is_hex.
Definition isUuid (value : string) : bool := match_classes UUID_PATTERN value.

(** [/^[a-z][a-z0-9_.-]*$/] *)
Definition AUDIT_ENTITY_OR_EVENT_PATTERN (s : string) : bool :=
  match s with
  | "" => false
  | String c s' => is_lower c && string_all (λ c, is_lower c || is_digit c ||
      ((code c =? 95) || (code c =? 46) || (code c =? 45))%N) s'
  end.

(** PostgreSQL's text of a uuid. *)
Definition pg_uuid (s : string) : string := to_lower s.
Lemma pg_uuid_idem i : pg_uuid (pg_uuid i) = pg_uuid i.
Proof.
  unfold pg_uuid, to_lower. induction i as [|a i IH]; simpl; [done|]. rewrite IH. f_equal.
  clear. by destruct a as [[] [] [] [] [] [] [] []].
Qed.

(** ** Hashing *)

(** SHA-256, of the platform's crypto library: the 32 bytes of the digest. *)
Class Sha256 := sha256 : string → list N.
Class Sha256Laws {H : Sha256} : Prop := {
  sha256_length s : length (sha256 s) = 32%nat;
  sha256_bytes s : Forall (λ b, (b < 256)%N) (sha256 s);
}.
Arguments Sha256Laws : clear implicits.

Definition hex_byte (b : N) : string :=
  String (hex_digit (b / 16)) (String (hex_digit (b mod 16)) "").
(** [.toString('hex')] *)
Definition hex (bytes : list N) : string := foldr (λ b s, hex_byte b +:+ s) "" bytes.

Section digest.
Context {H : Sha256}.

Definition nul : string := String (ascii_of_N 0) "".

Definition deterministicAuditEventId (parts : list string) : string :=
  let bytes := take 16 (sha256 (join nul parts)) in
  let bytes := alter (λ b, N.lor (N.land b 15) 128) 6%nat bytes in
  let bytes := alter (λ b, N.lor (N.land b 63) 128) 8%nat bytes in
  join "-" [hex (take 4 bytes); hex (take 2 (drop 4 bytes)); hex (take 2 (drop 6 bytes));
            hex (take 2 (drop 8 bytes)); hex (drop 10 bytes)].

(** Checking a property of small numbers by enumeration. *)
Lemma below_all (k : nat) (p : N → bool) :
  forallb (λ i, p (N.of_nat i)) (seq 0 k) = true → ∀ n, (n < N.of_nat k)%N → p n = true.
Proof using Type.
  rewrite forallb_forall. intros Hall n Hn. rewrite <- (N2Nat.id n). apply Hall, in_seq. lia.
Qed.

Lemma is_hex_digit n : (n < 16)%N → is_hex (hex_digit n) = true.
Proof using Type. by apply (below_all 16 (λ n, is_hex (hex_digit n))). Qed.

(** The version and variant masks leave a byte a byte. *)
Lemma masked_byte m b : m = 15%N ∨ m = 63%N → (b < 256)%N → (N.lor (N.land b m) 128 < 256)%N.
Proof using Type.
  intros Hm Hb. apply N.ltb_lt. destruct Hm as [->| ->];
  [apply (below_all 256 (λ b, N.ltb (N.lor (N.land b 15) 128) 256))|
   apply (below_all 256 (λ b, N.ltb (N.lor (N.land b 63) 128) 256))]; done.
Qed.

Lemma match_hex bytes ps s : Forall (λ b, (b < 256)%N) bytes →
  match_classes (replicate (2 * length bytes) is_hex ++ ps) (hex bytes +:+ s) = match_classes ps s.
Proof using Type.
  induction 1 as [|b bytes Hb _ IH]; [done|]. change (hex (b :: bytes)) with (hex_byte b +:+ hex bytes).
  unfold hex_byte. simpl length. replace (2 * S (length bytes))%nat with (S (S (2 * length bytes))) by lia.
  simpl replicate. simpl. rewrite !is_hex_digit; [done|by apply N.mod_lt|].
  apply N.Div0.div_lt_upper_bound. lia.
Qed.

(** The identifiers the ledger derives from its parts are well-formed
    uuids, so a derived identifier is never rejected by the event schema. *)
Theorem deterministicAuditEventId_isUuid `{!Sha256Laws H} (parts : list string) :
  isUuid (deterministicAuditEventId parts) = true.
Proof.
  unfold deterministicAuditEventId. set (d := sha256 _).
  pose proof (sha256_length (join nul parts)) as Hl. pose proof (sha256_bytes (join nul parts)) as Hb.
  fold d in Hl, Hb. do 32 (destruct d as [|? d]; [done|]). destruct d; [|done].
  repeat (apply Forall_cons in Hb as [? Hb]).
  unfold isUuid, UUID_PATTERN. cbn [take drop alter list_alter join].
  pose proof (masked_byte 15 n5 ltac:(auto)) as Hm1.
  pose proof (masked_byte 63 n7 ltac:(auto)) as Hm2.
  assert (∀ k bytes ps s, (2 * length bytes = k)%nat → Forall (λ b, (b < 256)%N) bytes →
    match_classes (replicate k is_hex ++ [is_dash] ++ ps) (hex bytes +:+ "-" +:+ s) =
    match_classes ps s) as Hgroup.
  { intros k bytes ps s <- Hall. by rewrite match_hex. }
  do 4 (rewrite Hgroup; [|done|repeat constructor; auto]).
  rewrite <- (app_nil_r (replicate 12 _)), <- (append_nil_r (hex _)).
  change 12%nat with (2 * 6)%nat. apply (match_hex [_; _; _; _; _; _]). repeat constructor; auto.
Qed.
End digest.

(** ** Events *)

Inductive ActorKind : Set := ActorAnalyst | ActorAI | ActorSystem | ActorClient.
#[export] Instance ActorKind_eq_dec : EqDecision ActorKind.
Proof. solve_decision. Defined.

(** [AuditEventInput], and the row it becomes.  [detail] is null or an object,
    as at every call site. *)
Record AuditEvent := mkAuditEvent {
  ae_id : string;
  ae_clientId : option string;
  ae_entity : string;
  ae_entityId : option string;
  ae_event : string;
  ae_actorKind : ActorKind;
  ae_actorUserId : option string;
  ae_ruleVersionId : option string;
  ae_rubricSnapshotId : option string;
  ae_detail : option (list (string * json));
}.

Inductive AuditError : Set := AUDIT_EVENT_INVALID | AUDIT_EVENT_CONFLICT.

(** [jsonValue]: no NaN or infinity anywhere. *)
Fixpoint jsonValue_ok (j : json) : bool :=
  match j with
  | JNull | JBool _ | JString _ => true
  | JNumber (JsFinite _) => true
  | JNumber _ => false
  | JArray l => forallb jsonValue_ok l
  | JObject l => forallb (λ e, jsonValue_ok e.2) l
  end.

Definition nullable (p : string → bool) (o : option string) : bool :=
  match o with Some s => p s | None => true end.
(** [z.string().trim().min(1).max(100).regex(...)], on the trimmed text. *)
Definition ledger_name_ok (s : string) : bool :=
  let s := trim s in
  (1 <=? String.length s)%nat && (String.length s <=? 100)%nat && AUDIT_ENTITY_OR_EVENT_PATTERN s.

(** [AuditEventInputSchema.safeParse]: the parsed value, names trimmed. *)
Definition AuditEventInputSchema (i : AuditEvent) : option AuditEvent :=
  if isUuid (ae_id i) && nullable isUuid (ae_clientId i) && ledger_name_ok (ae_entity i) &&
     nullable isUuid (ae_entityId i) && ledger_name_ok (ae_event i) &&
     nullable isUuid (ae_actorUserId i) && nullable isUuid (ae_ruleVersionId i) &&
     nullable isUuid (ae_rubricSnapshotId i) &&
     match ae_detail i with Some d => jsonValue_ok (JObject d) | None => true end
  then Some (mkAuditEvent (ae_id i) (ae_clientId i) (trim (ae_entity i)) (ae_entityId i)
               (trim (ae_event i)) (ae_actorKind i) (ae_actorUserId i) (ae_ruleVersionId i)
               (ae_rubricSnapshotId i) (ae_detail i))
  else None.

(** The row PostgreSQL stores for the parameters [$1 .. $10]. *)
Definition audit_row (v : AuditEvent) : AuditEvent :=
  mkAuditEvent (pg_uuid (ae_id v)) (pg_uuid <$> ae_clientId v) (ae_entity v)
    (pg_uuid <$> ae_entityId v) (ae_event v) (ae_actorKind v) (pg_uuid <$> ae_actorUserId v)
    (pg_uuid <$> ae_ruleVersionId v) (pg_uuid <$> ae_rubricSnapshotId v) (ae_detail v).

(** [IS NOT DISTINCT FROM] on jsonb: objects compare without their key order. *)
Definition jsonb_same (a b : option (list (string * json))) : bool :=
  bool_decide (((λ d, canonical code_unit_compare (JObject d)) <$> a) =
               ((λ d, canonical code_unit_compare (JObject d)) <$> b)).

Definition same_evidence (row x : AuditEvent) : bool :=
  bool_decide (ae_id x = ae_id row) && bool_decide (ae_clientId x = ae_clientId row) &&
  bool_decide (ae_entity x = ae_entity row) && bool_decide (ae_entityId x = ae_entityId row) &&
  bool_decide (ae_event x = ae_event row) && bool_decide (ae_actorKind x = ae_actorKind row) &&
  bool_decide (ae_actorUserId x = ae_actorUserId row) &&
  bool_decide (ae_ruleVersionId x = ae_ruleVersionId row) &&
  bool_decide (ae_rubricSnapshotId x = ae_rubricSnapshotId row) &&
  jsonb_same (ae_detail x) (ae_detail row).

Abbreviation ledger := (list AuditEvent).

Definition writeAuditEvent (i : AuditEvent) (log : ledger) :
    result AuditError ((string * bool) * ledger) :=
  match AuditEventInputSchema i with
  | None => Err AUDIT_EVENT_INVALID
  | Some value =>
      let row := audit_row value in
      match insertIdempotent ae_id (λ x, bool_decide (ae_id x = ae_id row)) (same_evidence row) row log with
      | (Some r, log') => Ok (r, log')
      | (None, _) => Err AUDIT_EVENT_CONFLICT
      end
  end.

Section ledger.
Implicit Types (i row : AuditEvent) (log : ledger).

Lemma same_evidence_refl row : same_evidence row row = true.
Proof. unfold same_evidence, jsonb_same. by rewrite !bool_decide_eq_true_2 by done. Qed.

Lemma same_evidence_id row x : same_evidence row x = true → ae_id x = ae_id row.
Proof. unfold same_evidence. rewrite !andb_true_iff, !bool_decide_eq_true. naive_solver. Qed.

(** What one call does to the log. *)
Lemma writeAuditEvent_inv i log r log' :
  writeAuditEvent i log = Ok (r, log') →
  ∃ v, AuditEventInputSchema i = Some v ∧ r.1 = ae_id (audit_row v) ∧
    ((r.2 = true ∧ log' = log ++ [audit_row v] ∧ ∀ x, x ∈ log → ae_id x ≠ ae_id (audit_row v)) ∨
     (r.2 = false ∧ log' = log ∧ ∃ x, x ∈ log ∧ same_evidence (audit_row v) x = true)).
Proof.
  unfold writeAuditEvent. destruct (AuditEventInputSchema i) as [v|]; [|done].
  destruct (insertIdempotent _ _ _ _ _) as [o log1] eqn:E.
  apply insertIdempotent_spec in E as [(-> & -> & Hn)|[(-> & _) [(-> & _)|(x & Hx & Hs & ->)]]];
    intros H; simplify_eq; exists v.
  - split; [done|]. split; [done|]. left. split; [done|]. split; [done|].
    intros x Hx. by specialize (Hn x Hx); apply bool_decide_eq_false in Hn.
  - split; [done|]. split; [by apply same_evidence_id|]. right. eauto.
Qed.

(** Evidence that is new, or already in the ledger, is accepted. *)
Lemma writeAuditEvent_total i v log : AuditEventInputSchema i = Some v →
  (∀ x, x ∈ log → ae_id x = ae_id (audit_row v) → same_evidence (audit_row v) x = true) →
  ∃ r, writeAuditEvent i log = Ok r.
Proof.
  intros Hv Hx. unfold writeAuditEvent. rewrite Hv. unfold insertIdempotent, insert_on_conflict.
  destruct (existsb _ log) eqn:E; [|by eexists]. apply existsb_true in E as (x & Hin & Hid%bool_decide_eq_true).
  destruct (select_one_existsb (same_evidence (audit_row v)) log) as [y ->]; [|by eexists].
  apply existsb_true. eauto.
Qed.

(** C29: the ledger is append-only and idempotent: a successful write leaves
    every earlier entry where it was, binds its identifier in the log, keeps
    the identifiers distinct, and repeating the same write changes nothing and
    answers [created: false]. *)
Theorem writeAuditEvent_append_only i log id created log' :
  NoDup (map ae_id log) → writeAuditEvent i log = Ok ((id, created), log') →
  (∃ added, log' = log ++ added ∧ length added = if created then 1%nat else 0%nat) ∧
  id ∈ map ae_id log' ∧ NoDup (map ae_id log') ∧
  writeAuditEvent i log' = Ok ((id, false), log').
Proof.
  intros Hnd H. pose proof H as (v & Hv & Hid & Hcase)%writeAuditEvent_inv. cbn [fst] in Hid. subst id.
  assert (∀ x, x ∈ log' → same_evidence (audit_row v) x = true →
    writeAuditEvent i log' = Ok ((ae_id (audit_row v), false), log')) as Hagain.
  { intros x Hx Hs. unfold writeAuditEvent. rewrite Hv, (insertIdempotent_found _ _ _ _ _ (ae_id (audit_row v)) x); [done| |done..].
    intros y Hy%same_evidence_id. split; [done|]. by apply bool_decide_eq_true. }
  destruct Hcase as [(Hc & -> & Hn)|(Hc & -> & x & Hx & Hs)]; simpl in Hc; subst created.
  - split; [by exists [audit_row v]|]. split; [|split].
    + rewrite map_app. set_solver.
    + rewrite map_app. apply NoDup_app. split; [done|]. split; [|apply NoDup_singleton].
      intros k (x & -> & Hx)%list_elem_of_fmap Hk. simpl in Hk. rewrite list_elem_of_singleton in Hk.
      by apply (Hn x).
    + apply (Hagain (audit_row v)); [set_solver|apply same_evidence_refl].
  - split; [exists []; by rewrite app_nil_r|]. split; [|eauto].
    rewrite <- (same_evidence_id _ _ Hs). by apply list_elem_of_fmap_2.
Qed.

(** Evidence is immutable: a write whose identifier is already bound to
    evidence that differs in some field is refused, whatever the rest of the
    log. *)
Theorem writeAuditEvent_conflict i v log x :
  NoDup (map ae_id log) → AuditEventInputSchema i = Some v → x ∈ log →
  ae_id x = ae_id (audit_row v) → same_evidence (audit_row v) x = false →
  writeAuditEvent i log = Err AUDIT_EVENT_CONFLICT.
Proof.
  intros Hnd Hv Hx Hid Hdiff. destruct (writeAuditEvent i log) as [[r log']|e] eqn:E.
  - apply writeAuditEvent_inv in E as (v' & Hv' & _ & Hcase). rewrite Hv in Hv'. simplify_eq.
    destruct Hcase as [(_ & _ & Hn)|(_ & _ & y & Hy & Hs)]; [by edestruct Hn|].
    assert (x = y) as ->; [|congruence].
    pose proof (select_one_unique ae_id log x Hnd Hx) as H1.
    pose proof (select_one_unique ae_id log y Hnd Hy) as H2.
    rewrite (same_evidence_id _ _ Hs), <- Hid in H2. congruence.
  - unfold writeAuditEvent in E. rewrite Hv in E. by case_match; simplify_eq; case_match; simplify_eq.
Qed.
End ledger.

Section witnesses.
(** A concrete digest for the examples: a polynomial hash. *)
Fixpoint le_bytes (k : nat) (n : N) : list N :=
  match k with O => [] | S k' => (n mod 256)%N :: le_bytes k' (n / 256)%N end.
Fixpoint poly_hash (h : N) (s : string) : N :=
  match s with "" => h | String c s' => poly_hash (N.land (N.shiftl h 8 + h + code c + 1) 18446744073709551615)%N s' end.
Definition demo_sha : Sha256 := λ s, le_bytes 32 (poly_hash 7 s).
#[local] Existing Instance demo_sha.

Lemma le_bytes_ok k n : length (le_bytes k n) = k ∧ Forall (λ b, (b < 256)%N) (le_bytes k n).
Proof.
  revert n. induction k as [|k IH]; intros n; [done|]. destruct (IH (n / 256)%N) as [Hl Hb]. simpl.
  split; [by rewrite Hl|]. constructor; [by apply N.mod_lt|done].
Qed.
Lemma demo_sha_laws : Sha256Laws demo_sha.
Proof. split; intros s; apply le_bytes_ok. Qed.

Definition demo_event (amount : string) : AuditEvent :=
  mkAuditEvent "0b5a2f60-1111-4222-8333-444455556666" None " claim " None "claim.created" ActorSystem
    None None None (Some [("amount", JString amount)]).

Lemma deterministicAuditEventId_isUuid_witness :
  isUuid (deterministicAuditEventId ["a"; "b"]) = true.
Proof. apply (@deterministicAuditEventId_isUuid demo_sha demo_sha_laws). Defined.

Lemma writeAuditEvent_append_only_witness :
  ∃ log, writeAuditEvent (demo_event "1.00") [] = Ok ((ae_id (demo_event ""), true), log) ∧
  writeAuditEvent (demo_event "1.00") log = Ok ((ae_id (demo_event ""), false), log).
Proof.
  eexists. split; [reflexivity|].
  refine (proj2 (proj2 (proj2 (writeAuditEvent_append_only (demo_event "1.00") []
    (ae_id (demo_event "")) true _ _ _)))); [by apply NoDup_nil|reflexivity].
Defined.

Lemma writeAuditEvent_conflict_witness :
  ∃ x, writeAuditEvent (demo_event "1.00") [] = Ok ((ae_id (demo_event ""), true), [x]) ∧
  writeAuditEvent (demo_event "2.00") [x] = Err AUDIT_EVENT_CONFLICT.
Proof.
  eexists. split; [reflexivity|]. cbn [app].
  match goal with |- writeAuditEvent _ [?x] = _ =>
    eapply (writeAuditEvent_conflict (demo_event "2.00") _ [x] x) end.
  - apply NoDup_singleton.
  - reflexivity.
  - by apply list_elem_of_singleton.
  - reflexivity.
  - reflexivity.
Defined.
End witnesses.
