(* ===== verification/Lifecycle.v ===== *)
(** The rule life cycle
    ([src/src/modules/rule-engine/]): the transition FSM, dual-control
    activation, quarantine on reversals, promotion policies.  A handler takes the
    rule tables and returns the tables it commits, or the error that rolls its
    transaction back. *)

From S2P Require Import Prelude JsText Decimal Json Interpreter Store AuditLedger.

(** ** Data *)

Inductive RuleLifecycle : Set := PROPOSED | SHADOW | ACTIVE | DEPRECATED | QUARANTINED.
#[export] Instance RuleLifecycle_eq_dec : EqDecision RuleLifecycle.
Proof. solve_decision. Defined.

Definition ALLOWED (from : RuleLifecycle) : list RuleLifecycle :=
  match from with
  | PROPOSED => [SHADOW; QUARANTINED]
  | SHADOW => [ACTIVE; QUARANTINED]
  | ACTIVE => [DEPRECATED; QUARANTINED]
  | QUARANTINED => [SHADOW]
  | DEPRECATED => []
  end.

Inductive RuleType : Set :=
  STRUCTURAL | INTRA_LINE | CROSS_REFERENCE | CONTRACT_CONFORMANCE | EXTERNAL_REFERENCE
  | CROSS_DOCUMENT | POLICY_ELIGIBILITY.
#[export] Instance RuleType_eq_dec : EqDecision RuleType.
Proof. solve_decision. Defined.

(** The columns a transition copies from one version to the next. *)
Record rule_body := {
  rb_rule_id : string; rb_hardness : string; rb_ast : AstNode; rb_ast_hash : string;
  rb_expected_inputs : json; rb_emits : json; rb_provenance : json;
  rb_clause_id : option string; rb_valid_from : option string; rb_valid_to : option string;
}.
Record rule_version := {
  rv_id : string;
  rv_body : rule_body;
  rv_lifecycle_state : RuleLifecycle;
  rv_predecessor : option string;
}.
Inductive promotion_direction : Set := PROMOTE | DEMOTE.
Record promotion_event := {
  pe_rule_version_id : string; pe_hardness : string;
  pe_from : RuleLifecycle; pe_to : RuleLifecycle; pe_direction : promotion_direction;
  pe_rationale : string; pe_dual_control : option string; pe_backtest : option string;
}.
Record PromotionPolicy := {
  pp_clientId : option string; pp_ruleType : option RuleType;
  pp_n1Confirm : Z; pp_n2Confirm : Z; pp_maxReversals : Z;
}.
Record human_override := {
  ho_id : string; ho_account : option string; ho_criterion : string; ho_fingerprint : string;
  ho_asserted : json; ho_confirm_count : Z; ho_reversal_count : Z; ho_recorded_at : Z;
}.

Record rule_db := mkRuleDb {
  rule_versions : list rule_version;
  rule_types : list (string * RuleType);   (* rule.id, rule.rule_type *)
  promotion_events : list promotion_event;
  promotion_policies : list PromotionPolicy;
  human_overrides : list human_override;
  accounts : list string;
  criteria : list string;
  audit_events : ledger;                   (* in the order of recorded_at, id *)
}.
Definition set_rule_versions (f : list rule_version → list rule_version) (db : rule_db) : rule_db :=
  mkRuleDb (f (rule_versions db)) (rule_types db) (promotion_events db) (promotion_policies db)
    (human_overrides db) (accounts db) (criteria db) (audit_events db).
Definition set_promotion_events (f : list promotion_event → list promotion_event) (db : rule_db) :=
  mkRuleDb (rule_versions db) (rule_types db) (f (promotion_events db)) (promotion_policies db)
    (human_overrides db) (accounts db) (criteria db) (audit_events db).
Definition set_promotion_policies (f : list PromotionPolicy → list PromotionPolicy) (db : rule_db) :=
  mkRuleDb (rule_versions db) (rule_types db) (promotion_events db) (f (promotion_policies db))
    (human_overrides db) (accounts db) (criteria db) (audit_events db).
Definition set_human_overrides (f : list human_override → list human_override) (db : rule_db) :=
  mkRuleDb (rule_versions db) (rule_types db) (promotion_events db) (promotion_policies db)
    (f (human_overrides db)) (accounts db) (criteria db) (audit_events db).

Inductive rule_error : Set :=
  | InvalidLifecycleTransition (from to : RuleLifecycle)
  | RuleVersionNotFound (id : string)
  | RetryUnresolved
  | ActivePromotionRequiresEvidence     (* CHECK active_promotion_requires_backtest *)
  | DUAL_CONTROL_REQUIRED
  | ReversalRequiresActive (id : string)
  | PromotionPolicyNotFound (t : RuleType)
  | INVALID_PROMOTION_POLICY
  | INVALID_REVERSAL (code : string).

(** ** Operations *)

Definition assertLifecycleTransition (from to : RuleLifecycle) : result rule_error unit :=
  guard_or (bool_decide (to ∈ ALLOWED from)) (InvalidLifecycleTransition from to).

Definition find_version (id : string) (db : rule_db) : option rule_version :=
  select_one (λ r, bool_decide (rv_id r = pg_uuid id)) (rule_versions db).

Definition successor_of (id : string) (to : RuleLifecycle) (r : rule_version) : bool :=
  bool_decide (rv_predecessor r = Some (pg_uuid id)) && bool_decide (rv_lifecycle_state r = to).

Definition promotion_event_check (e : promotion_event) : bool :=
  negb (bool_decide (pe_to e = ACTIVE)) || bool_decide (is_Some (pe_backtest e)) ||
  bool_decide (is_Some (pe_dual_control e)).
Definition same_transition (e x : promotion_event) : bool :=
  bool_decide (pe_rule_version_id x = pe_rule_version_id e) && bool_decide (pe_from x = pe_from e) &&
  bool_decide (pe_to x = pe_to e).

Record transition_input := mkTransition {
  ti_ruleVersionId : string; ti_to : RuleLifecycle; ti_rationale : string;
  ti_dualControlAnalystId : option string; ti_ruleBacktestId : option string;
}.

(** [new_id] is the identifier the database gives the inserted version. *)
Definition transitionRuleLifecycle (new_id : string) (input : transition_input) (db : rule_db) :
    result rule_error ((string * bool) * rule_db) :=
  let 'mkTransition id to rationale dual backtest := input in
  match find_version id db with
  | None => Err (RuleVersionNotFound id)
  | Some current =>
      _ ← assertLifecycleTransition (rv_lifecycle_state current) to;
      let next := {| rv_id := new_id; rv_body := rv_body current; rv_lifecycle_state := to;
                     rv_predecessor := Some (pg_uuid id) |} in
      let '(created, versions) := insert_on_conflict (successor_of id to) next (rule_versions db) in
      let nextId := if created then Some new_id
                    else rv_id <$> select_one (successor_of id to) versions in
      match nextId with
      | None => Err RetryUnresolved
      | Some nextId =>
          let db := set_rule_versions (λ _, versions) db in
          let event := {| pe_rule_version_id := nextId; pe_hardness := rb_hardness (rv_body current);
            pe_from := rv_lifecycle_state current; pe_to := to;
            pe_direction := match to with DEPRECATED | QUARANTINED => DEMOTE | _ => PROMOTE end;
            pe_rationale := rationale; pe_dual_control := pg_uuid <$> dual;
            pe_backtest := pg_uuid <$> backtest |} in
          if promotion_event_check event then
            Ok ((nextId, created),
                set_promotion_events (λ t, (insert_on_conflict (same_transition event) event t).2) db)
          else Err ActivePromotionRequiresEvidence
      end
  end.

(** The latest [promoted_to_shadow] event on record for the version. *)
Definition latest_ratification (id : string) (db : rule_db) : option AuditEvent :=
  select_one (λ e, bool_decide (ae_entity e = "rule_version") &&
                   bool_decide (ae_ruleVersionId e = Some (pg_uuid id)) &&
                   bool_decide (ae_event e = "promoted_to_shadow")) (rev (audit_events db)).

Definition promoteShadowRule (new_id ruleVersionId rationale actorUserId : string) (db : rule_db) :=
  match latest_ratification ruleVersionId db with
  | None => Err DUAL_CONTROL_REQUIRED
  | Some ratification =>
      if bool_decide (ae_actorUserId ratification = Some actorUserId) then Err DUAL_CONTROL_REQUIRED
      else transitionRuleLifecycle new_id
             (mkTransition ruleVersionId ACTIVE rationale (Some actorUserId) None) db
  end.

(** [(account = $1 OR account IS NULL) AND (rule_type = $2 OR rule_type IS NULL)
    ORDER BY (account IS NOT NULL) DESC, (rule_type IS NOT NULL) DESC LIMIT 1] *)
Definition policy_applies (clientId : string) (ruleType : RuleType) (p : PromotionPolicy) : bool :=
  (bool_decide (pp_clientId p = Some (pg_uuid clientId)) || bool_decide (pp_clientId p = None)) &&
  (bool_decide (pp_ruleType p = Some ruleType) || bool_decide (pp_ruleType p = None)).
Definition policy_rank (p : PromotionPolicy) : Z :=
  (match pp_clientId p with Some _ => 0 | None => 2 end) +
  (match pp_ruleType p with Some _ => 0 | None => 1 end).
Definition resolvePromotionPolicy (clientId : string) (ruleType : RuleType) (db : rule_db) :
    result rule_error PromotionPolicy :=
  match js_sort (cmp_on policy_rank Z.compare)
          (List.filter (policy_applies clientId ruleType) (promotion_policies db)) with
  | row :: _ => Ok row
  | [] => Err (PromotionPolicyNotFound ruleType)
  end.

(** The input fields, as integers; [clientId] already a uuid for the schema. *)
Definition policy_input_ok (clientId : string) (n1 n2 maxReversals : Z) : bool :=
  isUuid clientId && (0 <? n1) && (0 <? n2) && (0 <=? maxReversals) && (n1 <=? n2).
Definition upsertPromotionPolicy (clientId : string) (ruleType : RuleType) (n1 n2 maxReversals : Z)
    (db : rule_db) : result rule_error (PromotionPolicy * rule_db) :=
  if policy_input_ok clientId n1 n2 maxReversals then
    let row := {| pp_clientId := Some (pg_uuid clientId); pp_ruleType := Some ruleType;
                  pp_n1Confirm := n1; pp_n2Confirm := n2; pp_maxReversals := maxReversals |} in
    let clash p := bool_decide (pp_clientId p = pp_clientId row) &&
                   bool_decide (pp_ruleType p = Some ruleType) in
    Ok (row, set_promotion_policies (λ t,
      if existsb clash t then update_where clash (λ _, row) t else t ++ [row]) db)
  else Err INVALID_PROMOTION_POLICY.

Definition reversal_total (criterionId clientId : string) (db : rule_db) : Z :=
  foldr Z.add 0 (map ho_reversal_count
    (List.filter (λ h, bool_decide (ho_criterion h = pg_uuid criterionId) &&
       (bool_decide (ho_account h = Some (pg_uuid clientId)) || bool_decide (ho_account h = None)))
       (human_overrides db))).

Definition rule_type_of (v : rule_version) (db : rule_db) : option RuleType :=
  snd <$> select_one (λ r, bool_decide (r.1 = rb_rule_id (rv_body v))) (rule_types db).

Definition quarantineOnReversal (new_id clientId criterionId ruleVersionId : string)
    (db : rule_db) : result rule_error ((bool * string) * rule_db) :=
  match find_version ruleVersionId db with
  | None => Err (RuleVersionNotFound ruleVersionId)
  | Some v =>
    match rule_type_of v db with
    | None => Err (RuleVersionNotFound ruleVersionId)
    | Some rule_type =>
      _ ← guard_or (bool_decide (rv_lifecycle_state v = ACTIVE)) (ReversalRequiresActive ruleVersionId);
      policy ← resolvePromotionPolicy clientId rule_type db;
      let reversals := reversal_total criterionId clientId db in
      if reversals <=? pp_maxReversals policy
      then Ok ((false, ruleVersionId), db)
      else
        let rationale := "Reversal threshold exceeded: " +:+ fixed 0 reversals +:+ " > " +:+
                         fixed 0 (pp_maxReversals policy) in
        '(r, db') ← transitionRuleLifecycle new_id
                      (mkTransition ruleVersionId QUARANTINED rationale None None) db;
        Ok ((true, r.1), db')
    end
  end.

Definition recordHumanOverrideReversal (override_id new_id clientId criterionId ruleVersionId
    caseFingerprint : string) (assertedValue : json) (now : Z) (db : rule_db) :
    result rule_error ((string * bool * string) * rule_db) :=
  _ ← guard_or (isUuid clientId) (INVALID_REVERSAL "INVALID_CLIENT_ID");
  _ ← guard_or (isUuid criterionId) (INVALID_REVERSAL "INVALID_CRITERION_ID");
  _ ← guard_or (isUuid ruleVersionId) (INVALID_REVERSAL "INVALID_RULE_VERSION_ID");
  _ ← guard_or (truthy (trim caseFingerprint)) (INVALID_REVERSAL "INVALID_CASE_FINGERPRINT");
  _ ← guard_or (bool_decide (pg_uuid clientId ∈ accounts db)) (INVALID_REVERSAL "CLIENT_NOT_FOUND");
  _ ← guard_or (bool_decide (pg_uuid criterionId ∈ criteria db)) (INVALID_REVERSAL "CRITERION_NOT_FOUND");
  let row := {| ho_id := override_id; ho_account := Some (pg_uuid clientId); ho_criterion := pg_uuid criterionId;
    ho_fingerprint := caseFingerprint; ho_asserted := assertedValue; ho_confirm_count := 0;
    ho_reversal_count := 1; ho_recorded_at := now |} in
  let db := set_human_overrides (λ t, t ++ [row]) db in
  '((quarantined, id), db') ← quarantineOnReversal new_id clientId criterionId ruleVersionId db;
  Ok ((override_id, quarantined, id), db').

(** ** Human overrides ([src/src/modules/rubric-resolver/human-override.ts]) *)

Inductive HumanOverrideResolution : Type :=
  | FOUND (overrideId : string) (assertedValue : json) (recordedAt : Z)
  | NOT_FOUND.
Record override_request := {
  or_clientId : string; or_criterionId : string; or_caseFingerprint : string; or_recordedAsOf : string;
}.

Section human_override.
(** zod's uuid format and ISO instants (in microseconds). *)
Context (zod_uuid : string → bool) (parse_instant : string → option Z).

(** [ORDER BY (account_id = $1) DESC, recorded_at DESC, id DESC]: for a row with
    no account the first key is NULL, which PostgreSQL sorts first under DESC. *)
Definition override_rank (h : human_override) : Z :=
  match ho_account h with None => 0 | Some _ => 1 end.
Definition override_order : human_override → human_override → comparison :=
  cmp_then (cmp_on override_rank Z.compare)
    (cmp_then (cmp_on (λ h, - ho_recorded_at h) Z.compare)
              (cmp_on ho_id (cmp_flip code_unit_compare))).
#[global] Instance override_order_preorder : TotalPreorder override_order.
Proof using Type. apply _. Qed.
Definition override_matches (r : override_request) (asOf : Z) (h : human_override) : bool :=
  (bool_decide (ho_account h = Some (pg_uuid (or_clientId r))) || bool_decide (ho_account h = None)) &&
  bool_decide (ho_criterion h = pg_uuid (or_criterionId r)) &&
  bool_decide (ho_fingerprint h = trim (or_caseFingerprint r)) && (ho_recorded_at h <=? asOf).

(** [None] is the thrown [HumanOverrideRequestError]. *)
Definition resolveHumanOverride (r : override_request) (db : rule_db) :
    option HumanOverrideResolution :=
  let fp := trim (or_caseFingerprint r) in
  match parse_instant (or_recordedAsOf r) with
  | Some asOf =>
      if zod_uuid (or_clientId r) && zod_uuid (or_criterionId r) &&
         (1 <=? String.length fp)%nat && (String.length fp <=? 1000)%nat
      then
        match js_sort override_order (List.filter (override_matches r asOf) (human_overrides db)) with
        | row :: _ => Some (FOUND (ho_id row) (ho_asserted row) (ho_recorded_at row))
        | [] => Some NOT_FOUND
        end
      else None
  | None => None
  end.
End human_override.

Definition applyHumanOverride (cascadedValue : json) (r : HumanOverrideResolution) :
    json * option string :=
  match r with
  | FOUND id value _ => (value, Some id)
  | NOT_FOUND => (cascadedValue, None)
  end.

(** ** What a transition leaves *)

Section growth.
Implicit Types (db : rule_db) (v u : rule_version) (e : promotion_event).

(** [u] is the version [v] was derived from, by an allowed transition on record. *)
Definition derived db u v : Prop :=
  u ∈ rule_versions db ∧ rv_predecessor v = Some (rv_id u) ∧
  rv_lifecycle_state v ∈ ALLOWED (rv_lifecycle_state u) ∧ rv_body v = rv_body u ∧
  ∃ e, e ∈ promotion_events db ∧ pe_rule_version_id e = rv_id v ∧
    pe_from e = rv_lifecycle_state u ∧ pe_to e = rv_lifecycle_state v ∧ promotion_event_check e = true.
Definition events_sound db : Prop := ∀ e, e ∈ promotion_events db → promotion_event_check e = true.

(** The rule tables only grow, and each new version is derived from one that was
    there. *)
Record rule_growth db db' : Prop := {
  rg_versions v : v ∈ rule_versions db → v ∈ rule_versions db';
  rg_events e : e ∈ promotion_events db → e ∈ promotion_events db';
  rg_sound : events_sound db → events_sound db';
  rg_new : events_sound db → ∀ v, v ∈ rule_versions db' → v ∈ rule_versions db ∨ ∃ u, derived db' u v;
}.

Lemma find_version_Some id db v :
  find_version id db = Some v → v ∈ rule_versions db ∧ rv_id v = pg_uuid id.
Proof. intros [H1 H2%bool_decide_eq_true]%select_one_Some. done. Qed.

Lemma successor_of_true id to v :
  successor_of id to v = true ↔ rv_predecessor v = Some (pg_uuid id) ∧ rv_lifecycle_state v = to.
Proof. unfold successor_of. by rewrite andb_true_iff, !bool_decide_eq_true. Qed.

(** What a successful transition did. *)
Lemma transition_inv new_id id to rationale dual bt db n created db' :
  transitionRuleLifecycle new_id (mkTransition id to rationale dual bt) db = Ok ((n, created), db') →
  ∃ current next e, find_version id db = Some current ∧ to ∈ ALLOWED (rv_lifecycle_state current) ∧
    rv_id next = n ∧ successor_of id to next = true ∧
    (created = true → next = {| rv_id := new_id; rv_body := rv_body current;
       rv_lifecycle_state := to; rv_predecessor := Some (pg_uuid id) |}) ∧
    (created = false → next ∈ rule_versions db) ∧
    rule_versions db' = rule_versions db ++ (if created then [next] else []) ∧
    pe_rule_version_id e = n ∧ pe_from e = rv_lifecycle_state current ∧ pe_to e = to ∧
    pe_dual_control e = pg_uuid <$> dual ∧ pe_backtest e = pg_uuid <$> bt ∧
    promotion_event_check e = true ∧
    promotion_events db' = (insert_on_conflict (same_transition e) e (promotion_events db)).2 ∧
    audit_events db' = audit_events db ∧ human_overrides db' = human_overrides db ∧
    promotion_policies db' = promotion_policies db.
Proof.
  unfold transitionRuleLifecycle, assertLifecycleTransition.
  destruct (find_version id db) as [current|] eqn:Hc; [|done].
  intros (u & Hu & H)%bind_Ok. apply guard_or_Ok, bool_decide_eq_true in Hu.
  set (next := {| rv_id := new_id |}) in H.
  destruct (insert_on_conflict _ next _) as [b versions] eqn:E.
  apply insert_on_conflict_spec in E as [(-> & -> & Hn)|(-> & -> & Hx)].
  - simpl in H. set (e := {| pe_rule_version_id := new_id |}) in H.
    destruct (promotion_event_check e) eqn:He; [|done]. injection H as <- <- <-.
    exists current, next, e. repeat split; try done.
    apply successor_of_true. done.
  - apply existsb_true, select_one_existsb in Hx as [next' Hs].
    change ((λ r, successor_of id to r)) with (successor_of id to) in *. rewrite Hs in H. simpl in H.
    apply select_one_Some in Hs as [Hin Hs].
    set (e := {| pe_rule_version_id := rv_id next' |}) in H.
    destruct (promotion_event_check e) eqn:He; [|done]. injection H as <- <- <-.
    exists current, next', e. rewrite app_nil_r. repeat split; done.
Qed.

Lemma same_transition_true e x : same_transition e x = true ↔
  pe_rule_version_id x = pe_rule_version_id e ∧ pe_from x = pe_from e ∧ pe_to x = pe_to e.
Proof. unfold same_transition. rewrite !andb_true_iff, !bool_decide_eq_true. naive_solver. Qed.

(** After the insert, the transition is on record. *)
Lemma event_recorded e t : (∀ x, x ∈ t → promotion_event_check x = true) →
  promotion_event_check e = true →
  ∃ x, x ∈ (insert_on_conflict (same_transition e) e t).2 ∧ promotion_event_check x = true ∧
    pe_rule_version_id x = pe_rule_version_id e ∧ pe_from x = pe_from e ∧ pe_to x = pe_to e.
Proof.
  intros Ht He. destruct (insert_on_conflict _ e t) as [b t'] eqn:E.
  apply insert_on_conflict_spec in E as [(-> & -> & _)|(-> & -> & x & Hx & Hs)]; simpl.
  - exists e. split; [set_solver|]. done.
  - apply same_transition_true in Hs. exists x. split; [done|]. split; [by apply Ht|done].
Qed.

Lemma events_grow e t x : x ∈ t → x ∈ (insert_on_conflict (same_transition e) e t).2.
Proof. unfold insert_on_conflict. case_match; simpl; set_solver. Qed.
Lemma events_checked e t : (∀ x, x ∈ t → promotion_event_check x = true) →
  promotion_event_check e = true →
  ∀ x, x ∈ (insert_on_conflict (same_transition e) e t).2 → promotion_event_check x = true.
Proof. unfold insert_on_conflict. case_match; simpl; [done|]. intros ?? x. set_solver. Qed.

Lemma growth_same db db' : rule_versions db' = rule_versions db → promotion_events db' = promotion_events db →
  rule_growth db db'.
Proof. intros Hv He. split; unfold events_sound; rewrite ?Hv, ?He; auto. Qed.
Lemma derived_mono db db' u v : (∀ v, v ∈ rule_versions db → v ∈ rule_versions db') →
  (∀ e, e ∈ promotion_events db → e ∈ promotion_events db') → derived db u v → derived db' u v.
Proof. intros Hv He (Hu & Hp & Ha & Hb & e & Hin & Hrest). split_and!; try done; [by apply Hv|]. exists e. split; [by apply He|done]. Qed.
Lemma growth_trans db1 db2 db3 : rule_growth db1 db2 → rule_growth db2 db3 → rule_growth db1 db3.
Proof.
  intros [V1 E1 S1 N1] [V2 E2 S2 N2]. split; auto. intros Hs v Hv.
  destruct (N2 (S1 Hs) v Hv) as [Hv2|Hd]; [|by right]. destruct (N1 Hs v Hv2) as [?|[u Hd]]; [by left|].
  right. exists u. by eapply derived_mono.
Qed.

Lemma transition_growth new_id input db r db' :
  transitionRuleLifecycle new_id input db = Ok (r, db') → rule_growth db db'.
Proof.
  destruct input as [id to rationale dual bt], r as [n created]. intros H.
  apply transition_inv in H as (cur & next & e & Hcur & Hto & Hn & Hsucc & Hnew & Hold & Hvs & He1 &
    He2 & He3 & He4 & He5 & Hec & Hes & _).
  apply find_version_Some in Hcur as [Hin Hid]. apply successor_of_true in Hsucc as [Hp Hst].
  split; [rewrite Hvs; set_solver|intros x; rewrite Hes; by apply events_grow| |].
  - unfold events_sound. rewrite Hes. intros Hs. by apply events_checked.
  - intros Hs v. rewrite Hvs. intros [Hv|Hv]%elem_of_app; [by left|right].
    destruct created; [|by apply elem_of_nil in Hv]. apply list_elem_of_singleton in Hv as ->.
    destruct (event_recorded e _ Hs Hec) as (x & Hx & Hxc & Hx1 & Hx2 & Hx3). rewrite <- Hes in Hx.
    exists cur. split; [rewrite Hvs; set_solver|]. split; [congruence|]. split; [by rewrite Hst|].
    split; [by rewrite (Hnew eq_refl)|]. exists x. by split_and!; try congruence.
Qed.
End growth.

(** ** Reachable rule tables *)

(** One committed handler call; identifiers the database generates are new. *)
Inductive rule_step : rule_db → rule_db → Prop :=
  | step_transition new_id input db r db' :
      new_id ∉ map rv_id (rule_versions db) →
      transitionRuleLifecycle new_id input db = Ok (r, db') → rule_step db db'
  | step_promote new_id id rationale actor db r db' :
      new_id ∉ map rv_id (rule_versions db) →
      promoteShadowRule new_id id rationale actor db = Ok (r, db') → rule_step db db'
  | step_reversal override_id new_id clientId criterionId id fp v now db r db' :
      new_id ∉ map rv_id (rule_versions db) →
      recordHumanOverrideReversal override_id new_id clientId criterionId id fp v now db = Ok (r, db') →
      rule_step db db'
  | step_policy clientId t n1 n2 m db r db' :
      upsertPromotionPolicy clientId t n1 n2 m db = Ok (r, db') → rule_step db db'.

Section reachable.
Implicit Types (db : rule_db) (v u : rule_version) (e : promotion_event).

Lemma quarantine_inv new_id clientId criterionId id db q n db' :
  quarantineOnReversal new_id clientId criterionId id db = Ok ((q, n), db') →
  ∃ v t policy, find_version id db = Some v ∧ rule_type_of v db = Some t ∧
    rv_lifecycle_state v = ACTIVE ∧ resolvePromotionPolicy clientId t db = Ok policy ∧
    q = negb (reversal_total criterionId clientId db <=? pp_maxReversals policy) ∧
    (q = false → db' = db ∧ n = id) ∧
    (q = true → ∃ rationale created, transitionRuleLifecycle new_id
        (mkTransition id QUARANTINED rationale None None) db = Ok ((n, created), db')).
Proof.
  unfold quarantineOnReversal. destruct (find_version id db) as [v|] eqn:Hv; [|done].
  destruct (rule_type_of v db) as [t|] eqn:Ht; [|done].
  intros (u & Hu & (policy & Hp & H)%bind_Ok)%bind_Ok. apply guard_or_Ok, bool_decide_eq_true in Hu.
  exists v, t, policy. destruct (reversal_total criterionId clientId db <=? _) eqn:E.
  - injection H as <- <- <-. split_and!; try done.
  - apply bind_Ok in H as ([[n' created] db1] & Htr & [= <- <- <-]). simpl.
    split_and!; try done. intros _. eexists _, _. exact Htr.
Qed.

Lemma rule_step_growth db db' : rule_step db db' → rule_growth db db'.
Proof.
  induction 1 as [new_id input db r db' Hf H|new_id id rationale actor db r db' Hf H|
    oid new_id clientId criterionId id fp v now db r db' Hf H|clientId t n1 n2 m db r db' H].
  - by eapply transition_growth.
  - unfold promoteShadowRule in H. destruct (latest_ratification id db); [|done].
    case_bool_decide; [done|]. by eapply transition_growth.
  - unfold recordHumanOverrideReversal in H. do 6 (apply bind_Ok in H as (? & _ & H)).
    apply bind_Ok in H as ([[q n] db1] & Hq & [= <- <-]).
    apply (growth_trans _ (set_human_overrides (λ t, t ++ [{| ho_id := oid; ho_account := Some (pg_uuid clientId);
      ho_criterion := pg_uuid criterionId; ho_fingerprint := fp; ho_asserted := v; ho_confirm_count := 0;
      ho_reversal_count := 1; ho_recorded_at := now |}]) db)); [by apply growth_same|].
    apply quarantine_inv in Hq as (? & ? & ? & _ & _ & _ & _ & _ & Hno & Hyes). destruct q.
    + destruct (Hyes eq_refl) as (ra & c & Htr). by eapply transition_growth.
    + destruct (Hno eq_refl) as [-> _]. by apply growth_same.
  - unfold upsertPromotionPolicy in H. case_match; [|done]. injection H as <- <-. by apply growth_same.
Qed.

(** Dual control: a shadow rule is activated only if a ratification is on
    record and the latest one was not made by the activating analyst; the
    promotion then records the activating analyst. *)
Theorem promoteShadowRule_dual_control new_id id rationale actor db n created db' :
  promoteShadowRule new_id id rationale actor db = Ok ((n, created), db') →
  ∃ ratification v, latest_ratification id db = Some ratification ∧
    ae_actorUserId ratification ≠ Some actor ∧
    find_version id db = Some v ∧ rv_lifecycle_state v = SHADOW ∧
    ∃ e, e ∈ promotion_events db' ∧ pe_rule_version_id e = n ∧ pe_to e = ACTIVE ∧
      (created = true → (∀ x, x ∈ promotion_events db → pe_rule_version_id x ≠ n) →
       pe_dual_control e = Some (pg_uuid actor)).
Proof.
  unfold promoteShadowRule. destruct (latest_ratification id db) as [r|]; [|done].
  case_bool_decide as Hr; [done|].
  intros (v & next & e & Hv & Hto & Hn & _ & _ & _ & _ & He1 & He2 & He3 & He4 & _ & _ & Hes & _)%transition_inv.
  exists r, v. split_and!; try done; [destruct (rv_lifecycle_state v); set_solver|].
  rewrite Hes. destruct (insert_on_conflict _ e _) as [b t] eqn:E.
  apply insert_on_conflict_spec in E as [(-> & -> & _)|(-> & -> & x & Hx & Hs)]; simpl.
  - exists e. split_and!; [set_solver|done..].
  - apply same_transition_true in Hs as (Hs1 & _ & Hs3). exists x. split_and!; [done|congruence..|].
    intros _ Hnone. destruct (Hnone x Hx). congruence.
Qed.

(** The quarantine threshold: an ACTIVE rule is quarantined exactly when the
    criterion's reversals, the client's and the shared ones, exceed the
    applicable policy's maximum; below it nothing changes. *)
Theorem quarantineOnReversal_threshold new_id clientId criterionId id db v t policy :
  find_version id db = Some v → rv_lifecycle_state v = ACTIVE → rule_type_of v db = Some t →
  resolvePromotionPolicy clientId t db = Ok policy →
  ∃ n db', quarantineOnReversal new_id clientId criterionId id db =
    Ok ((pp_maxReversals policy <? reversal_total criterionId clientId db, n), db') ∧
    if pp_maxReversals policy <? reversal_total criterionId clientId db
    then ∃ w, w ∈ rule_versions db' ∧ rv_id w = n ∧ rv_lifecycle_state w = QUARANTINED ∧
           rv_predecessor w = Some (pg_uuid id)
    else db' = db ∧ n = id.
Proof.
  intros Hv Ha Ht Hp. unfold quarantineOnReversal. rewrite Hv, Ht, Ha, Hp.
  rewrite bool_decide_eq_true_2, !bind_ret_l by done. simpl guard_or. rewrite !bind_ret_l.
  rewrite Z.ltb_antisym. destruct (_ <=? _); cbn [negb]; [eauto|].
  match goal with |- context [transitionRuleLifecycle new_id ?i db] =>
    destruct (transitionRuleLifecycle new_id i db) as [[[n created] db']|e] eqn:E end.
  - rewrite bind_ret_l. eexists _, _. split; [done|].
    apply transition_inv in E as (cur & next & ev & _ & _ & Hn & Hs & _ & Hold & Hvs & _).
    apply successor_of_true in Hs as [??]. exists next. split_and!; try done.
    rewrite Hvs. destruct created; [set_solver|]. rewrite app_nil_r. auto.
  - exfalso. unfold transitionRuleLifecycle, assertLifecycleTransition in E.
    rewrite Hv, Ha in E. rewrite bool_decide_eq_true_2 in E by set_solver.
    unfold guard_or in E. rewrite bind_ret_l in E.
    destruct (insert_on_conflict _ _ _) as [b t'] eqn:Ei.
    apply insert_on_conflict_spec in Ei as [(-> & -> & _)|(-> & -> & Hx)]; [done|].
    apply existsb_true, select_one_existsb in Hx as [next' Hs]. by rewrite Hs in E.
Qed.

(** An override shared by all tenants shadows the tenant's own: whenever
    a shared override matches, it is the one resolved, however old, although
    the tenant's own scope is meant to be preferred (NULL sorts first). *)
Theorem shared_override_shadows_tenant zod_uuid parse_instant r db asOf id value recorded h :
  parse_instant (or_recordedAsOf r) = Some asOf →
  h ∈ human_overrides db → override_matches r asOf h = true → ho_account h = None →
  resolveHumanOverride zod_uuid parse_instant r db = Some (FOUND id value recorded) →
  ∃ row, row ∈ human_overrides db ∧ ho_id row = id ∧ ho_account row = None.
Proof.
  intros Hi Hh Hm Hn. unfold resolveHumanOverride. rewrite Hi. case_match; [|done].
  set (rows := List.filter _ _). destruct (js_sort override_order rows) as [|row rest] eqn:Es; [done|].
  intros [= <- <- <-]. exists row.
  assert (row ∈ rows) as Hrow by (rewrite <- (elem_of_js_sort override_order), Es; set_solver).
  assert (h ∈ rows) as Hhr by (apply list_elem_of_In, filter_In; by rewrite <- list_elem_of_In).
  split; [by apply list_elem_of_In, filter_In in Hrow as [?%list_elem_of_In _]|]. split; [done|].
  pose proof (js_sort_sorted override_order rows) as Hs. rewrite Es in Hs.
  apply StronglySorted_inv in Hs as [_ Hall]. rewrite <- (elem_of_js_sort override_order), Es in Hhr.
  apply elem_of_cons in Hhr as [->|Hhr]; [done|]. rewrite Forall_forall in Hall.
  specialize (Hall h Hhr). unfold cmp_le, override_order, cmp_then, cmp_on in Hall.
  unfold override_rank in Hall. rewrite Hn in Hall. by destruct (ho_account row).
Qed.
End reachable.

(** ** The theorems at concrete inputs *)

Section witnesses.
Definition demo_body : rule_body := {|
  rb_rule_id := "r"; rb_hardness := "HARD"; rb_ast := AstLit (LitBool true); rb_ast_hash := "h";
  rb_expected_inputs := JArray []; rb_emits := JNull; rb_provenance := JObject [];
  rb_clause_id := None; rb_valid_from := None; rb_valid_to := None |}.
Definition demo_uuid (c : ascii) : string :=
  string_map (λ d, if is_digit d then c else d) "00000000-0000-0000-0000-000000000000".
Definition demo_db : rule_db := mkRuleDb
  [{| rv_id := "v1"; rv_body := demo_body; rv_lifecycle_state := PROPOSED; rv_predecessor := None |}]
  [("r", STRUCTURAL)] []
  [{| pp_clientId := None; pp_ruleType := None; pp_n1Confirm := 3; pp_n2Confirm := 5;
      pp_maxReversals := 1 |}]
  [{| ho_id := "o1"; ho_account := None; ho_criterion := demo_uuid "c"; ho_fingerprint := "f";
      ho_asserted := JBool true; ho_confirm_count := 0; ho_reversal_count := 2; ho_recorded_at := 1 |};
   {| ho_id := "o2"; ho_account := Some (demo_uuid "a"); ho_criterion := demo_uuid "c";
      ho_fingerprint := "f"; ho_asserted := JBool false; ho_confirm_count := 1;
      ho_reversal_count := 0; ho_recorded_at := 2 |}]
  [demo_uuid "a"] [demo_uuid "c"]
  [mkAuditEvent "e1" None "rule_version" None "promoted_to_shadow" ActorAnalyst (Some "alice")
     (Some "v2") None None].
Definition committed {A} (r : result rule_error (A * rule_db)) : rule_db :=
  match r with Ok (_, db) => db | Err _ => demo_db end.
Definition demo_shadow : rule_db := Eval vm_compute in
  committed (transitionRuleLifecycle "v2" (mkTransition "v1" SHADOW "ok" None None) demo_db).
Definition demo_active : rule_db := Eval vm_compute in
  committed (promoteShadowRule "v3" "v2" "ok" "bob" demo_shadow).

Lemma promoteShadowRule_dual_control_witness : ∃ ratification,
  latest_ratification "v2" demo_shadow = Some ratification ∧
  ae_actorUserId ratification ≠ Some "bob" ∧
  promoteShadowRule "v3" "v2" "ok" "alice" demo_shadow = Err DUAL_CONTROL_REQUIRED.
Proof.
  assert (promoteShadowRule "v3" "v2" "ok" "bob" demo_shadow = Ok (("v3", true), demo_active)) as H
    by (vm_compute; reflexivity).
  destruct (promoteShadowRule_dual_control _ _ _ _ _ _ _ _ H) as (r & v & Hr & Ha & _).
  exists r. split; [done|]. split; [done|]. vm_compute. reflexivity.
Defined.

Lemma quarantineOnReversal_threshold_witness : ∃ n db',
  quarantineOnReversal "v4" (demo_uuid "a") (demo_uuid "c") "v3" demo_active = Ok ((true, n), db').
Proof.
  destruct (quarantineOnReversal_threshold "v4" (demo_uuid "a") (demo_uuid "c") "v3" demo_active
    {| rv_id := "v3"; rv_body := demo_body; rv_lifecycle_state := ACTIVE; rv_predecessor := Some "v2" |}
    STRUCTURAL {| pp_clientId := None; pp_ruleType := None; pp_n1Confirm := 3; pp_n2Confirm := 5;
      pp_maxReversals := 1 |}) as (n & db' & H & _); [vm_compute; reflexivity..|].
  exists n, db'. rewrite H. vm_compute. reflexivity.
Defined.

Lemma shared_override_shadows_tenant_witness :
  let r := {| or_clientId := demo_uuid "a"; or_criterionId := demo_uuid "c";
              or_caseFingerprint := "f"; or_recordedAsOf := "now" |} in
  ∃ row, row ∈ human_overrides demo_db ∧ ho_id row = "o1" ∧ ho_account row = None.
Proof.
  intros r. eapply (shared_override_shadows_tenant isUuid (λ _, Some 5) r demo_db 5 "o1" (JBool true) 1);
    [reflexivity|by apply list_elem_of_here|vm_compute; reflexivity..].
Defined.
End witnesses.
