(* ===== verification/GoldenCorpus.v ===== *)
(** Golden-corpus backtests
    ([src/src/modules/rule-engine/golden-corpus-runner.ts],
    [persist-backtest.ts], [rule-activation-backtest.ts]). *)

From S2P Require Import Prelude JsText Decimal Json Interpreter AstJson Store AuditLedger Lifecycle.

(** ** The runner *)

Record GoldenCorpusCase (TInput : Type) := mkCase {
  gc_id : string; gc_input : TInput; gc_expected : json;
}.
Arguments mkCase {TInput}. Arguments gc_id {TInput}. Arguments gc_input {TInput}.
Arguments gc_expected {TInput}.

Record GoldenCaseResult := {
  gr_id : string; gr_passed : bool; gr_inputHash : string; gr_expectedHash : string;
  gr_actualHash : string; gr_actual : json;
}.
Record GoldenCorpusResult := {
  gcr_corpusHash : string; gcr_passed : bool; gcr_passCount : Z; gcr_regressionCount : Z;
  gcr_cases : list GoldenCaseResult;
}.

Inductive corpus_error : Set :=
  | CaseIdRequired
  | DuplicateCase (id : string)
  | EvaluateThrew (e : DecimalError)
  | RuleVersionMissing (id : string)
  | RULE_ACTIVATION_BACKTEST_REGRESSION
  | BacktestEvidenceConflict.

Section runner.
Context {H : Sha256} {C : Collator}.

Definition hash (value : json) : string := hex (sha256 (canonical code_unit_compare value)).

(** The first loop: the ids seen so far. *)
Definition check_ids {T} (cases : list (GoldenCorpusCase T)) : result corpus_error (list string) :=
  fold_res (λ ids item,
    _ ← guard_or (truthy (trim (gc_id item))) CaseIdRequired;
    _ ← guard_or (negb (bool_decide (gc_id item ∈ ids))) (DuplicateCase (gc_id item));
    Ok (ids ++ [gc_id item])) [] cases.

Section run.
Context {T : Type} (input_json : T → json) (evaluate : T → result corpus_error json).

Definition run_case (item : GoldenCorpusCase T) : result corpus_error GoldenCaseResult :=
  actual ← evaluate (gc_input item);
  let expectedHash := hash (gc_expected item) in
  let actualHash := hash actual in
  Ok {| gr_id := gc_id item; gr_passed := bool_decide (expectedHash = actualHash);
        gr_inputHash := hash (input_json (gc_input item)); gr_expectedHash := expectedHash;
        gr_actualHash := actualHash; gr_actual := actual |}.

Definition corpus_entry (c : GoldenCorpusCase T) : json :=
  JObject [("id", JString (gc_id c)); ("inputHash", JString (hash (input_json (gc_input c))));
           ("expectedHash", JString (hash (gc_expected c)))].

Definition runGoldenCorpus (cases : list (GoldenCorpusCase T)) :
    result corpus_error GoldenCorpusResult :=
  _ ← check_ids cases;
  let ordered := js_sort (cmp_on gc_id localeCompare) cases in
  results ← map_res run_case ordered;
  let regressionCount := Z.of_nat (length (List.filter (λ r, negb (gr_passed r)) results)) in
  Ok {| gcr_corpusHash := hash (JArray (map corpus_entry ordered));
        gcr_passed := regressionCount =? 0;
        gcr_passCount := Z.of_nat (length results) - regressionCount;
        gcr_regressionCount := regressionCount; gcr_cases := results |}.
End run.
End runner.

(** ** Evidence tables *)

Record rule_backtest := {
  bt_id : string; bt_account : option string; bt_rule_version : string; bt_corpus_hash : string;
  bt_passed : bool; bt_pass_count : Z; bt_regression_count : Z;
}.
Record backtest_db := mkBacktestDb {
  rule_backtests : list rule_backtest;
  rule_backtest_cases : list (string * GoldenCaseResult);   (* backtest_id, the case *)
}.

(** [UNIQUE (account_id, rule_version_id, corpus_hash)]: a NULL account never
    conflicts. *)
Definition backtest_clash (r x : rule_backtest) : bool :=
  match bt_account r, bt_account x with
  | Some a, Some b => bool_decide (a = b)
  | _, _ => false
  end && bool_decide (bt_rule_version x = bt_rule_version r) &&
  bool_decide (bt_corpus_hash x = bt_corpus_hash r).

(** [new_id] is the identifier the database gives the inserted row. *)
Definition persistBacktest (new_id : string) (clientId : option string) (ruleVersionId : string)
    (r : GoldenCorpusResult) (db : backtest_db) : result corpus_error ((string * bool) * backtest_db) :=
  let row := {| bt_id := new_id; bt_account := pg_uuid <$> clientId;
    bt_rule_version := pg_uuid ruleVersionId; bt_corpus_hash := gcr_corpusHash r;
    bt_passed := gcr_passed r; bt_pass_count := gcr_passCount r;
    bt_regression_count := gcr_regressionCount r |} in
  let '(created, t) := insert_on_conflict (backtest_clash row) row (rule_backtests db) in
  id ← (if created then Ok new_id else
        match select_one (backtest_clash row) t with
        | Some x => _ ← guard_or (Bool.eqb (bt_passed x) (gcr_passed r) &&
                       (bt_pass_count x =? gcr_passCount r) &&
                       (bt_regression_count x =? gcr_regressionCount r)) BacktestEvidenceConflict;
                    Ok (bt_id x)
        | None => Err BacktestEvidenceConflict
        end);
  let cases := foldl (λ t item,
    (insert_on_conflict (λ x, bool_decide (x.1 = id) && bool_decide (gr_id x.2 = gr_id item))
       (id, item) t).2) (rule_backtest_cases db) (gcr_cases r) in
  Ok ((id, created), mkBacktestDb t cases).

(** ** Activation corpora *)

Definition fact_json (v : FactValue) : json :=
  match v with
  | FactNumber n => JNumber n
  | FactString s => JString s
  | FactBool b => JBool b
  | FactMoney amount currency => JObject [("amount", JString amount); ("currency", JString currency)]
  | FactDecimal decimal => JObject [("decimal", JString decimal)]
  end.
Definition facts_json (facts : FactBundle) : json :=
  JObject (map (λ e, (e.1, fact_json e.2)) (map_to_list facts)).
Definition verdict_json (v : Verdict) : json :=
  JString (match v with PASS => "PASS" | FAIL => "FAIL" | UNASSESSABLE => "UNASSESSABLE" end).

Record ActivationCorpusCase := mkActivation {
  ac_id : string; ac_facts : FactBundle; ac_expectedVerdict : Verdict;
}.

(** [activationCasesSchema]: the checks on a parsed request body. *)
Definition fact_value_ok (v : FactValue) : bool :=
  match v with
  | FactNumber (JsFinite _) | FactBool _ => true
  | FactNumber _ => false
  | FactString s => (String.length s <=? 4000)%nat
  | FactMoney amount currency => (String.length amount <=? 100)%nat &&
      (1 <=? String.length (trim currency))%nat && (String.length (trim currency) <=? 10)%nat
  | FactDecimal decimal => (String.length decimal <=? 100)%nat
  end.
Definition activationCases_ok (cases : list ActivationCorpusCase) : bool :=
  (1 <=? length cases)%nat && (length cases <=? Z.to_nat 10000)%nat &&
  forallb (λ c, (1 <=? String.length (trim (ac_id c)))%nat && (String.length (trim (ac_id c)) <=? 300)%nat &&
    forallb (λ e, fact_value_ok e.2) (map_to_list (ac_facts c))) cases.

Section activation.
Context {D : DecimalJs} {H : Sha256} {C : Collator}.

Definition activation_case (item : ActivationCorpusCase) : GoldenCorpusCase FactBundle :=
  mkCase (ac_id item) (ac_facts item) (verdict_json (ac_expectedVerdict item)).

Definition rule_verdict (ast : AstNode) (facts : FactBundle) : result corpus_error json :=
  ev ← map_err EvaluateThrew (evaluate ast facts); Ok (verdict_json (verdict ev)).

Definition runAndPersistRuleActivationBacktest (new_id ruleVersionId : string)
    (cases : list ActivationCorpusCase) (rules : rule_db) (db : backtest_db) :
    result corpus_error ((string * GoldenCorpusResult) * backtest_db) :=
  match find_version ruleVersionId rules with
  | None => Err (RuleVersionMissing ruleVersionId)
  | Some v =>
      r ← runGoldenCorpus facts_json (rule_verdict (rb_ast (rv_body v))) (map activation_case cases);
      _ ← guard_or (gcr_passed r) RULE_ACTIVATION_BACKTEST_REGRESSION;
      '((id, _), db') ← persistBacktest new_id None ruleVersionId r db;
      Ok ((id, r), db')
  end.
End activation.

(** ** Correctness *)

Lemma hex_byte_inj a b x y : (a < 256)%N → (b < 256)%N →
  hex_byte a +:+ x = hex_byte b +:+ y → a = b ∧ x = y.
Proof.
  intros Ha Hb. unfold hex_byte. simpl. intros [= H1 H2 H3]. split; [|done].
  assert (∀ m n, (m < 16)%N → (n < 16)%N → hex_digit m = hex_digit n → m = n) as Hd.
  { intros m n Hm Hn Heq.
    pose proof (below_all 16 (λ m, forallb (λ k, implb (bool_decide (hex_digit m = hex_digit (N.of_nat k)))
      (N.eqb m (N.of_nat k))) (seq 0 16)) eq_refl m Hm) as Hall.
    rewrite forallb_forall in Hall. specialize (Hall (N.to_nat n)).
    rewrite N2Nat.id, bool_decide_eq_true_2 in Hall by done. apply N.eqb_eq, Hall, in_seq. lia. }
  apply Hd in H1; [|apply N.Div0.div_lt_upper_bound; lia..].
  apply Hd in H2; [|by apply N.mod_lt..].
  rewrite (N.div_mod a 16), (N.div_mod b 16) by done. by rewrite H1, H2.
Qed.

Lemma hex_inj l l' : Forall (λ b, (b < 256)%N) l → Forall (λ b, (b < 256)%N) l' →
  hex l = hex l' → l = l'.
Proof.
  intros Hl. revert l'. induction Hl as [|a l Ha _ IH]; intros [|b l'] Hl'; try done.
  apply Forall_cons in Hl' as [Hb Hl']. intros [-> ->%IH]%hex_byte_inj; done.
Qed.

Lemma check_ids_Ok {T} (cases : list (GoldenCorpusCase T)) :
  (∃ ids, check_ids cases = Ok ids) ↔
  Forall (λ c, truthy (trim (gc_id c)) = true) cases ∧ NoDup (map gc_id cases).
Proof.
  unfold check_ids. set (step := λ ids item, _).
  assert (∀ cs seen ids, fold_res step seen cs = Ok ids ↔
    ids = seen ++ map gc_id cs ∧ Forall (λ c, truthy (trim (gc_id c)) = true) cs ∧
    NoDup (map gc_id cs) ∧ ∀ i, i ∈ map gc_id cs → i ∉ seen) as Hgen.
  { induction cs as [|c cs IH]; intros seen ids.
    - rewrite app_nil_r. split; [intros [= <-]|by intros (-> & _)].
      split; [done|]. split; [constructor|]. split; [constructor|]. set_solver.
    - rewrite fold_res_cons, bind_Ok. unfold step at 1. setoid_rewrite IH. simpl.
      rewrite Forall_cons, NoDup_cons. split.
      + intros (a & Ha & -> & Hf & Hnd & Hi). res_inv.
        apply negb_true_iff, bool_decide_eq_false in Hb0.
        rewrite <- app_assoc. split_and!; try done; [|set_solver].
        intros Hin. apply (Hi (gc_id c)); set_solver.
      + intros (-> & [Hc Hf] & [Hn Hnd] & Hi). exists (seen ++ [gc_id c]).
        rewrite Hc, bool_decide_eq_false_2 by set_solver. split; [done|].
        rewrite <- app_assoc. split_and!; try done.
        intros i Hin. rewrite elem_of_app, list_elem_of_singleton. intros [?| ->]; [|done].
        apply (Hi i); set_solver. }
  split.
  - intros (ids & (_ & Hf & Hnd & _)%Hgen). done.
  - intros [Hf Hnd]. eexists. apply Hgen. split_and!; try done. set_solver.
Qed.

Section correctness.
Context {H : Sha256} {HL : Sha256Laws H} {C : Collator} {CL : CollatorLaws C}.

(** No two of the given texts collide under SHA-256. *)
Definition collision_free (texts : list string) : Prop :=
  ∀ x y, x ∈ texts → y ∈ texts → sha256 x = sha256 y → x = y.

Lemma hash_eq a b : collision_free (map (canonical code_unit_compare) [a; b]) →
  hash a = hash b → canonical code_unit_compare a = canonical code_unit_compare b.
Proof.
  intros Hc Hh%hex_inj; [|apply sha256_bytes..]. apply Hc; [set_solver..|done].
Qed.

Section run.
Context {T : Type} (input_json : T → json) (evaluate : T → result corpus_error json).
Implicit Types (cases : list (GoldenCorpusCase T)).

Lemma filter_negb_nil (l : list GoldenCaseResult) :
  (Z.of_nat (length (List.filter (λ r, negb (gr_passed r)) l)) =? 0) = forallb gr_passed l.
Proof.
  induction l as [|r l IH]; [done|]. simpl. destruct (gr_passed r); [by rewrite <- IH|].
  simpl. lia.
Qed.

(** A corpus passes exactly when every case produces what it expects. *)
Lemma runGoldenCorpus_passed cases :
  (∀ c a, c ∈ cases → evaluate (gc_input c) = Ok a →
    collision_free (map (canonical code_unit_compare) [gc_expected c; a])) →
  (∃ r, runGoldenCorpus input_json evaluate cases = Ok r ∧ gcr_passed r = true) ↔
  (∃ ids, check_ids cases = Ok ids) ∧
  ∀ c, c ∈ cases → ∃ a, evaluate (gc_input c) = Ok a ∧
    canonical code_unit_compare a = canonical code_unit_compare (gc_expected c).
Proof.
  intros Hcf. unfold runGoldenCorpus. set (ordered := js_sort _ cases).
  assert (∀ c, c ∈ ordered ↔ c ∈ cases) as Hin by (intros c; apply elem_of_js_sort). split.
  - intros (r & Hr & Hp). apply bind_Ok in Hr as (ids & Hids & Hr).
    apply bind_Ok in Hr as (res & Hres & [= <-]). split; [eauto|]. simpl in Hp.
    rewrite filter_negb_nil in Hp. rewrite forallb_forall in Hp.
    intros c Hc. rewrite <- Hin in Hc. apply map_res_Ok in Hres.
    destruct (list_elem_of_lookup_1 _ _ Hc) as [i Hi].
    destruct (Forall2_lookup_l _ _ _ _ _ Hres Hi) as (x & Hx & Hrun).
    unfold run_case in Hrun. apply bind_Ok in Hrun as (a & Ha & [= Hrun]). exists a. split; [done|].
    specialize (Hp x). rewrite <- list_elem_of_In in Hp.
    specialize (Hp (list_elem_of_lookup_2 _ _ _ Hx)). rewrite <- Hrun in Hp. simpl in Hp.
    apply bool_decide_eq_true in Hp. symmetry. apply hash_eq; [|done].
    apply (Hcf c a); [by apply Hin|done].
  - intros [[ids Hids] Hall]. rewrite Hids, bind_ret_l.
    destruct (map_res_total (run_case input_json evaluate) ordered) as [res Hres].
    { intros c Hc%Hin. destruct (Hall c Hc) as (a & Ha & _). unfold run_case. rewrite Ha. by eexists. }
    rewrite Hres, bind_ret_l. eexists. split; [done|]. simpl. rewrite filter_negb_nil.
    apply forallb_forall. intros x Hx%list_elem_of_In. apply map_res_Ok in Hres.
    destruct (list_elem_of_lookup_1 _ _ Hx) as [i Hi].
    destruct (Forall2_lookup_r _ _ _ _ _ Hres Hi) as (c & Hc & Hrun).
    apply list_elem_of_lookup_2, Hin in Hc. destruct (Hall c Hc) as (a & Ha & Hcan).
    unfold run_case in Hrun. rewrite Ha, bind_ret_l in Hrun. injection Hrun as <-. simpl.
    apply bool_decide_eq_true. unfold hash. by rewrite Hcan.
Qed.

(** A corpus does not depend on the order its cases are submitted in:
    permuted cases give the same hash, counts and case results, whenever the
    collation tells the case ids apart. *)
Theorem runGoldenCorpus_order_independent cases cases' r :
  cases ≡ₚ cases' →
  (∀ c c', c ∈ cases → c' ∈ cases → localeCompare (gc_id c) (gc_id c') = Eq → gc_id c = gc_id c') →
  runGoldenCorpus input_json evaluate cases = Ok r →
  runGoldenCorpus input_json evaluate cases' = Ok r.
Proof.
  intros Hperm Hsep. unfold runGoldenCorpus. intros (ids & Hids & Hr)%bind_Ok.
  assert (∃ ids', check_ids cases' = Ok ids') as [ids' Hids'].
  { destruct (proj1 (check_ids_Ok cases)) as [Hf Hnd]; [eauto|]. apply check_ids_Ok.
    rewrite <- Hperm. done. }
  rewrite Hids', bind_ret_l.
  assert (js_sort (cmp_on gc_id localeCompare) cases' = js_sort (cmp_on gc_id localeCompare) cases)
    as ->; [|done].
  destruct (proj1 (check_ids_Ok cases)) as [_ Hnd]; [eauto|].
  symmetry. apply (js_sort_unique _); [done|]. intros c c' Hc Hc' Ht.
  assert (gc_id c = gc_id c') as Heq by by apply Hsep.
  pose proof (select_one_unique gc_id _ c Hnd Hc) as E1.
  pose proof (select_one_unique gc_id _ c' Hnd Hc') as E2. rewrite Heq in E1. congruence.
Qed.
End run.

Context {D : DecimalJs}.

Lemma verdict_json_inj v w :
  canonical code_unit_compare (verdict_json v) = canonical code_unit_compare (verdict_json w) → v = w.
Proof. by destruct v, w. Qed.

(** Activation evidence is honest: a corpus is persisted as evidence
    exactly when its ids are distinct and not blank and every case, evaluated
    by the rule's own AST, gives the expected verdict; one regression and
    nothing is written. *)
Theorem activation_evidence_iff_all_pass new_id id cases rules db v :
  find_version id rules = Some v →
  collision_free (map (λ w, canonical code_unit_compare (verdict_json w)) [PASS; FAIL; UNASSESSABLE]) →
  is_ok (runAndPersistRuleActivationBacktest new_id id cases rules db) = true ↔
  Forall (λ c, truthy (trim (ac_id c)) = true) cases ∧ NoDup (map ac_id cases) ∧
  ∀ c, c ∈ cases → ∃ ev, evaluate (rb_ast (rv_body v)) (ac_facts c) = Ok ev ∧
    verdict ev = ac_expectedVerdict c.
Proof.
  intros Hv Hcf. unfold runAndPersistRuleActivationBacktest. rewrite Hv.
  set (ev := rule_verdict (rb_ast (rv_body v))). set (cs := map activation_case cases).
  assert (∀ w, canonical code_unit_compare (verdict_json w) ∈
    map (λ w, canonical code_unit_compare (verdict_json w)) [PASS; FAIL; UNASSESSABLE]) as Hmem.
  { intros w. simpl. rewrite !elem_of_cons. destruct w; auto. }
  pose proof (runGoldenCorpus_passed facts_json ev cs) as [Hto Hfrom].
  { intros c a (ac & -> & _)%list_elem_of_fmap Ha. unfold ev, rule_verdict in Ha.
    apply bind_Ok in Ha as (e & _ & [= <-]). intros x y Hx Hy. apply Hcf; simpl in Hx, Hy; set_solver. }
  assert (Forall (λ c, truthy (trim (ac_id c)) = true) cases ∧ NoDup (map ac_id cases) ↔
    ∃ ids, check_ids cs = Ok ids) as Hids.
  { rewrite check_ids_Ok. unfold cs. rewrite map_map, Forall_map. done. }
  assert ((∀ c, c ∈ cs → ∃ a, ev (gc_input c) = Ok a ∧
      canonical code_unit_compare a = canonical code_unit_compare (gc_expected c)) ↔
    ∀ c, c ∈ cases → ∃ e, evaluate (rb_ast (rv_body v)) (ac_facts c) = Ok e ∧
      verdict e = ac_expectedVerdict c) as Hcases.
  { split.
    - intros Hall c Hc. destruct (Hall (activation_case c)) as (a & Ha & Hcan).
      { by apply list_elem_of_fmap_2. }
      unfold ev, rule_verdict in Ha. apply bind_Ok in Ha as (e & He & [= <-]).
      exists e. unfold map_err in He. simpl in He. destruct (evaluate _ _) as [e'|e']; [|done].
      injection He as ->. split; [done|]. apply verdict_json_inj, Hcan.
    - intros Hall c (ac & -> & Hc)%list_elem_of_fmap. destruct (Hall ac Hc) as (e & He & Hve).
      exists (verdict_json (verdict e)). unfold ev, rule_verdict. simpl. rewrite He.
      split; [done|by rewrite Hve]. }
  assert (is_ok (r ← runGoldenCorpus facts_json ev cs;
    _ ← guard_or (gcr_passed r) RULE_ACTIVATION_BACKTEST_REGRESSION;
    '((i, _), db') ← persistBacktest new_id None id r db; Ok ((i, r), db')) = true ↔
    ∃ r, runGoldenCorpus facts_json ev cs = Ok r ∧ gcr_passed r = true) as ->.
  { destruct (runGoldenCorpus facts_json ev cs) as [r|e]; [|naive_solver].
    rewrite bind_ret_l. unfold persistBacktest, insert_on_conflict.
    rewrite (proj2 (existsb_false _ _)) by done.
    destruct (gcr_passed r) eqn:Hp; [|naive_solver]. split; [eauto|done]. }
  split.
  - intros [Hc Hall]%Hto. apply Hids in Hc as [??].
    split_and!; [done..|exact (proj1 Hcases Hall)].
  - intros (Hf & Hnd & Hall). apply Hfrom. split; [by apply Hids|exact (proj2 Hcases Hall)].
Qed.
End correctness.

(** Global evidence is not deduplicated: with no client, persisting the same
    corpus result again always inserts another evidence row and answers
    [created], since a NULL account never meets the uniqueness constraint. *)
Theorem persistBacktest_global_not_idempotent new_id new_id' ruleVersionId r db :
  ∃ db1 db2, persistBacktest new_id None ruleVersionId r db = Ok ((new_id, true), db1) ∧
    persistBacktest new_id' None ruleVersionId r db1 = Ok ((new_id', true), db2) ∧
    length (rule_backtests db2) = S (S (length (rule_backtests db))).
Proof.
  unfold persistBacktest, insert_on_conflict. rewrite (proj2 (existsb_false _ _)) by done.
  eexists _, _. split; [by rewrite bind_ret_l|]. simpl.
  rewrite (proj2 (existsb_false _ _)) by done. split; [by rewrite bind_ret_l|]. simpl.
  rewrite !length_app. simpl. lia.
Qed.

(** ** The theorems at concrete inputs *)

Section witnesses.
#[local] Existing Instance ExactDecimal.ops.
#[local] Existing Instance code_unit_collator.

(** A collision-free stand-in on short texts: the first 32 bytes. *)
Definition prefix_sha : Sha256 := λ s,
  take 32 (map N_of_ascii (String.list_ascii_of_string s) ++ replicate 32 0%N).
#[local] Existing Instance prefix_sha.

Lemma prefix_sha_laws : Sha256Laws prefix_sha.
Proof.
  split; intros s; unfold sha256, prefix_sha.
  - rewrite length_take, length_app, length_replicate. lia.
  - apply Forall_take, Forall_app. split.
    + apply Forall_map, Forall_true. intros []; apply N_ascii_bounded.
    + by apply Forall_replicate.
Qed.

Definition demo_case (id : string) (amount : string) (v : Verdict) : ActivationCorpusCase :=
  mkActivation id {[ "billed" := FactMoney amount "USD" ]} v.

Lemma activation_evidence_iff_all_pass_witness :
  is_ok (runAndPersistRuleActivationBacktest "b1" "v1"
    [demo_case "x" "1" PASS; demo_case "y" "2" PASS] demo_db (mkBacktestDb [] [])) = true.
Proof.
  apply (activation_evidence_iff_all_pass (HL := prefix_sha_laws) "b1" "v1" _ demo_db
    (mkBacktestDb [] [])
    {| rv_id := "v1"; rv_body := demo_body; rv_lifecycle_state := PROPOSED; rv_predecessor := None |});
    [reflexivity| |].
  - intros x y. simpl. rewrite !elem_of_cons, !elem_of_nil.
    intros [->|[->|[->|[]]]] [->|[->|[->|[]]]] Heq; try reflexivity;
      vm_compute in Heq; discriminate Heq.
  - split; [repeat constructor|]. split; [by apply (bool_decide_unpack _)|].
    intros c [->|[->|Hc]%elem_of_cons]%elem_of_cons; [..|by apply elem_of_nil in Hc];
      (eexists; split; vm_compute; reflexivity).
Defined.

Lemma runGoldenCorpus_order_independent_witness :
  let cs := [mkCase "x" 1 JNull; mkCase "y" 2 (JBool true)] in
  let run := runGoldenCorpus (λ n : Z, JNumber (JsFinite (fixed 0 n)))
               (λ n, Ok (if n =? 1 then JNull else JBool true)) in
  is_ok (run (rev cs)) = true ∧ run (rev cs) = run cs.
Proof.
  intros cs run. destruct (run cs) as [r|e] eqn:E; [|by vm_compute in E].
  assert (run (rev cs) = Ok r) as ->; [|done].
  refine (runGoldenCorpus_order_independent (CL := code_unit_collator_laws) _ _ cs (rev cs) r _ _ E).
  - by apply Permutation_rev.
  - intros c c' _ _. unfold localeCompare, code_unit_collator. apply String.compare_eq_iff.
Defined.
End witnesses.
