(* ===== verification/Rubrics.v ===== *)
(** The hand-authored rubrics
    ([src/src/modules/rubric-resolver/standard-rubric.ts], [contract-rubric.ts])
    and their content hash ([src/src/modules/evaluator/snapshot.ts]). *)

From S2P Require Import Prelude JsText Decimal Json Interpreter AstJson AuditLedger.

Inductive CriterionKind : Set := GATING | SCORING.
#[export] Instance CriterionKind_eq_dec : EqDecision CriterionKind.
Proof. solve_decision. Defined.

Record StandardCriterion := mkCriterion {
  criterionKey : string;
  kind : CriterionKind;
  description : string;
  evalOrder : Z;
  ast : AstNode;
  citation : option string;
}.
Record ComposedRubric := mkRubric {
  resolverVersion : string;
  criteria : list StandardCriterion;
}.

Definition RESOLVER_VERSION : string := "standard-resolver-v2".
Definition ENGINE_SPEC_VERSION : string := "engine-v1".
Definition FOOTING_TOLERANCE : string := "0.01".

(** The shape most criteria share: a fact compared for equality with a literal. *)
Definition fact_eq (key : string) (v : LitValue) : AstNode :=
  AstCompare CmpEq (AstFactRef key) (AstLit v) None.
Definition zero_lit : LitValue := LitNumber (JsFinite "0").

Definition ocean_gates : list StandardCriterion :=
  map (λ '(criterionKey, evalOrder, key, field),
    mkCriterion criterionKey GATING ("EDI 310 states its " +:+ field +:+ ".") evalOrder
      (fact_eq key (LitBool true))
      (Some ("Ocean freight invoice must state " +:+ field +:+ ".")))
  [("STD.310.INVOICE_NUMBER_REQUIRED", 38, "required_310_invoice_number", "B3-02 invoice number");
   ("STD.310.REFERENCE_REQUIRED", 40, "required_310_reference", "N9 shipment reference");
   ("STD.310.CONTAINER_REQUIRED", 42, "required_310_container", "N7 container identity");
   ("STD.310.VESSEL_VOYAGE_REQUIRED", 44, "required_310_vessel_voyage", "V1 vessel/voyage");
   ("STD.310.PORTS_REQUIRED", 46, "required_310_ports", "origin and destination R4 ports")].

Definition footing_ast : AstNode :=
  AstRequire "declared_total"
    (AstCompare CmpApprox (AstFactRef "declared_total") (AstFactRef "line_sum") (Some FOOTING_TOLERANCE)).

Definition standard_gates : list StandardCriterion :=
  [mkCriterion "STD.FOOTING" GATING
     "Declared invoice total foots to the sum of line charges within tolerance." 10 footing_ast
     (Some "Invoice total (B3-07) must equal the sum of billed line items (ΣL1-04).");
   mkCriterion "STD.CURRENCY_STATED" GATING
     "Every charge states a currency (never defaulted — critical for ocean/310)." 20
     (fact_eq "all_currencies_stated" (LitBool true))
     (Some "Each charge must state its currency (C3 / L1-20); defaulting is not permitted.");
   mkCriterion "STD.AMOUNT_STATED" GATING
     "Every charge has a parseable amount (never guessed — a malformed L1-04 is a structural defect)." 25
     (fact_eq "all_amounts_stated" (LitBool true))
     (Some "Each charge line must state a numeric amount (L1-04); an unparseable value cannot be certified.");
   mkCriterion "STD.HAS_CHARGES" GATING
     "Invoice carries at least one charge line (required segment presence)." 30
     (AstCompare CmpGt (AstFactRef "charge_count") (AstLit zero_lit) None)
     (Some "Invoice must contain at least one billable charge line (L1).");
   mkCriterion "STD.210.INVOICE_NUMBER_REQUIRED" GATING "EDI 210 states its invoice number in B3-02." 32
     (fact_eq "required_210_invoice_number" (LitBool true))
     (Some "Motor-carrier invoice must state B3-02 invoice number.");
   mkCriterion "STD.210.SHIPMENT_ID_REQUIRED" GATING
     "EDI 210 states its shipment identification in B3-03." 34
     (fact_eq "required_210_shipment_id" (LitBool true))
     (Some "Motor-carrier invoice must state B3-03 shipment identification.");
   mkCriterion "STD.210.SCAC_REQUIRED" GATING "EDI 210 states its carrier SCAC in B3-11." 36
     (fact_eq "required_210_scac" (LitBool true))
     (Some "Motor-carrier invoice must state B3-11 Standard Carrier Alpha Code.")] ++
  ocean_gates ++
  [mkCriterion "STD.310.CHARGE_IDENTITY_REQUIRED" GATING
     "Every EDI 310 charge has a charge code or source description." 48
     (fact_eq "required_310_charge_identity" (LitBool true))
     (Some "Each ocean charge must be identifiable from L1-08 or L1-12.");
   mkCriterion "STD.310.CURRENCY_CODE_VALID" GATING
     "Every EDI 310 charge currency is a normalized three-letter ISO code." 50
     (fact_eq "valid_310_currency_codes" (LitBool true))
     (Some "Ocean charge currencies from C3/L1-20 must be normalized ISO-4217 codes.")].

Definition standard_scores : list StandardCriterion :=
  [mkCriterion "STD.NO_QUARANTINED_CODES" SCORING
     "All charge codes resolved to a canonical category via the crosswalk." 100
     (fact_eq "quarantined_count" zero_lit) None;
   mkCriterion "STD.FUEL_PRESENT" SCORING
     "A fuel surcharge is present (categorized FUEL via crosswalk, never by raw code)." 110
     (fact_eq "has_fuel_category" (LitBool true)) None;
   mkCriterion "STD.DUPLICATE_INVOICE" SCORING
     "Invoice number has not already been billed for this tenant and transaction set." 120
     (AstRequire "duplicate_invoice" (fact_eq "duplicate_invoice" (LitBool false))) None;
   mkCriterion "STD.SHIPMENT_REFERENCE_MATCH" SCORING
     "At least one stated shipment reference matches a shipment belonging to this tenant." 130
     (AstRequire "shipment_reference_match" (fact_eq "shipment_reference_match" (LitBool true))) None;
   mkCriterion "STD.RATE_BASIS_ARITHMETIC" SCORING
     "Every charge stating rate/basis has amount equal to rate × basis within one cent." 140
     (AstRequire "rate_basis_arithmetic_matches"
        (fact_eq "rate_basis_arithmetic_matches" (LitBool true))) None;
   mkCriterion "STD.310.CURRENCY_CONSISTENCY" SCORING
     "EDI 310 charge currencies are consistent for invoice-level aggregation." 150
     (fact_eq "consistent_310_charge_currencies" (LitBool true)) None;
   mkCriterion "STD.SUSPICIOUS_MISSING_DATA" SCORING
     "No otherwise-valid charge carries a suspicious verification-data gap." 160
     (fact_eq "suspicious_missing_data_count" zero_lit) None].

Definition STANDARD_RUBRIC : ComposedRubric :=
  mkRubric RESOLVER_VERSION (standard_gates ++ standard_scores).

Definition CONTRACT_RESOLVER_VERSION : string := "contract-resolver-v1".
Definition RATE_VARIANCE_TOLERANCE : string := "0.01".

Definition rate_compare : AstNode :=
  AstCompare CmpApprox (AstFactRef "billed_linehaul") (AstFactRef "contract_linehaul_rate")
    (Some RATE_VARIANCE_TOLERANCE).
Definition RATE_VARIANCE_CRITERION : StandardCriterion :=
  mkCriterion "CONTRACT.RATE_VARIANCE" SCORING
    "Billed linehaul charge matches the contracted rate within tolerance, in the same currency." 200
    (AstRequire "billed_linehaul" (AstRequire "contract_linehaul_rate"
       (AstRequire "linehaul_currencies_match" rate_compare))) None.

Definition CONTRACT_RUBRIC : ComposedRubric :=
  mkRubric CONTRACT_RESOLVER_VERSION (criteria STANDARD_RUBRIC ++ [RATE_VARIANCE_CRITERION]).

(** ** The content hash *)

Definition kind_text (k : CriterionKind) : string :=
  match k with GATING => "GATING" | SCORING => "SCORING" end.


Section hash.
Context {H : Sha256}.

Definition criterion_json (c : StandardCriterion) : json :=
  JObject ([("criterionKey", JString (criterionKey c)); ("kind", JString (kind_text (kind c)));
            ("description", JString (description c));
            ("evalOrder", JNumber (JsFinite (fixed 0 (evalOrder c))));
            ("ast", ast_json (ast c))] ++
           match citation c with Some t => [("citation", JString t)] | None => [] end).
Definition rubric_json (r : ComposedRubric) : json :=
  JObject [("resolverVersion", JString (resolverVersion r));
           ("criteria", JArray (map criterion_json (criteria r)))].

Definition stableStringify (value : json) : string := canonical code_unit_compare value.
Definition rubricContentHash (rubric : ComposedRubric) : string :=
  hex (sha256 (stableStringify (rubric_json rubric))).
End hash.
