(* ===== verification/Facts.v ===== *)
(** Normalized charges ([src/src/modules/ingestion/charge-fact.ts]) and the
    resolution of an invoice into facts
    ([src/src/modules/evaluator/fact-bundle.ts]). *)

From S2P Require Import Prelude JsText Decimal Interpreter.

(** ** The normalized invoice *)

Record NormalizedCharge := mkCharge {
  nc_code : option string;
  nc_x12Element : option string;
  nc_category : option string;
  nc_quarantined : bool;
  nc_amount : option string;
  nc_currency : string;
  nc_basis : option string;
  nc_rate : option string;
  nc_rawDescription : option string;
  nc_sourceLoop : option string;
}.

Inductive TransactionSet : Set := Set210 | Set310 | SetPDF.
#[export] Instance TransactionSet_eq_dec : EqDecision TransactionSet.
Proof. solve_decision. Defined.

Record Footing := mkFooting { declaredTotal : option string; lineSum : string }.

Record ParsedInvoice := mkInvoice {
  transactionSet : TransactionSet;
  parserVersion : string;
  invoiceNumber : option string;
  shipmentReferences : option (list string);
  carrierCode : option string;
  containerNumbers : option (list string);
  vesselVoyage : option string;
  portCodes : option (list string);
  headerCurrency : option string;
  charges : list NormalizedCharge;
  footing : option Footing;
  quarantinedCodes : list string;
}.

Section money.
Context {D : DecimalJs}.

(** [money] on a string; [undefined] is [None]. *)
Definition money (raw : option string) : option string :=
  match raw with
  | None | Some "" => None
  | Some s => d_toFixed 4 <$> new_Decimal s
  end.

(** [sumMoney]; the [Err] case is [new Decimal] throwing on an amount. *)
Definition sumMoney (values : list (option string)) : result DecimalError string :=
  total ← fold_res (λ acc v, d ← decimal_or_throw v; Ok (d_plus acc d)) (d_of_int 0) (omap id values);
  Ok (d_toFixed 4 total).
End money.

(** ** Coverage markers *)

Inductive CoverageCode : Set :=
  INCOMPLETE_RATE_BASIS | FUEL_WITHOUT_RATE_BASIS | MISSING_CHARGE_IDENTITY.
Record CoverageMarker := mkMarker {
  chargeIndex : nat; cm_code : CoverageCode; missingFields : list string;
}.

Definition defined {A} (o : option A) : bool := match o with Some _ => true | None => false end.

(** [charge.code?.trim() || charge.rawDescription?.trim()] *)
Definition identified (c : NormalizedCharge) : bool :=
  truthy_trim (nc_code c) || truthy_trim (nc_rawDescription c).

Definition charge_markers (i : nat) (c : NormalizedCharge) : list CoverageMarker :=
  let hasRate := defined (nc_rate c) in
  let hasBasis := defined (nc_basis c) in
  (if negb (Bool.eqb hasRate hasBasis)
   then [mkMarker i INCOMPLETE_RATE_BASIS [if hasRate then "basis" else "rate"]]
   else if bool_decide (nc_category c = Some "FUEL") && negb hasRate && negb hasBasis
   then [mkMarker i FUEL_WITHOUT_RATE_BASIS ["rate"; "basis"]] else []) ++
  (if negb (identified c) then [mkMarker i MISSING_CHARGE_IDENTITY ["code"; "rawDescription"]] else []).

Definition findCoverageMarkers (inv : ParsedInvoice) : list CoverageMarker :=
  concat (imap charge_markers (charges inv)).

(** ** Contract facts *)

Record ContractRate := mkRate { cr_amount : string; cr_currency : string; cr_clauseId : option string }.
Inductive UnavailableReason : Set :=
  SOURCE_NOT_CONFIGURED | VALUE_NOT_PUBLISHED | LICENSE_REQUIRED | INVALID_REQUEST.
Definition reason_text (r : UnavailableReason) : string :=
  match r with
  | SOURCE_NOT_CONFIGURED => "SOURCE_NOT_CONFIGURED" | VALUE_NOT_PUBLISHED => "VALUE_NOT_PUBLISHED"
  | LICENSE_REQUIRED => "LICENSE_REQUIRED" | INVALID_REQUEST => "INVALID_REQUEST"
  end.
Inductive ExternalValueResolution : Set :=
  | ExtFound (value externalValueId resolverVersion : string)
  | ExtUnavailable (reason : UnavailableReason) (resolverVersion : string).

(** [linehaulRate]: absent, [null] or a rate.  [externalResolutions] are the
    entries of the object, by distinct source code. *)
Record ContractFacts := mkContract {
  linehaulRate : option (option ContractRate);
  duplicateInvoice : option bool;
  shipmentReferenceMatch : option bool;
  externalResolutions : list (string * ExternalValueResolution);
}.
Definition no_contract : ContractFacts := mkContract None None None [].

(** [s.replace(/[^a-z0-9]+/g, '_')]; [gap]: inside a run being replaced. *)
Fixpoint underscore_runs (gap : bool) (s : string) : string :=
  match s with
  | "" => ""
  | String c s' =>
      if is_lower c || is_digit c then String c (underscore_runs false s')
      else if gap then underscore_runs true s' else String "_" (underscore_runs true s')
  end.
(** [s.replace(/^_+|_+$/g, '')] *)
Fixpoint strip_leading (s : string) : string :=
  match s with
  | String c s' => if (code c =? 95)%N then strip_leading s' else s
  | "" => ""
  end.
Fixpoint strip_trailing (s : string) : string :=
  match s with
  | "" => ""
  | String c s' =>
      match strip_trailing s' with
      | "" => if (code c =? 95)%N then "" else String c ""
      | t => String c t
      end
  end.
Definition externalValueFactKey (sourceCode : string) : string :=
  "external_" +:+ strip_trailing (strip_leading (underscore_runs false (to_lower (trim sourceCode)))).

(** ** The fact bundle *)

(** [bundle[key] = value], where [undefined] leaves nothing a reader can see. *)
Definition set_fact (bundle : FactBundle) (key : string) (v : option FactValue) : FactBundle :=
  match v with Some v => <[key := v]> bundle | None => delete key bundle end.
Definition set_facts (bundle : FactBundle) (l : list (string * option FactValue)) : FactBundle :=
  foldl (λ b e, set_fact b e.1 e.2) bundle l.
Definition count_fact (n : nat) : FactValue := FactNumber (JsFinite (fixed 0 (Z.of_nat n))).

(** [l.every(p)] where [p] may throw: it stops at the first false. *)
Fixpoint every_res {E A} (p : A → result E bool) (l : list A) : result E bool :=
  match l with
  | [] => Ok true
  | x :: l' => b ← p x; if b : bool then every_res p l' else Ok false
  end.

Section bundle.
Context {D : DecimalJs} {C : Collator}.

(** [new Decimal(rate).times(basis).minus(amount).abs().lte('0.01')] *)
Definition rate_basis_ok (c : NormalizedCharge) : result DecimalError bool :=
  rate ← decimal_or_throw (default "" (nc_rate c));
  basis ← decimal_or_throw (default "" (nc_basis c));
  amount ← decimal_or_throw (default "" (nc_amount c));
  cent ← decimal_or_throw "0.01";
  Ok (d_lte (d_abs (d_minus (d_times rate basis) amount)) cent).

Definition rateBasisArithmeticMatches (inv : ParsedInvoice) : result DecimalError (option bool) :=
  let rateBasisCharges := List.filter (λ c, defined (nc_rate c) || defined (nc_basis c)) (charges inv) in
  if (length rateBasisCharges =? 0)%nat ||
     existsb (λ c, negb (defined (nc_rate c)) || negb (defined (nc_basis c)) ||
                   negb (defined (nc_amount c))) rateBasisCharges
  then Ok None
  else b ← every_res rate_basis_ok rateBasisCharges; Ok (Some b).

Definition unless_set (inv : ParsedInvoice) (t : TransactionSet) (b : bool) : option FactValue :=
  Some (FactBool (negb (bool_decide (transactionSet inv = t)) || b)).
Definition nonempty {A} (o : option (list A)) : bool :=
  match o with Some (_ :: _) => true | _ => false end.

(** The object literal of [buildFactBundle], with its two computed values. *)
Definition invoice_facts (inv : ParsedInvoice) (contract : ContractFacts) (line_sum : string)
    (rateBasis : option bool) : list (string * option FactValue) :=
  let currencies := map nc_currency (charges inv) in
  let header := default "" (headerCurrency inv) in
  [("declared_total", (λ t, FactMoney t header) <$> (footing inv ≫= declaredTotal));
   ("line_sum", Some (FactMoney line_sum header));
   ("all_currencies_stated", Some (FactBool (forallb (λ c, truthy (nc_currency c)) (charges inv))));
   ("all_amounts_stated", Some (FactBool (forallb (λ c, defined (nc_amount c)) (charges inv))));
   ("charge_count", Some (count_fact (length (charges inv))));
   ("quarantined_count", Some (count_fact (length (List.filter nc_quarantined (charges inv)))));
   ("has_fuel_category", Some (FactBool
      (existsb (λ c, bool_decide (nc_category c = Some "FUEL")) (charges inv))));
   ("duplicate_invoice", FactBool <$> duplicateInvoice contract);
   ("shipment_reference_match", FactBool <$> shipmentReferenceMatch contract);
   ("rate_basis_arithmetic_matches", FactBool <$> rateBasis);
   ("required_210_invoice_number", unless_set inv Set210 (truthy_trim (invoiceNumber inv)));
   ("required_210_shipment_id", unless_set inv Set210 (nonempty (shipmentReferences inv)));
   ("required_210_scac", unless_set inv Set210 (truthy_trim (carrierCode inv)));
   ("required_310_invoice_number", unless_set inv Set310 (truthy_trim (invoiceNumber inv)));
   ("required_310_reference", unless_set inv Set310 (nonempty (shipmentReferences inv)));
   ("required_310_container", unless_set inv Set310 (nonempty (containerNumbers inv)));
   ("required_310_vessel_voyage", unless_set inv Set310 (truthy_trim (vesselVoyage inv)));
   ("required_310_ports", unless_set inv Set310 (2 <=? length (default [] (portCodes inv)))%nat);
   ("required_310_charge_identity", unless_set inv Set310 (forallb identified (charges inv)));
   ("valid_310_currency_codes", unless_set inv Set310 (forallb is_currency_code currencies));
   ("consistent_310_charge_currencies",
      if bool_decide (transactionSet inv = Set310) then
        Some (FactBool match currencies with
                       | [] => true
                       | first :: _ => forallb (λ c, bool_decide (c = first)) currencies
                       end)
      else None);
   ("suspicious_missing_data_count", Some (count_fact (length (findCoverageMarkers inv))))].

Definition external_facts (e : string * ExternalValueResolution) : list (string * option FactValue) :=
  let key := externalValueFactKey e.1 in
  match e.2 with
  | ExtFound value pin version =>
      [(key, Some (FactDecimal value));
       (key +:+ "_resolver_version", Some (FactString version));
       (key +:+ "_external_value_id", Some (FactString pin))]
  | ExtUnavailable reason version =>
      [(key +:+ "_unavailable_reason", Some (FactString (reason_text reason)));
       (key +:+ "_resolver_version", Some (FactString version))]
  end.

Definition linehaulCharges (inv : ParsedInvoice) : list NormalizedCharge :=
  List.filter (λ c, bool_decide (nc_category c = Some "LINEHAUL") && negb (nc_quarantined c) &&
                    defined (nc_amount c)) (charges inv).

(** [billedCurrency]: the one currency of the linehaul charges. *)
Definition billedCurrency (inv : ParsedInvoice) : option string :=
  match linehaulCharges inv with
  | [] => None
  | (c :: _) as l =>
      if forallb (λ x, bool_decide (nc_currency x = nc_currency c)) l then Some (nc_currency c) else None
  end.

Definition linehaul_facts (inv : ParsedInvoice) (rate : option ContractRate) :
    result DecimalError (list (string * option FactValue)) :=
  billed ← match billedCurrency inv with
           | None => Ok None
           | Some currency =>
               total ← fold_res (λ acc c, d ← decimal_or_throw (default "" (nc_amount c));
                                          Ok (d_plus acc d)) (d_of_int 0) (linehaulCharges inv);
               Ok (Some (FactMoney (d_toFixed 4 total) currency))
           end;
  let currenciesStatedAndEqual :=
    match billedCurrency inv, cr_currency <$> rate with
    | Some b, Some r => truthy b && truthy r && bool_decide (b = r)
    | _, _ => false
    end in
  Ok [("billed_linehaul", billed);
      ("contract_linehaul_rate", (λ r, FactMoney (cr_amount r) (cr_currency r)) <$> rate);
      ("linehaul_currencies_match", if currenciesStatedAndEqual then Some (FactBool true) else None)].

Definition buildFactBundle (inv : ParsedInvoice) (contract : ContractFacts) :
    result DecimalError FactBundle :=
  rateBasis ← rateBasisArithmeticMatches inv;
  sum ← decimal_or_throw (from_option lineSum "0.0000" (footing inv));
  let bundle := set_facts ∅ (invoice_facts inv contract (d_toFixed 4 sum) rateBasis) in
  let resolutions := js_sort (cmp_on fst localeCompare) (externalResolutions contract) in
  let bundle := foldl (λ b e, set_facts b (external_facts e)) bundle resolutions in
  match linehaulRate contract with
  | None => Ok bundle
  | Some rate => facts ← linehaul_facts inv rate; Ok (set_facts bundle facts)
  end.
End bundle.

(** ** Reading the bundle back *)

Definition is_external (key : string) : bool := String.prefix "external_" key.
Definition linehaul_keys : list string :=
  ["billed_linehaul"; "contract_linehaul_rate"; "linehaul_currencies_match"].

Lemma set_facts_lookup b l k : NoDup l.*1 →
  set_facts b l !! k = match map_get l k with Some v => v | None => b !! k end.
Proof.
  revert b. induction l as [|[k' v] l IH]; intros b; [done|].
  intros [Hk Hnd]%NoDup_cons. change (set_facts b ((k', v) :: l)) with (set_facts (set_fact b k' v) l).
  rewrite IH by done. simpl. destruct (decide (k = k')) as [->|Hne].
  - rewrite (proj2 (map_get_None l k')) by done.
    destruct v; simpl; [by rewrite lookup_insert_eq|by rewrite lookup_delete_eq].
  - destruct (map_get l k); [done|].
    destruct v; simpl; [by rewrite lookup_insert_ne|by rewrite lookup_delete_ne].
Qed.

Lemma set_facts_other b l k : k ∉ l.*1 → set_facts b l !! k = b !! k.
Proof.
  revert b. induction l as [|[k' v] l IH]; intros b Hk; [done|].
  change (set_facts b ((k', v) :: l)) with (set_facts (set_fact b k' v) l).
  rewrite IH by set_solver. assert (k' ≠ k) by set_solver.
  destruct v; simpl; [by rewrite lookup_insert_ne|by rewrite lookup_delete_ne].
Qed.

Lemma prefix_append p s : String.prefix p (p +:+ s) = true.
Proof.
  induction p as [|c p IH]; simpl; [by destruct s|]. by destruct (ascii_dec c c).
Qed.

Lemma external_facts_key e k : k ∈ (external_facts e).*1 → is_external k = true.
Proof.
  assert (∀ x y, is_external ((("external_" +:+ x) : string) +:+ y) = true) as Hx.
  { intros x y. unfold is_external. simpl. apply (prefix_append ""). }
  unfold external_facts, externalValueFactKey. set (s := strip_trailing _).
  assert (is_external ("external_" +:+ s) = true) as Hs by apply prefix_append.
  destruct e.2; simpl fmap; rewrite !elem_of_cons, elem_of_nil; naive_solver.
Qed.

Section reading.
Context {D : DecimalJs} {C : Collator}.

(** What [buildFactBundle] resolves to. *)
Lemma buildFactBundle_inv inv contract b :
  buildFactBundle inv contract = Ok b →
  ∃ rateBasis d, rateBasisArithmeticMatches inv = Ok rateBasis ∧
    new_Decimal (from_option lineSum "0.0000" (footing inv)) = Some d ∧
    (∀ k v, map_get (invoice_facts inv contract (d_toFixed 4 d) rateBasis) k = Some v →
       is_external k = false → b !! k = v) ∧
    match linehaulRate contract with
    | None => ∀ k, k ∈ linehaul_keys → b !! k = None
    | Some rate => ∃ facts, linehaul_facts inv rate = Ok facts ∧
        ∀ k v, map_get facts k = Some v → b !! k = v
    end.
Proof.
  unfold buildFactBundle. intros (rateBasis & Hrb & (d & Hd & H)%bind_Ok)%bind_Ok.
  exists rateBasis, d. split; [done|]. unfold decimal_or_throw in Hd.
  split; [by destruct (new_Decimal _); simplify_eq|].
  set (facts0 := invoice_facts _ _ _ _) in *. set (b0 := set_facts ∅ facts0) in *.
  set (b1 := foldl _ b0 _) in *.
  assert (∀ k, is_external k = false → b1 !! k = b0 !! k) as Hext.
  { intros k Hk. unfold b1. generalize b0. clear -Hk.
    induction (js_sort _ _) as [|e l IH]; intros b0; simpl; [done|].
    rewrite IH. apply set_facts_other. intros Hin%external_facts_key. congruence. }
  assert (NoDup facts0.*1) as Hnd by by apply (bool_decide_unpack _).
  assert (∀ k v, map_get facts0 k = Some v → b0 !! k = v) as Hget.
  { intros k v Hv. unfold b0. by rewrite set_facts_lookup, Hv. }
  assert (∀ k, k ∈ linehaul_keys → b0 !! k = None) as Hlh0.
  { intros k Hk. unfold b0. rewrite set_facts_other; [done|].
    unfold linehaul_keys in Hk. rewrite !elem_of_cons, elem_of_nil in Hk.
    destruct Hk as [->|[->|[->|[]]]]; by apply (bool_decide_unpack _). }
  assert (∀ k v, map_get facts0 k = Some v → k ∉ linehaul_keys) as Hdisj.
  { intros k v Hv Hk. apply map_get_elem, (list_elem_of_fmap_2 fst) in Hv. simpl in Hv.
    revert Hv. unfold linehaul_keys in Hk. rewrite !elem_of_cons, elem_of_nil in Hk.
    destruct Hk as [->|[->|[->|[]]]]; by apply (bool_decide_unpack _). }
  destruct (linehaulRate contract) as [rate|].
  - apply bind_Ok in H as (facts & Hf & [= <-]).
    assert (facts.*1 = linehaul_keys) as Hkeys.
    { unfold linehaul_facts in Hf. apply bind_Ok in Hf as (billed & _ & [= <-]). done. }
    split.
    + intros k v Hv Hk. rewrite set_facts_other by (rewrite Hkeys; eauto).
      rewrite Hext by done. by apply Hget.
    + exists facts. split; [done|]. intros k v Hv. rewrite set_facts_lookup, Hv; [done|].
      rewrite Hkeys. by apply (bool_decide_unpack _).
  - injection H as <-. split.
    + intros k v Hv Hk. rewrite Hext by done. by apply Hget.
    + intros k Hk. rewrite Hext; [by apply Hlh0|].
      unfold linehaul_keys in Hk. rewrite !elem_of_cons, elem_of_nil in Hk.
      by destruct Hk as [->|[->|[->|[]]]].
Qed.
End reading.
