(* ===== verification/Evaluator.v ===== *)
(** The gate-then-score evaluator
    ([src/src/modules/evaluator/evaluate-invoice.ts]).  [Err] is an exception of
    decimal.js escaping the evaluation. *)

From S2P Require Import Prelude JsText Decimal Json Interpreter AuditLedger Rubrics Facts.

(** ** Results *)

Inductive Outcome : Set := REJECTED_REWORK | SCORED.
Record GateFailure := mkGateFailure {
  gf_criterionKey : string; gf_defect : string; gf_citation : option string; gf_evaluatedExpr : EvalNode;
}.
Inductive FindingResult : Set := CONFORMED | VARIANCE | Unassessable.
#[export] Instance FindingResult_eq_dec : EqDecision FindingResult.
Proof. solve_decision. Defined.
Inductive Direction : Set := OVERCHARGE | UNDERCHARGE | INTEGRITY_ONLY.
Record ChargeFinding := mkFinding {
  cf_criterionKey : string; cf_result : FindingResult; cf_evaluatedExpr : EvalNode;
  cf_varianceAmount : option string; cf_currency : option string; cf_direction : Direction;
}.
Record Scorecard := mkScorecard {
  conformedCount : Z; varianceCount : Z; unassessableCount : Z;
  totalOvercharge : string; totalUndercharge : string;
}.
Record Pins := mkPins { pin_parserVersion : string; pin_engineSpecVersion : string; pin_rubricContentHash : string }.
Record AuditResult := mkAuditResult {
  outcome : Outcome;
  gateFailures : list GateFailure;
  findings : list ChargeFinding;
  scorecard : option Scorecard;
  coverageMarkers : list CoverageMarker;
  pins : Pins;
}.

Section evaluator.
Context {D : DecimalJs} {C : Collator} {H : Sha256}.

Definition orderedCriteria (rubric : ComposedRubric) (k : CriterionKind) : list StandardCriterion :=
  js_sort (cmp_then (cmp_on evalOrder Z.compare) (cmp_on criterionKey localeCompare))
    (List.filter (λ c, bool_decide (kind c = k)) (criteria rubric)).

(** ** Variance deltas *)

(** The [while] loop over [require] wrappers. *)
Fixpoint unwrap_require (ev : EvalNode) : EvalNode :=
  match ev with
  | mkEval (AstRequire _ _) _ (Some (child :: _)) => unwrap_require child
  | _ => ev
  end.

Definition moneyVarianceDelta (ev : EvalNode) : result DecimalError (option (dec * string)) :=
  let node := unwrap_require ev in
  match ev_node node with
  | AstCompare _ _ _ _ =>
      match default [] (ev_children node) with
      | lhs :: rhs :: _ =>
          match ev_value lhs, ev_value rhs with
          | VMoney l currency, VMoney r _ =>
              dl ← decimal_or_throw l; dr ← decimal_or_throw r; Ok (Some (d_minus dl dr, currency))
          | _, _ => Ok None
          end
      | _ => Ok None
      end
  | _ => Ok None
  end.

(** ** The gate phase *)

Definition gate_failure (c : StandardCriterion) (ev : EvalNode) : list GateFailure :=
  match verdict ev with
  | PASS => []
  | FAIL => [mkGateFailure (criterionKey c) (description c) (citation c) ev]
  | UNASSESSABLE =>
      [mkGateFailure (criterionKey c) (description c +:+ " (unassessable)") (citation c) ev]
  end.
Definition gate_phase (facts : FactBundle) (gating : list StandardCriterion) :
    result DecimalError (list GateFailure) :=
  fold_res (λ acc c, ev ← evaluate (ast c) facts; Ok (acc ++ gate_failure c ev)) [] gating.

(** ** The score phase *)

Record score_state := mkScore {
  sc_conformed : Z; sc_variance : Z; sc_unassessable : Z;
  sc_overcharge : dec; sc_undercharge : dec; sc_findings : list ChargeFinding;
}.
Definition score_init : score_state := mkScore 0 0 0 (d_of_int 0) (d_of_int 0) [].

Definition result_of (v : Verdict) : FindingResult :=
  match v with PASS => CONFORMED | FAIL => VARIANCE | UNASSESSABLE => Unassessable end.

Definition score_step (facts : FactBundle) (s : score_state) (c : StandardCriterion) :
    result DecimalError score_state :=
  ev ← evaluate (ast c) facts;
  moneyDelta ← moneyVarianceDelta ev;
  let finding := mkFinding (criterionKey c) (result_of (verdict ev)) ev in
  Ok match result_of (verdict ev) with
     | CONFORMED => mkScore (sc_conformed s + 1) (sc_variance s) (sc_unassessable s) (sc_overcharge s)
         (sc_undercharge s) (sc_findings s ++ [finding None None INTEGRITY_ONLY])
     | Unassessable => mkScore (sc_conformed s) (sc_variance s) (sc_unassessable s + 1) (sc_overcharge s)
         (sc_undercharge s) (sc_findings s ++ [finding None None INTEGRITY_ONLY])
     | VARIANCE =>
         match moneyDelta with
         | None => mkScore (sc_conformed s) (sc_variance s + 1) (sc_unassessable s) (sc_overcharge s)
             (sc_undercharge s) (sc_findings s ++ [finding None None INTEGRITY_ONLY])
         | Some (delta, currency) =>
             mkScore (sc_conformed s) (sc_variance s + 1) (sc_unassessable s)
               (if d_isPos delta then d_plus (sc_overcharge s) delta else sc_overcharge s)
               (if d_isPos delta then sc_undercharge s else d_plus (sc_undercharge s) (d_abs delta))
               (sc_findings s ++ [finding (Some (d_toFixed 4 delta)) (Some currency)
                 (if d_isNeg delta then UNDERCHARGE else OVERCHARGE)])
         end
     end.

Definition evaluateInvoice (invoice : ParsedInvoice) (rubric : ComposedRubric) (contract : ContractFacts) :
    result DecimalError AuditResult :=
  facts ← buildFactBundle invoice contract;
  let markers := findCoverageMarkers invoice in
  let pins := mkPins (parserVersion invoice) ENGINE_SPEC_VERSION (rubricContentHash rubric) in
  failures ← gate_phase facts (orderedCriteria rubric GATING);
  if (0 <? length failures)%nat
  then Ok (mkAuditResult REJECTED_REWORK failures [] None markers pins)
  else
    s ← fold_res (score_step facts) score_init (orderedCriteria rubric SCORING);
    Ok (mkAuditResult SCORED [] (sc_findings s)
          (Some (mkScorecard (sc_conformed s) (sc_variance s) (sc_unassessable s)
                   (d_toFixed 4 (sc_overcharge s)) (d_toFixed 4 (sc_undercharge s))))
          markers pins).
End evaluator.

(** ** The outcome *)

Section outcome.
Context {D : DecimalJs} {C : Collator} {H : Sha256}.

Definition verdict_on (facts : FactBundle) (c : StandardCriterion) : result DecimalError Verdict :=
  verdict <$> evaluate (ast c) facts.

(** The gates an invoice's facts fail, in evaluation order. *)
Definition failing_gates (facts : FactBundle) (rubric : ComposedRubric) : list StandardCriterion :=
  filter (λ c, verdict_on facts c ≠ Ok PASS) (orderedCriteria rubric GATING).

Lemma gate_phase_inv facts gating acc failures :
  fold_res (λ acc c, ev ← evaluate (ast c) facts; Ok (acc ++ gate_failure c ev)) acc gating =
    Ok failures →
  ∃ new, failures = acc ++ new ∧
    map gf_criterionKey new = map criterionKey (filter (λ c, verdict_on facts c ≠ Ok PASS) gating) ∧
    Forall (λ f, verdict (gf_evaluatedExpr f) ≠ PASS) new.
Proof.
  revert acc. induction gating as [|c gating IH]; intros acc Hf.
  { injection Hf as <-. exists []. by rewrite app_nil_r. }
  rewrite fold_res_cons in Hf. apply bind_Ok in Hf as (acc' & Hc & Hf).
  apply bind_Ok in Hc as (ev & Hev & [= <-]). apply IH in Hf as (new & -> & Hk & Hv).
  exists (gate_failure c ev ++ new). rewrite app_assoc. split; [done|].
  assert (verdict_on facts c = Ok (verdict ev)) as Hon by by unfold verdict_on; rewrite Hev.
  rewrite map_app, Hk, filter_cons, Hon. unfold gate_failure.
  destruct (verdict ev) eqn:E; simpl; (split; [done|]); [done|constructor; simpl; congruence..].
Qed.

Lemma score_phase_inv facts scoring s0 s :
  fold_res (score_step facts) s0 scoring = Ok s →
  ∃ new, sc_findings s = sc_findings s0 ++ new ∧
    Forall2 (λ c f, cf_criterionKey f = criterionKey c ∧ evaluate (ast c) facts = Ok (cf_evaluatedExpr f) ∧
      cf_result f = result_of (verdict (cf_evaluatedExpr f))) scoring new.
Proof.
  revert s0. induction scoring as [|c scoring IH]; intros s0 Hs.
  { injection Hs as <-. exists []. by rewrite app_nil_r. }
  rewrite fold_res_cons in Hs. apply bind_Ok in Hs as (s1 & Hc & Hs).
  unfold score_step in Hc. apply bind_Ok in Hc as (ev & Hev & Hc).
  apply bind_Ok in Hc as (md & _ & [= Hc]). apply IH in Hs as (new & Hnew & Hall).
  assert (∃ f, sc_findings s1 = sc_findings s0 ++ [f] ∧ cf_criterionKey f = criterionKey c ∧
    cf_evaluatedExpr f = ev ∧ cf_result f = result_of (verdict ev)) as (f & Hf & Hk & He & Hr).
  { subst s1. destruct (verdict ev); simpl; [by eexists| |by eexists].
    destruct md as [[delta cur]|]; by eexists. }
  exists (f :: new). rewrite Hnew, Hf, <- app_assoc. split; [done|].
  constructor; [|done]. by rewrite He.
Qed.

Lemma evaluateInvoice_inv invoice rubric contract r :
  evaluateInvoice invoice rubric contract = Ok r →
  ∃ facts failures, buildFactBundle invoice contract = Ok facts ∧
    gate_phase facts (orderedCriteria rubric GATING) = Ok failures ∧
    pins r = mkPins (parserVersion invoice) ENGINE_SPEC_VERSION (rubricContentHash rubric) ∧
    coverageMarkers r = findCoverageMarkers invoice ∧ gateFailures r = failures ∧
    match failures with
    | _ :: _ => outcome r = REJECTED_REWORK ∧ findings r = [] ∧ scorecard r = None
    | [] => outcome r = SCORED ∧ ∃ s,
        fold_res (score_step facts) score_init (orderedCriteria rubric SCORING) = Ok s ∧
        findings r = sc_findings s ∧
        scorecard r = Some (mkScorecard (sc_conformed s) (sc_variance s) (sc_unassessable s)
          (d_toFixed 4 (sc_overcharge s)) (d_toFixed 4 (sc_undercharge s)))
    end.
Proof.
  unfold evaluateInvoice. intros (facts & Hfacts & (failures & Hg & Hr)%bind_Ok)%bind_Ok.
  exists facts, failures. split; [done|]. split; [done|]. destruct failures as [|f fs].
  - apply bind_Ok in Hr as (s & Hs & [= <-]). simpl. eauto 10.
  - injection Hr as <-. done.
Qed.

(** C1: gate, then score: a rejected invoice lists exactly the failing gates (an
    unassessable gate fails closed), in evaluation order, and carries no finding
    and no scorecard; an invoice all of whose gates pass is scored, with exactly
    one finding per scoring criterion, in order, that records the criterion's
    verdict. *)
Theorem evaluateInvoice_gate_then_score invoice rubric contract r :
  evaluateInvoice invoice rubric contract = Ok r →
  ∃ facts, buildFactBundle invoice contract = Ok facts ∧
    map gf_criterionKey (gateFailures r) = map criterionKey (failing_gates facts rubric) ∧
    (failing_gates facts rubric ≠ [] →
       outcome r = REJECTED_REWORK ∧ findings r = [] ∧ scorecard r = None) ∧
    (failing_gates facts rubric = [] →
       outcome r = SCORED ∧
       Forall2 (λ c f, cf_criterionKey f = criterionKey c ∧
         ∃ v, verdict_on facts c = Ok v ∧ cf_result f = result_of v)
         (orderedCriteria rubric SCORING) (findings r)).
Proof.
  intros (facts & failures & Hf & Hg & _ & _ & Hgf & Hr)%evaluateInvoice_inv.
  exists facts. split; [done|]. apply gate_phase_inv in Hg as (new & Hn & Hk & _). simpl in Hn.
  subst new. rewrite Hgf, Hk. split; [done|]. fold (failing_gates facts rubric) in Hk.
  destruct failures as [|g gs], (failing_gates facts rubric) as [|c cs]; try done.
  split; [done|]. intros _. destruct Hr as (-> & s & Hs & -> & _). split; [done|].
  apply score_phase_inv in Hs as (new & Hn & Hall). simpl in Hn. rewrite Hn.
  eapply Forall2_impl; [exact Hall|]. intros c f (Hkey & He & Hres). split; [done|].
  exists (verdict (cf_evaluatedExpr f)). unfold verdict_on. by rewrite He.
Qed.
End outcome.

(** ** The scorecard *)

Section scorecard.
Context {D : DecimalJs} {L : DecimalLaws D} {C : Collator} {H : Sha256}.

(** [billed - expected] of a money comparison, in ten-thousandths. *)
Definition finding_units (ev : EvalNode) : Z :=
  match ev_node (unwrap_require ev), ev_children (unwrap_require ev) with
  | AstCompare _ _ _ _, Some (lhs :: rhs :: _) =>
      match ev_value lhs, ev_value rhs with
      | VMoney l _, VMoney r _ => default 0 (money_units l) - default 0 (money_units r)
      | _, _ => 0
      end
  | _, _ => 0
  end.
Definition variance_units (f : ChargeFinding) : Z :=
  if bool_decide (cf_result f = VARIANCE) then finding_units (cf_evaluatedExpr f) else 0.
Definition count_results (k : FindingResult) (fs : list ChargeFinding) : Z :=
  zsum_by (λ f, if bool_decide (cf_result f = k) then 1 else 0) fs.

(** Every money text an evaluation produces is an amount at four decimals. *)
Definition has_units (v : EvalValue) : Prop :=
  match v with VMoney t _ => is_Some (money_units t) | _ => True end.

Lemma safeDecimal_finite raw d : safeDecimal raw = Some d → d_isFinite d = true.
Proof.
  assert (∀ t, safeDecimal_text t = Some d → d_isFinite d = true) as Ht.
  { intros t (x & _ & Hx)%bind_Some. destruct (d_isFinite x) eqn:E; by simplify_eq. }
  destruct raw as [[t| |]|t]; simpl; [apply Ht|done|done|apply Ht].
Qed.

Lemma evaluate_has_units n facts ev : evaluate n facts = Ok ev → has_units (ev_value ev).
Proof.
  revert ev. induction n as [v|a c|k|op args _|op l r tol _ _|op args _|k b IH]
    using AstNode_ind'; intros ev; cbn [evaluate].
  - intros [= <-]. destruct v as [x| |]; simpl; [|done..]. by case_match.
  - intros [= <-]. simpl. unfold eval_money. case_match eqn:E; [|done]. simpl.
    rewrite toFixed_units; [by eexists|by eapply safeDecimal_finite].
  - intros [= <-]. simpl. unfold eval_fact.
    destruct (facts !! k) as [[x|s|b|a c|x]|]; try done; [by case_match|by destruct s| |by case_match].
    destruct (safeDecimal (inr a)) eqn:E; [|done]. simpl.
    rewrite toFixed_units; [by eexists|by eapply safeDecimal_finite].
  - intros (cs & _ & (v & Hv & [= <-])%bind_Ok)%bind_Ok. simpl. unfold eval_arith in Hv.
    case_match; [by injection Hv as <-|]. apply bind_Ok in Hv as (decs & _ & Hv).
    repeat case_match; by simplify_eq/=.
  - intros (x & _ & (y & _ & (v & Hv & [= <-])%bind_Ok)%bind_Ok)%bind_Ok. simpl.
    unfold eval_compare in Hv. case_match; [by injection Hv as <-|].
    apply bind_Ok in Hv as (da & _ & (db & _ & Hv)%bind_Ok).
    repeat case_match; simplify_eq/=; try done. by apply bind_Ok in Hv as (t & _ & [= <-]).
  - intros (cs & _ & [= <-])%bind_Ok. simpl. unfold eval_logic. by repeat case_match.
  - case_match; [|by intros [= <-]]. intros (x & Hx & [= <-])%bind_Ok. by apply (IH x).
Qed.

Lemma unwrap_evaluates n facts ev : evaluate n facts = Ok ev →
  evaluate (ev_node (unwrap_require ev)) facts = Ok (unwrap_require ev).
Proof.
  revert ev. induction n as [v|a c|k|op args _|op l r tol _ _|op args _|k b IH]
    using AstNode_ind'; intros ev Hev; pose proof Hev as Hev'; cbn [evaluate] in Hev;
    try (res_inv; exact Hev').
  case_match; res_inv; [cbn [unwrap_require]; by apply IH|exact Hev'].
Qed.

(** The delta of a finding is the difference of the two amounts shown. *)
Lemma moneyVarianceDelta_units n facts ev md :
  evaluate n facts = Ok ev → moneyVarianceDelta ev = Ok md →
  Z.abs (finding_units ev) < 10 ^ 20 →
  match md with Some (delta, _) => delta ≐ finding_units ev | None => finding_units ev = 0 end.
Proof.
  intros Hev%unwrap_evaluates. unfold moneyVarianceDelta, finding_units.
  destruct (unwrap_require ev) as [[| | | |op l r tol| |] v cs]; simpl ev_node in *;
    try by intros [= <-].
  rewrite evaluate_compare in Hev. apply bind_Ok in Hev as (x & Hx & Hev).
  apply bind_Ok in Hev as (y & Hy & Hev). apply bind_Ok in Hev as (w & _ & [= -> <-]).
  simpl. apply evaluate_has_units in Hx, Hy.
  destruct (ev_value x) as [|lt lc| | |]; try by intros [= <-].
  destruct (ev_value y) as [|rt rc| | |]; try by intros [= <-].
  destruct Hx as [lu Hlu], Hy as [ru Hru]. simpl. rewrite Hlu, Hru. simpl.
  destruct (money_new _ _ Hlu) as (dl & Hdl & Hdl'), (money_new _ _ Hru) as (dr & Hdr & Hdr').
  unfold decimal_or_throw. rewrite Hdl, bind_ret_l, Hdr, bind_ret_l. intros [= <-] Hb.
  by apply money_minus.
Qed.

Lemma score_totals facts scoring s0 s new o u :
  fold_res (score_step facts) s0 scoring = Ok s →
  sc_findings s = sc_findings s0 ++ new →
  sc_overcharge s0 ≐ o → sc_undercharge s0 ≐ u → 0 <= o → 0 <= u →
  o + u + zsum_by (λ f, Z.abs (variance_units f)) new < 10 ^ 20 →
  sc_overcharge s ≐ o + zsum_by (λ f, Z.max 0 (variance_units f)) new ∧
  sc_undercharge s ≐ u + zsum_by (λ f, Z.max 0 (- variance_units f)) new.
Proof.
  revert s0 new o u. induction scoring as [|c scoring IH]; intros s0 new o u Hs Hn Ho Hu Ho0 Hu0 Hb.
  { injection Hs as <-. assert (new = []) as ->.
    { apply (app_inv_head (sc_findings s0)). by rewrite app_nil_r. }
    change (zsum_by _ []) with 0. by rewrite !Z.add_0_r. }
  rewrite fold_res_cons in Hs. apply bind_Ok in Hs as (s1 & Hc & Hs).
  pose proof Hs as Hs'. apply score_phase_inv in Hs' as (new' & Hn' & _).
  unfold score_step in Hc. apply bind_Ok in Hc as (ev & Hev & Hc).
  apply bind_Ok in Hc as (md & Hmd & [= Hc]).
  assert (∃ f, new = f :: new' ∧ sc_findings s1 = sc_findings s0 ++ [f] ∧
    cf_evaluatedExpr f = ev ∧ cf_result f = result_of (verdict ev)) as (f & -> & Hf & He & Hr).
  { assert (∃ f, sc_findings s1 = sc_findings s0 ++ [f] ∧ cf_evaluatedExpr f = ev ∧
      cf_result f = result_of (verdict ev)) as (f & Hf & He & Hr).
    { subst s1. destruct (verdict ev); simpl; [by eexists| |by eexists].
      destruct md as [[delta cur]|]; by eexists. }
    exists f. split; [|done]. rewrite Hn', Hf, <- app_assoc in Hn. by apply app_inv_head in Hn as <-. }
  rewrite !zsum_by_cons in *. cbv beta in *. set (m := variance_units f) in *.
  pose proof (zsum_by_nonneg (λ f, Z.abs (variance_units f)) new' ltac:(intros; lia)) as Hge.
  assert (sc_overcharge s1 ≐ o + Z.max 0 m ∧ sc_undercharge s1 ≐ u + Z.max 0 (- m)) as [Ho1 Hu1].
  { assert (cf_result f ≠ VARIANCE → m = 0) as Hm0.
    { intros Hne. unfold m, variance_units. by rewrite bool_decide_eq_false_2. }
    subst s1. destruct (verdict ev); simpl in Hr; try (simpl; rewrite Hm0 by congruence;
      change (Z.max 0 0) with 0; change (- 0) with 0; change (Z.max 0 0) with 0; by rewrite !Z.add_0_r).
    assert (m = finding_units ev) as Hm.
    { unfold m, variance_units. by rewrite bool_decide_eq_true_2, He. }
    pose proof (moneyVarianceDelta_units _ _ _ _ Hev Hmd ltac:(lia)) as Hd. rewrite <- Hm in Hd.
    simpl. destruct md as [[delta cur]|]; simpl; [|by rewrite Hd, !Z.add_0_r].
    pose proof (law_pos delta (proj1 Hd)) as Hpos. rewrite Hpos.
    assert (m < 0 → d_isNeg delta = true) by eauto using money_neg.
    assert (0 < m → d_isNeg delta = false) by eauto using money_nonneg.
    destruct (d_isNeg delta) eqn:En; simpl.
    - assert (m <= 0) by (destruct (Z_lt_le_dec 0 m); [naive_solver|done]).
      replace (Z.max 0 m) with 0 by lia. rewrite Z.add_0_r. split; [done|].
      replace (Z.max 0 (- m)) with (Z.abs m) by lia. apply money_plus; [done|by apply money_abs|lia].
    - assert (0 <= m) by (destruct (Z_lt_le_dec m 0); [naive_solver|done]).
      replace (Z.max 0 (- m)) with 0 by lia. rewrite Z.add_0_r. split; [|done].
      replace (Z.max 0 m) with m by lia. apply money_plus; [done..|lia]. }
  destruct (IH s1 new' (o + Z.max 0 m) (u + Z.max 0 (- m))) as [IHo IHu]; try done; try lia.
  split; [by rewrite Z.add_assoc|by rewrite Z.add_assoc].
Qed.
Lemma score_counts facts scoring s0 s :
  fold_res (score_step facts) s0 scoring = Ok s →
  sc_conformed s0 = count_results CONFORMED (sc_findings s0) →
  sc_variance s0 = count_results VARIANCE (sc_findings s0) →
  sc_unassessable s0 = count_results Unassessable (sc_findings s0) →
  sc_conformed s = count_results CONFORMED (sc_findings s) ∧
  sc_variance s = count_results VARIANCE (sc_findings s) ∧
  sc_unassessable s = count_results Unassessable (sc_findings s).
Proof.
  revert s0. induction scoring as [|c scoring IH]; intros s0 Hs Hc Hv Hu.
  { by injection Hs as <-. }
  rewrite fold_res_cons in Hs. apply bind_Ok in Hs as (s1 & Hstep & Hs).
  unfold score_step in Hstep. apply bind_Ok in Hstep as (ev & _ & Hstep).
  apply bind_Ok in Hstep as (md & _ & [= Hstep]).
  assert (∀ f k, count_results k (sc_findings s0 ++ [f]) =
    count_results k (sc_findings s0) + (if bool_decide (cf_result f = k) then 1 else 0)) as Hadd.
  { intros f k. unfold count_results. rewrite zsum_by_app, zsum_by_cons.
    change (zsum_by _ []) with 0. lia. }
  apply (IH s1 Hs); subst s1; destruct (verdict ev); simpl;
    try (destruct md as [[delta cur]|]; simpl);
    rewrite Hadd, ?Hc, ?Hv, ?Hu; simpl; try done; by rewrite Z.add_0_r.
Qed.

Lemma count_results_total fs :
  count_results CONFORMED fs + count_results VARIANCE fs + count_results Unassessable fs =
  Z.of_nat (length fs).
Proof.
  unfold count_results. rewrite <- !zsum_by_plus. induction fs as [|f fs IH]; [done|].
  rewrite zsum_by_cons, IH. destruct (cf_result f); simpl length; simpl bool_decide; cbn; lia.
Qed.

(** C3: the scorecard adds up: its three counts are the numbers of findings with
    each result and together cover every finding, and its dollar totals are
    exactly the sums of the positive and of the negative billed-minus-expected
    differences of the VARIANCE findings, as long as these sum below the 20
    digits decimal.js keeps. *)
Theorem scorecard_adds_up invoice rubric contract r s :
  evaluateInvoice invoice rubric contract = Ok r → scorecard r = Some s →
  conformedCount s = count_results CONFORMED (findings r) ∧
  varianceCount s = count_results VARIANCE (findings r) ∧
  unassessableCount s = count_results Unassessable (findings r) ∧
  conformedCount s + varianceCount s + unassessableCount s = Z.of_nat (length (findings r)) ∧
  (zsum_by (λ f, Z.abs (variance_units f)) (findings r) < 10 ^ 20 →
   totalOvercharge s = fixed 4 (zsum_by (λ f, Z.max 0 (variance_units f)) (findings r)) ∧
   totalUndercharge s = fixed 4 (zsum_by (λ f, Z.max 0 (- variance_units f)) (findings r))).
Proof.
  intros (facts & failures & _ & _ & _ & _ & _ & Hr)%evaluateInvoice_inv Hsc.
  destruct failures as [|f fs]; [|by destruct Hr as (_ & _ & Hn); rewrite Hn in Hsc].
  destruct Hr as (_ & st & Hst & Hf & Hcard). rewrite Hcard in Hsc. injection Hsc as <-. simpl.
  destruct (score_counts _ _ _ _ Hst) as (Hc & Hv & Hu); [done..|].
  rewrite Hf, Hc, Hv, Hu, count_results_total. split_and!; try done. intros Hb.
  destruct (score_totals _ _ _ _ (sc_findings st) 0 0 Hst) as [Ho Hun]; try done;
    [apply money_zero..|].
  rewrite (money_fixed _ _ Ho), (money_fixed _ _ Hun). done.
Qed.
End scorecard.

(** ** The standard gates *)

Section standard_gates.
Context {D : DecimalJs} {L : DecimalLaws D} {C : Collator} {H : Sha256}.

Lemma ordered_gates : orderedCriteria STANDARD_RUBRIC GATING = standard_gates.
Proof. reflexivity. Qed.
Lemma ordered_gates_contract : orderedCriteria CONTRACT_RUBRIC GATING = standard_gates.
Proof. reflexivity. Qed.
Lemma ordered_scores_contract :
  orderedCriteria CONTRACT_RUBRIC SCORING = standard_scores ++ [RATE_VARIANCE_CRITERION].
Proof. reflexivity. Qed.

(** A flag gate passes exactly when the flag is true. *)
Lemma flag_verdict facts key b : facts !! key = Some (FactBool b) →
  verdict <$> evaluate (fact_eq key (LitBool true)) facts = Ok (if b then PASS else FAIL).
Proof.
  intros Hk. unfold fact_eq. rewrite evaluate_compare. cbn [evaluate]. unfold eval_fact. rewrite Hk.
  cbn. by destruct b.
Qed.

Lemma charge_count_verdict facts n : facts !! "charge_count" = Some (count_fact n) →
  Z.of_nat n < 10 ^ 15 →
  verdict <$> evaluate (AstCompare CmpGt (AstFactRef "charge_count") (AstLit zero_lit) None) facts =
  Ok (if (0 <? n)%nat then PASS else FAIL).
Proof.
  intros Hk Hn. assert (∀ m, 0 <= m → ∃ d, safeDecimal (inl (JsFinite (fixed 0 m))) = Some d ∧ d ≐ m * 10000)
    as Hsafe.
  { intros m Hm. destruct (money_new (fixed 0 m) (m * 10000)) as (d & Hd & Hu).
    { unfold money_units. rewrite plain_fixed. simpl. by rewrite Z.mod_1_r, Z.div_1_r. }
    exists d. split; [|done]. unfold safeDecimal, safeDecimal_text. rewrite Hd. simpl.
    by rewrite (proj1 Hu). }
  destruct (Hsafe (Z.of_nat n)) as (d & Hd & Hdu); [lia|].
  destruct (Hsafe 0) as (z & Hz & Hzu); [lia|]. change (fixed 0 0) with "0" in Hz.
  rewrite evaluate_compare. cbn [evaluate]. unfold eval_fact, count_fact in *. rewrite Hk.
  unfold eval_lit, zero_lit. rewrite Hd, Hz, !bind_ret_l. unfold eval_compare. cbn [isUnassessable ev_value orb].
  destruct (law_toString d) as (d' & Hd' & Hf & Hv). destruct (law_toString z) as (z' & Hz' & Hfz & Hvz).
  cbn [toDecimal]. unfold decimal_or_throw. rewrite Hd', Hz', !bind_ret_l.
  assert (d_gt d' z' = (0 <? n)%nat) as ->.
  { unfold d_gt. rewrite (money_cmp d' z' (Z.of_nat n * 10000) (0 * 10000)).
    - destruct (Z.compare_spec (Z.of_nat n * 10000) (0 * 10000)); destruct n; try done; lia.
    - split; [by rewrite Hf; apply Hdu|]. rewrite Hv by apply Hdu. apply Hdu.
    - split; [by rewrite Hfz; apply Hzu|]. rewrite Hvz by apply Hzu. apply Hzu. }
  simpl. unfold verdict. simpl. by destruct (0 <? n)%nat.
Qed.
(** A scored invoice passed every gate; a failed gate is reported. *)
Lemma scored_gates_pass invoice rubric contract r :
  evaluateInvoice invoice rubric contract = Ok r → outcome r = SCORED →
  ∃ facts, buildFactBundle invoice contract = Ok facts ∧
    ∀ c, c ∈ orderedCriteria rubric GATING → verdict_on facts c = Ok PASS.
Proof.
  intros (facts & failures & Hf & Hg & _ & _ & _ & Hr)%evaluateInvoice_inv Ho.
  exists facts. split; [done|]. destruct failures as [|g gs]; [|by destruct Hr as [Hr _]; congruence].
  apply gate_phase_inv in Hg as (new & Hn & Hk & _). simpl in Hn. subst new.
  intros c Hc. destruct (decide (verdict_on facts c = Ok PASS)) as [|Hne]; [done|].
  assert (c ∈ filter (λ c, verdict_on facts c ≠ Ok PASS) (orderedCriteria rubric GATING)) as Hin
    by (by apply list_elem_of_filter).
  simpl in Hk. destruct (filter _ _); [by apply elem_of_nil in Hin|done].
Qed.

Lemma gate_failure_reported invoice rubric contract r :
  evaluateInvoice invoice rubric contract = Ok r →
  ∃ facts, buildFactBundle invoice contract = Ok facts ∧
    ∀ key, key ∈ map gf_criterionKey (gateFailures r) ↔
      ∃ c, c ∈ orderedCriteria rubric GATING ∧ criterionKey c = key ∧ verdict_on facts c ≠ Ok PASS.
Proof.
  intros (facts & failures & Hf & Hg & _ & _ & Hgf & _)%evaluateInvoice_inv.
  exists facts. split; [done|]. apply gate_phase_inv in Hg as (new & Hn & Hk & _). simpl in Hn. subst new.
  intros key. rewrite Hgf, Hk. rewrite list_elem_of_fmap. setoid_rewrite list_elem_of_filter. naive_solver.
Qed.

Definition standard_or_contract (rubric : ComposedRubric) : Prop :=
  rubric = STANDARD_RUBRIC ∨ rubric = CONTRACT_RUBRIC.
Lemma standard_or_contract_gates rubric : standard_or_contract rubric →
  orderedCriteria rubric GATING = standard_gates.
Proof. by intros [->| ->]. Qed.

(** The flag behind a passing flag gate is true. *)
Lemma flag_gate invoice contract facts key b c :
  buildFactBundle invoice contract = Ok facts →
  (∀ line_sum rb, map_get (invoice_facts invoice contract line_sum rb) key = Some (Some (FactBool b))) →
  is_external key = false → ast c = fact_eq key (LitBool true) →
  verdict_on facts c = Ok PASS → b = true.
Proof.
  intros (rb & d & _ & _ & Hget & _)%buildFactBundle_inv Hk He Ha Hv.
  specialize (Hget key _ (Hk _ _) He). unfold verdict_on in Hv.
  rewrite Ha, (flag_verdict _ _ _ Hget) in Hv. by destruct b.
Qed.

Definition well_formed_invoice (inv : ParsedInvoice) : Prop :=
  charges inv ≠ [] ∧ (∃ total, footing inv ≫= declaredTotal = Some total) ∧
  Forall (λ c, nc_currency c ≠ "" ∧ is_Some (nc_amount c)) (charges inv) ∧
  (transactionSet inv = Set210 →
     truthy_trim (invoiceNumber inv) = true ∧ nonempty (shipmentReferences inv) = true ∧
     truthy_trim (carrierCode inv) = true) ∧
  (transactionSet inv = Set310 →
     truthy_trim (invoiceNumber inv) = true ∧ nonempty (shipmentReferences inv) = true ∧
     nonempty (containerNumbers inv) = true ∧ truthy_trim (vesselVoyage inv) = true ∧
     (2 <= length (default [] (portCodes inv)))%nat ∧
     Forall (λ c, identified c = true ∧ is_currency_code (nc_currency c) = true) (charges inv)).

Section scored.
Context (invoice : ParsedInvoice) (contract : ContractFacts) (facts : FactBundle).
Context (Hf : buildFactBundle invoice contract = Ok facts).
Context (Hall : ∀ c, c ∈ standard_gates → verdict_on facts c = Ok PASS).

(** The [i]-th standard gate, a flag gate, holds. *)
Lemma scored_flag i c key b : standard_gates !! i = Some c → ast c = fact_eq key (LitBool true) →
  (∀ line_sum rb, map_get (invoice_facts invoice contract line_sum rb) key = Some (Some (FactBool b))) →
  is_external key = false → b = true.
Proof using All.
  intros Hi Ha Hk He. eapply flag_gate; [done..|]. apply Hall. by eapply list_elem_of_lookup_2.
Qed.

(** The same for a requirement of one transaction set. *)
Lemma scored_requirement t i c key b : transactionSet invoice = t →
  standard_gates !! i = Some c → ast c = fact_eq key (LitBool true) →
  (∀ line_sum rb, map_get (invoice_facts invoice contract line_sum rb) key =
     Some (Some (FactBool (negb (bool_decide (transactionSet invoice = t)) || b)))) →
  is_external key = false → b = true.
Proof using All.
  intros Ht Hi Ha Hk He. pose proof (scored_flag _ _ _ _ Hi Ha Hk He) as Hb.
  by rewrite bool_decide_eq_true_2 in Hb.
Qed.

Lemma scored_charges : Z.of_nat (length (charges invoice)) < 10 ^ 15 → charges invoice ≠ [].
Proof using All.
  intros Hlen. destruct (buildFactBundle_inv _ _ _ Hf) as (rb & d & _ & _ & Hget & _).
  destruct (standard_gates !! 3%nat) as [c|] eqn:Hc; [|done].
  pose proof (Hall c (list_elem_of_lookup_2 _ _ _ Hc)) as Hv. injection Hc as <-.
  unfold verdict_on in Hv. cbn [ast] in Hv.
  rewrite (charge_count_verdict _ (length (charges invoice))) in Hv; [|by apply Hget|done].
  by destruct (charges invoice).
Qed.

Lemma scored_total : ∃ total, footing invoice ≫= declaredTotal = Some total.
Proof using All.
  destruct (buildFactBundle_inv _ _ _ Hf) as (rb & d & _ & _ & Hget & _).
  destruct (standard_gates !! 0%nat) as [c|] eqn:Hc; [|done].
  pose proof (Hall c (list_elem_of_lookup_2 _ _ _ Hc)) as Hv. injection Hc as <-.
  assert (fact_present facts "declared_total" = true) as Hp.
  { unfold verdict_on, footing_ast in Hv. cbn [ast evaluate] in Hv.
    by destruct (fact_present facts "declared_total"). }
  unfold fact_present in Hp. erewrite Hget in Hp; [|reflexivity|done].
  destruct (footing invoice ≫= declaredTotal); [by eexists|done].
Qed.

Lemma scored_stated : Forall (λ c, nc_currency c ≠ "" ∧ is_Some (nc_amount c)) (charges invoice).
Proof using All.
  pose proof (scored_flag 1 _ "all_currencies_stated" _ eq_refl eq_refl (λ _ _, eq_refl) eq_refl) as H1.
  pose proof (scored_flag 2 _ "all_amounts_stated" _ eq_refl eq_refl (λ _ _, eq_refl) eq_refl) as H2.
  apply Forall_forall. intros c Hc%list_elem_of_In. rewrite forallb_forall in H1, H2.
  specialize (H1 c Hc). specialize (H2 c Hc). split.
  - unfold truthy in H1. by apply negb_true_iff, bool_decide_eq_false in H1.
  - by destruct (nc_amount c).
Qed.

Lemma scored_identified : transactionSet invoice = Set310 →
  Forall (λ c, identified c = true ∧ is_currency_code (nc_currency c) = true) (charges invoice).
Proof using All.
  intros Ht.
  pose proof (scored_requirement Set310 12 _ "required_310_charge_identity" _ Ht eq_refl eq_refl
    (λ _ _, eq_refl) eq_refl) as H1.
  pose proof (scored_requirement Set310 13 _ "valid_310_currency_codes" _ Ht eq_refl eq_refl
    (λ _ _, eq_refl) eq_refl) as H2.
  apply Forall_forall. intros c Hc%list_elem_of_In. rewrite forallb_forall in H1, H2.
  split; [by apply H1|]. apply H2. by apply in_map.
Qed.
End scored.

(** Only well-formed invoices are scored: under the standard or the contract
    rubric a SCORED invoice has charges, a declared total, a currency and an
    amount on every charge, and every identifier its transaction set requires. *)
Lemma scored_invoice_well_formed invoice rubric contract r :
  standard_or_contract rubric → Z.of_nat (length (charges invoice)) < 10 ^ 15 →
  evaluateInvoice invoice rubric contract = Ok r → outcome r = SCORED → well_formed_invoice invoice.
Proof.
  intros Hrub Hlen Hr Ho. destruct (scored_gates_pass _ _ _ _ Hr Ho) as (facts & Hf & Hall).
  rewrite standard_or_contract_gates in Hall by done.
  split; [by eapply scored_charges|]. split; [by eapply scored_total|].
  split; [by eapply scored_stated|].
  split; intros Ht; split_and!;
    try (apply Nat.leb_le); try (by eapply scored_identified);
    [eapply (scored_requirement _ _ _ Hf Hall _ 4)|eapply (scored_requirement _ _ _ Hf Hall _ 5)
    |eapply (scored_requirement _ _ _ Hf Hall _ 6)|eapply (scored_requirement _ _ _ Hf Hall _ 7)
    |eapply (scored_requirement _ _ _ Hf Hall _ 8)|eapply (scored_requirement _ _ _ Hf Hall _ 9)
    |eapply (scored_requirement _ _ _ Hf Hall _ 10)|eapply (scored_requirement _ _ _ Hf Hall _ 11)];
    (exact Ht || reflexivity || (intros; reflexivity)).
Qed.

(** The footing gate is exact: with a declared total and a line sum that are
    amounts, STD.FOOTING is reported exactly when they differ by more than one
    cent. *)
Lemma footing_gate_exact invoice rubric contract r declared sum x y :
  standard_or_contract rubric → footing invoice = Some (mkFooting (Some declared) sum) →
  money_units declared = Some x → money_units sum = Some y → Z.abs (x - y) < 10 ^ 20 →
  evaluateInvoice invoice rubric contract = Ok r →
  "STD.FOOTING" ∈ map gf_criterionKey (gateFailures r) ↔ 100 < Z.abs (x - y).
Proof.
  intros Hrub Hfoot Hx Hy Hb Hr.
  destruct (gate_failure_reported _ _ _ _ Hr) as (facts & Hf & Hin).
  rewrite Hin, standard_or_contract_gates by done. clear Hin.
  destruct (buildFactBundle_inv _ _ _ Hf) as (rb & d & _ & Hd & Hget & _).
  rewrite Hfoot in Hd. simpl in Hd. destruct (money_new _ _ Hy) as (d' & Hd' & Hdy).
  rewrite Hd in Hd'. simplify_eq.
  assert (facts !! "declared_total" = Some (FactMoney declared (default "" (headerCurrency invoice)))) as Hl.
  { rewrite (Hget "declared_total" ((λ t, FactMoney t (default "" (headerCurrency invoice))) <$>
      (footing invoice ≫= declaredTotal)) eq_refl eq_refl). by rewrite Hfoot. }
  assert (facts !! "line_sum" = Some (FactMoney (fixed 4 y) (default "" (headerCurrency invoice)))) as Hs.
  { rewrite (Hget "line_sum" _ eq_refl eq_refl). by rewrite (money_fixed _ _ Hdy). }
  assert (verdict <$> evaluate footing_ast facts = Ok (if Z.abs (x - y) <=? 100 then PASS else FAIL)) as Hv.
  { unfold footing_ast. rewrite evaluate_require by (unfold fact_present; by rewrite Hl).
    destruct (evaluate_money_compare facts CmpApprox (Some FOOTING_TOLERANCE) _ _ _ _ _ _ x y Hl Hs)
      as (dx & dy & Hdx & Hdy' & Hev); [done|apply money_units_fixed|].
    destruct (money_new FOOTING_TOLERANCE 100 eq_refl) as (dt & Hdt & Ht).
    unfold decimal_or_throw in Hev. simpl default in Hev. rewrite Hdt, bind_ret_l in Hev.
    apply bind_Ok in Hev as (ev & -> & [= Hev]). rewrite bind_ret_l. unfold verdict. simpl. rewrite Hev.
    unfold d_lte. erewrite money_cmp by eauto with money. unfold Z.leb.
    by destruct (Z.abs (x - y) ?= 100). }
  rewrite <- Z.ltb_lt, Z.ltb_antisym, negb_true_iff. split.
  - intros (c & Hc & Hk & Hne). unfold standard_gates in Hc. apply list_elem_of_lookup_1 in Hc as [i Hi].
    destruct i as [|i].
    { injection Hi as <-. unfold verdict_on in Hne. cbn [ast] in Hne. rewrite Hv in Hne.
      by destruct (_ <=? _). }
    do 13 (destruct i as [|i]; [by injection Hi as <-|]). done.
  - intros Hle. destruct (standard_gates !! 0%nat) as [c|] eqn:Hc; [|done]. exists c.
    split; [by eapply list_elem_of_lookup_2|]. injection Hc as <-. split; [done|].
    unfold verdict_on. cbn [ast]. by rewrite Hv, Hle.
Qed.
End standard_gates.

(** ** Currency safety of the contract criterion *)

Section rate_variance.
Context {D : DecimalJs} {L : DecimalLaws D} {C : Collator} {H : Sha256}.

Lemma require_present facts k b ev : evaluate (AstRequire k b) facts = Ok ev →
  verdict ev ≠ UNASSESSABLE → fact_present facts k = true ∧
  ∃ ev', evaluate b facts = Ok ev' ∧ verdict ev' = verdict ev.
Proof.
  cbn [evaluate]. destruct (fact_present facts k) eqn:Hk.
  - intros (x & Hx & [= <-])%bind_Ok Hv. split; [done|]. by exists x.
  - intros [= <-] Hv. by destruct Hv.
Qed.

Lemma billedCurrency_Some invoice cur : billedCurrency invoice = Some cur →
  linehaulCharges invoice ≠ [] ∧ Forall (λ c, nc_currency c = cur) (linehaulCharges invoice).
Proof.
  unfold billedCurrency. destruct (linehaulCharges invoice) as [|c cs]; [done|].
  case_match eqn:E; [|done]. intros [= <-]. split; [done|].
  apply Forall_forall. intros x Hx%list_elem_of_In. rewrite forallb_forall in E.
  by specialize (E x Hx); apply bool_decide_eq_true in E.
Qed.

(** No cross-currency verdict: a CONTRACT.RATE_VARIANCE finding that is not
    UNASSESSABLE means a rate was found and every billed linehaul charge states
    exactly that rate's currency. *)
Theorem rate_variance_same_currency invoice contract r f :
  evaluateInvoice invoice CONTRACT_RUBRIC contract = Ok r → f ∈ findings r →
  cf_criterionKey f = "CONTRACT.RATE_VARIANCE" → cf_result f ≠ Unassessable →
  ∃ rate, linehaulRate contract = Some (Some rate) ∧ cr_currency rate ≠ "" ∧
    linehaulCharges invoice ≠ [] ∧
    Forall (λ c, nc_currency c = cr_currency rate) (linehaulCharges invoice).
Proof.
  intros (facts & failures & Hf & _ & _ & _ & _ & Hr)%evaluateInvoice_inv Hin Hkey Hres.
  destruct failures as [|g gs]; [|by destruct Hr as (_ & Hn & _); rewrite Hn in Hin; apply elem_of_nil in Hin].
  destruct Hr as (_ & s & Hs & Hfs & _). rewrite Hfs in Hin.
  apply score_phase_inv in Hs as (new & Hn & Hall). simpl in Hn. rewrite Hn in Hin.
  apply list_elem_of_lookup_1 in Hin as [i Hi].
  destruct (Forall2_lookup_r _ _ _ _ _ Hall Hi) as (c & Hc & Hck & Hev & Hcr).
  assert (c = RATE_VARIANCE_CRITERION) as ->.
  { rewrite ordered_scores_contract in Hc. rewrite Hkey in Hck. revert Hc Hck. clear.
    do 7 (destruct i as [|i]; [by intros [= <-]|]). destruct i as [|i]; [by intros [= <-]|done]. }
  assert (verdict (cf_evaluatedExpr f) ≠ UNASSESSABLE) as Hv
    by (intros Hv; rewrite Hv in Hcr; by destruct Hres).
  cbn [RATE_VARIANCE_CRITERION ast] in Hev.
  destruct (require_present _ _ _ _ Hev Hv) as (_ & e1 & He1 & Hv1). rewrite <- Hv1 in Hv.
  destruct (require_present _ _ _ _ He1 Hv) as (_ & e2 & He2 & Hv2). rewrite <- Hv2 in Hv.
  destruct (require_present _ _ _ _ He2 Hv) as (Hp & _). unfold fact_present in Hp.
  destruct (buildFactBundle_inv _ _ _ Hf) as (rb & d & _ & _ & _ & Hlh).
  destruct (linehaulRate contract) as [rate|]; [|by rewrite Hlh in Hp by set_solver].
  destruct Hlh as (lf & Hlf & Hget). unfold linehaul_facts in Hlf.
  apply bind_Ok in Hlf as (billed & _ & [= <-]).
  erewrite (Hget "linehaul_currencies_match") in Hp; [|reflexivity].
  destruct (billedCurrency invoice) as [b|] eqn:Hb; [|done].
  destruct rate as [rate|]; [|done]. simpl in Hp. exists rate. split; [done|].
  destruct (truthy b && truthy (cr_currency rate) && bool_decide (b = cr_currency rate)) eqn:E; [|done].
  apply andb_true_iff in E as [[_ E1]%andb_true_iff ->%bool_decide_eq_true].
  split; [|by apply billedCurrency_Some]. unfold truthy in E1.
  by apply negb_true_iff, bool_decide_eq_false in E1.
Qed.
End rate_variance.

(** ** Totality *)

Section totality.
Context {D : DecimalJs} {L : DecimalLaws D} {C : Collator} {H : Sha256}.

Definition parses (t : string) : Prop := is_Some (new_Decimal t).
(** Every decimal text the fact bundle reads parses. *)
Definition invoice_decimals_ok (inv : ParsedInvoice) : Prop :=
  parses (from_option lineSum "0.0000" (footing inv)) ∧
  ∀ c t, c ∈ charges inv → nc_rate c = Some t ∨ nc_basis c = Some t ∨ nc_amount c = Some t → parses t.

Lemma decimal_or_throw_parses t : parses t → ∃ d, decimal_or_throw t = Ok d.
Proof. intros [d Hd]. exists d. unfold decimal_or_throw. by rewrite Hd. Qed.

Lemma every_res_total {A} (p : A → result DecimalError bool) l :
  (∀ x, x ∈ l → ∃ b, p x = Ok b) → ∃ b, every_res p l = Ok b.
Proof.
  induction l as [|x l IH]; intros Hl; [by eexists|]. simpl.
  destruct (Hl x) as [b ->]; [set_solver|]. rewrite bind_ret_l. destruct b; [|by eexists].
  apply IH. set_solver.
Qed.

Lemma fold_res_total {A B} (f : A → B → result DecimalError A) a l :
  (∀ a x, x ∈ l → ∃ a', f a x = Ok a') → ∃ a', fold_res f a l = Ok a'.
Proof.
  revert a. induction l as [|x l IH]; intros a Hl; [by exists a|].
  rewrite fold_res_cons. destruct (Hl a x) as [a' ->]; [set_solver|]. apply IH. set_solver.
Qed.

Lemma rateBasis_total inv : invoice_decimals_ok inv → ∃ o, rateBasisArithmeticMatches inv = Ok o.
Proof.
  intros [_ Hok]. unfold rateBasisArithmeticMatches. case_match eqn:E; [by eexists|].
  apply orb_false_iff in E as [_ E].
  destruct (every_res_total rate_basis_ok
    (List.filter (λ c, defined (nc_rate c) || defined (nc_basis c)) (charges inv))) as [b ->]; [|by eexists].
  intros c Hc. assert (negb (defined (nc_rate c)) || negb (defined (nc_basis c)) ||
    negb (defined (nc_amount c)) = false) as Hdef.
  { destruct (negb _ || _ || _) eqn:Ec; [|done]. rewrite <- E. symmetry. apply existsb_exists.
    exists c. by rewrite <- list_elem_of_In. }
  apply list_elem_of_In, filter_In in Hc as [Hc%list_elem_of_In _].
  specialize (Hok c). unfold rate_basis_ok.
  destruct (nc_rate c) as [rt|], (nc_basis c) as [bs|], (nc_amount c) as [am|]; try done. simpl.
  destruct (decimal_or_throw_parses rt) as [d1 ->]; [by eauto|]. rewrite bind_ret_l.
  destruct (decimal_or_throw_parses bs) as [d2 ->]; [by eauto|]. rewrite bind_ret_l.
  destruct (decimal_or_throw_parses am) as [d3 ->]; [by eauto 6|]. rewrite bind_ret_l.
  destruct (decimal_or_throw_parses "0.01") as [d4 ->]; [|by eexists].
  destruct (money_new "0.01" 100 eq_refl) as (d & Hd & _). by exists d.
Qed.

Lemma buildFactBundle_total inv contract : invoice_decimals_ok inv →
  ∃ facts, buildFactBundle inv contract = Ok facts.
Proof.
  intros Hok. unfold buildFactBundle. destruct (rateBasis_total inv Hok) as [rb ->].
  destruct Hok as [Hsum Hok]. destruct (decimal_or_throw_parses _ Hsum) as [d ->].
  rewrite !bind_ret_l. destruct (linehaulRate contract) as [rate|]; [|by eexists].
  unfold linehaul_facts. destruct (billedCurrency inv); [|by eexists].
  destruct (fold_res_total (λ acc c, d ← decimal_or_throw (default "" (nc_amount c)); Ok (d_plus acc d))
    (d_of_int 0) (linehaulCharges inv)) as [t ->]; [|by eexists].
  intros a c Hc%list_elem_of_In. apply filter_In in Hc as [Hc%list_elem_of_In Hd].
  apply andb_true_iff in Hd as [_ Hd]. destruct (nc_amount c) as [am|] eqn:Ha; [|done]. simpl.
  destruct (decimal_or_throw_parses am) as [d' ->]; [by eauto 6|]. by eexists.
Qed.

Lemma moneyVarianceDelta_total n facts ev : evaluate n facts = Ok ev →
  ∃ md, moneyVarianceDelta ev = Ok md.
Proof.
  intros Hev%unwrap_evaluates. unfold moneyVarianceDelta.
  destruct (unwrap_require ev) as [[| | | |op l r tol| |] v cs]; simpl ev_node in *; try by eexists.
  rewrite evaluate_compare in Hev. apply bind_Ok in Hev as (x & Hx & Hev).
  apply bind_Ok in Hev as (y & Hy & Hev). apply bind_Ok in Hev as (w & _ & [= -> <-]).
  simpl. apply evaluate_has_units in Hx, Hy.
  destruct (ev_value x) as [|lt lc| | |]; try by eexists.
  destruct (ev_value y) as [|rt rc| | |]; try by eexists.
  destruct Hx as [lu Hlu], Hy as [ru Hru].
  destruct (money_new _ _ Hlu) as (dl & Hdl & _), (money_new _ _ Hru) as (dr & Hdr & _).
  unfold decimal_or_throw. rewrite Hdl, bind_ret_l, Hdr, bind_ret_l. by eexists.
Qed.

Lemma orderedCriteria_elem rubric k c : c ∈ orderedCriteria rubric k → c ∈ criteria rubric.
Proof.
  unfold orderedCriteria. rewrite elem_of_js_sort. intros Hc.
  apply list_elem_of_In, filter_In in Hc as [Hc _]. by apply list_elem_of_In.
Qed.

(** C38: an audit always completes: for every rubric whose tolerances are decimals,
    the standard and contract rubrics among them, and every invoice whose
    amounts, rates and bases are decimals, the evaluation returns a result; no
    fact can make it throw. *)
Theorem evaluateInvoice_total invoice rubric contract :
  Forall (λ c, tolerances_ok (ast c)) (criteria rubric) → invoice_decimals_ok invoice →
  ∃ r, evaluateInvoice invoice rubric contract = Ok r.
Proof.
  intros Htol Hinv. unfold evaluateInvoice.
  destruct (buildFactBundle_total invoice contract Hinv) as [facts ->]. rewrite bind_ret_l.
  rewrite Forall_forall in Htol.
  assert (∀ k c, c ∈ orderedCriteria rubric k → ∃ ev, evaluate (ast c) facts = Ok ev) as Hev.
  { intros k c Hc%orderedCriteria_elem. by apply evaluate_total, Htol. }
  destruct (fold_res_total (λ acc c, ev ← evaluate (ast c) facts; Ok (acc ++ gate_failure c ev)) []
    (orderedCriteria rubric GATING)) as [failures Hg].
  { intros a c Hc. destruct (Hev _ _ Hc) as [ev ->]. by eexists. }
  unfold gate_phase. rewrite Hg, bind_ret_l. case_match; [by eexists|].
  destruct (fold_res_total (score_step facts) score_init (orderedCriteria rubric SCORING)) as [s ->];
    [|by eexists].
  intros a c Hc. destruct (Hev _ _ Hc) as [ev He]. unfold score_step. rewrite He, bind_ret_l.
  destruct (moneyVarianceDelta_total _ _ _ He) as [md ->]. by eexists.
Qed.
End totality.

(** ** The theorems at concrete inputs *)

Section witnesses.
#[local] Existing Instance ExactDecimal.ops.
#[local] Existing Instance ExactDecimal.laws.
#[local] Existing Instance code_unit_collator.
#[local] Existing Instance demo_sha.

Definition demo_charge (category amount : string) : NormalizedCharge :=
  mkCharge (Some "400") None (Some category) false (Some amount) "USD" None None None None.
Definition demo_invoice (total : string) : ParsedInvoice :=
  mkInvoice Set210 "v1" (Some "INV-1") (Some ["S1"]) (Some "SCAC") None None None (Some "USD")
    [demo_charge "LINEHAUL" "500.0000"; demo_charge "FUEL" "20.5000"]
    (Some (mkFooting (Some total) "520.5000")) [].
Definition demo_contract : ContractFacts :=
  mkContract (Some (Some (mkRate "480.0000" "USD" None))) (Some false) (Some true) [].
Definition audit_or (r : result DecimalError AuditResult) : AuditResult :=
  match r with
  | Ok r => r
  | Err _ => mkAuditResult REJECTED_REWORK [] [] None [] (mkPins "" "" "")
  end.
Definition demo_result : AuditResult := Eval vm_compute in
  audit_or (evaluateInvoice (demo_invoice "520.5000") CONTRACT_RUBRIC demo_contract).
Definition demo_rejected : AuditResult := Eval vm_compute in
  audit_or (evaluateInvoice (demo_invoice "521.0000") CONTRACT_RUBRIC demo_contract).

Lemma demo_run : evaluateInvoice (demo_invoice "520.5000") CONTRACT_RUBRIC demo_contract = Ok demo_result.
Proof. vm_compute. reflexivity. Qed.
Lemma demo_run_rejected :
  evaluateInvoice (demo_invoice "521.0000") CONTRACT_RUBRIC demo_contract = Ok demo_rejected.
Proof. vm_compute. reflexivity. Qed.

Lemma evaluateInvoice_gate_then_score_witness :
  map gf_criterionKey (gateFailures demo_rejected) = ["STD.FOOTING"] ∧
  ∃ facts, buildFactBundle (demo_invoice "521.0000") demo_contract = Ok facts ∧
    map gf_criterionKey (gateFailures demo_rejected) =
    map criterionKey (failing_gates facts CONTRACT_RUBRIC).
Proof.
  split; [reflexivity|].
  destruct (evaluateInvoice_gate_then_score _ _ _ _ demo_run_rejected) as (facts & Hf & Hk & _).
  by exists facts.
Defined.

Lemma scorecard_adds_up_witness : ∃ s, scorecard demo_result = Some s ∧
  varianceCount s = count_results VARIANCE (findings demo_result) ∧ totalOvercharge s = "20.0000".
Proof.
  destruct (scorecard demo_result) as [s|] eqn:Es; [|done].
  exists s. split; [done|].
  destruct (scorecard_adds_up _ _ _ _ s demo_run Es) as (_ & Hv & _ & _ & Ht).
  split; [exact Hv|]. destruct Ht as [Ho _]; [vm_compute; reflexivity|]. rewrite Ho. vm_compute. reflexivity.
Defined.

Lemma rate_variance_same_currency_witness : ∃ rate,
  linehaulRate demo_contract = Some (Some rate) ∧
  Forall (λ c, nc_currency c = cr_currency rate) (linehaulCharges (demo_invoice "520.5000")).
Proof.
  destruct (findings demo_result !! 7%nat) as [f|] eqn:Hf; [|done].
  destruct (rate_variance_same_currency _ _ _ f demo_run) as (rate & Hr & _ & _ & Hall).
  - by apply (list_elem_of_lookup_2 _ 7).
  - by injection Hf as <-.
  - by injection Hf as <-.
  - by exists rate.
Defined.

Lemma evaluateInvoice_total_witness :
  ∃ r, evaluateInvoice (demo_invoice "520.5000") CONTRACT_RUBRIC demo_contract = Ok r.
Proof.
  apply evaluateInvoice_total.
  - repeat (constructor; [vm_compute; auto; repeat split; by eexists|]). constructor.
  - split; [by eexists|]. intros c t Hc Ht. simpl in Hc. rewrite !elem_of_cons, elem_of_nil in Hc.
    destruct Hc as [->|[->|[]]]; destruct Ht as [Ht|[Ht|Ht]]; simplify_eq/=; by eexists.
Defined.
End witnesses.
