(* ===== verification/Jsonb.v ===== *)
(** JavaScript objects as JSON values: building them ([obj]), reading their
    properties ([prop] and the readers), and a [jsonb] column, which keeps a
    value up to the order of its keys.  Canonical text does not see that order. *)

From S2P Require Import Prelude JsText Json.

(** ** Objects *)

(** An object literal; a property that is [undefined] leaves no trace in its JSON. *)
Definition obj (l : list (string * option json)) : json :=
  JObject (omap (λ e, (λ v, (e.1, v)) <$> e.2) l).
Definition prop (j : json) (k : string) : option json :=
  match j with JObject l => map_get l k | _ => None end.
Definition json_str (o : option string) : option json := JString <$> o.
Definition json_null (o : option string) : json := match o with Some s => JString s | None => JNull end.

(** ** Reading values *)

Definition as_string (j : json) : option string := match j with JString s => Some s | _ => None end.
Definition as_bool (j : json) : option bool := match j with JBool b => Some b | _ => None end.
Definition as_list {A} (f : json → option A) (j : json) : option (list A) :=
  match j with JArray l => mapM f l | _ => None end.
(** A required property, and one that may be absent. *)
Definition required {A} (f : json → option A) (j : json) (k : string) : option A := prop j k ≫= f.
Definition optional {A} (f : json → option A) (j : json) (k : string) : option (option A) :=
  match prop j k with Some v => Some <$> f v | None => Some None end.
Definition nullable_of {A} (f : json → option A) (j : json) : option (option A) :=
  match j with JNull => Some None | _ => Some <$> f j end.

(** ** [jsonb] *)

(** The key order of [jsonb]: by length, then by code unit. *)
Definition jsonb_compare : string → string → comparison :=
  cmp_then (cmp_on String.length Nat.compare) code_unit_compare.
(** A value read back from a [jsonb] column. *)
Definition jsonb : json → json := sorted_keys jsonb_compare.

(** The keys of every object are distinct, as those of a JavaScript object are. *)
Fixpoint distinct_keys (j : json) : bool :=
  match j with
  | JArray l => forallb distinct_keys l
  | JObject l => bool_decide (NoDup l.*1) && forallb (λ e, distinct_keys e.2) l
  | _ => true
  end.

Section jsonb.
Implicit Types (j : json) (l : list (string * json)).

Lemma omap_keys (l : list (string * option json)) :
  (omap (λ e, (λ v, (e.1, v)) <$> e.2) l).*1 = (filter (λ e, is_Some e.2) l).*1.
Proof.
  induction l as [|[k [v|]] l IH]; [done|..]; cbn [omap list_omap].
  - rewrite filter_cons_True by by eexists.
    cbn. by f_equal.
  - rewrite filter_cons_False by (by intros []). done.
Qed.

(** Reading back a literal. *)
Lemma prop_obj (l : list (string * option json)) k : NoDup l.*1 →
  prop (obj l) k = default None (map_get l k).
Proof.
  intros Hnd. unfold obj, prop. induction l as [|[k' o] l IH]; [done|].
  rewrite fmap_cons in Hnd. apply NoDup_cons in Hnd as [Hk Hnd]. specialize (IH Hnd). simpl.
  assert (k = k' → map_get (omap (λ e : string * option json, (λ v, (e.1, v)) <$> e.2) l) k = None) as Hnone.
  { intros ->. apply map_get_None. rewrite omap_keys. intros (e & -> & He)%list_elem_of_fmap.
    apply list_elem_of_filter in He as [_ He]. apply Hk. exact (list_elem_of_fmap_2 fst _ _ He). }
  destruct o as [v|]; simpl; destruct (decide (k = k')) as [->|]; auto.
Qed.

Lemma distinct_obj (l : list (string * option json)) : NoDup l.*1 →
  Forall (λ e, from_option (λ v, distinct_keys v = true) True e.2) l → distinct_keys (obj l) = true.
Proof.
  intros Hnd Hall. simpl. apply andb_true_iff. split.
  - apply bool_decide_eq_true. rewrite omap_keys. apply (sublist_NoDup _ _ Hnd). by apply fmap_sublist, sublist_filter.
  - clear Hnd. induction Hall as [|[k [v|]] l Hv _ IH]; [done| |done].
    cbn. apply andb_true_iff. by split.
Qed.

Lemma sorted_keys_fst cmp l : (map (λ e : string * json, (e.1, sorted_keys cmp e.2)) l).*1 = l.*1.
Proof. induction l as [|e l IH]; [done|]. cbn. by f_equal. Qed.

(** Reading a property of a stored object. *)
Lemma prop_jsonb j k : distinct_keys j = true → prop (jsonb j) k = jsonb <$> prop j k.
Proof.
  destruct j as [| | | | |l]; try done. cbn [distinct_keys]. intros [Hnd _]%andb_true_iff.
  rewrite bool_decide_eq_true in Hnd. unfold jsonb. cbn [sorted_keys prop].
  set (m := map _ l). assert (NoDup m.*1) as Hm by (unfold m; by rewrite sorted_keys_fst).
  assert (map_get m k = sorted_keys jsonb_compare <$> map_get l k) as <-.
  { unfold m. clear. induction l as [|[k' v] l IH]; [done|]. simpl. by destruct (decide (k = k')). }
  assert (js_sort (cmp_on fst jsonb_compare) m ≡ₚ m) as Hp by apply js_sort_perm.
  assert (NoDup (js_sort (cmp_on fst jsonb_compare) m).*1) as Hm' by by rewrite Hp.
  destruct (map_get m k) as [v|] eqn:E.
  - apply map_get_elem in E. apply map_get_Some; [done|]. by rewrite Hp.
  - apply map_get_None in E. apply map_get_None. by rewrite Hp.
Qed.

Lemma distinct_prop j k v : distinct_keys j = true → prop j k = Some v → distinct_keys v = true.
Proof.
  destruct j as [| | | | |l]; try done. cbn [distinct_keys prop].
  intros [_ H]%andb_true_iff Hv%map_get_elem. rewrite forallb_forall in H.
  apply (H (k, v)). by apply list_elem_of_In.
Qed.

Lemma distinct_sorted cmp j : distinct_keys (sorted_keys cmp j) = distinct_keys j.
Proof.
  induction j as [| | | |l IH|l IH] using json_ind'; simpl; try done.
  - induction IH as [|x l Hx _ IH]; simpl; [done|]. by rewrite Hx, IH.
  - f_equal.
    + apply bool_decide_ext. by rewrite js_sort_perm, sorted_keys_fst.
    + apply eq_true_iff_eq. rewrite !forallb_forall. setoid_rewrite <- list_elem_of_In.
      setoid_rewrite elem_of_js_sort. rewrite Forall_forall in IH. split.
      * intros H e He. rewrite <- IH by done. apply (H (e.1, sorted_keys cmp e.2)).
        by apply (list_elem_of_fmap_2 (λ e : string * json, (e.1, sorted_keys cmp e.2))).
      * intros H e (e' & -> & He')%list_elem_of_fmap. simpl. by rewrite IH; auto.
Qed.

Lemma code_unit_compare_eq s t : code_unit_compare s t = Eq → s = t.
Proof. apply String.compare_eq_iff. Qed.

(** Canonical text sees through a change of key order. *)
Lemma canonical_sorted cmp j : distinct_keys j = true →
  canonical code_unit_compare (sorted_keys cmp j) = canonical code_unit_compare j.
Proof.
  rewrite !canonical_print. intros Hd. f_equal. revert Hd.
  induction j as [| | | |l IH|l IH] using json_ind'; try done; cbn [distinct_keys sorted_keys].
  - intros Hd. f_equal. rewrite map_map. induction IH as [|x l Hx _ IH]; [done|].
    cbn [forallb map] in *. apply andb_true_iff in Hd as [??]. f_equal; auto.
  - intros [Hnd Hall]%andb_true_iff. rewrite bool_decide_eq_true in Hnd. f_equal.
    set (f := λ e : string * json, (e.1, sorted_keys code_unit_compare e.2)).
    set (g := λ e : string * json, (e.1, sorted_keys cmp e.2)).
    assert (map f (map g l) = map f l) as Hfg.
    { clear Hnd. induction IH as [|e l He _ IH]; [done|]. cbn [forallb map] in *.
      apply andb_true_iff in Hall as [??]. f_equal; [|by apply IH]. unfold f, g. simpl. by rewrite He. }
    rewrite <- Hfg. apply (js_sort_unique _).
    + by rewrite js_sort_perm.
    + intros x y Hx Hy Ht%code_unit_compare_eq.
      assert (NoDup (map f (js_sort (cmp_on fst cmp) (map g l))).*1) as Hnd'.
      { unfold f. rewrite sorted_keys_fst, js_sort_perm. unfold g. by rewrite sorted_keys_fst. }
      destruct x as [k v], y as [k' v']. simpl in Ht. subst k'.
      pose proof (map_get_Some _ _ _ Hnd' Hx). pose proof (map_get_Some _ _ _ Hnd' Hy). congruence.
Qed.

Lemma canonical_jsonb j : distinct_keys j = true →
  canonical code_unit_compare (jsonb j) = canonical code_unit_compare j.
Proof. apply canonical_sorted. Qed.

(** Reading a stored object literal. *)
Lemma required_obj {A} (f : json → option A) (l : list (string * option json)) k v : NoDup (map fst l) → distinct_keys (obj l) = true →
  map_get l k = Some (Some v) → required f (jsonb (obj l)) k = f (jsonb v).
Proof. intros Hnd Hd Hk. unfold required. by rewrite prop_jsonb, prop_obj, Hk. Qed.
Lemma optional_obj {A} (f : json → option A) (l : list (string * option json)) k o : NoDup (map fst l) → distinct_keys (obj l) = true →
  map_get l k = Some o →
  optional f (jsonb (obj l)) k = match o with Some v => Some <$> f (jsonb v) | None => Some None end.
Proof. intros Hnd Hd Hk. unfold optional. rewrite prop_jsonb, prop_obj, Hk by done. by destruct o. Qed.
Lemma optional_str (l : list (string * option json)) k o : NoDup (map fst l) → distinct_keys (obj l) = true → map_get l k = Some (json_str o) →
  optional as_string (jsonb (obj l)) k = Some o.
Proof. intros Hnd Hd Hk. rewrite (optional_obj _ _ _ _ Hnd Hd Hk). by destruct o. Qed.
Lemma as_list_jsonb {A B} (f : json → option A) (g : B → json) (h : B → A) (l : list B) :
  (∀ x, x ∈ l → f (jsonb (g x)) = Some (h x)) → as_list f (jsonb (JArray (map g l))) = Some (map h l).
Proof.
  intros H. unfold jsonb. cbn [sorted_keys as_list]. rewrite map_map.
  induction l as [|x l IH]; [done|]. cbn [map mapM]. unfold jsonb in H. rewrite H by set_solver. simpl.
  rewrite IH by set_solver. done.
Qed.
Lemma as_texts_jsonb (l : list string) : as_list as_string (jsonb (JArray (map JString l))) = Some l.
Proof. rewrite (as_list_jsonb as_string JString id); [by rewrite map_id|done]. Qed.
Lemma distinct_array {A} (f : A → json) (l : list A) : (∀ x, x ∈ l → distinct_keys (f x) = true) →
  distinct_keys (JArray (map f l)) = true.
Proof.
  intros H. simpl. apply forallb_forall. intros j (x & <- & Hx%list_elem_of_In)%in_map_iff. by apply H.
Qed.
Lemma distinct_texts (l : list string) : distinct_keys (JArray (map JString l)) = true.
Proof. by apply distinct_array. Qed.
End jsonb.

(** The keys of a literal are distinct. *)
Ltac literal_keys := apply (bool_decide_unpack _); vm_compute; exact I.
Create HintDb jsonb discriminated.
#[export] Hint Resolve distinct_texts : jsonb.
Ltac distinct_literal :=
  apply distinct_obj; [literal_keys|repeat (apply Forall_cons; split); [..|apply Forall_nil_2]; cbn [from_option snd]; try done;
    repeat match goal with |- context [json_str ?o] => destruct o; simpl end; auto with jsonb].
