(* ===== verification/Manifest.v ===== *)
(** The replay manifest ([src/src/modules/audit-ledger/replay-manifest.ts]): the
    JSON of an invoice, its resolved inputs and its audit result, the manifest
    that pins them, its schema and its hash.  The readers are what the replay
    sees of a stored value; reading back what was written gives the value. *)

From S2P Require Import Prelude JsText Decimal Json Interpreter AstJson AuditLedger Rubrics Facts Evaluator Jsonb.
#[local] Open Scope Z_scope.

(** ** Audit results *)

Definition value_json (v : EvalValue) : json :=
  match v with
  | VNumber t => obj [("kind", Some (JString "number")); ("value", Some (JString t))]
  | VMoney a c => obj [("kind", Some (JString "money")); ("amount", Some (JString a)); ("currency", Some (JString c))]
  | VBool b => obj [("kind", Some (JString "bool")); ("value", Some (JBool b))]
  | VString s => obj [("kind", Some (JString "string")); ("value", Some (JString s))]
  | VUnassessable r => obj [("kind", Some (JString "unassessable")); ("reason", Some (JString r))]
  end.
Fixpoint eval_json (ev : EvalNode) : json :=
  match ev with
  | mkEval n v c =>
      obj [("node", Some (ast_json n)); ("value", Some (value_json v));
           ("children", match c with Some l => Some (JArray (map eval_json l)) | None => None end)]
  end.

Definition outcome_text (o : Outcome) : string :=
  match o with REJECTED_REWORK => "REJECTED_REWORK" | SCORED => "SCORED" end.
Definition finding_result_text (r : FindingResult) : string :=
  match r with CONFORMED => "CONFORMED" | VARIANCE => "VARIANCE" | Unassessable => "UNASSESSABLE" end.
Definition direction_text (d : Direction) : string :=
  match d with OVERCHARGE => "OVERCHARGE" | UNDERCHARGE => "UNDERCHARGE" | INTEGRITY_ONLY => "INTEGRITY_ONLY" end.
Definition coverage_code_text (c : CoverageCode) : string :=
  match c with
  | INCOMPLETE_RATE_BASIS => "INCOMPLETE_RATE_BASIS" | FUEL_WITHOUT_RATE_BASIS => "FUEL_WITHOUT_RATE_BASIS"
  | MISSING_CHARGE_IDENTITY => "MISSING_CHARGE_IDENTITY"
  end.
Definition json_num (n : Z) : json := JNumber (JsFinite (fixed 0 n)).

Definition failure_json (g : GateFailure) : json :=
  obj [("criterionKey", Some (JString (gf_criterionKey g))); ("defect", Some (JString (gf_defect g)));
       ("citation", json_str (gf_citation g)); ("evaluatedExpr", Some (eval_json (gf_evaluatedExpr g)))].
Definition finding_json (f : ChargeFinding) : json :=
  obj [("criterionKey", Some (JString (cf_criterionKey f)));
       ("result", Some (JString (finding_result_text (cf_result f))));
       ("evaluatedExpr", Some (eval_json (cf_evaluatedExpr f)));
       ("varianceAmount", Some (json_null (cf_varianceAmount f))); ("currency", Some (json_null (cf_currency f)));
       ("direction", Some (JString (direction_text (cf_direction f))))].
Definition scorecard_json (s : Scorecard) : json :=
  obj [("conformedCount", Some (json_num (conformedCount s))); ("varianceCount", Some (json_num (varianceCount s)));
       ("unassessableCount", Some (json_num (unassessableCount s)));
       ("totalOvercharge", Some (JString (totalOvercharge s)));
       ("totalUndercharge", Some (JString (totalUndercharge s)))].
Definition marker_json (m : CoverageMarker) : json :=
  obj [("chargeIndex", Some (json_num (Z.of_nat (chargeIndex m))));
       ("code", Some (JString (coverage_code_text (cm_code m))));
       ("missingFields", Some (JArray (map JString (missingFields m))))].
Definition pins_json (p : Pins) : json :=
  obj [("parserVersion", Some (JString (pin_parserVersion p)));
       ("engineSpecVersion", Some (JString (pin_engineSpecVersion p)));
       ("rubricContentHash", Some (JString (pin_rubricContentHash p)))].
Definition result_json (r : AuditResult) : json :=
  obj [("outcome", Some (JString (outcome_text (outcome r))));
       ("gateFailures", Some (JArray (map failure_json (gateFailures r))));
       ("findings", Some (JArray (map finding_json (findings r))));
       ("scorecard", Some match scorecard r with Some s => scorecard_json s | None => JNull end);
       ("coverageMarkers", Some (JArray (map marker_json (coverageMarkers r))));
       ("pins", Some (pins_json (pins r)))].

(** ** Invoices *)

Definition set_text (t : TransactionSet) : string :=
  match t with Set210 => "210" | Set310 => "310" | SetPDF => "PDF" end.
Definition set_of_text (s : string) : option TransactionSet :=
  if decide (s = "210") then Some Set210 else if decide (s = "310") then Some Set310
  else if decide (s = "PDF") then Some SetPDF else None.

Definition charge_json (c : NormalizedCharge) : json :=
  obj [("code", json_str (nc_code c)); ("x12Element", json_str (nc_x12Element c));
       ("category", json_str (nc_category c)); ("quarantined", Some (JBool (nc_quarantined c)));
       ("amount", json_str (nc_amount c)); ("rate", json_str (nc_rate c)); ("basis", json_str (nc_basis c));
       ("currency", Some (JString (nc_currency c))); ("rawDescription", json_str (nc_rawDescription c));
       ("sourceLoop", json_str (nc_sourceLoop c))].
Definition charge_of (j : json) : option NormalizedCharge :=
  code ← optional as_string j "code"; x12 ← optional as_string j "x12Element";
  category ← optional as_string j "category"; quarantined ← required as_bool j "quarantined";
  amount ← optional as_string j "amount"; rate ← optional as_string j "rate";
  basis ← optional as_string j "basis"; currency ← required as_string j "currency";
  raw ← optional as_string j "rawDescription"; loop ← optional as_string j "sourceLoop";
  Some (mkCharge code x12 category quarantined amount currency basis rate raw loop).

Definition footing_json (f : Footing) : json :=
  obj [("declaredTotal", json_str (declaredTotal f)); ("lineSum", Some (JString (lineSum f)))].
Definition footing_of (j : json) : option Footing :=
  declared ← optional as_string j "declaredTotal"; sum ← required as_string j "lineSum";
  Some (mkFooting declared sum).

Definition json_texts (o : option (list string)) : option json := (λ l, JArray (map JString l)) <$> o.
Definition invoice_json (i : ParsedInvoice) : json :=
  obj [("transactionSet", Some (JString (set_text (transactionSet i))));
       ("parserVersion", Some (JString (parserVersion i))); ("invoiceNumber", json_str (invoiceNumber i));
       ("shipmentReferences", json_texts (shipmentReferences i)); ("carrierCode", json_str (carrierCode i));
       ("containerNumbers", json_texts (containerNumbers i)); ("vesselVoyage", json_str (vesselVoyage i));
       ("portCodes", json_texts (portCodes i)); ("headerCurrency", json_str (headerCurrency i));
       ("charges", Some (JArray (map charge_json (charges i)))); ("footing", footing_json <$> footing i);
       ("quarantinedCodes", Some (JArray (map JString (quarantinedCodes i))))].
(** [manifest.invoice as unknown as ParsedInvoice], read as the evaluator reads it. *)
Definition invoice_of (j : json) : option ParsedInvoice :=
  set ← required as_string j "transactionSet"; set ← set_of_text set;
  parser ← required as_string j "parserVersion"; number ← optional as_string j "invoiceNumber";
  refs ← optional (as_list as_string) j "shipmentReferences"; scac ← optional as_string j "carrierCode";
  containers ← optional (as_list as_string) j "containerNumbers"; vessel ← optional as_string j "vesselVoyage";
  ports ← optional (as_list as_string) j "portCodes"; header ← optional as_string j "headerCurrency";
  cs ← required (as_list charge_of) j "charges"; foot ← optional footing_of j "footing";
  quarantined ← required (as_list as_string) j "quarantinedCodes";
  Some (mkInvoice set parser number refs scac containers vessel ports header cs foot quarantined).

(** ** Resolved inputs *)

Definition rate_json (r : ContractRate) : json :=
  obj [("amount", Some (JString (cr_amount r))); ("currency", Some (JString (cr_currency r)));
       ("clauseId", Some (json_null (cr_clauseId r)))].
Definition rate_of (j : json) : option ContractRate :=
  amount ← required as_string j "amount"; currency ← required as_string j "currency";
  clause ← required (nullable_of as_string) j "clauseId"; Some (mkRate amount currency clause).

(** [resolvedInputs as unknown as ContractFacts]; no caller records external
    resolutions, and an object that has them is not read. *)
Definition contract_json (c : ContractFacts) : json :=
  obj [("duplicateInvoice", JBool <$> duplicateInvoice c);
       ("shipmentReferenceMatch", JBool <$> shipmentReferenceMatch c);
       ("linehaulRate", (λ r, match r with Some r => rate_json r | None => JNull end) <$> linehaulRate c)].
Definition contract_of (j : json) : option ContractFacts :=
  rate ← optional (nullable_of rate_of) j "linehaulRate"; dup ← optional as_bool j "duplicateInvoice";
  refs ← optional as_bool j "shipmentReferenceMatch";
  match prop j "externalResolutions" with Some _ => None | None => Some (mkContract rate dup refs []) end.

(** ** Reading back what was written *)

Section reading.
Lemma distinct_ast n : distinct_keys (ast_json n) = true.
Proof.
  induction n as [[x|s|b]|a c|k|op args IH|op l r tol IHl IHr|op args IH|k b IH] using AstNode_ind'; try done.
  1,3: simpl; rewrite andb_true_r; apply (distinct_array ast_json); by apply Forall_forall.
  - cbn [ast_json distinct_keys]. destruct tol; simpl; by rewrite IHl, IHr.
  - simpl. by rewrite IH.
Qed.

Section eval_induction.
Variable P : EvalNode → Prop.
Hypothesis HEval : ∀ n v c, from_option (Forall P) True c → P (mkEval n v c).
Fixpoint EvalNode_ind' (ev : EvalNode) : P ev :=
  match ev with
  | mkEval n v c => HEval n v c
      match c with
      | Some l => (fix go l : Forall P l :=
          match l with
          | [] => Forall_nil_2 P
          | x :: l' => Forall_cons_2 P x l' (EvalNode_ind' x) (go l')
          end) l
      | None => I
      end
  end.
End eval_induction.

Lemma distinct_value v : distinct_keys (value_json v) = true.
Proof. by destruct v. Qed.
Lemma distinct_eval ev : distinct_keys (eval_json ev) = true.
Proof.
  induction ev as [n v c IH] using EvalNode_ind'. cbn [eval_json]. distinct_literal.
  - apply distinct_ast.
  - apply distinct_value.
  - destruct c as [l|]; [|done]. apply (distinct_array eval_json). by apply Forall_forall.
Qed.
Lemma distinct_result r : distinct_keys (result_json r) = true.
Proof.
  distinct_literal.
  - apply (distinct_array failure_json). intros g _. distinct_literal. apply distinct_eval.
  - apply (distinct_array finding_json). intros f _. distinct_literal; [apply distinct_eval|by destruct (cf_varianceAmount f)|by destruct (cf_currency f)].
  - by destruct (scorecard r).
  - apply (distinct_array marker_json). intros m _. distinct_literal.
Qed.

Lemma distinct_charge c : distinct_keys (charge_json c) = true.
Proof. distinct_literal. Qed.
Lemma distinct_footing f : distinct_keys (footing_json f) = true.
Proof. distinct_literal. Qed.
Lemma distinct_json_texts o : from_option (λ v, distinct_keys v = true) True (json_texts o).
Proof. destruct o; simpl; [apply distinct_texts|done]. Qed.
Lemma distinct_invoice i : distinct_keys (invoice_json i) = true.
Proof.
  distinct_literal; try apply distinct_json_texts.
  - apply (distinct_array charge_json). intros c _. apply distinct_charge.
  - destruct (footing i); [apply distinct_footing|done].
Qed.
Lemma distinct_contract c : distinct_keys (contract_json c) = true.
Proof.
  distinct_literal; [by destruct (duplicateInvoice c)|by destruct (shipmentReferenceMatch c)|].
  destruct (linehaulRate c) as [[r|]|]; [|done..]. simpl. by destruct (cr_clauseId r).
Qed.

(** One property of a stored literal. *)
Ltac read_with distinct lemma := erewrite lemma; [|literal_keys|apply distinct|reflexivity].

Lemma charge_read c : charge_of (jsonb (charge_json c)) = Some c.
Proof.
  unfold charge_of. pose proof (distinct_charge c) as Hd. unfold charge_json in *.
  repeat (first [read_with Hd optional_str | read_with Hd @required_obj]; cbn [mbind option_bind jsonb sorted_keys as_string as_bool]).
  by destruct c.
Qed.
Lemma footing_read f : footing_of (jsonb (footing_json f)) = Some f.
Proof.
  unfold footing_of. pose proof (distinct_footing f) as Hd. unfold footing_json in *.
  read_with Hd optional_str. cbn [mbind option_bind]. read_with Hd @required_obj. by destruct f.
Qed.
Lemma optional_texts l k o : NoDup (map fst l) → distinct_keys (obj l) = true → map_get l k = Some (json_texts o) →
  optional (as_list as_string) (jsonb (obj l)) k = Some o.
Proof.
  intros Hnd Hd Hk. rewrite (optional_obj _ _ _ _ Hnd Hd Hk). destruct o as [ts|]; [|done].
  cbn [json_texts fmap option_fmap option_map]. by rewrite as_texts_jsonb.
Qed.
Lemma set_of_text_text s : set_of_text (set_text s) = Some s.
Proof. by destruct s. Qed.

(** The stored invoice is the invoice. *)
Lemma invoice_read i : invoice_of (jsonb (invoice_json i)) = Some i.
Proof.
  unfold invoice_of. pose proof (distinct_invoice i) as Hd. unfold invoice_json in *.
  repeat first [read_with Hd optional_str | read_with Hd optional_texts | read_with Hd @required_obj].
  erewrite (optional_obj footing_of); [|literal_keys|apply Hd|reflexivity].
  rewrite (as_list_jsonb charge_of charge_json id) by (intros; apply charge_read).
  rewrite map_id, as_texts_jsonb. cbn [jsonb sorted_keys as_string mbind option_bind].
  rewrite set_of_text_text. cbn [mbind option_bind].
  assert (match footing_json <$> footing i with Some v => Some <$> footing_of (jsonb v) | None => Some None end = Some (footing i)) as ->
    by (destruct (footing i); simpl; [by rewrite footing_read|done]). by destruct i.
Qed.

(** The stored inputs are the inputs, where no external value was resolved. *)
Lemma contract_read c : externalResolutions c = [] → contract_of (jsonb (contract_json c)) = Some c.
Proof.
  intros He. unfold contract_of. pose proof (distinct_contract c) as Hd. unfold contract_json in *.
  erewrite (optional_obj (nullable_of rate_of)); [|literal_keys|apply Hd|reflexivity].
  do 2 (erewrite (optional_obj as_bool); [|literal_keys|apply Hd|reflexivity]).
  rewrite prop_jsonb, prop_obj by (literal_keys || apply Hd). cbn [default map_get]. decide_closed.
  assert (∀ r, nullable_of rate_of (jsonb (rate_json r)) = Some (Some r)) as Hr.
  { intros r. change (Some <$> rate_of (jsonb (rate_json r)) = Some (Some r)). unfold rate_of.
    assert (distinct_keys (rate_json r) = true) as Hdr by (distinct_literal; by destruct (cr_clauseId r)).
    unfold rate_json in *. repeat (read_with Hdr @required_obj; cbn [mbind option_bind jsonb sorted_keys as_string]).
    by destruct r as [? ? []]. }
  destruct c as [[[r|]|] [|] [|] ext]; simpl in *; subst ext; rewrite ?Hr; done.
Qed.
End reading.

(** ** The manifest *)

Record pin := mkPin { pn_id : string; pn_contentHash : option string }.
Record AuditReplayManifest := mkManifest {
  mf_auditRunId : string; mf_clientId : string; mf_engineSpecVersion : string;
  mf_parser : string * string;
  mf_sourceDocuments : list (string * string);
  mf_snapshotId : option string; mf_rubricHash : option string; mf_resolverVersion : option string;
  mf_ruleVersions : list pin; mf_contractVersions : list pin; mf_externalValues : list pin;
  mf_crosswalkRows : list pin; mf_ai : list (string * string);
  mf_resolvedInputs : json; mf_invoice : json; mf_result : json;
}.

Definition pin_json (p : pin) : json :=
  obj [("id", Some (JString (pn_id p))); ("contentHash", json_str (pn_contentHash p))].
Definition source_json (s : string * string) : json :=
  obj [("id", Some (JString s.1)); ("sha256", Some (JString s.2))].
Definition ai_json (a : string * string) : json :=
  obj [("model", Some (JString a.1)); ("promptVersion", Some (JString a.2))].
Definition parser_json (p : string * string) : json :=
  obj [("transactionSet", Some (JString p.1)); ("version", Some (JString p.2))].
Definition rubric_json (m : AuditReplayManifest) : json :=
  obj [("snapshotId", Some (json_null (mf_snapshotId m))); ("contentHash", Some (json_null (mf_rubricHash m)));
       ("resolverVersion", Some (json_null (mf_resolverVersion m)))].
Definition manifest_json (m : AuditReplayManifest) : json :=
  obj [("schemaVersion", Some (JNumber (JsFinite "1")));
       ("auditRunId", Some (JString (mf_auditRunId m))); ("clientId", Some (JString (mf_clientId m)));
       ("engineSpecVersion", Some (JString (mf_engineSpecVersion m))); ("parser", Some (parser_json (mf_parser m)));
       ("sourceDocuments", Some (JArray (map source_json (mf_sourceDocuments m))));
       ("rubric", Some (rubric_json m));
       ("ruleVersions", Some (JArray (map pin_json (mf_ruleVersions m))));
       ("contractVersions", Some (JArray (map pin_json (mf_contractVersions m))));
       ("externalValues", Some (JArray (map pin_json (mf_externalValues m))));
       ("crosswalkRows", Some (JArray (map pin_json (mf_crosswalkRows m))));
       ("ai", Some (JArray (map ai_json (mf_ai m))));
       ("resolvedInputs", Some (mf_resolvedInputs m)); ("invoice", Some (mf_invoice m));
       ("result", Some (mf_result m))].

(** *** The schema *)

(** [/^[a-f0-9]{64}$/] *)
Definition is_sha256_hex (s : string) : bool :=
  (String.length s =? 64)%nat &&
  string_all (λ c, is_digit c || ((97 <=? code c) && (code c <=? 102))%N) s.
Definition text_where (p : string → bool) (j : json) : option string :=
  s ← as_string j; if p s then Some s else None.
(** [.strict()]: no other key. *)
Definition strict (keys : list string) (j : json) : option json :=
  match j with
  | JObject l => if forallb (λ e, bool_decide (e.1 ∈ keys)) l then Some j else None
  | _ => None
  end.
(** [z.string().min(1)] *)
Definition nonempty_text : json → option string := text_where truthy.

Definition pin_of (j : json) : option pin :=
  j ← strict ["id"; "contentHash"] j; i ← required (text_where isUuid) j "id";
  h ← optional (text_where is_sha256_hex) j "contentHash"; Some (mkPin i h).
Definition pair_of (k1 k2 : string) (p1 p2 : string → bool) (j : json) : option (string * string) :=
  j ← strict [k1; k2] j; a ← required (text_where p1) j k1; b ← required (text_where p2) j k2; Some (a, b).
Definition rubric_of (j : json) : option (option string * option string * option string) :=
  j ← strict ["snapshotId"; "contentHash"; "resolverVersion"] j;
  snapshot ← required (nullable_of (text_where isUuid)) j "snapshotId";
  hash ← required (nullable_of (text_where is_sha256_hex)) j "contentHash";
  resolver ← required (nullable_of as_string) j "resolverVersion"; Some (snapshot, hash, resolver).
Definition manifest_keys : list string :=
  ["schemaVersion"; "auditRunId"; "clientId"; "engineSpecVersion"; "parser"; "sourceDocuments"; "rubric";
   "ruleVersions"; "contractVersions"; "externalValues"; "crosswalkRows"; "ai"; "resolvedInputs"; "invoice"; "result"].
Definition schema_version (j : json) : option unit :=
  match j with JNumber (JsFinite "1") => Some tt | _ => None end.

(** [AuditReplayManifestSchema.safeParse] *)
Definition AuditReplayManifestSchema (j : json) : option AuditReplayManifest :=
  j ← strict manifest_keys j;
  _ ← required schema_version j "schemaVersion";
  run ← required (text_where isUuid) j "auditRunId"; client ← required (text_where isUuid) j "clientId";
  engine ← required nonempty_text j "engineSpecVersion";
  parser ← required (pair_of "transactionSet" "version" truthy truthy) j "parser";
  docs ← required (as_list (pair_of "id" "sha256" isUuid is_sha256_hex)) j "sourceDocuments";
  '(snapshot, hash, resolver) ← required rubric_of j "rubric";
  rules ← required (as_list pin_of) j "ruleVersions"; contracts ← required (as_list pin_of) j "contractVersions";
  externals ← required (as_list pin_of) j "externalValues"; crosswalk ← required (as_list pin_of) j "crosswalkRows";
  ai ← required (as_list (pair_of "model" "promptVersion" truthy truthy)) j "ai";
  inputs ← prop j "resolvedInputs"; inv ← prop j "invoice"; res ← prop j "result";
  Some (mkManifest run client engine parser docs snapshot hash resolver rules contracts externals crosswalk ai
          inputs inv res).

(** *** The hash *)

Definition canonicalJson : json → string := canonical code_unit_compare.
(** [canonicalManifestJson]; [None] is the schema throwing. *)
Definition canonicalManifestJson (untrusted : json) : option string :=
  (λ m, canonicalJson (manifest_json m)) <$> AuditReplayManifestSchema untrusted.
Section hash.
Context {H : Sha256}.
Definition replayManifestHash (untrusted : json) : option string :=
  (λ t, hex (sha256 t)) <$> canonicalManifestJson untrusted.
End hash.

(** *** What the schema admits *)

Definition pin_ok (p : pin) : bool := isUuid (pn_id p) && from_option is_sha256_hex true (pn_contentHash p).
Definition manifest_ok (m : AuditReplayManifest) : bool :=
  isUuid (mf_auditRunId m) && isUuid (mf_clientId m) && truthy (mf_engineSpecVersion m) &&
  (truthy (mf_parser m).1 && truthy (mf_parser m).2) &&
  forallb (λ s, isUuid s.1 && is_sha256_hex s.2) (mf_sourceDocuments m) &&
  from_option isUuid true (mf_snapshotId m) && from_option is_sha256_hex true (mf_rubricHash m) &&
  forallb pin_ok (mf_ruleVersions m) && forallb pin_ok (mf_contractVersions m) &&
  forallb pin_ok (mf_externalValues m) && forallb pin_ok (mf_crosswalkRows m) &&
  forallb (λ a, truthy a.1 && truthy a.2) (mf_ai m).

Section schema.
Lemma required_literal {A} (f : json → option A) (l : list (string * option json)) k v : NoDup (map fst l) →
  map_get l k = Some (Some v) → required f (obj l) k = f v.
Proof. intros Hnd Hk. unfold required. by rewrite prop_obj, Hk. Qed.
Lemma optional_literal {A} (f : json → option A) (l : list (string * option json)) k o : NoDup (map fst l) →
  map_get l k = Some o →
  optional f (obj l) k = match o with Some v => Some <$> f v | None => Some None end.
Proof. intros Hnd Hk. unfold optional. rewrite prop_obj, Hk by done. by destruct o. Qed.
Lemma prop_literal (l : list (string * option json)) k v : NoDup (map fst l) → map_get l k = Some (Some v) →
  prop (obj l) k = Some v.
Proof. intros Hnd Hk. by rewrite prop_obj, Hk. Qed.

Lemma text_where_json p s : text_where p (JString s) = if p s then Some s else None.
Proof. done. Qed.
Lemma nullable_json p o : nullable_of (text_where p) (json_null o) = if from_option p true o then Some o else None.
Proof. destruct o as [s|]; [|done]. unfold text_where. simpl. by destruct (p s). Qed.
Lemma as_list_json {A} (f : json → option A) (g : A → json) (p : A → bool) (l : list A) :
  (∀ x, f (g x) = if p x then Some x else None) →
  as_list f (JArray (map g l)) = if forallb p l then Some l else None.
Proof.
  intros H. simpl. induction l as [|x l IH]; [done|]. simpl. rewrite H, IH.
  destruct (p x); [|done]. by destruct (forallb p l).
Qed.
Lemma pin_of_json p : pin_of (pin_json p) = if pin_ok p then Some p else None.
Proof.
  destruct p as [i o]. unfold pin_of, pin_ok. cbn [pn_id pn_contentHash].
  assert (strict ["id"; "contentHash"] (pin_json (mkPin i o)) = Some (pin_json (mkPin i o))) as -> by by destruct o.
  cbn [mbind option_bind]. unfold pin_json. erewrite @required_literal; [|literal_keys|reflexivity].
  erewrite @optional_literal; [|literal_keys|reflexivity]. cbn [pn_id pn_contentHash]. rewrite text_where_json.
  destruct (isUuid i); [|done]. destruct o as [h|]; [|done]. cbn [json_str fmap option_fmap option_map].
  rewrite text_where_json. simpl. by destruct (is_sha256_hex h).
Qed.
Lemma pair_of_json k1 k2 p1 p2 a : k1 ≠ k2 →
  pair_of k1 k2 p1 p2 (obj [(k1, Some (JString a.1)); (k2, Some (JString a.2))]) =
  if p1 a.1 && p2 a.2 then Some a else None.
Proof.
  intros Hk. set (j := obj _). unfold pair_of.
  assert (strict [k1; k2] j = Some j) as ->.
  { unfold j. simpl. by rewrite !bool_decide_eq_true_2 by set_solver. }
  assert (NoDup (map fst [(k1, Some (JString a.1)); (k2, Some (JString a.2))])) as Hnd.
  { cbn [map fst]. apply NoDup_cons. split; [|apply NoDup_singleton]. by rewrite list_elem_of_singleton. }
  cbn [mbind option_bind]. unfold j.
  rewrite (required_literal _ _ k1 (JString a.1) Hnd) by (simpl; by rewrite decide_True).
  rewrite (required_literal _ _ k2 (JString a.2) Hnd) by (simpl; by rewrite decide_False, decide_True).
  rewrite !text_where_json. destruct (p1 a.1); [|done]. simpl. destruct (p2 a.2); [|done]. by destruct a.
Qed.

Lemma rubric_of_json m : rubric_of (rubric_json m) =
  if from_option isUuid true (mf_snapshotId m) && from_option is_sha256_hex true (mf_rubricHash m)
  then Some (mf_snapshotId m, mf_rubricHash m, mf_resolverVersion m) else None.
Proof.
  unfold rubric_of. assert (strict ["snapshotId"; "contentHash"; "resolverVersion"] (rubric_json m) = Some (rubric_json m)) as -> by done.
  cbn [mbind option_bind]. unfold rubric_json.
  repeat (erewrite @required_literal; [|literal_keys|reflexivity]). rewrite !nullable_json.
  destruct (from_option isUuid true (mf_snapshotId m)); [|done].
  destruct (from_option is_sha256_hex true (mf_rubricHash m)); [|done]. by destruct (mf_resolverVersion m).
Qed.

Lemma strict_manifest m : strict manifest_keys (manifest_json m) = Some (manifest_json m).
Proof. done. Qed.

(** The schema admits exactly the well-formed manifests, as they are. *)
Lemma schema_manifest m : AuditReplayManifestSchema (manifest_json m) = if manifest_ok m then Some m else None.
Proof.
  unfold AuditReplayManifestSchema. rewrite strict_manifest. cbn [mbind option_bind]. unfold manifest_json.
  repeat (erewrite @required_literal; [|literal_keys|reflexivity]).
  repeat (erewrite prop_literal; [|literal_keys|reflexivity]).
  unfold nonempty_text. rewrite !text_where_json. unfold source_json, ai_json, parser_json.
  rewrite !(as_list_json pin_of pin_json pin_ok) by apply pin_of_json.
  rewrite (as_list_json (pair_of "id" "sha256" isUuid is_sha256_hex) (λ s, obj _) (λ s, isUuid s.1 && is_sha256_hex s.2))
    by (intros; by apply pair_of_json).
  rewrite (as_list_json (pair_of "model" "promptVersion" truthy truthy) (λ a, obj _) (λ a, truthy a.1 && truthy a.2))
    by (intros; by apply pair_of_json).
  rewrite pair_of_json by done.
  rewrite rubric_of_json. cbn [schema_version mbind option_bind]. unfold manifest_ok.
  destruct (isUuid (mf_auditRunId m)); [|done]. destruct (isUuid (mf_clientId m)); [|done].
  destruct (truthy (mf_engineSpecVersion m)); [|done]. destruct (truthy (mf_parser m).1 && _); [|done].
  destruct (forallb _ (mf_sourceDocuments m)); [|done]. cbn [andb mbind option_bind].
  destruct (from_option isUuid true (mf_snapshotId m)); [|done].
  destruct (from_option is_sha256_hex true (mf_rubricHash m)); [|done]. cbn [andb mbind option_bind].
  destruct (forallb pin_ok (mf_ruleVersions m)); [|done]. destruct (forallb pin_ok (mf_contractVersions m)); [|done].
  destruct (forallb pin_ok (mf_externalValues m)); [|done]. destruct (forallb pin_ok (mf_crosswalkRows m)); [|done].
  destruct (forallb _ (mf_ai m)); [|done]. by destruct m.
Qed.
End schema.

(** *** A manifest in its column *)

(** The manifest read back: its free-form parts have their keys reordered. *)
Definition stored (m : AuditReplayManifest) : AuditReplayManifest :=
  mkManifest (mf_auditRunId m) (mf_clientId m) (mf_engineSpecVersion m) (mf_parser m) (mf_sourceDocuments m)
    (mf_snapshotId m) (mf_rubricHash m) (mf_resolverVersion m) (mf_ruleVersions m) (mf_contractVersions m)
    (mf_externalValues m) (mf_crosswalkRows m) (mf_ai m)
    (jsonb (mf_resolvedInputs m)) (jsonb (mf_invoice m)) (jsonb (mf_result m)).

Section stored.
(** A reader that does not see the order of keys. *)
Definition key_blind {A} (f : json → option A) : Prop := ∀ j, distinct_keys j = true → f (jsonb j) = f j.

Lemma text_where_blind p : key_blind (text_where p).
Proof. by intros [] _. Qed.
Lemma as_string_blind : key_blind as_string.
Proof. by intros [] _. Qed.
Lemma nullable_blind {A} (f : json → option A) : key_blind f → key_blind (nullable_of f).
Proof. intros Hf j Hd. pose proof (Hf j Hd) as H. by destruct j; simpl in *; rewrite ?H. Qed.
Lemma as_list_blind {A} (f : json → option A) : key_blind f → key_blind (as_list f).
Proof.
  intros Hf [] Hd; try done. unfold jsonb. cbn [sorted_keys as_list distinct_keys] in *.
  induction items as [|x l IH]; [done|]. cbn [forallb map mapM] in *. apply andb_true_iff in Hd as [Hx Hl].
  fold (jsonb x). rewrite (Hf x Hx). by rewrite IH.
Qed.
Lemma required_blind {A} (f : json → option A) k : key_blind f → key_blind (λ j, required f j k).
Proof.
  intros Hf j Hd. unfold required. rewrite prop_jsonb by done. destruct (prop j k) as [v|] eqn:E; [|done].
  apply Hf. by eapply distinct_prop.
Qed.
Lemma optional_blind {A} (f : json → option A) k : key_blind f → key_blind (λ j, optional f j k).
Proof.
  intros Hf j Hd. unfold optional. rewrite prop_jsonb by done. destruct (prop j k) as [v|] eqn:E; [|done].
  simpl. by rewrite Hf by by eapply distinct_prop.
Qed.
Lemma strict_jsonb keys j : strict keys (jsonb j) = jsonb <$> strict keys j.
Proof.
  destruct j as [| | | | |l]; try done. unfold jsonb. cbn [sorted_keys strict].
  set (m := map _ l). assert (forallb (λ e : string * json, bool_decide (e.1 ∈ keys)) (js_sort (cmp_on fst jsonb_compare) m) =
    forallb (λ e, bool_decide (e.1 ∈ keys)) l) as ->; [|by destruct (forallb _ l)].
  apply eq_true_iff_eq. rewrite !forallb_forall. setoid_rewrite <- list_elem_of_In.
  setoid_rewrite elem_of_js_sort. unfold m. split.
  - intros H e He. apply (H (e.1, sorted_keys jsonb_compare e.2)).
    by apply (list_elem_of_fmap_2 (λ e : string * json, (e.1, sorted_keys jsonb_compare e.2))).
  - intros H e (e' & -> & He')%list_elem_of_fmap. by apply (H e').
Qed.
Lemma strict_Some keys j j' : strict keys j = Some j' → j' = j.
Proof. destruct j; try done. simpl. by destruct (forallb _ _); intros [= <-]. Qed.
Lemma strict_blind {A} keys (f : json → option A) : key_blind f → key_blind (λ j, j ← strict keys j; f j).
Proof.
  intros Hf j Hd. rewrite strict_jsonb. destruct (strict keys j) as [j'|] eqn:E; [|done].
  apply strict_Some in E as ->. simpl. by apply Hf.
Qed.
Lemma bind_blind {A B} (f : json → option A) (g : A → json → option B) : key_blind f → (∀ a, key_blind (g a)) →
  key_blind (λ j, a ← f j; g a j).
Proof. intros Hf Hg j Hd. rewrite Hf by done. destruct (f j); [|done]. by apply Hg. Qed.
Lemma const_blind {A} (o : option A) : key_blind (λ _, o).
Proof. by intros j. Qed.

Lemma pin_of_blind : key_blind pin_of.
Proof.
  apply strict_blind, bind_blind; [apply required_blind, text_where_blind|intros i].
  apply bind_blind; [apply optional_blind, text_where_blind|intros h; apply const_blind].
Qed.
Lemma pair_of_blind k1 k2 p1 p2 : key_blind (pair_of k1 k2 p1 p2).
Proof.
  apply strict_blind, bind_blind; [apply required_blind, text_where_blind|intros a].
  apply bind_blind; [apply required_blind, text_where_blind|intros b; apply const_blind].
Qed.
Lemma schema_version_blind : key_blind schema_version.
Proof. by intros [] _. Qed.

Lemma rubric_of_blind : key_blind rubric_of.
Proof.
  apply strict_blind, bind_blind; [apply required_blind, nullable_blind, text_where_blind|intros a].
  apply bind_blind; [apply required_blind, nullable_blind, text_where_blind|intros b].
  apply bind_blind; [apply required_blind, nullable_blind, as_string_blind|intros c; apply const_blind].
Qed.

(** Reading a stored manifest. *)
Lemma schema_jsonb j : distinct_keys j = true →
  AuditReplayManifestSchema (jsonb j) = stored <$> AuditReplayManifestSchema j.
Proof.
  intros Hd. unfold AuditReplayManifestSchema, nonempty_text. rewrite strict_jsonb.
  destruct (strict manifest_keys j) as [j'|] eqn:E; [|done]. apply strict_Some in E as ->.
  cbn [fmap option_fmap option_map mbind option_bind].
  repeat match goal with
  | |- context [required ?f (jsonb j) ?k] =>
      first [rewrite (required_blind f k schema_version_blind j Hd)
            |rewrite (required_blind f k (text_where_blind _) j Hd)
            |rewrite (required_blind f k rubric_of_blind j Hd)
            |rewrite (required_blind f k (pair_of_blind _ _ _ _) j Hd)
            |rewrite (required_blind f k (as_list_blind _ pin_of_blind) j Hd)
            |rewrite (required_blind f k (as_list_blind _ (pair_of_blind _ _ _ _)) j Hd)]
  end.
  rewrite !prop_jsonb by done.
  destruct (required rubric_of j "rubric") as [[[snapshot hash] resolver]|]; cbn [mbind option_bind];
  repeat match goal with
  | |- context [required ?f j ?k] => destruct (required f j k) as [?|]; [|done]; cbn [mbind option_bind]
  end; [|done].
  destruct (prop j "resolvedInputs"); [|done]. destruct (prop j "invoice"); [|done]. by destruct (prop j "result").
Qed.

Definition parts_distinct (m : AuditReplayManifest) : Prop :=
  distinct_keys (mf_resolvedInputs m) = true ∧ distinct_keys (mf_invoice m) = true ∧ distinct_keys (mf_result m) = true.
Lemma distinct_pins l : distinct_keys (JArray (map pin_json l)) = true.
Proof. apply (distinct_array pin_json). intros p _. distinct_literal. Qed.
Lemma distinct_manifest m : parts_distinct m → distinct_keys (manifest_json m) = true.
Proof.
  intros (H1 & H2 & H3). distinct_literal.
  - apply (distinct_array source_json). intros s _. distinct_literal.
  - distinct_literal; [by destruct (mf_snapshotId m)|by destruct (mf_rubricHash m)|by destruct (mf_resolverVersion m)].
  - apply distinct_pins.
  - apply distinct_pins.
  - apply distinct_pins.
  - apply distinct_pins.
  - apply (distinct_array ai_json). intros a _. distinct_literal.
Qed.

Lemma canonical_obj_ext (l l' : list (string * option json)) :
  Forall2 (λ e e', e.1 = e'.1 ∧ canonicalJson <$> e.2 = canonicalJson <$> e'.2) l l' →
  canonicalJson (obj l) = canonicalJson (obj l').
Proof.
  intros H.
  assert (∀ l : list (string * option json), map (λ e, (e.1, canonicalJson e.2)) (omap (λ e, (λ v, (e.1, v)) <$> e.2) l) =
    omap (λ e, (λ v, (e.1, v)) <$> e.2) (map (λ e, (e.1, canonicalJson <$> e.2)) l)) as Hmap.
  { induction l0 as [|[k [v|]] l0 IH]; [done|..]; cbn; [by rewrite IH|exact IH]. }
  unfold canonicalJson, obj in *. cbn [canonical]. do 3 f_equal. rewrite !Hmap. f_equal.
  induction H as [|[k o] [k' o'] l l' [Hk Ho] _ IH]; [done|]. simpl in Hk, Ho |- *. by rewrite Hk, Ho, IH.
Qed.

(** The column keeps the manifest's canonical text, hence its hash. *)
Lemma canonical_stored m : parts_distinct m →
  canonicalJson (manifest_json (stored m)) = canonicalJson (manifest_json m).
Proof.
  intros (H1 & H2 & H3). unfold manifest_json. apply canonical_obj_ext.
  repeat (apply Forall2_cons; split; [split; [done|]; try done; cbn [fmap option_fmap option_map snd]; f_equal;
    by apply canonical_jsonb|]). by apply Forall2_nil.
Qed.
Lemma manifest_ok_stored m : manifest_ok (stored m) = manifest_ok m.
Proof. done. Qed.
Lemma hash_stored `{Sha256} m : parts_distinct m →
  replayManifestHash (manifest_json (stored m)) = replayManifestHash (manifest_json m).
Proof.
  intros Hd. unfold replayManifestHash, canonicalManifestJson. rewrite !schema_manifest, manifest_ok_stored.
  destruct (manifest_ok m); [|done]. simpl. by rewrite canonical_stored.
Qed.
End stored.
