(* ===== verification/X12.v ===== *)
(** The X12 reader ([src/src/modules/ingestion/x12.ts]) and the 210 and 310
    adapters ([edi-envelope.ts], [parse-210.ts], [parse-310.ts]): from the raw
    text of an interchange to the normalized invoice the evaluator audits.  The
    reader is shown to invert a printer, and the normalized invoice to hold only
    what the document states. *)

From S2P Require Import Prelude JsText Decimal Interpreter Facts.
#[local] Open Scope Z_scope.

(** ** The reader *)

Record X12Segment := mkSegment { tag : string; elements : list string }.
Record X12Delimiters := mkDelimiters { element : ascii; segment : ascii; component : ascii }.
Record X12Interchange := mkInterchange { delimiters : X12Delimiters; segments : list X12Segment }.

(** [X12ParseError], the envelope's plain [Error], and [new Decimal] throwing. *)
Inductive edi_error : Set :=
  | X12ParseError (message : string)
  | EnvelopeError (message : string)
  | AmountThrew.

(** [s.split(c)] for a one-character separator. *)
Fixpoint split_on (c : ascii) (s : string) : list string :=
  match s with
  | "" => [""]
  | String d s' =>
      if decide (d = c) then "" :: split_on c s'
      else match split_on c s' with
           | p :: ps => String d p :: ps
           | [] => [String d ""]
           end
  end.

(** The loop of [readIsaDelimiters] on the text from [idx] on. *)
Fixpoint walk_separators (e : ascii) (rest : string) (idx seps : nat) : nat * nat :=
  match rest with
  | "" => (idx, seps)
  | String c rest' =>
      if (seps <? 16)%nat then walk_separators e rest' (S idx) (if decide (c = e) then S seps else seps)
      else (idx, seps)
  end.
(** [s.slice(n)] *)
Fixpoint slice_from (n : nat) (s : string) : string :=
  match n, s with
  | S n', String _ s' => slice_from n' s'
  | O, _ => s
  | _, "" => ""
  end.

Definition readIsaDelimiters (raw : string) : result edi_error X12Delimiters :=
  match String.index 0 "ISA" raw with
  | None => Err (X12ParseError "no ISA segment found")
  | Some isaPos =>
      match String.get (isaPos + 3) raw with
      | None => Err (X12ParseError "cannot read element separator from ISA")
      | Some e =>
          let (idx, seps) := walk_separators e (slice_from isaPos raw) isaPos 0 in
          if (seps <? 16)%nat then Err (X12ParseError "ISA segment is truncated (fewer than 16 elements)")
          else match String.get idx raw, String.get (idx + 1) raw with
               | Some comp, Some seg => Ok (mkDelimiters e seg comp)
               | _, _ => Err (X12ParseError "cannot read ISA16 / segment terminator")
               end
      end
  end.

(** One round of [parseX12]'s loop. *)
Definition read_chunk (d : X12Delimiters) (chunk : string) : option X12Segment :=
  let trimmed := trim chunk in
  if decide (trimmed = "") then None
  else let parts := split_on (element d) trimmed in
       let t := default "" (head parts) in
       if decide (t = "") then None else Some (mkSegment t (tail parts)).

Definition parseX12 (raw : string) : result edi_error X12Interchange :=
  d ← readIsaDelimiters raw;
  match omap (read_chunk d) (split_on (segment d) raw) with
  | [] => Err (X12ParseError "no segments parsed")
  | segs => Ok (mkInterchange d segs)
  end.

Definition segmentsByTag (ix : X12Interchange) (t : string) : list X12Segment :=
  List.filter (λ s, bool_decide (tag s = t)) (segments ix).
Definition firstSegment (ix : X12Interchange) (t : string) : option X12Segment :=
  List.find (λ s, bool_decide (tag s = t)) (segments ix).
(** [el(segment, n)], [n] from 1. *)
Definition el (s : option X12Segment) (n : nat) : option string :=
  match s with
  | None => None
  | Some s => match elements s !! (n - 1)%nat with Some "" | None => None | Some v => Some v end
  end.

(** ** The shared envelope *)

Definition parseEdiEnvelope (raw expectedGroup : string) : result edi_error X12Interchange :=
  ix ← parseX12 raw;
  match el (firstSegment ix "GS") 1 with
  | Some gs01 =>
      if decide (gs01 = expectedGroup) then Ok ix
      else Err (EnvelopeError ("expected GS01=" +:+ expectedGroup +:+ " for this transaction set, got " +:+ gs01))
  | None => Ok ix
  end.

(** The invoice number and the declared total. *)
Definition readB3Header (ix : X12Interchange) : option string * option string :=
  let b3 := firstSegment ix "B3" in (el b3 2, el b3 7).

Fixpoint normalize_from (seen : list string) (values : list (option string)) : list string :=
  match values with
  | [] => []
  | v :: vs =>
      let normalized := default "" (trim <$> v) in
      if bool_decide (normalized = "") || bool_decide (to_lower normalized ∈ seen) then normalize_from seen vs
      else normalized :: normalize_from (to_lower normalized :: seen) vs
  end.
Definition normalizeReferences (values : list (option string)) : list string := normalize_from [] values.

Definition Categorize : Type := option string → option string.
Definition ResolveCurrency : Type := X12Segment → option string.

Section adapters.
Context {D : DecimalJs}.

Definition build_charge (categorize : Categorize) (resolveCurrency : ResolveCurrency) (sourceLoop : string)
    (l1 : X12Segment) : NormalizedCharge :=
  let amount := money (el (Some l1) 4) in
  let code := el (Some l1) 8 in
  let category := categorize code in
  {| nc_code := code; nc_x12Element := Some "L1"; nc_category := category;
     nc_quarantined := (defined code && negb (defined category)) || negb (defined amount);
     nc_amount := amount; nc_currency := default "" (resolveCurrency l1);
     nc_basis := money (el (Some l1) 17); nc_rate := money (el (Some l1) 2); nc_rawDescription := el (Some l1) 12;
     nc_sourceLoop := Some sourceLoop |}.
Definition quarantined_code (categorize : Categorize) (l1 : X12Segment) : option string :=
  c ← el (Some l1) 8; match categorize (Some c) with None => Some c | Some _ => None end.

Definition buildCharges (ix : X12Interchange) (categorize : Categorize) (resolveCurrency : ResolveCurrency)
    (sourceLoop : string) : list NormalizedCharge * list string :=
  let l1s := segmentsByTag ix "L1" in
  (map (build_charge categorize resolveCurrency sourceLoop) l1s, omap (quarantined_code categorize) l1s).

Definition buildFooting (declared : option string) (charges : list NormalizedCharge) : result edi_error Footing :=
  match sumMoney (map nc_amount charges) with
  | Ok sum => Ok (mkFooting (declared ≫= λ t, money (Some t)) sum)
  | Err _ => Err AmountThrew
  end.

(** ** The adapters *)

Definition PARSER_210_VERSION : string := "210-v1".
Definition PARSER_310_VERSION : string := "310-v1".

Definition parse210 (raw : string) (categorize : Categorize) : result edi_error ParsedInvoice :=
  ix ← parseEdiEnvelope raw "IM";
  let '(invoice_number, declared) := readB3Header ix in
  let b3 := firstSegment ix "B3" in
  let header := "USD" in
  let '(cs, quarantined) := buildCharges ix categorize (λ _, Some header) "L0/L1" in
  foot ← buildFooting declared cs;
  Ok {| transactionSet := Set210; parserVersion := PARSER_210_VERSION; invoiceNumber := invoice_number;
        shipmentReferences := Some (normalizeReferences [el b3 3]); carrierCode := el b3 11;
        containerNumbers := None; vesselVoyage := None; portCodes := None;
        headerCurrency := Some header; charges := cs; footing := Some foot; quarantinedCodes := quarantined |}.

(** [prefix && number ? prefix + number : undefined] *)
Definition container_number (s : X12Segment) : option string :=
  prefix ← el (Some s) 1; number ← el (Some s) 2; Some (prefix +:+ number).
(** [a ?? b] *)
Definition orElse {A} (a b : option A) : option A := match a with Some _ => a | None => b end.
Definition charge_currency_310 (ix : X12Interchange) (l1 : X12Segment) : option string :=
  orElse (el (Some l1) 20) (el (firstSegment ix "C3") 1).

Definition parse310 (raw : string) (categorize : Categorize) : result edi_error ParsedInvoice :=
  ix ← parseEdiEnvelope raw "IO";
  let '(invoice_number, declared) := readB3Header ix in
  let vessel := firstSegment ix "V1" in
  let '(cs, quarantined) := buildCharges ix categorize (charge_currency_310 ix) "L1" in
  foot ← buildFooting declared cs;
  Ok {| transactionSet := Set310; parserVersion := PARSER_310_VERSION; invoiceNumber := invoice_number;
        shipmentReferences := Some (normalizeReferences (map (λ s, el (Some s) 2) (segmentsByTag ix "N9")));
        carrierCode := None;
        containerNumbers := Some (normalizeReferences (map container_number (segmentsByTag ix "N7")));
        vesselVoyage := head (normalizeReferences [orElse (el vessel 4) (orElse (el vessel 2) (el vessel 1))]);
        portCodes := Some (normalizeReferences
          (map (λ s, orElse (el (Some s) 2) (el (Some s) 3)) (segmentsByTag ix "R4")));
        headerCurrency := el (firstSegment ix "C3") 1; charges := cs; footing := Some foot;
        quarantinedCodes := quarantined |}.
End adapters.

(** ** The printer the reader inverts *)

(** A segment's text, and an interchange's: each segment ends with the
    terminator and any white space the sender puts after it. *)
Definition segment_text (e : ascii) (s : X12Segment) : string := join (String e "") (tag s :: elements s).
Fixpoint interchange_text (d : X12Delimiters) (segs : list (X12Segment * string)) : string :=
  match segs with
  | [] => ""
  | (s, space) :: segs' =>
      segment_text (element d) s +:+ String (segment d) (space +:+ interchange_text d segs')
  end.

Definition avoids (c : ascii) (s : string) : bool := string_all (λ x, negb (bool_decide (x = c))) s.
(** A segment a sender may write: a tag, and no delimiter nor outer white space
    in its text. *)
Definition segment_ok (d : X12Delimiters) (s : X12Segment) : bool :=
  negb (bool_decide (tag s = "")) &&
  forallb (avoids (element d)) (tag s :: elements s) &&
  avoids (segment d) (segment_text (element d) s) &&
  bool_decide (trim (segment_text (element d) s) = segment_text (element d) s).
(** The envelope: the tag ISA and sixteen elements, the last of which is the
    component separator. *)
Definition isa_ok (d : X12Delimiters) (s : X12Segment) : bool :=
  bool_decide (tag s = "ISA") && (length (elements s) =? 16)%nat &&
  bool_decide (elements s !! 15%nat = Some (String (component d) "")).
Definition space_ok (d : X12Delimiters) (space : string) : bool :=
  string_all is_ws space && avoids (segment d) space.
Definition interchange_ok (d : X12Delimiters) (segs : list (X12Segment * string)) : bool :=
  match segs with
  | (isa, _) :: _ => isa_ok d isa
  | [] => false
  end && forallb (λ p, segment_ok d p.1 && space_ok d p.2) segs.

Section roundtrip.
Implicit Types (s r : string) (c e : ascii).

Lemma avoids_cons c d s : avoids c (String d s) = true ↔ d ≠ c ∧ avoids c s = true.
Proof. unfold avoids. simpl. by rewrite andb_true_iff, negb_true_iff, bool_decide_eq_false. Qed.

Lemma avoids_app c s r : avoids c (s +:+ r) = true ↔ avoids c s = true ∧ avoids c r = true.
Proof. induction s as [|d s IH]; simpl; [naive_solver|]. rewrite !avoids_cons, IH. naive_solver. Qed.

Lemma split_on_avoids c s : avoids c s = true → split_on c s = [s].
Proof.
  induction s as [|d s IH]; [done|]. rewrite avoids_cons. intros [Hd Hs]. simpl.
  rewrite decide_False by done. by rewrite IH.
Qed.

Lemma split_on_app c s r : avoids c s = true → split_on c (s +:+ String c r) = s :: split_on c r.
Proof.
  induction s as [|d s IH]; simpl; [by rewrite decide_True|]. rewrite avoids_cons. intros [Hd Hs].
  rewrite decide_False by done. by rewrite IH.
Qed.

Lemma split_join c ps : ps ≠ [] → forallb (avoids c) ps = true → split_on c (join (String c "") ps) = ps.
Proof.
  induction ps as [|p ps IH]; [done|]. intros _ [Hp Hps]%andb_true_iff.
  destruct ps as [|q ps]; [by apply split_on_avoids|].
  change (join (String c "") (p :: q :: ps)) with (p +:+ String c (join (String c "") (q :: ps))).
  rewrite split_on_app by done. by rewrite IH.
Qed.

Lemma trim_start_space w r : string_all is_ws w = true → trim_start (w +:+ r) = trim_start r.
Proof. induction w as [|c w IH]; simpl; [done|]. intros [-> Hw]%andb_true_iff. by apply IH. Qed.

Lemma trim_space w r : string_all is_ws w = true → trim (w +:+ r) = trim r.
Proof. intros Hw. unfold trim. by rewrite trim_start_space. Qed.

Lemma read_chunk_segment d w (s : X12Segment) : string_all is_ws w = true → segment_ok d s = true →
  read_chunk d (w +:+ segment_text (element d) s) = Some s.
Proof.
  unfold segment_ok. rewrite !andb_true_iff, negb_true_iff, bool_decide_eq_false, bool_decide_eq_true.
  intros Hw [[[Ht Hp] _] Htrim]. unfold read_chunk. rewrite trim_space, Htrim by done.
  assert (split_on (element d) (segment_text (element d) s) = tag s :: elements s) as Hsplit
    by by apply split_join.
  rewrite decide_False.
  - rewrite Hsplit. simpl. rewrite decide_False by done. by destruct s.
  - intros E. rewrite E in Hsplit. simpl in Hsplit. congruence.
Qed.

(** Every segment is read back, in order. *)
Lemma read_chunks d segs w : space_ok d w = true →
  forallb (λ p, segment_ok d p.1 && space_ok d p.2) segs = true →
  omap (read_chunk d) (split_on (segment d) (w +:+ interchange_text d segs)) = segs.*1.
Proof.
  revert w. induction segs as [|[s w'] segs IH]; intros w Hw Hsegs; simpl in Hsegs.
  all: unfold space_ok in Hw; apply andb_true_iff in Hw as [Hws Hwa].
  - simpl. rewrite append_nil_r, split_on_avoids by done. simpl. unfold read_chunk.
    rewrite <- (append_nil_r w), trim_space by done. done.
  - rewrite !andb_true_iff in Hsegs. destruct Hsegs as [[Hs Hw'] Hsegs]. cbn [interchange_text].
    rewrite <- sapp_assoc, split_on_app.
    + cbn [omap list_omap]. rewrite read_chunk_segment by done. cbn [fmap list_fmap fst]. f_equal. by apply IH.
    + apply avoids_app. split; [done|]. unfold segment_ok in Hs. rewrite !andb_true_iff in Hs. naive_solver.
Qed.

(** The separators of the envelope. *)
Definition separated e (ps : list string) : string := foldr (λ p acc, p +:+ String e acc) "" ps.

Lemma join_snoc e ps p : join (String e "") (ps ++ [p]) = separated e ps +:+ p.
Proof.
  induction ps as [|q ps IH]; [done|]. cbn [app].
  replace (join (String e "") (q :: ps ++ [p])) with (q +:+ String e "" +:+ join (String e "") (ps ++ [p]))
    by (by destruct ps). rewrite IH. simpl. by rewrite !sapp_assoc.
Qed.

Lemma walk_part e s r idx seps : avoids e s = true → (seps < 16)%nat →
  walk_separators e (s +:+ r) idx seps = walk_separators e r (String.length s + idx) seps.
Proof.
  revert idx. induction s as [|c s IH]; intros idx; [done|]. rewrite avoids_cons. intros [Hc Hs] Hk. simpl.
  rewrite (proj2 (Nat.ltb_lt _ _)), decide_False, IH by done. by rewrite Nat.add_succ_r.
Qed.

Lemma walk_separated e ps r idx seps : forallb (avoids e) ps = true → (seps + length ps ≤ 16)%nat →
  walk_separators e (separated e ps +:+ r) idx seps =
  walk_separators e r (String.length (separated e ps) + idx) (seps + length ps).
Proof.
  revert idx seps. induction ps as [|p ps IH]; intros idx seps; simpl; [by rewrite Nat.add_0_r|].
  intros [Hp Hps]%andb_true_iff Hk. rewrite sapp_assoc, walk_part by (done || lia). simpl.
  rewrite (proj2 (Nat.ltb_lt _ _)), decide_True by (done || lia).
  rewrite IH by (done || lia). rewrite sapp_length. simpl. f_equal; lia.
Qed.

Lemma walk_done e r idx seps : (16 ≤ seps)%nat → walk_separators e r idx seps = (idx, seps).
Proof. intros H. destruct r; simpl; [done|]. by rewrite (proj2 (Nat.ltb_ge _ _)). Qed.

Lemma get_app s r n : String.get (String.length s + n) (s +:+ r) = String.get n r.
Proof. by induction s. Qed.

Lemma read_delimiters d (s : X12Segment) r : segment_ok d s = true → isa_ok d s = true →
  readIsaDelimiters (segment_text (element d) s +:+ String (segment d) r) = Ok d.
Proof.
  unfold segment_ok, isa_ok. rewrite !andb_true_iff, !bool_decide_eq_true, Nat.eqb_eq.
  intros [[[_ Hp] _] _] [[Ht Hlen] Hlast].
  apply take_drop_middle in Hlast. set (front := take 15 (elements s)) in *.
  assert (drop 16 (elements s) = []) as Hd by (by apply drop_ge; lia). rewrite Hd in Hlast.
  assert (length front = 15%nat) as Hf by (unfold front; rewrite length_take; lia).
  assert (segment_text (element d) s = separated (element d) (tag s :: front) +:+ String (component d) "") as Htext.
  { unfold segment_text. rewrite <- Hlast. apply (join_snoc _ (tag s :: front)). }
  rewrite Htext, sapp_assoc. simpl (String (component d) "" +:+ _).
  set (pre := separated _ _). set (rest := String (component d) _).
  assert (∃ u, pre = "ISA" +:+ String (element d) u) as [u Hu].
  { unfold pre. simpl. rewrite Ht. by eexists. }
  unfold readIsaDelimiters.
  assert (String.index 0 "ISA" (pre +:+ rest) = Some 0%nat) as -> by (rewrite Hu; by destruct (u +:+ rest)).
  assert (String.get (0 + 3) (pre +:+ rest) = Some (element d)) as -> by by rewrite Hu.
  cbn [slice_from]. unfold pre at 1. rewrite walk_separated.
  - rewrite walk_done by (simpl; lia). rewrite (proj2 (Nat.ltb_ge _ _)) by (simpl; lia).
    fold pre. rewrite <- Nat.add_assoc, !get_app. by destruct d.
  - rewrite <- Hlast in Hp. rewrite Ht in *. simpl in Hp |- *. rewrite forallb_app in Hp. 
    rewrite !andb_true_iff in Hp. rewrite andb_true_iff. naive_solver.
  - simpl. lia.
Qed.
End roundtrip.

(** C40: the X12 reader inverts the printer: an interchange written with any
    delimiters, any segments that avoid them, and any white space after the
    terminators is read back exactly: the delimiters and the segments, in order. *)
Theorem parseX12_roundtrip d segs : interchange_ok d segs = true →
  parseX12 (interchange_text d segs) = Ok (mkInterchange d segs.*1).
Proof.
  unfold interchange_ok. rewrite andb_true_iff. intros [Hisa Hall].
  destruct segs as [|[isa w] segs]; [done|]. unfold parseX12.
  assert (readIsaDelimiters (interchange_text d ((isa, w) :: segs)) = Ok d) as ->.
  { simpl in Hall. rewrite !andb_true_iff in Hall. apply read_delimiters; [apply Hall|done]. }
  pose proof (read_chunks d ((isa, w) :: segs) "" eq_refl Hall) as H. cbn [String.append] in H.
  cbn [mbind result_bind res_bind]. by rewrite H.
Qed.

(** ** What the adapters read *)

Section reading.
Context {D : DecimalJs} {L : DecimalLaws D}.

(** An amount the normalized invoice states is a decimal of the document. *)
Lemma money_stated o t : money o = Some t → ∃ a d, o = Some a ∧ new_Decimal a = Some d ∧ t = d_toFixed 4 d.
Proof.
  unfold money. destruct o as [a|]; [|done]. intros H.
  assert (d_toFixed 4 <$> new_Decimal a = Some t) as Ha by by destruct a.
  apply fmap_Some in Ha as (d & Hd & ->). by exists a, d.
Qed.

Lemma money_exact a m : money_units a = Some m → money (Some a) = Some (fixed 4 m).
Proof.
  intros Ha. destruct (money_new _ _ Ha) as (d & Hd & Hm). unfold money. destruct a; [done|].
  rewrite Hd. simpl. by rewrite (money_fixed _ _ Hm).
Qed.

Lemma sumMoney_exact ms : zsum (map Z.abs ms) < 10 ^ 20 →
  sumMoney (map (λ m, Some (fixed 4 m)) ms) = Ok (fixed 4 (zsum ms)).
Proof.
  intros Hb. unfold sumMoney.
  assert (omap id (map (λ m, Some (fixed 4 m)) ms) = map (fixed 4) ms) as ->.
  { clear Hb. induction ms as [|m ms IH]; [done|]. cbn [map omap list_omap id]. by rewrite IH. }
  assert (∀ d0 m0, d0 ≐ m0 → Z.abs m0 + zsum (map Z.abs ms) < 10 ^ 20 → ∃ d,
    fold_res (λ acc v, d ← decimal_or_throw v; Ok (d_plus acc d)) d0 (map (fixed 4) ms) = Ok d ∧ d ≐ m0 + zsum ms) as Hgen.
  { clear Hb. induction ms as [|m ms IH]; intros d0 m0 Hd Hb.
    - exists d0. by rewrite Z.add_0_r.
    - simpl in Hb. cbn [map]. rewrite fold_res_cons.
      destruct (money_new _ _ (money_units_fixed m)) as (d & Hn & Hm). 
      assert (decimal_or_throw (fixed 4 m) = Ok d) as -> by (unfold decimal_or_throw; by rewrite Hn).
      rewrite !bind_ret_l. assert (0 <= zsum (map Z.abs ms)) by (clear; induction ms; simpl; lia).
      destruct (IH (d_plus d0 d) (m0 + m)) as (d' & Hf & Hs); [apply money_plus; [done..|lia]|lia|].
      exists d'. split; [done|]. simpl. by rewrite Z.add_assoc. }
  destruct (Hgen (d_of_int 0) 0) as (d & Hf & Hs); [apply money_zero|lia|].
  rewrite Hf, bind_ret_l, (money_fixed _ _ Hs). done.
Qed.

(** The exact amounts of the charge lines, where they are plain decimals. *)
Definition stated_amounts (ix : X12Interchange) : list (option Z) :=
  map (λ l1, el (Some l1) 4 ≫= money_units) (segmentsByTag ix "L1").

Lemma charges_amounts ix categorize resolve loop ms : stated_amounts ix = map Some ms →
  map nc_amount (buildCharges ix categorize resolve loop).1 = map (λ m, Some (fixed 4 m)) ms.
Proof.
  unfold stated_amounts, buildCharges. cbn [fst]. revert ms.
  induction (segmentsByTag ix "L1") as [|l1 l1s IH]; intros [|m ms] H; try done.
  cbn [map] in H |- *. injection H as H1 H2. rewrite (IH _ H2). f_equal.
  apply bind_Some in H1 as (a & Ha1 & Ha). change (money (el (Some l1) 4) = Some (fixed 4 m)).
  rewrite (Ha1 : el (Some l1) 4 = Some a). by apply money_exact.
Qed.

Lemma parse210_inv raw categorize inv : parse210 raw categorize = Ok inv →
  ∃ ix foot, parseX12 raw = Ok ix ∧
    let cs := (buildCharges ix categorize (λ _, Some "USD") "L0/L1").1 in
    buildFooting (el (firstSegment ix "B3") 7) cs = Ok foot ∧
    transactionSet inv = Set210 ∧ charges inv = cs ∧ footing inv = Some foot ∧
    invoiceNumber inv = el (firstSegment ix "B3") 2 ∧ carrierCode inv = el (firstSegment ix "B3") 11 ∧
    shipmentReferences inv = Some (normalizeReferences [el (firstSegment ix "B3") 3]).
Proof.
  unfold parse210, parseEdiEnvelope. intros H. apply bind_Ok in H as (ix & Hix & H).
  apply bind_Ok in Hix as (ix' & Hp & Hix). cbn [readB3Header buildCharges] in H.
  apply bind_Ok in H as (foot & Hf & [= <-]).
  assert (ix' = ix) as -> by (repeat case_match; congruence). by exists ix, foot.
Qed.

Lemma parse310_inv raw categorize inv : parse310 raw categorize = Ok inv →
  ∃ ix foot, parseX12 raw = Ok ix ∧
    let cs := (buildCharges ix categorize (charge_currency_310 ix) "L1").1 in
    buildFooting (el (firstSegment ix "B3") 7) cs = Ok foot ∧
    transactionSet inv = Set310 ∧ charges inv = cs ∧ footing inv = Some foot ∧
    invoiceNumber inv = el (firstSegment ix "B3") 2 ∧
    shipmentReferences inv = Some (normalizeReferences (map (λ s, el (Some s) 2) (segmentsByTag ix "N9"))) ∧
    containerNumbers inv = Some (normalizeReferences (map container_number (segmentsByTag ix "N7"))) ∧
    vesselVoyage inv = head (normalizeReferences [orElse (el (firstSegment ix "V1") 4)
      (orElse (el (firstSegment ix "V1") 2) (el (firstSegment ix "V1") 1))]) ∧
    portCodes inv = Some (normalizeReferences (map (λ s, orElse (el (Some s) 2) (el (Some s) 3)) (segmentsByTag ix "R4"))).
Proof.
  unfold parse310, parseEdiEnvelope. intros H. apply bind_Ok in H as (ix & Hix & H).
  apply bind_Ok in Hix as (ix' & Hp & Hix). cbn [readB3Header buildCharges] in H.
  apply bind_Ok in H as (foot & Hf & [= <-]).
  assert (ix' = ix) as -> by (repeat case_match; congruence). by exists ix, foot.
Qed.

Lemma buildFooting_exact declared t x cs ms : declared = Some t → money_units t = Some x →
  map nc_amount cs = map (λ m, Some (fixed 4 m)) ms → zsum (map Z.abs ms) < 10 ^ 20 →
  buildFooting declared cs = Ok (mkFooting (Some (fixed 4 x)) (fixed 4 (zsum ms))).
Proof.
  intros -> Hx Hcs Hb. unfold buildFooting. rewrite Hcs, sumMoney_exact by done.
  cbn [mbind option_bind]. by rewrite (money_exact _ _ Hx).
Qed.

Lemma declared_stated declared cs foot total : buildFooting declared cs = Ok foot →
  declaredTotal foot = Some total → ∃ t d, declared = Some t ∧ new_Decimal t = Some d.
Proof.
  unfold buildFooting. destruct (sumMoney _) as [sum|]; [|done]. intros [= <-] H.
  apply bind_Some in H as (t & -> & H). apply (money_stated (Some t)) in H as (a & d & Ha & Hd & _). simplify_eq. eauto.
Qed.

(** References name what a segment states. *)
Lemma normalize_from_elem seen values x : x ∈ normalize_from seen values →
  x ≠ "" ∧ ∃ v, Some v ∈ values ∧ x = trim v.
Proof.
  revert seen. induction values as [|o vs IH]; intros seen; simpl; [set_solver|].
  destruct (bool_decide _ || _) eqn:E.
  - intros (? & v & ? & ->)%IH. split; [done|]. exists v. set_solver.
  - apply orb_false_iff in E as [E _]. rewrite bool_decide_eq_false in E.
    intros [->|Hx]%elem_of_cons.
    + split; [done|]. destruct o as [v|]; [|done]. exists v. set_solver.
    + apply IH in Hx as (? & v & ? & ->). split; [done|]. exists v. set_solver.
Qed.

Lemma references_stated values : nonempty (Some (normalizeReferences values)) = true →
  ∃ v, Some v ∈ values ∧ truthy (trim v) = true.
Proof.
  unfold normalizeReferences. destruct (normalize_from [] values) as [|x l] eqn:E; [done|]. intros _.
  destruct (normalize_from_elem [] values x) as (Hx & v & Hv & ->); [rewrite E; set_solver|].
  exists v. split; [done|]. unfold truthy. by rewrite negb_true_iff, bool_decide_eq_false.
Qed.
End reading.

(** ** The round trip at work *)

Definition demo_delimiters : X12Delimiters := mkDelimiters "*" "~" ">".
Definition demo_segments : list (X12Segment * string) :=
  [(mkSegment "ISA" ["00"; "          "; "00"; "          "; "02"; "SCAC           "; "ZZ"; "SHIPPER        "; "240101"; "1200"; "U";
      "00401"; "000000001"; "0"; "P"; ">"], String "010" "");
   (mkSegment "ST" ["210"; "0001"], ""); (mkSegment "L1" ["1"; ""; ""; "500.00"], " ")].
Lemma parseX12_roundtrip_witness :
  parseX12 (interchange_text demo_delimiters demo_segments) = Ok (mkInterchange demo_delimiters demo_segments.*1).
Proof. apply (parseX12_roundtrip demo_delimiters demo_segments). vm_compute. reflexivity. Defined.
