(* ===== verification/JsDate.v ===== *)
(** [Date] values as milliseconds since the epoch: the calendar arithmetic and
    the ISO text the sources use ([setUTCDate], [toISOString]).  Database
    timestamps carry microseconds the sources never look at; they are read at
    the precision a [Date] has. *)

From S2P Require Import Prelude JsText Decimal.

Definition ms_per_day : Z := 86400000.

(** [d.setUTCDate(d.getUTCDate() + n)]: the same time of day [n] days later. *)
Definition add_utc_days (t n : Z) : Z := t + n * ms_per_day.

(** The civil date of a day number, in the proleptic Gregorian calendar: days are
    counted from 0000-03-01 in 400-year eras, so that a leap day ends its year. *)
Definition civil_from_days (days : Z) : Z * Z * Z :=
  let z := days + 719468 in
  let era := z / 146097 in
  let doe := z - era * 146097 in
  let yoe := (doe - doe / 1460 + doe / 36524 - doe / 146096) / 365 in
  let doy := doe - (365 * yoe + yoe / 4 - yoe / 100) in
  let mp := (5 * doy + 2) / 153 in
  let d := doy - (153 * mp + 2) / 5 + 1 in
  let m := if mp <? 10 then mp + 3 else mp - 9 in
  (yoe + era * 400 + (if m <=? 2 then 1 else 0), m, d).

Definition pad (k : nat) (n : Z) : string := frac_digits k n "".
(** Years outside 0 .. 9999 are written with a sign and six digits. *)
Definition year_text (y : Z) : string :=
  if (0 <=? y) && (y <=? 9999) then pad 4 y
  else (if y <? 0 then "-" else "+") +:+ pad 6 (Z.abs y).

Definition toISOString (t : Z) : string :=
  let '(y, m, d) := civil_from_days (t / ms_per_day) in
  let ms := t mod ms_per_day in
  year_text y +:+ "-" +:+ pad 2 m +:+ "-" +:+ pad 2 d +:+ "T" +:+
  pad 2 (ms / 3600000) +:+ ":" +:+ pad 2 (ms / 60000 mod 60) +:+ ":" +:+
  pad 2 (ms / 1000 mod 60) +:+ "." +:+ pad 3 (ms mod 1000) +:+ "Z".

Example toISOString_epoch : toISOString 0 = "1970-01-01T00:00:00.000Z".
Proof. reflexivity. Qed.
Example toISOString_leap : toISOString 1709210096789 = "2024-02-29T12:34:56.789Z".
Proof. reflexivity. Qed.
Example toISOString_before : toISOString (-1) = "1969-12-31T23:59:59.999Z".
Proof. reflexivity. Qed.

(** A deadline some days away has passed exactly when that many days have. *)
Lemma add_utc_days_le t n now : add_utc_days t n <= now ↔ n * ms_per_day <= now - t.
Proof. unfold add_utc_days. lia. Qed.
Lemma add_utc_days_mono t n n' : n <= n' → add_utc_days t n <= add_utc_days t n'.
Proof. unfold add_utc_days, ms_per_day. lia. Qed.

(** ** Texts of dates and instants *)

(** [z.iso.date()] and [z.iso.datetime({ offset: true })], of zod: the day, or the
    instant in microseconds, that a text the library accepts stands for. *)
Class IsoTime := { iso_date : string → option Z; iso_datetime : string → option Z }.
(** The library reads back what [toISOString] writes. *)
Definition reads_back `{IsoTime} (t : Z) : Prop := iso_datetime (toISOString t) = Some (t * 1000).
(** [new Date(text)], of an accepted text: milliseconds. *)
Definition date_of `{IsoTime} (s : string) : option Z := (λ t, t / 1000) <$> iso_datetime s.
Lemma date_of_toISOString `{IsoTime} t : reads_back t → date_of (toISOString t) = Some t.
Proof. unfold reads_back, date_of. intros ->. cbn [fmap option_fmap option_map]. by rewrite Z.div_mul. Qed.
