(* ===== verification/Database.v ===== *)
(** The tables the review, payment and recovery handlers share, and the
    transactions that run on them.  A handler is a [tx]: given the transaction's
    environment (its [now()] and the tenants row-level security lets it see) and
    the tables, it returns a value and the tables it commits, or the error that
    rolls everything back.  Amounts are [numeric(18,4)] columns, in
    ten-thousandths; enum columns are the text of their value. *)

From S2P Require Import Prelude JsText Decimal Json Store AuditLedger JsDate.

(** ** Rows *)

Record account := { acc_id : string; acc_is_active : bool }.
Record invoice := mkInvoiceRow {
  inv_id : string; inv_account : string; inv_carrier : option string; inv_shipment : option string;
  inv_transaction_set : string; inv_number : option string; inv_currency : option string;
  inv_parser_version : string;
}.
Record audit_run := mkRun {
  ar_id : string; ar_account : string; ar_invoice : string; ar_outcome : string;
  ar_snapshot : option string; ar_engine : string;
}.
Record charge_fact := mkChargeRow {
  cf_id : string; cf_account : string; cf_invoice : string; cf_code : option string;
  cf_x12_element : option string; cf_category : option string; cf_amount : Z; cf_currency : option string;
  cf_basis : option Z; cf_rate : option Z; cf_raw_description : option string; cf_source_loop : option string;
}.
(** What a finding cites: its criterion, rule version, contract clause, source
    document and transport document. *)
Record citations := mkCites {
  ci_criterion : option string; ci_rule_version : option string; ci_clause : option string;
  ci_source_document : option string; ci_transport_document : option string;
}.
Record gate_failure := mkFailureRow {
  gf_id : string; gf_account : string; gf_audit_run : string; gf_defect : string;
  gf_citation : option string; gf_cites : citations; gf_evaluated_expr : json;
}.
Record charge_finding := mkChargeFinding {
  fi_id : string; fi_account : string; fi_audit_run : string; fi_result : string;
  fi_cites : citations; fi_evaluated_expr : json;
}.
Record coverage_marker := mkMarkerRow {
  cm_id : string; cm_account : string; cm_audit_run : string; cm_charge_index : nat;
  cm_marker_code : string; cm_missing_fields : list string;
}.
Record scorecard := mkScorecardRow {
  sk_id : string; sk_account : string; sk_audit_run : string; sk_conformed : Z; sk_variance : Z;
  sk_unassessable : Z; sk_overcharge : Z; sk_undercharge : Z; sk_currency : option string;
}.
Record replay_manifest := mkManifestRow {
  rm_account : string; rm_audit_run : string; rm_content_hash : string; rm_manifest : json;
}.

(** The derivation of a finding: where it was written by the evaluator. *)
Record finding_basis := mkBasis {
  fb_cites : citations; fb_charge_fact : option string; fb_materiality : option Z;
  fb_classification : option string; fb_evaluated_expr : json;
}.
Record variance_finding := mkFinding {
  vf_id : string; vf_account : string; vf_audit_run : string; vf_status : string;
  vf_direction : option string; vf_variance_amount : option Z; vf_currency : option string;
  vf_assigned_to : option string; vf_basis : finding_basis;
}.
Record finding_status_event := {
  se_id : string; se_account : string; se_finding : string; se_from : string; se_to : string;
  se_note : option string;
}.
Record finding_assignment_event := {
  fa_id : string; fa_account : string; fa_finding : string; fa_assigned_to : option string;
  fa_actor : option string;
}.

Record dispute := mkDispute {
  di_id : string; di_account : string; di_carrier : option string; di_status : string;
  di_amount_claimed : option Z; di_currency : option string; di_accepted_amount : option Z;
}.
Record dispute_line := {
  dl_account : string; dl_dispute : string; dl_finding : option string; dl_amount : option Z;
  dl_currency : option string;
}.
Record dispute_comm := {
  dc_id : string; dc_account : string; dc_dispute : string; dc_direction : string; dc_body : string;
  dc_dedupe_key : string;
}.

Record claim := mkClaim {
  cl_id : string; cl_account : string; cl_dispute : option string; cl_amount_claimed : Z;
  cl_currency : option string; cl_status : string; cl_opened_at : Z; cl_aging_deadline_at : option Z;
}.
Record recovery_event := {
  re_id : string; re_account : string; re_claim : string; re_finding : option string;
  re_amount_recovered : Z; re_currency : option string;
}.

Record payment_gate_decision := {
  pd_id : string; pd_account : string; pd_invoice : string; pd_audit_run : string; pd_action : string;
  pd_amount : option Z; pd_currency : option string; pd_actor_kind : ActorKind;
  pd_rationale : option string; pd_recorded_at : Z;
}.

Record workflow_instance := mkInstance {
  wi_id : string; wi_account : string; wi_type : string; wi_entity : string; wi_entity_id : string;
  wi_state : string;
}.
Record workflow_transition := { wt_id : string; wt_instance : string; wt_from : string; wt_to : string }.
Record workflow_command := mkCommand {
  wc_id : string; wc_account : string; wc_instance : string; wc_type : string;
  wc_payload : list (string * json); wc_run_after : Z; wc_status : string; wc_attempts : Z;
  wc_claimed_at : option Z;
}.
Record outbox_message := mkOutbox {
  om_id : string; om_account : string; om_instance : string; om_command : string;
  om_dedupe_key : string; om_payload : list (string * json); om_type : string; om_created_at : Z;
  om_status : string; om_attempts : Z; om_claimed_at : option Z;
}.

(** The tenant-scoped job payloads of [src/src/jobs/contracts.ts], without the
    envelope they share. *)
Inductive JobPayload : Set :=
  | PROCESS_INGESTION_V1 (sourceObjectId : string)
  | EVALUATE_AUDIT_V1 (auditRunId : string)
  | REPLAY_AUDIT_V1 (auditRunId replayRequestId : string)
  | SYNC_REFERENCE_DATA_V1 (source publicationVersion : string)
  | DISCOVER_TRIGGERS_V1 (auditRunId : string)
  | FOLLOW_UP_CLAIM_V1 (claimId : string)
  | ESCALATE_CLAIM_V1 (claimId : string)
  | RUN_WORKFLOW_COMMAND_V1 (commandId workflowInstanceId commandType : string)
      (payload : list (string * json))
  | DELIVER_OUTBOX_MESSAGE_V1 (outboxMessageId workflowInstanceId commandId messageType : string)
      (payload : list (string * json))
  | EXPORT_RECORD_V1 (claimId paymentGateDecisionId : option string) (systemCode : string)
      (payload : list (string * json)).
Record envelope := mkEnvelope {
  jb_clientId : string; jb_idempotencyKey : string; jb_requestedAt : string;
}.
Record job := { job_id : string; job_envelope : envelope; job_payload : JobPayload }.

(** ** The database *)

Record source_tables := {
  accounts : list account; invoices : list invoice; audit_runs : list audit_run;
  charge_facts : list charge_fact; gate_failures : list gate_failure;
}.
Record finding_tables := mkFindings {
  variance_findings : list variance_finding;
  finding_status_events : list finding_status_event;
  finding_assignment_events : list finding_assignment_event;
}.
Record dispute_tables := mkDisputes {
  disputes : list dispute; dispute_lines : list dispute_line; dispute_comms : list dispute_comm;
}.
Record evaluation_tables := mkEvaluations {
  charge_findings : list charge_finding; coverage_markers : list coverage_marker;
  scorecards : list scorecard; replay_manifests : list replay_manifest;
}.
Record claim_tables := mkClaims { claims : list claim; recovery_events : list recovery_event }.
Record workflow_tables := mkWorkflow {
  workflow_instances : list workflow_instance; workflow_transitions : list workflow_transition;
  workflow_commands : list workflow_command; outbox : list outbox_message;
}.

(** [ledger_times] holds the [recorded_at] of the ledger's events, by id;
    [uuids_used] counts the identifiers [gen_random_uuid()] has handed out. *)
Record db := mkDb {
  sources : source_tables;
  findings : finding_tables;
  dispute_part : dispute_tables;
  claim_part : claim_tables;
  payment_gate_decisions : list payment_gate_decision;
  evaluations : evaluation_tables;
  workflow_part : workflow_tables;
  jobs : list job;
  audit_log : ledger;
  ledger_times : list (string * Z);
  uuids_used : nat;
}.

Definition upd_sources (f : source_tables → source_tables) (s : db) : db :=
  mkDb (f (sources s)) (findings s) (dispute_part s) (claim_part s) (payment_gate_decisions s)
    (evaluations s) (workflow_part s) (jobs s) (audit_log s) (ledger_times s) (uuids_used s).
Definition upd_evaluations (f : evaluation_tables → evaluation_tables) (s : db) : db :=
  mkDb (sources s) (findings s) (dispute_part s) (claim_part s) (payment_gate_decisions s)
    (f (evaluations s)) (workflow_part s) (jobs s) (audit_log s) (ledger_times s) (uuids_used s).
Definition upd_findings (f : finding_tables → finding_tables) (s : db) : db :=
  mkDb (sources s) (f (findings s)) (dispute_part s) (claim_part s) (payment_gate_decisions s)
    (evaluations s) (workflow_part s) (jobs s) (audit_log s) (ledger_times s) (uuids_used s).
Definition upd_disputes (f : dispute_tables → dispute_tables) (s : db) : db :=
  mkDb (sources s) (findings s) (f (dispute_part s)) (claim_part s) (payment_gate_decisions s)
    (evaluations s) (workflow_part s) (jobs s) (audit_log s) (ledger_times s) (uuids_used s).
Definition upd_claims (f : claim_tables → claim_tables) (s : db) : db :=
  mkDb (sources s) (findings s) (dispute_part s) (f (claim_part s)) (payment_gate_decisions s)
    (evaluations s) (workflow_part s) (jobs s) (audit_log s) (ledger_times s) (uuids_used s).
Definition upd_payments (f : list payment_gate_decision → list payment_gate_decision) (s : db) : db :=
  mkDb (sources s) (findings s) (dispute_part s) (claim_part s) (f (payment_gate_decisions s))
    (evaluations s) (workflow_part s) (jobs s) (audit_log s) (ledger_times s) (uuids_used s).
Definition upd_workflow (f : workflow_tables → workflow_tables) (s : db) : db :=
  mkDb (sources s) (findings s) (dispute_part s) (claim_part s) (payment_gate_decisions s)
    (evaluations s) (f (workflow_part s)) (jobs s) (audit_log s) (ledger_times s) (uuids_used s).
Definition set_jobs (f : list job → list job) (s : db) : db :=
  mkDb (sources s) (findings s) (dispute_part s) (claim_part s) (payment_gate_decisions s)
    (evaluations s) (workflow_part s) (f (jobs s)) (audit_log s) (ledger_times s) (uuids_used s).
Definition set_log (l : ledger) (times : list (string * Z)) (s : db) : db :=
  mkDb (sources s) (findings s) (dispute_part s) (claim_part s) (payment_gate_decisions s)
    (evaluations s) (workflow_part s) (jobs s) l times (uuids_used s).
Definition use_uuid (s : db) : db :=
  mkDb (sources s) (findings s) (dispute_part s) (claim_part s) (payment_gate_decisions s)
    (evaluations s) (workflow_part s) (jobs s) (audit_log s) (ledger_times s) (S (uuids_used s)).

Definition upd_dispute_rows (f : list dispute → list dispute) : db → db :=
  upd_disputes (λ t, mkDisputes (f (disputes t)) (dispute_lines t) (dispute_comms t)).
Definition upd_claim_rows (f : list claim → list claim) : db → db :=
  upd_claims (λ t, mkClaims (f (claims t)) (recovery_events t)).
Definition add_recovery (r : recovery_event) : db → db :=
  upd_claims (λ t, mkClaims (claims t) (recovery_events t ++ [r])).

Definition set_claim_status (st : string) (c : claim) : claim :=
  mkClaim (cl_id c) (cl_account c) (cl_dispute c) (cl_amount_claimed c) (cl_currency c) st
    (cl_opened_at c) (cl_aging_deadline_at c).
Definition set_claim_deadline (d : Z) (c : claim) : claim :=
  mkClaim (cl_id c) (cl_account c) (cl_dispute c) (cl_amount_claimed c) (cl_currency c) (cl_status c)
    (cl_opened_at c) (Some d).
Definition set_dispute_status (st : string) (d : dispute) : dispute :=
  mkDispute (di_id d) (di_account d) (di_carrier d) st (di_amount_claimed d) (di_currency d)
    (di_accepted_amount d).
Definition set_dispute_partial (amount : Z) (d : dispute) : dispute :=
  mkDispute (di_id d) (di_account d) (di_carrier d) "partial" (di_amount_claimed d) (di_currency d)
    (Some amount).
Definition set_finding_status (st : string) (f : variance_finding) : variance_finding :=
  mkFinding (vf_id f) (vf_account f) (vf_audit_run f) st (vf_direction f) (vf_variance_amount f)
    (vf_currency f) (vf_assigned_to f) (vf_basis f).
Definition set_finding_assignee (who : option string) (f : variance_finding) : variance_finding :=
  mkFinding (vf_id f) (vf_account f) (vf_audit_run f) (vf_status f) (vf_direction f)
    (vf_variance_amount f) (vf_currency f) who (vf_basis f).
