(* ===== verification/Tx.v ===== *)
(** Transactions: the state-and-error monad the handlers run in, its
    primitives, and the inversion tactic [tx_inv] their proofs use. *)

From S2P Require Import Prelude JsText Decimal Json Store AuditLedger JsDate Database.

(** ** The monad *)

(** [new cls(code)] thrown; a zod schema's refusal; a refused audit write; a
    violated database constraint; any other error. *)
Inductive handler_error : Set :=
  | Thrown (cls code : string)
  | SchemaRejected
  | AuditFailed (e : AuditError)
  | ConstraintFailed (name : string)
  | OtherError (message : string).

(** [now] is the transaction's time, in the database and as [new Date()]; [scope]
    lists the tenants row-level security shows, [None] for internal access. *)
Record env := mkEnv { now : Z; scope : option (list string) }.

Definition tx (A : Type) : Type := env → db → result handler_error (A * db).

#[export] Instance tx_ret : MRet tx := λ A a e s, Ok (a, s).
#[export] Instance tx_bind : MBind tx := λ A B f m e s,
  match m e s with Ok (a, s') => f a e s' | Err x => Err x end.

Definition throw {A} (x : handler_error) : tx A := λ e s, Err x.
Definition ask {A} (f : env → A) : tx A := λ e s, Ok (f e, s).
(** A query. *)
Definition query {A} (f : db → A) : tx A := λ e s, Ok (f s, s).
(** A write. *)
Definition modify (f : db → db) : tx unit := λ e s, Ok (tt, f s).
Definition check (b : bool) (x : handler_error) : tx unit := if b then mret tt else throw x.
Definition the {A} (o : option A) (x : handler_error) : tx A :=
  match o with Some a => mret a | None => throw x end.
Definition lift {A} (r : result handler_error A) : tx A :=
  match r with Ok a => mret a | Err x => throw x end.
(** [SAVEPOINT]: a failure undoes what [m] wrote, and nothing else. *)
Definition savepoint {A} (m : tx A) : tx (option A) := λ e s,
  match m e s with Ok (a, s') => Ok (Some a, s') | Err _ => Ok (None, s) end.

(** [for (const x of l) await f(x)], collecting the results. *)
Fixpoint for_each {A B} (f : A → tx B) (l : list A) : tx (list B) :=
  match l with
  | [] => mret []
  | x :: l' => y ← f x; ys ← for_each f l'; mret (y :: ys)
  end.

(** What row-level security shows. *)
Definition visible (e : env) (account : string) : bool :=
  match scope e with None => true | Some l => bool_decide (account ∈ l) end.

Section tx_lemmas.
Context {A B : Type}.
Implicit Types (e : env) (s : db).

Lemma tx_bind_Ok (m : tx A) (f : A → tx B) e s r :
  (m ≫= f) e s = Ok r ↔ ∃ a s', m e s = Ok (a, s') ∧ f a e s' = Ok r.
Proof. unfold mbind, tx_bind. destruct (m e s) as [[a s']|]; naive_solver. Qed.
Lemma query_Ok (f : db → A) e s r : query f e s = Ok r ↔ r = (f s, s).
Proof. unfold query. naive_solver. Qed.
Lemma ask_Ok (f : env → A) e s r : ask f e s = Ok r ↔ r = (f e, s).
Proof. unfold ask. naive_solver. Qed.
Lemma modify_Ok f e s r : modify f e s = Ok r ↔ r = (tt, f s).
Proof. unfold modify. naive_solver. Qed.
Lemma check_Ok b x e s r : check b x e s = Ok r ↔ b = true ∧ r = (tt, s).
Proof. unfold check, throw, mret, tx_ret. destruct b; naive_solver. Qed.
Lemma the_Ok (o : option A) x e s r : the o x e s = Ok r ↔ ∃ a, o = Some a ∧ r = (a, s).
Proof. unfold the, throw, mret, tx_ret. destruct o; naive_solver. Qed.
Lemma lift_Ok (x : result handler_error A) e s r : lift x e s = Ok r ↔ ∃ a, x = Ok a ∧ r = (a, s).
Proof. unfold lift, throw, mret, tx_ret. destruct x; naive_solver. Qed.
Lemma tx_ret_Ok (a : A) e s r : (mret a : tx A) e s = Ok r ↔ r = (a, s).
Proof. unfold mret, tx_ret. naive_solver. Qed.
End tx_lemmas.

(** Break a committed transaction into its steps. *)
Ltac tx_inv :=
  repeat match goal with
  | H : (_ ≫= _) _ _ = Ok _ |- _ =>
      let Hx := fresh "Htx" in apply tx_bind_Ok in H as (? & ? & Hx & H); cbn beta in H
  | H : query _ _ _ = Ok _ |- _ => apply query_Ok in H; simplify_eq
  | H : ask _ _ _ = Ok _ |- _ => apply ask_Ok in H; simplify_eq
  | H : modify _ _ _ = Ok _ |- _ => apply modify_Ok in H; simplify_eq
  | H : check _ _ _ _ = Ok _ |- _ => apply check_Ok in H as [? H]; simplify_eq
  | H : the _ _ _ _ = Ok _ |- _ => apply the_Ok in H as (? & ? & H); simplify_eq
  | H : lift _ _ _ = Ok _ |- _ => apply lift_Ok in H as (? & ? & H); simplify_eq
  | H : mret _ _ _ = Ok _ |- _ => apply tx_ret_Ok in H; simplify_eq
  | H : throw _ _ _ = Ok _ |- _ => discriminate H
  | H : Ok _ = Ok _ |- _ => injection H as H; simplify_eq
  | H : Err _ = Ok _ |- _ => discriminate H
  | H : (let '(_, _) := ?p in _) _ _ = Ok _ |- _ =>
      first [is_var p; destruct p | let Ep := fresh "Ep" in destruct p eqn:Ep]
  | x : unit |- _ => destruct x
  end.

(** Loop invariants for [for_each]: the state, and what each round yields. *)
Lemma for_each_inv {A B} (P : db → Prop) (f : A → tx B) l e s ys s' :
  (∀ x s1 y s2, x ∈ l → P s1 → f x e s1 = Ok (y, s2) → P s2) →
  P s → for_each f l e s = Ok (ys, s') → P s'.
Proof.
  revert s ys. induction l as [|x l IH]; intros s ys Hf HP H; cbn [for_each] in H; tx_inv; [done|].
  eapply IH; [|eapply Hf; [| |eassumption]|eassumption]; [|set_solver|done].
  intros. eapply Hf; [|done|done]. set_solver.
Qed.

(** ** Generated identifiers *)

(** [gen_random_uuid()]: the n-th identifier the database hands out. *)
Class UuidSource := gen_random_uuid : nat → string.
Class UuidSourceLaws {U : UuidSource} : Prop := {
  gen_random_uuid_ok n : isUuid (gen_random_uuid n) = true;
  gen_random_uuid_lower n : pg_uuid (gen_random_uuid n) = gen_random_uuid n;
}.
Arguments UuidSourceLaws : clear implicits.
Definition new_uuid `{UuidSource} : tx string := λ e s, Ok (gen_random_uuid (uuids_used s), use_uuid s).

(** The primary key of a new row: a generated identifier in use is an error. *)
Definition primary_key (ids : list string) (rowId : string) : tx unit :=
  check (negb (bool_decide (rowId ∈ ids))) (ConstraintFailed "primary key").

(** zod's uuid format, of the library. *)
Class Zod := zod_uuid : string → bool.
Class ZodLaws {Z : Zod} : Prop := zod_uuid_ok s : zod_uuid s = true → isUuid s = true.
Arguments ZodLaws : clear implicits.

(** ** Database values *)

(** A [numeric(18,4)] column holding the text [s]; the sources pass amounts with
    at most four decimals. *)
Definition numeric (s : string) : tx Z :=
  match money_units s with
  | Some m => if Z.abs m <? 10 ^ 18 then mret m else throw (ConstraintFailed "numeric field overflow")
  | None => throw (ConstraintFailed "numeric")
  end.
(** The text of a [numeric(18,4)] column. *)
Definition numeric_text (m : Z) : string := fixed 4 m.
(** [COALESCE(SUM(x), 0)::text] *)
Definition sum_text (l : list Z) : string :=
  match l with [] => "0" | _ => fixed 4 (zsum l) end.
(** CHECK (currency ~ '^[A-Z]{3}$'), true of NULL. *)
Definition currency_check (o : option string) : bool :=
  match o with Some c => is_currency_code c | None => true end.
(** [/^\d+(\.\d{1,4})?$/] *)
Fixpoint digits_then (k : string → bool) (s : string) : bool :=
  match s with
  | String c s' => is_digit c && (k s' || digits_then k s')
  | "" => false
  end.
Definition amount_text_ok (s : string) : bool :=
  digits_then (λ r, match r with
    | "" => true
    | String c f => bool_decide (c = "."%char) && string_all is_digit f &&
        (1 <=? String.length f)%nat && (String.length f <=? 4)%nat
    end) s.

Definition uuid_is (column value : string) : bool := bool_decide (column = pg_uuid value).
Definition json_opt (o : option string) : json := match o with Some s => JString s | None => JNull end.
Definition json_int (n : Z) : json := JNumber (JsFinite (fixed 0 n)).

(** [writeAuditEvent] on the transaction's client: whether the event is new. *)
Definition emit (i : AuditEvent) : tx bool := λ e s,
  match writeAuditEvent i (audit_log s) with
  | Ok ((id, created), log') =>
      Ok (created, set_log log' (if created then ledger_times s ++ [(id, now e)] else ledger_times s) s)
  | Err x => Err (AuditFailed x)
  end.

Definition audit_event (id : string) (clientId entity entityId event : string) (kind : ActorKind)
    (actor : option string) (detail : list (string * json)) : AuditEvent :=
  mkAuditEvent id (Some clientId) entity (Some entityId) event kind actor None None (Some detail).

(** ** Lemmas *)

Lemma primary_key_Ok ids i e s r : primary_key ids i e s = Ok r ↔ (i ∉ ids) ∧ r = (tt, s).
Proof. unfold primary_key. rewrite check_Ok, negb_true_iff, bool_decide_eq_false. done. Qed.
(** Steps that generate an identifier. *)
Ltac id_inv :=
  repeat match goal with
  | H : new_uuid _ _ = _ |- _ => unfold new_uuid in H; simplify_eq
  | H : primary_key _ _ _ _ = _ |- _ => apply primary_key_Ok in H as [? H]; simplify_eq
  end.

Lemma emit_spec i e s b s' : emit i e s = Ok (b, s') →
  ∃ v, AuditEventInputSchema i = Some v ∧
    ((b = true ∧ s' = set_log (audit_log s ++ [audit_row v])
                        (ledger_times s ++ [(ae_id (audit_row v), now e)]) s) ∨
     (b = false ∧ s' = set_log (audit_log s) (ledger_times s) s ∧
      ∃ x, x ∈ audit_log s ∧ same_evidence (audit_row v) x = true)).
Proof.
  unfold emit. intros H. destruct (writeAuditEvent i (audit_log s)) as [[[id created] log']|] eqn:E;
  [|done]. apply writeAuditEvent_inv in E as (v & Hv & Hid & Hcase). simpl in *.
  injection H as <- <-. exists v. split; [done|].
  destruct Hcase as [(-> & -> & _)|(-> & -> & Hx)]; [left|right]; [by subst id|done].
Qed.

Lemma emit_total i v e s : AuditEventInputSchema i = Some v →
  (∀ x, x ∈ audit_log s → ae_id x = ae_id (audit_row v) → same_evidence (audit_row v) x = true) →
  ∃ b s', emit i e s = Ok (b, s').
Proof.
  intros Hv Hx. unfold emit. destruct (writeAuditEvent_total i v (audit_log s) Hv Hx) as [[[i' c] log'] ->].
  by eexists _, _.
Qed.

(** Writing to the ledger leaves every table alone. *)
Lemma emit_frame i e s b s' : emit i e s = Ok (b, s') →
  sources s' = sources s ∧ findings s' = findings s ∧ dispute_part s' = dispute_part s ∧
  claim_part s' = claim_part s ∧ payment_gate_decisions s' = payment_gate_decisions s ∧
  workflow_part s' = workflow_part s ∧ jobs s' = jobs s ∧ uuids_used s' = uuids_used s.
Proof. intros (v & _ & [(_ & ->)|(_ & -> & _)])%emit_spec; done. Qed.

Lemma emit_evaluations i e s b s' : emit i e s = Ok (b, s') → evaluations s' = evaluations s.
Proof. intros (v & _ & [(_ & ->)|(_ & -> & _)])%emit_spec; done. Qed.

Lemma emit_ledger i e s b s' : emit i e s = Ok (b, s') →
  ∃ v, AuditEventInputSchema i = Some v ∧
    (audit_log s' = audit_log s ++ [audit_row v] ∨
     audit_log s' = audit_log s ∧ ∃ x, x ∈ audit_log s ∧ same_evidence (audit_row v) x = true).
Proof. intros (v & Hv & [(_ & ->)|(_ & -> & Hx)])%emit_spec; exists v; simpl; eauto. Qed.

(** The schema keeps every field but the padding of the two names. *)
Lemma schema_fields i v : AuditEventInputSchema i = Some v →
  ae_id v = ae_id i ∧ ae_clientId v = ae_clientId i ∧ ae_entity v = trim (ae_entity i) ∧
  ae_entityId v = ae_entityId i ∧ ae_event v = trim (ae_event i) ∧ ae_actorKind v = ae_actorKind i ∧
  ae_actorUserId v = ae_actorUserId i ∧ ae_detail v = ae_detail i.
Proof. unfold AuditEventInputSchema. case_match; intros; simplify_eq; done. Qed.

Lemma same_evidence_fields row x : same_evidence row x = true →
  ae_clientId x = ae_clientId row ∧ ae_entity x = ae_entity row ∧ ae_entityId x = ae_entityId row ∧
  ae_event x = ae_event row ∧ ae_actorKind x = ae_actorKind row ∧ ae_actorUserId x = ae_actorUserId row.
Proof. unfold same_evidence. rewrite !andb_true_iff, !bool_decide_eq_true. naive_solver. Qed.

(** After a write the ledger holds the event, and otherwise what it held. *)
Lemma emit_event id client entity eid event kind actor detail e s b s' :
  emit (audit_event id client entity eid event kind actor detail) e s = Ok (b, s') →
  ∃ x, ae_clientId x = Some (pg_uuid client) ∧ ae_entity x = trim entity ∧
    ae_entityId x = Some (pg_uuid eid) ∧ ae_event x = trim event ∧ ae_actorKind x = kind ∧
    ae_actorUserId x = (pg_uuid <$> actor) ∧
    ∀ y, y ∈ audit_log s' ↔ y ∈ audit_log s ∨ y = x.
Proof.
  intros (v & Hv & Hlog)%emit_ledger. apply schema_fields in Hv as (_ & Hc & He & Hi & Hev & Hk & Ha & _).
  simpl in *. destruct Hlog as [->|[-> (x & Hx & Hs)]].
  - exists (audit_row v). simpl. rewrite Hc, He, Hi, Hev, Hk, Ha. split_and!; try done.
    intros y. by rewrite elem_of_app, list_elem_of_singleton.
  - exists x. apply same_evidence_fields in Hs as (-> & -> & -> & -> & -> & ->). simpl.
    rewrite Hc, He, Hi, Hev, Hk, Ha. split_and!; try done. intros y. split; [by left|]. by intros [?| ->].
Qed.

Lemma sum_text_units l : money_units (sum_text l) = Some (zsum l).
Proof. destruct l; [done|]. apply money_units_fixed. Qed.

Lemma numeric_Ok t e s r : numeric t e s = Ok r →
  ∃ m, money_units t = Some m ∧ Z.abs m < 10 ^ 18 ∧ r = (m, s).
Proof.
  unfold numeric. destruct (money_units t) as [m|]; [|done].
  destruct (Z.ltb_spec (Z.abs m) (10 ^ 18)); [|done]. intros H1; tx_inv. eauto.
Qed.

Section amount_texts.
Lemma is_digit_val c : is_digit c = true → 0 <= digit_val c < 10.
Proof. unfold is_digit, digit_val. rewrite andb_true_iff, !N.leb_le. lia. Qed.

Lemma scan_fraction v k f : 0 <= v → string_all is_digit f = true →
  ∃ m, scan v (Some k) f = Some (m, (k + String.length f)%nat) ∧ 0 <= m.
Proof.
  revert v k. induction f as [|c f IH]; intros v k Hv Hf; simpl in *.
  - exists v. rewrite Nat.add_0_r. done.
  - apply andb_true_iff in Hf as [Hc Hf]. rewrite Hc. pose proof (is_digit_val c Hc).
    destruct (IH (v * 10 + digit_val c) (S k) ltac:(lia) Hf) as (m & -> & Hm).
    exists m. by rewrite Nat.add_succ_r.
Qed.

Lemma scan_amount v s : 0 <= v → amount_text_ok s = true →
  ∃ m sc, scan v None s = Some (m, sc) ∧ 0 <= m ∧ (sc ≤ 4)%nat.
Proof.
  unfold amount_text_ok. revert v. induction s as [|c s IH]; intros v Hv H; [done|].
  cbn [digits_then] in H. apply andb_true_iff in H as [Hc H]. pose proof (is_digit_val c Hc).
  cbn [scan]. rewrite Hc. apply orb_true_iff in H as [H|H]; [|apply IH; [lia|done]]. clear IH.
  destruct s as [|d f]; [eexists _, _; split; [done|]; simpl; lia|].
  rewrite !andb_true_iff, bool_decide_eq_true, Nat.leb_le, Nat.leb_le in H.
  destruct H as [[[-> Hf] _] Hl]. cbn [scan]. change (is_digit ".") with false.
  rewrite decide_True by done. change (S <$> @None nat) with (@None nat). cbv iota.
  destruct (scan_fraction (v * 10 + digit_val c) 0 f ltac:(lia) Hf) as (m & -> & Hm).
  eexists _, _. split; [done|]. lia.
Qed.

(** Every amount the request schemas admit is a whole number of
    ten-thousandths. *)
Lemma amount_text_units s : amount_text_ok s = true → ∃ m, money_units s = Some m ∧ 0 <= m.
Proof.
  intros Hs. destruct (scan_amount 0 s ltac:(lia) Hs) as (m & sc & Hm & Hm0 & Hsc).
  assert (plain s = Some (m, sc)) as Hp.
  { unfold amount_text_ok in Hs. destruct s as [|c s]; [done|]. cbn [digits_then] in Hs.
    apply andb_true_iff in Hs as [Hc _]. unfold plain. by rewrite Hc. }
  unfold money_units. rewrite Hp. simpl.
  assert (10000 = 10 ^ (4 - Z.of_nat sc) * 10 ^ Z.of_nat sc) as ->.
  { rewrite <- Z.pow_add_r by lia. by replace (4 - Z.of_nat sc + Z.of_nat sc) with 4 by lia. }
  pose proof (Z.pow_nonneg 10 (4 - Z.of_nat sc)).
  pose proof (pow10_pos sc). rewrite Z.mul_assoc, Z.mod_mul, Z.div_mul by lia. simpl.
  eexists. split; [done|]. lia.
Qed.
End amount_texts.

(** ** Instances for evaluating handlers *)

Definition demo_uuid : UuidSource := λ n, "00000000-0000-4000-8000-" +:+ pad 12 (Z.of_nat n).
Definition demo_zod : Zod := isUuid.
Lemma demo_zod_laws : ZodLaws demo_zod.
Proof. by intros s. Qed.

Lemma digit_char_hex n : is_hex (digit_char (n mod 10)) = true ∧ lower_char (digit_char (n mod 10)) = digit_char (n mod 10).
Proof.
  assert (∀ d : N, (d < 10)%N → is_hex (ascii_of_N (48 + d)) && bool_decide (lower_char (ascii_of_N (48 + d)) =
    ascii_of_N (48 + d)) = true) as Hd by (by apply (below_all 10)).
  pose proof (Z.mod_pos_bound n 10 ltac:(lia)). unfold digit_char.
  specialize (Hd (Z.to_N (n mod 10)) ltac:(lia)). rewrite andb_true_iff, bool_decide_eq_true in Hd. done.
Qed.
Lemma demo_uuid_laws : UuidSourceLaws demo_uuid.
Proof.
  split; intros n; unfold gen_random_uuid, demo_uuid, pad; cbn [frac_digits].
  - unfold isUuid, UUID_PATTERN. cbn [match_classes replicate app String.append].
    rewrite !(proj1 (digit_char_hex _)). reflexivity.
  - unfold pg_uuid, to_lower. cbn [string_map String.append]. by rewrite !(proj2 (digit_char_hex _)).
Qed.

Definition empty_db : db :=
  mkDb {| accounts := []; invoices := []; audit_runs := []; charge_facts := []; gate_failures := [] |}
    (mkFindings [] [] []) (mkDisputes [] [] []) (mkClaims [] []) [] (mkEvaluations [] [] [] []) (mkWorkflow [] [] [] []) [] [] [] 0.
(** The basis of the findings of examples. *)
Definition no_cites : citations := mkCites None None None None None.
Definition demo_basis : finding_basis := mkBasis no_cites None None None JNull.
(** Identifiers for examples. *)
Definition demo_id (n : Z) : string := "10000000-0000-4000-8000-" +:+ pad 12 n.

(** The tables a transaction leaves, and that it committed. *)
Definition tx_state {A} (r : result handler_error (A * db)) (s : db) : db :=
  match r with Ok (_, s') => s' | Err _ => s end.
Definition tx_value {A} (r : result handler_error (A * db)) : option A :=
  match r with Ok (a, _) => Some a | Err _ => None end.
Lemma tx_ran {A} (r : result handler_error (A * db)) s a :
  tx_value r = Some a → r = Ok (a, tx_state r s).
Proof. destruct r as [[b s']|]; simpl; congruence. Qed.
