(* ===== verification/Findings.v ===== *)
(** Variance findings ([src/src/modules/findings/]): status transitions with
    their append-only history, analyst actions and assignment.  The handlers'
    updates name a finding by id only, so row-level security decides what they
    see. *)

From S2P Require Import Prelude JsText Decimal Json Store AuditLedger JsDate Database Tx.

(** ** Operations *)

(** The enum [variance_status]. *)
Definition variance_status_values : list string :=
  ["open"; "in_review"; "accepted"; "waived"; "queued_for_dispute"; "disputed"; "recovered";
   "written_off"; "closed"].

Definition upd_finding_rows (f : list variance_finding → list variance_finding) : db → db :=
  upd_findings (λ t, mkFindings (f (variance_findings t)) (finding_status_events t)
                       (finding_assignment_events t)).
Definition add_status_event (ev : finding_status_event) : db → db :=
  upd_findings (λ t, mkFindings (variance_findings t) (finding_status_events t ++ [ev])
                       (finding_assignment_events t)).
Definition add_assignment_event (ev : finding_assignment_event) : db → db :=
  upd_findings (λ t, mkFindings (variance_findings t) (finding_status_events t)
                       (finding_assignment_events t ++ [ev])).

Definition finding_row (findingId : string) (e : env) (f : variance_finding) : bool :=
  uuid_is (vf_id f) findingId && visible e (vf_account f).

Section findings.
Context {H : Sha256} {U : UuidSource}.

(** [found] is whether the finding is visible to the caller. *)
Definition updateFindingStatus (findingId toStatus : string) (note actorUserId : option string) :
    tx bool :=
  e ← ask id;
  s ← query id;
  match select_one (finding_row findingId e) (variance_findings (findings s)) with
  | None => mret false
  | Some old =>
      _ ← check (bool_decide (toStatus ∈ variance_status_values)) (ConstraintFailed "variance_status");
      _ ← modify (upd_finding_rows (update_where (λ f, bool_decide (vf_id f = vf_id old))
                                      (set_finding_status toStatus)));
      eventId ← new_uuid;
      _ ← primary_key (map se_id (finding_status_events (findings s))) eventId;
      _ ← modify (add_status_event {| se_id := eventId; se_account := vf_account old;
             se_finding := vf_id old; se_from := vf_status old; se_to := toStatus; se_note := note |});
      _ ← emit (audit_event
             (deterministicAuditEventId [vf_account old; eventId; "finding.status_changed"])
             (vf_account old) "variance_finding" (vf_id old) "finding.status_changed" ActorAnalyst
             actorUserId
             [("fromStatus", JString (vf_status old)); ("toStatus", JString toStatus);
              ("note", json_opt note); ("statusEventId", JString eventId)]);
      mret true
  end.

Inductive FindingAction : Set := accept | waive | escalate.
Definition FINDING_ACTION_STATUS (a : FindingAction) : string :=
  match a with accept => "accepted" | waive => "waived" | escalate => "in_review" end.
Definition action_text (a : FindingAction) : string :=
  match a with accept => "accept" | waive => "waive" | escalate => "escalate" end.

Definition applyFindingAction (findingId : string) (action : FindingAction)
    (note actorUserId : option string) : tx (bool * string) :=
  let status := FINDING_ACTION_STATUS action in
  found ← updateFindingStatus findingId status
            (Some (default ("Analyst action: " +:+ action_text action) note)) actorUserId;
  mret (found, status).

Definition assignFinding (findingId : string) (assigneeUserId actorUserId : option string) : tx bool :=
  e ← ask id;
  s ← query id;
  match select_one (finding_row findingId e) (variance_findings (findings s)) with
  | None => mret false
  | Some row =>
      _ ← modify (upd_finding_rows (update_where (λ f, bool_decide (vf_id f = vf_id row))
                                      (set_finding_assignee (pg_uuid <$> assigneeUserId))));
      eventId ← new_uuid;
      _ ← primary_key (map fa_id (finding_assignment_events (findings s))) eventId;
      _ ← modify (add_assignment_event {| fa_id := eventId; fa_account := vf_account row;
             fa_finding := vf_id row; fa_assigned_to := pg_uuid <$> assigneeUserId;
             fa_actor := pg_uuid <$> actorUserId |});
      let event := if truthy_trim assigneeUserId then "finding.assigned" else "finding.unassigned" in
      _ ← emit (audit_event (deterministicAuditEventId [vf_account row; eventId; event])
             (vf_account row) "variance_finding" (vf_id row) event ActorAnalyst actorUserId
             [("assignedToUserId", json_opt assigneeUserId)]);
      mret true
  end.

(** ** The history *)

Definition events_of (id : string) (t : finding_tables) : list finding_status_event :=
  List.filter (λ ev, bool_decide (se_finding ev = id)) (finding_status_events t).

(** The statuses the events lead through, starting from [from]. *)
Fixpoint chain (from : string) (evs : list finding_status_event) : option string :=
  match evs with
  | [] => Some from
  | ev :: evs' => if bool_decide (se_from ev = from) then chain (se_to ev) evs' else None
  end.

(** The row's status is where its history leads. *)
Definition history_ok (t : finding_tables) : Prop :=
  NoDup (map vf_id (variance_findings t)) ∧
  ∀ f, f ∈ variance_findings t → ∃ from, chain from (events_of (vf_id f) t) = Some (vf_status f).

Lemma chain_app from evs ev : chain from (evs ++ [ev]) =
  match chain from evs with
  | Some st => if bool_decide (se_from ev = st) then Some (se_to ev) else None
  | None => None
  end.
Proof using Type.
  revert from. induction evs as [|x evs IH]; intros from; simpl; [done|].
  by case_bool_decide; rewrite ?IH.
Qed.

(** What a status update commits. *)
Lemma updateFindingStatus_spec findingId toStatus note actor e s found s' :
  updateFindingStatus findingId toStatus note actor e s = Ok (found, s') →
  dispute_part s' = dispute_part s ∧ claim_part s' = claim_part s ∧
  payment_gate_decisions s' = payment_gate_decisions s ∧ sources s' = sources s ∧
  workflow_part s' = workflow_part s ∧ jobs s' = jobs s ∧
  (∀ x, x ∈ audit_log s' → x ∈ audit_log s ∨ ae_entity x = "variance_finding") ∧
  (found = false ∧ s' = s ∨
   found = true ∧ ∃ old, old ∈ variance_findings (findings s) ∧ finding_row findingId e old = true ∧
     toStatus ∈ variance_status_values ∧
     variance_findings (findings s') = update_where (λ f, bool_decide (vf_id f = vf_id old))
       (set_finding_status toStatus) (variance_findings (findings s)) ∧
     finding_status_events (findings s') = finding_status_events (findings s) ++
       [{| se_id := gen_random_uuid (uuids_used s); se_account := vf_account old;
           se_finding := vf_id old; se_from := vf_status old; se_to := toStatus; se_note := note |}]).
Proof.
  unfold updateFindingStatus. intros Hf. tx_inv.
  destruct (select_one _ _) as [old|] eqn:Eold.
  - apply select_one_Some in Eold as [Hin Hrow]. unfold id in *. tx_inv.
    id_inv.
    match goal with Hm : emit _ _ _ = _ |- _ =>
      pose proof (emit_frame _ _ _ _ _ Hm) as (Hso & Hfi & Hdi & Hcl & Hpd & Hwf & Hjo & _);
      apply emit_ledger in Hm as (v & (_ & _ & Hent & _)%schema_fields & Hlog) end.
    rewrite Hso, Hdi, Hcl, Hpd, Hwf, Hjo, Hfi. split_and!; try done.
    { intros x Hx. destruct Hlog as [Hlog|[Hlog _]]; rewrite Hlog in Hx; [|by left].
      apply elem_of_app in Hx as [Hx| ->%list_elem_of_singleton]; [by left|].
      right. simpl. by rewrite Hent. }
    right. split; [done|]. exists old.
    match goal with Hb : bool_decide _ = true |- _ => apply bool_decide_eq_true in Hb end.
    by split_and!.
  - tx_inv. split_and!; try done; auto.
Qed.

(** Ledger entries stay. *)
Lemma updateFindingStatus_mono findingId toStatus note actor e s found s' x :
  updateFindingStatus findingId toStatus note actor e s = Ok (found, s') →
  x ∈ audit_log s → x ∈ audit_log s'.
Proof using Type.
  unfold updateFindingStatus. intros Hf Hx. tx_inv. destruct (select_one _ _) as [old|]; tx_inv; [|done].
  unfold id in *. id_inv.
  match goal with Hm : emit _ _ _ = _ |- _ => apply emit_ledger in Hm as (v & _ & [Hl|[Hl _]]) end;
    rewrite Hl; simpl; [|done]. apply elem_of_app. by left.
Qed.

Lemma events_of_app id t ev :
  List.filter (λ x, bool_decide (se_finding x = id)) (finding_status_events t ++ [ev]) =
  events_of id t ++ if bool_decide (se_finding ev = id) then [ev] else [].
Proof using Type. unfold events_of. rewrite List.filter_app. simpl. by case_bool_decide. Qed.

(** Status updates keep rows and history together. *)
Lemma updateFindingStatus_history findingId toStatus note actor e s found s' :
  history_ok (findings s) → updateFindingStatus findingId toStatus note actor e s = Ok (found, s') →
  history_ok (findings s').
Proof.
  intros [Hnd Hh] (_ & _ & _ & _ & _ & _ & _ & Hcase)%updateFindingStatus_spec.
  destruct Hcase as [(_ & ->)|(_ & old & Hold & _ & _ & Hrows & Hev)]; [by split|]. split.
  { rewrite Hrows, update_where_key; done. }
  intros f Hf. rewrite Hrows in Hf. unfold events_of. rewrite Hev, events_of_app. simpl.
  apply elem_of_update_where in Hf as [[Hf Hne]|(f0 & Hf & Heq & ->)].
  - apply bool_decide_eq_false in Hne. rewrite bool_decide_eq_false_2, app_nil_r by congruence.
    by apply Hh.
  - apply bool_decide_eq_true in Heq. simpl. rewrite Heq, bool_decide_eq_true_2 by done.
    destruct (Hh old Hold) as [from Hfrom]. exists from. rewrite chain_app, Hfrom. simpl.
    by rewrite bool_decide_eq_true_2.
Qed.

Lemma assignFinding_history findingId who actor e s found s' :
  history_ok (findings s) → assignFinding findingId who actor e s = Ok (found, s') →
  history_ok (findings s') ∧ finding_status_events (findings s') = finding_status_events (findings s).
Proof using Type.
  intros [Hnd Hh] Ha. unfold assignFinding in Ha. tx_inv. unfold id in *.
  destruct (select_one _ _) as [row|]; tx_inv; [|by split].
  id_inv. match goal with Hm : emit _ _ _ = _ |- _ => apply emit_frame in Hm as (_ & Hfi & _) end.
  rewrite Hfi. simpl. split; [|done]. split; [simpl; by rewrite update_where_key|].
  intros f Hf. simpl in Hf. apply elem_of_update_where in Hf as [[Hf _]|(f0 & Hf & _ & ->)]; exact (Hh _ Hf).
Qed.

(** ** Every analyst workflow *)

Inductive finding_op :=
  | SetStatus (findingId toStatus : string) (note actor : option string)
  | Act (findingId : string) (action : FindingAction) (note actor : option string)
  | Assign (findingId : string) (who actor : option string).
Definition run_finding_op (op : finding_op) : tx unit :=
  match op with
  | SetStatus f st n a => _ ← updateFindingStatus f st n a; mret tt
  | Act f act n a => _ ← applyFindingAction f act n a; mret tt
  | Assign f w a => _ ← assignFinding f w a; mret tt
  end.
(** Requests in sequence, each in its own transaction and tenant scope. *)
Fixpoint run_findings (ops : list (env * finding_op)) (s : db) : db :=
  match ops with
  | [] => s
  | (e, op) :: ops' => run_findings ops' (match run_finding_op op e s with Ok (_, s') => s' | Err _ => s end)
  end.

Lemma finding_op_history op e s s' : history_ok (findings s) → run_finding_op op e s = Ok (tt, s') →
  history_ok (findings s') ∧
  ∃ evs, finding_status_events (findings s') = finding_status_events (findings s) ++ evs.
Proof.
  intros Hok Hop.
  assert (∀ f st n a b, updateFindingStatus f st n a e s = Ok (b, s') → history_ok (findings s') ∧
    ∃ evs, finding_status_events (findings s') = finding_status_events (findings s) ++ evs) as Hupd.
  { intros f st n a b Hu. split; [by eapply updateFindingStatus_history|].
    apply updateFindingStatus_spec in Hu as (_ & _ & _ & _ & _ & _ & _ & [(_ & ->)|(_ & old & _ & _ & _ & _ & ->)]);
      [exists []; by rewrite app_nil_r|by eexists]. }
  destruct op; cbn [run_finding_op] in Hop; unfold applyFindingAction in Hop; tx_inv; [by eapply Hupd..|].
  match goal with Ha : assignFinding _ _ _ _ _ = _ |- _ => apply assignFinding_history in Ha as [? ->]; [|done] end.
  split; [done|]. exists []. by rewrite app_nil_r.
Qed.

(** C35: the status of a finding and its history never diverge: whatever analysts
    do, in whatever tenant scope, and whichever requests fail, every finding's
    status is where its chained status events lead, and recorded events are
    never changed or removed. *)
Theorem finding_history_never_diverges ops s :
  history_ok (findings s) →
  history_ok (findings (run_findings ops s)) ∧
  ∃ evs, finding_status_events (findings (run_findings ops s)) = finding_status_events (findings s) ++ evs.
Proof.
  revert s. induction ops as [|[e op] ops IH]; intros s Hok; cbn [run_findings].
  { split; [done|]. exists []. by rewrite app_nil_r. }
  destruct (run_finding_op op e s) as [[[] s1]|] eqn:E; [|by apply IH].
  apply finding_op_history in E as [Hok1 [evs Hevs]]; [|done].
  destruct (IH s1 Hok1) as [Hok2 [evs2 Hevs2]]. split; [done|].
  exists (evs ++ evs2). by rewrite Hevs2, Hevs, app_assoc.
Qed.
End findings.

Section witnesses.
#[local] Existing Instances demo_sha demo_uuid.
Definition demo_finding : variance_finding :=
  mkFinding (demo_id 7) (demo_id 0) (demo_id 3) "open" (Some "OVERCHARGE") (Some 1250000) (Some "USD") None demo_basis.
Definition findings_db : db := upd_finding_rows (λ _, [demo_finding]) empty_db.
Definition demo_review : list (env * finding_op) :=
  [(mkEnv 0 (Some [demo_id 0]), Act (demo_id 7) escalate None None);
   (mkEnv 1 (Some [demo_id 1]), Act (demo_id 7) waive None None);     (* another tenant: sees nothing *)
   (mkEnv 2 None, Assign (demo_id 7) (Some (demo_id 8)) None);
   (mkEnv 3 (Some [demo_id 0]), Act (demo_id 7) accept None None)].

Lemma finding_history_never_diverges_witness :
  map se_to (finding_status_events (findings (run_findings demo_review findings_db))) = ["in_review"; "accepted"] ∧
  map vf_status (variance_findings (findings (run_findings demo_review findings_db))) = ["accepted"] ∧
  history_ok (findings (run_findings demo_review findings_db)).
Proof.
  split; [vm_compute; reflexivity|]. split; [vm_compute; reflexivity|].
  apply (finding_history_never_diverges demo_review findings_db).
  split; [apply NoDup_singleton|]. intros f ->%list_elem_of_singleton. by exists "open".
Defined.
End witnesses.
