(* ===== verification/Jobs.v ===== *)
(** Background jobs ([src/src/jobs/contracts.ts], [src/src/jobs/enqueue.ts]):
    payload contracts, deterministic job ids and the transactional enqueue.  The
    queue itself, pg-boss, is a parameter. *)

From S2P Require Import Prelude JsText Decimal Json Store AuditLedger JsDate Database Tx.

Definition JOB_NAME (p : JobPayload) : string :=
  match p with
  | PROCESS_INGESTION_V1 _ => "freight.ingestion.process.v1"
  | EVALUATE_AUDIT_V1 _ => "freight.audit.evaluate.v1"
  | REPLAY_AUDIT_V1 _ _ => "freight.audit.replay.v1"
  | SYNC_REFERENCE_DATA_V1 _ _ => "freight.reference-data.sync.v1"
  | DISCOVER_TRIGGERS_V1 _ => "freight.discovery.detect-triggers.v1"
  | FOLLOW_UP_CLAIM_V1 _ => "freight.claims.follow-up.v1"
  | ESCALATE_CLAIM_V1 _ => "freight.claims.escalate.v1"
  | RUN_WORKFLOW_COMMAND_V1 _ _ _ _ => "freight.workflow.run-command.v1"
  | DELIVER_OUTBOX_MESSAGE_V1 _ _ _ _ _ => "freight.workflow.deliver-outbox-message.v1"
  | EXPORT_RECORD_V1 _ _ _ _ => "freight.exports.export-record.v1"
  end.

(** [/^[a-z][a-z0-9_]*$/] *)
Definition command_type_ok (s : string) : bool :=
  match s with
  | "" => false
  | String c s' => is_lower c &&
      string_all (λ c, is_lower c || is_digit c || (code c =? 95)%N) s'
  end.
(** [z.string().trim().min(lo).max(hi)], of the trimmed text. *)
Definition trimmed_len (lo hi : nat) (s : string) : bool :=
  let n := String.length (trim s) in (lo <=? n)%nat && (n <=? hi)%nat.

(** pg-boss: [send] with an explicit id, on the caller's connection.  [None] is a
    thrown error, [Some (inserted, jobs)] the outcome. *)
Class PgBoss := boss_send : job → list job → option (bool * list job).
Class PgBossLaws {B : PgBoss} : Prop := boss_send_spec j l b l' :
  boss_send j l = Some (b, l') →
  (b = true ∧ l' = l ++ [j] ∧ job_id j ∉ map job_id l) ∨
  (b = false ∧ l' = l ∧ job_id j ∈ map job_id l).
Arguments PgBossLaws : clear implicits.

Section jobs.
Context {H : Sha256} {Z : Zod} {B : PgBoss}.

Definition payload_ok (p : JobPayload) : bool :=
  match p with
  | PROCESS_INGESTION_V1 i | EVALUATE_AUDIT_V1 i | DISCOVER_TRIGGERS_V1 i => zod_uuid i
  | REPLAY_AUDIT_V1 r q => zod_uuid r && zod_uuid q
  | SYNC_REFERENCE_DATA_V1 source v =>
      bool_decide (source ∈ ["eia_diesel"; "mileage"; "ocean_tariff"; "nmfc"]) && trimmed_len 1 255 v
  | FOLLOW_UP_CLAIM_V1 c | ESCALATE_CLAIM_V1 c => zod_uuid c
  | RUN_WORKFLOW_COMMAND_V1 c i t _ => zod_uuid c && zod_uuid i && command_type_ok t
  | DELIVER_OUTBOX_MESSAGE_V1 o i c t _ =>
      zod_uuid o && zod_uuid i && zod_uuid c && command_type_ok t
  | EXPORT_RECORD_V1 c g code _ => nullable zod_uuid c && nullable zod_uuid g && trimmed_len 1 255 code
  end.

(** The parsed payload: keys and codes are trimmed. *)
Definition parseJobPayload (env : envelope) (p : JobPayload) : option (envelope * JobPayload) :=
  if zod_uuid (jb_clientId env) && trimmed_len 1 255 (jb_idempotencyKey env) && payload_ok p then
    Some (mkEnvelope (jb_clientId env) (trim (jb_idempotencyKey env)) (jb_requestedAt env),
          match p with
          | EXPORT_RECORD_V1 c g code body => EXPORT_RECORD_V1 c g (trim code) body
          | SYNC_REFERENCE_DATA_V1 source v => SYNC_REFERENCE_DATA_V1 source (trim v)
          | _ => p
          end)
  else None.

(** The same bytes as an audit event id: name, tenant and key, nul-separated. *)
Definition deterministicJobId (name clientId key : string) : string :=
  deterministicAuditEventId [name; clientId; key].

Definition enqueueInTransaction (transactionClientId : string) (env : envelope) (p : JobPayload)
    (jobIdKey : option string) : tx (string * bool) :=
  '(env, p) ← the (parseJobPayload env p) SchemaRejected;
  _ ← check (bool_decide (jb_clientId env = transactionClientId))
        (Thrown "JobTenantMismatchError" "JOB_TENANT_MISMATCH");
  let jobId := deterministicJobId (JOB_NAME p) (jb_clientId env)
                 (default (jb_idempotencyKey env) jobIdKey) in
  s ← query id;
  match boss_send {| job_id := jobId; job_envelope := env; job_payload := p |} (jobs s) with
  | None => throw (OtherError "pg-boss")
  | Some (inserted, jobs') => _ ← modify (set_jobs (λ _, jobs')); mret (jobId, inserted)
  end.

Lemma enqueue_frame tc env p k e s r s' : enqueueInTransaction tc env p k e s = Ok (r, s') →
  s' = set_jobs (λ _, jobs s') s.
Proof using Type.
  unfold enqueueInTransaction. intros Hq. tx_inv. unfold id in *.
  destruct (boss_send _ _) as [[b l]|]; tx_inv. done.
Qed.
End jobs.

(** A queue that never fails. *)
Definition memory_boss : PgBoss := λ j l,
  if existsb (λ x, bool_decide (job_id x = job_id j)) l then Some (false, l) else Some (true, l ++ [j]).
Lemma memory_boss_laws : PgBossLaws memory_boss.
Proof.
  intros j l b l'. unfold boss_send, memory_boss. destruct (existsb _ l) eqn:E; intros [= <- <-].
  - right. apply existsb_true in E as (x & Hx & Hid). apply bool_decide_eq_true in Hid. split_and!; try done.
    rewrite <- Hid. by apply list_elem_of_fmap_2.
  - left. split_and!; try done. intros (x & Hid & Hx)%list_elem_of_fmap.
    rewrite existsb_false in E. specialize (E x Hx). by apply bool_decide_eq_false in E.
Qed.
