(* ===== verification/Workflow.v ===== *)
(** Workflows ([src/src/modules/workflow/], [src/src/jobs/job-dispatcher.ts] and
    its two users): instances with their transition log, and the two claimable
    queues (commands and outbox messages), which share one interface,
    [QueueRow], and one life cycle. *)

From S2P Require Import Prelude JsText Decimal Json Store AuditLedger JsDate Database Tx Jobs.

(** ** Claimable rows *)

(** What claiming and reclaiming read and write of a row. *)
Class QueueRow (R : Type) := {
  q_id : R → string; q_account : R → string; q_instance : R → string;
  q_due : R → Z; q_status : R → string; q_attempts : R → Z; q_claimed_at : R → option Z;
  q_set : string → Z → option Z → R → R;
}.
Class QueueRowLaws (R : Type) `{QueueRow R} : Prop := {
  q_set_status st n c r : q_status (q_set st n c r) = st;
  q_set_attempts st n c r : q_attempts (q_set st n c r) = n;
  q_set_claimed st n c r : q_claimed_at (q_set st n c r) = c;
  q_set_id st n c r : q_id (q_set st n c r) = q_id r;
  q_set_account st n c r : q_account (q_set st n c r) = q_account r;
  q_set_due st n c r : q_due (q_set st n c r) = q_due r;
}.

#[export] Instance command_row : QueueRow workflow_command := {
  q_id := wc_id; q_account := wc_account; q_instance := wc_instance; q_due := wc_run_after;
  q_status := wc_status; q_attempts := wc_attempts; q_claimed_at := wc_claimed_at;
  q_set st n c r := mkCommand (wc_id r) (wc_account r) (wc_instance r) (wc_type r) (wc_payload r)
    (wc_run_after r) st n c;
}.
#[export] Instance outbox_row : QueueRow outbox_message := {
  q_id := om_id; q_account := om_account; q_instance := om_instance; q_due := om_created_at;
  q_status := om_status; q_attempts := om_attempts; q_claimed_at := om_claimed_at;
  q_set st n c r := mkOutbox (om_id r) (om_account r) (om_instance r) (om_command r) (om_dedupe_key r)
    (om_payload r) (om_type r) (om_created_at r) st n c;
}.
#[export] Instance command_row_laws : QueueRowLaws workflow_command.
Proof. done. Qed.
#[export] Instance outbox_row_laws : QueueRowLaws outbox_message.
Proof. done. Qed.

Section queue.
Context `{QueueRow R}.

(** [SELECT id ... WHERE p ORDER BY key LIMIT n FOR UPDATE SKIP LOCKED]; [locked]
    are the rows other transactions hold. *)
Definition select_for_update (locked : list string) (p : R → bool) (key : R → Z) (n : Z)
    (t : list R) : list string :=
  map q_id (take (Z.to_nat n) (js_sort (cmp_on key Z.compare)
    (List.filter (λ r, p r && negb (bool_decide (q_id r ∈ locked))) t))).

(** [UPDATE ... WHERE id IN (ids) RETURNING *]: the rows returned, and the table. *)
Definition update_returning (ids : list string) (f : R → R) (t : list R) : list R * list R :=
  let hit r := bool_decide (q_id r ∈ ids) in
  (map f (List.filter hit t), update_where hit f t).

(** The claim statement of claimDueWorkflowCommands and claimDueOutboxMessages. *)
Definition claim_due (locked : list string) (clientId : string) (now limit : Z) (t : list R) :
    list R * list R :=
  update_returning
    (select_for_update locked
       (λ r, uuid_is (q_account r) clientId && bool_decide (q_status r = "pending") && (q_due r <=? now))
       q_due limit t)
    (λ r, q_set "claimed" (q_attempts r + 1) (Some now) r) t.

Definition reclaim_status (maxAttempts : Z) (r : R) : string :=
  if q_attempts r >=? maxAttempts then "failed" else "pending".
(** The statement of reclaimStaleClaims. *)
Definition reclaimStaleClaims (locked : list string) (clientId : string)
    (now staleAfterMinutes maxAttempts limit : Z) (t : list R) : list R * list R :=
  let cutoff := now - staleAfterMinutes * 60000 in
  update_returning
    (select_for_update locked
       (λ r, uuid_is (q_account r) clientId && bool_decide (q_status r = "claimed") &&
             match q_claimed_at r with Some c => c <=? cutoff | None => false end)
       (λ r, default 0 (q_claimed_at r)) limit t)
    (λ r, q_set (reclaim_status maxAttempts r) (q_attempts r) None r) t.

(** The completion statement; [final] is 'done' or 'delivered'. *)
Definition complete_claimed (final clientId rowId : string) (t : list R) : bool * list R :=
  let hit r := uuid_is (q_account r) clientId && uuid_is (q_id r) rowId &&
    (bool_decide (q_status r = "claimed") || bool_decide (q_status r = final)) in
  (existsb hit t, update_where hit (λ r, q_set final (q_attempts r) (q_claimed_at r) r) t).

(** ** The life cycle of a queue *)

(** One committed statement on a queue whose rows end in [final]; the defaults
    are those of the reclaim schema: 30 minutes, 5 attempts, 20 rows.  [claimed]
    lists what the statement hands to a worker: row id and attempt number;
    [clock] tells the instants at which scans run. *)
Inductive queue_step (clock : Z → Prop) (final : string) : list R → list (string * Z) → list R → Prop :=
  | step_insert r t :
      q_id r ∉ map q_id t → q_status r = "pending" → q_attempts r = 0 →
      queue_step clock final t [] (t ++ [r])
  | step_claim locked clientId now limit t :
      clock now →
      queue_step clock final t
        (map (λ r, (q_id r, q_attempts r)) (claim_due locked clientId now limit t).1)
        (claim_due locked clientId now limit t).2
  | step_reclaim locked clientId now t :
      clock now →
      queue_step clock final t [] (reclaimStaleClaims locked clientId now 30 5 20 t).2
  | step_complete clientId rowId t :
      queue_step clock final t [] (complete_claimed final clientId rowId t).2.

(** Any interleaving of steps; the log collects every claim, in order. *)
Inductive queue_run (clock : Z → Prop) (final : string) : list R → list (string * Z) → list R → Prop :=
  | run_nil t : queue_run clock final t [] t
  | run_step t log t1 claimed t2 :
      queue_run clock final t log t1 → queue_step clock final t1 claimed t2 →
      queue_run clock final t (log ++ claimed) t2.

Definition queue_statuses (final : string) : list string := ["pending"; "claimed"; "failed"; final].
(** A row no worker holds has attempts left, and none has more than five. *)
Definition queue_row_ok (final : string) (r : R) : Prop :=
  q_status r ∈ queue_statuses final ∧ 0 <= q_attempts r <= 5 ∧
  (q_status r = "pending" → q_attempts r < 5) ∧ (q_status r = "claimed" → 1 <= q_attempts r).
Definition queue_ok (final : string) (t : list R) : Prop :=
  NoDup (map q_id t) ∧ ∀ r, r ∈ t → queue_row_ok final r.
(** Everything ever claimed is an attempt some row has made. *)
Definition log_ok (log : list (string * Z)) (t : list R) : Prop :=
  NoDup log ∧ ∀ id n, (id, n) ∈ log → ∃ r, r ∈ t ∧ q_id r = id ∧ n <= q_attempts r.

Context `{!QueueRowLaws R}.
Implicit Types (t : list R) (r : R).

Lemma elem_of_select locked p key n t i :
  i ∈ select_for_update locked p key n t → ∃ r, r ∈ t ∧ q_id r = i ∧ p r = true ∧ q_id r ∉ locked.
Proof using Type.
  unfold select_for_update. intros (r & -> & Hr)%list_elem_of_fmap.
  apply (subseteq_take _ _) in Hr. rewrite elem_of_js_sort in Hr.
  apply list_elem_of_In, List.filter_In in Hr as [Hr Hp]. apply list_elem_of_In in Hr.
  rewrite andb_true_iff, negb_true_iff, bool_decide_eq_false in Hp. naive_solver.
Qed.

Lemma q_id_inj t r r' : NoDup (map q_id t) → r ∈ t → r' ∈ t → q_id r = q_id r' → r = r'.
Proof using Type.
  intros Hnd Hr Hr' Heq. pose proof (select_one_unique q_id t r Hnd Hr) as H1.
  pose proof (select_one_unique q_id t r' Hnd Hr') as H2. rewrite Heq in H1. congruence.
Qed.

(** The rows a statement hits satisfy its condition. *)
Lemma hit_cond locked p key n t r : NoDup (map q_id t) → r ∈ t →
  bool_decide (q_id r ∈ select_for_update locked p key n t) = true → p r = true.
Proof using Type.
  intros Hnd Hr Hh. apply bool_decide_eq_true, elem_of_select in Hh as (r' & Hr' & Hid & Hp & _).
  by rewrite <- (q_id_inj t r' r).
Qed.

Lemma update_rows_ok final (hit : R → bool) f t :
  (∀ r, q_id (f r) = q_id r) → queue_ok final t →
  (∀ r, r ∈ t → hit r = true → queue_row_ok final r → queue_row_ok final (f r)) →
  queue_ok final (update_where hit f t).
Proof using Type.
  intros Hid [Hnd Hok] Hf. split; [by rewrite update_where_key|].
  intros r [[Hr _]|(r0 & Hr & Hh & ->)]%elem_of_update_where; [by apply Hok|]. auto.
Qed.

Lemma claimed_row_ok final now r : queue_row_ok final r → q_status r = "pending" →
  queue_row_ok final (q_set "claimed" (q_attempts r + 1) (Some now) r).
Proof.
  intros (_ & Hn & Hp & _) Hs. specialize (Hp Hs). unfold queue_row_ok.
  rewrite q_set_status, q_set_attempts. split_and!; try lia; try done.
  unfold queue_statuses. rewrite !elem_of_cons. auto.
Qed.

Lemma reclaimed_row_ok final r : queue_row_ok final r → q_status r = "claimed" →
  queue_row_ok final (q_set (reclaim_status 5 r) (q_attempts r) None r).
Proof.
  intros (_ & Hn & _ & Hc) Hs. specialize (Hc Hs). unfold queue_row_ok, queue_statuses, reclaim_status.
  rewrite q_set_status, q_set_attempts, !elem_of_cons. rewrite Z.geb_leb.
  destruct (Z.leb_spec 5 (q_attempts r)); split_and!; try done; auto; lia.
Qed.

Lemma completed_row_ok final r : final ≠ "pending" → queue_row_ok final r →
  (q_status r = "claimed" ∨ q_status r = final) →
  queue_row_ok final (q_set final (q_attempts r) (q_claimed_at r) r).
Proof.
  intros Hfin (Hst & Hn & _ & Hc) Hs. unfold queue_row_ok.
  rewrite q_set_status, q_set_attempts. split_and!; try lia; try done.
  - unfold queue_statuses. rewrite !elem_of_cons. auto.
  - intros ->. destruct Hs as [Hs|Hs]; auto.
Qed.

Lemma queue_step_ok clock final t claimed t' :
  final ≠ "pending" → queue_ok final t → queue_step clock final t claimed t' → queue_ok final t'.
Proof.
  intros Hfin Hok Hstep. pose proof Hok as [Hnd Hrows].
  destruct Hstep as [r t Hid Hs Hn|locked c now limit t _|locked c now t _|c i t]; simpl.
  - split.
    + rewrite map_app. apply NoDup_app. split; [done|]. split; [|apply NoDup_singleton].
      intros k Hk. simpl. rewrite list_elem_of_singleton. congruence.
    + intros r' [Hr'| ->%list_elem_of_singleton]%elem_of_app; [by apply Hrows|].
      unfold queue_row_ok, queue_statuses. rewrite Hs, Hn, !elem_of_cons. split_and!; auto; try done; lia.
  - apply update_rows_ok; [intros; apply q_set_id|done|]. intros r Hr Hh Hro. apply hit_cond in Hh; [|done..].
    rewrite !andb_true_iff, bool_decide_eq_true in Hh. destruct_and? Hh. by apply claimed_row_ok.
  - apply update_rows_ok; [intros; apply q_set_id|done|]. intros r Hr Hh Hro. apply hit_cond in Hh; [|done..].
    rewrite !andb_true_iff, bool_decide_eq_true in Hh. destruct_and? Hh. by apply reclaimed_row_ok.
  - apply update_rows_ok; [intros; apply q_set_id|done|]. intros r Hr Hh Hro.
    rewrite !andb_true_iff, orb_true_iff, !bool_decide_eq_true in Hh. destruct_and? Hh. by apply completed_row_ok.
Qed.

(** A step never takes an attempt back, and leaves finished rows finished. *)
Lemma queue_step_row clock final t claimed t' r :
  final ≠ "pending" → final ≠ "claimed" → NoDup (map q_id t) → queue_step clock final t claimed t' → r ∈ t →
  ∃ r', r' ∈ t' ∧ q_id r' = q_id r ∧ q_attempts r <= q_attempts r' ∧
    (q_status r = final ∨ q_status r = "failed" → q_status r' = q_status r).
Proof.
  intros Hfin Hfin2 Hnd Hstep Hr.
  assert (∀ (hit : R → bool) f, (hit r = true → q_id (f r) = q_id r ∧ q_attempts r <= q_attempts (f r) ∧
    (q_status r = final ∨ q_status r = "failed" → q_status (f r) = q_status r)) →
    ∃ r', r' ∈ update_where hit f t ∧ q_id r' = q_id r ∧ q_attempts r <= q_attempts r' ∧
    (q_status r = final ∨ q_status r = "failed" → q_status r' = q_status r)) as Hupd.
  { intros hit f Hf. pose proof (update_where_keeps hit f t r Hr) as Hin.
    destruct (hit r); eexists; (split; [exact Hin|]); [auto|]. split_and!; [done|lia|done]. }
  destruct Hstep as [r' t _ _ _|locked c now limit t _|locked c now t _|c i t]; simpl.
  - exists r. split_and!; [set_solver|done|lia|done].
  - apply Hupd. intros Hh. apply hit_cond in Hh; [|done..].
    rewrite !andb_true_iff, bool_decide_eq_true in Hh. destruct_and? Hh.
    rewrite q_set_id, q_set_attempts. split_and!; [done|lia|]. intros [?|?]; by (congruence || destruct_or?; congruence).
  - apply Hupd. intros Hh. apply hit_cond in Hh; [|done..].
    rewrite !andb_true_iff, bool_decide_eq_true in Hh. destruct_and? Hh.
    rewrite q_set_id, q_set_attempts. split_and!; [done|lia|]. intros [?|?]; by (congruence || destruct_or?; congruence).
  - apply Hupd. intros Hh. rewrite !andb_true_iff, orb_true_iff, !bool_decide_eq_true in Hh.
    destruct_and? Hh. rewrite q_set_id, q_set_attempts, q_set_status. split_and!; [done|lia|]. intros [?|?]; by (congruence || destruct_or?; congruence).
Qed.

(** What a claim statement hands out: fresh attempts, once per row. *)
Lemma claim_due_log locked c now limit t :
  NoDup (map q_id t) →
  NoDup (map (λ r, (q_id r, q_attempts r)) (claim_due locked c now limit t).1) ∧
  ∀ id n, (id, n) ∈ map (λ r, (q_id r, q_attempts r)) (claim_due locked c now limit t).1 →
    ∃ r, r ∈ t ∧ q_id r = id ∧ n = q_attempts r + 1 ∧ q_status r = "pending" ∧
    ∃ r', r' ∈ (claim_due locked c now limit t).2 ∧ q_id r' = id ∧ q_attempts r' = n.
Proof.
  intros Hnd. unfold claim_due, update_returning. cbn [fst snd]. set (ids := select_for_update _ _ _ _ _).
  set (f := λ r : R, q_set "claimed" (q_attempts r + 1) (Some now) r). split.
  - rewrite map_map. apply (NoDup_fmap_1 fst). rewrite <- list_fmap_compose.
    assert (∀ l, NoDup (map q_id l) → NoDup (fst ∘ (λ x, (q_id (f x), q_attempts (f x))) <$>
      List.filter (λ r, bool_decide (q_id r ∈ ids)) l)) as Hf; [|by apply Hf].
    clear Hnd. induction l as [|x l IH]; simpl; [constructor|]. intros [Hx Hl]%NoDup_cons.
    case_bool_decide; [|by apply IH]. constructor; [|by apply IH].
    intros (y & Hy & Hin)%list_elem_of_fmap. unfold f in Hy. simpl in Hy. rewrite !q_set_id in Hy.
    apply list_elem_of_In, List.filter_In in Hin as [Hin _]. apply Hx. rewrite Hy.
    apply list_elem_of_fmap_2. by apply list_elem_of_In.
  - intros id n (r1 & Hpair & (r & -> & Hr)%list_elem_of_fmap)%list_elem_of_fmap. simplify_eq.
    apply list_elem_of_In, List.filter_In in Hr as [Hr Hh]. apply list_elem_of_In in Hr.
    exists r. pose proof (hit_cond _ _ _ _ _ _ Hnd Hr Hh) as Hp.
    rewrite !andb_true_iff, bool_decide_eq_true in Hp. destruct_and? Hp. unfold f.
    rewrite q_set_id, q_set_attempts. split_and!; try done.
    pose proof (update_where_keeps (λ r, bool_decide (q_id r ∈ ids)) f t r Hr) as Hin. cbv beta in Hin, Hh. rewrite Hh in Hin.
    exists (f r). unfold f at 2 3. by rewrite q_set_id, q_set_attempts.
Qed.

Lemma queue_step_log clock final t claimed t' log :
  final ≠ "pending" → final ≠ "claimed" → queue_ok final t → log_ok log t → queue_step clock final t claimed t' →
  log_ok (log ++ claimed) t'.
Proof.
  intros Hf1 Hf2 [Hnd Hok] [Hlog Hin] Hstep.
  assert (∀ id n, (id, n) ∈ log → ∃ r, r ∈ t' ∧ q_id r = id ∧ n <= q_attempts r) as Hold.
  { intros id n (r & Hr & <- & Hn)%Hin.
    destruct (queue_step_row clock final t claimed t' r) as (r' & Hr' & Hid & Ha & _); [done..|].
    exists r'. split_and!; [done..|lia]. }
  destruct Hstep as [r t _ _ _|locked c now limit t _|locked c now t _|c i t];
    try (rewrite app_nil_r; by split).
  destruct (claim_due_log locked c now limit t Hnd) as [Hnew Hrow]. split.
  - apply NoDup_app. split; [done|]. split; [|done]. intros [id n] (r & Hr & Hid & Hn)%Hin Hc.
    apply Hrow in Hc as (r' & Hr' & Hid' & -> & _). assert (r = r') as ->; [|lia].
    apply (q_id_inj t); congruence.
  - intros id n [Hc|Hc]%elem_of_app; [by apply Hold|].
    apply Hrow in Hc as (_ & _ & _ & _ & _ & r' & Hr' & Hid & Hn). exists r'. split_and!; [done..|lia].
Qed.

Lemma queue_run_ok clock final t log t' :
  final ≠ "pending" → final ≠ "claimed" → queue_ok final t → queue_run clock final t log t' →
  queue_ok final t' ∧ log_ok log t'.
Proof.
  intros Hf1 Hf2 Hok. induction 1 as [t|t log t1 claimed t2 _ IH Hstep].
  - split; [done|]. split; [constructor|]. set_solver.
  - destruct (IH Hok) as [Hok1 Hlog]. split; [by eapply queue_step_ok|by eapply queue_step_log].
Qed.

(** No two workers are ever handed the same attempt of a queue row, whatever
    the interleaving of claims, reclaims after a crash and completions; a row is
    handed out at most five times, and rows stay well-formed (a pending row has
    an attempt left). *)
Theorem queue_claims_unique clock final t log t' :
  final ≠ "pending" → final ≠ "claimed" → queue_ok final t → queue_run clock final t log t' →
  NoDup log ∧ queue_ok final t' ∧ ∀ id n, (id, n) ∈ log → n <= 5.
Proof.
  intros Hf1 Hf2 Hok Hrun. destruct (queue_run_ok clock final t log t') as [Hok' [Hnd Hin]]; [done..|].
  split_and!; [done..|]. intros id n (r & Hr & _ & Hn)%Hin. destruct Hok' as [_ Hrows].
  destruct (Hrows r Hr) as (_ & [_ Ha] & _). lia.
Qed.

(** A finished row stays finished: once a command is done (a message
    delivered) or has failed, no later step of any worker changes its status. *)
Theorem queue_terminal_absorbing clock final t log t' r :
  final ≠ "pending" → final ≠ "claimed" → queue_ok final t → queue_run clock final t log t' →
  r ∈ t → q_status r = final ∨ q_status r = "failed" →
  ∃ r', r' ∈ t' ∧ q_id r' = q_id r ∧ q_status r' = q_status r.
Proof.
  intros Hf1 Hf2 Hok Hrun Hr Hs. induction Hrun as [t|t log t1 claimed t2 Hrun IH Hstep]; [eauto|].
  destruct IH as (r1 & Hr1 & Hid1 & Hs1); [done..|].
  destruct (queue_run_ok clock final t log t1) as [[Hnd _] _]; [done..|].
  destruct (queue_step_row clock final t1 claimed t2 r1) as (r2 & Hr2 & Hid2 & _ & Hs2); [done..|].
  exists r2. rewrite Hs2, Hid2 by (rewrite Hs1; done). done.
Qed.
End queue.

Section witnesses.
Definition demo_command (n : Z) (status : string) (attempts : Z) (claimed_at : option Z) : workflow_command :=
  mkCommand (demo_id n) (demo_id 0) (demo_id 1) "deliver_dispute" [] 0 status attempts claimed_at.
Definition demo_queue : list workflow_command := [demo_command 5 "pending" 0 None].

Lemma demo_queue_ok : queue_ok "done" demo_queue.
Proof.
  split; [apply NoDup_singleton|]. intros r ->%list_elem_of_singleton.
  unfold queue_row_ok, queue_statuses. simpl. rewrite !elem_of_cons. split_and!; auto; try done; lia.
Qed.

(** Claimed, lost by its worker, reclaimed after half an hour, claimed again. *)
Lemma demo_queue_run :
  queue_run (λ _, True) "done" demo_queue [(demo_id 5, 1); (demo_id 5, 2)] [demo_command 5 "claimed" 2 (Some 1800020)].
Proof.
  eapply (run_step _ _ _ [(demo_id 5, 1)] _ [(demo_id 5, 2)]).
  2:{ exact (step_claim (R:=workflow_command) (λ _, True) "done" [] (demo_id 0) 1800020 20 [demo_command 5 "pending" 1 None] I). }
  eapply (run_step _ _ _ [(demo_id 5, 1)] _ []).
  2:{ exact (step_reclaim (R:=workflow_command) (λ _, True) "done" [] (demo_id 0) 1800010 [demo_command 5 "claimed" 1 (Some 10)] I). }
  eapply (run_step _ _ _ [] _ [(demo_id 5, 1)]); [constructor|].
  exact (step_claim (R:=workflow_command) (λ _, True) "done" [] (demo_id 0) 10 20 demo_queue I).
Qed.

Lemma queue_claims_unique_witness : NoDup [(demo_id 5, 1); (demo_id 5, 2)].
Proof.
  exact (proj1 (queue_claims_unique (R:=workflow_command) (λ _, True) "done" _ _ _ ltac:(done) ltac:(done)
    demo_queue_ok demo_queue_run)).
Defined.

Lemma queue_terminal_absorbing_witness :
  let t := [demo_command 5 "failed" 5 None] in
  ∃ r', r' ∈ (complete_claimed "done" (demo_id 0) (demo_id 5) t).2 ∧ wc_status r' = "failed".
Proof.
  intros t. destruct (queue_terminal_absorbing (R:=workflow_command) (λ _, True) "done" t []
    (complete_claimed "done" (demo_id 0) (demo_id 5) t).2 (demo_command 5 "failed" 5 None)) as (r' & Hr & _ & Hs).
  - done.
  - done.
  - split; [apply NoDup_singleton|]. intros r ->%list_elem_of_singleton.
    unfold queue_row_ok, queue_statuses. simpl. rewrite !elem_of_cons. split_and!; auto; try done; lia.
  - eapply (run_step _ _ _ [] _ []); [constructor|]. exact (step_complete (R:=workflow_command) (λ _, True) "done" _ _ t).
  - by apply list_elem_of_singleton.
  - by right.
  - exists r'. split; [exact Hr|exact Hs].
Defined.
End witnesses.
