(* ===== verification/WorkflowOps.v ===== *)
(** The workflow handlers ([src/src/modules/workflow/] and the job handlers that
    run claimed work, [src/src/jobs/job-dispatcher.ts]) as transactions on the
    database, and the legality of an instance's transition log. *)

From S2P Require Import Prelude JsText Decimal Json Store AuditLedger JsDate Database Tx Jobs Workflow.

Definition upd_instances (f : list workflow_instance → list workflow_instance) : db → db :=
  upd_workflow (λ t, mkWorkflow (f (workflow_instances t)) (workflow_transitions t)
                       (workflow_commands t) (outbox t)).
Definition add_transition (x : workflow_transition) : db → db :=
  upd_workflow (λ t, mkWorkflow (workflow_instances t) (workflow_transitions t ++ [x])
                       (workflow_commands t) (outbox t)).
Definition upd_commands (f : list workflow_command → list workflow_command) : db → db :=
  upd_workflow (λ t, mkWorkflow (workflow_instances t) (workflow_transitions t)
                       (f (workflow_commands t)) (outbox t)).
Definition upd_outbox (f : list outbox_message → list outbox_message) : db → db :=
  upd_workflow (λ t, mkWorkflow (workflow_instances t) (workflow_transitions t)
                       (workflow_commands t) (f (outbox t))).

Definition set_instance_state (st : string) (i : workflow_instance) : workflow_instance :=
  mkInstance (wi_id i) (wi_account i) (wi_type i) (wi_entity i) (wi_entity_id i) st.

(** ** Transition legality *)

(** The names every object literal inherits: reading one of them as a state
    yields a function (or an object) without an [includes] method. *)
Definition object_prototype_names : list string :=
  ["constructor"; "__defineGetter__"; "__defineSetter__"; "hasOwnProperty"; "__lookupGetter__";
   "__lookupSetter__"; "isPrototypeOf"; "propertyIsEnumerable"; "toString"; "valueOf"; "__proto__";
   "toLocaleString"].

Definition validateWorkflowTransition (fromState toState : string)
    (allowedTransitions : list (string * list string)) : result handler_error unit :=
  if bool_decide (fromState = toState) then Ok tt else
  match map_get allowedTransitions fromState with
  | Some allowed =>
      guard_or (bool_decide (toState ∈ allowed)) (Thrown "WorkflowTransitionError" "ILLEGAL_TRANSITION")
  | None =>
      if bool_decide (fromState ∈ object_prototype_names) then Err (OtherError "TypeError")
      else Err (Thrown "WorkflowTransitionError" "UNKNOWN_FROM_STATE")
  end.

(** The table a scan works on: reading and writing it, and its event names. *)
Record ReclaimStaleClaimsConfig (R : Type) := {
  rc_get : workflow_tables → list R; rc_put : list R → db → db;
  rc_entity : string; rc_reclaimedEvent : string; rc_failedEvent : string;
}.
Arguments rc_get {R} _ _.
Arguments rc_put {R} _ _ _.
Arguments rc_entity {R} _.
Arguments rc_reclaimedEvent {R} _.
Arguments rc_failedEvent {R} _.

(** What the shared dispatcher is configured with. *)
Record job_config (ctx : Type) := {
  jc_type : string; jc_ctx : ctx; jc_clientId : string; jc_complete : tx bool;
  jc_entity : string; jc_entityId : string; jc_event : string; jc_detail : list (string * json);
  jc_error : handler_error;
}.
Arguments jc_type {ctx} _.
Arguments jc_ctx {ctx} _.
Arguments jc_clientId {ctx} _.
Arguments jc_complete {ctx} _.
Arguments jc_entity {ctx} _.
Arguments jc_entityId {ctx} _.
Arguments jc_event {ctx} _.
Arguments jc_detail {ctx} _.
Arguments jc_error {ctx} _.

Record command_ctx := mkCtx {
  cx_clientId : string; cx_workflowInstanceId : string; cx_commandId : string; cx_commandType : string;
  cx_payload : list (string * json);
}.
Record sender_ctx := mkSend {
  sx_clientId : string; sx_workflowInstanceId : string; sx_commandId : string;
  sx_outboxMessageId : string; sx_idempotencyKey : string; sx_payload : list (string * json);
}.

Section workflow.
Context {H : Sha256} {U : UuidSource} {Z : Zod} {B : PgBoss}.

(** ** Instances *)

Definition same_subject (clientId workflowType entity entityId : string) (i : workflow_instance) : bool :=
  uuid_is (wi_account i) clientId && bool_decide (wi_type i = workflowType) &&
  bool_decide (wi_entity i = entity) && uuid_is (wi_entity_id i) entityId.

Definition createWorkflowInstance (clientId workflowType subjectEntity subjectEntityId initialState : string) :
    tx workflow_instance :=
  let subject := same_subject clientId workflowType subjectEntity subjectEntityId in
  s ← query id;
  match select_one subject (workflow_instances (workflow_part s)) with
  | Some row => mret row
  | None =>
      rowId ← new_uuid;
      let row := mkInstance rowId (pg_uuid clientId) workflowType subjectEntity
                   (pg_uuid subjectEntityId) initialState in
      let '(inserted, rows) := insert_on_conflict subject row (workflow_instances (workflow_part s)) in
      if inserted then
        _ ← primary_key (map wi_id (workflow_instances (workflow_part s))) rowId;
        _ ← modify (upd_instances (λ _, rows));
        _ ← emit (audit_event (deterministicAuditEventId [wi_account row; rowId; "workflow.created"])
               (wi_account row) "workflow_instance" rowId "workflow.created" ActorSystem None
               [("workflowType", JString workflowType); ("subjectEntity", JString subjectEntity);
                ("subjectEntityId", JString (wi_entity_id row)); ("initialState", JString initialState)]);
        mret row
      else
        the (select_one subject rows)
          (OtherError "workflow_instance insert conflicted but no row was found on re-read")
  end.

Definition getWorkflowInstance (workflowInstanceId : string) : tx (option workflow_instance) :=
  e ← ask id;
  query (λ s, select_one (λ i, uuid_is (wi_id i) workflowInstanceId && visible e (wi_account i))
                (workflow_instances (workflow_part s))).

Definition instance_row (clientId instanceId : string) (i : workflow_instance) : bool :=
  uuid_is (wi_account i) clientId && uuid_is (wi_id i) instanceId.

Definition appendWorkflowTransition (clientId workflowInstanceId toState : string)
    (allowedTransitions : list (string * list string)) : tx bool :=
  _ ← check (zod_uuid clientId && zod_uuid workflowInstanceId && negb (bool_decide (toState = "")))
        SchemaRejected;
  instance ← query (λ s, select_one (instance_row clientId workflowInstanceId)
                            (workflow_instances (workflow_part s)));
  instance ← the instance (Thrown "AppendWorkflowTransitionError" "INSTANCE_NOT_FOUND");
  _ ← lift (validateWorkflowTransition (wi_state instance) toState allowedTransitions);
  _ ← modify (upd_instances (update_where (λ i, bool_decide (wi_id i = wi_id instance))
                               (set_instance_state toState)));
  transitionId ← new_uuid;
  log ← query (λ s, map wt_id (workflow_transitions (workflow_part s)));
  _ ← primary_key log transitionId;
  _ ← modify (add_transition {| wt_id := transitionId; wt_instance := wi_id instance;
                               wt_from := wi_state instance; wt_to := toState |});
  _ ← emit (audit_event
         (deterministicAuditEventId [wi_account instance; transitionId; "workflow.transitioned"])
         (wi_account instance) "workflow_instance" (wi_id instance) "workflow.transitioned" ActorSystem
         None [("fromState", JString (wi_state instance)); ("toState", JString toState);
               ("transitionId", JString transitionId)]);
  mret true.

(** ** Commands *)

Definition same_command (clientId instanceId commandType : string) (runAfter : BinInt.Z)
    (c : workflow_command) : bool :=
  uuid_is (wc_account c) clientId && uuid_is (wc_instance c) instanceId &&
  bool_decide (wc_type c = commandType) && (wc_run_after c =? runAfter).

Definition scheduleWorkflowCommand (clientId workflowInstanceId commandType : string)
    (payload : list (string * json)) (runAfter : BinInt.Z) : tx (string * bool) :=
  _ ← check (zod_uuid clientId && zod_uuid workflowInstanceId && command_type_ok commandType)
        SchemaRejected;
  s ← query id;
  _ ← check (existsb (instance_row clientId workflowInstanceId) (workflow_instances (workflow_part s)))
        (Thrown "ScheduleWorkflowCommandError" "INSTANCE_NOT_FOUND");
  rowId ← new_uuid;
  let clash := same_command clientId workflowInstanceId commandType runAfter in
  let '(inserted, rows) := insert_on_conflict clash
    (mkCommand rowId (pg_uuid clientId) (pg_uuid workflowInstanceId) commandType payload runAfter
       "pending" 0 None) (workflow_commands (workflow_part s)) in
  if inserted then
    _ ← primary_key (map wc_id (workflow_commands (workflow_part s))) rowId;
    _ ← modify (upd_commands (λ _, rows));
    _ ← emit (audit_event (deterministicAuditEventId [clientId; rowId; "workflow.command_scheduled"])
           clientId "workflow_command" rowId "workflow.command_scheduled" ActorSystem None
           [("workflowInstanceId", JString workflowInstanceId); ("commandType", JString commandType);
            ("runAfter", JString (toISOString runAfter))]);
    mret (rowId, true)
  else
    existing ← the (select_one clash rows) (OtherError "TypeError");
    mret (wc_id existing, false).

Definition claimDueWorkflowCommands (locked : list string) (clientId : string) (at_ limit : BinInt.Z) :
    tx (list workflow_command) :=
  _ ← check (zod_uuid clientId && (0 <? limit) && (limit <=? 100)) SchemaRejected;
  s ← query id;
  let '(rows, table) := claim_due locked clientId at_ limit (workflow_commands (workflow_part s)) in
  _ ← modify (upd_commands (λ _, table));
  mret rows.

Definition completeWorkflowCommand (clientId commandId : string) : tx bool :=
  _ ← check (zod_uuid clientId && zod_uuid commandId) SchemaRejected;
  s ← query id;
  let '(found, table) := complete_claimed "done" clientId commandId (workflow_commands (workflow_part s)) in
  _ ← modify (upd_commands (λ _, table));
  mret found.

(** ** The outbox *)

Definition recordOutboxMessage (clientId workflowInstanceId commandId dedupeKey : string)
    (payload : list (string * json)) (messageType : string) : tx (string * bool) :=
  _ ← check (zod_uuid clientId && zod_uuid workflowInstanceId && zod_uuid commandId &&
             trimmed_len 1 255 dedupeKey && command_type_ok (trim messageType)) SchemaRejected;
  let dedupeKey := trim dedupeKey in
  s ← query id;
  _ ← check (existsb (λ c, uuid_is (wc_account c) clientId && uuid_is (wc_id c) commandId)
               (workflow_commands (workflow_part s)))
        (Thrown "RecordOutboxMessageError" "COMMAND_NOT_FOUND");
  rowId ← new_uuid;
  e ← ask id;
  let clash m := uuid_is (om_account m) clientId && bool_decide (om_dedupe_key m = dedupeKey) in
  let '(inserted, rows) := insert_on_conflict clash
    (mkOutbox rowId (pg_uuid clientId) (pg_uuid workflowInstanceId) (pg_uuid commandId) dedupeKey
       payload (trim messageType) (now e) "pending" 0 None) (outbox (workflow_part s)) in
  if inserted then
    _ ← primary_key (map om_id (outbox (workflow_part s))) rowId;
    _ ← modify (upd_outbox (λ _, rows));
    _ ← emit (audit_event (deterministicAuditEventId [clientId; rowId; "workflow.outbox_message_recorded"])
           clientId "workflow_outbox_message" rowId "workflow.outbox_message_recorded" ActorSystem None
           [("workflowInstanceId", JString workflowInstanceId); ("commandId", JString commandId);
            ("dedupeKey", JString dedupeKey)]);
    mret (rowId, true)
  else
    existing ← the (select_one clash rows) (OtherError "TypeError");
    mret (om_id existing, false).

Definition claimDueOutboxMessages (locked : list string) (clientId : string) (at_ limit : BinInt.Z) :
    tx (list outbox_message) :=
  _ ← check (zod_uuid clientId && (0 <? limit) && (limit <=? 100)) SchemaRejected;
  s ← query id;
  let '(rows, table) := claim_due locked clientId at_ limit (outbox (workflow_part s)) in
  _ ← modify (upd_outbox (λ _, table));
  mret rows.

Definition completeOutboxMessage (clientId outboxMessageId : string) : tx bool :=
  _ ← check (zod_uuid clientId && zod_uuid outboxMessageId) SchemaRejected;
  s ← query id;
  let '(found, table) := complete_claimed "delivered" clientId outboxMessageId (outbox (workflow_part s)) in
  _ ← modify (upd_outbox (λ _, table));
  (if found then
     _ ← emit (audit_event
            (deterministicAuditEventId [clientId; outboxMessageId; "workflow.outbox_message_delivered"])
            clientId "workflow_outbox_message" outboxMessageId "workflow.outbox_message_delivered"
            ActorSystem None []);
     mret found
   else mret found).

(** ** Scans *)

Definition active_accounts (s : db) : list string :=
  map acc_id (List.filter acc_is_active (accounts (sources s))).

Definition reclaimStaleWorkflowCommands_CONFIG : ReclaimStaleClaimsConfig workflow_command := {|
  rc_get := workflow_commands; rc_put rows := upd_commands (λ _, rows);
  rc_entity := "workflow_command"; rc_reclaimedEvent := "workflow.command_reclaimed";
  rc_failedEvent := "workflow.command_failed" |}.
Definition reclaimStaleOutboxMessages_CONFIG : ReclaimStaleClaimsConfig outbox_message := {|
  rc_get := outbox; rc_put rows := upd_outbox (λ _, rows);
  rc_entity := "workflow_outbox_message"; rc_reclaimedEvent := "workflow.outbox_message_reclaimed";
  rc_failedEvent := "workflow.outbox_message_failed" |}.

(** The counts are how many rows went back to pending and how many failed. *)
Definition reclaimStaleClaimsForActiveClients `{QueueRow R} (locked : list string)
    (config : ReclaimStaleClaimsConfig R) (at_ : BinInt.Z) : tx (nat * nat) :=
  clients ← query active_accounts;
  outcomes ← for_each (λ clientId,
    _ ← check (zod_uuid clientId) SchemaRejected;
    s ← query id;
    let '(rows, table) := reclaimStaleClaims locked clientId at_ 30 5 20 (rc_get config (workflow_part s)) in
    _ ← modify (rc_put config table);
    for_each (λ row,
      let failed := bool_decide (q_status row = "failed") in
      let event := if failed then rc_failedEvent config else rc_reclaimedEvent config in
      _ ← emit (audit_event
             (deterministicAuditEventId [clientId; q_id row; event; fixed 0 (q_attempts row)])
             clientId (rc_entity config) (q_id row) event ActorSystem None
             [("workflowInstanceId", JString (q_instance row)); ("attempts", json_int (q_attempts row))]);
      mret failed) rows) clients;
  let all := concat outcomes in
  mret (length (List.filter negb all), length (List.filter id all)).

Definition command_job_key (commandId : string) (attempts : BinInt.Z) : string :=
  "workflow-command:" +:+ commandId +:+ ":" +:+ fixed 0 attempts.
Definition outbox_job_key (messageId : string) (attempts : BinInt.Z) : string :=
  "workflow-outbox-message:" +:+ messageId +:+ ":" +:+ fixed 0 attempts.

Definition scheduleWorkflowCommandJobs (locked : list string) (at_ : BinInt.Z) : tx nat :=
  clients ← query active_accounts;
  sent ← for_each (λ clientId,
    due ← claimDueWorkflowCommands locked clientId at_ 20;
    for_each (λ command, enqueueInTransaction clientId
      (mkEnvelope clientId (command_job_key (wc_id command) (wc_attempts command)) (toISOString at_))
      (RUN_WORKFLOW_COMMAND_V1 (wc_id command) (wc_instance command) (wc_type command) (wc_payload command))
      None) due) clients;
  mret (length (concat sent)).

Definition scheduleOutboxDeliveryJobs (locked : list string) (at_ : BinInt.Z) : tx nat :=
  clients ← query active_accounts;
  sent ← for_each (λ clientId,
    due ← claimDueOutboxMessages locked clientId at_ 20;
    for_each (λ message, enqueueInTransaction clientId
      (mkEnvelope clientId (om_dedupe_key message) (toISOString at_))
      (DELIVER_OUTBOX_MESSAGE_V1 (om_id message) (om_instance message) (om_command message)
         (om_type message) (om_payload message))
      (Some (outbox_job_key (om_id message) (om_attempts message)))) due) clients;
  mret (length (concat sent)).

(** ** Running a claimed command or message *)

(** [dispatch] of the shared dispatcher, on a registry of handlers. *)
Definition dispatch {ctx} (registry : list (string * (ctx → tx unit))) (config : job_config ctx) : tx unit :=
  handler ← the (map_get registry (jc_type config)) (jc_error config);
  _ ← handler (jc_ctx config);
  _ ← jc_complete config;
  _ ← emit (audit_event
         (deterministicAuditEventId [jc_clientId config; jc_entityId config; jc_event config])
         (jc_clientId config) (jc_entity config) (jc_entityId config) (jc_event config) ActorSystem None
         (jc_detail config));
  mret tt.

Definition handleRunWorkflowCommandJob (registry : list (string * (command_ctx → tx unit)))
    (env : envelope) (p : JobPayload) : tx unit :=
  '(env, p) ← the (parseJobPayload env p) SchemaRejected;
  match p with
  | RUN_WORKFLOW_COMMAND_V1 commandId instanceId commandType payload =>
      dispatch registry {|
        jc_type := commandType;
        jc_ctx := mkCtx (jb_clientId env) instanceId commandId commandType payload;
        jc_clientId := jb_clientId env;
        jc_complete := completeWorkflowCommand (jb_clientId env) commandId;
        jc_entity := "workflow_command"; jc_entityId := commandId; jc_event := "workflow.command_run";
        jc_detail := [("workflowInstanceId", JString instanceId); ("commandType", JString commandType)];
        jc_error := Thrown "UnknownWorkflowCommandTypeError" commandType |}
  | _ => throw SchemaRejected
  end.

Definition handleDeliverOutboxMessageJob (senders : list (string * (sender_ctx → tx unit)))
    (env : envelope) (p : JobPayload) : tx unit :=
  '(env, p) ← the (parseJobPayload env p) SchemaRejected;
  match p with
  | DELIVER_OUTBOX_MESSAGE_V1 messageId instanceId commandId messageType payload =>
      dispatch senders {|
        jc_type := messageType;
        jc_ctx := mkSend (jb_clientId env) instanceId commandId messageId (jb_idempotencyKey env) payload;
        jc_clientId := jb_clientId env;
        jc_complete := completeOutboxMessage (jb_clientId env) messageId;
        jc_entity := "workflow_outbox_message"; jc_entityId := messageId;
        jc_event := "workflow.outbox_message_sent";
        jc_detail := [("workflowInstanceId", JString instanceId); ("commandId", JString commandId);
                      ("messageType", JString messageType)];
        jc_error := Thrown "UnregisteredOutboxMessageTypeError" messageType |}
  | _ => throw SchemaRejected
  end.

(** ** The transition log *)

Definition transitions_of (instanceId : string) (t : workflow_tables) : list workflow_transition :=
  List.filter (λ x, bool_decide (wt_instance x = instanceId)) (workflow_transitions t).
(** A log that starts at [from], moves only along the map (or stays), and where
    it ends. *)
Fixpoint legal_path (allowed : list (string * list string)) (from : string)
    (log : list workflow_transition) : option string :=
  match log with
  | [] => Some from
  | x :: log' =>
      if bool_decide (wt_from x = from) &&
         (bool_decide (wt_to x = from) ||
          match map_get allowed from with Some l => bool_decide (wt_to x ∈ l) | None => false end)
      then legal_path allowed (wt_to x) log' else None
  end.
Definition instances_ok (allowed : list (string * list string)) (t : workflow_tables) : Prop :=
  NoDup (map wi_id (workflow_instances t)) ∧
  ∀ i, i ∈ workflow_instances t → ∃ from, legal_path allowed from (transitions_of (wi_id i) t) = Some (wi_state i).

Lemma legal_path_app allowed from log x : legal_path allowed from (log ++ [x]) =
  match legal_path allowed from log with Some st => legal_path allowed st [x] | None => None end.
Proof using Type.
  revert from. induction log as [|y log IH]; intros from; [done|]. simpl. by case_match.
Qed.

Lemma validate_legal from to allowed : validateWorkflowTransition from to allowed = Ok tt →
  from = to ∨ ∃ l, map_get allowed from = Some l ∧ to ∈ l.
Proof using Type.
  unfold validateWorkflowTransition. case_bool_decide as Hf; [by left|].
  destruct (map_get allowed from) as [l|]; [|by case_bool_decide].
  intros Hg%guard_or_Ok. right. exists l. by apply bool_decide_eq_true in Hg.
Qed.

(** An instance's state is where its append-only log leads, and every
    recorded move is one the caller's transition map allows (or a retry in
    place): appending a transition keeps both, for every instance. *)
Theorem appendWorkflowTransition_legal clientId instanceId toState allowed e s found s' :
  instances_ok allowed (workflow_part s) →
  appendWorkflowTransition clientId instanceId toState allowed e s = Ok (found, s') →
  instances_ok allowed (workflow_part s').
Proof.
  intros [Hnd Hok] Ha. unfold appendWorkflowTransition in Ha. tx_inv.
  match goal with Hs : select_one _ _ = Some ?i |- _ =>
    apply select_one_Some in Hs as [Hin _]; rename i into inst end.
  match goal with Hv : validateWorkflowTransition _ _ _ = _ |- _ => apply validate_legal in Hv as Hlegal end.
  id_inv.
  match goal with Hm : emit _ _ _ = _ |- _ =>
    apply emit_frame in Hm as (_ & _ & _ & _ & _ & Hwf & _) end.
  rewrite Hwf. split.
  { simpl. by rewrite update_where_key. }
  intros i Hi. unfold transitions_of. simpl. rewrite List.filter_app. simpl in Hi |- *.
  fold (transitions_of (wi_id i) (workflow_part s)).
  apply elem_of_update_where in Hi as [[Hi Hne]|(i0 & Hi & Heq & ->)].
  - apply bool_decide_eq_false in Hne. rewrite bool_decide_eq_false_2, app_nil_r by congruence. by apply Hok.
  - apply bool_decide_eq_true in Heq. simpl. rewrite Heq, bool_decide_eq_true_2 by done.
    destruct (Hok inst Hin) as [from Hfrom]. exists from. rewrite legal_path_app.
    fold (transitions_of (wi_id inst) (workflow_part s)).
    rewrite Hfrom. simpl. rewrite bool_decide_eq_true_2 by done. simpl.
    destruct Hlegal as [->|(l & -> & Hl)]; [by rewrite (bool_decide_eq_true_2 _ eq_refl)|].
    rewrite (bool_decide_eq_true_2 _ Hl), orb_true_r. done.
Qed.

(** ** The command handlers implement the queue *)

Inductive command_op :=
  | OpSchedule (clientId instanceId commandType : string) (payload : list (string * json)) (runAfter : BinInt.Z)
  | OpClaim (locked : list string) (clientId : string) (at_ limit : BinInt.Z)
  | OpReclaim (locked : list string) (at_ : BinInt.Z)
  | OpComplete (clientId commandId : string).

(** One transaction, and the attempts it hands to workers. *)
Definition run_command_op (op : command_op) : tx (list (string * BinInt.Z)) :=
  match op with
  | OpSchedule c i ty p r => _ ← scheduleWorkflowCommand c i ty p r; mret []
  | OpClaim locked c a l => rows ← claimDueWorkflowCommands locked c a l;
      mret (map (λ r, (wc_id r, wc_attempts r)) rows)
  | OpReclaim locked a => _ ← reclaimStaleClaimsForActiveClients locked reclaimStaleWorkflowCommands_CONFIG a; mret []
  | OpComplete c i => _ ← completeWorkflowCommand c i; mret []
  end.

(** The instants at which the scans among the transactions run. *)
Definition op_clock (clock : BinInt.Z → Prop) (op : command_op) : Prop :=
  match op with OpClaim _ _ a _ | OpReclaim _ a => clock a | _ => True end.

(** Transactions in sequence; one that fails is rolled back. *)
Inductive command_history (clock : BinInt.Z → Prop) : db → list (string * BinInt.Z) → db → Prop :=
  | history_start s : command_history clock s [] s
  | history_commit s log s1 e op claimed s2 :
      command_history clock s log s1 → op_clock clock op → run_command_op op e s1 = Ok (claimed, s2) →
      command_history clock s (log ++ claimed) s2
  | history_rollback s log s1 e op x :
      command_history clock s log s1 → run_command_op op e s1 = Err x → command_history clock s log s1.

Definition commands_of (s : db) : list workflow_command := workflow_commands (workflow_part s).
(** What one transaction may do to the command table. *)
Definition queue_moves (clock : BinInt.Z → Prop) (s : db) (log : list (string * BinInt.Z)) (s' : db) : Prop :=
  queue_run clock "done" (commands_of s) log (commands_of s').

Lemma queue_run_app `{QueueRow R} clock final (t : list R) l1 t1 l2 t2 :
  queue_run clock final t l1 t1 → queue_run clock final t1 l2 t2 → queue_run clock final t (l1 ++ l2) t2.
Proof using Type.
  intros H1. induction 1 as [|t1 l t3 c t4 _ IH Hs]; [by rewrite app_nil_r|].
  rewrite app_assoc. econstructor; eauto.
Qed.
Lemma queue_run_one `{QueueRow R} clock final (t : list R) c t' :
  queue_step clock final t c t' → queue_run clock final t c t'.
Proof using Type. intros Hs. eapply (run_step _ _ t []); [constructor|done]. Qed.

Lemma emit_moves i e s b s' : emit i e s = Ok (b, s') → commands_of s' = commands_of s.
Proof using Type. intros (_ & _ & _ & _ & _ & Hwf & _)%emit_frame. unfold commands_of. by rewrite Hwf. Qed.

Lemma schedule_moves clock c i ty p r e s res s' :
  scheduleWorkflowCommand c i ty p r e s = Ok (res, s') → queue_moves clock s [] s'.
Proof using Type.
  intros Hs. unfold scheduleWorkflowCommand in Hs. tx_inv. unfold id in *.
  id_inv.
  match goal with Hi : insert_on_conflict _ _ _ = (?b, ?l) |- _ => rename Hi into Ei, b into ins, l into rows end.
  apply insert_on_conflict_spec in Ei as [(-> & -> & _)|(-> & -> & _)]; tx_inv; [|apply run_nil].
  id_inv.
  match goal with Hm : emit _ _ _ = _ |- _ => apply emit_moves in Hm as Hc end.
  unfold queue_moves. rewrite Hc. apply queue_run_one. by apply step_insert.
Qed.

Lemma claim_moves (clock : BinInt.Z → Prop) locked c a l e s rows s' : clock a →
  claimDueWorkflowCommands locked c a l e s = Ok (rows, s') →
  queue_moves clock s (map (λ r, (wc_id r, wc_attempts r)) rows) s'.
Proof using Type.
  intros Hclk Hs. unfold claimDueWorkflowCommands in Hs. tx_inv. unfold id in *.
  match goal with Hi : claim_due _ _ _ _ _ = (?b, ?l) |- _ => rename Hi into Ec, l into table end.
  pose proof (f_equal fst Ec) as H1. pose proof (f_equal snd Ec) as H2. cbn [fst snd] in H1, H2. subst.
  apply queue_run_one. exact (step_claim (R:=workflow_command) clock "done" locked c a l (commands_of s) Hclk).
Qed.

Lemma complete_moves clock c i e s res s' :
  completeWorkflowCommand c i e s = Ok (res, s') → queue_moves clock s [] s'.
Proof using Type.
  intros Hs. unfold completeWorkflowCommand in Hs. tx_inv. unfold id in *.
  match goal with Hi : complete_claimed _ _ _ _ = _ |- _ => apply (f_equal snd) in Hi; cbn [snd] in Hi; subst end.
  apply queue_run_one. exact (step_complete (R:=workflow_command) clock "done" c i (commands_of s)).
Qed.

Lemma reclaim_moves (clock : BinInt.Z → Prop) locked a e s res s' : clock a →
  reclaimStaleClaimsForActiveClients locked reclaimStaleWorkflowCommands_CONFIG a e s = Ok (res, s') →
  queue_moves clock s [] s'.
Proof using Type.
  intros Hclk Hs. unfold reclaimStaleClaimsForActiveClients in Hs. tx_inv.
  match goal with Hl : for_each _ _ _ _ = _ |- _ => revert Hl end.
  apply (for_each_inv (λ s1, queue_moves clock s [] s1)); [|apply run_nil].
  intros c s1 y s2 _ Hr1 Hround. tx_inv. unfold id in *. cbn [rc_get reclaimStaleWorkflowCommands_CONFIG] in *.
  match goal with Hi : reclaimStaleClaims _ _ _ _ _ _ _ = (?b, ?l) |- _ => rename Hi into Ec, l into table end.
  pose proof (f_equal snd Ec) as H2. cbn [snd] in H2. subst. revert Hround.
  apply (for_each_inv (λ s1, queue_moves clock s [] s1)).
  - intros row s3 b s4 _ Hr3 Hemit. tx_inv.
    match goal with Hm : emit _ _ _ = _ |- _ => apply emit_moves in Hm as Hc end.
    unfold queue_moves. by rewrite Hc.
  - eapply (queue_run_app _ _ _ [] _ []); [exact Hr1|]. apply queue_run_one.
    exact (step_reclaim (R:=workflow_command) clock "done" locked c a (commands_of s1) Hclk).
Qed.

Lemma command_op_moves clock op e s log s' : op_clock clock op → run_command_op op e s = Ok (log, s') → queue_moves clock s log s'.
Proof using Type.
  intros Hclk Hop. destruct op; cbn [run_command_op op_clock] in *; tx_inv;
    eauto using schedule_moves, claim_moves, complete_moves, reclaim_moves.
Qed.

Lemma command_history_moves clock s log s' : command_history clock s log s' → queue_moves clock s log s'.
Proof using Type.
  induction 1 as [s|s log s1 e op c s2 _ IH Hclk Hop|s log s1 e op x _ IH Hop]; [constructor| |done].
  eapply queue_run_app; [exact IH|]. by eapply command_op_moves.
Qed.

(** ** Job keys *)

Lemma sapp_len_inj (a b x y : string) : String.length a = String.length b →
  a +:+ x = b +:+ y → a = b ∧ x = y.
Proof using Type.
  revert b. induction a as [|c a IH]; intros [|d b] Hl Heq; try done.
  injection Hl as Hl. injection Heq as -> Heq. by destruct (IH b Hl Heq) as [-> ->].
Qed.
Lemma match_classes_length ps s : match_classes ps s = true → String.length s = length ps.
Proof using Type.
  revert s. induction ps as [|p ps IH]; intros [|c s]; simpl; try done.
  rewrite andb_true_iff. intros [_ Hs]. by rewrite (IH s Hs).
Qed.

Lemma command_job_key_inj i j m n : isUuid i = true → isUuid j = true →
  command_job_key i m = command_job_key j n → i = j ∧ m = n.
Proof using Type.
  intros Hi%match_classes_length Hj%match_classes_length Hk. unfold command_job_key in Hk.
  apply sapp_len_inj in Hk as [_ Hk]; [|done]. apply sapp_len_inj in Hk as [-> Hk]; [|by rewrite Hi, Hj].
  split; [done|]. apply sapp_len_inj in Hk as [_ Hk]; [|done]. by apply fixed_inj in Hk.
Qed.

(** Every attempt gets its own job: over any history of scheduling,
    claiming, crash recovery and completion of commands, no two claims enqueue
    under the same job key (a reclaimed command is really run again), no command
    is handed out more than five times, and the table stays well-formed. *)
Theorem command_jobs_unique clock s log s' :
  queue_ok "done" (commands_of s) → Forall (λ i, isUuid i = true) (map wc_id (commands_of s')) →
  command_history clock s log s' →
  NoDup (map (λ c, command_job_key c.1 c.2) log) ∧ (∀ id n, (id, n) ∈ log → n <= 5) ∧
  queue_ok "done" (commands_of s').
Proof using Type.
  intros Hok Hids Hh. pose proof (command_history_moves _ _ _ _ Hh) as Hrun.
  destruct (queue_run_ok (R:=workflow_command) clock "done" _ _ _ ltac:(done) ltac:(done) Hok Hrun) as [Hok' [Hnd Hin]].
  split_and!; [|intros id n (r & Hr & _ & Hn)%Hin; destruct Hok' as [_ Hrows];
    destruct (Hrows r Hr) as (_ & [_ Ha] & _); lia|done].
  assert (∀ id n, (id, n) ∈ log → isUuid id = true) as Hu.
  { intros id n (r & Hr & <- & _)%Hin. rewrite Forall_forall in Hids. apply Hids. by apply list_elem_of_fmap_2. }
  clear -Hnd Hu. induction Hnd as [|[i n] log Hx Hnd IH]; simpl; constructor; [|apply IH; intros; eapply Hu; by right].
  intros ([j m] & Hk & Hc)%list_elem_of_fmap. cbn [fst snd] in Hk.
  apply command_job_key_inj in Hk as [-> ->]; [done|apply (Hu i n); left|apply (Hu j m); by right].
Qed.

(** A job that arrives late still runs: when a command has meanwhile been
    failed or put back in the queue by crash recovery, the handler runs and its
    writes are committed, although the command is not marked done. *)
Theorem late_job_still_runs (registry : list (string * (command_ctx → tx unit))) env
    commandId instanceId commandType payload (h : command_ctx → tx unit) e s s1 s' :
  let p := RUN_WORKFLOW_COMMAND_V1 commandId instanceId commandType payload in
  map_get registry commandType = Some h →
  h (mkCtx (jb_clientId env) instanceId commandId commandType payload) e s = Ok (tt, s1) →
  (∀ c, c ∈ commands_of s1 → wc_id c = pg_uuid commandId → wc_status c = "failed" ∨ wc_status c = "pending") →
  handleRunWorkflowCommandJob registry env p e s = Ok (tt, s') →
  dispute_part s' = dispute_part s1 ∧ claim_part s' = claim_part s1 ∧ outbox (workflow_part s') = outbox (workflow_part s1) ∧
  commands_of s' = commands_of s1.
Proof.
  intros p Hreg Hh Hst Hj. subst p. unfold handleRunWorkflowCommandJob, parseJobPayload in Hj.
  destruct (zod_uuid (jb_clientId env) && _ && _); [|by cbn in Hj]. tx_inv.
  unfold dispatch in Hj. cbn [jc_type jc_ctx jc_clientId jc_complete jc_error jb_clientId] in Hj. tx_inv.
  rewrite Hh in *. simplify_eq.
  match goal with Hm : emit _ _ _ = _ |- _ => apply emit_frame in Hm as (_ & _ & Hd & Hcl & _ & Hwf & _) end.
  unfold completeWorkflowCommand in *. tx_inv. unfold id, commands_of in *.
  match goal with Hi : complete_claimed _ _ _ _ = _ |- _ => apply (f_equal snd) in Hi; cbn [snd] in Hi; subst end.
  rewrite Hd, Hcl, Hwf. simpl.
  split_and!; try done. apply update_where_none. intros c Hc. apply not_true_is_false.
  rewrite !andb_true_iff, orb_true_iff. unfold uuid_is. rewrite !bool_decide_eq_true. simpl.
  intros [[_ Hid] Hs]. destruct (Hst c Hc Hid); destruct Hs; congruence.
Qed.
End workflow.

Section witnesses.
#[local] Existing Instances demo_sha demo_uuid demo_zod memory_boss.

Definition demo_instance : workflow_instance :=
  mkInstance (demo_id 1) (demo_id 0) "dispute_delivery" "dispute" (demo_id 2) "pending_delivery".
Definition workflow_db : db := upd_instances (λ _, [demo_instance]) empty_db.
Definition demo_env : env := mkEnv 1000 (Some [demo_id 0]).

Definition demo_map : list (string * list string) := [("pending_delivery", ["delivered"])].
#[local] Abbreviation demo_append :=
  (appendWorkflowTransition (demo_id 0) (demo_id 1) "delivered" demo_map demo_env workflow_db).

Lemma appendWorkflowTransition_legal_witness :
  instances_ok demo_map (workflow_part (tx_state demo_append workflow_db)) ∧
  map wi_state (workflow_instances (workflow_part (tx_state demo_append workflow_db))) = ["delivered"].
Proof.
  split; [|vm_compute; reflexivity].
  assert (tx_value demo_append = Some true) as Hv by (vm_compute; reflexivity).
  apply (tx_ran _ workflow_db) in Hv.
  refine (appendWorkflowTransition_legal _ _ _ _ _ _ _ _ _ Hv).
  split; [apply NoDup_singleton|]. intros i ->%list_elem_of_singleton. by exists "pending_delivery".
Defined.

(** A command scheduled, then claimed. *)
Definition demo_schedule : command_op := OpSchedule (demo_id 0) (demo_id 1) "deliver_dispute" [] 500.
Definition demo_claim : command_op := OpClaim [] (demo_id 0) 1000 20.
Definition scheduled_db : db := tx_state (run_command_op demo_schedule demo_env workflow_db) workflow_db.
Definition claimed_db : db := tx_state (run_command_op demo_claim demo_env scheduled_db) scheduled_db.

Lemma command_jobs_unique_witness :
  NoDup (map (λ c, command_job_key c.1 c.2) [(gen_random_uuid 0, 1)]) ∧
  map wc_status (commands_of claimed_db) = ["claimed"].
Proof.
  split; [|vm_compute; reflexivity].
  refine (proj1 (command_jobs_unique (λ _, True) workflow_db [(gen_random_uuid 0, 1)] claimed_db _ _ _)).
  - split; [apply NoDup_nil_2|]. intros r Hr. by apply not_elem_of_nil in Hr.
  - apply Forall_forall. intros i Hi. assert (map wc_id (commands_of claimed_db) = [gen_random_uuid 0]) as Heq.
    { vm_compute. reflexivity. }
    rewrite Heq in Hi. apply list_elem_of_singleton in Hi as ->. vm_compute. reflexivity.
  - apply (history_commit _ workflow_db [] scheduled_db demo_env demo_claim [(gen_random_uuid 0, 1)] claimed_db); [|exact I|].
    + apply (history_commit _ workflow_db [] workflow_db demo_env demo_schedule [] scheduled_db); [constructor|exact I|].
      apply (tx_ran (run_command_op demo_schedule demo_env workflow_db)). vm_compute. reflexivity.
    + apply (tx_ran (run_command_op demo_claim demo_env scheduled_db)). vm_compute. reflexivity.
Defined.

(** A handler that records a communication, and a command that has failed. *)
Definition log_reply : command_ctx → tx unit := λ c, modify (upd_disputes (λ t,
  mkDisputes (disputes t) (dispute_lines t)
    [{| dc_id := demo_id 9; dc_account := cx_clientId c; dc_dispute := demo_id 2; dc_direction := "outbound";
        dc_body := "x"; dc_dedupe_key := "k" |}])).
Definition failed_db : db := upd_commands (λ _, [demo_command 5 "failed" 5 None]) workflow_db.

#[local] Abbreviation late_run :=
  (handleRunWorkflowCommandJob [("deliver_dispute", log_reply)] (mkEnvelope (demo_id 0) "workflow-command" "1970")
    (RUN_WORKFLOW_COMMAND_V1 (demo_id 5) (demo_id 1) "deliver_dispute" []) demo_env failed_db).
Definition late_handled : db :=
  match log_reply (mkCtx (demo_id 0) (demo_id 1) (demo_id 5) "deliver_dispute" []) demo_env failed_db with
  | Ok (_, s) => s | Err _ => failed_db end.
Lemma late_run_ok : is_ok late_run = true.
Proof. vm_compute. reflexivity. Qed.
Lemma late_handled_tables : length (dispute_comms (dispute_part late_handled)) = 1%nat ∧
  map wc_status (commands_of late_handled) = ["failed"] ∧ commands_of late_handled = [demo_command 5 "failed" 5 None].
Proof. vm_compute. done. Qed.

Lemma late_job_still_runs_witness :
  ∃ s', late_run = Ok (tt, s') ∧
    length (dispute_comms (dispute_part s')) = 1%nat ∧ map wc_status (commands_of s') = ["failed"].
Proof.
  pose proof late_handled_tables as (H1 & H2 & H3). pose proof late_run_ok as Hok.
  destruct late_run as [[[] s']|] eqn:E; [|discriminate Hok]. exists s'. split; [reflexivity|].
  destruct (late_job_still_runs [("deliver_dispute", log_reply)] (mkEnvelope (demo_id 0) "workflow-command" "1970")
    (demo_id 5) (demo_id 1) "deliver_dispute" [] log_reply demo_env failed_db late_handled s') as (Hd & _ & _ & Hc).
  - reflexivity.
  - reflexivity.
  - rewrite H3. intros c ->%list_elem_of_singleton _. by left.
  - exact E.
  - rewrite Hd, Hc. split; assumption.
Defined.
End witnesses.
