(* ===== verification/Money.v ===== *)
(** Amount texts as [Decimal]s in the review, payment and claim handlers: the
    loops that add them up and their exact value. *)

From S2P Require Import Prelude JsText Decimal Json Store AuditLedger JsDate Database Tx.

Section money.
Context {D : DecimalJs}.

(** [new Decimal(s)] *)
Definition decimal (s : string) : result handler_error dec :=
  match new_Decimal s with Some d => Ok d | None => Err (OtherError "DecimalError") end.
(** [rows.reduce((sum, r) => sum.plus(new Decimal(r)), new Decimal(0))] *)
Definition sum_decimals (l : list string) : result handler_error dec :=
  fold_res (λ sum t, d ← decimal t; Ok (d_plus sum d)) (d_of_int 0) l.

Context {L : DecimalLaws D}.

Lemma decimal_units s m : money_units s = Some m → ∃ d, decimal s = Ok d ∧ d ≐ m.
Proof. intros (d & Hd & Hm)%money_new. exists d. unfold decimal. by rewrite Hd. Qed.

Lemma decimal_fixed m : ∃ d, decimal (numeric_text m) = Ok d ∧ d ≐ m.
Proof. apply decimal_units, money_units_fixed. Qed.

(** Comparisons of exact amounts. *)
Lemma money_lte a b m n : a ≐ m → b ≐ n → d_lte a b = (m <=? n).
Proof. intros Ha Hb. unfold d_lte. rewrite (money_cmp a b m n Ha Hb). unfold Z.leb. by destruct (m ?= n). Qed.
Lemma money_gt a b m n : a ≐ m → b ≐ n → d_gt a b = (n <? m).
Proof.
  intros Ha Hb. unfold d_gt. rewrite (money_cmp a b m n Ha Hb), Z.ltb_antisym. unfold Z.leb.
  by destruct (m ?= n).
Qed.
Lemma money_gte a b m n : a ≐ m → b ≐ n → d_gte a b = (n <=? m).
Proof.
  intros Ha Hb. unfold d_gte. rewrite (money_cmp a b m n Ha Hb), Z.leb_antisym. unfold Z.ltb.
  by destruct (m ?= n).
Qed.
Lemma money_eq a b m n : a ≐ m → b ≐ n → d_eq a b = (m =? n).
Proof.
  intros Ha Hb. unfold d_eq. rewrite (money_cmp a b m n Ha Hb), Z.eqb_compare. by destruct (m ?= n).
Qed.

(** The sum of a column is exact while the running totals fit 20 digits. *)
Lemma sum_decimals_exact (l : list Z) : zsum (map Z.abs l) < 10 ^ 20 →
  ∃ d, sum_decimals (map numeric_text l) = Ok d ∧ d ≐ zsum l.
Proof.
  unfold sum_decimals. intros Hb.
  assert (∀ d0 m0, d0 ≐ m0 → Z.abs m0 + zsum (map Z.abs l) < 10 ^ 20 →
    ∃ d, fold_res (λ sum t, d ← decimal t; Ok (d_plus sum d)) d0 (map numeric_text l) = Ok d ∧ d ≐ m0 + zsum l) as Hgen.
  { clear Hb. induction l as [|m l IH]; intros d0 m0 Hd Hbd.
    - exists d0. split; [done|]. simpl. by rewrite Z.add_0_r.
    - simpl in Hbd. cbn [map]. rewrite fold_res_cons. destruct (decimal_fixed m) as (d & -> & Hm).
      rewrite !bind_ret_l. assert (0 <= zsum (map Z.abs l)).
      { clear. induction l; simpl; lia. }
      destruct (IH (d_plus d0 d) (m0 + m)) as (d' & Hd' & Hs); [apply money_plus; [done..|lia]|lia|].
      exists d'. split; [done|]. simpl. by rewrite Z.add_assoc. }
  destruct (Hgen (d_of_int 0) 0) as (d & Hd & Hs); [apply money_zero|lia|]. eauto.
Qed.

Lemma zsum_abs_nonneg (l : list Z) : Forall (λ m, 0 <= m) l → zsum (map Z.abs l) = zsum l.
Proof. induction 1 as [|m l Hm _ IH]; simpl; [done|]. rewrite IH. lia. Qed.
End money.
