(* ===== verification/Claims.v ===== *)
(** Claims and recoveries ([src/src/modules/claims/]): opening a claim from an
    accepted dispute, recording partial recoveries, resolving a claim, ageing,
    and deriving a claim's status from its events. *)

From S2P Require Import Prelude JsText Decimal Json Store AuditLedger JsDate Database Tx Jobs Findings Money.

(** ** Vocabulary ([claim-status.ts]) *)

Definition CLAIM_TERMINAL_EVENTS : list (string * string) :=
  [("recovered", "claim.recovered"); ("denied", "claim.denied"); ("written_off", "claim.written_off")].
Definition CLAIM_TERMINAL_STATUSES : list string := map fst CLAIM_TERMINAL_EVENTS.
Definition CLAIM_TERMINAL_EVENT_NAMES : list string := map snd CLAIM_TERMINAL_EVENTS.
Definition CLAIM_FOLLOW_UP_EVENT : string := "claim.follow_up_sent".
Definition isClaimTerminalStatus (status : string) : bool :=
  bool_decide (status ∈ CLAIM_TERMINAL_STATUSES).
(** CHECK claim_status_known_values *)
Definition claim_status_values : list string := "open" :: CLAIM_TERMINAL_STATUSES.

Inductive ClaimResolutionKind : Set := FULL_RECOVERY | DENIAL | WRITE_OFF.
#[export] Instance ClaimResolutionKind_eq_dec : EqDecision ClaimResolutionKind.
Proof. solve_decision. Defined.
Definition kind_text (k : ClaimResolutionKind) : string :=
  match k with FULL_RECOVERY => "FULL_RECOVERY" | DENIAL => "DENIAL" | WRITE_OFF => "WRITE_OFF" end.

(** The claim columns the validators look at, as text. *)
Record ClaimRow := { cr_id : string; cr_amountClaimed : string; cr_currency : option string; cr_status : string }.
Definition claim_row (c : claim) : ClaimRow :=
  {| cr_id := cl_id c; cr_amountClaimed := numeric_text (cl_amount_claimed c);
     cr_currency := cl_currency c; cr_status := cl_status c |}.

Record ValidatedPartialRecovery := mkPartial {
  vp_amountRecovered : string; vp_currency : string; vp_cumulativeRecovered : string; vp_isFinal : bool;
}.
Record ValidatedClaimResolution := mkResolution {
  vr_kind : ClaimResolutionKind; vr_amountRecovered : option string; vr_currency : option string;
  vr_newStatus : string;
}.

Section claims.
Context {D : DecimalJs} {H : Sha256} {U : UuidSource} {Z : Zod} {B : PgBoss}.
Abbreviation Int := BinInt.Z.

(** ** Validation *)

Definition validateRecoveryAmountAndCurrency (amount : string) (currency existingCurrency : option string)
    (onNonPositiveAmount onMissingCurrency onMixedCurrency : handler_error) :
    result handler_error (string * string) :=
  a ← decimal amount;
  _ ← guard_or (negb (d_lte a (d_of_int 0))) onNonPositiveAmount;
  match currency with
  | None => Err onMissingCurrency
  | Some c =>
      _ ← guard_or (match existingCurrency with Some e => bool_decide (c = e) | None => true end) onMixedCurrency;
      Ok (amount, c)
  end.

Definition PartialRecoveryError : string → handler_error := Thrown "PartialRecoveryError".
Definition validatePartialRecovery (claim : ClaimRow) (amountRecovered : string) (currency : option string)
    (priorRecoveredTotal : string) : result handler_error ValidatedPartialRecovery :=
  '(amount, currency) ← validateRecoveryAmountAndCurrency amountRecovered currency (cr_currency claim)
    (PartialRecoveryError "NON_POSITIVE_AMOUNT") (PartialRecoveryError "MISSING_CURRENCY")
    (PartialRecoveryError "MIXED_CURRENCY");
  prior ← decimal priorRecoveredTotal;
  a ← decimal amount;
  let cumulative := d_plus prior a in
  claimed ← decimal (cr_amountClaimed claim);
  _ ← guard_or (negb (d_gt cumulative claimed)) (PartialRecoveryError "EXCEEDS_CLAIMED_AMOUNT");
  Ok (mkPartial amount currency (d_toFixed 4 cumulative) (d_eq cumulative claimed)).

Definition ClaimResolutionError : string → handler_error := Thrown "ClaimResolutionError".
Definition validateClaimResolution (claim : ClaimRow) (kind : ClaimResolutionKind)
    (priorRecoveredTotal : string) (amountRecovered currency : option string) :
    result handler_error ValidatedClaimResolution :=
  if isClaimTerminalStatus (cr_status claim) then Err (ClaimResolutionError "ALREADY_TERMINAL") else
  match kind, amountRecovered with
  | DENIAL, Some _ => Err (ClaimResolutionError "DENIAL_MUST_NOT_INCLUDE_AMOUNT")
  | DENIAL, None => Ok (mkResolution DENIAL None None "denied")
  | WRITE_OFF, None => Ok (mkResolution WRITE_OFF None None "written_off")
  | FULL_RECOVERY, None => Err (ClaimResolutionError "NON_POSITIVE_AMOUNT")
  | _, Some amountRecovered =>
      '(amount, currency) ← validateRecoveryAmountAndCurrency amountRecovered currency (cr_currency claim)
        (ClaimResolutionError "NON_POSITIVE_AMOUNT") (ClaimResolutionError "MISSING_CURRENCY")
        (ClaimResolutionError "MIXED_CURRENCY");
      prior ← decimal priorRecoveredTotal;
      a ← decimal amount;
      let cumulative := d_plus prior a in
      claimed ← decimal (cr_amountClaimed claim);
      if bool_decide (kind = FULL_RECOVERY) then
        _ ← guard_or (d_eq cumulative claimed) (ClaimResolutionError "FULL_RECOVERY_AMOUNT_MISMATCH");
        Ok (mkResolution kind (Some amount) (Some currency) "recovered")
      else
        _ ← guard_or (negb (d_gte cumulative claimed)) (ClaimResolutionError "WRITE_OFF_EXCEEDS_CLAIMED_AMOUNT");
        Ok (mkResolution kind (Some amount) (Some currency) "written_off")
  end.

Definition ClaimableDisputeError : string → handler_error := Thrown "ClaimableDisputeError".
Definition validateClaimableDispute (row : dispute) : result handler_error (string * string * string) :=
  _ ← guard_or (bool_decide (di_status row = "accepted")) (ClaimableDisputeError "NOT_ACCEPTED");
  match di_amount_claimed row, di_currency row with
  | None, _ => Err (ClaimableDisputeError "MISSING_AMOUNT")
  | _, None => Err (ClaimableDisputeError "MISSING_CURRENCY")
  | Some amountClaimed, Some currency =>
      '(amount, currency) ← validateRecoveryAmountAndCurrency (numeric_text amountClaimed) (Some currency) None
        (ClaimableDisputeError "NON_POSITIVE_AMOUNT")
        (OtherError "unreachable: currency already checked non-null")
        (OtherError "unreachable: no existingCurrency provided");
      Ok (di_id row, amount, currency)
  end.

(** ** Opening a claim *)

Definition claim_at (clientId claimId : string) (c : claim) : bool :=
  uuid_is (cl_account c) clientId && uuid_is (cl_id c) claimId.
Definition claim_of_dispute (clientId disputeId : string) (c : claim) : bool :=
  uuid_is (cl_account c) clientId && bool_decide (cl_dispute c = Some (pg_uuid disputeId)).

Record CreateClaimResult := mkCreated {
  cc_claimId : string; cc_disputeId : string; cc_amountClaimed : string; cc_currency : string;
  cc_created : bool;
}.

Definition selectExistingClaim (clientId disputeId : string) (s : db) : option CreateClaimResult :=
  (λ c, mkCreated (cl_id c) disputeId (numeric_text (cl_amount_claimed c)) (default "" (cl_currency c)) false)
    <$> select_one (claim_of_dispute clientId disputeId) (claims (claim_part s)).

(** The findings on this dispute's lines that another, claimed dispute also
    lists. *)
Definition conflicting_findings (clientId disputeId : string) (s : db) : list string :=
  let lines := dispute_lines (dispute_part s) in
  set_of (omap (λ dl,
    f ← dl_finding dl;
    if uuid_is (dl_account dl) clientId && uuid_is (dl_dispute dl) disputeId &&
       existsb (λ other, bool_decide (dl_account other = dl_account dl) &&
                         bool_decide (dl_finding other = Some f) &&
                         negb (bool_decide (dl_dispute other = dl_dispute dl)) &&
                         existsb (λ c, bool_decide (cl_account c = dl_account other) &&
                                       bool_decide (cl_dispute c = Some (dl_dispute other)))
                           (claims (claim_part s))) lines
    then Some f else None) lines).
Definition detectDuplicateClaimedFinding (clientId disputeId : string) : tx unit :=
  rows ← query (conflicting_findings clientId disputeId);
  check (bool_decide (rows = [])) (Thrown "DuplicateClaimedFindingError" (join "," rows)).

Definition createClaimFromDispute (clientId disputeId : string) (actorUserId : option string) :
    tx CreateClaimResult :=
  _ ← check (zod_uuid clientId && zod_uuid disputeId && nullable zod_uuid actorUserId) SchemaRejected;
  s ← query id;
  disputeRow ← the (select_one (λ d, uuid_is (di_account d) clientId && uuid_is (di_id d) disputeId)
                      (disputes (dispute_part s))) (OtherError "Dispute not found for this client");
  match selectExistingClaim clientId disputeId s with
  | Some existing => mret existing
  | None =>
      '(validatedId, amountClaimed, currency) ← lift (validateClaimableDispute disputeRow);
      _ ← detectDuplicateClaimedFinding clientId disputeId;
      amount ← numeric amountClaimed;
      claimId ← new_uuid;
      e ← ask id;
      let row := mkClaim claimId (pg_uuid clientId) (Some (pg_uuid validatedId)) amount (Some currency)
                   "open" (now e) None in
      let '(inserted, rows) := insert_on_conflict (claim_of_dispute clientId validatedId) row
                                 (claims (claim_part s)) in
      if inserted then
        _ ← check (currency_check (Some currency)) (ConstraintFailed "claim_currency_format_chk");
        _ ← primary_key (map cl_id (claims (claim_part s))) claimId;
        _ ← modify (upd_claim_rows (λ _, rows));
        _ ← emit (audit_event (deterministicAuditEventId [clientId; claimId; "claim.created"])
               clientId "claim" claimId "claim.created" ActorAnalyst actorUserId
               [("disputeId", JString validatedId); ("amountClaimed", JString amountClaimed);
                ("currency", JString currency)]);
        mret (mkCreated claimId validatedId amountClaimed currency true)
      else
        s' ← query id;
        the (selectExistingClaim clientId disputeId s')
          (OtherError "claim insert conflicted but no row was found on re-read")
  end.

(** ** Recoveries *)

Definition recovered_by (account claimId : string) (t : claim_tables) : list Int :=
  map re_amount_recovered
    (List.filter (λ r, bool_decide (re_account r = account) && bool_decide (re_claim r = claimId))
       (recovery_events t)).
(** SELECT COALESCE(SUM(amount_recovered), 0)::text ... *)
Definition prior_total (clientId claimId : string) (s : db) : string :=
  sum_text (recovered_by (pg_uuid clientId) (pg_uuid claimId) (claim_part s)).

Definition insert_recovery (clientId claimId : string) (findingId : option string) (amountRecovered : string)
    (currency : option string) : tx string :=
  amount ← numeric amountRecovered;
  rowId ← new_uuid;
  s ← query id;
  _ ← check (currency_check currency) (ConstraintFailed "recovery_event_currency_format_chk");
  _ ← check (match findingId with
             | Some f => existsb (λ x, uuid_is (vf_id x) f) (variance_findings (findings s))
             | None => true end) (ConstraintFailed "recovery_event_variance_finding_id_fkey");
  _ ← primary_key (map re_id (recovery_events (claim_part s))) rowId;
  _ ← modify (add_recovery {| re_id := rowId; re_account := pg_uuid clientId; re_claim := pg_uuid claimId;
         re_finding := pg_uuid <$> findingId; re_amount_recovered := amount; re_currency := currency |});
  mret rowId.

Definition DEFAULT_RECONCILIATION_EXPORT_SYSTEM_CODE : string := "DEFAULT_AP_ERP".
Definition enqueueReconciliationExport (clientId claimId recoveryEventId amountRecovered currency : string)
    (varianceFindingId : option string) : tx (string * bool) :=
  e ← ask id;
  enqueueInTransaction clientId
    (mkEnvelope clientId ("recovery-export:" +:+ recoveryEventId) (toISOString (now e)))
    (EXPORT_RECORD_V1 (Some claimId) None DEFAULT_RECONCILIATION_EXPORT_SYSTEM_CODE
       [("recoveryEventId", JString recoveryEventId); ("claimId", JString claimId);
        ("amountRecovered", JString amountRecovered); ("currency", JString currency);
        ("varianceFindingId", json_opt varianceFindingId)]) None.

Record partial_input := mkPartialInput {
  pi_clientId : string; pi_claimId : string; pi_amountRecovered : string; pi_currency : string;
  pi_varianceFindingId : option string;
}.
Definition partial_input_ok (i : partial_input) : bool :=
  zod_uuid (pi_clientId i) && zod_uuid (pi_claimId i) && amount_text_ok (pi_amountRecovered i) &&
  bool_decide (String.length (pi_currency i) = 3%nat) && nullable zod_uuid (pi_varianceFindingId i).

(** The reads and the validation of recordPartialRecovery. *)
Definition plan_partial (input : partial_input) : tx ValidatedPartialRecovery :=
  _ ← check (partial_input_ok input) SchemaRejected;
  s ← query id;
  row ← the (select_one (claim_at (pi_clientId input) (pi_claimId input)) (claims (claim_part s)))
          (Thrown "RecordPartialRecoveryError" "CLAIM_NOT_FOUND");
  lift (validatePartialRecovery (claim_row row) (pi_amountRecovered input) (Some (pi_currency input))
          (prior_total (pi_clientId input) (pi_claimId input) s)).

(** Its writes; the export job is best effort. *)
Definition commit_partial (input : partial_input) (v : ValidatedPartialRecovery) : tx string :=
  rowId ← insert_recovery (pi_clientId input) (pi_claimId input) (pi_varianceFindingId input)
            (vp_amountRecovered v) (Some (vp_currency v));
  _ ← emit (audit_event (deterministicAuditEventId [pi_clientId input; rowId; "recovery-event.recorded"])
         (pi_clientId input) "recovery_event" rowId "recovery_event.recorded" ActorAnalyst None
         [("claimId", JString (pi_claimId input)); ("amountRecovered", JString (vp_amountRecovered v));
          ("cumulativeRecovered", JString (vp_cumulativeRecovered v)); ("isFinal", JBool (vp_isFinal v))]);
  _ ← savepoint (enqueueReconciliationExport (pi_clientId input) (pi_claimId input) rowId
         (vp_amountRecovered v) (vp_currency v) (pi_varianceFindingId input));
  mret rowId.

Definition recordPartialRecovery (input : partial_input) : tx (string * string * bool) :=
  v ← plan_partial input;
  rowId ← commit_partial input v;
  mret (rowId, vp_cumulativeRecovered v, vp_isFinal v).

(** ** Resolution *)

Record resolve_input := mkResolveInput {
  ri_clientId : string; ri_claimId : string; ri_kind : ClaimResolutionKind;
  ri_amountRecovered : option string; ri_currency : option string; ri_varianceFindingId : option string;
}.
Definition resolve_input_ok (i : resolve_input) : bool :=
  zod_uuid (ri_clientId i) && zod_uuid (ri_claimId i) && nullable amount_text_ok (ri_amountRecovered i) &&
  nullable (λ c, bool_decide (String.length c = 3%nat)) (ri_currency i) &&
  nullable zod_uuid (ri_varianceFindingId i).

(** The reads and the validation of resolveClaim. *)
Definition plan_resolution (input : resolve_input) : tx ValidatedClaimResolution :=
  _ ← check (resolve_input_ok input) SchemaRejected;
  s ← query id;
  row ← the (select_one (claim_at (ri_clientId input) (ri_claimId input)) (claims (claim_part s)))
          (Thrown "ResolveClaimError" "CLAIM_NOT_FOUND");
  lift (validateClaimResolution (claim_row row) (ri_kind input)
          (prior_total (ri_clientId input) (ri_claimId input) s) (ri_amountRecovered input) (ri_currency input)).

(** Its writes. *)
Definition commit_resolution (input : resolve_input) (validated : ValidatedClaimResolution) : tx (option string) :=
  let clientId := ri_clientId input in
  let claimId := ri_claimId input in
  recoveryEventId ← match vr_amountRecovered validated with
    | Some amount => rowId ← insert_recovery clientId claimId (ri_varianceFindingId input) amount (vr_currency validated);
        mret (Some rowId)
    | None => mret None
    end;
  _ ← modify (upd_claim_rows (update_where (claim_at clientId claimId) (set_claim_status (vr_newStatus validated))));
  _ ← match ri_varianceFindingId input with
      | Some f =>
          if bool_decide (vr_newStatus validated ∈ ["recovered"; "written_off"]) then
            _ ← updateFindingStatus f (vr_newStatus validated)
                  (Some ("Claim resolved: " +:+ kind_text (vr_kind validated))) None;
            mret tt
          else mret tt
      | None => mret tt
      end;
  _ ← emit (audit_event (deterministicAuditEventId [clientId; claimId; "claim." +:+ vr_newStatus validated])
         clientId "claim" claimId ("claim." +:+ vr_newStatus validated) ActorAnalyst None
         [("kind", JString (kind_text (vr_kind validated))); ("amountRecovered", json_opt (vr_amountRecovered validated));
          ("currency", json_opt (vr_currency validated)); ("recoveryEventId", json_opt recoveryEventId)]);
  mret recoveryEventId.

Definition resolveClaim (input : resolve_input) : tx (ValidatedClaimResolution * option string) :=
  validated ← plan_resolution input;
  recoveryEventId ← commit_resolution input validated;
  mret (validated, recoveryEventId).

(** ** Ageing *)

(** [openedAt] a [Date], [agingDays] a checked integer. *)
Definition aging_days_ok (agingDays : Int) : bool := (0 <? agingDays) && (agingDays <=? 3650).
Definition computeClaimAgingDeadline (openedAt agingDays : Int) : result handler_error Int :=
  if aging_days_ok agingDays then Ok (add_utc_days openedAt agingDays) else Err SchemaRejected.

Definition setClaimAgingDeadline (clientId claimId : string) (agingDays : Int) : tx (string * string) :=
  _ ← check (zod_uuid clientId && zod_uuid claimId && aging_days_ok agingDays) SchemaRejected;
  row ← query (λ s, select_one (claim_at clientId claimId) (claims (claim_part s)));
  row ← the row (Thrown "SetClaimAgingDeadlineError" "CLAIM_NOT_FOUND");
  deadline ← lift (computeClaimAgingDeadline (cl_opened_at row) agingDays);
  _ ← modify (upd_claim_rows (update_where (claim_at clientId claimId) (set_claim_deadline deadline)));
  mret (claimId, toISOString deadline).

(** The claim's events of the given names, with their [recorded_at], in ledger
    order. *)
Definition claim_events (account claimId : string) (names : list string) (s : db) : list (string * Int) :=
  map (λ x, (ae_event x, default 0 (map_get (ledger_times s) (ae_id x))))
    (List.filter (λ x, bool_decide (ae_clientId x = Some account) && bool_decide (ae_entity x = "claim") &&
       bool_decide (ae_entityId x = Some claimId) && bool_decide (ae_event x ∈ names)) (audit_log s)).

Definition generateClaimFollowUp (clientId claimId : string) (at_ : Int) : tx (string * string * bool) :=
  let error code := Thrown "GenerateClaimFollowUpError" code in
  row ← query (λ s, select_one (claim_at clientId claimId) (claims (claim_part s)));
  claim ← the row (error "CLAIM_NOT_FOUND");
  _ ← check (negb (isClaimTerminalStatus (cl_status claim))) (error "CLAIM_TERMINAL");
  deadline ← the (cl_aging_deadline_at claim) (error "NO_DEADLINE_SET");
  _ ← check (deadline <=? at_) (error "DEADLINE_NOT_PASSED");
  let auditEventId := deterministicAuditEventId [cl_account claim; cl_id claim; CLAIM_FOLLOW_UP_EVENT] in
  created ← emit (audit_event auditEventId (cl_account claim) "claim" (cl_id claim) CLAIM_FOLLOW_UP_EVENT
    ActorSystem None [("agingDeadlineAt", JString (toISOString deadline))]);
  mret (cl_id claim, auditEventId, created).

Definition latest_time (l : list (string * Int)) : option Int :=
  foldr (λ e acc, Some (match acc with Some m => BinInt.Z.max e.2 m | None => e.2 end)) None l.

(** [gracePeriodDays] defaults to 7. *)
Definition generateClaimEscalation (clientId claimId : string) (at_ gracePeriodDays : Int) :
    tx (string * string * bool) :=
  let error code := Thrown "GenerateClaimEscalationError" code in
  s ← query id;
  claim ← the (select_one (claim_at clientId claimId) (claims (claim_part s))) (error "CLAIM_NOT_FOUND");
  _ ← check (negb (isClaimTerminalStatus (cl_status claim))) (error "CLAIM_TERMINAL");
  followUp ← the (latest_time (claim_events (pg_uuid clientId) (pg_uuid claimId) [CLAIM_FOLLOW_UP_EVENT] s))
               (error "NO_FOLLOW_UP_SENT");
  _ ← check (add_utc_days followUp gracePeriodDays <=? at_) (error "GRACE_PERIOD_NOT_ELAPSED");
  let auditEventId := deterministicAuditEventId [cl_account claim; cl_id claim; "claim.escalated"] in
  created ← emit (audit_event auditEventId (cl_account claim) "claim" (cl_id claim) "claim.escalated"
    ActorSystem None [("followUpRecordedAt", JString (toISOString followUp));
                      ("gracePeriodDays", json_int gracePeriodDays)]);
  mret (cl_id claim, auditEventId, created).

Definition listClaimsDueForFollowUp (clientId : string) (at_ : Int) (s : db) : list (string * Int) :=
  js_sort (cmp_on snd BinInt.Z.compare) (omap (λ c,
    d ← cl_aging_deadline_at c;
    if uuid_is (cl_account c) clientId && (d <=? at_) &&
       bool_decide (claim_events (cl_account c) (cl_id c)
                      (CLAIM_TERMINAL_EVENT_NAMES ++ [CLAIM_FOLLOW_UP_EVENT]) s = [])
    then Some (cl_id c, d) else None) (claims (claim_part s))).

Definition listClaimsDueForEscalation (clientId : string) (at_ gracePeriodDays : Int) (s : db) : list (string * Int) :=
  js_sort (cmp_on snd BinInt.Z.compare) (omap (λ c,
    fu ← latest_time (claim_events (cl_account c) (cl_id c) [CLAIM_FOLLOW_UP_EVENT] s);
    if uuid_is (cl_account c) clientId && (fu <=? add_utc_days at_ (- gracePeriodDays)) &&
       bool_decide (claim_events (cl_account c) (cl_id c) CLAIM_TERMINAL_EVENT_NAMES s = [])
    then Some (cl_id c, fu) else None) (claims (claim_part s))).

Definition scheduleClaimAgingJobs (at_ : Int) : tx (nat * nat) :=
  clients ← query (λ s, map acc_id (List.filter acc_is_active (accounts (sources s))));
  counts ← for_each (λ clientId,
    _ ← check (zod_uuid clientId) SchemaRejected;
    due ← query (listClaimsDueForFollowUp clientId at_);
    _ ← for_each (λ entry, enqueueInTransaction clientId
      (mkEnvelope clientId ("claim-follow-up:" +:+ entry.1) (toISOString at_)) (FOLLOW_UP_CLAIM_V1 entry.1) None) due;
    escalate ← query (listClaimsDueForEscalation clientId at_ 7);
    _ ← for_each (λ entry, enqueueInTransaction clientId
      (mkEnvelope clientId ("claim-escalation:" +:+ entry.1) (toISOString at_)) (ESCALATE_CLAIM_V1 entry.1) None) escalate;
    mret (length due, length escalate)) clients;
  mret (foldr Nat.add 0%nat (map fst counts), foldr Nat.add 0%nat (map snd counts)).

(** ** The derived status *)

(** [events.reduce(latest)]: the first event of the greatest time. *)
Definition latest_event (l : list (string * Int)) : option (string * Int) :=
  fold_left (λ latest e, match latest with
    | Some x => if e.2 >? x.2 then Some e else latest
    | None => Some e end) l None.
Definition TERMINAL_EVENT_TO_STATUS (event : string) : option string :=
  map_get (map (λ p, (p.2, p.1)) CLAIM_TERMINAL_EVENTS) event.

Record DeriveClaimStatusResult := mkDerived {
  ds_derivedStatus : string; ds_cumulativeRecovered : string; ds_matches : bool;
}.
Definition deriveClaimStatus (storedStatus : string) (terminalEvents : list (string * Int))
    (recoveryEvents : list string) : result handler_error DeriveClaimStatusResult :=
  sum ← sum_decimals recoveryEvents;
  let known := List.filter (λ e, bool_decide (is_Some (TERMINAL_EVENT_TO_STATUS e.1))) terminalEvents in
  let derivedStatus := match latest_event known with
    | Some e => default "undefined" (TERMINAL_EVENT_TO_STATUS e.1)
    | None => "open" end in
  Ok (mkDerived derivedStatus (d_toFixed 4 sum) (bool_decide (derivedStatus = storedStatus))).

Definition getDerivedClaimStatus (clientId claimId : string) : tx DeriveClaimStatusResult :=
  s ← query id;
  claim ← the (select_one (claim_at clientId claimId) (claims (claim_part s)))
            (Thrown "GetDerivedClaimStatusError" "CLAIM_NOT_FOUND");
  lift (deriveClaimStatus (cl_status claim)
    (claim_events (pg_uuid clientId) (pg_uuid claimId) CLAIM_TERMINAL_EVENT_NAMES s)
    (map numeric_text (recovered_by (pg_uuid clientId) (pg_uuid claimId) (claim_part s)))).
End claims.
