(* ===== verification/ClaimsSafety.v ===== *)
(** What the claim handlers guarantee: the exact decisions of the validators,
    the invariant of the claim tables and the ledger over every history of
    handlers, and what the code does not guarantee. *)

From S2P Require Import Prelude JsText Decimal Json Store AuditLedger JsDate Database Tx Jobs Findings Money Claims.

Section validators.
Context {D : DecimalJs} {L : DecimalLaws D}.

(** The currency test of the shared validator. *)
Definition currency_agrees (c : string) (existing : option string) : bool :=
  match existing with Some e => bool_decide (c = e) | None => true end.

Lemma validateRecovery_eq amount a currency existing e1 e2 e3 : money_units amount = Some a →
  validateRecoveryAmountAndCurrency amount currency existing e1 e2 e3 =
  if a <=? 0 then Err e1 else
  match currency with
  | None => Err e2
  | Some c => if currency_agrees c existing then Ok (amount, c) else Err e3
  end.
Proof.
  intros (d & Hd & Ha)%decimal_units. unfold validateRecoveryAmountAndCurrency.
  rewrite Hd, bind_ret_l. rewrite (money_lte _ _ _ _ Ha money_zero).
  destruct (a <=? 0); [done|]. simpl. destruct currency as [c|]; [|done].
  fold (currency_agrees c existing). by destruct (currency_agrees c existing).
Qed.

Lemma cumulative_units prior p amount a : money_units prior = Some p → money_units amount = Some a →
  Z.abs (p + a) < 10 ^ 20 →
  ∃ dp da, decimal prior = Ok dp ∧ decimal amount = Ok da ∧ d_plus dp da ≐ p + a.
Proof.
  intros (dp & Hdp & Hp)%decimal_units (da & Hda & Ha)%decimal_units Hb.
  exists dp, da. split_and!; [done..|]. by apply money_plus.
Qed.

(** The decision of a partial recovery, on every branch: the amount must be
    positive, in the claim's currency (when it has one), and the exact new total
    must not exceed the amount claimed; the recorded total is exact and the
    recovery is final exactly when it reaches the claimed amount. *)
Lemma validatePartialRecovery_eq claim amount currency prior a p :
  money_units amount = Some a → money_units prior = Some p → Z.abs (p + a) < 10 ^ 20 →
  validatePartialRecovery (claim_row claim) amount currency prior =
  if a <=? 0 then Err (PartialRecoveryError "NON_POSITIVE_AMOUNT") else
  match currency with
  | None => Err (PartialRecoveryError "MISSING_CURRENCY")
  | Some c =>
      if negb (currency_agrees c (cl_currency claim)) then Err (PartialRecoveryError "MIXED_CURRENCY")
      else if cl_amount_claimed claim <? p + a then Err (PartialRecoveryError "EXCEEDS_CLAIMED_AMOUNT")
      else Ok (mkPartial amount c (fixed 4 (p + a)) (p + a =? cl_amount_claimed claim))
  end.
Proof.
  intros Ha Hp Hb. destruct (cumulative_units prior p amount a Hp Ha Hb) as (dp & da & Hdp & Hda & Hsum).
  destruct (decimal_fixed (cl_amount_claimed claim)) as (dk & Hdk & Hk).
  unfold validatePartialRecovery. rewrite (validateRecovery_eq amount a) by done. cbn [claim_row cr_currency cr_amountClaimed].
  destruct (a <=? 0); [done|]. destruct currency as [c|]; [|done].
  destruct (currency_agrees c (cl_currency claim)); [|done]. rewrite bind_ret_l, Hdp, bind_ret_l, Hda, bind_ret_l.
  rewrite Hdk, bind_ret_l, (money_gt _ _ _ _ Hsum Hk), (money_eq _ _ _ _ Hsum Hk), (money_fixed _ _ Hsum).
  by destruct (cl_amount_claimed claim <? p + a).
Qed.

(** The same decision, for a resolution that carries an amount. *)
Lemma validateClaimResolution_amount claim kind prior amount currency a p :
  money_units amount = Some a → money_units prior = Some p → Z.abs (p + a) < 10 ^ 20 → kind ≠ DENIAL →
  validateClaimResolution (claim_row claim) kind prior (Some amount) currency =
  if isClaimTerminalStatus (cl_status claim) then Err (ClaimResolutionError "ALREADY_TERMINAL") else
  if a <=? 0 then Err (ClaimResolutionError "NON_POSITIVE_AMOUNT") else
  match currency with
  | None => Err (ClaimResolutionError "MISSING_CURRENCY")
  | Some c =>
      if negb (currency_agrees c (cl_currency claim)) then Err (ClaimResolutionError "MIXED_CURRENCY") else
      match kind with
      | FULL_RECOVERY =>
          if p + a =? cl_amount_claimed claim then Ok (mkResolution kind (Some amount) (Some c) "recovered")
          else Err (ClaimResolutionError "FULL_RECOVERY_AMOUNT_MISMATCH")
      | _ =>
          if cl_amount_claimed claim <=? p + a then Err (ClaimResolutionError "WRITE_OFF_EXCEEDS_CLAIMED_AMOUNT")
          else Ok (mkResolution kind (Some amount) (Some c) "written_off")
      end
  end.
Proof.
  intros Ha Hp Hb Hkind. destruct (cumulative_units prior p amount a Hp Ha Hb) as (dp & da & Hdp & Hda & Hsum).
  destruct (decimal_fixed (cl_amount_claimed claim)) as (dk & Hdk & Hk).
  unfold validateClaimResolution. cbn [claim_row cr_currency cr_amountClaimed cr_status].
  destruct (isClaimTerminalStatus _); [done|]. rewrite (validateRecovery_eq amount a) by done.
  destruct kind; [|done|]; (destruct (a <=? 0); [done|]; destruct currency as [c|]; [|done];
    destruct (currency_agrees c (cl_currency claim)); [|done]; rewrite bind_ret_l, Hdp, bind_ret_l, Hda, bind_ret_l;
    rewrite Hdk, bind_ret_l, ?(money_gte _ _ _ _ Hsum Hk), ?(money_eq _ _ _ _ Hsum Hk)); simpl.
  - by destruct (p + a =? _).
  - by destruct (_ <=? p + a).
Qed.
End validators.

(** ** The invariant *)

(** What a claim has recovered so far. *)
Definition recovered (c : claim) (t : claim_tables) : Z := zsum (recovered_by (cl_account c) (cl_id c) t).

Definition claim_ok (t : claim_tables) (c : claim) : Prop :=
  0 < cl_amount_claimed c < 10 ^ 18 ∧ is_Some (cl_currency c) ∧ cl_status c ∈ claim_status_values ∧
  pg_uuid (cl_id c) = cl_id c ∧ pg_uuid (cl_account c) = cl_account c ∧
  recovered c t <= cl_amount_claimed c ∧
  (cl_status c = "recovered" → recovered c t = cl_amount_claimed c).
Definition recovery_ok (t : claim_tables) (r : recovery_event) : Prop :=
  0 < re_amount_recovered r ∧
  ∃ c, c ∈ claims t ∧ cl_id c = re_claim r ∧ cl_account c = re_account r ∧ re_currency r = cl_currency c.
Definition claim_tables_ok (t : claim_tables) : Prop :=
  NoDup (map cl_id (claims t)) ∧ (∀ c, c ∈ claims t → claim_ok t c) ∧
  (∀ r, r ∈ recovery_events t → recovery_ok t r).

(** The ledger's claim events are about known claims; a terminal event names the
    claim's status, and a terminal status has its event. *)
Definition claim_ledger_ok (t : claim_tables) (log : ledger) : Prop :=
  (∀ x, x ∈ log → ae_entity x = "claim" → ∃ c, c ∈ claims t ∧ ae_entityId x = Some (cl_id c) ∧
    (ae_event x ∈ CLAIM_TERMINAL_EVENT_NAMES → ae_event x = "claim." +:+ cl_status c)) ∧
  (∀ c, c ∈ claims t → isClaimTerminalStatus (cl_status c) = true → ∃ x, x ∈ log ∧ ae_entity x = "claim" ∧
    ae_entityId x = Some (cl_id c) ∧ ae_clientId x = Some (cl_account c) ∧ ae_event x = "claim." +:+ cl_status c).
Definition claims_inv (s : db) : Prop :=
  claim_tables_ok (claim_part s) ∧ claim_ledger_ok (claim_part s) (audit_log s).

Section tables.
Implicit Types (c : claim) (t : claim_tables) (r : recovery_event).

Lemma claim_at_spec clientId claimId c : claim_at clientId claimId c = true ↔
  cl_account c = pg_uuid clientId ∧ cl_id c = pg_uuid claimId.
Proof. unfold claim_at, uuid_is. by rewrite andb_true_iff, !bool_decide_eq_true. Qed.

Lemma find_claim clientId claimId t c : select_one (claim_at clientId claimId) (claims t) = Some c →
  c ∈ claims t ∧ cl_account c = pg_uuid clientId ∧ cl_id c = pg_uuid claimId.
Proof. intros [Hc Ha%claim_at_spec]%select_one_Some. done. Qed.

Lemma claim_unique t c c' : NoDup (map cl_id (claims t)) → c ∈ claims t → c' ∈ claims t →
  cl_id c = cl_id c' → c = c'.
Proof.
  intros Hnd Hc Hc' Heq. pose proof (select_one_unique cl_id _ c Hnd Hc) as H1.
  pose proof (select_one_unique cl_id _ c' Hnd Hc') as H2. rewrite Heq in H1. congruence.
Qed.

Lemma recovered_by_add account claimId t r :
  recovered_by account claimId (mkClaims (claims t) (recovery_events t ++ [r])) =
  recovered_by account claimId t ++
    if bool_decide (re_account r = account) && bool_decide (re_claim r = claimId)
    then [re_amount_recovered r] else [].
Proof.
  unfold recovered_by. simpl. rewrite List.filter_app, map_app. f_equal. simpl. by case_match.
Qed.

Lemma recovered_add c t r :
  recovered c (mkClaims (claims t) (recovery_events t ++ [r])) =
  recovered c t + if bool_decide (re_account r = cl_account c) && bool_decide (re_claim r = cl_id c)
                  then re_amount_recovered r else 0.
Proof. unfold recovered. rewrite recovered_by_add, zsum_app. case_match; simpl; lia. Qed.

Lemma recovered_by_pos account claimId t : (∀ r, r ∈ recovery_events t → recovery_ok t r) →
  Forall (λ m, 0 <= m) (recovered_by account claimId t).
Proof.
  intros Hr. apply Forall_forall. unfold recovered_by. intros m (r & -> & Hin)%list_elem_of_fmap.
  apply list_elem_of_In, List.filter_In in Hin as [Hin _]. apply list_elem_of_In in Hin.
  destruct (Hr r Hin). lia.
Qed.
Lemma recovered_nonneg c t : claim_tables_ok t → 0 <= recovered c t.
Proof.
  intros (_ & _ & Hr). unfold recovered.
  pose proof (recovered_by_pos (cl_account c) (cl_id c) t Hr) as Hf. induction Hf; simpl; lia.
Qed.

(** Recording an amount a claim still has room for. *)
Lemma add_recovery_ok t c r : claim_tables_ok t → c ∈ claims t → re_claim r = cl_id c →
  re_account r = cl_account c → re_currency r = cl_currency c → 0 < re_amount_recovered r →
  recovered c t + re_amount_recovered r <= cl_amount_claimed c →
  claim_tables_ok (mkClaims (claims t) (recovery_events t ++ [r])).
Proof.
  intros (Hnd & Hc & Hr) Hin Hid Hac Hcur Hpos Hle. split; [done|]. split.
  - intros c' Hc'. destruct (Hc c' Hc') as (Hamt & Hcu & Hst & Hlow & Hlow2 & Hrec & Hfull).
    unfold claim_ok. rewrite recovered_add. split_and!; try done; try apply Hamt.
    + destruct (_ && _) eqn:E; [|lia]. rewrite andb_true_iff, !bool_decide_eq_true in E. destruct E as [_ E].
      assert (c' = c) as -> by (apply (claim_unique t); [done..|congruence]). lia.
    + intros Hs. specialize (Hfull Hs). destruct (_ && _) eqn:E; [|lia].
      rewrite andb_true_iff, !bool_decide_eq_true in E. destruct E as [_ E].
      assert (c' = c) as -> by (apply (claim_unique t); [done..|congruence]). lia.
  - simpl. intros r' [Hr'| ->%list_elem_of_singleton]%elem_of_app; [by apply Hr|].
    split; [done|]. exists c. done.
Qed.

(** Updating one claim, keeping its identity, amount and currency. *)
Lemma update_claim_ok t (p : claim → bool) (f : claim → claim) :
  (∀ c, cl_id (f c) = cl_id c ∧ cl_account (f c) = cl_account c ∧ cl_amount_claimed (f c) = cl_amount_claimed c ∧
        cl_currency (f c) = cl_currency c) →
  (∀ c, c ∈ claims t → p c = true → claim_ok t c → cl_status (f c) ∈ claim_status_values ∧
     (cl_status (f c) = "recovered" → recovered c t = cl_amount_claimed c)) →
  claim_tables_ok t → claim_tables_ok (mkClaims (update_where p f (claims t)) (recovery_events t)).
Proof.
  intros Hf Hs (Hnd & Hc & Hr). split; [|split].
  - simpl. rewrite update_where_key; [done|]. apply Hf.
  - simpl. intros c [[Hin _]|(c0 & Hin & Hp & ->)]%elem_of_update_where; [by apply Hc|].
    pose proof (Hc c0 Hin) as Hok. destruct (Hs c0 Hin Hp Hok) as [Hst Hfull].
    destruct Hok as (Hamt & Hcu & _ & Hlow & Hlow2 & Hrec & _). destruct (Hf c0) as (Hi & Ha & Hm & Hcur).
    unfold claim_ok, recovered. rewrite Hi, Ha, Hm, Hcur. split_and!; try done; apply Hamt.
  - simpl. intros r Hr'. destruct (Hr r Hr') as (Hpos & c & Hin & Hid & Hac & Hcur). split; [done|].
    destruct (Hf c) as (Hi & Ha & _ & Hcu).
    exists (if p c then f c else c). split.
    { unfold update_where. simpl. by apply (list_elem_of_fmap_2 (λ c, if p c then f c else c)). }
    destruct (p c); rewrite ?Hi, ?Ha, ?Hcu; done.
Qed.
End tables.

(** ** What each handler commits *)

Section handlers.
Context {D : DecimalJs} {L : DecimalLaws D} {H : Sha256} {U : UuidSource} {UL : UuidSourceLaws U}
  {Z : Zod} {B : PgBoss}.

Lemma insert_recovery_spec clientId claimId f amt cur e s rowId s' :
  insert_recovery clientId claimId f amt cur e s = Ok (rowId, s') →
  ∃ a, money_units amt = Some a ∧ BinInt.Z.abs a < 10 ^ 18 ∧
    claim_part s' = mkClaims (claims (claim_part s)) (recovery_events (claim_part s) ++
      [{| re_id := rowId; re_account := pg_uuid clientId; re_claim := pg_uuid claimId;
          re_finding := pg_uuid <$> f; re_amount_recovered := a; re_currency := cur |}]) ∧
    audit_log s' = audit_log s ∧ findings s' = findings s ∧ ledger_times s' = ledger_times s.
Proof using Type.
  unfold insert_recovery. intros Hi. tx_inv.
  match goal with Hn : numeric _ _ _ = _ |- _ => apply numeric_Ok in Hn as (a & Ha & Hab & Hn); simplify_eq end.
  id_inv. exists a. by split_and!.
Qed.

Lemma export_frame c i r a cur f e s o s' : savepoint (enqueueReconciliationExport c i r a cur f) e s = Ok (o, s') →
  claim_part s' = claim_part s ∧ audit_log s' = audit_log s ∧ findings s' = findings s.
Proof using Type.
  unfold savepoint. destruct (enqueueReconciliationExport _ _ _ _ _ _ _ _) as [[r' s1]|] eqn:E; intros [= <- <-]; [|done].
  unfold enqueueReconciliationExport in E. tx_inv. apply enqueue_frame in E as ->. done.
Qed.

Lemma plan_partial_spec i e s v s1 : plan_partial i e s = Ok (v, s1) →
  s1 = s ∧ partial_input_ok i = true ∧ ∃ c, select_one (claim_at (pi_clientId i) (pi_claimId i)) (claims (claim_part s)) = Some c ∧
  validatePartialRecovery (claim_row c) (pi_amountRecovered i) (Some (pi_currency i))
    (prior_total (pi_clientId i) (pi_claimId i) s) = Ok v.
Proof using Type. unfold plan_partial. intros Hp. tx_inv. unfold id in *. eauto 10. Qed.

Lemma commit_partial_spec i v e s rowId s' : commit_partial i v e s = Ok (rowId, s') →
  ∃ a, money_units (vp_amountRecovered v) = Some a ∧ BinInt.Z.abs a < 10 ^ 18 ∧
    claim_part s' = mkClaims (claims (claim_part s)) (recovery_events (claim_part s) ++
      [{| re_id := rowId; re_account := pg_uuid (pi_clientId i); re_claim := pg_uuid (pi_claimId i);
          re_finding := pg_uuid <$> pi_varianceFindingId i; re_amount_recovered := a;
          re_currency := Some (vp_currency v) |}]) ∧
    findings s' = findings s ∧
    ∃ x, (∀ y, y ∈ audit_log s' ↔ y ∈ audit_log s ∨ y = x) ∧ ae_entity x = "recovery_event".
Proof using Type.
  unfold commit_partial. intros Hc. tx_inv.
  match goal with Hi : insert_recovery _ _ _ _ _ _ _ = _ |- _ =>
    apply insert_recovery_spec in Hi as (a & Ha & Hab & Hcp & Hlog & Hf & _) end.
  match goal with Hm : emit _ _ _ = _ |- _ =>
    pose proof (emit_frame _ _ _ _ _ Hm) as (_ & Hf1 & _ & Hcp1 & _); apply emit_event in Hm as (ev & _ & Hent & _ & _ & _ & _ & Hx) end.
  match goal with Hs : savepoint _ _ _ = _ |- _ => apply export_frame in Hs as (Hcp2 & Hlog2 & Hf2) end.
  exists a. rewrite Hcp2, Hcp1, Hf2, Hf1, Hlog2. split_and!; [done..|].
  exists ev. split; [|by rewrite Hent]. intros y. by rewrite Hx, Hlog.
Qed.

Lemma prior_units clientId claimId s : money_units (prior_total clientId claimId s) =
  Some (zsum (recovered_by (pg_uuid clientId) (pg_uuid claimId) (claim_part s))).
Proof using Type. apply sum_text_units. Qed.

Lemma validate_keeps_amount claim amount currency prior v :
  validatePartialRecovery claim amount currency prior = Ok v → vp_amountRecovered v = amount.
Proof using Type.
  unfold validatePartialRecovery, validateRecoveryAmountAndCurrency. intros Hv.
  apply bind_Ok in Hv as ([am c] & Hr & Hv). res_inv. simpl.
  res_inv. destruct currency; res_inv; done.
Qed.

(** A planned recovery, in terms of amounts. *)
Lemma plan_amounts c i a prior p v :
  money_units (pi_amountRecovered i) = Some a → money_units prior = Some p → BinInt.Z.abs (p + a) < 10 ^ 20 →
  validatePartialRecovery (claim_row c) (pi_amountRecovered i) (Some (pi_currency i)) prior = Ok v →
  0 < a ∧ p + a <= cl_amount_claimed c ∧ currency_agrees (pi_currency i) (cl_currency c) = true ∧
  v = mkPartial (pi_amountRecovered i) (pi_currency i) (fixed 4 (p + a)) (p + a =? cl_amount_claimed c).
Proof using L.
  intros Ha Hp Hb Hv. rewrite (validatePartialRecovery_eq c _ _ _ a p) in Hv by done.
  destruct (Z.leb_spec a 0); [done|]. destruct (currency_agrees _ _); [|done]. simpl in Hv.
  destruct (Z.ltb_spec (cl_amount_claimed c) (p + a)); [done|]. split_and!; try done. congruence.
Qed.

(** What a recorded partial recovery does, from a state of the invariant. *)
Lemma recordPartialRecovery_spec i e s rowId cum fin s' :
  claim_tables_ok (claim_part s) → recordPartialRecovery i e s = Ok ((rowId, cum, fin), s') →
  ∃ c a, c ∈ claims (claim_part s) ∧ claim_at (pi_clientId i) (pi_claimId i) c = true ∧
    money_units (pi_amountRecovered i) = Some a ∧ 0 < a ∧ recovered c (claim_part s) + a <= cl_amount_claimed c ∧
    cum = fixed 4 (recovered c (claim_part s) + a) ∧ fin = (recovered c (claim_part s) + a =? cl_amount_claimed c) ∧
    claim_part s' = mkClaims (claims (claim_part s)) (recovery_events (claim_part s) ++
      [{| re_id := rowId; re_account := cl_account c; re_claim := cl_id c;
          re_finding := pg_uuid <$> pi_varianceFindingId i; re_amount_recovered := a;
          re_currency := cl_currency c |}]) ∧
    findings s' = findings s ∧
    ∃ x, (∀ y, y ∈ audit_log s' ↔ y ∈ audit_log s ∨ y = x) ∧ ae_entity x = "recovery_event".
Proof using L.
  intros Hok Hr. unfold recordPartialRecovery in Hr. tx_inv.
  match goal with Hp : plan_partial _ _ _ = _ |- _ => apply plan_partial_spec in Hp as (-> & Hin & c & Hc & Hv) end.
  match goal with Hp : commit_partial _ _ _ _ = _ |- _ => apply commit_partial_spec in Hp as (a & Ha & Hab & Hcp & Hf & Hx) end.
  apply find_claim in Hc as (Hc & Hacc & Hid).
  rewrite (validate_keeps_amount _ _ _ _ _ Hv) in Ha. pose proof Hok as (_ & Hcl & _).
  destruct (Hcl c Hc) as ([_ Hamt] & [cu Hcu] & _ & _ & _ & Hle & _). pose proof (recovered_nonneg c _ Hok).
  apply (plan_amounts c i a _ (recovered c (claim_part s))) in Hv as (Hpos & Hle' & Hcur & ->).
  - exists c, a. split_and!; try done; [by apply claim_at_spec|].
    rewrite Hcp, <- Hacc, <- Hid. rewrite Hcu in *. simpl in Hcur. apply bool_decide_eq_true in Hcur. by rewrite Hcur.
  - done.
  - rewrite prior_units. unfold recovered. by rewrite Hacc, Hid.
  - lia.
Qed.

(** ** Resolution *)

Lemma resolution_cases claim kind prior amt cur v :
  validateClaimResolution claim kind prior amt cur = Ok v →
  isClaimTerminalStatus (cr_status claim) = false ∧
  ((amt = None ∧ vr_amountRecovered v = None ∧ vr_newStatus v ∈ ["denied"; "written_off"]) ∨
   (∃ am, amt = Some am ∧ kind ≠ DENIAL ∧ vr_amountRecovered v = Some am)).
Proof using Type.
  unfold validateClaimResolution. destruct (isClaimTerminalStatus _); [done|]. intros Hv. split; [done|].
  destruct amt as [am|].
  - right. exists am. destruct kind; [|done|]; apply bind_Ok in Hv as ([am' c] & Hr & Hv);
      unfold validateRecoveryAmountAndCurrency in Hr; res_inv; destruct cur; res_inv; simpl in Hv; res_inv;
      try (case_bool_decide; res_inv); done.
  - left. destruct kind; [done| |]; injection Hv as <-; simpl; rewrite !elem_of_cons; auto.
Qed.

Lemma resolution_amounts c kind prior p am a cur v :
  money_units am = Some a → money_units prior = Some p → BinInt.Z.abs (p + a) < 10 ^ 20 → kind ≠ DENIAL →
  validateClaimResolution (claim_row c) kind prior (Some am) cur = Ok v →
  0 < a ∧ p + a <= cl_amount_claimed c ∧ vr_newStatus v ∈ ["recovered"; "written_off"] ∧
  (vr_newStatus v = "recovered" → p + a = cl_amount_claimed c) ∧
  ∃ cu, vr_currency v = Some cu ∧ currency_agrees cu (cl_currency c) = true.
Proof using L.
  intros Ha Hp Hb Hk Hv. rewrite (validateClaimResolution_amount c kind prior am cur a p) in Hv by done.
  destruct (isClaimTerminalStatus _); [done|]. destruct (Z.leb_spec a 0); [done|].
  destruct cur as [cu|]; [|done]. destruct (currency_agrees _ _) eqn:Ec; [|done]. simpl in Hv.
  destruct kind; [|done|].
  - destruct (Z.eqb_spec (p + a) (cl_amount_claimed c)); [|done]. simplify_eq. simpl.
    rewrite !elem_of_cons. split_and!; eauto; lia.
  - destruct (Z.leb_spec (cl_amount_claimed c) (p + a)); [done|]. simplify_eq. simpl.
    rewrite !elem_of_cons. split_and!; eauto; [lia|done].
Qed.

(** The finding a resolution names follows it; nothing else of the claim does. *)
Lemma resolve_finding_frame (o : option string) (b : bool) st note e s u s' :
  match o with
  | Some f => if b then _ ← updateFindingStatus f st note None; mret tt else mret tt
  | None => mret tt
  end e s = Ok (u, s') →
  claim_part s' = claim_part s ∧
  (∀ x, x ∈ audit_log s' → x ∈ audit_log s ∨ ae_entity x = "variance_finding") ∧
  (∀ x, x ∈ audit_log s → x ∈ audit_log s').
Proof using Type.
  destruct o as [f|]; [destruct b|]; intros Hu; tx_inv; try (split_and!; auto; done).
  match goal with Hf : updateFindingStatus _ _ _ _ _ _ = _ |- _ =>
    pose proof (λ x, updateFindingStatus_mono _ _ _ _ _ _ _ _ x Hf) as Hmono;
    apply updateFindingStatus_spec in Hf as (_ & Hc & _ & _ & _ & _ & Hlog & _) end.
  by split_and!.
Qed.

(** The recovery a resolution records: none, or one the claim has room for. *)
Definition resolution_effect (c : claim) (t : claim_tables) (newStatus : string) (evs : list recovery_event) : Prop :=
  (evs = recovery_events t ∧ newStatus ∈ ["denied"; "written_off"]) ∨
  ∃ r, evs = recovery_events t ++ [r] ∧ newStatus ∈ ["recovered"; "written_off"] ∧
    re_claim r = cl_id c ∧ re_account r = cl_account c ∧ re_currency r = cl_currency c ∧
    0 < re_amount_recovered r ∧ recovered c t + re_amount_recovered r <= cl_amount_claimed c ∧
    (newStatus = "recovered" → recovered c t + re_amount_recovered r = cl_amount_claimed c).

Lemma resolution_insert c clientId claimId kind amt cur f e s v rid s1 :
  claim_tables_ok (claim_part s) → c ∈ claims (claim_part s) → cl_account c = pg_uuid clientId → cl_id c = pg_uuid claimId →
  validateClaimResolution (claim_row c) kind (prior_total clientId claimId s) amt cur = Ok v →
  match vr_amountRecovered v with
  | Some amount => rowId ← insert_recovery clientId claimId f amount (vr_currency v); mret (Some rowId)
  | None => mret None
  end e s = Ok (rid, s1) →
  ∃ evs, claim_part s1 = mkClaims (claims (claim_part s)) evs ∧ audit_log s1 = audit_log s ∧
    resolution_effect c (claim_part s) (vr_newStatus v) evs.
Proof using L.
  intros Hok Hc Hacc Hid Hv Hi. pose proof (resolution_cases _ _ _ _ _ _ Hv) as [_ Hcase].
  destruct Hcase as [(-> & Hnone & Hst)|(am & -> & Hk & Ham)].
  - rewrite Hnone in Hi. tx_inv. exists (recovery_events (claim_part s)).
    split_and!; [by destruct (claim_part s)|done|by left].
  - rewrite Ham in Hi. tx_inv.
    match goal with Hr : insert_recovery _ _ _ _ _ _ _ = _ |- _ =>
      apply insert_recovery_spec in Hr as (a & Ha & Hab & Hcp & Hlog & _ & _) end.
    destruct Hok as (Hnd & Hcl & Hre). destruct (Hcl c Hc) as ([_ Hamt] & [cu Hcu] & _ & _ & _ & Hle & _).
    pose proof (recovered_nonneg c (claim_part s) (conj Hnd (conj Hcl Hre))).
    apply (resolution_amounts c kind _ (recovered c (claim_part s)) am a) in Hv as (Hpos & Hle' & Hst & Hfull & cu' & Hcu' & Hag);
      [|done| |lia|done].
    2:{ rewrite prior_units. unfold recovered. by rewrite Hacc, Hid. }
    eexists. split; [exact Hcp|]. split; [done|]. right. eexists. split; [reflexivity|]. simpl.
    rewrite Hcu in *. simpl in Hag. apply bool_decide_eq_true in Hag. subst cu'. by split_and!.
Qed.

Lemma resolveClaim_spec i e s v rid s' :
  claim_tables_ok (claim_part s) → resolveClaim i e s = Ok ((v, rid), s') →
  ∃ c evs, c ∈ claims (claim_part s) ∧ claim_at (ri_clientId i) (ri_claimId i) c = true ∧
    isClaimTerminalStatus (cl_status c) = false ∧
    claim_part s' = mkClaims (update_where (claim_at (ri_clientId i) (ri_claimId i))
                       (set_claim_status (vr_newStatus v)) (claims (claim_part s))) evs ∧
    resolution_effect c (claim_part s) (vr_newStatus v) evs ∧
    (∀ y, y ∈ audit_log s → y ∈ audit_log s') ∧
    ∃ x, x ∈ audit_log s' ∧ ae_entity x = "claim" ∧ ae_clientId x = Some (cl_account c) ∧
      ae_entityId x = Some (cl_id c) ∧ ae_event x = trim ("claim." +:+ vr_newStatus v) ∧
      ∀ y, y ∈ audit_log s' → y ∈ audit_log s ∨ y = x ∨ ae_entity y = "variance_finding".
Proof using L.
  intros Hok Hr. unfold resolveClaim, plan_resolution, commit_resolution in Hr. tx_inv. unfold id in *.
  match goal with Hs : select_one _ _ = Some _ |- _ => apply find_claim in Hs as (Hc & Hacc & Hid) end.
  match goal with Hv : validateClaimResolution _ _ _ _ _ = Ok _ |- _ =>
    pose proof (resolution_cases _ _ _ _ _ _ Hv) as [Hopen _];
    match goal with Hi : _ e s = Ok _ |- _ =>
      destruct (resolution_insert _ _ _ _ _ _ _ _ _ _ _ _ Hok Hc Hacc Hid Hv Hi) as (evs & Hcp & Hlog & Heff) end end.
  match goal with Hf : _ e (upd_claim_rows _ _) = Ok _ |- _ =>
    apply resolve_finding_frame in Hf as (Hcp1 & Hnew & Hold) end.
  match goal with Hm : emit _ _ _ = _ |- _ =>
    pose proof (emit_frame _ _ _ _ _ Hm) as (_ & _ & _ & Hcp2 & _);
    apply emit_event in Hm as (ev & Hcl & Hent & Heid & Hevt & _ & _ & Hx) end.
  eexists _, evs. split; [exact Hc|]. split; [by apply claim_at_spec|]. split; [exact Hopen|].
  split; [by rewrite Hcp2, Hcp1; simpl; rewrite Hcp|]. split; [exact Heff|].
  simpl in Hnew, Hold. rewrite Hlog in Hnew, Hold. split.
  { intros y Hy. apply Hx. left. by apply Hold. }
  exists ev. rewrite Hacc, Hid. split_and!; [by apply Hx; right|done..|].
  intros y [Hy| ->]%Hx; [|by auto]. apply Hnew in Hy as [Hy|Hy]; auto.
Qed.

(** ** Opening and ageing *)

Lemma validateClaimable_spec d i amt cur : validateClaimableDispute d = Ok (i, amt, cur) →
  di_status d = "accepted" ∧ ∃ m, di_amount_claimed d = Some m ∧ amt = numeric_text m ∧ 0 < m ∧ di_currency d = Some cur.
Proof using L.
  unfold validateClaimableDispute. intros Hv. res_inv.
  match goal with Hb : bool_decide _ = true |- _ => apply bool_decide_eq_true in Hb end. split; [done|].
  destruct (di_amount_claimed d) as [m|]; [|done]. destruct (di_currency d) as [cu|]; [|done].
  rewrite (validateRecovery_eq _ m) in Hv by apply money_units_fixed.
  destruct (Z.leb_spec m 0); simpl in Hv; simplify_eq. eauto 10.
Qed.

Lemma createClaim_spec clientId disputeId actor e s r s' :
  createClaimFromDispute clientId disputeId actor e s = Ok (r, s') →
  (claim_part s' = claim_part s ∧ audit_log s' = audit_log s) ∨ ∃ row, claim_part s' = mkClaims (claims (claim_part s) ++ [row]) (recovery_events (claim_part s)) ∧
    0 < cl_amount_claimed row < 10 ^ 18 ∧ is_Some (cl_currency row) ∧ cl_status row = "open" ∧
    pg_uuid (cl_id row) = cl_id row ∧ pg_uuid (cl_account row) = cl_account row ∧
    (cl_id row ∉ map cl_id (claims (claim_part s))) ∧
    ∃ x, (∀ y, y ∈ audit_log s' ↔ y ∈ audit_log s ∨ y = x) ∧ ae_entity x = "claim" ∧
      ae_entityId x = Some (cl_id row) ∧ ae_event x = "claim.created".
Proof using L UL.
  unfold createClaimFromDispute. intros Hc. tx_inv. unfold id in *.
  destruct (selectExistingClaim _ _ _); tx_inv; [by left|].
  match goal with Hv : validateClaimableDispute _ = _ |- _ =>
    apply validateClaimable_spec in Hv as (_ & m & _ & -> & Hm & _) end.
  unfold detectDuplicateClaimedFinding in *. tx_inv.
  match goal with Hn : numeric _ _ _ = _ |- _ => apply numeric_Ok in Hn as (a & Ha & Hab & Hn); simplify_eq end.
  unfold numeric_text in Ha. rewrite money_units_fixed in Ha. simplify_eq. id_inv.
  match goal with Hi : insert_on_conflict _ _ _ = (?b, ?l) |- _ => rename Hi into Ei, b into ins, l into rows end.
  apply insert_on_conflict_spec in Ei as [(-> & -> & _)|(-> & -> & _)]; tx_inv.
  - id_inv. match goal with Hm : emit _ _ _ = _ |- _ =>
      pose proof (emit_frame _ _ _ _ _ Hm) as (_ & _ & _ & Hcp & _);
      apply emit_event in Hm as (ev & _ & Hent & Heid & Hevt & _ & _ & Hx) end.
    right. eexists. split; [rewrite Hcp; reflexivity|]. simpl.
    rewrite gen_random_uuid_lower in *. split_and!; try done; [lia|apply pg_uuid_idem|].
    exists ev. by rewrite Hent, Heid, Hevt.
  - by left.
Qed.

Lemma add_claim_ok t row : claim_tables_ok t →
  0 < cl_amount_claimed row < 10 ^ 18 → is_Some (cl_currency row) → cl_status row = "open" →
  pg_uuid (cl_id row) = cl_id row → pg_uuid (cl_account row) = cl_account row →
  (cl_id row ∉ map cl_id (claims t)) → claim_tables_ok (mkClaims (claims t ++ [row]) (recovery_events t)).
Proof using Type.
  intros (Hnd & Hc & Hr) Hamt Hcur Hst Hlow Hlow2 Hnew. split; [|split]; simpl.
  - rewrite map_app. apply NoDup_app. split; [done|]. split; [|apply NoDup_singleton].
    intros k Hk. simpl. rewrite list_elem_of_singleton. congruence.
  - intros c [Hin| ->%list_elem_of_singleton]%elem_of_app; [by apply Hc|].
    assert (recovered row (mkClaims (claims t ++ [row]) (recovery_events t)) = 0) as Hzero.
    { unfold recovered, recovered_by. simpl. rewrite (filter_none _ (recovery_events t)); [done|].
      intros r Hin. apply andb_false_iff. right. apply bool_decide_eq_false. intros Hid. apply Hnew.
      destruct (Hr r Hin) as (_ & c & Hin' & Heq & _). rewrite <- Hid, <- Heq. by apply list_elem_of_fmap_2. }
    unfold claim_ok. rewrite Hzero, Hst. split_and!; try done; try apply Hamt; [|lia].
    unfold claim_status_values. rewrite elem_of_cons. by left.
  - intros r Hin. destruct (Hr r Hin) as (Hpos & c & Hin' & Heq). split; [done|]. exists c.
    split; [|done]. apply elem_of_app. by left.
Qed.

Lemma setDeadline_spec clientId claimId days e s r s' :
  setClaimAgingDeadline clientId claimId days e s = Ok (r, s') →
  audit_log s' = audit_log s ∧ ∃ d, claim_part s' =
    mkClaims (update_where (claim_at clientId claimId) (set_claim_deadline d) (claims (claim_part s)))
      (recovery_events (claim_part s)).
Proof using Type. unfold setClaimAgingDeadline. intros Hs. tx_inv. split; [done|]. by eexists. Qed.

(** Follow-ups and escalations only add their own event. *)
Definition adds_claim_event (names : list string) (s s' : db) : Prop :=
  claim_part s' = claim_part s ∧ ∃ c x, c ∈ claims (claim_part s) ∧
    (∀ y, y ∈ audit_log s' ↔ y ∈ audit_log s ∨ y = x) ∧
    ae_entityId x = Some (pg_uuid (cl_id c)) ∧ ae_event x ∈ names.

Lemma follow_up_spec clientId claimId at_ e s r s' :
  generateClaimFollowUp clientId claimId at_ e s = Ok (r, s') → adds_claim_event [CLAIM_FOLLOW_UP_EVENT] s s'.
Proof using Type.
  unfold generateClaimFollowUp. intros Hs. tx_inv.
  match goal with Hs : select_one _ _ = Some _ |- _ => apply find_claim in Hs as (Hc & _) end.
  match goal with Hm : emit _ _ _ = _ |- _ =>
    pose proof (emit_frame _ _ _ _ _ Hm) as (_ & _ & _ & Hcp & _);
    apply emit_event in Hm as (ev & _ & Hent & Heid & Hevt & _ & _ & Hx) end.
  split; [done|]. eexists _, ev. split; [exact Hc|]. rewrite Hevt. split_and!; [done..|by apply list_elem_of_singleton].
Qed.
Lemma escalation_spec clientId claimId at_ days e s r s' :
  generateClaimEscalation clientId claimId at_ days e s = Ok (r, s') → adds_claim_event ["claim.escalated"] s s'.
Proof using Type.
  unfold generateClaimEscalation. intros Hs. tx_inv. unfold id in *.
  match goal with Hs : select_one _ _ = Some _ |- _ => apply find_claim in Hs as (Hc & _) end.
  match goal with Hm : emit _ _ _ = _ |- _ =>
    pose proof (emit_frame _ _ _ _ _ Hm) as (_ & _ & _ & Hcp & _);
    apply emit_event in Hm as (ev & _ & Hent & Heid & Hevt & _ & _ & Hx) end.
  split; [done|]. eexists _, ev. split; [exact Hc|]. rewrite Hevt. split_and!; [done..|by apply list_elem_of_singleton].
Qed.
End handlers.

(** ** Histories *)

Section histories.
Context {D : DecimalJs} {L : DecimalLaws D} {H : Sha256} {U : UuidSource} {UL : UuidSourceLaws U}
  {Z : Zod} {B : PgBoss}.

(** What the reads of a recovery or a resolution return about its claim: the
    columns the validators look at, and the amounts recovered so far. *)
Definition claim_view (clientId claimId : string) (s : db) : option ClaimRow * list BinInt.Z :=
  (claim_row <$> select_one (claim_at clientId claimId) (claims (claim_part s)),
   recovered_by (pg_uuid clientId) (pg_uuid claimId) (claim_part s)).

(** One committed transaction: a claim handler, or anything else the program
    does, which writes neither claims nor recoveries, never removes ledger
    entries and writes no claim event. The handlers take no lock: a recovery and
    a resolution may have read an earlier state [sr] than the one they write to.
    The histories are those in which no other recovery or resolution of the same
    claim was committed in between ([claim_view] is unchanged); transactions on
    other claims, and every other transaction, may interleave. *)
Inductive claim_step : db → db → Prop :=
  | step_create c d a e s r s' : createClaimFromDispute c d a e s = Ok (r, s') → claim_step s s'
  | step_partial i v e e' sr s rowId s' : plan_partial i e sr = Ok (v, sr) →
      claim_view (pi_clientId i) (pi_claimId i) sr = claim_view (pi_clientId i) (pi_claimId i) s →
      commit_partial i v e' s = Ok (rowId, s') → claim_step s s'
  | step_resolve i v e e' sr s rid s' : plan_resolution i e sr = Ok (v, sr) →
      claim_view (ri_clientId i) (ri_claimId i) sr = claim_view (ri_clientId i) (ri_claimId i) s →
      commit_resolution i v e' s = Ok (rid, s') → claim_step s s'
  | step_deadline c i d e s r s' : setClaimAgingDeadline c i d e s = Ok (r, s') → claim_step s s'
  | step_follow_up c i t e s r s' : generateClaimFollowUp c i t e s = Ok (r, s') → claim_step s s'
  | step_escalate c i t g e s r s' : generateClaimEscalation c i t g e s = Ok (r, s') → claim_step s s'
  | step_elsewhere s s' : claim_part s' = claim_part s →
      (∀ x, x ∈ audit_log s → x ∈ audit_log s') →
      (∀ x, x ∈ audit_log s' → x ∈ audit_log s ∨ ae_entity x ≠ "claim") → claim_step s s'.

Inductive claim_reachable (s0 : db) : db → Prop :=
  | reach_start : claim_reachable s0 s0
  | reach_step s s' : claim_reachable s0 s → claim_step s s' → claim_reachable s0 s'.

Lemma claim_view_spec clientId claimId sr s : claim_view clientId claimId sr = claim_view clientId claimId s →
  claim_row <$> select_one (claim_at clientId claimId) (claims (claim_part sr)) =
    claim_row <$> select_one (claim_at clientId claimId) (claims (claim_part s)) ∧
  prior_total clientId claimId sr = prior_total clientId claimId s.
Proof using Type. unfold claim_view, prior_total. intros [= -> ->]. done. Qed.

(** A plan depends on nothing but the claim's view: made on an earlier state with
    the same view, it is the plan of the state it is committed to. *)
Lemma partial_whole i v e e' sr s rowId s' : plan_partial i e sr = Ok (v, sr) →
  claim_view (pi_clientId i) (pi_claimId i) sr = claim_view (pi_clientId i) (pi_claimId i) s →
  commit_partial i v e' s = Ok (rowId, s') →
  recordPartialRecovery i e' s = Ok ((rowId, vp_cumulativeRecovered v, vp_isFinal v), s').
Proof using Type.
  intros (_ & Hin & c & Hc & Hv)%plan_partial_spec [Hrow Hprior]%claim_view_spec Hcommit.
  rewrite Hc in Hrow. rewrite Hprior in Hv. destruct (select_one _ (claims (claim_part s))) as [c'|] eqn:Hc'; [|done].
  apply (inj Some) in Hrow. rewrite Hrow in Hv.
  unfold recordPartialRecovery, plan_partial, mbind, tx_bind, query, check, the, lift, mret, tx_ret. cbn [id].
  by rewrite Hin, Hc', Hv, Hcommit.
Qed.
Lemma resolution_whole i v e e' sr s rid s' : plan_resolution i e sr = Ok (v, sr) →
  claim_view (ri_clientId i) (ri_claimId i) sr = claim_view (ri_clientId i) (ri_claimId i) s →
  commit_resolution i v e' s = Ok (rid, s') → resolveClaim i e' s = Ok ((v, rid), s').
Proof using Type.
  intros Hp [Hrow Hprior]%claim_view_spec Hcommit. unfold plan_resolution in Hp. tx_inv. unfold id in *.
  match goal with Hs : select_one _ _ = Some _ |- _ => rewrite Hs in Hrow end. rewrite Hprior in *.
  destruct (select_one _ (claims (claim_part s))) as [c'|] eqn:Hc'; [|done]. apply (inj Some) in Hrow. rewrite Hrow in *.
  unfold resolveClaim, plan_resolution, mbind, tx_bind, query, check, the, lift, mret, tx_ret. cbn [id].
  match goal with Hi : resolve_input_ok _ = true |- _ => rewrite Hi end.
  match goal with Hv : validateClaimResolution _ _ _ _ _ = _ |- _ => by rewrite Hc', Hv, Hcommit end.
Qed.
(** A transaction that reads the state it writes to is such a step. *)
Lemma step_partial_whole i e s r s' : recordPartialRecovery i e s = Ok (r, s') → claim_step s s'.
Proof using Type.
  unfold recordPartialRecovery. intros Hr. tx_inv.
  match goal with Hp : plan_partial _ _ _ = _ |- _ => pose proof (plan_partial_spec _ _ _ _ _ Hp) as [-> _] end.
  by eapply step_partial.
Qed.
Lemma step_resolve_whole i e s r s' : resolveClaim i e s = Ok (r, s') → claim_step s s'.
Proof using Type.
  unfold resolveClaim. intros Hr. tx_inv.
  match goal with Hp : plan_resolution _ _ ?s = Ok (?v, ?s1) |- _ =>
    assert (s1 = s) as -> by (clear -Hp; unfold plan_resolution in Hp; tx_inv; done) end.
  by eapply step_resolve.
Qed.

Lemma terminal_event_name st : isClaimTerminalStatus st = true ↔ "claim." +:+ st ∈ CLAIM_TERMINAL_EVENT_NAMES.
Proof using Type.
  unfold isClaimTerminalStatus, CLAIM_TERMINAL_STATUSES, CLAIM_TERMINAL_EVENT_NAMES. simpl.
  rewrite bool_decide_eq_true, !elem_of_cons. split.
  - intros [->|[->|[->|[]%elem_of_nil]]]; auto.
  - intros [Hs|[Hs|[Hs|[]%elem_of_nil]]]; injection Hs as ->; auto.
Qed.

(** Ledger steps that concern claims only through known, non-terminal events. *)
Lemma ledger_grows t log log' :
  claim_ledger_ok t log → (∀ x, x ∈ log → x ∈ log') →
  (∀ x, x ∈ log' → x ∈ log ∨ ae_entity x ≠ "claim" ∨
     (∃ c, c ∈ claims t ∧ ae_entityId x = Some (cl_id c)) ∧ ae_event x ∉ CLAIM_TERMINAL_EVENT_NAMES) →
  claim_ledger_ok t log'.
Proof using Type.
  intros [Hev Hst] Hold Hnew. split.
  - intros x [Hx|[Hx|[(c & Hc & Hid) Hn]]]%Hnew Hent; [by apply Hev|done|]. exists c. by split_and!.
  - intros c Hc Ht. destruct (Hst c Hc Ht) as (x & Hx & Hrest). exists x. split; [by apply Hold|done].
Qed.

Lemma create_inv c d a e s r s' : claims_inv s → createClaimFromDispute c d a e s = Ok (r, s') → claims_inv s'.
Proof.
  intros [Ht [Hev Hst]] [(Hcp & Hlog)|(row & Hcp & Hamt & Hcur & Hopen & Hlow & Hlow2 & Hnew & x & Hx & Hent & Heid & Hname)]%createClaim_spec.
  { unfold claims_inv. by rewrite Hcp, Hlog. }
  unfold claims_inv. rewrite Hcp. split; [by apply add_claim_ok|]. split; simpl.
  - intros y [Hy| ->]%Hx Hent'.
    + destruct (Hev y Hy Hent') as (c0 & Hc0 & Hrest). exists c0. split; [|done]. apply elem_of_app. by left.
    + exists row. split; [|split; [done|]]; [apply elem_of_app; right; by apply list_elem_of_singleton|].
      rewrite Hname. unfold CLAIM_TERMINAL_EVENT_NAMES. simpl. rewrite !elem_of_cons, elem_of_nil. naive_solver.
  - intros c0 [Hc0| ->%list_elem_of_singleton]%elem_of_app Hterm; [|by rewrite Hopen in Hterm].
    destruct (Hst c0 Hc0 Hterm) as (y & Hy & Hrest). exists y. split; [apply Hx; by left|done].
Qed.

Lemma partial_inv i e s r s' : claims_inv s → recordPartialRecovery i e s = Ok (r, s') → claims_inv s'.
Proof.
  destruct r as [[rowId cum] fin]. intros [Ht Hl] Hr.
  apply recordPartialRecovery_spec in Hr as (c & a & Hc & _ & _ & Hpos & Hle & _ & _ & Hcp & _ & x & Hx & Hent); [|done].
  unfold claims_inv. rewrite Hcp. split; [by apply (add_recovery_ok _ c)|].
  assert (claim_ledger_ok (claim_part s) (audit_log s')) as [H1 H2]; [|by split].
  eapply ledger_grows; [exact Hl| |].
  - intros y Hy. apply Hx. by left.
  - intros y [Hy| ->]%Hx; [by left|]. right. left. by rewrite Hent.
Qed.

Lemma resolve_inv i e s r s' : claims_inv s → resolveClaim i e s = Ok (r, s') → claims_inv s'.
Proof.
  destruct r as [v rid]. intros [Ht [Hev Hst]] Hr. pose proof Ht as (Hnd & Hcl & _).
  apply resolveClaim_spec in Hr as (c & evs & Hc & Hat & Hopen & Hcp & Heff & Hold & x & Hx & Hent & Hcli & Heid & Hname & Hnew); [|done].
  assert (∀ c', c' ∈ claims (claim_part s) → claim_at (ri_clientId i) (ri_claimId i) c' = true → c' = c) as Huniq.
  { intros c' Hc' Hat'. apply claim_at_spec in Hat as [_ H1], Hat' as [_ H2]. apply (claim_unique (claim_part s)); congruence. }
  assert (vr_newStatus v ∈ CLAIM_TERMINAL_STATUSES) as Hterm.
  { unfold CLAIM_TERMINAL_STATUSES. simpl. destruct Heff as [[_ Hs]|(r & _ & Hs & _)]; rewrite !elem_of_cons in *; naive_solver. }
  assert (ae_event x = "claim." +:+ vr_newStatus v) as Hname'.
  { rewrite Hname. unfold CLAIM_TERMINAL_STATUSES in Hterm. simpl in Hterm. rewrite !elem_of_cons in Hterm.
    destruct Hterm as [->|[->|[->|[]%elem_of_nil]]]; reflexivity. }
  unfold claims_inv. rewrite Hcp. split.
  - destruct Heff as [[-> Hs]|(r & -> & Hs & Hid & Hac & Hcur & Hpos & Hle & Hfull)].
    + apply update_claim_ok; [done| |done]. intros c' Hc' Hat' _. simpl. split; [by right|].
      intros Heq. rewrite Heq, !elem_of_cons, elem_of_nil in Hs. naive_solver.
    + change (claim_tables_ok (mkClaims (update_where (claim_at (ri_clientId i) (ri_claimId i))
        (set_claim_status (vr_newStatus v)) (claims (mkClaims (claims (claim_part s)) (recovery_events (claim_part s) ++ [r]))))
        (recovery_events (mkClaims (claims (claim_part s)) (recovery_events (claim_part s) ++ [r]))))).
      apply update_claim_ok; [done| |by apply (add_recovery_ok _ c)]. simpl. intros c' Hc' Hat' _. split; [by right|].
      intros Heq. rewrite (Huniq c' Hc' Hat'), recovered_add, Hid, Hac, !bool_decide_eq_true_2 by done. simpl. auto.
  - split; simpl.
    + intros y Hy Hent'. apply Hnew in Hy as [Hy|[->|Hy]]; [|exists (set_claim_status (vr_newStatus v) c)|by rewrite Hy in Hent'].
      * destruct (Hev y Hy Hent') as (c0 & Hc0 & Hid0 & Hterm0).
        pose proof (update_where_keeps (claim_at (ri_clientId i) (ri_claimId i)) (set_claim_status (vr_newStatus v)) _ c0 Hc0) as Hin.
        destruct (claim_at _ _ c0) eqn:E; [|by eauto]. rewrite (Huniq c0 Hc0 E) in *. eexists. split; [exact Hin|].
        split; [done|]. intros Hn. exfalso. specialize (Hterm0 Hn). rewrite Hterm0 in Hn.
        apply terminal_event_name in Hn. congruence.
      * pose proof (update_where_keeps (claim_at (ri_clientId i) (ri_claimId i)) (set_claim_status (vr_newStatus v)) _ c Hc) as Hin.
        rewrite Hat in Hin. split; [exact Hin|]. by split.
    + intros c' [[Hc' _]|(c0 & Hc0 & Hat0 & ->)]%elem_of_update_where Hterm'.
      * destruct (Hst c' Hc' Hterm') as (y & Hy & Hrest). exists y. split; [by apply Hold|done].
      * rewrite (Huniq c0 Hc0 Hat0). exists x. by split_and!.
Qed.

Lemma claim_event_inv names s s' : claims_inv s → adds_claim_event names s s' →
  (∀ n, n ∈ names → n ∉ CLAIM_TERMINAL_EVENT_NAMES) → claims_inv s'.
Proof.
  intros [Ht Hl] (Hcp & c & x & Hc & Hx & Hid & Hn) Hnames. unfold claims_inv. rewrite Hcp. split; [done|].
  pose proof Ht as (_ & Hcl & _). destruct (Hcl c Hc) as (_ & _ & _ & Hlow & _).
  eapply ledger_grows; [exact Hl| |].
  - intros y Hy. apply Hx. by left.
  - intros y [Hy| ->]%Hx; [by left|]. right. right. split; [|by apply Hnames]. exists c. by rewrite Hid, Hlow.
Qed.

Lemma claim_step_inv s s' : claims_inv s → claim_step s s' → claims_inv s'.
Proof.
  intros Hinv Hstep. destruct Hstep as [c d a e s r s' Hs|i v e e' sr s r s' Hp Hw Hs|i v e e' sr s r s' Hp Hw Hs|c i d e s r s' Hs|c i t e s r s' Hs|c i t g e s r s' Hs|s s' Hcp Hold Hnew].
  - by eapply create_inv.
  - eapply partial_inv; [done|]. by eapply partial_whole.
  - eapply resolve_inv; [done|]. by eapply resolution_whole.
  - apply setDeadline_spec in Hs as (Hlog & dl & Hcp). destruct Hinv as [Ht [Hev Hst]].
    unfold claims_inv. rewrite Hcp, Hlog. split.
    + apply update_claim_ok; [done| |done]. intros c0 Hc _ (_ & _ & Hst' & _ & _ & _ & Hfull). done.
    + split; simpl.
      * intros x Hx Hent. destruct (Hev x Hx Hent) as (c0 & Hc0 & Hrest).
        eexists. split; [by apply (update_where_keeps _ (set_claim_deadline dl))|]. by case_match.
      * intros c' [[Hc' _]|(c0 & Hc0 & _ & ->)]%elem_of_update_where Hterm; [by apply Hst|]. exact (Hst c0 Hc0 Hterm).
  - apply follow_up_spec in Hs. eapply (claim_event_inv _ s); [exact Hinv|exact Hs|]. intros n ->%list_elem_of_singleton. apply (bool_decide_unpack _). vm_compute. done.
  - apply escalation_spec in Hs. eapply (claim_event_inv _ s); [exact Hinv|exact Hs|]. intros n ->%list_elem_of_singleton. apply (bool_decide_unpack _). vm_compute. done.
  - destruct Hinv as [Ht Hl]. unfold claims_inv. rewrite Hcp. split; [done|]. eapply ledger_grows; [done..|].
    intros x [Hx|Hx]%Hnew; auto.
Qed.

Lemma claim_reachable_inv s0 s : claims_inv s0 → claim_reachable s0 s → claims_inv s.
Proof. intros H0. induction 1; [done|]. by eapply claim_step_inv. Qed.

(** A recovery planned on [s] and committed to [s1], whatever happened between. *)
Lemma overlapping_recovery s s1 s2 c i v e e' rowId : claim_tables_ok (claim_part s) → c ∈ claims (claim_part s) →
  plan_partial i e s = Ok (v, s) → commit_partial i v e' s1 = Ok (rowId, s2) →
  recovered c (claim_part s2) <= cl_amount_claimed c + (recovered c (claim_part s1) - recovered c (claim_part s)).
Proof.
  intros Ht Hc (_ & _ & c0 & Hc0 & Hv)%plan_partial_spec (a & Ha & Hab & Hcp & _)%commit_partial_spec.
  apply find_claim in Hc0 as (Hc0 & Hacc & Hid). pose proof Ht as (Hnd & Hcl & _).
  destruct (Hcl c Hc) as ([_ Hamt] & _ & _ & _ & _ & Hle & _). pose proof (recovered_nonneg c _ Ht).
  rewrite Hcp, recovered_add. cbn [re_account re_claim re_amount_recovered].
  destruct (_ && _) eqn:Eq; [|lia]. rewrite andb_true_iff, !bool_decide_eq_true in Eq. destruct Eq as [_ Eq].
  assert (c0 = c) as -> by (apply (claim_unique (claim_part s)); [done..|congruence]).
  rewrite (validate_keeps_amount _ _ _ _ _ Hv) in Ha.
  apply (plan_amounts c i a _ (recovered c (claim_part s))) in Hv as (_ & Hle' & _); [lia|done|..|lia].
  rewrite prior_units. unfold recovered. by rewrite Hacc, Hid.
Qed.

(** ** The guarantees *)

(** C2: recoveries against what was claimed. In every state reached by histories
    in which no two recoveries or resolutions of the same claim overlap (they may
    overlap with anything else), each claim's recoveries are positive, in the
    claim's own currency, and add up to at most the amount claimed, and to exactly
    that amount when the claim is closed as recovered. The code takes no lock, so
    two recoveries of one claim can overlap; then the total can pass the claim
    ([concurrent_recoveries_exceed]), by no more than what was recorded against
    the claim between the reads and the write of the later one: a recovery planned
    on such a state and committed to whatever the database has become leaves at
    most the amount claimed plus that difference. *)
Theorem claims_never_over_recovered s0 s c :
  claims_inv s0 → claim_reachable s0 s → c ∈ claims (claim_part s) →
  (0 <= recovered c (claim_part s) <= cl_amount_claimed c ∧
   (cl_status c = "recovered" → recovered c (claim_part s) = cl_amount_claimed c) ∧
   ∀ r, r ∈ recovery_events (claim_part s) → re_claim r = cl_id c →
     0 < re_amount_recovered r ∧ re_currency r = cl_currency c) ∧
  ∀ i v e e' s1 rowId s2, plan_partial i e s = Ok (v, s) → commit_partial i v e' s1 = Ok (rowId, s2) →
    recovered c (claim_part s2) <=
    cl_amount_claimed c + (recovered c (claim_part s1) - recovered c (claim_part s)).
Proof.
  intros H0 Hreach Hc. destruct (claim_reachable_inv s0 s H0 Hreach) as [Ht _].
  pose proof Ht as (Hnd & Hcl & Hre). destruct (Hcl c Hc) as (_ & _ & _ & _ & _ & Hle & Hfull).
  pose proof (recovered_nonneg c _ Ht). split; [split_and!; try done|].
  - intros r Hr Hid. destruct (Hre r Hr) as (Hpos & c' & Hc' & Hid' & _ & Hcur). rewrite Hcur.
    by rewrite (claim_unique (claim_part s) c' c) by (done || congruence).
  - intros i v e e' s1 rowId s2 Hp Hcm. by eapply overlapping_recovery.
Qed.

(** A terminal status is final: once a claim is recovered, denied or written
    off, no transaction changes its status. *)
Theorem claim_terminal_final s0 s s' c :
  claims_inv s0 → claim_reachable s0 s → claim_step s s' → c ∈ claims (claim_part s) →
  isClaimTerminalStatus (cl_status c) = true →
  ∃ c', c' ∈ claims (claim_part s') ∧ cl_id c' = cl_id c ∧ cl_status c' = cl_status c.
Proof.
  intros H0 Hreach Hstep Hc Hterm. destruct (claim_reachable_inv s0 s H0 Hreach) as [Ht _].
  destruct Hstep as [cl d a e s r s' Hs|i v e e' sr s r s' Hp Hw Hs|i v e e' sr s r s' Hp Hw Hs|cl i d e s r s' Hs|cl i t e s r s' Hs|cl i t g e s r s' Hs|s s' Hcp _ _].
  - apply createClaim_spec in Hs as [(-> & _)|(row & -> & _)]; exists c; [done|].
    split; [apply elem_of_app; by left|done].
  - pose proof (partial_whole _ _ _ _ _ _ _ _ Hp Hw Hs) as Hs'.
    apply recordPartialRecovery_spec in Hs' as (? & ? & _ & _ & _ & _ & _ & _ & _ & -> & _); [by exists c|done].
  - pose proof (resolution_whole _ _ _ _ _ _ _ _ Hp Hw Hs) as Hs'.
    apply resolveClaim_spec in Hs' as (c0 & evs & Hc0 & Hat & Hopen & -> & _); [|done].
    exists c. split; [|done]. pose proof (update_where_keeps (claim_at (ri_clientId i) (ri_claimId i))
      (set_claim_status (vr_newStatus v)) _ c Hc) as Hin. destruct (claim_at _ _ c) eqn:E; [|done].
    apply claim_at_spec in E as [_ E], Hat as [_ Hat]. pose proof Ht as (Hnd & _).
    rewrite (claim_unique (claim_part s) c c0) in Hterm by (done || congruence). congruence.
  - apply setDeadline_spec in Hs as (_ & dl & ->).
    eexists. split; [by apply (update_where_keeps _ (set_claim_deadline dl))|]. by case_match.
  - apply follow_up_spec in Hs as [-> _]. by exists c.
  - apply escalation_spec in Hs as [-> _]. by exists c.
  - rewrite Hcp. by exists c.
Qed.

Lemma latest_event_spec (l : list (string * BinInt.Z)) :
  match latest_event l with Some x => x ∈ l | None => l = [] end.
Proof using Type.
  unfold latest_event.
  assert (∀ acc, match fold_left (λ (latest : option (string * BinInt.Z)) e, match latest with
    | Some x => if e.2 >? x.2 then Some e else latest | None => Some e end) l acc with
    | Some x => acc = Some x ∨ x ∈ l | None => acc = None ∧ l = [] end) as Hgen.
  { induction l as [|y l IH]; intros acc; simpl; [by destruct acc; auto|].
    specialize (IH (match acc with Some x => if y.2 >? x.2 then Some y else acc | None => Some y end)).
    destruct (fold_left _ l _) as [z|].
    - destruct IH as [IH|IH]; [|right; by right]. destruct acc as [x|].
      + destruct (_ >? _); [right; simplify_eq; by left|by left].
      + right. simplify_eq. by left.
    - destruct IH as [IH _]. destruct acc as [x|]; [by destruct (_ >? _)|done]. }
  specialize (Hgen None). destruct (fold_left _ l None); [by destruct Hgen|by destruct Hgen].
Qed.

Lemma terminal_event_status st : isClaimTerminalStatus st = true →
  TERMINAL_EVENT_TO_STATUS ("claim." +:+ st) = Some st.
Proof using Type.
  unfold isClaimTerminalStatus, CLAIM_TERMINAL_STATUSES. simpl.
  rewrite bool_decide_eq_true, !elem_of_cons. by intros [->|[->|[->|[]%elem_of_nil]]].
Qed.

(** The claim's terminal events, as the derivation sees them. *)
Lemma derived_events s c account claimId : claims_inv s → c ∈ claims (claim_part s) →
  cl_account c = account → cl_id c = claimId →
  let l := List.filter (λ e, bool_decide (is_Some (TERMINAL_EVENT_TO_STATUS e.1)))
             (claim_events account claimId CLAIM_TERMINAL_EVENT_NAMES s) in
  (∀ e, e ∈ l → e.1 = "claim." +:+ cl_status c ∧ isClaimTerminalStatus (cl_status c) = true) ∧
  (isClaimTerminalStatus (cl_status c) = true → l ≠ []).
Proof.
  intros [(Hnd & Hcl & _) [Hev Hst]] Hc <- <-. simpl. split.
  - intros [ev tm] (Hin & _)%list_elem_of_In%List.filter_In. apply list_elem_of_In in Hin.
    unfold claim_events in Hin. apply list_elem_of_fmap in Hin as (x & [= -> ->] & Hin).
    apply list_elem_of_In, List.filter_In in Hin as [Hx Hp]. apply list_elem_of_In in Hx.
    rewrite !andb_true_iff, !bool_decide_eq_true in Hp. destruct Hp as [[[_ Hent] Hid] Hn].
    destruct (Hev x Hx Hent) as (c0 & Hc0 & Hid0 & Hname).
    rewrite (claim_unique (claim_part s) c0 c) in Hname by (done || congruence). specialize (Hname Hn).
    simpl. rewrite Hname in Hn |- *. split; [done|]. by apply terminal_event_name.
  - intros Hterm Hnil. destruct (Hst c Hc Hterm) as (x & Hx & Hent & Hid & Hcli & Hname).
    assert ((ae_event x, default 0 (map_get (ledger_times s) (ae_id x))) ∈
      List.filter (λ e, bool_decide (is_Some (TERMINAL_EVENT_TO_STATUS e.1)))
        (claim_events (cl_account c) (cl_id c) CLAIM_TERMINAL_EVENT_NAMES s)) as Hin.
    { apply list_elem_of_In, List.filter_In. split.
      - apply list_elem_of_In. unfold claim_events.
        apply (list_elem_of_fmap_2 (λ x, (ae_event x, default 0 (map_get (ledger_times s) (ae_id x))))).
        apply list_elem_of_In, List.filter_In. split; [by apply list_elem_of_In|].
        rewrite !andb_true_iff, !bool_decide_eq_true. split_and!; try done.
        rewrite Hname. by apply terminal_event_name.
      - simpl. rewrite Hname, terminal_event_status by done. by apply bool_decide_eq_true. }
    rewrite Hnil in Hin. by apply elem_of_nil in Hin.
Qed.

(** The status recomputed from the append-only events always agrees with the
    stored one: in every reachable state the derivation of a known claim returns,
    its status is the stored status, [matches] is true and the cumulative amount
    is the exact sum of the claim's recoveries. *)
Theorem derived_status_matches s0 s c clientId claimId e :
  claims_inv s0 → claim_reachable s0 s → c ∈ claims (claim_part s) →
  cl_account c = pg_uuid clientId → cl_id c = pg_uuid claimId →
  getDerivedClaimStatus clientId claimId e s =
  Ok (mkDerived (cl_status c) (fixed 4 (recovered c (claim_part s))) true, s).
Proof.
  intros H0 Hreach Hc Hacc Hid. pose proof (claim_reachable_inv s0 s H0 Hreach) as Hinv.
  destruct (derived_events s c _ _ Hinv Hc Hacc Hid) as [Hall Hsome].
  pose proof Hinv as [Ht _]. pose proof Ht as (Hnd & Hcl & Hre).
  destruct (Hcl c Hc) as ([_ Hamt] & _ & Hst & _ & _ & Hle & _). pose proof (recovered_nonneg c _ Ht).
  assert (select_one (claim_at clientId claimId) (claims (claim_part s)) = Some c) as Hsel.
  { destruct (select_one_existsb (claim_at clientId claimId) (claims (claim_part s))) as [c' Hc'].
    - apply existsb_true. exists c. split; [done|]. by apply claim_at_spec.
    - rewrite Hc'. apply find_claim in Hc' as (Hin & _ & Hid'). f_equal. apply (claim_unique (claim_part s)); congruence. }
  assert (∃ d, sum_decimals (map numeric_text (recovered_by (pg_uuid clientId) (pg_uuid claimId) (claim_part s))) = Ok d ∧
    d ≐ recovered c (claim_part s)) as (d & Hd & Hs).
  { unfold recovered. rewrite Hacc, Hid. apply sum_decimals_exact.
    rewrite zsum_abs_nonneg by (by apply recovered_by_pos). unfold recovered in Hle. rewrite Hacc, Hid in Hle. lia. }
  unfold getDerivedClaimStatus, mbind, tx_bind, query, the, lift, mret, tx_ret. cbn [id]. rewrite Hsel.
  unfold deriveClaimStatus. rewrite Hd, bind_ret_l, (money_fixed _ _ Hs). cbv zeta in Hall, Hsome |- *.
  match goal with |- context [latest_event ?l] => pose proof (latest_event_spec l) as Hlatest;
    destruct (latest_event l) as [ev|] end.
  - destruct (Hall ev Hlatest) as [-> Hterm]. rewrite terminal_event_status by done. simpl.
    by rewrite bool_decide_eq_true_2.
  - destruct (isClaimTerminalStatus (cl_status c)) eqn:Hterm; [by destruct (Hsome eq_refl)|].
    unfold claim_status_values in Hst. apply elem_of_cons in Hst as [->|Hst]; [done|].
    unfold isClaimTerminalStatus in Hterm. by apply bool_decide_eq_false in Hterm.
Qed.

(** A claim repaid in full through partial recoveries can no longer be closed
    as recovered: every resolution the code still accepts denies it or writes it
    off. *)
Theorem repaid_claim_never_recovered s0 s i e v rid s' c :
  claims_inv s0 → claim_reachable s0 s → c ∈ claims (claim_part s) →
  claim_at (ri_clientId i) (ri_claimId i) c = true → recovered c (claim_part s) = cl_amount_claimed c →
  resolveClaim i e s = Ok ((v, rid), s') → vr_newStatus v ∈ ["denied"; "written_off"].
Proof.
  intros H0 Hreach Hc Hat Hfull Hr. destruct (claim_reachable_inv s0 s H0 Hreach) as [Ht _].
  apply resolveClaim_spec in Hr as (c0 & evs & Hc0 & Hat0 & _ & _ & Heff & _); [|done].
  apply claim_at_spec in Hat as [_ Hid], Hat0 as [_ Hid0]. pose proof Ht as (Hnd & _).
  rewrite (claim_unique (claim_part s) c0 c) in Heff by (done || congruence).
  destruct Heff as [[_ Hs]|(r & _ & _ & _ & _ & _ & Hpos & Hle & _)]; [done|lia].
Qed.
End histories.

(** ** What the code does not guarantee, and the theorems at work *)

Section examples.
#[local] Existing Instances ExactDecimal.ops ExactDecimal.laws demo_sha demo_uuid demo_uuid_laws demo_zod memory_boss.

Definition demo_claim_row : claim := mkClaim (demo_id 4) (demo_id 0) (Some (demo_id 2)) 1000000 (Some "USD") "open" 0 None.
Definition claims_db : db := upd_claim_rows (λ _, [demo_claim_row]) empty_db.
Definition claim_env : env := mkEnv 1700000000000 (Some [demo_id 0]).
Definition pay (amount : string) : partial_input := mkPartialInput (demo_id 0) (demo_id 4) amount "USD" None.
Definition settle (kind : ClaimResolutionKind) (amount : option string) : resolve_input :=
  mkResolveInput (demo_id 0) (demo_id 4) kind amount (amount ≫= λ _, Some "USD") None.

Lemma claims_db_inv : claims_inv claims_db.
Proof.
  split; [split; [apply NoDup_singleton|split]|split].
  - intros c ->%list_elem_of_singleton. unfold claim_ok. split_and!; try done. by left.
  - intros r Hr. by apply elem_of_nil in Hr.
  - intros x Hx. by apply elem_of_nil in Hx.
  - by intros c ->%list_elem_of_singleton.
Qed.

#[local] Abbreviation paid := (recordPartialRecovery (pay "60.5") claim_env claims_db).
Definition paid_db : db := tx_state paid claims_db.
#[local] Abbreviation settled := (resolveClaim (settle FULL_RECOVERY (Some "39.5")) claim_env paid_db).
Definition settled_db : db := tx_state settled paid_db.

Lemma paid_ok : paid = Ok ((demo_uuid 0%nat, "60.5000", false), paid_db).
Proof. apply (tx_ran paid). vm_compute. reflexivity. Qed.
Definition settled_value : ValidatedClaimResolution * option string :=
  (mkResolution FULL_RECOVERY (Some "39.5") (Some "USD") "recovered", Some (demo_uuid 1%nat)).
Lemma settled_ok : settled = Ok (settled_value, settled_db).
Proof. apply (tx_ran settled). vm_compute. reflexivity. Qed.
Lemma settled_reachable : claim_reachable claims_db settled_db.
Proof.
  eapply reach_step; [|eapply step_resolve_whole, settled_ok].
  eapply reach_step; [apply reach_start|eapply step_partial_whole, paid_ok].
Qed.
Lemma settled_claim : claims (claim_part settled_db) = [set_claim_status "recovered" demo_claim_row].
Proof. vm_compute. reflexivity. Qed.

Lemma settled_recovered : recovered (set_claim_status "recovered" demo_claim_row) (claim_part settled_db) = 1000000.
Proof. vm_compute. reflexivity. Qed.

Lemma claims_never_over_recovered_witness :
  let c := set_claim_status "recovered" demo_claim_row in
  0 <= recovered c (claim_part settled_db) <= cl_amount_claimed c ∧ recovered c (claim_part settled_db) = 1000000.
Proof.
  intros c. destruct (claims_never_over_recovered claims_db settled_db c claims_db_inv settled_reachable) as [(H1 & H2 & _) _].
  - rewrite settled_claim. by apply list_elem_of_singleton.
  - split; [exact H1|]. by rewrite H2.
Defined.

Lemma claim_terminal_final_witness :
  ∃ c', c' ∈ claims (claim_part settled_db) ∧ cl_status c' = "recovered".
Proof.
  destruct (claim_terminal_final claims_db settled_db settled_db (set_claim_status "recovered" demo_claim_row))
    as (c' & Hc' & _ & Hst).
  - apply claims_db_inv.
  - apply settled_reachable.
  - apply step_elsewhere; auto.
  - rewrite settled_claim. by apply list_elem_of_singleton.
  - reflexivity.
  - by exists c'.
Defined.

Lemma derived_status_matches_witness :
  getDerivedClaimStatus (demo_id 0) (demo_id 4) claim_env settled_db =
  Ok (mkDerived "recovered" "100.0000" true, settled_db).
Proof.
  rewrite (derived_status_matches claims_db settled_db (set_claim_status "recovered" demo_claim_row) (demo_id 0) (demo_id 4)).
  - rewrite settled_recovered. reflexivity.
  - apply claims_db_inv.
  - apply settled_reachable.
  - rewrite settled_claim. by apply list_elem_of_singleton.
  - reflexivity.
  - reflexivity.
Defined.

#[local] Abbreviation repaid := (recordPartialRecovery (pay "100") claim_env claims_db).
Definition repaid_db : db := tx_state repaid claims_db.
Lemma repaid_ok : repaid = Ok ((demo_uuid 0%nat, "100.0000", true), repaid_db).
Proof. apply (tx_ran repaid). vm_compute. reflexivity. Qed.
#[local] Abbreviation closed_off := (resolveClaim (settle WRITE_OFF None) claim_env repaid_db).
Lemma closed_off_ok : closed_off =
  Ok ((mkResolution WRITE_OFF None None "written_off", None), tx_state closed_off repaid_db).
Proof. apply (tx_ran closed_off). vm_compute. reflexivity. Qed.

Lemma repaid_claim_never_recovered_witness :
  ∃ v rid s', closed_off = Ok ((v, rid), s') ∧ vr_newStatus v ∈ ["denied"; "written_off"].
Proof.
  eexists _, _, _. split; [exact closed_off_ok|].
  refine (repaid_claim_never_recovered claims_db repaid_db (settle WRITE_OFF None) claim_env _ _ _ demo_claim_row
    claims_db_inv _ _ _ _ closed_off_ok).
  - eapply reach_step; [apply reach_start|eapply step_partial_whole, repaid_ok].
  - replace (claims (claim_part repaid_db)) with [demo_claim_row] by (vm_compute; reflexivity).
    by apply list_elem_of_singleton.
  - vm_compute. reflexivity.
  - vm_compute. reflexivity.
Defined.

(** The cumulative limit is not enforced between concurrent requests: two
    recoveries of 60 against a claim of 100, both checked before either is
    written, are both recorded, and the claim ends up with 120 recovered. *)
Theorem concurrent_recoveries_exceed :
  claims_inv claims_db ∧
  ∃ v1 v2 r1 r2 s1 s2,
    plan_partial (pay "60") claim_env claims_db = Ok (v1, claims_db) ∧
    plan_partial (pay "60") claim_env claims_db = Ok (v2, claims_db) ∧
    commit_partial (pay "60") v1 claim_env claims_db = Ok (r1, s1) ∧
    commit_partial (pay "60") v2 claim_env s1 = Ok (r2, s2) ∧
    claims (claim_part s2) = [demo_claim_row] ∧
    recovered demo_claim_row (claim_part s2) = 1200000 ∧ cl_amount_claimed demo_claim_row = 1000000.
Proof.
  split; [apply claims_db_inv|].
  set (v := mkPartial "60" "USD" "60.0000" false).
  exists v, v, (demo_uuid 0%nat), (demo_uuid 1%nat),
    (tx_state (commit_partial (pay "60") v claim_env claims_db) claims_db),
    (tx_state (commit_partial (pay "60") v claim_env (tx_state (commit_partial (pay "60") v claim_env claims_db) claims_db)) claims_db).
  split_and!; vm_compute; reflexivity.
Qed.

(** Recording a recovery looks at the amount and the currency only: a claim
    the carrier has denied still accepts a recovery, and stays denied. *)
Theorem denied_claim_accepts_recovery :
  ∃ v s1 r s2,
    resolveClaim (settle DENIAL None) claim_env claims_db = Ok (v, s1) ∧
    recordPartialRecovery (pay "25") claim_env s1 = Ok (r, s2) ∧
    map cl_status (claims (claim_part s2)) = ["denied"] ∧
    recovered demo_claim_row (claim_part s2) = 250000.
Proof.
  set (s1 := tx_state (resolveClaim (settle DENIAL None) claim_env claims_db) claims_db).
  exists (mkResolution DENIAL None None "denied", None), s1, (demo_uuid 0%nat, "25.0000", false),
    (tx_state (recordPartialRecovery (pay "25") claim_env s1) s1).
  split_and!; vm_compute; reflexivity.
Qed.
End examples.
