(* ===== verification/Reconcile.v ===== *)
(** Recovery reporting ([src/src/modules/claims/]): reconciliation buckets and the
    three aggregations built on them, the currency sweep and the traceability
    check. *)

From S2P Require Import Prelude JsText Decimal Json Store AuditLedger JsDate Database Tx Jobs Findings Money Claims ClaimsSafety.

Record ReconcilableClaimRow := mkRcClaim {
  rc_claimId : string; rc_amountClaimed : string; rc_currency : option string; rc_status : string;
}.
Record ReconcilableRecoveryEventRow := mkRcEvent {
  rv_claimId : string; rv_amountRecovered : string; rv_currency : option string;
}.

Section reconcile.
Context {D : DecimalJs}.

(** ** Buckets ([reconcile-claim-buckets.ts]) *)

Record ClaimReconciliationAccumulator := mkAcc {
  ac_claimed : dec; ac_recovered : dec; ac_outstanding : dec; ac_writtenOff : dec; ac_denied : dec;
  ac_nullCurrencyRecovered : dec; ac_mismatchedCurrencyRecovered : dec;
}.
Record ClaimReconciliationTotals := mkTotals {
  tt_claimed : string; tt_recovered : string; tt_outstanding : string; tt_writtenOff : string;
  tt_denied : string; tt_nullCurrencyRecovered : string; tt_mismatchedCurrencyRecovered : string;
}.

Definition emptyClaimReconciliationAccumulator : ClaimReconciliationAccumulator :=
  let zero := d_of_int 0 in mkAcc zero zero zero zero zero zero zero.

(** The events of one claim: null, mismatched and same-currency sums. *)
Definition add_event (claim : ReconcilableClaimRow) (sums : dec * dec * dec)
    (event : ReconcilableRecoveryEventRow) : result handler_error (dec * dec * dec) :=
  let '(nulls, mismatched, same) := sums in
  amount ← decimal (rv_amountRecovered event);
  match rv_currency event with
  | None => Ok (d_plus nulls amount, mismatched, same)
  | Some c =>
      if match rc_currency claim with Some k => negb (bool_decide (c = k)) | None => false end
      then Ok (nulls, d_plus mismatched amount, same)
      else Ok (nulls, mismatched, d_plus same amount)
  end.

Definition accumulateClaimReconciliation (bucket : ClaimReconciliationAccumulator)
    (claim : ReconcilableClaimRow) (events : list ReconcilableRecoveryEventRow) :
    result handler_error ClaimReconciliationAccumulator :=
  claimed ← decimal (rc_amountClaimed claim);
  '(nulls, mismatched, same) ← fold_res (add_event claim)
    (ac_nullCurrencyRecovered bucket, ac_mismatchedCurrencyRecovered bucket, d_of_int 0) events;
  let total := d_plus (ac_claimed bucket) claimed in
  let recovered := d_plus (ac_recovered bucket) same in
  let rest x := d_minus (d_plus x claimed) same in
  let st := rc_status claim in
  Ok (if isClaimTerminalStatus st then
        if bool_decide (st = "denied") then
          mkAcc total recovered (ac_outstanding bucket) (ac_writtenOff bucket) (rest (ac_denied bucket)) nulls mismatched
        else if bool_decide (st = "written_off") then
          mkAcc total recovered (ac_outstanding bucket) (rest (ac_writtenOff bucket)) (ac_denied bucket) nulls mismatched
        else mkAcc total recovered (ac_outstanding bucket) (ac_writtenOff bucket) (ac_denied bucket) nulls mismatched
      else mkAcc total recovered (rest (ac_outstanding bucket)) (ac_writtenOff bucket) (ac_denied bucket) nulls mismatched).

Definition finalizeClaimReconciliationTotals (b : ClaimReconciliationAccumulator) : ClaimReconciliationTotals :=
  mkTotals (d_toFixed 4 (ac_claimed b)) (d_toFixed 4 (ac_recovered b)) (d_toFixed 4 (ac_outstanding b))
    (d_toFixed 4 (ac_writtenOff b)) (d_toFixed 4 (ac_denied b)) (d_toFixed 4 (ac_nullCurrencyRecovered b))
    (d_toFixed 4 (ac_mismatchedCurrencyRecovered b)).
Definition claimReconciliationReconciles (b : ClaimReconciliationAccumulator) : bool :=
  d_eq (ac_claimed b) (d_plus (d_plus (d_plus (ac_recovered b) (ac_outstanding b)) (ac_writtenOff b)) (ac_denied b)).

(** ** Aggregation *)

(** [eventsByClaim.get(claimId) ?? []]: the claim's events, in order. *)
Definition events_for (events : list ReconcilableRecoveryEventRow) (claimId : string) :=
  List.filter (λ e, bool_decide (rv_claimId e = claimId)) events.

(** The grouping loop the three aggregations share: a bucket per key, labelled by
    its first claim. *)
Definition aggregate {R L : Type} (row : R → ReconcilableClaimRow) (key : R → string) (label : R → L)
    (claims : list R) (events : list ReconcilableRecoveryEventRow) :
    result handler_error (list (string * (L * ClaimReconciliationAccumulator))) :=
  fold_res (λ buckets claim,
    let '(l, b) := default (label claim, emptyClaimReconciliationAccumulator) (map_get buckets (key claim)) in
    b' ← accumulateClaimReconciliation b (row claim) (events_for events (rc_claimId (row claim)));
    Ok (map_set buckets (key claim) (l, b'))) [] claims.

Record PortfolioReconciliationBucket := mkPortfolio {
  pb_currency : option string; pb_totals : ClaimReconciliationTotals; pb_reconciles : bool;
}.
Definition reconcilePortfolioTotals (claims : list ReconcilableClaimRow) (events : list ReconcilableRecoveryEventRow) :
    result handler_error (list PortfolioReconciliationBucket) :=
  buckets ← aggregate id (λ c, default " " (rc_currency c)) rc_currency claims events;
  Ok (map (λ kb, mkPortfolio kb.2.1 (finalizeClaimReconciliationTotals kb.2.2) (claimReconciliationReconciles kb.2.2))
        buckets).

Record CarrierRecoveryBucket := mkCarrierBucket {
  cb_carrierId : option string; cb_currency : option string; cb_totals : ClaimReconciliationTotals;
}.
Definition aggregateCarrierRecovery (claims : list (option string * ReconcilableClaimRow))
    (events : list ReconcilableRecoveryEventRow) : result handler_error (list CarrierRecoveryBucket) :=
  buckets ← aggregate snd (λ c, default " " c.1 +:+ "::" +:+ default " " (rc_currency c.2))
    (λ c, (c.1, rc_currency c.2)) claims events;
  Ok (map (λ kb, mkCarrierBucket kb.2.1.1 kb.2.1.2 (finalizeClaimReconciliationTotals kb.2.2)) buckets).

Record AccountPortfolioBucket := mkAccountBucket {
  ab_clientId : string; ab_clientName : option string; ab_currency : option string;
  ab_totals : ClaimReconciliationTotals; ab_reconciles : bool;
}.
Definition aggregateCrossAccountPortfolio (claims : list (string * option string * ReconcilableClaimRow))
    (events : list ReconcilableRecoveryEventRow) : result handler_error (list AccountPortfolioBucket) :=
  buckets ← aggregate snd (λ c, c.1.1 +:+ "::" +:+ default " " (rc_currency c.2))
    (λ c, (c.1, rc_currency c.2)) claims events;
  Ok (map (λ kb, mkAccountBucket kb.2.1.1.1 kb.2.1.1.2 kb.2.1.2 (finalizeClaimReconciliationTotals kb.2.2)
                   (claimReconciliationReconciles kb.2.2)) buckets).

(** The rows the reports read, as text. *)
Definition claim_report_row (c : claim) : ReconcilableClaimRow :=
  mkRcClaim (cl_id c) (numeric_text (cl_amount_claimed c)) (cl_currency c) (cl_status c).
Definition event_report_row (r : recovery_event) : ReconcilableRecoveryEventRow :=
  mkRcEvent (re_claim r) (numeric_text (re_amount_recovered r)) (re_currency r).

Definition getPortfolioReconciliation `{Zod} (clientId : string) : tx (list PortfolioReconciliationBucket) :=
  _ ← check (zod_uuid clientId) SchemaRejected;
  s ← query claim_part;
  let rows := List.filter (λ c, uuid_is (cl_account c) clientId) (claims s) in
  match rows with
  | [] => mret []
  | _ =>
      let events := List.filter (λ r, uuid_is (re_account r) clientId && bool_decide (re_claim r ∈ map cl_id rows))
                      (recovery_events s) in
      lift (reconcilePortfolioTotals (map claim_report_row rows) (map event_report_row events))
  end.

(** ** Checks *)

Record CurrencyConsistencyResult := mkConsistency {
  cu_consistent : bool; cu_currencies : list string; cu_nullCurrencyEventIds : list string;
  cu_mismatchedEventIds : list string;
}.
Definition checkCurrencyConsistency (claimCurrency : option string) (recoveryEvents : list (string * option string)) :
    CurrencyConsistencyResult :=
  let nullCurrencyEventIds := map fst (List.filter (λ e, bool_decide (e.2 = None)) recoveryEvents) in
  let nonNull := omap (λ e, (λ c, (e.1, c)) <$> e.2) recoveryEvents in
  let currencies := js_sort code_unit_compare (set_of (map snd nonNull)) in
  let mismatchedEventIds := match claimCurrency with
    | None => []
    | Some k => map fst (List.filter (λ e, negb (bool_decide (e.2 = k))) nonNull) end in
  mkConsistency (bool_decide (nullCurrencyEventIds = []) && (length currencies <=? 1)%nat &&
                 bool_decide (mismatchedEventIds = []))
    currencies nullCurrencyEventIds mismatchedEventIds.

Definition getClaimCurrencyConsistency (clientId claimId : string) : tx CurrencyConsistencyResult :=
  s ← query claim_part;
  claim ← the (select_one (claim_at clientId claimId) (claims s))
            (Thrown "GetClaimCurrencyConsistencyError" "CLAIM_NOT_FOUND");
  mret (checkCurrencyConsistency (cl_currency claim)
    (map (λ r, (re_id r, re_currency r))
       (List.filter (λ r, uuid_is (re_account r) clientId && uuid_is (re_claim r) claimId) (recovery_events s)))).

Inductive trace_path : Set := DIRECT | INDIRECT | UNTRACEABLE.
Definition checkRecoveryTraceability (directVarianceFindingId : option string) (directFindingHasCitation : option bool)
    (disputeLineFindings : list (string * bool)) : bool * trace_path * list string :=
  match directVarianceFindingId with
  | Some f =>
      let traceable := bool_decide (directFindingHasCitation = Some true) in
      (traceable, DIRECT, if traceable then [f] else [])
  | None =>
      match List.filter snd disputeLineFindings with
      | [] => (false, UNTRACEABLE, [])
      | cited => (true, INDIRECT, map fst cited)
      end
  end.
End reconcile.

(** ** Exactness of the buckets *)

Inductive column : Set := Claimed | Recovered | Outstanding | WrittenOff | Denied | NullCurrency | Mismatched.
Definition figures := column → Z.

Section exact.
Context {D : DecimalJs} {L : DecimalLaws D}.
Implicit Types (b : ClaimReconciliationAccumulator) (F G : figures) (evs : list recovery_event).

Definition acc_col b (i : column) : dec :=
  match i with
  | Claimed => ac_claimed b | Recovered => ac_recovered b | Outstanding => ac_outstanding b
  | WrittenOff => ac_writtenOff b | Denied => ac_denied b
  | NullCurrency => ac_nullCurrencyRecovered b | Mismatched => ac_mismatchedCurrencyRecovered b
  end.
(** The accumulator holds exactly the figures [F], each at most [w] in size. *)
Definition acc_is b F (w : Z) : Prop := ∀ i, acc_col b i ≐ F i ∧ Z.abs (F i) <= w.

(** The figures one claim adds: the events in its own currency count as recovered,
    the rest of the claim goes to the column of its status. *)
Definition claim_figures (c : claim) evs : figures :=
  let sum p := zsum_by re_amount_recovered (List.filter p evs) in
  let is_null r := bool_decide (re_currency r = None) in
  let differs r := match re_currency r, cl_currency c with
    | Some x, Some k => negb (bool_decide (x = k)) | _, _ => false end in
  let same := sum (λ r, negb (is_null r) && negb (differs r)) in
  let column_of (st : string) := if bool_decide (st = "denied") then Denied
    else if bool_decide (st = "written_off") then WrittenOff
    else if isClaimTerminalStatus st then Recovered else Outstanding in
  λ i, match i with
  | Claimed => cl_amount_claimed c
  | Recovered => same
  | NullCurrency => sum is_null
  | Mismatched => sum differs
  | Outstanding | WrittenOff | Denied =>
      match i, column_of (cl_status c) with
      | Outstanding, Outstanding | WrittenOff, WrittenOff | Denied, Denied => cl_amount_claimed c - same
      | _, _ => 0
      end
  end.
Definition plus_figures F G : figures := λ i, F i + G i.

Lemma filtered_nonneg (p : recovery_event → bool) evs : (∀ r, r ∈ evs → 0 <= re_amount_recovered r) →
  0 <= zsum_by re_amount_recovered (List.filter p evs) <= zsum_by re_amount_recovered evs.
Proof.
  induction evs as [|r evs IH]; intros Hr; [done|]. simpl.
  pose proof (Hr r ltac:(by left)). specialize (IH ltac:(intros; apply Hr; by right)).
  case_match; rewrite ?zsum_by_cons; lia.
Qed.

Lemma add_events_exact c evs dn dm ds n m s :
  (∀ r, r ∈ evs → 0 <= re_amount_recovered r) → dn ≐ n → dm ≐ m → ds ≐ s →
  Z.abs n + Z.abs m + Z.abs s + zsum_by re_amount_recovered evs < 10 ^ 20 →
  ∃ dn' dm' ds', fold_res (add_event (claim_report_row c)) (dn, dm, ds) (map event_report_row evs) = Ok (dn', dm', ds') ∧
    dn' ≐ n + claim_figures c evs NullCurrency ∧ dm' ≐ m + claim_figures c evs Mismatched ∧
    ds' ≐ s + claim_figures c evs Recovered.
Proof.
  revert dn dm ds n m s. induction evs as [|r evs IH]; intros dn dm ds n m s Hr Hn Hm Hs Hw.
  { exists dn, dm, ds. cbn. by rewrite !Z.add_0_r. }
  cbn [map]. rewrite fold_res_cons. destruct (decimal_fixed (re_amount_recovered r)) as (d & Hd & Hv).
  rewrite zsum_by_cons in Hw. pose proof (Hr r ltac:(by left)) as H0.
  assert (∀ r', r' ∈ evs → 0 <= re_amount_recovered r') as Hr' by (intros; apply Hr; by right).
  pose proof (filtered_nonneg (λ _, true) evs Hr') as Hpos.
  unfold add_event at 2. cbn [event_report_row rv_amountRecovered]. rewrite Hd, bind_ret_l.
  cbn [event_report_row rv_currency claim_report_row rc_currency].
  assert (∀ a x, a ≐ x → Z.abs x <= Z.abs n ∨ Z.abs x <= Z.abs m ∨ Z.abs x <= Z.abs s →
    d_plus a d ≐ x + re_amount_recovered r) as Hfit by (intros; apply money_plus; [done..|lia]).
  assert (∀ dn1 dm1 ds1 n1 m1 s1, dn1 ≐ n1 → dm1 ≐ m1 → ds1 ≐ s1 →
    Z.abs n1 + Z.abs m1 + Z.abs s1 <= Z.abs n + Z.abs m + Z.abs s + re_amount_recovered r →
    n1 + claim_figures c evs NullCurrency = n + claim_figures c (r :: evs) NullCurrency →
    m1 + claim_figures c evs Mismatched = m + claim_figures c (r :: evs) Mismatched →
    s1 + claim_figures c evs Recovered = s + claim_figures c (r :: evs) Recovered →
    ∃ dn' dm' ds', fold_res (add_event (claim_report_row c)) (dn1, dm1, ds1) (map event_report_row evs) = Ok (dn', dm', ds') ∧
    dn' ≐ n + claim_figures c (r :: evs) NullCurrency ∧ dm' ≐ m + claim_figures c (r :: evs) Mismatched ∧
    ds' ≐ s + claim_figures c (r :: evs) Recovered) as Hgo.
  { intros * ??? Hb <- <- <-. apply IH; [done..|lia]. }
  clear IH. destruct (re_currency r) as [x|] eqn:Ec.
  1: destruct (cl_currency c) as [k|] eqn:Ek; [destruct (bool_decide (x = k)) eqn:Exk|].
  all: cbn [negb]; rewrite bind_ret_l; eapply Hgo; [first [eassumption | eapply Hfit; [eassumption|lia]]..|lia| | |].
  all: unfold claim_figures; simpl; rewrite Ec, ?Ek, ?Exk; simpl; rewrite ?zsum_by_cons; lia.
Qed.

Lemma recovered_figure c evs : (∀ r, r ∈ evs → 0 <= re_amount_recovered r) →
  ∀ i, (i = Recovered ∨ i = NullCurrency ∨ i = Mismatched) →
  0 <= claim_figures c evs i <= zsum_by re_amount_recovered evs.
Proof. intros Hr i [->|[->| ->]]; by apply filtered_nonneg. Qed.


Lemma rest_figure c evs i : i = Claimed ∨ i = Recovered ∨ i = NullCurrency ∨ i = Mismatched ∨
  claim_figures c evs i = 0 ∨ claim_figures c evs i = claim_figures c evs Claimed - claim_figures c evs Recovered.
Proof. destruct i; auto; do 4 right; unfold claim_figures; cbv zeta; repeat case_match; auto. Qed.

(** One claim folded into a bucket adds exactly its figures. *)
Lemma accumulate_exact c evs b F w :
  (∀ r, r ∈ evs → 0 <= re_amount_recovered r) → 0 <= cl_amount_claimed c → acc_is b F w →
  3 * (w + cl_amount_claimed c + zsum_by re_amount_recovered evs) < 10 ^ 20 →
  ∃ b', accumulateClaimReconciliation b (claim_report_row c) (map event_report_row evs) = Ok b' ∧
    acc_is b' (plus_figures F (claim_figures c evs)) (w + cl_amount_claimed c + zsum_by re_amount_recovered evs).
Proof.
  intros Hr Hc Hb Hw. pose proof (filtered_nonneg (λ _, true) evs Hr) as Hpos.
  pose proof (recovered_figure c evs Hr) as Hfig.
  destruct (Hb Claimed) as [Hcl Hcl']. destruct (Hb Recovered) as [Hre Hre']. destruct (Hb Outstanding) as [Hou Hou'].
  destruct (Hb WrittenOff) as [Hwr Hwr']. destruct (Hb Denied) as [Hde Hde'].
  destruct (Hb NullCurrency) as [Hnu Hnu']. destruct (Hb Mismatched) as [Hmi Hmi'].
  destruct (decimal_fixed (cl_amount_claimed c)) as (d & Hd & Hv).
  destruct (add_events_exact c evs (ac_nullCurrencyRecovered b) (ac_mismatchedCurrencyRecovered b) (d_of_int 0)
    (F NullCurrency) (F Mismatched) 0) as (dn & dm & ds & Hf & Hn & Hm & Hs); [done..|apply money_zero|lia|].
  unfold accumulateClaimReconciliation. cbn [claim_report_row rc_amountClaimed rc_status].
  rewrite Hd, bind_ret_l, Hf, bind_ret_l. eexists. split; [done|]. rewrite Z.add_0_l in Hs.
  pose proof (Hfig Recovered ltac:(by left)) as HR. pose proof (Hfig NullCurrency ltac:(auto)) as HN.
  pose proof (Hfig Mismatched ltac:(auto)) as HM.
  assert (∀ x m, x ≐ m → Z.abs m <= w →
    d_minus (d_plus x d) ds ≐ m + (cl_amount_claimed c - claim_figures c evs Recovered)) as Hrest.
  { intros x m Hx Hm'. replace (m + _) with (m + cl_amount_claimed c - claim_figures c evs Recovered) by lia.
    apply money_minus; [apply money_plus; [done..|lia]|done|lia]. }
  assert (d_plus (ac_claimed b) d ≐ F Claimed + cl_amount_claimed c) by (apply money_plus; [done..|lia]).
  assert (d_plus (ac_recovered b) ds ≐ F Recovered + claim_figures c evs Recovered) by (apply money_plus; [done..|lia]).
  intros i. split.
  - unfold plus_figures, claim_figures, isClaimTerminalStatus.
    destruct (bool_decide (cl_status c = "denied")) eqn:E1; [|destruct (bool_decide (cl_status c = "written_off")) eqn:E2].
    + apply bool_decide_eq_true in E1. rewrite E1. destruct i; simpl; rewrite ?Z.add_0_r; first [done|by apply Hrest].
    + apply bool_decide_eq_true in E2. rewrite E2. destruct i; simpl; rewrite ?Z.add_0_r; first [done|by apply Hrest].
    + destruct (bool_decide (cl_status c ∈ _)); destruct i; simpl; rewrite ?Z.add_0_r; first [done|by apply Hrest].
  - unfold plus_figures. pose proof (proj2 (Hb i)) as Hbi.
    assert (Z.abs (claim_figures c evs i) <= cl_amount_claimed c + zsum_by re_amount_recovered evs); [|lia].
    destruct (rest_figure c evs i) as [->|[->|[->|[->|[->| ->]]]]];
      change (claim_figures c evs Claimed) with (cl_amount_claimed c); lia.
Qed.

Definition events_of (c : claim) evs : list recovery_event :=
  List.filter (λ r, bool_decide (re_claim r = cl_id c)) evs.
Definition weight evs (c : claim) : Z := cl_amount_claimed c + zsum_by re_amount_recovered (events_of c evs).

Lemma events_for_rows c evs :
  events_for (map event_report_row evs) (rc_claimId (claim_report_row c)) = map event_report_row (events_of c evs).
Proof.
  unfold events_for, events_of. cbn [claim_report_row rc_claimId].
  induction evs as [|r evs IH]; [done|]. simpl. rewrite IH. by destruct (bool_decide _).
Qed.
Lemma events_of_elem c evs r : r ∈ events_of c evs ↔ r ∈ evs ∧ re_claim r = cl_id c.
Proof. unfold events_of. by rewrite list_elem_of_In, List.filter_In, bool_decide_eq_true, <- list_elem_of_In. Qed.

Section grouping.
Context {R Lab : Type} (view : R → claim) (key : R → string) (label : R → Lab) (evs : list recovery_event).
Hypothesis events_nonneg : ∀ r, r ∈ evs → 0 <= re_amount_recovered r.

(** What the bucket of key [k] must hold after the claims [l]. *)
Definition in_group (l : list R) (k : string) : list R := List.filter (λ c, bool_decide (key c = k)) l.
Definition group_figures (l : list R) : figures :=
  λ i, zsum_by (λ c, claim_figures (view c) (events_of (view c) evs) i) l.
Definition group_weight (l : list R) : Z := zsum_by (λ c, weight evs (view c)) l.

Lemma weight_nonneg c : 0 <= cl_amount_claimed c → 0 <= weight evs c.
Proof.
  intros Hc. unfold weight. pose proof (zsum_by_nonneg re_amount_recovered (events_of c evs)) as H0.
  assert (∀ r, r ∈ events_of c evs → 0 <= re_amount_recovered r) as Hr by (intros r [Hr _]%events_of_elem; auto).
  specialize (H0 Hr). lia.
Qed.
Lemma in_group_snoc l k x : in_group (l ++ [x]) k = if bool_decide (key x = k) then in_group l k ++ [x] else in_group l k.
Proof. unfold in_group. rewrite List.filter_app. simpl. case_match; [done|by rewrite app_nil_r]. Qed.
Lemma in_group_weight l k : (∀ c, c ∈ l → 0 <= cl_amount_claimed (view c)) → group_weight (in_group l k) <= group_weight l.
Proof.
  unfold group_weight, in_group. induction l as [|x l IH]; intros Hl; [done|]. simpl.
  pose proof (weight_nonneg (view x) (Hl x ltac:(by left))). specialize (IH ltac:(intros; apply Hl; by right)).
  case_match; rewrite ?zsum_by_cons; lia.
Qed.

(** The grouping loop: one bucket per key, in order of first use, each holding
    exactly the figures of its claims. *)
Lemma aggregate_exact (l : list R) :
  (∀ c, c ∈ l → 0 <= cl_amount_claimed (view c)) → 3 * group_weight l < 10 ^ 20 →
  ∃ buckets, aggregate (λ c, claim_report_row (view c)) key label l (map event_report_row evs) = Ok buckets ∧
    buckets.*1 = set_of (map key l) ∧
    ∀ k lab b, map_get buckets k = Some (lab, b) →
      acc_is b (group_figures (in_group l k)) (group_weight (in_group l k)) ∧
      ∃ c, c ∈ l ∧ key c = k ∧ lab = label c.
Proof.
  unfold aggregate. induction l as [|x l IH] using rev_ind; intros Hl Hw; [by exists []|].
  assert (∀ c, c ∈ l → 0 <= cl_amount_claimed (view c)) as Hl' by (intros; apply Hl, elem_of_app; by left).
  assert (0 <= cl_amount_claimed (view x)) as Hx by (apply Hl, elem_of_app; right; by left).
  unfold group_weight in Hw. rewrite zsum_by_app, zsum_by_cons in Hw. cbn in Hw.
  pose proof (weight_nonneg (view x) Hx) as Hwx. fold (group_weight l) in Hw.
  destruct IH as (buckets & Hf & Hkeys & Hget); [done|lia|].
  rewrite fold_res_app, Hf, bind_ret_l, fold_res_cons, events_for_rows.
  set (start := default (label x, emptyClaimReconciliationAccumulator) (map_get buckets (key x))).
  assert (acc_is start.2 (group_figures (in_group l (key x))) (group_weight (in_group l (key x))) ∧
    ∃ c, c ∈ l ++ [x] ∧ key c = key x ∧ start.1 = label c) as [Hacc (c0 & Hc0 & Hk0 & Hl0)].
  { unfold start. destruct (map_get buckets (key x)) as [[lab b]|] eqn:E.
    - destruct (Hget _ _ _ E) as (H1 & c & H2 & H3 & H4). split; [done|]. exists c. split; [apply elem_of_app; by left|done].
    - apply map_get_None in E. rewrite Hkeys, elem_of_set_of in E.
      assert (in_group l (key x) = []) as ->.
      { apply filter_none. intros c Hc. apply bool_decide_eq_false. intros Heq. apply E. rewrite <- Heq. by apply list_elem_of_fmap_2. }
      split; [|exists x; split; [apply elem_of_app; right; by left|done]].
      intros i. split; [|done]. destruct i; apply money_zero. }
  destruct (accumulate_exact (view x) (events_of (view x) evs) _ _ _
    ltac:(intros r [Hr _]%events_of_elem; auto) Hx Hacc) as (b' & Hb & Hacc').
  { pose proof (in_group_weight l (key x) Hl'). unfold weight in *. lia. }
  destruct start as [lab0 b0]. simpl in Hb, Hl0. rewrite Hb, !bind_ret_l, fold_res_nil. eexists. split; [done|]. split.
  - rewrite map_set_keys, Hkeys, map_app. simpl. rewrite set_of_snoc. by repeat case_decide; rewrite ?elem_of_set_of in *.
  - intros k lab b. rewrite in_group_snoc. destruct (decide (key x = k)) as [<-|Hne].
    + rewrite map_get_set_eq, bool_decide_eq_true_2 by done. intros [= <- <-]. split; [|by exists c0].
      intros i. destruct (Hacc' i) as [H1 H2]. unfold group_figures, group_weight, plus_figures in *.
      rewrite !zsum_by_app, !zsum_by_cons. cbn [zsum_by map zsum foldr]. unfold weight at 2. rewrite !Z.add_0_r.
      split; [done|]. unfold weight in *. lia.
    + rewrite map_get_set_ne, bool_decide_eq_false_2 by done. intros (H1 & c & H2 & H3)%Hget. split; [done|].
      exists c. split; [apply elem_of_app; by left|done].
Qed.
End grouping.
End exact.

(** ** The portfolio report of a reachable database *)

Definition account_claims (account : string) (t : claim_tables) : list claim :=
  List.filter (λ c, bool_decide (cl_account c = account)) (claims t).
(** What the report must say about one currency, from the claims and their
    recoveries alone. *)
Definition portfolio_bucket (account : string) (t : claim_tables) (currency : option string) :
    PortfolioReconciliationBucket :=
  let l := List.filter (λ c, bool_decide (cl_currency c = currency)) (account_claims account t) in
  let total (f : claim → Z) := fixed 4 (zsum_by f l) in
  let rest (p : string → bool) := total (λ c, if p (cl_status c) then cl_amount_claimed c - recovered c t else 0) in
  mkPortfolio currency
    (mkTotals (total cl_amount_claimed) (total (λ c, recovered c t))
       (rest (λ st, negb (isClaimTerminalStatus st))) (rest (λ st, bool_decide (st = "written_off")))
       (rest (λ st, bool_decide (st = "denied"))) "0.0000" "0.0000")
    true.

Section portfolio.
Context {D : DecimalJs} {L : DecimalLaws D} (t : claim_tables) (account : string).
Hypothesis tables_ok : claim_tables_ok t.
#[local] Abbreviation l := (account_claims account t).
Definition account_events : list recovery_event :=
  List.filter (λ r, bool_decide (re_account r = account) && bool_decide (re_claim r ∈ map cl_id l)) (recovery_events t).

Lemma account_claim c : c ∈ l ↔ c ∈ claims t ∧ cl_account c = account.
Proof. unfold account_claims. by rewrite !list_elem_of_In, List.filter_In, bool_decide_eq_true. Qed.

Lemma claim_events_rows c : c ∈ l → events_of c account_events =
  List.filter (λ r, bool_decide (re_account r = cl_account c) && bool_decide (re_claim r = cl_id c)) (recovery_events t).
Proof.
  intros Hc. pose proof Hc as [_ Hacc]%account_claim. apply filter_filter_ext. intros r. rewrite Hacc.
  destruct (bool_decide_reflect (re_claim r = cl_id c)) as [->|]; [|by rewrite !andb_false_r].
  by rewrite (bool_decide_eq_true_2 (_ ∈ _)), !andb_true_r by (by apply list_elem_of_fmap_2).
Qed.

Lemma recovered_rows c : c ∈ l → recovered c t = zsum_by re_amount_recovered (events_of c account_events).
Proof. intros Hc. by rewrite claim_events_rows. Qed.

(** Every recovery is in its claim's currency, so nothing is set aside. *)
Lemma reachable_figures c : c ∈ l →
  claim_figures c (events_of c account_events) Recovered = recovered c t ∧
  claim_figures c (events_of c account_events) NullCurrency = 0 ∧
  claim_figures c (events_of c account_events) Mismatched = 0.
Proof.
  intros Hc. rewrite recovered_rows by done. pose proof Hc as [Hin _]%account_claim.
  destruct tables_ok as (Hnd & Hcl & Hre). destruct (Hcl c Hin) as (_ & [k Hk] & _).
  assert (∀ r, r ∈ events_of c account_events → re_currency r = Some k) as Hcur.
  { rewrite claim_events_rows by done. intros r [Hr Hid]%list_elem_of_In%List.filter_In.
    apply andb_true_iff in Hid as [_ Hid%bool_decide_eq_true]. apply list_elem_of_In in Hr.
    destruct (Hre r Hr) as (_ & c' & Hc' & Hid' & _ & ->).
    rewrite <- Hk. f_equal. apply (claim_unique t); congruence. }
  clear Hc. unfold claim_figures. induction (events_of c account_events) as [|r evs IH]; [done|].
  destruct IH as (IH1 & IH2 & IH3); [intros; apply Hcur; by right|]. simpl in *.
  rewrite (Hcur r) by (by left). rewrite Hk in *. rewrite bool_decide_eq_false_2, bool_decide_eq_true_2 by done. simpl.
  rewrite !zsum_by_cons, IH1, IH2, IH3. done.
Qed.

(** The five columns of a group, by the claims' own figures. *)
Lemma reachable_group (k : list claim) : (∀ c, c ∈ k → c ∈ l) →
  let g := group_figures id account_events k in
  let rest (p : string → bool) := zsum_by (λ c, if p (cl_status c) then cl_amount_claimed c - recovered c t else 0) k in
  g Claimed = zsum_by cl_amount_claimed k ∧ g Recovered = zsum_by (λ c, recovered c t) k ∧
  g Outstanding = rest (λ st, negb (isClaimTerminalStatus st)) ∧
  g WrittenOff = rest (λ st, bool_decide (st = "written_off")) ∧
  g Denied = rest (λ st, bool_decide (st = "denied")) ∧ g NullCurrency = 0 ∧ g Mismatched = 0.
Proof.
  intros Hk. unfold group_figures, id. split_and!.
  1: done. 1: apply zsum_by_ext; intros c Hc; by apply reachable_figures, Hk.
  4, 5: apply zsum_by_zero; intros c Hc; by apply reachable_figures, Hk.
  all: apply zsum_by_ext; intros c Hc; destruct (reachable_figures c (Hk c Hc)) as [Hrec _]; rewrite <- Hrec.
  all: unfold claim_figures, isClaimTerminalStatus; cbv zeta.
  all: destruct (bool_decide_reflect (cl_status c = "denied")) as [E|_]; [by rewrite ?E|].
  all: destruct (bool_decide_reflect (cl_status c = "written_off")) as [E|_]; [by rewrite ?E|].
  all: by destruct (bool_decide (cl_status c ∈ _)).
Qed.

(** A claim's figures balance: what is neither recovered nor outstanding was
    written off or denied. *)
Lemma group_balances (k : list claim) : (∀ c, c ∈ k → c ∈ l) →
  let g := group_figures id account_events k in
  g Claimed = g Recovered + g Outstanding + g WrittenOff + g Denied.
Proof.
  intros Hk. cbv zeta. destruct (reachable_group k Hk) as (-> & -> & -> & -> & -> & _).
  rewrite <- !zsum_by_plus. apply zsum_by_ext. intros c Hc.
  destruct tables_ok as (_ & Hcl & _). apply Hk, account_claim in Hc as [Hin _].
  destruct (Hcl c Hin) as (_ & _ & Hst & _ & _ & _ & Hfull).
  unfold claim_status_values, CLAIM_TERMINAL_STATUSES in Hst. cbn [map fst CLAIM_TERMINAL_EVENTS] in Hst.
  rewrite !elem_of_cons, elem_of_nil in Hst.
  destruct Hst as [E|[E|[E|[E|[]]]]]; rewrite E; unfold isClaimTerminalStatus; decide_closed;
    rewrite ?Hfull by done; lia.
Qed.

Lemma group_weights (k : list claim) : (∀ c, c ∈ k → c ∈ l) →
  group_weight id account_events k <= 2 * zsum_by cl_amount_claimed k.
Proof.
  unfold group_weight, weight, id. induction k as [|c k IH]; intros Hk; [done|].
  rewrite !zsum_by_cons. specialize (IH ltac:(intros; apply Hk; by right)).
  pose proof (Hk c ltac:(by left)) as Hc. rewrite <- (recovered_rows c Hc).
  apply account_claim in Hc as [Hin _]. destruct tables_ok as (_ & Hcl & _). destruct (Hcl c Hin) as (_ & _ & _ & _ & _ & Hle & _). lia.
Qed.
End portfolio.

Section report.
Context {D : DecimalJs} {L : DecimalLaws D} {H : Sha256} {U : UuidSource} {UL : UuidSourceLaws U}
  {W : Zod} {B : PgBoss}.

(** A bucket holding exactly balanced figures reports them and reconciles. *)
Lemma bucket_exact b F w : acc_is b F w → 4 * w < 10 ^ 20 →
  F Claimed = F Recovered + F Outstanding + F WrittenOff + F Denied →
  finalizeClaimReconciliationTotals b = mkTotals (fixed 4 (F Claimed)) (fixed 4 (F Recovered)) (fixed 4 (F Outstanding))
    (fixed 4 (F WrittenOff)) (fixed 4 (F Denied)) (fixed 4 (F NullCurrency)) (fixed 4 (F Mismatched)) ∧
  claimReconciliationReconciles b = true.
Proof.
  intros Hb Hw Hbal. split.
  - unfold finalizeClaimReconciliationTotals.
    f_equal; [apply (money_fixed _ _ (proj1 (Hb Claimed)))|apply (money_fixed _ _ (proj1 (Hb Recovered)))
      |apply (money_fixed _ _ (proj1 (Hb Outstanding)))|apply (money_fixed _ _ (proj1 (Hb WrittenOff)))
      |apply (money_fixed _ _ (proj1 (Hb Denied)))|apply (money_fixed _ _ (proj1 (Hb NullCurrency)))
      |apply (money_fixed _ _ (proj1 (Hb Mismatched)))].
  - unfold claimReconciliationReconciles.
    destruct (Hb Claimed) as [H1 B1], (Hb Recovered) as [H2 B2], (Hb Outstanding) as [H3 B3],
      (Hb WrittenOff) as [H4 B4], (Hb Denied) as [H5 B5]. cbn [acc_col] in *.
    rewrite (money_eq _ _ (F Claimed) (F Recovered + F Outstanding + F WrittenOff + F Denied) H1); [by apply Z.eqb_eq|].
    apply money_plus; [apply money_plus; [apply money_plus; [done..|lia]|done|lia]|done|lia].
Qed.

Lemma aggregate_map {R R' Lab} (g : R → R') row key (label : R' → Lab) l evs :
  aggregate row key label (map g l) evs = aggregate (row ∘ g) (key ∘ g) (label ∘ g) l evs.
Proof.
  unfold aggregate. generalize (@nil (string * (Lab * ClaimReconciliationAccumulator))).
  induction l as [|x l IH]; intros bs; [done|]. cbn [map]. rewrite !fold_res_cons. cbn [compose].
  destruct (default _ _) as [lab b]. destruct (accumulateClaimReconciliation _ _ _) as [b'|]; [|done].
  rewrite !bind_ret_l. apply IH.
Qed.

Lemma reconcilePortfolioTotals_exact t account : claim_tables_ok t →
  zsum_by cl_amount_claimed (account_claims account t) < 10 ^ 19 →
  reconcilePortfolioTotals (map claim_report_row (account_claims account t))
    (map event_report_row (account_events t account)) =
  Ok (map (portfolio_bucket account t) (set_of (map cl_currency (account_claims account t)))).
Proof.
  intros Ht Hsum. pose proof Ht as (_ & Hcl & Hre). unfold reconcilePortfolioTotals. rewrite aggregate_map.
  set (l := account_claims account t) in *. set (key := (λ c, default " " (rc_currency c)) ∘ claim_report_row).
  assert (∀ c, c ∈ l → claim_ok t c) as Hok by (intros c [Hc _]%account_claim; auto).
  assert (∀ c, c ∈ l → cl_currency c = Some (key c)) as Hkey.
  { intros c Hc. destruct (Hok c Hc) as (_ & [k Hk] & _). unfold key. simpl. by rewrite Hk. }
  assert (map cl_currency l = map Some (map key l)) as ->.
  { rewrite map_map. apply map_ext_in. intros c Hc%list_elem_of_In. auto. }
  rewrite set_of_map by apply _.
  assert (∀ r, r ∈ account_events t account → 0 <= re_amount_recovered r) as Hpos.
  { intros r [Hr%list_elem_of_In _]%list_elem_of_In%List.filter_In. destruct (Hre r Hr). lia. }
  pose proof (group_weights t account Ht l (λ _ Hc, Hc)) as Hw.
  destruct (aggregate_exact id key (rc_currency ∘ claim_report_row) (account_events t account) Hpos l)
    as (buckets & Hagg & Hkeys & Hget).
  { intros c Hc. destruct (Hok c Hc) as [? _]. unfold id. lia. }
  { lia. }
  unfold aggregate in *. cbn [compose id] in *. rewrite Hagg, bind_ret_l. f_equal. rewrite map_map, <- Hkeys.
  rewrite map_map. apply map_ext_in. intros [k [lab b]] Hin%list_elem_of_In.
  apply map_get_Some in Hin; [|rewrite Hkeys; apply NoDup_set_of].
  destruct (Hget _ _ _ Hin) as (Hacc & c & Hc & Hk & ->). cbn [fst snd].
  unfold portfolio_bucket. fold l.
  replace (List.filter (λ c, bool_decide (cl_currency c = Some k)) l) with (in_group key l k).
  2: { unfold in_group. apply List.filter_ext_in. intros c' Hc'%list_elem_of_In. rewrite (Hkey c' Hc').
       apply bool_decide_ext. split; congruence. }
  assert (∀ c', c' ∈ in_group key l k → c' ∈ l) as Hsub by (intros c' [? _]%list_elem_of_In%List.filter_In; by apply list_elem_of_In).
  pose proof (in_group_weight id key (account_events t account) Hpos l k) as Hgw.
  destruct (bucket_exact _ _ _ Hacc) as [-> ->].
  { assert (∀ c', c' ∈ l → 0 <= cl_amount_claimed (id c')) by (intros c' Hc'; destruct (Hok c' Hc'); unfold id; lia).
    specialize (Hgw ltac:(done)). lia. }
  { by apply group_balances. }
  destruct (reachable_group t account Ht _ Hsub) as (-> & -> & -> & -> & -> & -> & ->).
  change (rc_currency (claim_report_row c)) with (cl_currency c). by rewrite (Hkey c Hc), Hk.
Qed.

(** C13: the portfolio report is exact and always reconciles: in every state the
    claim handlers can reach, the report of a tenant (claims of less than 10^15
    currency units in all) has one bucket per currency, in order of first claim,
    holding exactly the totals of that currency's claims, nothing is set aside as
    null or mismatched currency, and every bucket's [reconciles] is true. *)
Theorem portfolio_report_exact s0 s clientId e :
  claims_inv s0 → claim_reachable s0 s → zod_uuid clientId = true →
  zsum_by cl_amount_claimed (account_claims (pg_uuid clientId) (claim_part s)) < 10 ^ 19 →
  getPortfolioReconciliation clientId e s =
  Ok (map (portfolio_bucket (pg_uuid clientId) (claim_part s))
        (set_of (map cl_currency (account_claims (pg_uuid clientId) (claim_part s)))), s).
Proof.
  intros H0 Hreach Hz Hsum. destruct (claim_reachable_inv s0 s H0 Hreach) as [Ht _].
  pose proof (reconcilePortfolioTotals_exact _ _ Ht Hsum) as Hrep.
  unfold getPortfolioReconciliation, check. rewrite Hz. unfold mbind, tx_bind, query, mret, tx_ret, uuid_is. cbn beta iota.
  fold (account_claims (pg_uuid clientId) (claim_part s)).
  fold (account_events (claim_part s) (pg_uuid clientId)). rewrite Hrep.
  by destruct (account_claims _ _).
Qed.
End report.

Section examples.
#[local] Existing Instances ExactDecimal.ops ExactDecimal.laws demo_sha demo_uuid demo_uuid_laws demo_zod memory_boss.

Definition paid_report : list PortfolioReconciliationBucket :=
  [mkPortfolio (Some "USD") (mkTotals "100.0000" "60.5000" "39.5000" "0.0000" "0.0000" "0.0000" "0.0000") true].
Lemma paid_report_ok : map (portfolio_bucket (pg_uuid (demo_id 0)) (claim_part paid_db))
  (set_of (map cl_currency (account_claims (pg_uuid (demo_id 0)) (claim_part paid_db)))) = paid_report.
Proof. vm_compute. reflexivity. Qed.
Lemma portfolio_report_exact_witness :
  getPortfolioReconciliation (demo_id 0) claim_env paid_db = Ok (paid_report, paid_db).
Proof.
  rewrite <- paid_report_ok. apply (portfolio_report_exact claims_db paid_db).
  - apply claims_db_inv.
  - eapply reach_step; [apply reach_start|eapply step_partial_whole, paid_ok].
  - vm_compute. reflexivity.
  - vm_compute. reflexivity.
Defined.

(** A claim without a currency counts recoveries of any currency together: ten
    dollars and five euros are reported as fifteen recovered. *)
Lemma null_currency_mixes :
  reconcilePortfolioTotals [mkRcClaim "c" "100" None "open"] [mkRcEvent "c" "10" (Some "USD"); mkRcEvent "c" "5" (Some "EUR")] =
  Ok [mkPortfolio None (mkTotals "100.0000" "15.0000" "85.0000" "0.0000" "0.0000" "0.0000" "0.0000") true].
Proof. vm_compute. reflexivity. Qed.
End examples.
