(* ===== verification/Disputes.v ===== *)
(** Disputes ([src/src/modules/disputes/]): creation from accepted findings, the
    status machine from draft to closed, the communications log and the
    delivery command.  Statements that name a dispute by id only run under
    row-level security ([visible]). *)

From S2P Require Import Prelude JsText Decimal Json Store AuditLedger JsDate Database Tx Findings Jobs Workflow WorkflowOps Money.

(** ** Validation ([validate-disputable-findings.ts]) *)

Record DisputableFindingRow := mkDisputable {
  df_id : string; df_status : string; df_carrierId : option string; df_currency : option string;
  df_varianceAmount : option string; df_direction : option string;
}.
Record ValidatedDispute := mkValidated {
  vd_findingIds : list string; vd_carrierId : string; vd_currency : string; vd_amountClaimed : string;
}.
Definition DisputableFindingsError : string → handler_error := Thrown "DisputableFindingsError".

(** The per-row checks, in the code's order. *)
Definition disputable_row (row : DisputableFindingRow) : result handler_error unit :=
  _ ← guard_or (bool_decide (df_status row = "accepted")) (DisputableFindingsError "NOT_ACCEPTED");
  _ ← guard_or (bool_decide (default "" (df_carrierId row) ≠ "")) (DisputableFindingsError "MISSING_CARRIER");
  guard_or (bool_decide (is_Some (df_varianceAmount row)) && bool_decide (is_Some (df_currency row)))
    (DisputableFindingsError "MISSING_AMOUNT").

Section validate.
Context {D : DecimalJs}.
Definition validateDisputableFindings (rows : list DisputableFindingRow) : result handler_error ValidatedDispute :=
  let claimable := List.filter (λ r, negb (bool_decide (df_direction r = Some "UNDERCHARGE"))) rows in
  _ ← guard_or (negb (bool_decide (claimable = []))) (DisputableFindingsError "EMPTY_SET");
  _ ← fold_res (λ _ row, disputable_row row) () claimable;
  let carrierIds := set_of (map df_carrierId claimable) in
  _ ← guard_or (length carrierIds <=? 1)%nat (DisputableFindingsError "MIXED_CARRIER");
  let currencies := set_of (map df_currency claimable) in
  _ ← guard_or (length currencies <=? 1)%nat (DisputableFindingsError "MIXED_CURRENCY");
  amountClaimed ← sum_decimals (map (λ r, default "" (df_varianceAmount r)) claimable);
  Ok (mkValidated (map df_id claimable) (default "" (default None (head carrierIds)))
        (default "" (default None (head currencies))) (d_toFixed 4 amountClaimed)).
End validate.

(** ** Creation ([create-dispute-from-findings.ts]) *)

(** The candidate findings with their invoice's carrier, ordered by id and
    locked. *)
Definition finding_carrier (t : source_tables) (f : variance_finding) : option (option string) :=
  run ← select_one (λ r, bool_decide (ar_id r = vf_audit_run f) && bool_decide (ar_account r = vf_account f))
          (audit_runs t);
  inv_carrier <$> select_one (λ i, bool_decide (inv_id i = ar_invoice run) && bool_decide (inv_account i = vf_account f))
                    (invoices t).
Definition candidate_row (clientId : string) (findingIds : list string) (t : source_tables) (f : variance_finding) :
    option DisputableFindingRow :=
  if uuid_is (vf_account f) clientId && bool_decide (vf_id f ∈ map pg_uuid findingIds) then
    carrier ← finding_carrier t f;
    Some (mkDisputable (vf_id f) (vf_status f) carrier (vf_currency f)
            (numeric_text <$> vf_variance_amount f) (vf_direction f))
  else None.
Definition candidate_rows (clientId : string) (findingIds : list string) (s : db) : list DisputableFindingRow :=
  js_sort (cmp_on df_id code_unit_compare)
    (omap (candidate_row clientId findingIds (sources s)) (variance_findings (findings s))).

Definition add_dispute (d : dispute) : db → db :=
  upd_disputes (λ t, mkDisputes (disputes t ++ [d]) (dispute_lines t) (dispute_comms t)).
Definition add_line (l : dispute_line) : db → db :=
  upd_disputes (λ t, mkDisputes (disputes t) (dispute_lines t ++ [l]) (dispute_comms t)).
Definition upd_comms (f : list dispute_comm → list dispute_comm) : db → db :=
  upd_disputes (λ t, mkDisputes (disputes t) (dispute_lines t) (f (dispute_comms t))).

Definition nullable_numeric (o : option string) : tx (option Z) :=
  match o with Some t => m ← numeric t; mret (Some m) | None => mret None end.

Record CreateDisputeResult := mkCreatedDispute {
  cd_disputeId : string; cd_findingIds : list string; cd_amountClaimed : string; cd_currency : string;
}.
Definition DELIVER_DISPUTE_COMMAND_TYPE : string := "deliver_dispute".
Definition DISPUTE_DELIVERY_MESSAGE_TYPE : string := "dispute_delivery".
Definition DISPUTE_DELIVERY_WORKFLOW_TYPE : string := "dispute_delivery".
Definition DISPUTE_DELIVERY_INITIAL_STATE : string := "pending_delivery".
Definition RESPONDABLE_STATUSES : list string := ["sent"; "in_progress"].
Definition RESOLVED_STATUSES : list string := ["accepted"; "rejected"; "partial"].
Definition dispute_row (disputeId : string) (e : env) (d : dispute) : bool :=
  uuid_is (di_id d) disputeId && visible e (di_account d).

Section disputes.
Context {D : DecimalJs} {H : Sha256} {U : UuidSource} {Z : Zod}.

(** One finding put on the dispute: its line, then its status. *)
Definition include_finding (clientId disputeId : string) (actorUserId : option string)
    (findingRow : DisputableFindingRow) : tx bool :=
  amount ← nullable_numeric (df_varianceAmount findingRow);
  _ ← check (currency_check (df_currency findingRow)) (ConstraintFailed "dispute_line_currency_format_chk");
  _ ← modify (add_line {| dl_account := pg_uuid clientId; dl_dispute := disputeId;
         dl_finding := Some (df_id findingRow); dl_amount := amount; dl_currency := df_currency findingRow |});
  updateFindingStatus (df_id findingRow) "queued_for_dispute" (Some "Included in dispute creation") actorUserId.

Definition createDisputeFromFindings (clientId : string) (findingIds : list string) (actorUserId : option string) :
    tx CreateDisputeResult :=
  _ ← check (zod_uuid clientId && forallb zod_uuid findingIds && (1 <=? length findingIds)%nat &&
             (length findingIds <=? 500)%nat && nullable zod_uuid actorUserId) SchemaRejected;
  rows ← query (candidate_rows clientId findingIds);
  validated ← lift (validateDisputableFindings rows);
  amount ← numeric (vd_amountClaimed validated);
  disputeId ← new_uuid;
  s ← query id;
  _ ← check (currency_check (Some (vd_currency validated))) (ConstraintFailed "dispute_currency_format_chk");
  _ ← primary_key (map di_id (disputes (dispute_part s))) disputeId;
  _ ← modify (add_dispute (mkDispute disputeId (pg_uuid clientId) (Some (vd_carrierId validated)) "draft"
                             (Some amount) (Some (vd_currency validated)) None));
  _ ← for_each (include_finding clientId disputeId actorUserId)
        (List.filter (λ r, bool_decide (df_id r ∈ vd_findingIds validated)) rows);
  _ ← emit (audit_event (deterministicAuditEventId [clientId; disputeId; "dispute.created"])
         clientId "dispute" disputeId "dispute.created" ActorAnalyst actorUserId
         [("findingIds", JArray (map JString (vd_findingIds validated)));
          ("amountClaimed", JString (vd_amountClaimed validated)); ("currency", JString (vd_currency validated))]);
  mret (mkCreatedDispute disputeId (vd_findingIds validated) (vd_amountClaimed validated) (vd_currency validated)).

(** ** The status machine ([approve-dispute.ts], [resolve-dispute.ts]) *)

(** [UPDATE dispute SET f WHERE id = $1 AND status = ANY(froms) RETURNING *] *)
Definition guarded_update (disputeId : string) (froms : list string) (f : dispute → dispute) : tx (option dispute) :=
  e ← ask id;
  let hit d := dispute_row disputeId e d && bool_decide (di_status d ∈ froms) in
  s ← query id;
  _ ← modify (upd_dispute_rows (update_where hit f));
  mret (f <$> select_one hit (disputes (dispute_part s))).

Definition approveDispute (disputeId actorUserId : string) (at_ : BinInt.Z) : tx bool :=
  row ← guarded_update disputeId ["draft"] (set_dispute_status "sent");
  match row with
  | None => mret false
  | Some row =>
      _ ← emit (audit_event (deterministicAuditEventId [di_account row; di_id row; "dispute.approved"])
             (di_account row) "dispute" (di_id row) "dispute.approved" ActorAnalyst (Some actorUserId)
             [("fromStatus", JString "draft"); ("toStatus", JString "sent")]);
      workflowInstance ← createWorkflowInstance (di_account row) DISPUTE_DELIVERY_WORKFLOW_TYPE "dispute"
        (di_id row) DISPUTE_DELIVERY_INITIAL_STATE;
      _ ← scheduleWorkflowCommand (di_account row) (wi_id workflowInstance) DELIVER_DISPUTE_COMMAND_TYPE
        [("disputeId", JString (di_id row))] at_;
      mret true
  end.

Definition selectRespondableDispute (disputeId : string) (fromStatuses : list string) : tx (option dispute) :=
  e ← ask id;
  row ← query (λ s, select_one (dispute_row disputeId e) (disputes (dispute_part s)));
  mret (row ← row; if bool_decide (di_status row ∈ fromStatuses) then Some row else None).

Definition writeTransitionAuditEvent (row : dispute) (fromStatus toStatus event actorUserId : string)
    (extraDetail : list (string * json)) : tx bool :=
  emit (audit_event (deterministicAuditEventId [di_account row; di_id row; event])
    (di_account row) "dispute" (di_id row) event ActorAnalyst (Some actorUserId)
    ([("fromStatus", JString fromStatus); ("toStatus", JString toStatus)] ++ extraDetail)).

(** The update and audit event the four responses share, after their checks. *)
Definition respond (disputeId actorUserId : string) (froms : list string) (disputeRow : dispute)
    (f : dispute → dispute) (toStatus event : string) (extraDetail : list (string * json)) : tx bool :=
  row ← guarded_update disputeId froms f;
  match row with
  | None => mret false
  | Some row =>
      _ ← writeTransitionAuditEvent row (di_status disputeRow) toStatus event actorUserId extraDetail;
      mret true
  end.

Definition acceptDispute (disputeId actorUserId : string) : tx bool :=
  disputeRow ← selectRespondableDispute disputeId RESPONDABLE_STATUSES;
  match disputeRow with
  | None => mret false
  | Some r => respond disputeId actorUserId RESPONDABLE_STATUSES r (set_dispute_status "accepted")
                "accepted" "dispute.accepted" []
  end.
Definition rejectDispute (disputeId actorUserId : string) : tx bool :=
  disputeRow ← selectRespondableDispute disputeId RESPONDABLE_STATUSES;
  match disputeRow with
  | None => mret false
  | Some r => respond disputeId actorUserId RESPONDABLE_STATUSES r (set_dispute_status "rejected")
                "rejected" "dispute.rejected" []
  end.
Definition partiallyAcceptDispute (disputeId actorUserId acceptedAmount : string) : tx bool :=
  disputeRow ← selectRespondableDispute disputeId RESPONDABLE_STATUSES;
  match disputeRow with
  | None => mret false
  | Some r =>
      _ ← match di_amount_claimed r with
          | None => mret ()
          | Some claimed =>
              a ← lift (decimal acceptedAmount);
              c ← lift (decimal (numeric_text claimed));
              check (negb (d_gt a c)) (Thrown "DisputeTransitionError" "ACCEPTED_AMOUNT_EXCEEDS_CLAIMED")
          end;
      amount ← numeric acceptedAmount;
      respond disputeId actorUserId RESPONDABLE_STATUSES r (set_dispute_partial amount)
        "partial" "dispute.partially_accepted" [("acceptedAmount", JString acceptedAmount)]
  end.
Definition closeDispute (disputeId actorUserId : string) : tx bool :=
  disputeRow ← selectRespondableDispute disputeId RESOLVED_STATUSES;
  match disputeRow with
  | None => mret false
  | Some r => respond disputeId actorUserId RESOLVED_STATUSES r (set_dispute_status "closed")
                "closed" "dispute.closed" []
  end.

(** ** Communications and delivery *)

Inductive DisputeCommDirection : Set := inbound | outbound.
Definition direction_text (d : DisputeCommDirection) : string :=
  match d with inbound => "inbound" | outbound => "outbound" end.

(** UNIQUE (account_id, dedupe_key) *)
Definition same_comm (clientId dedupeKey : string) (c : dispute_comm) : bool :=
  bool_decide (dc_account c = clientId) && bool_decide (dc_dedupe_key c = dedupeKey).
Definition recordDisputeCommunication (disputeId : string) (direction : DisputeCommDirection)
    (body dedupeKey : string) : tx (string * bool) :=
  _ ← check (zod_uuid disputeId && trimmed_len 1 10000 body && trimmed_len 1 255 dedupeKey) SchemaRejected;
  let dedupeKey := trim dedupeKey in
  e ← ask id;
  s ← query id;
  disputeRow ← the (select_one (dispute_row disputeId e) (disputes (dispute_part s)))
                 (Thrown "RecordDisputeCommunicationError" "DISPUTE_NOT_FOUND");
  let clientId := di_account disputeRow in
  rowId ← new_uuid;
  let '(inserted, rows) := insert_on_conflict (same_comm clientId dedupeKey)
    {| dc_id := rowId; dc_account := clientId; dc_dispute := pg_uuid disputeId;
       dc_direction := direction_text direction; dc_body := trim body; dc_dedupe_key := dedupeKey |}
    (dispute_comms (dispute_part s)) in
  if inserted then
    _ ← primary_key (map dc_id (dispute_comms (dispute_part s))) rowId;
    _ ← modify (upd_comms (λ _, rows));
    mret (rowId, true)
  else
    existing ← the (select_one (same_comm clientId dedupeKey) rows) (OtherError "TypeError");
    mret (dc_id existing, false).

Definition disputeDeliveryDedupeKey (disputeId : string) : string := "dispute-delivery:" +:+ disputeId.
Definition disputeCommOutboundDedupeKey (disputeId : string) : string := "dispute-comm-outbound:" +:+ disputeId.

Definition handleDeliverDisputeCommand (ctx : command_ctx) : tx unit :=
  match map_get (cx_payload ctx) "disputeId" with
  | Some (JString disputeId) =>
      _ ← check (negb (bool_decide (disputeId = ""))) (OtherError "deliver_dispute command payload missing disputeId");
      _ ← recordOutboxMessage (cx_clientId ctx) (cx_workflowInstanceId ctx) (cx_commandId ctx)
        (disputeDeliveryDedupeKey disputeId) [("disputeId", JString disputeId)] DISPUTE_DELIVERY_MESSAGE_TYPE;
      _ ← recordDisputeCommunication disputeId outbound
        ("Delivery to carrier initiated for dispute " +:+ disputeId +:+ ".") (disputeCommOutboundDedupeKey disputeId);
      mret ()
  | _ => throw (OtherError "deliver_dispute command payload missing disputeId")
  end.
End disputes.
