(* ===== verification/DisputesSafety.v ===== *)
(** What the dispute handlers of [Disputes.v] guarantee: exact amounts, the status
    machine, one dispute per finding and one delivery record per dispute. *)

From S2P Require Import Prelude JsText Decimal Json Store AuditLedger JsDate Database Tx Findings Jobs Workflow WorkflowOps Money Disputes.

(** ** What the handlers commit *)

(** The enum [dispute_status]. *)
Definition dispute_status_values : list string :=
  ["draft"; "sent"; "in_progress"; "accepted"; "rejected"; "partial"; "closed"].
Definition lines_of (d : dispute) (t : dispute_tables) : list dispute_line :=
  List.filter (λ l, bool_decide (dl_account l = di_account d) && bool_decide (dl_dispute l = di_id d))
    (dispute_lines t).
(** What a dispute's lines add up to. *)
Definition line_total (d : dispute) (t : dispute_tables) : Z :=
  zsum_by (λ l, default 0 (dl_amount l)) (lines_of d t).

Definition dispute_ok (t : dispute_tables) (d : dispute) : Prop :=
  pg_uuid (di_id d) = di_id d ∧ pg_uuid (di_account d) = di_account d ∧
  di_status d ∈ dispute_status_values ∧ lines_of d t ≠ [] ∧
  (∀ l, l ∈ lines_of d t → is_Some (dl_amount l) ∧ is_Some (dl_finding l) ∧ dl_currency l = di_currency d) ∧
  di_amount_claimed d = Some (line_total d t) ∧
  match di_accepted_amount d with
  | Some a => a <= line_total d t ∧ di_status d ∈ ["partial"; "closed"]
  | None => di_status d ≠ "partial"
  end.
Definition disputes_ok (t : dispute_tables) : Prop :=
  NoDup (map di_id (disputes t)) ∧ (∀ d, d ∈ disputes t → dispute_ok t d) ∧
  ∀ l, l ∈ dispute_lines t → dl_dispute l ∈ map di_id (disputes t).

(** The moves of the status machine. *)
Definition dispute_edges : list (string * string) :=
  [("draft", "sent"); ("sent", "accepted"); ("sent", "rejected"); ("sent", "partial");
   ("in_progress", "accepted"); ("in_progress", "rejected"); ("in_progress", "partial");
   ("accepted", "closed"); ("rejected", "closed"); ("partial", "closed")].

(** What a transaction may do to one dispute: nothing, or one move that keeps
    everything else; an accepted amount appears with the move to [partial]. *)
Definition dispute_moved (d d' : dispute) : Prop :=
  di_id d' = di_id d ∧ di_account d' = di_account d ∧ di_carrier d' = di_carrier d ∧
  di_amount_claimed d' = di_amount_claimed d ∧ di_currency d' = di_currency d ∧
  (d' = d ∨ (di_status d, di_status d') ∈ dispute_edges ∧
            (di_accepted_amount d' = di_accepted_amount d ∨ di_status d' = "partial")).

(** Findings as their table's constraints and the recorder leave them: unique
    ids, amounts below 10^13 currency units. *)
Definition findings_ok (s : db) : Prop :=
  NoDup (map vf_id (variance_findings (findings s))) ∧
  ∀ f m, f ∈ variance_findings (findings s) → vf_variance_amount f = Some m → Z.abs m < 10 ^ 17.

Section guarded.
Implicit Types (d : dispute) (t : dispute_tables).

Lemma guarded_update_spec disputeId froms f e s row s' :
  guarded_update disputeId froms f e s = Ok (row, s') →
  let hit d := dispute_row disputeId e d && bool_decide (di_status d ∈ froms) in
  row = f <$> select_one hit (disputes (dispute_part s)) ∧ s' = upd_dispute_rows (update_where hit f) s.
Proof. unfold guarded_update. intros Hg. tx_inv. done. Qed.

Lemma upd_dispute_rows_none (p : dispute → bool) f s : select_one p (disputes (dispute_part s)) = None →
  upd_dispute_rows (update_where p f) s = s.
Proof.
  intros Hn. unfold upd_dispute_rows, upd_disputes. rewrite update_where_none by (by apply select_one_None). by destruct s as [?? [] ???????].
Qed.

(** Moving one dispute keeps the tables well-formed. *)
Lemma move_ok t (p : dispute → bool) f :
  (∀ d, di_id (f d) = di_id d ∧ di_account (f d) = di_account d ∧ di_amount_claimed (f d) = di_amount_claimed d ∧
        di_currency (f d) = di_currency d) →
  (∀ d, d ∈ disputes t → p d = true → dispute_ok t d → di_status (f d) ∈ dispute_status_values ∧
     match di_accepted_amount (f d) with
     | Some a => a <= line_total d t ∧ di_status (f d) ∈ ["partial"; "closed"]
     | None => di_status (f d) ≠ "partial"
     end) →
  disputes_ok t → disputes_ok (mkDisputes (update_where p f (disputes t)) (dispute_lines t) (dispute_comms t)).
Proof.
  intros Hf Hs (Hnd & Hd & Hl). split_and!; simpl.
  - rewrite update_where_key; [done|]. apply Hf.
  - intros d [[Hin _]|(d0 & Hin & Hp & ->)]%elem_of_update_where; [by apply Hd|].
    pose proof (Hd d0 Hin) as Hok. destruct (Hs d0 Hin Hp Hok) as [Hst Hacc].
    destruct Hok as (Hlow & Hlow2 & _ & Hne & Hlines & Hamt & _). destruct (Hf d0) as (Hi & Ha & Hm & Hc).
    unfold dispute_ok, line_total, lines_of. simpl. rewrite Hi, Ha, Hm, Hc. by split_and!.
  - intros l Hin. rewrite update_where_key; [by apply Hl|]. apply Hf.
Qed.
End guarded.

Section moves.
Context {D : DecimalJs} {L : DecimalLaws D} {H : Sha256} {U : UuidSource} {UL : UuidSourceLaws U} {W : Zod}.

(** The effect the approval and the responses share. *)
Definition moved_by (disputeId : string) (froms : list string) (f : dispute → dispute) (s s' : db) : Prop :=
  ∃ hit, (∀ d, hit d = true → di_id d = pg_uuid disputeId ∧ di_status d ∈ froms) ∧
    disputes (dispute_part s') = update_where hit f (disputes (dispute_part s)) ∧
    dispute_lines (dispute_part s') = dispute_lines (dispute_part s) ∧
    dispute_comms (dispute_part s') = dispute_comms (dispute_part s).

Lemma hit_froms disputeId e (froms : list string) d : dispute_row disputeId e d && bool_decide (di_status d ∈ froms) = true →
  di_id d = pg_uuid disputeId ∧ di_status d ∈ froms.
Proof. unfold dispute_row, uuid_is. rewrite !andb_true_iff, !bool_decide_eq_true. tauto. Qed.

Lemma respond_spec disputeId actor froms r f toStatus event extra e s b s' :
  respond disputeId actor froms r f toStatus event extra e s = Ok (b, s') →
  moved_by disputeId froms f s s' ∧ (b = false → s' = s).
Proof.
  unfold respond. intros Hr. tx_inv.
  match goal with Hg : guarded_update _ _ _ _ _ = _ |- _ => apply guarded_update_spec in Hg as [Hrow ->] end.
  destruct (select_one _ _) as [d|] eqn:E; simpl in Hrow; subst.
  - tx_inv. unfold writeTransitionAuditEvent in *.
    match goal with Hm : emit _ _ _ = _ |- _ => apply emit_frame in Hm as (_ & _ & Hd & _) end.
    split; [|done]. exists (λ d, dispute_row disputeId e d && bool_decide (di_status d ∈ froms)).
    rewrite Hd. split; [apply hit_froms|done].
  - tx_inv. rewrite upd_dispute_rows_none by done. split; [|done].
    exists (λ d, dispute_row disputeId e d && bool_decide (di_status d ∈ froms)).
    split; [apply hit_froms|]. by rewrite update_where_none by (by apply select_one_None).
Qed.

Lemma select_respondable_spec disputeId froms e s o s' : selectRespondableDispute disputeId froms e s = Ok (o, s') →
  s' = s ∧ ∀ r, o = Some r → r ∈ disputes (dispute_part s) ∧ di_id r = pg_uuid disputeId ∧ di_status r ∈ froms.
Proof.
  unfold selectRespondableDispute. intros Hs. tx_inv. split; [done|]. intros r Hr.
  apply bind_Some in Hr as (d & Hd & Hr). case_bool_decide; [|done]. injection Hr as ->.
  apply select_one_Some in Hd as [Hd Hrow]. unfold dispute_row, uuid_is in Hrow.
  apply andb_true_iff in Hrow as [?%bool_decide_eq_true _]. done.
Qed.

(** A response without a dispute to respond to writes nothing. *)
Lemma moved_by_refl disputeId froms f s : moved_by disputeId froms f s s.
Proof.
  exists (λ _, false). split; [done|]. split; [|done].
  unfold update_where. by rewrite map_id.
Qed.

Lemma acceptDispute_spec i a e s b s' : acceptDispute i a e s = Ok (b, s') →
  moved_by i RESPONDABLE_STATUSES (set_dispute_status "accepted") s s' ∧ (b = false → s' = s).
Proof.
  unfold acceptDispute. intros Ha. tx_inv.
  match goal with Hs : selectRespondableDispute _ _ _ _ = _ |- _ => apply select_respondable_spec in Hs as [-> _] end.
  case_match; tx_inv; [by eapply respond_spec|]. split; [apply moved_by_refl|done].
Qed.
Lemma rejectDispute_spec i a e s b s' : rejectDispute i a e s = Ok (b, s') →
  moved_by i RESPONDABLE_STATUSES (set_dispute_status "rejected") s s' ∧ (b = false → s' = s).
Proof.
  unfold rejectDispute. intros Ha. tx_inv.
  match goal with Hs : selectRespondableDispute _ _ _ _ = _ |- _ => apply select_respondable_spec in Hs as [-> _] end.
  case_match; tx_inv; [by eapply respond_spec|]. split; [apply moved_by_refl|done].
Qed.
Lemma closeDispute_spec i a e s b s' : closeDispute i a e s = Ok (b, s') →
  moved_by i RESOLVED_STATUSES (set_dispute_status "closed") s s' ∧ (b = false → s' = s).
Proof.
  unfold closeDispute. intros Ha. tx_inv.
  match goal with Hs : selectRespondableDispute _ _ _ _ = _ |- _ => apply select_respondable_spec in Hs as [-> _] end.
  case_match; tx_inv; [by eapply respond_spec|]. split; [apply moved_by_refl|done].
Qed.

(** The amount a carrier accepts is at most the amount claimed. *)
Lemma partiallyAccept_spec i a amt e s b s' : partiallyAcceptDispute i a amt e s = Ok (b, s') →
  s' = s ∨ ∃ m r, moved_by i RESPONDABLE_STATUSES (set_dispute_partial m) s s' ∧
    r ∈ disputes (dispute_part s) ∧ di_id r = pg_uuid i ∧
    ∀ claimed, di_amount_claimed r = Some claimed → m <= claimed.
Proof.
  unfold partiallyAcceptDispute. intros Ha. tx_inv.
  match goal with Hs : selectRespondableDispute _ _ _ _ = _ |- _ => apply select_respondable_spec in Hs as [-> Hsel] end.
  case_match; [|tx_inv; by left]. subst. tx_inv.
  match goal with Hn : numeric _ _ _ = _ |- _ => apply numeric_Ok in Hn as (m & Hm & _ & [= -> ->]) end.
  destruct (Hsel _ eq_refl) as (Hin & Hid & _).
  match goal with Hr : respond _ _ _ _ _ _ _ _ _ _ = _ |- _ => apply respond_spec in Hr as [Hmv _] end.
  right. exists m, d. destruct (di_amount_claimed d) as [c|]; tx_inv.
  - split; [done|]. split_and!; try done. intros ? [= <-].
    destruct (decimal_units _ _ Hm) as (da & Hda & Hva). destruct (decimal_fixed c) as (dc & Hdc & Hvc).
    match goal with Hg : negb (d_gt ?x ?y) = true |- _ =>
      assert (x = da) as -> by congruence; assert (y = dc) as -> by congruence;
      rewrite (money_gt da dc m c Hva Hvc), negb_true_iff, Z.ltb_ge in Hg end. done.
  - by split_and!.
Qed.
End moves.

Section steps.
Context {D : DecimalJs} {L : DecimalLaws D} {H : Sha256} {U : UuidSource} {UL : UuidSourceLaws U} {W : Zod}.

(** The workflow handlers leave disputes alone. *)
Lemma createInstance_disputes c t en i st e s r s' : createWorkflowInstance c t en i st e s = Ok (r, s') →
  dispute_part s' = dispute_part s.
Proof.
  unfold createWorkflowInstance. intros Hc. tx_inv. unfold id in *. case_match; tx_inv; [done|].
  id_inv. case_match; tx_inv; [|done]. id_inv.
  match goal with Hm : emit _ _ _ = _ |- _ => by apply emit_frame in Hm as (_ & _ & -> & _) end.
Qed.
Lemma scheduleCommand_disputes c i t p r e s x s' : scheduleWorkflowCommand c i t p r e s = Ok (x, s') →
  dispute_part s' = dispute_part s.
Proof.
  unfold scheduleWorkflowCommand. intros Hc. tx_inv. unfold id in *. id_inv. case_match; tx_inv; [|done]. id_inv.
  match goal with Hm : emit _ _ _ = _ |- _ => by apply emit_frame in Hm as (_ & _ & -> & _) end.
Qed.
Lemma recordOutbox_disputes c i m k p t e s x s' : recordOutboxMessage c i m k p t e s = Ok (x, s') →
  dispute_part s' = dispute_part s.
Proof.
  unfold recordOutboxMessage. intros Hc. tx_inv. unfold id in *. id_inv. case_match; tx_inv; [|done]. id_inv.
  match goal with Hm : emit _ _ _ = _ |- _ => by apply emit_frame in Hm as (_ & _ & -> & _) end.
Qed.

Lemma approveDispute_spec i a at_ e s b s' : approveDispute i a at_ e s = Ok (b, s') →
  moved_by i ["draft"] (set_dispute_status "sent") s s' ∧ (b = false → s' = s).
Proof.
  unfold approveDispute. intros Ha. tx_inv.
  match goal with Hg : guarded_update _ _ _ _ _ = _ |- _ => apply guarded_update_spec in Hg as [Hrow ->] end.
  destruct (select_one _ _) as [d|] eqn:E; simpl in Hrow; subst; tx_inv.
  - split; [|done]. exists (λ d, dispute_row i e d && bool_decide (di_status d ∈ ["draft"])).
    match goal with Hm : emit _ _ _ = _, Hw : createWorkflowInstance _ _ _ _ _ _ _ = _,
      Hs : scheduleWorkflowCommand _ _ _ _ _ _ _ = _ |- _ => apply scheduleCommand_disputes in Hs;
      apply createInstance_disputes in Hw; apply emit_frame in Hm as (_ & _ & Hm & _);
      rewrite Hs, Hw, Hm end.
    split; [apply hit_froms|done].
  - rewrite upd_dispute_rows_none by done. split; [apply moved_by_refl|done].
Qed.

(** The communications log is append-only and leaves the disputes alone. *)
Lemma recordComm_spec i dir body key e s r s' : recordDisputeCommunication i dir body key e s = Ok (r, s') →
  disputes (dispute_part s') = disputes (dispute_part s) ∧ dispute_lines (dispute_part s') = dispute_lines (dispute_part s) ∧
  workflow_part s' = workflow_part s ∧ audit_log s' = audit_log s ∧
  ∃ d, select_one (dispute_row i e) (disputes (dispute_part s)) = Some d ∧
   (existsb (same_comm (di_account d) (trim key)) (dispute_comms (dispute_part s)) = false ∧ r.2 = true ∧
     (∃ c, dispute_comms (dispute_part s') = dispute_comms (dispute_part s) ++ [c] ∧
       same_comm (di_account d) (trim key) c = true ∧ dc_id c = r.1) ∨
    r.2 = false ∧ dispute_comms (dispute_part s') = dispute_comms (dispute_part s) ∧
     dc_id <$> select_one (same_comm (di_account d) (trim key)) (dispute_comms (dispute_part s)) = Some r.1).
Proof.
  unfold recordDisputeCommunication, insert_on_conflict. intros Hc. tx_inv. unfold id in *. id_inv.
  match goal with Hs : select_one (dispute_row _ _) _ = Some _ |- _ => rename Hs into Hsel end.
  destruct (existsb _ _) eqn:E; injection Ep as <- <-; tx_inv.
  - split_and!; try done. eexists. split; [exact Hsel|]. right. split_and!; try done.
    match goal with Hs : select_one (same_comm _ _) _ = Some _ |- _ => by rewrite Hs end.
  - id_inv. split_and!; try done. eexists. split; [exact Hsel|]. left. split_and!; try done.
    eexists. split_and!; [done| |done]. unfold same_comm. simpl. by rewrite !bool_decide_eq_true_2.
Qed.

(** *** Creation *)

Lemma candidate_row_spec c ids t f r : candidate_row c ids t f = Some r →
  df_id r = vf_id f ∧ df_status r = vf_status f ∧ df_currency r = vf_currency f ∧ df_direction r = vf_direction f ∧
  df_varianceAmount r = numeric_text <$> vf_variance_amount f ∧ vf_account f = pg_uuid c ∧ vf_id f ∈ map pg_uuid ids.
Proof.
  unfold candidate_row. destruct (_ && _) eqn:E; [|done].
  apply andb_true_iff in E as [E1%bool_decide_eq_true E2%bool_decide_eq_true].
  intros (carrier & _ & [= <-])%bind_Some. done.
Qed.
Lemma elem_of_candidates c ids s r : r ∈ candidate_rows c ids s ↔
  ∃ f, f ∈ variance_findings (findings s) ∧ candidate_row c ids (sources s) f = Some r.
Proof. unfold candidate_rows. rewrite elem_of_js_sort. apply list_elem_of_omap. Qed.

Lemma candidates_NoDup c ids s : NoDup (map vf_id (variance_findings (findings s))) →
  NoDup (map df_id (candidate_rows c ids s)).
Proof.
  intros Hnd. unfold candidate_rows. rewrite js_sort_perm.
  induction (variance_findings (findings s)) as [|f l IH]; [constructor|]. cbn [map] in Hnd.
  apply NoDup_cons in Hnd as [Hf Hnd]. cbn [omap list_omap]. specialize (IH Hnd).
  destruct (candidate_row _ _ _ f) as [r|] eqn:E; [|done]. cbn [map]. constructor; [|done].
  apply candidate_row_spec in E as (-> & _). intros (r' & Hid & (f' & Hf' & Hr')%list_elem_of_omap)%list_elem_of_fmap.
  apply candidate_row_spec in Hr' as (Hid' & _). apply Hf. rewrite Hid, Hid'. by apply list_elem_of_fmap_2.
Qed.
Lemma candidates_length c ids s : NoDup (map vf_id (variance_findings (findings s))) →
  (length (candidate_rows c ids s) ≤ length ids)%nat.
Proof.
  intros Hnd. rewrite <- (length_map df_id), <- (length_map pg_uuid ids). apply List.NoDup_incl_length.
  - apply NoDup_ListNoDup. by apply candidates_NoDup.
  - intros i Hi%list_elem_of_In. apply list_elem_of_In.
    apply list_elem_of_fmap in Hi as (r & -> & (f & _ & Hr)%elem_of_candidates).
    by apply candidate_row_spec in Hr as (-> & _ & _ & _ & _ & _ & ?).
Qed.

(** What validation guarantees. *)
Definition claimable (rows : list DisputableFindingRow) : list DisputableFindingRow :=
  List.filter (λ r, negb (bool_decide (df_direction r = Some "UNDERCHARGE"))) rows.

Lemma disputable_rows_ok rows u : fold_res (λ _ row, disputable_row row) () rows = Ok u →
  ∀ r, r ∈ rows → df_status r = "accepted" ∧ is_Some (df_varianceAmount r) ∧ is_Some (df_currency r) ∧ df_carrierId r ≠ None.
Proof.
  induction rows as [|x rows IH]; [by intros _ r ?%elem_of_nil|]. rewrite fold_res_cons.
  intros (u1 & Hx & Hrest)%bind_Ok. destruct u1. intros r [->|Hr]%elem_of_cons; [|by apply IH].
  unfold disputable_row in Hx. res_inv. rewrite ?guard_or_Ok in *.
  repeat match goal with Hb : _ && _ = true |- _ => apply andb_true_iff in Hb as [??] end.
  rewrite ?bool_decide_eq_true in *. split_and!; try done. by intros E; rewrite E in *.
Qed.

Lemma validate_spec rows v : validateDisputableFindings rows = Ok v →
  claimable rows ≠ [] ∧ vd_findingIds v = map df_id (claimable rows) ∧
  (∀ r, r ∈ claimable rows → df_status r = "accepted" ∧ is_Some (df_varianceAmount r) ∧ df_currency r = Some (vd_currency v)) ∧
  ∃ d, sum_decimals (map (λ r, default "" (df_varianceAmount r)) (claimable rows)) = Ok d ∧ vd_amountClaimed v = d_toFixed 4 d.
Proof.
  unfold validateDisputableFindings. fold (claimable rows). cbv zeta. intros Hv. res_inv. rewrite ?guard_or_Ok in *.
  match goal with Hb : negb _ = true |- _ => apply negb_true_iff, bool_decide_eq_false in Hb end.
  simpl. split_and!; [done|done| |by eexists].
  intros r Hr. match goal with Hf : fold_res _ _ _ = Ok _ |- _ =>
    destruct (disputable_rows_ok _ _ Hf r Hr) as (H1 & H2 & [k H3] & _) end.
  split_and!; [done..|]. match goal with Hn : (length (set_of (map df_currency _)) <=? 1)%nat = true |- _ =>
    apply Nat.leb_le in Hn; rewrite (single_value _ (df_currency r) Hn) by (by apply list_elem_of_fmap_2) end.
  by rewrite H3.
Qed.

Definition line_of (clientId disputeId : string) (r : DisputableFindingRow) : dispute_line :=
  {| dl_account := pg_uuid clientId; dl_dispute := disputeId; dl_finding := Some (df_id r);
     dl_amount := df_varianceAmount r ≫= money_units; dl_currency := df_currency r |}.

Lemma include_spec c d a r e s b s' : include_finding c d a r e s = Ok (b, s') →
  disputes (dispute_part s') = disputes (dispute_part s) ∧ dispute_comms (dispute_part s') = dispute_comms (dispute_part s) ∧
  dispute_lines (dispute_part s') = dispute_lines (dispute_part s) ++ [line_of c d r] ∧ sources s' = sources s ∧
  ∃ s0, findings s0 = findings s ∧
    updateFindingStatus (df_id r) "queued_for_dispute" (Some "Included in dispute creation") a e s0 = Ok (b, s').
Proof.
  unfold include_finding. intros Hi. tx_inv.
  match goal with Hu : updateFindingStatus _ _ _ _ _ _ = _ |- _ => pose proof Hu as Hu';
    apply updateFindingStatus_spec in Hu as (-> & _ & _ & -> & _) end.
  unfold nullable_numeric in *. case_match eqn:Ev; tx_inv.
  - match goal with Hn : numeric _ _ _ = _ |- _ => apply numeric_Ok in Hn as (m & Hm & _ & [= -> ->]) end.
    simpl. unfold line_of. rewrite Ev. simpl. rewrite Hm. split_and!; try done. eexists. split; [|exact Hu']. done.
  - simpl. unfold line_of. rewrite Ev. split_and!; try done. eexists. split; [|exact Hu']. done.
Qed.

Lemma include_all_spec c d a rows e s ys s' : for_each (include_finding c d a) rows e s = Ok (ys, s') →
  disputes (dispute_part s') = disputes (dispute_part s) ∧ dispute_comms (dispute_part s') = dispute_comms (dispute_part s) ∧
  dispute_lines (dispute_part s') = dispute_lines (dispute_part s) ++ map (line_of c d) rows ∧ sources s' = sources s.
Proof.
  revert s ys. induction rows as [|r rows IH]; intros s ys Hi; cbn [for_each] in Hi; tx_inv.
  { by rewrite app_nil_r. }
  match goal with Hf : include_finding _ _ _ _ _ _ = _, Hr : for_each _ _ _ _ = _ |- _ =>
    apply include_spec in Hf as (H1 & H2 & H3 & H4 & _); apply IH in Hr as (-> & -> & -> & ->) end.
  rewrite H1, H2, H3, H4, <- app_assoc. done.
Qed.

(** Every visible finding of the list ends up queued. *)
Definition queued (ids : list string) (f : variance_finding) : variance_finding :=
  if bool_decide (vf_id f ∈ ids) then set_finding_status "queued_for_dispute" f else f.
Lemma include_all_findings c d a rows e s ys s' :
  (∀ r, r ∈ rows → pg_uuid (df_id r) = df_id r ∧
     ∃ f, f ∈ variance_findings (findings s) ∧ vf_id f = df_id r ∧ visible e (vf_account f) = true) →
  for_each (include_finding c d a) rows e s = Ok (ys, s') →
  variance_findings (findings s') = map (queued (map df_id rows)) (variance_findings (findings s)).
Proof.
  revert s ys. induction rows as [|r rows IH]; intros s ys Hv Hi; cbn [for_each] in Hi; tx_inv.
  { cbn [map]. unfold queued. symmetry. apply map_id. }
  match goal with Hf : include_finding _ _ _ _ _ _ = _ |- _ => apply include_spec in Hf as (_ & _ & _ & _ & s0 & H0 & Hu) end.
  destruct (Hv r ltac:(by left)) as (Hlow & f & Hf & Hid & Hvis).
  unfold updateFindingStatus in Hu. tx_inv. unfold id in *.
  assert (∃ old, select_one (finding_row (df_id r) e) (variance_findings (findings s0)) = Some old) as [old Hold].
  { apply select_one_existsb, existsb_true. exists f. rewrite H0. split; [done|].
    unfold finding_row, uuid_is. by rewrite Hid, Hlow, Hvis, bool_decide_eq_true_2. }
  rewrite Hold in Hu. apply select_one_Some in Hold as [_ Hrow]. unfold finding_row, uuid_is in Hrow.
  apply andb_true_iff in Hrow as [Hrow%bool_decide_eq_true _]. tx_inv. id_inv.
  match goal with Hm : emit _ _ _ = _ |- _ => apply emit_frame in Hm as (_ & Hm & _) end.
  match goal with Hr : for_each _ _ _ _ = _ |- _ => apply IH in Hr; [rename Hr into Hrest|] end.
  - rewrite Hrest. match goal with Hm : findings _ = findings _ |- _ => rewrite Hm end. simpl. rewrite H0.
    unfold update_where. rewrite map_map. apply map_ext. intros g. unfold queued. rewrite Hrow, Hlow. cbn [map].
    destruct (bool_decide_reflect (vf_id g = df_id r)) as [->|Hne]; simpl.
    + rewrite (bool_decide_eq_true_2 (df_id r ∈ df_id r :: _)) by (by left).
      by destruct (bool_decide (vf_id g ∈ map df_id rows)).
    + rewrite (bool_decide_ext (vf_id g ∈ df_id r :: _) (vf_id g ∈ map df_id rows)); [done|].
      rewrite elem_of_cons. tauto.
  - intros r' Hr'. destruct (Hv r' ltac:(by right)) as (Hlow' & f' & Hf' & Hid' & Hvis'). split; [done|].
    match goal with Hm : findings _ = findings _ |- _ => rewrite Hm end. simpl. rewrite H0.
    pose proof (update_where_keeps (λ f, bool_decide (vf_id f = vf_id old)) (set_finding_status "queued_for_dispute") _ f' Hf') as Hin.
    case_match; eexists; split_and!; try exact Hin; done.
Qed.

(** The claimable amounts, in ten-thousandths, and their exact sum. *)
Lemma claimable_amounts c ids s v : findings_ok s → (length ids <= 500)%nat →
  validateDisputableFindings (candidate_rows c ids s) = Ok v →
  ∃ ms, map df_varianceAmount (claimable (candidate_rows c ids s)) = map (λ m, Some (numeric_text m)) ms ∧
    vd_amountClaimed v = numeric_text (zsum ms).
Proof.
  intros [Hnd Hsmall] Hlen (_ & _ & Hrows & d & Hd & Hv)%validate_spec.
  set (rows := candidate_rows c ids s) in *.
  assert (∀ l, (∀ r, r ∈ l → r ∈ claimable rows) → ∃ ms, map df_varianceAmount l = map (λ m, Some (numeric_text m)) ms ∧
    Forall (λ m, Z.abs m < 10 ^ 17) ms) as Hms.
  { induction l as [|r l IH]; intros Hl; [by exists []|].
    destruct IH as (ms & Hms & Hf); [intros; apply Hl; by right|].
    pose proof (Hl r ltac:(by left)) as Hr. destruct (Hrows r Hr) as (_ & [x Hx] & _).
    unfold claimable in Hr. apply list_elem_of_In, List.filter_In in Hr as [Hr%list_elem_of_In _].
    apply elem_of_candidates in Hr as (f & Hf' & Hr). apply candidate_row_spec in Hr as (_ & _ & _ & _ & Hamt & _).
    rewrite Hamt in Hx. apply fmap_Some in Hx as (m & Hm & _).
    exists (m :: ms). cbn [map]. rewrite Hms, Hamt, Hm. split; [done|]. constructor; [by eapply Hsmall|done]. }
  destruct (Hms (claimable rows) (λ _ Hr, Hr)) as (ms & Hmap & Hf). exists ms. split; [done|].
  assert (map (λ r, default "" (df_varianceAmount r)) (claimable rows) = map numeric_text ms) as Htexts.
  { rewrite <- (map_map df_varianceAmount (default "")), Hmap, map_map. done. }
  assert (length ms <= 500)%nat as Hl.
  { rewrite <- (length_map (λ m, Some (numeric_text m)) ms), <- Hmap, length_map. unfold claimable.
    etrans; [apply List.filter_length_le|]. etrans; [by apply candidates_length|done]. }
  destruct (sum_decimals_exact ms) as (d' & Hd' & Hs).
  { assert (zsum (map Z.abs ms) <= Z.of_nat (length ms) * 10 ^ 17); [|lia].
    clear -Hf. induction Hf as [|m ms Hm _ IH]; simpl in *; lia. }
  rewrite Htexts, Hd' in Hd. injection Hd as ->. by rewrite Hv, (money_fixed d _ Hs).
Qed.

Lemma claimable_ids rows v : NoDup (map df_id rows) → vd_findingIds v = map df_id (claimable rows) →
  List.filter (λ r, bool_decide (df_id r ∈ vd_findingIds v)) rows = claimable rows.
Proof.
  intros Hnd ->. unfold claimable at 2. apply List.filter_ext_in. intros r Hr%list_elem_of_In.
  apply eq_true_iff_eq. rewrite bool_decide_eq_true. unfold claimable. split.
  - intros (r' & Hid & [Hr' Hp]%list_elem_of_In%List.filter_In)%list_elem_of_fmap. apply list_elem_of_In in Hr'.
    assert (r = r') as ->; [|done]. clear -Hnd Hr Hr' Hid. induction rows as [|x rows IH]; [by apply elem_of_nil in Hr|].
    cbn [map] in Hnd. apply NoDup_cons in Hnd as [Hx Hnd].
    apply elem_of_cons in Hr as [->|Hr], Hr' as [->|Hr']; [done|..|by apply IH].
    + destruct Hx. rewrite Hid. by apply list_elem_of_fmap_2.
    + destruct Hx. rewrite <- Hid. by apply list_elem_of_fmap_2.
  - intros Hp. apply list_elem_of_fmap_2, list_elem_of_In, List.filter_In. by rewrite <- list_elem_of_In.
Qed.

Lemma createDispute_spec c ids a e s r s' : findings_ok s → createDisputeFromFindings c ids a e s = Ok (r, s') →
  ∃ v ms sf, validateDisputableFindings (candidate_rows c ids s) = Ok v ∧
    let rows := claimable (candidate_rows c ids s) in
    let d := mkDispute (cd_disputeId r) (pg_uuid c) (Some (vd_carrierId v)) "draft" (Some (zsum ms))
               (Some (vd_currency v)) None in
    map df_varianceAmount rows = map (λ m, Some (numeric_text m)) ms ∧
    r = mkCreatedDispute (cd_disputeId r) (map df_id rows) (numeric_text (zsum ms)) (vd_currency v) ∧
    (cd_disputeId r ∉ map di_id (disputes (dispute_part s))) ∧ pg_uuid (cd_disputeId r) = cd_disputeId r ∧
    disputes (dispute_part s') = disputes (dispute_part s) ++ [d] ∧
    dispute_lines (dispute_part s') = dispute_lines (dispute_part s) ++ map (line_of c (cd_disputeId r)) rows ∧
    sources s' = sources s ∧ findings s' = findings sf ∧
    ∃ s1 bs, findings s1 = findings s ∧ for_each (include_finding c (cd_disputeId r) a) rows e s1 = Ok (bs, sf).
Proof.
  intros Hok Hc. unfold createDisputeFromFindings in Hc. tx_inv. id_inv. unfold id in *.
  match goal with Hb : _ && _ = true |- _ => rewrite !andb_true_iff in Hb; destruct Hb as [[[[_ _] _] Hlen%Nat.leb_le] _] end.
  match goal with Hv : validateDisputableFindings _ = Ok ?v |- _ => rename v into vd; rename Hv into Hval end.
  destruct (claimable_amounts c ids s vd Hok Hlen Hval) as (ms & Hms & Hamt).
  pose proof (validate_spec _ _ Hval) as (_ & Hids & _).
  match goal with Hf : for_each _ _ _ _ = _ |- _ => rename Hf into Hloop end.
  rewrite (claimable_ids _ vd) in Hloop by (done || by apply candidates_NoDup, Hok).
  pose proof (include_all_spec _ _ _ _ _ _ _ _ Hloop) as (H1 & _ & H2 & Hsrc).
  match goal with Hm : emit _ _ _ = _ |- _ => apply emit_frame in Hm as (Hs & Hf & Hd & _) end.
  match goal with Hn : numeric _ _ _ = _ |- _ => apply numeric_Ok in Hn as (m & Hm & _ & [= -> ->]) end.
  rewrite Hamt in Hm. unfold numeric_text in Hm. rewrite money_units_fixed in Hm. injection Hm as <-.
  eexists vd, ms, _. simpl. split; [done|]. rewrite Hs, Hd, H1, H2, Hsrc, <- Hids, <- Hamt. split_and!; try done.
  - by apply gen_random_uuid_lower.
  - eexists _, _. split; [|exact Hloop]. done.
Qed.

Lemma lines_of_app t d0 ls : (∀ l, l ∈ ls → dl_dispute l ≠ di_id d0) → ∀ ds cs,
  lines_of d0 (mkDisputes ds (dispute_lines t ++ ls) cs) = lines_of d0 t.
Proof.
  intros Hne ds cs. unfold lines_of. simpl. rewrite List.filter_app, (filter_none _ ls), app_nil_r; [done|].
  intros l Hl. by rewrite andb_false_iff, (bool_decide_eq_false (dl_dispute l = _)); right; apply Hne.
Qed.

(** A created dispute has exactly the lines it was created with. *)
Lemma create_ok t c d vd ms rows : disputes_ok t →
  rows ≠ [] → map df_varianceAmount rows = map (λ m, Some (numeric_text m)) ms →
  (∀ r, r ∈ rows → df_currency r = Some (vd_currency vd)) →
  di_id d ∉ map di_id (disputes t) → pg_uuid (di_id d) = di_id d →
  d = mkDispute (di_id d) (pg_uuid c) (Some (vd_carrierId vd)) "draft" (Some (zsum ms)) (Some (vd_currency vd)) None →
  disputes_ok (mkDisputes (disputes t ++ [d]) (dispute_lines t ++ map (line_of c (di_id d)) rows) (dispute_comms t)).
Proof.
  intros (Hnd & Hd & Hl) Hne Hms Hcur Hnew Hlow Heq.
  set (t' := mkDisputes _ _ _). set (ls := map (line_of c (di_id d)) rows) in *.
  assert (∀ l, l ∈ ls → dl_dispute l = di_id d) as Hls by (by intros l (r & -> & _)%list_elem_of_fmap).
  assert (lines_of d t' = ls) as Hlines.
  { unfold lines_of, t'. simpl. rewrite List.filter_app, filter_none.
    - simpl. apply forallb_filter_id, forallb_forall. intros l (r & <- & _)%in_map_iff. rewrite Heq. simpl.
      by rewrite !bool_decide_eq_true_2.
    - intros l Hin. rewrite andb_false_iff. right. apply bool_decide_eq_false. intros Hid. apply Hnew.
      rewrite <- Hid. by apply Hl. }
  assert (line_total d t' = zsum ms) as Htot.
  { unfold line_total. rewrite Hlines. unfold ls, zsum_by. rewrite map_map. f_equal. simpl. unfold line_of. simpl.
    rewrite <- (map_map df_varianceAmount (λ o, default 0 (o ≫= money_units))), Hms, map_map. simpl.
    rewrite <- map_id. apply map_ext. intros m. unfold numeric_text. by rewrite money_units_fixed. }
  split_and!; simpl.
  - rewrite map_app. apply NoDup_app. split; [done|]. split; [|apply NoDup_singleton].
    intros i Hi ->%list_elem_of_singleton. done.
  - intros d0 [Hd0| ->%list_elem_of_singleton]%elem_of_app.
    + assert (lines_of d0 t' = lines_of d0 t) as Hsame.
      { apply lines_of_app. intros l Hin Hid. apply Hnew. rewrite <- (Hls l Hin), Hid. by apply list_elem_of_fmap_2. }
      pose proof (Hd d0 Hd0) as Hok. unfold dispute_ok, line_total in *. by rewrite Hsame.
    + unfold dispute_ok. rewrite Hlines, Htot.
      assert (di_account d = pg_uuid c ∧ di_status d = "draft" ∧ di_currency d = Some (vd_currency vd) ∧
        di_amount_claimed d = Some (zsum ms) ∧ di_accepted_amount d = None) as (-> & -> & -> & -> & ->)
        by (rewrite Heq; done).
      split_and!; try done; [apply pg_uuid_idem|by left|intros Hnil; unfold ls in Hnil; by destruct rows|].
      intros l (r & -> & Hr)%list_elem_of_fmap. unfold line_of. simpl. rewrite (Hcur r Hr). split_and!; [|by eexists|done].
      assert (df_varianceAmount r ∈ map (λ m, Some (numeric_text m)) ms) as Hin by (rewrite <- Hms; by apply list_elem_of_fmap_2).
      apply list_elem_of_fmap in Hin as (m & -> & _). simpl. unfold numeric_text. by rewrite money_units_fixed.
  - intros l. rewrite map_app, !elem_of_app. intros [Hin|Hin]; [left; by apply Hl|right].
    rewrite (Hls l Hin). by apply list_elem_of_singleton.
Qed.

(** *** Every transaction *)

(** One committed transaction: a dispute handler, or anything that leaves the
    dispute tables alone. *)
Inductive dispute_step : db → db → Prop :=
  | step_create_dispute c ids a e s r s' : findings_ok s → createDisputeFromFindings c ids a e s = Ok (r, s') → dispute_step s s'
  | step_approve_dispute i a at_ e s b s' : approveDispute i a at_ e s = Ok (b, s') → dispute_step s s'
  | step_accept_dispute i a e s b s' : acceptDispute i a e s = Ok (b, s') → dispute_step s s'
  | step_reject_dispute i a e s b s' : rejectDispute i a e s = Ok (b, s') → dispute_step s s'
  | step_partial_dispute i a amt e s b s' : partiallyAcceptDispute i a amt e s = Ok (b, s') → dispute_step s s'
  | step_close_dispute i a e s b s' : closeDispute i a e s = Ok (b, s') → dispute_step s s'
  | step_comm i dir body key e s r s' : recordDisputeCommunication i dir body key e s = Ok (r, s') → dispute_step s s'
  | step_deliver ctx e s u s' : handleDeliverDisputeCommand ctx e s = Ok (u, s') → dispute_step s s'
  | step_no_dispute s s' : dispute_part s' = dispute_part s → dispute_step s s'.
Inductive dispute_reachable (s0 : db) : db → Prop :=
  | dispute_start : dispute_reachable s0 s0
  | dispute_next s s' : dispute_reachable s0 s → dispute_step s s' → dispute_reachable s0 s'.

Lemma deliver_disputes ctx e s u s' : handleDeliverDisputeCommand ctx e s = Ok (u, s') →
  disputes (dispute_part s') = disputes (dispute_part s) ∧ dispute_lines (dispute_part s') = dispute_lines (dispute_part s).
Proof.
  unfold handleDeliverDisputeCommand. intros Hd. case_match; [|done]. case_match; try done. tx_inv.
  repeat match goal with
  | Ho : recordOutboxMessage _ _ _ _ _ _ _ _ = _ |- _ => apply recordOutbox_disputes in Ho
  | Hr : recordDisputeCommunication _ _ _ _ _ _ = _ |- _ => apply recordComm_spec in Hr as (-> & -> & _)
  end. by match goal with Ho : dispute_part _ = dispute_part _ |- _ => rewrite Ho end.
Qed.

(** What any transaction does: a new dispute with its lines, or moves of
    existing ones. *)
Inductive dispute_effect (t t' : dispute_tables) : Prop :=
  | effect_create c d vd ms rows : rows ≠ [] → map df_varianceAmount rows = map (λ m, Some (numeric_text m)) ms →
      (∀ r, r ∈ rows → df_currency r = Some (vd_currency vd)) →
      (di_id d ∉ map di_id (disputes t)) → pg_uuid (di_id d) = di_id d →
      d = mkDispute (di_id d) (pg_uuid c) (Some (vd_carrierId vd)) "draft" (Some (zsum ms)) (Some (vd_currency vd)) None →
      disputes t' = disputes t ++ [d] → dispute_lines t' = dispute_lines t ++ map (line_of c (di_id d)) rows →
      dispute_effect t t'
  | effect_move hit f : (∀ d, d ∈ disputes t → hit d = true → dispute_moved d (f d) ∧
        match di_accepted_amount (f d) with
        | Some a => di_accepted_amount d = Some a ∧ di_status (f d) = "closed" ∨
                    di_status (f d) = "partial" ∧ (∀ claimed, di_amount_claimed d = Some claimed → a <= claimed)
        | None => di_status (f d) ≠ "partial"
        end) → (∀ d, di_id (f d) = di_id d ∧ di_account (f d) = di_account d ∧
           di_amount_claimed (f d) = di_amount_claimed d ∧ di_currency (f d) = di_currency d) →
      disputes t' = update_where hit f (disputes t) → dispute_lines t' = dispute_lines t → dispute_effect t t'.

Lemma status_move_effect i froms st s s' : disputes_ok (dispute_part s) → st ≠ "partial" →
  (∀ from, from ∈ froms → (from, st) ∈ dispute_edges ∧ (from ∈ ["accepted"; "rejected"; "partial"] → st = "closed") ∧ from ≠ "closed") →
  moved_by i froms (set_dispute_status st) s s' → dispute_effect (dispute_part s) (dispute_part s').
Proof.
  intros (_ & Hok & _) Hst Hfroms (hit & Hhit & Hd & Hl & _). eapply effect_move; [| |exact Hd|exact Hl]; [|done].
  intros d Hin [_ Hfrom]%Hhit. destruct (Hfroms _ Hfrom) as (Hedge & Hres & Hncl). split.
  - unfold dispute_moved. simpl. split_and!; try done. right. split; [done|by left].
  - simpl. destruct (Hok d Hin) as (_ & _ & _ & _ & _ & _ & Hacc). destruct (di_accepted_amount d) as [a|]; [|done].
    destruct Hacc as [_ Hacc]. left. split; [done|]. apply Hres.
    rewrite !elem_of_cons, elem_of_nil in Hacc. destruct Hacc as [E|[E|[]]]; [|by rewrite E in Hncl].
    rewrite E, !elem_of_cons. auto.
Qed.

Lemma no_effect t t' : disputes t' = disputes t → dispute_lines t' = dispute_lines t → dispute_effect t t'.
Proof.
  intros Hd Hl. apply (effect_move _ _ (λ _, false) id); [done..| |done]. by rewrite Hd, update_where_none.
Qed.

Ltac edges := intros ? Hfrom; unfold RESPONDABLE_STATUSES, RESOLVED_STATUSES in Hfrom;
  rewrite ?elem_of_cons, ?elem_of_nil in Hfrom; unfold dispute_edges;
  repeat destruct Hfrom as [->|Hfrom]; try done; split_and!; rewrite ?elem_of_cons, ?elem_of_nil; naive_solver.

Lemma dispute_step_effect s s' : disputes_ok (dispute_part s) → dispute_step s s' →
  dispute_effect (dispute_part s) (dispute_part s').
Proof.
  intros Hok Hstep. destruct Hstep as [c ids a e s r s' Hf Hs|i a at_ e s b s' Hs|i a e s b s' Hs|i a e s b s' Hs
    |i a amt e s b s' Hs|i a e s b s' Hs|i dir body key e s r s' Hs|ctx e s u s' Hs|s s' Heq].
  - apply createDispute_spec in Hs as (vd & ms & sf & Hv & Hms & Hr & Hnew & Hlow & Hd & Hl & _); [|done].
    apply validate_spec in Hv as (Hne & _ & Hrows & _).
    apply (effect_create _ _ c (mkDispute (cd_disputeId r) (pg_uuid c) (Some (vd_carrierId vd)) "draft" (Some (zsum ms))
      (Some (vd_currency vd)) None) vd ms _ Hne Hms); [|done|done|done|done|done].
    intros row Hrow. by apply Hrows.
  - apply approveDispute_spec in Hs as [Hm _]. eapply status_move_effect; [done| | |exact Hm]; [done|edges].
  - apply acceptDispute_spec in Hs as [Hm _]. eapply status_move_effect; [done| | |exact Hm]; [done|edges].
  - apply rejectDispute_spec in Hs as [Hm _]. eapply status_move_effect; [done| | |exact Hm]; [done|edges].
  - apply partiallyAccept_spec in Hs as [->|(m & r & (hit & Hhit & Hd & Hl & _) & Hr & Hid & Hle)]; [by apply no_effect|].
    eapply effect_move; [| |exact Hd|exact Hl]; [|done]. destruct Hok as (Hnd & _).
    intros d Hin [Hid' Hfrom]%Hhit. split.
    + unfold dispute_moved. simpl. split_and!; try done. right. split; [|by right].
      unfold RESPONDABLE_STATUSES in Hfrom. rewrite !elem_of_cons, elem_of_nil in Hfrom.
      unfold dispute_edges. rewrite !elem_of_cons. destruct Hfrom as [->|[->|[]]]; auto 10.
    + simpl. right. split; [done|]. assert (d = r) as ->; [|done].
      pose proof (select_one_unique di_id _ d Hnd Hin) as H1. pose proof (select_one_unique di_id _ r Hnd Hr) as H2.
      rewrite Hid', <- Hid in H1. congruence.
  - apply closeDispute_spec in Hs as [Hm _]. eapply status_move_effect; [done| | |exact Hm]; [done|edges].
  - apply recordComm_spec in Hs as (Hd & Hl & _). by apply no_effect.
  - apply deliver_disputes in Hs as (Hd & Hl). by apply no_effect.
  - apply no_effect; by rewrite Heq.
Qed.

Lemma edge_values from to : (from, to) ∈ dispute_edges → to ∈ dispute_status_values.
Proof.
  unfold dispute_edges, dispute_status_values. rewrite !elem_of_cons, elem_of_nil.
  intros Hin. repeat destruct Hin as [[= -> ->]|Hin]; [auto 10..|done].
Qed.

Lemma effect_ok t t' : disputes_ok t → dispute_effect t t' → disputes_ok t'.
Proof.
  intros Hok [c d vd ms rows Hne Hms Hcur Hnew Hlow Heq Hd Hl|hit f Hf Hkeep Hd Hl].
  - pose proof (create_ok t c d vd ms rows Hok Hne Hms Hcur Hnew Hlow Heq) as H'.
    destruct t' as [ds ls cs]. simpl in *. by subst.
  - assert (disputes_ok (mkDisputes (update_where hit f (disputes t)) (dispute_lines t) (dispute_comms t))) as H'.
    { apply move_ok; [done| |done]. intros d Hin Hhit (_ & _ & Hst & _ & _ & Hamt & Hacc).
      destruct (Hf d Hin Hhit) as [(_ & _ & _ & _ & _ & Hmv) Hacc']. split.
      - destruct Hmv as [->|[Hedge _]]; [done|by eapply edge_values].
      - destruct (di_accepted_amount (f d)) as [a|]; [|done].
        destruct Hacc' as [[Ha ->]|[-> Hle]]; [rewrite Ha in Hacc|by split; [apply Hle|left]].
        split; [apply Hacc|]. right. by left. }
    destruct t' as [ds ls cs]. simpl in *. by subst.
Qed.

Lemma dispute_reachable_ok s0 s : disputes_ok (dispute_part s0) → dispute_reachable s0 s → disputes_ok (dispute_part s).
Proof.
  intros H0. induction 1 as [|s s' _ IH Hstep]; [done|]. eapply effect_ok; [exact IH|by apply dispute_step_effect].
Qed.

(** C15: a dispute always claims exactly what its lines add up to: in every state
    the dispute handlers can reach, the amount claimed is the exact sum of the
    dispute's lines (there is at least one), every line names its finding and is
    in the dispute's currency, and an accepted amount, present exactly when the
    carrier accepted partially, never exceeds it. *)
Theorem dispute_amounts_exact s0 s d :
  disputes_ok (dispute_part s0) → dispute_reachable s0 s → d ∈ disputes (dispute_part s) →
  let t := dispute_part s in
  lines_of d t ≠ [] ∧ di_amount_claimed d = Some (line_total d t) ∧
  (∀ l, l ∈ lines_of d t → is_Some (dl_finding l) ∧ dl_currency l = di_currency d) ∧
  (di_status d = "partial" → is_Some (di_accepted_amount d)) ∧
  (∀ a, di_accepted_amount d = Some a → a <= line_total d t ∧ di_status d ∈ ["partial"; "closed"]).
Proof.
  intros H0 Hreach Hd. destruct (dispute_reachable_ok s0 s H0 Hreach) as (_ & Hok & _).
  destruct (Hok d Hd) as (_ & _ & _ & Hne & Hl & Hamt & Hacc). split_and!; [done|done| | |].
  - intros l Hin. by destruct (Hl l Hin) as (_ & ? & ?).
  - intros Hst. by destruct (di_accepted_amount d).
  - intros a Ha. by rewrite Ha in Hacc.
Qed.

(** C30: disputes follow their status machine: whatever is committed, an existing
    dispute keeps its identity, carrier, amount, currency and lines, and its
    status either stays or moves from draft to sent, from sent (or in progress)
    to accepted, rejected or partial, and from those to closed, which is final. *)
Theorem dispute_status_machine s0 s s' d :
  disputes_ok (dispute_part s0) → dispute_reachable s0 s → dispute_step s s' → d ∈ disputes (dispute_part s) →
  ∃ d', d' ∈ disputes (dispute_part s') ∧ dispute_moved d d' ∧
    lines_of d' (dispute_part s') = lines_of d (dispute_part s) ∧ (di_status d = "closed" → d' = d).
Proof.
  intros H0 Hreach Hstep Hd. pose proof (dispute_reachable_ok s0 s H0 Hreach) as Hok.
  destruct (dispute_step_effect s s' Hok Hstep) as [c d0 vd ms rows _ _ _ Hnew _ _ Hds Hl|hit f Hf Hkeep Hds Hl].
  - exists d. rewrite Hds. split; [apply elem_of_app; by left|]. split; [unfold dispute_moved; auto 10|]. split; [|done].
    unfold lines_of. rewrite Hl, List.filter_app, (filter_none _ (map _ _)), app_nil_r; [done|].
    intros l (r & -> & _)%list_elem_of_fmap. rewrite andb_false_iff. right. apply bool_decide_eq_false. simpl. intros Hid.
    apply Hnew. rewrite Hid. by apply list_elem_of_fmap_2.
  - pose proof (update_where_keeps hit f _ d Hd) as Hin. rewrite <- Hds in Hin. unfold lines_of. rewrite Hl.
    destruct (hit d) eqn:Hh; [|exists d; split_and!; [exact Hin|unfold dispute_moved; auto 10|done|done]].
    destruct (Hf d Hd Hh) as [Hmv _]. exists (f d). destruct (Hkeep d) as (-> & -> & _). split_and!; [exact Hin|exact Hmv|done|].
    intros Hcl. destruct Hmv as (_ & _ & _ & _ & _ & [->|[Hedge _]]); [done|]. exfalso. rewrite Hcl in Hedge.
    unfold dispute_edges in Hedge. rewrite !elem_of_cons, elem_of_nil in Hedge.
    repeat destruct Hedge as [[=]|Hedge]. done.
Qed.

(** *** A finding is disputed once *)

Definition with_status (st : string) (r : DisputableFindingRow) : DisputableFindingRow :=
  mkDisputable (df_id r) st (df_carrierId r) (df_currency r) (df_varianceAmount r) (df_direction r).
Lemma candidate_queued c ids t l f : candidate_row c ids t (queued l f) =
  (λ r, if bool_decide (vf_id f ∈ l) then with_status "queued_for_dispute" r else r) <$> candidate_row c ids t f.
Proof.
  unfold queued. destruct (bool_decide (vf_id f ∈ l)); [|by destruct (candidate_row _ _ _ f)].
  unfold candidate_row. change (finding_carrier t (set_finding_status _ f)) with (finding_carrier t f). simpl.
  destruct (_ && _); [|done]. by destruct (finding_carrier t f).
Qed.

Lemma claimable_elem rows r : r ∈ claimable rows ↔ r ∈ rows ∧ df_direction r ≠ Some "UNDERCHARGE".
Proof.
  unfold claimable. by rewrite list_elem_of_In, List.filter_In, negb_true_iff, bool_decide_eq_false, <- list_elem_of_In.
Qed.

(** After a creation, exactly the findings it included are queued. *)
Lemma created_queued c ids a e s r s' : findings_ok s → visible e (pg_uuid c) = true →
  createDisputeFromFindings c ids a e s = Ok (r, s') →
  cd_findingIds r = map df_id (claimable (candidate_rows c ids s)) ∧ claimable (candidate_rows c ids s) ≠ [] ∧
  sources s' = sources s ∧ variance_findings (findings s') = map (queued (cd_findingIds r)) (variance_findings (findings s)).
Proof.
  intros Hok Hvis Hc. apply createDispute_spec in Hc as (v & ms & sf & Hv & _ & Hr & _ & _ & _ & _ & Hsrc & Hf & s1 & bs & Hs1 & Hloop);
    [|done].
  apply validate_spec in Hv as (Hne & _). rewrite Hr. simpl. split_and!; [done..|].
  rewrite Hf, <- Hs1. apply (include_all_findings c (cd_disputeId r) a _ e _ bs); [|exact Hloop].
  intros row [Hrow _]%claimable_elem. apply elem_of_candidates in Hrow as (f & Hin & Hrow).
  apply candidate_row_spec in Hrow as (-> & _ & _ & _ & _ & Hacc & Hid). split.
  - apply list_elem_of_fmap in Hid as (i & -> & _). apply pg_uuid_idem.
  - exists f. by rewrite Hs1, Hacc.
Qed.

Lemma fold_first_error rows : rows ≠ [] → (∀ r, r ∈ rows → df_status r ≠ "accepted") →
  fold_res (λ _ row, disputable_row row) () rows = Err (DisputableFindingsError "NOT_ACCEPTED").
Proof.
  destruct rows as [|r rows]; [done|]. intros _ Hst. rewrite fold_res_cons. 
  assert (disputable_row r = Err (DisputableFindingsError "NOT_ACCEPTED")) as ->; [|done].
  unfold disputable_row. rewrite (bool_decide_eq_false_2 (df_status r = _)); [done|]. apply Hst. by left.
Qed.

Lemma candidate_status c ids t f r : candidate_row c ids t f = Some r → ∀ ids', vf_id f ∈ map pg_uuid ids' →
  candidate_row c ids' t f = Some r.
Proof.
  unfold candidate_row. intros Hr ids' Hin. destruct (_ && _) eqn:E; [|done].
  apply andb_true_iff in E as [-> _]. by rewrite (bool_decide_eq_true_2 _ Hin).
Qed.

(** Whatever request names an included finding finds it queued. *)
Lemma included_row c ids a e s r s' ids' i : findings_ok s → visible e (pg_uuid c) = true →
  createDisputeFromFindings c ids a e s = Ok (r, s') → i ∈ cd_findingIds r → i ∈ map pg_uuid ids' →
  ∃ row, row ∈ claimable (candidate_rows c ids' s') ∧ df_status row = "queued_for_dispute".
Proof.
  intros Hok Hvis Hc Hi Hi'. destruct (created_queued _ _ _ _ _ _ _ Hok Hvis Hc) as (Hids & _ & Hsrc & Hfs).
  pose proof Hi as Hi2. rewrite Hids in Hi2. apply list_elem_of_fmap in Hi2 as (r0 & -> & [Hr0 Hdir]%claimable_elem).
  apply elem_of_candidates in Hr0 as (f & Hin & Hf). pose proof Hf as (Hid & _)%candidate_row_spec.
  exists (with_status "queued_for_dispute" r0). split; [|done]. apply claimable_elem. split; [|done].
  apply elem_of_candidates. exists (queued (cd_findingIds r) f). rewrite Hfs, Hsrc. split; [by apply list_elem_of_fmap_2|].
  rewrite candidate_queued, (candidate_status _ _ _ _ _ Hf ids') by (rewrite <- Hid; exact Hi'). simpl.
  rewrite bool_decide_eq_true_2; [done|]. rewrite <- Hid. exact Hi.
Qed.
Lemma retry_rows_queued c ids a e s r s' row : findings_ok s → visible e (pg_uuid c) = true →
  createDisputeFromFindings c ids a e s = Ok (r, s') → row ∈ claimable (candidate_rows c ids s') →
  df_status row = "queued_for_dispute".
Proof.
  intros Hok Hvis Hc [Hrow Hdir]%claimable_elem. destruct (created_queued _ _ _ _ _ _ _ Hok Hvis Hc) as (Hids & _ & Hsrc & Hfs).
  apply elem_of_candidates in Hrow as (f & Hin & Hrow).
  rewrite Hfs in Hin. apply list_elem_of_fmap in Hin as (f0 & -> & Hin). rewrite Hsrc, candidate_queued in Hrow.
  apply fmap_Some in Hrow as (r0 & Hr0 & ->). rewrite bool_decide_eq_true_2; [done|].
  rewrite Hids. pose proof Hr0 as (Hid & _)%candidate_row_spec. rewrite <- Hid. apply list_elem_of_fmap_2, claimable_elem.
  split; [apply elem_of_candidates; by exists f0|]. by case_match.
Qed.

(** A finding is disputed once: after a dispute has been created, the same
    request fails with NOT_ACCEPTED and writes nothing, and no request that names
    one of its findings succeeds, whoever makes it. *)
Theorem finding_disputed_once c ids a e s r s' :
  findings_ok s → visible e (pg_uuid c) = true → createDisputeFromFindings c ids a e s = Ok (r, s') →
  (∀ e', createDisputeFromFindings c ids a e' s' = Err (DisputableFindingsError "NOT_ACCEPTED")) ∧
  ∀ ids' a' e' x i, i ∈ cd_findingIds r → i ∈ map pg_uuid ids' → createDisputeFromFindings c ids' a' e' s' ≠ Ok x.
Proof.
  intros Hok Hvis Hc. split.
  - intros e'. destruct (created_queued _ _ _ _ _ _ _ Hok Hvis Hc) as (Hids & Hne & _).
    assert (claimable (candidate_rows c ids s') ≠ []) as Hne'.
    { destruct (claimable (candidate_rows c ids s)) as [|r0 l] eqn:E; [done|].
      assert (r0 ∈ claimable (candidate_rows c ids s)) as [(f & _ & Hf)%elem_of_candidates _]%claimable_elem by (rewrite E; by left).
      apply candidate_row_spec in Hf as (Hid & _ & _ & _ & _ & _ & Hin).
      destruct (included_row c ids a e s r s' ids (df_id r0) Hok Hvis Hc) as (row & Hrow & _);
        [rewrite Hids; by left|by rewrite Hid|]. intros Hnil. rewrite Hnil in Hrow. by apply elem_of_nil in Hrow. }
    pose proof (λ row, retry_rows_queued c ids a e s r s' row Hok Hvis Hc) as Hq.
    assert (zod_uuid c && forallb zod_uuid ids && (1 <=? length ids)%nat && (length ids <=? 500)%nat &&
      nullable zod_uuid a = true) as Hb by (clear -Hc; unfold createDisputeFromFindings in Hc; tx_inv; done).
    unfold createDisputeFromFindings. rewrite Hb. unfold mbind, tx_bind, query, check, mret, tx_ret, lift. cbn beta iota.
    unfold validateDisputableFindings. fold (claimable (candidate_rows c ids s')). cbv zeta.
    rewrite bool_decide_eq_false_2 by done. rewrite fold_first_error; [done|done|].
    intros row Hrow. by rewrite (Hq row Hrow).
  - intros ids' a' e' x i Hi Hi' Hc'. destruct (included_row c ids a e s r s' ids' i Hok Hvis Hc Hi Hi') as (row & Hrow & Hst).
    unfold createDisputeFromFindings in Hc'. tx_inv.
    match goal with Hv : validateDisputableFindings (candidate_rows c ids' _) = Ok _ |- _ => apply validate_spec in Hv as (_ & _ & Hrows & _) end.
    destruct (Hrows row Hrow) as (Hacc & _). by rewrite Hst in Hacc.
Qed.

(** *** Delivery is recorded once *)

Lemma recordOutbox_again c i m k p t e s r s' e' s2 : recordOutboxMessage c i m k p t e s = Ok (r, s') →
  workflow_part s2 = workflow_part s' → ∃ r', recordOutboxMessage c i m k p t e' s2 = Ok (r', use_uuid s2).
Proof.
  unfold recordOutboxMessage. intros Hr Hw. tx_inv. unfold id in *. id_inv.
  match goal with Hb : _ && _ = true, Hc : existsb (λ c, uuid_is (wc_account c) _ && _) _ = true |- _ =>
    rename Hb into Hsch; rename Hc into Hcmd end.
  set (clash := λ m0, uuid_is (om_account m0) c && bool_decide (om_dedupe_key m0 = trim k)) in *.
  assert (existsb clash (outbox (workflow_part s')) = true ∧ workflow_commands (workflow_part s') = workflow_commands (workflow_part s))
    as [Hclash Hcmds].
  { apply insert_on_conflict_spec in Ep as [(-> & -> & _)|(-> & -> & Hx)]; tx_inv; [|split; [by apply existsb_true|done]].
    id_inv. match goal with Hm : emit _ _ _ = _ |- _ => apply emit_frame in Hm as (_ & _ & _ & _ & _ & -> & _) end.
    split; [|done]. apply existsb_true. eexists. split; [apply elem_of_app; right; by left|].
    unfold clash, uuid_is. simpl. by rewrite !bool_decide_eq_true_2. }
  clear Hr. rewrite Hsch. unfold check, mbind, tx_bind, query, mret, tx_ret, new_uuid, ask. cbn beta iota.
  rewrite Hw, Hcmds, Hcmd. unfold insert_on_conflict. rewrite Hclash.
  destruct (select_one_existsb _ _ Hclash) as [x Hx]. rewrite Hx. by eexists.
Qed.

Lemma recordComm_again i dir body key e s r s' e' s2 : recordDisputeCommunication i dir body key e s = Ok (r, s') →
  scope e' = scope e → dispute_part s2 = dispute_part s' →
  ∃ r', recordDisputeCommunication i dir body key e' s2 = Ok (r', use_uuid s2).
Proof.
  intros Hr Hsc Hd. pose proof Hr as (Hds & _ & _ & _ & d & Hsel & Hc)%recordComm_spec.
  assert (existsb (same_comm (di_account d) (trim key)) (dispute_comms (dispute_part s')) = true) as Hclash.
  { destruct Hc as [(_ & _ & c & -> & Hx & _)|(_ & -> & Hx)]; apply existsb_true.
    - exists c. split; [apply elem_of_app; right; by left|done].
    - apply fmap_Some in Hx as (c & Hx%select_one_Some & _). eauto. }
  assert (zod_uuid i && trimmed_len 1 10000 body && trimmed_len 1 255 key = true) as Hsch
    by (clear -Hr; unfold recordDisputeCommunication in Hr; tx_inv; done).
  assert (select_one (dispute_row i e') (disputes (dispute_part s2)) = Some d) as Hsel'.
  { rewrite Hd, Hds, <- Hsel. unfold dispute_row, visible. by rewrite Hsc. }
  unfold recordDisputeCommunication, insert_on_conflict, check. rewrite Hsch.
  unfold mbind, tx_bind, query, mret, tx_ret, new_uuid, ask, the. cbn beta iota. unfold id.
  cbv zeta. rewrite Hsel'. unfold mret, tx_ret. cbn beta iota. rewrite Hd, Hclash.
  destruct (select_one_existsb _ _ Hclash) as [x Hx]. rewrite Hx. by eexists.
Qed.

(** Delivery is recorded once: however often the delivery command is run
    after it has succeeded (a retry after a crash, another worker), it succeeds
    again and adds nothing to the outbox, the communications log, the workflow
    tables or the audit ledger. *)
Theorem delivery_recorded_once ctx e s s' e' :
  handleDeliverDisputeCommand ctx e s = Ok ((), s') → scope e' = scope e →
  ∃ s2, handleDeliverDisputeCommand ctx e' s' = Ok ((), s2) ∧ workflow_part s2 = workflow_part s' ∧
    dispute_part s2 = dispute_part s' ∧ audit_log s2 = audit_log s' ∧ findings s2 = findings s' ∧ jobs s2 = jobs s'.
Proof.
  intros Hh Hsc. unfold handleDeliverDisputeCommand in *. destruct (map_get _ _) as [[| | | | |]|]; try done.
  tx_inv. match goal with Ho : recordOutboxMessage _ _ _ _ _ _ _ _ = _, Hr : recordDisputeCommunication _ _ _ _ _ _ = _ |- _ =>
    rename Ho into Hob; rename Hr into Hrc end.
  match type of Hrc with _ = Ok (_, ?x) => rename x into sf end.
  pose proof Hrc as (_ & _ & Hwf & _)%recordComm_spec.
  destruct (recordOutbox_again _ _ _ _ _ _ _ _ _ _ e' sf Hob Hwf) as [r1 Hr1].
  destruct (recordComm_again _ _ _ _ _ _ _ _ e' (use_uuid sf) Hrc Hsc eq_refl) as [r2 Hr2].
  exists (use_uuid (use_uuid sf)). split_and!; try done.
  match goal with Hb : negb _ = true |- _ => rewrite Hb end.
  unfold check, mbind, tx_bind, mret, tx_ret. cbn beta iota. by rewrite Hr1, Hr2.
Qed.
End steps.

(** ** The theorems at work *)

Section examples.
#[local] Existing Instances ExactDecimal.ops ExactDecimal.laws demo_sha demo_uuid demo_uuid_laws demo_zod.

(** Two accepted findings of 80.25 and 19.75 against one carrier. *)
Definition accepted_finding (n amount : Z) : variance_finding :=
  mkFinding (demo_id n) (demo_id 0) (demo_id 3) "accepted" (Some "OVERCHARGE") (Some amount) (Some "USD") None demo_basis.
Definition dispute_db : db :=
  mkDb {| accounts := []; invoices := [mkInvoiceRow (demo_id 5) (demo_id 0) (Some (demo_id 6)) None "210" None None "210-v1"];
          audit_runs := [mkRun (demo_id 3) (demo_id 0) (demo_id 5) "SCORED" None "v1"];
          charge_facts := []; gate_failures := [] |}
    (mkFindings [accepted_finding 7 802500; accepted_finding 8 197500] [] []) (mkDisputes [] [] []) (mkClaims [] []) []
    (mkEvaluations [] [] [] []) (mkWorkflow [] [] [] []) [] [] [] 0.
Definition dispute_env : env := mkEnv 1700000000000 (Some [demo_id 0]).
Definition dispute_id : string := demo_uuid 0%nat.

#[local] Abbreviation created := (createDisputeFromFindings (demo_id 0) [demo_id 7; demo_id 8] None dispute_env dispute_db).
Definition created_db : db := tx_state created dispute_db.
Definition created_value : CreateDisputeResult := mkCreatedDispute dispute_id [demo_id 7; demo_id 8] "100.0000" "USD".
Lemma created_ok : created = Ok (created_value, created_db).
Proof. apply (tx_ran created). vm_compute. reflexivity. Qed.
#[local] Abbreviation approved := (approveDispute dispute_id (demo_id 9) 1700000000000 dispute_env created_db).
Definition approved_db : db := tx_state approved created_db.
Lemma approved_ok : approved = Ok (true, approved_db).
Proof. apply (tx_ran approved). vm_compute. reflexivity. Qed.
#[local] Abbreviation part_paid := (partiallyAcceptDispute dispute_id (demo_id 9) "60.5" dispute_env approved_db).
Definition part_paid_db : db := tx_state part_paid approved_db.
Lemma part_paid_ok : part_paid = Ok (true, part_paid_db).
Proof. apply (tx_ran part_paid). vm_compute. reflexivity. Qed.

Lemma dispute_db_findings : findings_ok dispute_db.
Proof.
  split.
  - apply (bool_decide_unpack _). vm_compute. done.
  - intros f m. cbn [dispute_db findings variance_findings]. rewrite !elem_of_cons, elem_of_nil.
    intros [->|[->|[]]]; intros [= <-]; lia.
Qed.
Lemma dispute_db_ok : disputes_ok (dispute_part dispute_db).
Proof.
  split_and!; [apply NoDup_nil_2|intros d Hd; by apply elem_of_nil in Hd|intros l Hl; by apply elem_of_nil in Hl].
Qed.
Lemma part_paid_reachable : dispute_reachable dispute_db part_paid_db.
Proof.
  eapply dispute_next; [|eapply step_partial_dispute, part_paid_ok].
  eapply dispute_next; [|eapply step_approve_dispute, approved_ok].
  eapply dispute_next; [apply dispute_start|eapply step_create_dispute, created_ok]. apply dispute_db_findings.
Qed.
Definition part_paid_row : dispute :=
  mkDispute dispute_id (demo_id 0) (Some (demo_id 6)) "partial" (Some 1000000) (Some "USD") (Some 605000).
Lemma part_paid_rows : disputes (dispute_part part_paid_db) = [part_paid_row].
Proof. vm_compute. reflexivity. Qed.

Lemma dispute_amounts_exact_witness :
  di_amount_claimed part_paid_row = Some (line_total part_paid_row (dispute_part part_paid_db)) ∧
  605000 <= line_total part_paid_row (dispute_part part_paid_db).
Proof.
  destruct (dispute_amounts_exact dispute_db part_paid_db part_paid_row dispute_db_ok part_paid_reachable)
    as (_ & Hamt & _ & _ & Hacc).
  - rewrite part_paid_rows. by apply list_elem_of_singleton.
  - split; [exact Hamt|]. exact (proj1 (Hacc 605000 eq_refl)).
Defined.

#[local] Abbreviation closed := (closeDispute dispute_id (demo_id 9) dispute_env part_paid_db).
Definition closed_db : db := tx_state closed part_paid_db.
Lemma closed_ok : closed = Ok (true, closed_db).
Proof. apply (tx_ran closed). vm_compute. reflexivity. Qed.
Lemma dispute_status_machine_witness :
  ∃ d', d' ∈ disputes (dispute_part closed_db) ∧ dispute_moved part_paid_row d'.
Proof.
  destruct (dispute_status_machine dispute_db part_paid_db closed_db part_paid_row dispute_db_ok part_paid_reachable)
    as (d' & Hd' & Hm & _).
  - eapply step_close_dispute, closed_ok.
  - rewrite part_paid_rows. by apply list_elem_of_singleton.
  - by exists d'.
Defined.

Lemma finding_disputed_once_witness :
  createDisputeFromFindings (demo_id 0) [demo_id 7; demo_id 8] None dispute_env created_db =
  Err (DisputableFindingsError "NOT_ACCEPTED").
Proof.
  apply (finding_disputed_once (demo_id 0) [demo_id 7; demo_id 8] None dispute_env dispute_db created_value created_db).
  - apply dispute_db_findings.
  - reflexivity.
  - apply created_ok.
Defined.

Definition delivery_ctx : command_ctx :=
  mkCtx (demo_id 0) (demo_uuid 3%nat) (demo_uuid 4%nat) "deliver_dispute" [("disputeId", JString dispute_id)].
#[local] Abbreviation delivered := (handleDeliverDisputeCommand delivery_ctx dispute_env approved_db).
Definition delivered_db : db := tx_state delivered approved_db.
Lemma delivered_ok : delivered = Ok ((), delivered_db).
Proof. apply (tx_ran delivered). vm_compute. reflexivity. Qed.
Lemma delivery_recorded_once_witness :
  ∃ s2, handleDeliverDisputeCommand delivery_ctx (mkEnv 1700000060000 (Some [demo_id 0])) delivered_db = Ok ((), s2) ∧
    dispute_comms (dispute_part s2) = dispute_comms (dispute_part delivered_db).
Proof.
  destruct (delivery_recorded_once delivery_ctx dispute_env approved_db delivered_db (mkEnv 1700000060000 (Some [demo_id 0])))
    as (s2 & Hs2 & _ & Hd & _).
  - apply delivered_ok.
  - reflexivity.
  - exists s2. split; [exact Hs2|]. exact (f_equal dispute_comms Hd).
Defined.
End examples.
