(* ===== verification/Payments.v ===== *)
(** Payment gate decisions ([src/src/modules/payments/]): the composed do-not-pay
    and short-pay decisions, the hold by default, the analyst's authorization,
    escalation, the approval queue and the per-account policy.  The table is
    append-only; UNIQUE (account_id, audit_run_id, action). *)

From S2P Require Import Prelude JsText Decimal Json Store AuditLedger JsDate Database Tx Jobs Money.

(** ** Composition *)

Record DoNotPayDecision := mkDoNotPay { dn_rationale : string; dn_gateFailureIds : list string }.
Record ChargeFactRow := mkChargeFactRow { ch_amount : string; ch_currency : option string }.
Record AcceptedOverchargeFindingRow := mkOvercharge {
  ov_id : string; ov_currency : option string; ov_varianceAmount : option string;
}.
Record ShortPayDecision := mkShortPay {
  sp_amountToPay : string; sp_withheldAmount : string; sp_currency : string; sp_findingIds : list string;
}.
Definition ShortPayDecisionError : string → handler_error := Thrown "ShortPayDecisionError".

Section compose.
Context {D : DecimalJs} {C : Collator}.

Definition composeDoNotPayDecision (rows : list gate_failure) : result handler_error DoNotPayDecision :=
  _ ← guard_or (negb (bool_decide (map gf_id rows = []))) (Thrown "DoNotPayDecisionError" "NO_GATE_FAILURES");
  let sorted := js_sort (cmp_on gf_id localeCompare) rows in
  let rationale := join "; " (map (λ r, match gf_citation r with
    | None | Some "" => gf_defect r
    | Some citation => gf_defect r +:+ " (" +:+ citation +:+ ")"
    end) sorted) in
  Ok (mkDoNotPay rationale (map gf_id sorted)).

Definition composeShortPayDecision (chargeFacts : list ChargeFactRow)
    (acceptedOverchargeFindings : list AcceptedOverchargeFindingRow) : result handler_error ShortPayDecision :=
  _ ← guard_or (negb (bool_decide (map ov_id acceptedOverchargeFindings = []))) (ShortPayDecisionError "EMPTY_SET");
  _ ← guard_or (forallb (λ f, bool_decide (is_Some (ov_currency f)) && bool_decide (is_Some (ov_varianceAmount f)))
                  acceptedOverchargeFindings) (ShortPayDecisionError "MISSING_AMOUNT");
  _ ← guard_or (forallb (λ c, bool_decide (is_Some (ch_currency c))) chargeFacts) (ShortPayDecisionError "MISSING_AMOUNT");
  let currencies := set_of (map ch_currency chargeFacts ++ map ov_currency acceptedOverchargeFindings) in
  _ ← guard_or (length currencies <=? 1)%nat (ShortPayDecisionError "MIXED_CURRENCY");
  invoiceTotal ← sum_decimals (map ch_amount chargeFacts);
  let sorted := js_sort (cmp_on ov_id localeCompare) acceptedOverchargeFindings in
  withheld ← sum_decimals (map (λ f, default "" (ov_varianceAmount f)) sorted);
  _ ← guard_or (negb (d_gte withheld invoiceTotal)) (ShortPayDecisionError "WITHHELD_EXCEEDS_TOTAL");
  Ok (mkShortPay (d_toFixed 4 (d_minus invoiceTotal withheld)) (d_toFixed 4 withheld)
        (default "" (default None (head currencies))) (map ov_id sorted)).
End compose.

(** ** Reads and writes of the table *)

Definition run_of (clientId auditRunId : string) (r : audit_run) : bool :=
  uuid_is (ar_account r) clientId && uuid_is (ar_id r) auditRunId.
Definition decision_of (clientId auditRunId action : string) (d : payment_gate_decision) : bool :=
  uuid_is (pd_account d) clientId && uuid_is (pd_audit_run d) auditRunId && bool_decide (pd_action d = action).

Section payments.
Context {D : DecimalJs} {C : Collator} {H : Sha256} {U : UuidSource} {Z : Zod}.

(** [INSERT INTO payment_gate_decision ...]; the UNIQUE constraint refuses a
    second row of the same run and action. *)
Definition insert_decision (clientId invoiceId auditRunId action : string) (amount : option string)
    (currency : option string) (kind : ActorKind) (rationale : option string) : tx string :=
  e ← ask id;
  amount ← match amount with Some t => m ← numeric t; mret (Some m) | None => mret None end;
  rowId ← new_uuid;
  rows ← query payment_gate_decisions;
  _ ← check (negb (existsb (decision_of clientId auditRunId action) rows))
        (ConstraintFailed "payment_gate_decision_run_action_uk");
  _ ← check (currency_check currency) (ConstraintFailed "payment_gate_decision_currency_format_chk");
  _ ← primary_key (map pd_id rows) rowId;
  _ ← modify (upd_payments (λ l, l ++ [{| pd_id := rowId; pd_account := pg_uuid clientId; pd_invoice := invoiceId;
        pd_audit_run := pg_uuid auditRunId; pd_action := action; pd_amount := amount; pd_currency := currency;
        pd_actor_kind := kind; pd_rationale := rationale; pd_recorded_at := now e |}]));
  mret rowId.

(** ** Decisions *)

Inductive PaymentAuthorizationAction : Set := approve | hold.
Definition PAYMENT_AUTHORIZATION_ACTIONS (a : PaymentAuthorizationAction) : string :=
  match a with approve => "approve" | hold => "hold" end.

Record authorize_input := mkAuthorize {
  az_clientId : string; az_auditRunId : string; az_action : PaymentAuthorizationAction;
  az_rationale : option string; az_actorUserId : string;
}.
Definition authorize_input_ok (i : authorize_input) : bool :=
  zod_uuid (az_clientId i) && zod_uuid (az_auditRunId i) && nullable (trimmed_len 1 2000) (az_rationale i) &&
  zod_uuid (az_actorUserId i).

Definition authorizePayment (input : authorize_input) : tx (string * PaymentAuthorizationAction * bool) :=
  _ ← check (authorize_input_ok input) SchemaRejected;
  let clientId := az_clientId input in
  let auditRunId := az_auditRunId input in
  let action := PAYMENT_AUTHORIZATION_ACTIONS (az_action input) in
  let rationale := trim <$> az_rationale input in
  run ← query (λ s, select_one (run_of clientId auditRunId) (audit_runs (sources s)));
  run ← the run (Thrown "AuthorizePaymentError" "AUDIT_RUN_NOT_FOUND");
  existing ← query (λ s, select_one (decision_of clientId auditRunId action) (payment_gate_decisions s));
  match existing with
  | Some d => mret (pd_id d, az_action input, false)
  | None =>
      decisionId ← insert_decision clientId (ar_invoice run) auditRunId action None None ActorAnalyst rationale;
      _ ← emit (audit_event (deterministicAuditEventId [clientId; decisionId; "payment-authorization"])
             clientId "payment_gate_decision" decisionId "payment_authorized" ActorAnalyst
             (Some (az_actorUserId input))
             [("auditRunId", JString auditRunId); ("action", JString action); ("rationale", json_opt rationale)]);
      mret (decisionId, az_action input, true)
  end.

Definition generateDoNotPayDecision (clientId auditRunId : string) : tx (string * DoNotPayDecision) :=
  _ ← check (zod_uuid clientId && zod_uuid auditRunId) SchemaRejected;
  s ← query id;
  run ← the (select_one (λ r, run_of clientId auditRunId r && bool_decide (ar_outcome r = "REJECTED_REWORK"))
               (audit_runs (sources s))) (Thrown "GenerateDoNotPayError" "AUDIT_RUN_NOT_GATE_FAILED");
  decision ← lift (composeDoNotPayDecision
    (List.filter (λ g, uuid_is (gf_account g) clientId && uuid_is (gf_audit_run g) auditRunId) (gate_failures (sources s))));
  let same := decision_of clientId auditRunId "do_not_pay" in
  decisionId ← (if existsb same (payment_gate_decisions s)
                then query (λ s, pd_id <$> select_one same (payment_gate_decisions s))
                else i ← insert_decision clientId (ar_invoice run) auditRunId "do_not_pay" None None ActorSystem
                           (Some (dn_rationale decision)); mret (Some i));
  decisionId ← the decisionId (Thrown "GenerateDoNotPayError" "DECISION_CONFLICT");
  _ ← emit (audit_event (deterministicAuditEventId [clientId; auditRunId; "do-not-pay-decision"])
         clientId "payment_gate_decision" decisionId "do_not_pay_generated" ActorSystem None
         [("auditRunId", JString auditRunId); ("gateFailureIds", JArray (map JString (dn_gateFailureIds decision)));
          ("rationale", JString (dn_rationale decision))]);
  mret (decisionId, decision).

Definition HOLD_RATIONALE : string :=
  "Held by default pending analyst payment authorization (hold-then-approve).".
Definition generateHoldDecision (clientId auditRunId : string) (holdThenApprove : bool) : tx (option string * bool) :=
  _ ← check (zod_uuid clientId && zod_uuid auditRunId) SchemaRejected;
  if negb holdThenApprove then mret (None, false) else
  run ← query (λ s, select_one (λ r, run_of clientId auditRunId r && bool_decide (ar_outcome r = "SCORED"))
                      (audit_runs (sources s)));
  run ← the run (Thrown "GenerateHoldDecisionError" "AUDIT_RUN_NOT_SCORED");
  existing ← query (λ s, select_one (decision_of clientId auditRunId "hold") (payment_gate_decisions s));
  match existing with
  | Some d => mret (Some (pd_id d), false)
  | None =>
      decisionId ← insert_decision clientId (ar_invoice run) auditRunId "hold" None None ActorSystem (Some HOLD_RATIONALE);
      _ ← emit (audit_event (deterministicAuditEventId [clientId; auditRunId; "hold-decision"])
             clientId "payment_gate_decision" decisionId "hold_generated" ActorSystem None
             [("auditRunId", JString auditRunId)]);
      mret (Some decisionId, true)
  end.

Record ShortPayDecisionResult := mkShortPayResult {
  sr_decisionId : option string; sr_amountToPay : option string; sr_currency : option string;
  sr_findingIds : list string; sr_created : bool;
}.
(** The invoice's charges, and the run's accepted overcharge findings. *)
Definition billed (clientId invoiceId : string) (s : db) : list charge_fact :=
  List.filter (λ c, uuid_is (cf_account c) clientId && bool_decide (cf_invoice c = invoiceId)) (charge_facts (sources s)).
Definition accepted_overcharges (clientId auditRunId : string) (s : db) : list variance_finding :=
  List.filter (λ f, uuid_is (vf_account f) clientId && uuid_is (vf_audit_run f) auditRunId &&
                    bool_decide (vf_direction f = Some "OVERCHARGE") && bool_decide (vf_status f = "accepted"))
    (variance_findings (findings s)).
Definition charge_row (c : charge_fact) : ChargeFactRow := mkChargeFactRow (numeric_text (cf_amount c)) (cf_currency c).
Definition overcharge_row (f : variance_finding) : AcceptedOverchargeFindingRow :=
  mkOvercharge (vf_id f) (vf_currency f) (numeric_text <$> vf_variance_amount f).

Definition generateShortPayDecision (clientId auditRunId : string) (shortPayEnabled : bool) : tx ShortPayDecisionResult :=
  _ ← check (zod_uuid clientId && zod_uuid auditRunId) SchemaRejected;
  if negb shortPayEnabled then mret (mkShortPayResult None None None [] false) else
  run ← query (λ s, select_one (λ r, run_of clientId auditRunId r && bool_decide (ar_outcome r = "SCORED"))
                      (audit_runs (sources s)));
  run ← the run (Thrown "GenerateShortPayError" "AUDIT_RUN_NOT_SCORED");
  existing ← query (λ s, select_one (decision_of clientId auditRunId "short_pay") (payment_gate_decisions s));
  match existing with
  | Some d => mret (mkShortPayResult (Some (pd_id d)) (numeric_text <$> pd_amount d) (pd_currency d) [] false)
  | None =>
      s ← query id;
      decision ← lift (composeShortPayDecision (map charge_row (billed clientId (ar_invoice run) s))
        (map overcharge_row (accepted_overcharges clientId auditRunId s)));
      decisionId ← insert_decision clientId (ar_invoice run) auditRunId "short_pay" (Some (sp_amountToPay decision))
        (Some (sp_currency decision)) ActorSystem
        (Some ("Short-paid: withheld " +:+ sp_withheldAmount decision +:+ " " +:+ sp_currency decision +:+
               " for accepted overcharge findings."));
      _ ← emit (audit_event (deterministicAuditEventId [clientId; auditRunId; "short-pay-decision"])
             clientId "payment_gate_decision" decisionId "short_pay_generated" ActorSystem None
             [("auditRunId", JString auditRunId); ("amountToPay", JString (sp_amountToPay decision));
              ("withheldAmount", JString (sp_withheldAmount decision));
              ("findingIds", JArray (map JString (sp_findingIds decision)))]);
      mret (mkShortPayResult (Some decisionId) (Some (sp_amountToPay decision)) (Some (sp_currency decision))
              (sp_findingIds decision) true)
  end.

(** ** Escalation and the approval queue *)

(** The newest of the decisions: [ORDER BY recorded_at DESC LIMIT 1]. *)
Definition newest (l : list payment_gate_decision) : option payment_gate_decision :=
  head (js_sort (cmp_flip (cmp_on pd_recorded_at BinInt.Z.compare)) l).

Definition DEFAULT_GRACE_PERIOD_DAYS : BinInt.Z := 7.
Definition generatePaymentEscalation (clientId auditRunId : string) (at_ gracePeriodDays : BinInt.Z) :
    tx (string * string * bool) :=
  let error code := Thrown "GeneratePaymentEscalationError" code in
  rows ← query payment_gate_decisions;
  hold ← the (newest (List.filter (decision_of clientId auditRunId "hold") rows)) (error "NO_HOLD_DECISION");
  _ ← check (negb (existsb (decision_of clientId auditRunId "approve") rows)) (error "ALREADY_APPROVED");
  _ ← check (add_utc_days (pd_recorded_at hold) gracePeriodDays <=? at_) (error "GRACE_PERIOD_NOT_ELAPSED");
  let auditEventId := deterministicAuditEventId [clientId; auditRunId; "payment_gate.escalated"] in
  created ← emit (audit_event auditEventId clientId "payment_gate_decision" auditRunId "payment_gate.escalated" ActorSystem
    None [("auditRunId", JString auditRunId); ("holdRecordedAt", JString (toISOString (pd_recorded_at hold)));
          ("gracePeriodDays", json_int gracePeriodDays)]);
  mret (auditRunId, auditEventId, created).

Definition DEFAULT_LIMIT : nat := 50.
Record PendingPaymentAuthorizationRow := mkPending {
  pp_auditRunId : string; pp_invoiceId : string; pp_heldAt : BinInt.Z; pp_rationale : option string;
}.
Definition resolving_actions : list string := ["approve"; "short_pay"; "do_not_pay"].
(** The held runs the caller may see that no other decision has resolved, oldest
    first; the invoice and carrier columns are not modelled. *)
Definition pending_holds (e : env) (s : db) : list PendingPaymentAuthorizationRow :=
  let shown := List.filter (λ d, visible e (pd_account d)) (payment_gate_decisions s) in
  map (λ d, mkPending (pd_audit_run d.1) (ar_invoice d.2) (pd_recorded_at d.1) (pd_rationale d.1))
    (js_sort (cmp_then (cmp_on (λ d, pd_recorded_at d.1) BinInt.Z.compare) (cmp_on (λ d, pd_audit_run d.1) code_unit_compare))
       (omap (λ hold,
          if bool_decide (pd_action hold = "hold") &&
             negb (existsb (λ r, bool_decide (pd_audit_run r = pd_audit_run hold) &&
                                 bool_decide (pd_action r ∈ resolving_actions)) shown)
          then run ← select_one (λ r, bool_decide (ar_id r = pd_audit_run hold) && visible e (ar_account r)) (audit_runs (sources s));
               _ ← select_one (λ i, bool_decide (inv_id i = ar_invoice run) && visible e (inv_account i)) (invoices (sources s));
               Some (hold, run)
          else None) shown)).
Definition listPendingPaymentAuthorizations (limit offset : option nat) : tx (list PendingPaymentAuthorizationRow) :=
  e ← ask id;
  query (λ s, take (default DEFAULT_LIMIT limit) (drop (default 0%nat offset) (pending_holds e s))).

(** ** The policy *)

Record PaymentPolicyConfig := mkPolicy {
  pc_clientId : string; pc_holdThenApprove : bool; pc_shortPayEnabled : bool; pc_approvalExpiryHours : BinInt.Z;
  pc_configuredBy : string;
}.
Definition DEFAULT_PAYMENT_POLICY : bool * bool * BinInt.Z := (true, false, 72).
Definition parsePaymentPolicyConfig (c : PaymentPolicyConfig) : result handler_error PaymentPolicyConfig :=
  _ ← guard_or (zod_uuid (pc_clientId c) && (0 <? pc_approvalExpiryHours c) && (pc_approvalExpiryHours c <=? 24 * 30) &&
                zod_uuid (pc_configuredBy c)) (Thrown "PaymentPolicyValidationError" "PAYMENT_POLICY_INVALID");
  Ok c.

(** The policy table, one row per account.  An update keeps who configured the
    account first. *)
Definition upsertPaymentPolicy (untrusted : PaymentPolicyConfig) (table : list PaymentPolicyConfig) :
    result handler_error (PaymentPolicyConfig * list PaymentPolicyConfig) :=
  input ← parsePaymentPolicyConfig untrusted;
  let same r := bool_decide (pc_clientId r = pg_uuid (pc_clientId input)) in
  let row := mkPolicy (pg_uuid (pc_clientId input)) (pc_holdThenApprove input) (pc_shortPayEnabled input)
               (pc_approvalExpiryHours input) (pg_uuid (pc_configuredBy input)) in
  let '(inserted, table') := insert_on_conflict same row table in
  Ok (input, if inserted then table' else
        update_where same (λ r, mkPolicy (pc_clientId r) (pc_holdThenApprove input) (pc_shortPayEnabled input)
                                  (pc_approvalExpiryHours input) (pc_configuredBy r)) table').
End payments.
