(* ===== verification/PaymentsSafety.v ===== *)
(** What the payment handlers of [Payments.v] guarantee: exact short payments,
    one decision per run and action, and no approval without an analyst. *)

From S2P Require Import Prelude JsText Decimal Json Store AuditLedger JsDate Database Tx Jobs Money Payments.

Section compose.
Context {D : DecimalJs} {L : DecimalLaws D} {C : Collator}.

Definition overcharge_amount (f : variance_finding) : Z := default 0 (vf_variance_amount f).

(** The texts of the rows add up exactly. *)
Lemma charge_texts l : map ch_amount (map charge_row l) = map numeric_text (map cf_amount l).
Proof. by rewrite !map_map. Qed.

Lemma sorted_amounts l : forallb (λ f, bool_decide (is_Some (ov_currency f)) && bool_decide (is_Some (ov_varianceAmount f)))
    (map overcharge_row l) = true →
  ∃ ms, map (λ f, default "" (ov_varianceAmount f)) (js_sort (cmp_on ov_id localeCompare) (map overcharge_row l)) =
        map numeric_text ms ∧ ms ≡ₚ map overcharge_amount l.
Proof.
  intros Hall. pose proof (js_sort_perm (cmp_on ov_id localeCompare) (map overcharge_row l)) as Hp.
  assert (map (λ f, default "" (ov_varianceAmount f)) (map overcharge_row l) = map numeric_text (map overcharge_amount l)) as Heq.
  { rewrite !map_map. apply map_ext_in. intros f Hf.
    assert (∀ r, r ∈ map overcharge_row l → is_Some (ov_varianceAmount r)) as Hs.
    { intros r Hr. rewrite forallb_forall in Hall. apply list_elem_of_In, Hall, andb_true_iff in Hr as [_ Hr].
      by apply bool_decide_eq_true in Hr. }
    destruct (Hs (overcharge_row f)) as [x Hx]; [apply list_elem_of_fmap_2; by apply list_elem_of_In|].
    simpl in *. apply fmap_Some in Hx as (m & Hm & _). unfold overcharge_amount. by rewrite Hm. }
  pose proof (Permutation_map (λ f, default "" (ov_varianceAmount f)) Hp) as Hq. rewrite Heq in Hq.
  apply Permutation_map_inv in Hq as (ms & Hms & Hperm). exists ms. by split.
Qed.

(** A composed short payment is exact, positive and in one currency. *)
Lemma composeShortPay_exact charges fs d :
  composeShortPayDecision (map charge_row charges) (map overcharge_row fs) = Ok d →
  zsum_by (λ c, Z.abs (cf_amount c)) charges + zsum_by (λ f, Z.abs (overcharge_amount f)) fs < 10 ^ 20 →
  let total := zsum_by cf_amount charges in let withheld := zsum_by overcharge_amount fs in
  sp_amountToPay d = numeric_text (total - withheld) ∧ sp_withheldAmount d = numeric_text withheld ∧
  withheld < total ∧ fs ≠ [] ∧
  (∀ c, c ∈ charges → cf_currency c = Some (sp_currency d)) ∧ (∀ f, f ∈ fs → vf_currency f = Some (sp_currency d)).
Proof.
  unfold composeShortPayDecision. intros Hc Hb. res_inv. rewrite ?guard_or_Ok in *. cbv zeta.
  destruct (sum_decimals_exact (map cf_amount charges)) as (dt & Hdt & Ht).
  { rewrite map_map. pose proof (zsum_by_nonneg (λ f, Z.abs (overcharge_amount f)) fs ltac:(intros; lia)).
    unfold zsum_by in *. lia. }
  destruct (sorted_amounts fs Hb1) as (ms & Hms & Hperm).
  assert (zsum (map Z.abs ms) = zsum_by (λ f, Z.abs (overcharge_amount f)) fs) as Habs.
  { rewrite (zsum_perm _ _ (Permutation_map Z.abs Hperm)), map_map. done. }
  assert (zsum ms = zsum_by overcharge_amount fs) as Hsum by apply (zsum_perm _ _ Hperm).
  pose proof (zsum_by_nonneg (λ c, Z.abs (cf_amount c)) charges ltac:(intros; lia)) as Hn1.
  destruct (sum_decimals_exact ms) as (dw & Hdw & Hw); [lia|]. rewrite Hsum in Hw.
  rewrite charge_texts in Hb4. rewrite Hms in Hb5. assert (x3 = dt) as -> by congruence. assert (x4 = dw) as -> by congruence.
  change (zsum (map cf_amount charges)) with (zsum_by cf_amount charges) in Ht.
  rewrite (money_gte dw dt _ _ Hw Ht), negb_true_iff, Z.leb_gt in Hb6. cbn [sp_amountToPay sp_withheldAmount sp_currency].
  assert (∀ k, k ∈ map ch_currency (map charge_row charges) ++ map ov_currency (map overcharge_row fs) → is_Some k →
    k = Some (default "" (default None (head (set_of (map ch_currency (map charge_row charges) ++
      map ov_currency (map overcharge_row fs))))))) as Hone.
  { intros k Hk [y ->]. apply Nat.leb_le in Hb3. by rewrite (single_value _ _ Hb3 Hk). }
  rewrite !forallb_forall in *. split_and!.
  - apply (money_fixed _ (zsum_by cf_amount charges - zsum_by overcharge_amount fs)). apply money_minus; [done..|].
    pose proof (zsum_by_triangle cf_amount charges). pose proof (zsum_by_triangle overcharge_amount fs). lia.
  - by apply money_fixed.
  - done.
  - intros ->. done.
  - intros c Hin. apply Hone.
    + apply elem_of_app. left. rewrite map_map. by apply (list_elem_of_fmap_2 (λ c, cf_currency c)).
    + specialize (Hb2 (charge_row c)). rewrite bool_decide_eq_true in Hb2. apply Hb2, in_map. by apply list_elem_of_In.
  - intros f Hin. apply Hone.
    + apply elem_of_app. right. rewrite map_map. by apply (list_elem_of_fmap_2 (λ f, vf_currency f)).
    + specialize (Hb1 (overcharge_row f)). rewrite andb_true_iff, !bool_decide_eq_true in Hb1.
      apply Hb1, in_map. by apply list_elem_of_In.
Qed.
End compose.

(** ** The table *)

Definition decision_key (d : payment_gate_decision) : string * string * string :=
  (pd_account d, pd_audit_run d, pd_action d).
Definition decision_actions : list string := ["approve"; "hold"; "short_pay"; "do_not_pay"].

(** One row per run and action; an approval is an analyst's and the ledger says
    whose; a short payment has a positive amount; the other decisions have none. *)
Definition decision_ok (log : ledger) (d : payment_gate_decision) : Prop :=
  pd_action d ∈ decision_actions ∧ pg_uuid (pd_account d) = pd_account d ∧ pg_uuid (pd_audit_run d) = pd_audit_run d ∧
  (pd_action d = "approve" → pd_actor_kind d = ActorAnalyst ∧ ∃ x actor, x ∈ log ∧
     ae_entity x = "payment_gate_decision" ∧ ae_entityId x = Some (pd_id d) ∧ ae_clientId x = Some (pd_account d) ∧
     ae_event x = "payment_authorized" ∧ ae_actorKind x = ActorAnalyst ∧ ae_actorUserId x = Some actor) ∧
  (pd_action d = "short_pay" → ∃ m, pd_amount d = Some m ∧ 0 < m) ∧ (pd_action d ≠ "short_pay" → pd_amount d = None).
Definition payments_ok (s : db) : Prop :=
  NoDup (map decision_key (payment_gate_decisions s)) ∧ NoDup (map pd_id (payment_gate_decisions s)) ∧
  ∀ d, d ∈ payment_gate_decisions s → decision_ok (audit_log s) d.

(** The charges and findings a short payment adds up stay within 20 digits. *)
Definition short_pay_in_range (clientId auditRunId : string) (s : db) : Prop :=
  ∀ invoiceId, zsum_by (λ c, Z.abs (cf_amount c)) (billed clientId invoiceId s) +
    zsum_by (λ f, Z.abs (overcharge_amount f)) (accepted_overcharges clientId auditRunId s) < 10 ^ 20.

Section handlers.
Context {D : DecimalJs} {L : DecimalLaws D} {C : Collator} {H : Sha256} {U : UuidSource} {UL : UuidSourceLaws U} {W : Zod}.

Lemma insert_decision_spec c i r action amount cur kind rationale e s rowId s' :
  insert_decision c i r action amount cur kind rationale e s = Ok (rowId, s') →
  existsb (decision_of c r action) (payment_gate_decisions s) = false ∧
  (rowId ∉ map pd_id (payment_gate_decisions s)) ∧ pg_uuid rowId = rowId ∧
  ∃ m, (match amount with Some t => m = money_units t ∧ is_Some m | None => m = None end) ∧
    s' = upd_payments (λ l, l ++ [{| pd_id := rowId; pd_account := pg_uuid c; pd_invoice := i; pd_audit_run := pg_uuid r;
      pd_action := action; pd_amount := m; pd_currency := cur; pd_actor_kind := kind; pd_rationale := rationale;
      pd_recorded_at := now e |}]) (use_uuid s).
Proof.
  unfold insert_decision. intros Hi. tx_inv. id_inv. unfold id in *.
  match goal with Hb : negb _ = true |- _ => apply negb_true_iff in Hb; rename Hb into Hno end.
  destruct amount as [t|]; tx_inv.
  - match goal with Hn : numeric _ _ _ = _ |- _ => apply numeric_Ok in Hn as (m & Hm & _ & [= -> ->]) end.
    split_and!; [done|done|by apply gen_random_uuid_lower|]. exists (Some m). split; [by rewrite Hm|done].
  - split_and!; [done|done|by apply gen_random_uuid_lower|]. exists None. done.
Qed.

(** A new row keeps the table's constraints. *)
Lemma add_decision_ok s s' d : payments_ok s → payment_gate_decisions s' = payment_gate_decisions s ++ [d] →
  (∀ x, x ∈ audit_log s → x ∈ audit_log s') → (pd_id d ∉ map pd_id (payment_gate_decisions s)) →
  (decision_key d ∉ map decision_key (payment_gate_decisions s)) → decision_ok (audit_log s') d → payments_ok s'.
Proof.
  intros (Hk & Hi & Hd) Hrows Hlog Hid Hkey Hnew. unfold payments_ok. rewrite Hrows, !map_app. split_and!.
  - apply NoDup_app. split; [done|]. split; [|apply NoDup_singleton]. intros k Hin ->%list_elem_of_singleton. done.
  - apply NoDup_app. split; [done|]. split; [|apply NoDup_singleton]. intros k Hin ->%list_elem_of_singleton. done.
  - intros d0 [Hd0| ->%list_elem_of_singleton]%elem_of_app; [|done].
    destruct (Hd d0 Hd0) as (H1 & H2 & H3 & H4 & H5). split_and!; [done..| |apply H5|apply H5].
    intros Ha. destruct (H4 Ha) as (Hkind & x & actor & Hx & Hrest). split; [done|]. exists x, actor. split; [by apply Hlog|done].
Qed.
Lemma decision_of_key c r action l : existsb (decision_of c r action) l = false →
  (pg_uuid c, pg_uuid r, action) ∉ map decision_key l.
Proof.
  intros He (d & Hd & Hin)%list_elem_of_fmap. rewrite existsb_false in He. specialize (He d Hin).
  unfold decision_key in Hd. injection Hd as H1 H2 H3. unfold decision_of, uuid_is in He.
  by rewrite <- H1, <- H2, <- H3, !bool_decide_eq_true_2 in He.
Qed.

(** What a payment handler commits: ledger entries, and at most one decision. *)
Inductive payment_effect (s s' : db) : Prop :=
  | no_decision : payment_gate_decisions s' = payment_gate_decisions s →
      (∀ x, x ∈ audit_log s → x ∈ audit_log s') → payment_effect s s'
  | one_decision d : payment_gate_decisions s' = payment_gate_decisions s ++ [d] →
      (∀ x, x ∈ audit_log s → x ∈ audit_log s') → (pd_id d ∉ map pd_id (payment_gate_decisions s)) →
      (decision_key d ∉ map decision_key (payment_gate_decisions s)) → decision_ok (audit_log s') d → payment_effect s s'.

Lemma payment_effect_ok s s' : payments_ok s → payment_effect s s' → payments_ok s'.
Proof.
  intros Hok [Hrows Hlog|d Hrows Hlog Hid Hkey Hd]; [|by eapply add_decision_ok].
  destruct Hok as (Hk & Hi & Hall). unfold payments_ok. rewrite Hrows. split_and!; [done..|].
  intros d Hd. destruct (Hall d Hd) as (H1 & H2 & H3 & H4 & H5). split_and!; [done..| |apply H5|apply H5].
  intros Ha. destruct (H4 Ha) as (Hkind & x & actor & Hx & Hrest). split; [done|]. exists x, actor. split; [by apply Hlog|done].
Qed.

(** Inserting a row and writing its event; [mk] says why the row is well-formed. *)
Lemma decide_effect c i r action amount cur kind rationale e s rowId s1 aid eid event k actor detail b s' :
  insert_decision c i r action amount cur kind rationale e s = Ok (rowId, s1) →
  emit (audit_event aid c "payment_gate_decision" eid event k actor detail) e s1 = Ok (b, s') →
  action ∈ decision_actions →
  (action = "approve" → kind = ActorAnalyst ∧ eid = rowId ∧ event = "payment_authorized" ∧ k = ActorAnalyst ∧ is_Some actor) →
  (action = "short_pay" → ∃ t m, amount = Some t ∧ money_units t = Some m ∧ 0 < m) →
  (action ≠ "short_pay" → amount = None) → payment_effect s s'.
Proof.
  intros Hins Hem Hact Happ Hsp Hother.
  apply insert_decision_spec in Hins as (Hno & Hfresh & Hlow & m & Hm & ->).
  pose proof (emit_frame _ _ _ _ _ Hem) as (_ & _ & _ & _ & Hrows & _).
  apply emit_event in Hem as (x & Hxc & Hxe & Hxi & Hxn & Hxk & Hxa & Hx).
  eapply one_decision; [rewrite Hrows; done| |exact Hfresh| |].
  - intros y Hy. apply Hx. by left.
  - by apply decision_of_key.
  - split_and!; simpl; [done|apply pg_uuid_idem|apply pg_uuid_idem| | |].
    + intros Ha. destruct (Happ Ha) as (-> & -> & -> & -> & [u ->]). split; [done|].
      exists x, (pg_uuid u). rewrite Hxi, Hxc, Hlow. split_and!; try done. apply Hx. by right.
    + intros Ha. destruct (Hsp Ha) as (t & m' & -> & Ht & Hpos). destruct Hm as [-> _]. eauto.
    + intros Ha. rewrite (Hother Ha) in Hm. done.
Qed.

Ltac no_case := let H := fresh in intros H; discriminate H.

Lemma authorize_effect i e s r s' : authorizePayment i e s = Ok (r, s') → payment_effect s s'.
Proof.
  unfold authorizePayment. intros Ha. tx_inv. case_match; tx_inv; [by apply no_decision|].
  match goal with Hi : insert_decision _ _ _ _ _ _ _ _ _ _ = _, Hm : emit _ _ _ = _ |- _ =>
    eapply (decide_effect _ _ _ _ _ _ _ _ _ _ _ _ _ _ _ _ _ _ _ _ Hi Hm) end.
  - unfold decision_actions. destruct (az_action i); simpl; [by left|right; by left].
  - intros _. split_and!; done.
  - destruct (az_action i); no_case.
  - done.
Qed.
Lemma hold_effect c r b e s x s' : generateHoldDecision c r b e s = Ok (x, s') → payment_effect s s'.
Proof.
  unfold generateHoldDecision. intros Ha. tx_inv. destruct (negb b); tx_inv; [by apply no_decision|].
  case_match; tx_inv; [by apply no_decision|].
  match goal with Hi : insert_decision _ _ _ _ _ _ _ _ _ _ = _, Hm : emit _ _ _ = _ |- _ =>
    eapply (decide_effect _ _ _ _ _ _ _ _ _ _ _ _ _ _ _ _ _ _ _ _ Hi Hm) end; [right; by left|no_case|no_case|done].
Qed.
Lemma do_not_pay_effect c r e s x s' : generateDoNotPayDecision c r e s = Ok (x, s') → payment_effect s s'.
Proof.
  unfold generateDoNotPayDecision. intros Ha. tx_inv. unfold id in *. destruct (existsb _ _) eqn:E; tx_inv.
  - match goal with Hm : emit _ _ _ = _ |- _ => pose proof (emit_frame _ _ _ _ _ Hm) as (_ & _ & _ & _ & Hr & _);
      apply emit_event in Hm as (y & _ & _ & _ & _ & _ & _ & Hy) end.
    apply no_decision; [done|]. intros z Hz. apply Hy. by left.
  - match goal with Hi : insert_decision _ _ _ _ _ _ _ _ _ _ = _, Hm : emit _ _ _ = _ |- _ =>
      eapply (decide_effect _ _ _ _ _ _ _ _ _ _ _ _ _ _ _ _ _ _ _ _ Hi Hm) end;
      [unfold decision_actions; rewrite !elem_of_cons; auto 10|no_case|no_case|done].
Qed.
Lemma escalation_effect c r at_ g e s x s' : generatePaymentEscalation c r at_ g e s = Ok (x, s') →
  payment_effect s s' ∧ payment_gate_decisions s' = payment_gate_decisions s.
Proof.
  unfold generatePaymentEscalation. intros Ha. tx_inv.
  match goal with Hm : emit _ _ _ = _ |- _ => pose proof (emit_frame _ _ _ _ _ Hm) as (_ & _ & _ & _ & Hr & _);
    apply emit_event in Hm as (y & _ & _ & _ & _ & _ & _ & Hy) end.
  split; [|done]. apply no_decision; [done|]. intros z Hz. apply Hy. by left.
Qed.

(** The figures of a short payment. *)
Definition invoice_total (c invoiceId : string) (s : db) : Z := zsum_by cf_amount (billed c invoiceId s).
Definition withheld_total (c r : string) (s : db) : Z := zsum_by overcharge_amount (accepted_overcharges c r s).

Lemma short_pay_spec c r enabled e s x s' : short_pay_in_range c r s →
  generateShortPayDecision c r enabled e s = Ok (x, s') →
  (sr_created x = false ∧ s' = s) ∨
  (sr_created x = true ∧ ∃ run cur rationale rowId s1,
    run ∈ audit_runs (sources s) ∧ run_of c r run = true ∧ ar_outcome run = "SCORED" ∧
    withheld_total c r s < invoice_total c (ar_invoice run) s ∧ accepted_overcharges c r s ≠ [] ∧
    (∀ ch, ch ∈ billed c (ar_invoice run) s → cf_currency ch = Some cur) ∧
    (∀ f, f ∈ accepted_overcharges c r s → vf_currency f = Some cur) ∧
    insert_decision c (ar_invoice run) r "short_pay"
      (Some (numeric_text (invoice_total c (ar_invoice run) s - withheld_total c r s))) (Some cur) ActorSystem
      (Some rationale) e s = Ok (rowId, s1) ∧
    sr_amountToPay x = Some (numeric_text (invoice_total c (ar_invoice run) s - withheld_total c r s)) ∧
    ∃ aid detail b, emit (audit_event aid c "payment_gate_decision" rowId "short_pay_generated" ActorSystem None detail) e s1 =
      Ok (b, s')).
Proof.
  intros Hrange Hg. unfold generateShortPayDecision in Hg. tx_inv. destruct (negb enabled); tx_inv; [by left|].
  case_match; tx_inv; [by left|]. unfold id in *. right. split; [done|].
  match goal with Hr : select_one _ (audit_runs _) = Some ?y |- _ => rename y into run;
    apply select_one_Some in Hr as [Hin [Hrun Hout%bool_decide_eq_true]%andb_true_iff] end.
  match goal with Hc : composeShortPayDecision _ _ = Ok ?d |- _ => rename d into dec0;
    destruct (composeShortPay_exact _ _ _ Hc (Hrange _)) as (Ha & Hw & Hlt & Hne & Hch & Hf) end.
  match goal with Hi : insert_decision _ _ _ _ _ _ _ _ _ _ = _ |- _ => rewrite Ha in Hi; rename Hi into Hins end.
  exists run, (sp_currency dec0). do 3 eexists. split_and!; [done|done|done|exact Hlt|exact Hne|exact Hch|exact Hf|exact Hins| |].
  - simpl. by rewrite Ha.
  - do 3 eexists. eassumption.
Qed.

Lemma short_pay_effect c r enabled e s x s' : short_pay_in_range c r s →
  generateShortPayDecision c r enabled e s = Ok (x, s') → payment_effect s s'.
Proof.
  intros Hrange [(_ & ->)|(_ & run & cur & rat & rowId & s1 & _ & _ & _ & Hlt & _ & _ & _ & Hins & _ & aid & det & b & Hem)]%short_pay_spec;
    [by apply no_decision| |done].
  eapply (decide_effect _ _ _ _ _ _ _ _ _ _ _ _ _ _ _ _ _ _ _ _ Hins Hem); [|no_case| |done].
  - unfold decision_actions. rewrite !elem_of_cons. auto.
  - intros _. eexists _, _. split; [done|]. split; [apply money_units_fixed|]. lia.
Qed.

(** A short payment is exact: when one is generated, its amount is the exact
    total of the invoice's charges less the exact total of the run's accepted
    overcharges; it is positive, every charge and finding is in its currency, and
    the one row added to the table records it. *)
Theorem short_pay_exact c r enabled e s x s' : short_pay_in_range c r s →
  generateShortPayDecision c r enabled e s = Ok (x, s') → sr_created x = true →
  ∃ invoiceId cur d, let amount := invoice_total c invoiceId s - withheld_total c r s in
    0 < amount ∧ sr_amountToPay x = Some (numeric_text amount) ∧
    payment_gate_decisions s' = payment_gate_decisions s ++ [d] ∧ pd_action d = "short_pay" ∧
    pd_amount d = Some amount ∧ pd_currency d = Some cur ∧ pd_invoice d = invoiceId ∧
    (∀ ch, ch ∈ billed c invoiceId s → cf_currency ch = Some cur) ∧
    (∀ f, f ∈ accepted_overcharges c r s → vf_currency f = Some cur).
Proof.
  intros Hrange Hg Hcr. apply short_pay_spec in Hg as [(Hf & _)|(_ & run & cur & rat & rowId & s1 & _ & _ & _ & Hlt & _ & Hch & Hfs
    & Hins & Hamt & aid & det & b & Hem)]; [congruence| |done].
  apply insert_decision_spec in Hins as (_ & _ & _ & m & [Hm _] & ->). apply emit_frame in Hem as (_ & _ & _ & _ & Hrows & _).
  unfold numeric_text in Hm. rewrite money_units_fixed in Hm. subst m.
  exists (ar_invoice run), cur. eexists. cbv zeta. rewrite Hrows. split_and!; [lia|done..|exact Hch|exact Hfs].
Qed.

(** One committed transaction: a payment handler, or anything that leaves the
    decisions alone and never removes ledger entries. *)
Inductive payment_step : db → db → Prop :=
  | step_authorize i e s r s' : authorizePayment i e s = Ok (r, s') → payment_step s s'
  | step_hold c r b e s x s' : generateHoldDecision c r b e s = Ok (x, s') → payment_step s s'
  | step_do_not_pay c r e s x s' : generateDoNotPayDecision c r e s = Ok (x, s') → payment_step s s'
  | step_short_pay c r b e s x s' : short_pay_in_range c r s → generateShortPayDecision c r b e s = Ok (x, s') → payment_step s s'
  | step_escalate c r at_ g e s x s' : generatePaymentEscalation c r at_ g e s = Ok (x, s') → payment_step s s'
  | step_no_payment s s' : payment_gate_decisions s' = payment_gate_decisions s →
      (∀ x, x ∈ audit_log s → x ∈ audit_log s') → payment_step s s'.
Inductive payment_reachable (s0 : db) : db → Prop :=
  | payment_start : payment_reachable s0 s0
  | payment_next s s' : payment_reachable s0 s → payment_step s s' → payment_reachable s0 s'.

Lemma payment_step_effect s s' : payment_step s s' → payment_effect s s'.
Proof.
  intros [i e s1 r s2 Hs|c r b e s1 x s2 Hs|c r e s1 x s2 Hs|c r b e s1 x s2 Hr Hs|c r at_ g e s1 x s2 Hs|s1 s2 Hrows Hlog].
  - by eapply authorize_effect.
  - by eapply hold_effect.
  - by eapply do_not_pay_effect.
  - by eapply short_pay_effect.
  - by eapply escalation_effect.
  - by apply no_decision.
Qed.

(** C14: no invoice is approved without an analyst: whatever handlers run, in any
    order, every approval in the table was recorded by an analyst whom the ledger
    names; a run has at most one decision of each kind; and decisions already
    recorded are never changed or removed. *)
Theorem approval_needs_analyst s0 s :
  payments_ok s0 → payment_reachable s0 s →
  (∃ l, payment_gate_decisions s = payment_gate_decisions s0 ++ l) ∧ NoDup (map decision_key (payment_gate_decisions s)) ∧
  ∀ d, d ∈ payment_gate_decisions s → pd_action d = "approve" →
    pd_actor_kind d = ActorAnalyst ∧ ∃ x actor, x ∈ audit_log s ∧ ae_entityId x = Some (pd_id d) ∧
      ae_event x = "payment_authorized" ∧ ae_actorKind x = ActorAnalyst ∧ ae_actorUserId x = Some actor.
Proof.
  intros H0 Hreach.
  assert (payments_ok s ∧ ∃ l, payment_gate_decisions s = payment_gate_decisions s0 ++ l) as [(Hk & _ & Hd) Hl].
  { induction Hreach as [|s s' _ [IH [l Hl]] Hstep%payment_step_effect]; [split; [done|]; exists []; by rewrite app_nil_r|].
    split; [by eapply payment_effect_ok|]. destruct Hstep as [->|d -> _ _ _ _]; [by exists l|].
    exists (l ++ [d]). by rewrite Hl, app_assoc. }
  split_and!; [done|done|]. intros d Hin Ha. destruct (Hd d Hin) as (_ & _ & _ & Happ & _).
  destruct (Happ Ha) as (Hkind & x & actor & Hx & _ & Hid & _ & Hev & Hk' & Hu). split; [done|]. by exists x, actor.
Qed.
End handlers.

(** ** The theorems at work *)

Section examples.
#[local] Existing Instances ExactDecimal.ops ExactDecimal.laws demo_sha demo_uuid demo_uuid_laws demo_zod code_unit_collator.

(** An invoice of 120 and 30 with one accepted overcharge of 25.5. *)
Definition payment_db : db :=
  mkDb {| accounts := []; invoices := []; gate_failures := [];
          audit_runs := [mkRun (demo_id 3) (demo_id 0) (demo_id 5) "SCORED" None "v1"];
          charge_facts := [mkChargeRow (demo_id 8) (demo_id 0) (demo_id 5) None None None 1200000 (Some "USD") None None None None;
                           mkChargeRow (demo_id 9) (demo_id 0) (demo_id 5) None None None 300000 (Some "USD") None None None None] |}
    (mkFindings [mkFinding (demo_id 7) (demo_id 0) (demo_id 3) "accepted" (Some "OVERCHARGE") (Some 255000) (Some "USD") None demo_basis] [] [])
    (mkDisputes [] [] []) (mkClaims [] []) [] (mkEvaluations [] [] [] []) (mkWorkflow [] [] [] []) [] [] [] 0.
Definition payment_env : env := mkEnv 1700000000000 (Some [demo_id 0]).

Lemma payment_db_range : short_pay_in_range (demo_id 0) (demo_id 3) payment_db.
Proof.
  intros i. assert (zsum_by (λ c, Z.abs (cf_amount c)) (billed (demo_id 0) i payment_db) <= 1500000) as Hb.
  { unfold billed. cbn [payment_db sources charge_facts List.filter].
    repeat case_match; unfold zsum_by; simpl; lia. }
  assert (zsum_by (λ f, Z.abs (overcharge_amount f)) (accepted_overcharges (demo_id 0) (demo_id 3) payment_db) = 255000) as ->
    by (vm_compute; reflexivity). lia.
Qed.
#[local] Abbreviation short_paid := (generateShortPayDecision (demo_id 0) (demo_id 3) true payment_env payment_db).
Definition short_paid_db : db := tx_state short_paid payment_db.
Definition short_paid_value : ShortPayDecisionResult :=
  mkShortPayResult (Some (demo_uuid 0%nat)) (Some "124.5000") (Some "USD") [demo_id 7] true.
Lemma short_paid_ok : short_paid = Ok (short_paid_value, short_paid_db).
Proof. apply (tx_ran short_paid). vm_compute. reflexivity. Qed.
Lemma short_pay_exact_witness :
  ∃ i d, payment_gate_decisions short_paid_db = [] ++ [d] ∧
    pd_amount d = Some (invoice_total (demo_id 0) i payment_db - withheld_total (demo_id 0) (demo_id 3) payment_db).
Proof.
  destruct (short_pay_exact (demo_id 0) (demo_id 3) true payment_env payment_db short_paid_value short_paid_db
    payment_db_range short_paid_ok eq_refl) as (i & cur & d & _ & _ & Hrows & _ & Hamt & _).
  exists i, d. split; [exact Hrows|exact Hamt].
Defined.

Lemma payment_db_ok : payments_ok payment_db.
Proof. split_and!; [apply NoDup_nil_2..|]. intros d Hd. by apply elem_of_nil in Hd. Qed.
Definition approval : authorize_input := mkAuthorize (demo_id 0) (demo_id 3) approve (Some "checked") (demo_id 9).
#[local] Abbreviation approved := (authorizePayment approval payment_env short_paid_db).
Definition approved_payment_db : db := tx_state approved short_paid_db.
Lemma approved_payment_ok : approved = Ok ((demo_uuid 1%nat, approve, true), approved_payment_db).
Proof. apply (tx_ran approved). vm_compute. reflexivity. Qed.
Lemma approval_needs_analyst_witness :
  map pd_action (payment_gate_decisions approved_payment_db) = ["short_pay"; "approve"] ∧
  NoDup (map decision_key (payment_gate_decisions approved_payment_db)).
Proof.
  split; [vm_compute; reflexivity|].
  apply (approval_needs_analyst payment_db approved_payment_db).
  - apply payment_db_ok.
  - eapply payment_next; [|eapply step_authorize, approved_payment_ok].
    eapply payment_next; [apply payment_start|eapply step_short_pay, short_paid_ok]. apply payment_db_range.
Defined.

(** The analyst's hold after the system's own records nothing: neither a decision
    nor who decided. *)
Lemma manual_hold_unrecorded :
  let held := tx_state (generateHoldDecision (demo_id 0) (demo_id 3) true payment_env payment_db) payment_db in
  ∃ id, authorizePayment (mkAuthorize (demo_id 0) (demo_id 3) hold (Some "disputed with carrier") (demo_id 9)) payment_env held =
    Ok ((id, hold, false), held) ∧ map pd_actor_kind (payment_gate_decisions held) = [ActorSystem] ∧
    map ae_event (audit_log held) = ["hold_generated"].
Proof. eexists. vm_compute. done. Qed.

(** An updated policy reports the caller as its configurer, and keeps the first. *)
Lemma policy_configurer_kept :
  let p who := mkPolicy (demo_id 0) true false 72 who in
  (λ r, map pc_configuredBy r.2) <$> upsertPaymentPolicy (p (demo_id 9)) [p (demo_id 8)] = Ok [demo_id 8] ∧
  (λ r, pc_configuredBy r.1) <$> upsertPaymentPolicy (p (demo_id 9)) [p (demo_id 8)] = Ok (demo_id 9).
Proof. vm_compute. done. Qed.
End examples.
