(* ===== verification/Persist.v ===== *)
(** Persisting an audit ([src/src/modules/evaluator/persist.ts], with
    [resolve-criterion-ids.ts] and [resolve-transport-evidence.ts]): the invoice,
    its charges, the run, what the gates and the scoring found, the payment
    decision that follows from the outcome, the scorecard and the replay
    manifest, in one transaction. *)

From S2P Require Import Prelude JsText Decimal Json Store AuditLedger Interpreter AstJson Rubrics Facts Evaluator Jsonb Manifest JsDate Database Tx Jobs Money Payments.

(** ** Reference tables

    The tables an audit reads and does not write. *)

Record rule_version_row := mkRuleVersion {
  rv_id : string; rv_rule : string; rv_clause : option string; rv_ast_hash : string; rv_recorded_at : Z;
}.
Record contract_version_row := mkContractVersion {
  cv_id : string; cv_account : string; cv_source_document : option string;
}.
Record source_document_row := mkSourceDocument {
  sd_id : string; sd_account : option string; sd_sha256 : string;
  sd_content_type : option string; sd_byte_size : Z; sd_storage_uri : string;
}.
Record snapshot_row := mkSnapshot {
  rs_id : string; rs_tenant : option string; rs_content_hash : string; rs_resolver_version : string;
}.
Record shipment_row := mkShipment {
  sh_id : string; sh_account : string; sh_transport_document : option string; sh_reference : option string;
}.
Record contract_rate_row := mkRateRow {
  rr_account : string; rr_contract_version : string; rr_category : string; rr_rate : Z;
  rr_currency : string; rr_clause : option string;
}.
Record carrier_row := mkCarrier { ca_id : string; ca_scac : option string }.
(** A crosswalk row: the code it names, or a pattern. *)
Record crosswalk_row := mkCrosswalk {
  xw_account : option string; xw_carrier : option string; xw_code : option string; xw_pattern : option string;
  xw_category : string; xw_rank : Z; xw_created_at : Z;
}.
Record catalog := mkCatalog {
  ct_criteria : list (string * string);       (* id, criterion_key *)
  ct_rules : list (string * string);          (* id, slug *)
  ct_rule_versions : list rule_version_row;
  ct_clauses : list (string * string * string);  (* id, account, contract version *)
  ct_contract_versions : list contract_version_row;
  ct_source_documents : list source_document_row;
  ct_snapshots : list snapshot_row;
  ct_shipments : list shipment_row;
  ct_policies : list PaymentPolicyConfig;
  ct_rates : list contract_rate_row;
  ct_carriers : list carrier_row;
  ct_crosswalk : list crosswalk_row;
}.
(** What row-level security shows of a row that may be shared. *)
Definition visible_shared (e : env) (account : option string) : bool :=
  match account with None => true | Some a => visible e a end.

(** ** References *)

Record ResolvedCriterionIds := mkResolved {
  rc_criterionId : string; rc_ruleVersionId : string; rc_clauseId : option string; rc_sourceDocumentId : option string;
}.
(** [criterionKey.toLowerCase().replace(/\./g, '-')] *)
Definition ruleSlug (criterionKey : string) : string :=
  string_map (λ c, if bool_decide (c = "."%char) then "-"%char else c) (to_lower criterionKey).

Definition resolveCriterionIds (ct : catalog) (e : env) (criterionKey : string) : option ResolvedCriterionIds :=
  criterion ← select_one (λ c, bool_decide (c.2 = criterionKey)) (ct_criteria ct);
  let slugged v := existsb (λ r, bool_decide (r.1 = rv_rule v) && bool_decide (r.2 = ruleSlug criterionKey)) (ct_rules ct) in
  v ← head (js_sort (cmp_flip (cmp_on rv_recorded_at Z.compare)) (List.filter slugged (ct_rule_versions ct)));
  let document :=
    clause ← rv_clause v;
    c ← select_one (λ c, bool_decide (c.1.1 = clause) && visible e c.1.2) (ct_clauses ct);
    cv ← select_one (λ r, bool_decide (cv_id r = c.2) && visible e (cv_account r)) (ct_contract_versions ct);
    cv_source_document cv in
  Some (mkResolved criterion.1 (rv_id v) (rv_clause v) document).

Definition resolveTransportEvidence (ct : catalog) (clientId : string) (shipmentId : option string) : tx (option string) :=
  match shipmentId with
  | None | Some "" => mret None
  | Some shipment =>
      row ← the (select_one (λ r, uuid_is (sh_id r) shipment && uuid_is (sh_account r) clientId) (ct_shipments ct))
              (OtherError ("shipment not found for tenant: " +:+ shipment));
      match sh_transport_document row with
      | None | Some "" => throw (OtherError ("transport evidence not found for shipment: " +:+ shipment))
      | Some d => mret (Some d)
      end
  end.

(** ** Writes *)

Section persist.
Context {D : DecimalJs} {C : Collator} {H : Sha256} {U : UuidSource} {W : Zod}.

Definition insert_invoice (clientId : string) (shipmentId carrierId : option string) (inv : ParsedInvoice) : tx string :=
  rowId ← new_uuid;
  ids ← query (λ s, map inv_id (invoices (sources s)));
  _ ← check (currency_check (headerCurrency inv)) (ConstraintFailed "invoice_currency_format_chk");
  _ ← primary_key ids rowId;
  _ ← modify (upd_sources (λ t, {| accounts := accounts t;
        invoices := invoices t ++ [mkInvoiceRow rowId (pg_uuid clientId) (pg_uuid <$> carrierId) (pg_uuid <$> shipmentId)
          (set_text (transactionSet inv)) (invoiceNumber inv) (headerCurrency inv) (parserVersion inv)];
        audit_runs := audit_runs t; charge_facts := charge_facts t; gate_failures := gate_failures t |}));
  mret rowId.

Definition numeric_opt (o : option string) : tx (option Z) :=
  match o with Some t => m ← numeric t; mret (Some m) | None => mret None end.

Definition insert_charge (clientId invoiceId : string) (c : NormalizedCharge) : tx (NormalizedCharge * string) :=
  amount ← the (nc_amount c) (OtherError ("invariant violated: charge " +:+ default "(no code)" (nc_code c) +:+
                                          " has no amount on a SCORED invoice"));
  amount ← numeric amount;
  basis ← numeric_opt (nc_basis c);
  rate ← numeric_opt (nc_rate c);
  _ ← check (is_currency_code (nc_currency c)) (ConstraintFailed "charge_fact_currency_format_chk");
  rowId ← new_uuid;
  ids ← query (λ s, map cf_id (charge_facts (sources s)));
  _ ← primary_key ids rowId;
  _ ← modify (upd_sources (λ t, {| accounts := accounts t; invoices := invoices t; audit_runs := audit_runs t;
        charge_facts := charge_facts t ++ [mkChargeRow rowId (pg_uuid clientId) invoiceId (nc_code c) (nc_x12Element c)
          (nc_category c) amount (Some (nc_currency c)) basis rate (nc_rawDescription c) (nc_sourceLoop c)];
        gate_failures := gate_failures t |}));
  mret (c, rowId).

Definition insert_run (clientId invoiceId : string) (snapshotId : option string) (r : AuditResult) : tx string :=
  rowId ← new_uuid;
  ids ← query (λ s, map ar_id (audit_runs (sources s)));
  _ ← primary_key ids rowId;
  _ ← modify (upd_sources (λ t, {| accounts := accounts t; invoices := invoices t;
        audit_runs := audit_runs t ++ [mkRun rowId (pg_uuid clientId) invoiceId (outcome_text (outcome r))
          (pg_uuid <$> snapshotId) (pin_engineSpecVersion (pins r))];
        charge_facts := charge_facts t; gate_failures := gate_failures t |}));
  mret rowId.

Definition insert_marker (clientId auditRunId : string) (m : CoverageMarker) : tx string :=
  rowId ← new_uuid;
  rows ← query (λ s, coverage_markers (evaluations s));
  let code := coverage_code_text (cm_code m) in
  _ ← check (negb (existsb (λ r, bool_decide (cm_audit_run r = auditRunId) && (cm_charge_index r =? chargeIndex m)%nat &&
                                 bool_decide (cm_marker_code r = code)) rows))
        (ConstraintFailed "coverage_marker_audit_run_id_charge_index_marker_code_key");
  _ ← primary_key (map cm_id rows) rowId;
  _ ← modify (upd_evaluations (λ t, mkEvaluations (charge_findings t)
        (coverage_markers t ++ [mkMarkerRow rowId (pg_uuid clientId) auditRunId (chargeIndex m) code (missingFields m)])
        (scorecards t) (replay_manifests t)));
  mret rowId.

Definition cites (r : ResolvedCriterionIds) (transport : option string) : citations :=
  mkCites (Some (rc_criterionId r)) (Some (rc_ruleVersionId r)) (rc_clauseId r) (rc_sourceDocumentId r) transport.
(** [resolvedIdsByCriterionKey.get(key)!] *)
Definition resolved_of (m : list (string * ResolvedCriterionIds)) (key : string) : tx ResolvedCriterionIds :=
  the (map_get m key) (OtherError "TypeError").

Definition insert_failure (clientId auditRunId : string) (resolved : list (string * ResolvedCriterionIds))
    (transport : option string) (g : GateFailure) : tx string :=
  r ← resolved_of resolved (gf_criterionKey g);
  rowId ← new_uuid;
  ids ← query (λ s, map gf_id (gate_failures (sources s)));
  _ ← primary_key ids rowId;
  _ ← modify (upd_sources (λ t, {| accounts := accounts t; invoices := invoices t; audit_runs := audit_runs t;
        charge_facts := charge_facts t;
        gate_failures := gate_failures t ++ [mkFailureRow rowId (pg_uuid clientId) auditRunId (Evaluator.gf_defect g) (Evaluator.gf_citation g)
          (cites r transport) (jsonb (eval_json (gf_evaluatedExpr g)))] |}));
  mret rowId.

Definition insert_charge_finding (clientId auditRunId : string) (resolved : list (string * ResolvedCriterionIds))
    (transport : option string) (f : ChargeFinding) : tx string :=
  r ← resolved_of resolved (cf_criterionKey f);
  rowId ← new_uuid;
  rows ← query (λ s, charge_findings (evaluations s));
  _ ← primary_key (map fi_id rows) rowId;
  _ ← modify (upd_evaluations (λ t, mkEvaluations
        (charge_findings t ++ [mkChargeFinding rowId (pg_uuid clientId) auditRunId (finding_result_text (cf_result f))
          (cites r transport) (jsonb (eval_json (cf_evaluatedExpr f)))])
        (coverage_markers t) (scorecards t) (replay_manifests t)));
  mret rowId.

(** [charge_fact_id]: the one charge of the criterion's category, if there is one. *)
Definition attributed_charge (facts : list (NormalizedCharge * string)) (criterionKey : string) : option string :=
  if bool_decide (criterionKey = "CONTRACT.RATE_VARIANCE") then
    match List.filter (λ p, bool_decide (nc_category p.1 = Some "LINEHAUL") && negb (nc_quarantined p.1)) facts with
    | [p] => Some p.2
    | _ => None
    end
  else None.
(** [new Decimal(f.varianceAmount).abs().toFixed(4)] *)
Definition materiality (varianceAmount : option string) : result handler_error (option string) :=
  match varianceAmount with
  | None => Ok None
  | Some t => d ← decimal t; Ok (Some (d_toFixed 4 (d_abs d)))
  end.

Definition insert_variance (clientId auditRunId : string) (resolved : list (string * ResolvedCriterionIds))
    (transport : option string) (facts : list (NormalizedCharge * string)) (f : ChargeFinding) : tx unit :=
  match cf_result f with
  | CONFORMED => mret tt
  | _ =>
      r ← resolved_of resolved (cf_criterionKey f);
      material ← lift (materiality (cf_varianceAmount f));
      material ← numeric_opt material;
      amount ← numeric_opt (cf_varianceAmount f);
      _ ← check (currency_check (Evaluator.cf_currency f)) (ConstraintFailed "variance_finding_currency_format_chk");
      rowId ← new_uuid;
      rows ← query (λ s, variance_findings (Database.findings s));
      _ ← primary_key (map vf_id rows) rowId;
      modify (upd_findings (λ t, mkFindings (variance_findings t ++ [Database.mkFinding rowId (pg_uuid clientId) auditRunId "open"
          (match cf_direction f with INTEGRITY_ONLY => None | d => Some (direction_text d) end)
          amount (Evaluator.cf_currency f) None
          (mkBasis (cites r transport) (attributed_charge facts (cf_criterionKey f)) material
             (Some (match cf_result f with Unassessable => "unassessable" | _ => "variance" end))
             (jsonb (eval_json (cf_evaluatedExpr f))))])
        (finding_status_events t) (finding_assignment_events t)))
  end.

Definition insert_scorecard (clientId auditRunId : string) (currency : option string) (s : Scorecard) : tx string :=
  over ← numeric (totalOvercharge s);
  under ← numeric (totalUndercharge s);
  _ ← check (currency_check currency) (ConstraintFailed "scorecard_currency_format_chk");
  rowId ← new_uuid;
  rows ← query (λ s, scorecards (evaluations s));
  _ ← check (negb (existsb (λ r, bool_decide (sk_audit_run r = auditRunId)) rows))
        (ConstraintFailed "scorecard_audit_run_id_key");
  _ ← primary_key (map sk_id rows) rowId;
  _ ← modify (upd_evaluations (λ t, mkEvaluations (charge_findings t) (coverage_markers t)
        (scorecards t ++ [mkScorecardRow rowId (pg_uuid clientId) auditRunId (conformedCount s) (varianceCount s)
          (unassessableCount s) over under currency]) (replay_manifests t)));
  mret rowId.

Definition insert_manifest (clientId auditRunId hash : string) (m : AuditReplayManifest) : tx unit :=
  rows ← query (λ s, replay_manifests (evaluations s));
  _ ← check (negb (existsb (λ r, bool_decide (rm_account r = pg_uuid clientId) &&
                                 (bool_decide (rm_audit_run r = auditRunId) || bool_decide (rm_content_hash r = hash))) rows))
        (ConstraintFailed "audit_replay_manifest_client_id_audit_run_id_key");
  modify (upd_evaluations (λ t, mkEvaluations (charge_findings t) (coverage_markers t) (scorecards t)
        (replay_manifests t ++ [mkManifestRow (pg_uuid clientId) auditRunId hash (jsonb (manifest_json m))]))).

(** ** [persistAuditRun] *)

Record PersistInput := mkPersist {
  pi_clientId : string; pi_carrierId : option string; pi_shipmentId : option string;
  pi_invoice : ParsedInvoice; pi_result : AuditResult; pi_rubricSnapshotId : option string;
  pi_sourceDocuments : list (string * string); pi_contractVersionIds : list string; pi_resolvedInputs : json;
}.
Record PersistedRun := mkPersisted {
  pr_invoiceId : string; pr_auditRunId : string; pr_gateFailureIds : list string;
  pr_chargeFindingIds : list string; pr_coverageMarkerIds : list string; pr_scorecardId : option string;
}.

(** [for (const criterionKey of new Set([...]))], resolving each key once. *)
Definition result_keys (r : AuditResult) : list string :=
  set_of (map gf_criterionKey (gateFailures r) ++ map cf_criterionKey (Evaluator.findings r)).
Definition resolve_keys (ct : catalog) (r : AuditResult) : tx (list (string * ResolvedCriterionIds)) :=
  for_each (λ key,
    e ← ask id;
    ids ← the (resolveCriterionIds ct e key) (OtherError ("finding reference not found: " +:+ key));
    mret (key, ids)) (result_keys r).

(** The hold-by-default, or the refusal to pay, that the outcome calls for. *)
Definition payment_decision (ct : catalog) (clientId auditRunId : string) (r : AuditResult) : tx unit :=
  match outcome r with
  | SCORED =>
      let policy := select_one (λ p, uuid_is (pc_clientId p) clientId) (ct_policies ct) in
      _ ← generateHoldDecision clientId auditRunId
            (match policy with Some p => pc_holdThenApprove p | None => DEFAULT_PAYMENT_POLICY.1.1 end);
      mret tt
  | REJECTED_REWORK => _ ← generateDoNotPayDecision clientId auditRunId; mret tt
  end.

(** The pins of the manifest. *)
Definition rule_pins (ct : catalog) (resolved : list (string * ResolvedCriterionIds)) : list pin :=
  let ids := set_of (map (λ p, rc_ruleVersionId p.2) resolved) in
  map (λ v, mkPin (rv_id v) (Some (rv_ast_hash v)))
    (js_sort (cmp_on rv_id code_unit_compare)
       (List.filter (λ v, bool_decide (rv_id v ∈ ids)) (ct_rule_versions ct))).
Definition rubric_pin (ct : catalog) (e : env) (snapshotId : option string) : option snapshot_row :=
  i ← snapshotId; select_one (λ r, uuid_is (rs_id r) i && visible_shared e (rs_tenant r)) (ct_snapshots ct).
Definition contract_pin (ct : catalog) (e : env) (v : contract_version_row) : pin :=
  mkPin (cv_id v)
    (document ← cv_source_document v;
     sd ← select_one (λ d, bool_decide (sd_id d = document) && visible_shared e (sd_account d)) (ct_source_documents ct);
     if truthy (sd_sha256 sd) then Some (sd_sha256 sd) else None).
Definition contract_pins (ct : catalog) (e : env) (ids : list string) : list pin :=
  map (contract_pin ct e)
    (js_sort (cmp_on cv_id code_unit_compare)
       (List.filter (λ v, existsb (uuid_is (cv_id v)) ids && visible e (cv_account v)) (ct_contract_versions ct))).

Definition build_manifest (ct : catalog) (e : env) (input : PersistInput) (auditRunId : string)
    (resolved : list (string * ResolvedCriterionIds)) : AuditReplayManifest :=
  let rubric := rubric_pin ct e (pi_rubricSnapshotId input) in
  mkManifest auditRunId (pi_clientId input) (pin_engineSpecVersion (pins (pi_result input)))
    (set_text (transactionSet (pi_invoice input)), parserVersion (pi_invoice input)) (pi_sourceDocuments input)
    (pi_rubricSnapshotId input) (rs_content_hash <$> rubric) (rs_resolver_version <$> rubric)
    (rule_pins ct resolved) (contract_pins ct e (pi_contractVersionIds input)) [] [] []
    (pi_resolvedInputs input) (invoice_json (pi_invoice input)) (result_json (pi_result input)).

Definition completed_event (input : PersistInput) (auditRunId : string) (failures findings : nat)
    (scorecardId : option string) (hash : string) : AuditEvent :=
  mkAuditEvent (deterministicAuditEventId [pi_clientId input; auditRunId; "evaluation.completed"])
    (Some (pi_clientId input)) "audit_run" (Some auditRunId) "evaluation.completed" ActorSystem None None
    (pi_rubricSnapshotId input)
    (Some [("outcome", JString (outcome_text (outcome (pi_result input))));
           ("engineSpecVersion", JString (pin_engineSpecVersion (pins (pi_result input))));
           ("gateFailureCount", json_num (Z.of_nat failures)); ("findingCount", json_num (Z.of_nat findings));
           ("scorecardId", json_opt scorecardId); ("replayManifestHash", JString hash)]).

Definition persistAuditRun (ct : catalog) (input : PersistInput) : tx PersistedRun :=
  let clientId := pi_clientId input in
  let inv := pi_invoice input in
  let r := pi_result input in
  transport ← resolveTransportEvidence ct clientId (pi_shipmentId input);
  invoiceId ← insert_invoice clientId (pi_shipmentId input) (pi_carrierId input) inv;
  facts ← match outcome r with
          | SCORED => for_each (insert_charge clientId invoiceId) (charges inv)
          | REJECTED_REWORK => mret []
          end;
  auditRunId ← insert_run clientId invoiceId (pi_rubricSnapshotId input) r;
  markerIds ← for_each (insert_marker clientId auditRunId) (coverageMarkers r);
  resolved ← resolve_keys ct r;
  failureIds ← for_each (insert_failure clientId auditRunId resolved transport) (gateFailures r);
  _ ← payment_decision ct clientId auditRunId r;
  findingIds ← for_each (insert_charge_finding clientId auditRunId resolved transport) (Evaluator.findings r);
  _ ← for_each (insert_variance clientId auditRunId resolved transport facts) (Evaluator.findings r);
  scorecardId ← match Evaluator.scorecard r with
                | Some s => i ← insert_scorecard clientId auditRunId (headerCurrency inv) s; mret (Some i)
                | None => mret None
                end;
  e ← ask id;
  let m := build_manifest ct e input auditRunId resolved in
  hash ← the (replayManifestHash (manifest_json m)) SchemaRejected;
  _ ← insert_manifest clientId auditRunId hash m;
  _ ← emit (completed_event input auditRunId (length failureIds) (length findingIds) scorecardId hash);
  mret (mkPersisted invoiceId auditRunId failureIds findingIds markerIds scorecardId).
End persist.

(** ** An audit to persist, for examples *)

Section examples.
Definition demo_hash : string := String.concat "" (replicate 64 "a").
Definition indexed (base : Z) (i : nat) : string := demo_id (base + Z.of_nat i).
Definition demo_catalog : catalog :=
  let keys := map criterionKey (criteria CONTRACT_RUBRIC) in
  {| ct_criteria := imap (λ i key, (indexed 100 i, key)) keys;
     ct_rules := imap (λ i key, (indexed 200 i, ruleSlug key)) keys;
     ct_rule_versions := imap (λ i _, mkRuleVersion (indexed 300 i) (indexed 200 i) None demo_hash 0) keys;
     ct_clauses := []; ct_contract_versions := [mkContractVersion (demo_id 400) (demo_id 0) None];
     ct_source_documents := [mkSourceDocument (demo_id 500) (Some (demo_id 0)) demo_hash None 0 ""];
     ct_snapshots := []; ct_shipments := []; ct_policies := [];
     ct_rates := [mkRateRow (demo_id 0) (demo_id 400) "LINEHAUL" 4800000 "USD" None];
     ct_carriers := [mkCarrier (demo_id 600) (Some "SCAC")];
     ct_crosswalk := [mkCrosswalk None None (Some "400") None "LINEHAUL" 1 0; mkCrosswalk None None (Some "405") None "FUEL" 1 0] |}.
Definition demo_persist (total : string) (r : AuditResult) : PersistInput :=
  mkPersist (demo_id 0) None None (demo_invoice total) r None [(demo_id 500, demo_hash)] [demo_id 400]
    (contract_json demo_contract).
Definition demo_env : env := mkEnv 1700000000000 (Some [demo_id 0]).
End examples.
