(* ===== verification/Replay.v ===== *)
(** Replaying an audit from its manifest
    ([src/src/modules/audit-ledger/replay-audit-run.ts]). *)

From S2P Require Import Prelude JsText Decimal Json Store AuditLedger Interpreter AstJson Rubrics Facts Evaluator Jsonb Manifest JsDate Database Tx Jobs Money Payments Persist.

Definition ReplayIntegrityError (message : string) : handler_error := Thrown "ReplayIntegrityError" message.
Definition ReplayUnavailableError (message : string) : handler_error := Thrown "ReplayUnavailableError" message.

(** [o && ...] on an optional hash: absent and empty are falsy. *)
Definition truthy_opt (o : option string) : option string :=
  match o with Some "" | None => None | Some h => Some h end.

Definition source_pin_ok (ct : catalog) (e : env) (source : string * string) : bool :=
  match select_one (λ d, uuid_is (sd_id d) source.1 && visible_shared e (sd_account d)) (ct_source_documents ct) with
  | Some d => bool_decide (sd_sha256 d = source.2)
  | None => false
  end.
Definition rule_pin_ok (ct : catalog) (p : pin) : bool :=
  match select_one (λ v, uuid_is (rv_id v) (pn_id p)) (ct_rule_versions ct), truthy_opt (pn_contentHash p) with
  | None, _ => false
  | Some v, Some h => bool_decide (rv_ast_hash v = h)
  | Some _, None => true
  end.
Definition contract_pin_ok (ct : catalog) (e : env) (p : pin) : bool :=
  match truthy_opt (pn_contentHash p) with
  | None => true
  | Some h =>
      match select_one (λ v, uuid_is (cv_id v) (pn_id p) && visible e (cv_account v)) (ct_contract_versions ct) with
      | None => false
      | Some v => bool_decide ((document ← cv_source_document v;
                    sd_sha256 <$> select_one (λ d, bool_decide (sd_id d = document) && visible_shared e (sd_account d))
                                    (ct_source_documents ct)) = Some h)
      end
  end.
Definition verifyPins (ct : catalog) (e : env) (m : AuditReplayManifest) : tx unit :=
  _ ← check (forallb (source_pin_ok ct e) (mf_sourceDocuments m)) (ReplayIntegrityError "source document pin mismatch");
  _ ← check (forallb (rule_pin_ok ct) (mf_ruleVersions m)) (ReplayIntegrityError "rule version pin mismatch");
  check (forallb (contract_pin_ok ct e) (mf_contractVersions m)) (ReplayIntegrityError "contract version pin mismatch").

(** [originalResultHash] and [resultHash]; [byteIdentical] and [matchesOriginal]
    are the constant [true]. *)
Record ReplayResult := mkReplay {
  ry_auditRunId : string; ry_manifestHash : string; ry_originalResultHash : string; ry_resultHash : string;
  ry_result : AuditResult;
}.

Section replay.
Context {D : DecimalJs} {C : Collator} {H : Sha256}.

Definition executed_event (m : AuditReplayManifest) (auditRunId manifestHash originalHash resultHash : string) : AuditEvent :=
  audit_event (deterministicAuditEventId [mf_clientId m; auditRunId; resultHash; "replay.executed"])
    (mf_clientId m) "audit_run" auditRunId "replay.executed" ActorSystem None
    [("manifestHash", JString manifestHash); ("originalResultHash", JString originalHash);
     ("resultHash", JString resultHash); ("byteIdentical", JBool true)].

Definition replayAuditRun (ct : catalog) (auditRunId : string) : tx ReplayResult :=
  e ← ask id;
  row ← query (λ s, select_one (λ r, uuid_is (rm_audit_run r) auditRunId && visible e (rm_account r))
                      (replay_manifests (evaluations s)));
  row ← the row (Thrown "ReplayNotFoundError" "audit replay manifest not found");
  m ← the (AuditReplayManifestSchema (rm_manifest row)) (ReplayIntegrityError "stored replay manifest is invalid");
  hash ← the (replayManifestHash (manifest_json m)) SchemaRejected;
  _ ← check (bool_decide (mf_auditRunId m = auditRunId) && bool_decide (hash = rm_content_hash row))
        (ReplayIntegrityError "replay manifest hash mismatch");
  _ ← verifyPins ct e m;
  _ ← check (bool_decide (mf_engineSpecVersion m = ENGINE_SPEC_VERSION))
        (ReplayUnavailableError "pinned engine version is not installed");
  _ ← check (bool_decide (mf_snapshotId m = None))
        (ReplayUnavailableError "custom rubric snapshot replay is not installed");
  let rubric := match mf_contractVersions m with [] => STANDARD_RUBRIC | _ => CONTRACT_RUBRIC end in
  inv ← the (invoice_of (mf_invoice m)) (OtherError "TypeError");
  contract ← the (contract_of (mf_resolvedInputs m)) (OtherError "TypeError");
  result ← lift (match evaluateInvoice inv rubric contract with Ok r => Ok r | Err _ => Err (OtherError "DecimalError") end);
  let resultText := canonicalJson (result_json result) in
  let originalText := canonicalJson (mf_result m) in
  let resultHash := hex (sha256 resultText) in
  let originalHash := hex (sha256 originalText) in
  _ ← check (bool_decide (resultText = originalText))
        (ReplayIntegrityError "replay result is not byte-identical to the pinned result");
  _ ← emit (executed_event m auditRunId (rm_content_hash row) originalHash resultHash);
  mret (mkReplay auditRunId (rm_content_hash row) originalHash resultHash result).
End replay.
