(* ===== verification/PersistSafety.v ===== *)
(** What a persisted audit leaves in the tables: the rows of every step, the
    payment decision the outcome calls for, and nothing else. *)

From S2P Require Import Prelude JsText Decimal Json Store AuditLedger Interpreter AstJson Rubrics Facts Evaluator Jsonb Manifest JsDate Database Tx Jobs Money Payments PaymentsSafety Persist.

(** ** The tables an audit writes *)

Record view := mkView {
  v_invoices : list invoice; v_runs : list audit_run; v_charges : list charge_fact;
  v_failures : list gate_failure; v_findings : list charge_finding; v_markers : list coverage_marker;
  v_variances : list variance_finding; v_scorecards : list Database.scorecard;
  v_manifests : list replay_manifest; v_decisions : list payment_gate_decision;
}.
Definition view_of (s : db) : view :=
  mkView (invoices (sources s)) (audit_runs (sources s)) (charge_facts (sources s)) (gate_failures (sources s))
    (charge_findings (evaluations s)) (coverage_markers (evaluations s)) (variance_findings (Database.findings s))
    (scorecards (evaluations s)) (replay_manifests (evaluations s)) (payment_gate_decisions s).
Definition nothing : view := mkView [] [] [] [] [] [] [] [] [] [].
Definition vapp (v w : view) : view :=
  let 'mkView i r c f g m x s n d := v in
  let 'mkView i' r' c' f' g' m' x' s' n' d' := w in
  mkView (i ++ i') (r ++ r') (c ++ c') (f ++ f') (g ++ g') (m ++ m') (x ++ x') (s ++ s') (n ++ n') (d ++ d').
Definition vconcat (l : list view) : view := foldr vapp nothing l.

Definition only_invoices (l : list invoice) : view := mkView l [] [] [] [] [] [] [] [] [].
Definition only_runs (l : list audit_run) : view := mkView [] l [] [] [] [] [] [] [] [].
Definition only_charges (l : list charge_fact) : view := mkView [] [] l [] [] [] [] [] [] [].
Definition only_failures (l : list gate_failure) : view := mkView [] [] [] l [] [] [] [] [] [].
Definition only_findings (l : list charge_finding) : view := mkView [] [] [] [] l [] [] [] [] [].
Definition only_markers (l : list coverage_marker) : view := mkView [] [] [] [] [] l [] [] [] [].
Definition only_variances (l : list variance_finding) : view := mkView [] [] [] [] [] [] l [] [] [].
Definition only_scorecards (l : list Database.scorecard) : view := mkView [] [] [] [] [] [] [] l [] [].
Definition only_manifests (l : list replay_manifest) : view := mkView [] [] [] [] [] [] [] [] l [].
Definition only_decisions (l : list payment_gate_decision) : view := mkView [] [] [] [] [] [] [] [] [] l.

Lemma vapp_nothing_r v : vapp v nothing = v.
Proof. destruct v. simpl. by rewrite !app_nil_r. Qed.
Lemma vapp_assoc u v w : vapp u (vapp v w) = vapp (vapp u v) w.
Proof. destruct u, v, w. simpl. by rewrite !app_assoc. Qed.

Lemma view_prefix v i c r m f :
  vapp (vapp (vapp (vapp (vapp (vapp (vapp v nothing) (only_invoices i)) (only_charges c)) (only_runs r)) (only_markers m))
    nothing) (only_failures f) = vapp v (mkView i r c f [] m [] [] [] []).
Proof. destruct v. simpl. by rewrite !app_nil_r. Qed.
Lemma view_suffix v i r c f m ds fs vs ks ms :
  vapp (vapp (vapp (vapp (vapp (vapp (vapp v (mkView i r c f [] m [] [] [] [])) (only_decisions ds)) (only_findings fs))
    (only_variances vs)) (only_scorecards ks)) (only_manifests ms)) nothing = vapp v (mkView i r c f fs m vs ks ms ds).
Proof. destruct v. simpl. by rewrite !app_nil_r. Qed.

(** [writes e m P]: when [m] commits it adds rows to the tables and changes no
    other, and [P] relates what it returns to the rows. *)
Definition writes {A} (e : env) (m : tx A) (P : A → view → Prop) : Prop :=
  ∀ s a s', m e s = Ok (a, s') → ∃ d, view_of s' = vapp (view_of s) d ∧ P a d.

Section writes.
Context (e : env).

Lemma writes_ret {A} (a : A) : writes e (mret a) (λ b d, b = a ∧ d = nothing).
Proof. intros s b s' H. tx_inv. exists nothing. by rewrite vapp_nothing_r. Qed.

(** A step that leaves the tables alone. *)
Lemma writes_pure {A} (m : tx A) (P : A → Prop) :
  (∀ s a s', m e s = Ok (a, s') → view_of s' = view_of s ∧ P a) → writes e m (λ a d, P a ∧ d = nothing).
Proof. intros H s a s' Hm. destruct (H s a s' Hm). exists nothing. by rewrite vapp_nothing_r. Qed.

Lemma writes_bind {A B} (m : tx A) (f : A → tx B) P Q :
  writes e m P → (∀ a, writes e (f a) (Q a)) →
  writes e (m ≫= f) (λ b d, ∃ a d1 d2, d = vapp d1 d2 ∧ P a d1 ∧ Q a b d2).
Proof.
  intros Hm Hf s b s' H. apply tx_bind_Ok in H as (a & s1 & H1 & H2).
  destruct (Hm _ _ _ H1) as (d1 & Hv1 & HP). destruct (Hf a _ _ _ H2) as (d2 & Hv2 & HQ).
  exists (vapp d1 d2). split; [by rewrite Hv2, Hv1, vapp_assoc|]. eauto 10.
Qed.

Lemma writes_mono {A} (m : tx A) (P Q : A → view → Prop) :
  writes e m P → (∀ a d, P a d → Q a d) → writes e m Q.
Proof. intros Hm HPQ s a s' H. destruct (Hm _ _ _ H) as (d & ? & ?). eauto. Qed.

Lemma writes_for_each {A B} (f : A → tx B) (P : A → B → view → Prop) l :
  (∀ x, x ∈ l → writes e (f x) (P x)) →
  writes e (for_each f l) (λ ys d, ∃ ds, d = vconcat ds ∧ Forall3 P l ys ds).
Proof.
  induction l as [|x l IH]; intros Hf; cbn [for_each].
  - eapply writes_mono; [apply writes_ret|]. intros ys d [-> ->]. exists []. split; [done|constructor].
  - intros s ys s' H. apply tx_bind_Ok in H as (y & s1 & H1 & H). apply tx_bind_Ok in H as (ys' & s2 & H2 & H). tx_inv.
    destruct (Hf x ltac:(set_solver) _ _ _ H1) as (d1 & Hv1 & HP).
    destruct (IH ltac:(set_solver) _ _ _ H2) as (d2 & Hv2 & ds & -> & HQ).
    exists (vapp d1 (vconcat ds)). split; [by rewrite Hv2, Hv1, vapp_assoc|].
    exists (d1 :: ds). split; [done|]. by constructor.
Qed.
End writes.

(** ** What each step writes *)

Section steps.
Context {D : DecimalJs} {L : DecimalLaws D} {C : Collator} {H : Sha256} {U : UuidSource} {W : Zod}.
Context (e : env).

Ltac step := intros ? ? ? ?H; repeat (tx_inv; id_inv).
(** The rows the step appends. *)
Ltac rows := refine (ex_intro _ _ (conj _ (conj eq_refl _))); [unfold vapp, view_of; simpl; by rewrite ?app_nil_r|].

Lemma transport_writes ct clientId sid :
  writes e (resolveTransportEvidence ct clientId sid) (λ o d, True ∧ d = nothing).
Proof.
  apply writes_pure. intros s a s' Hs. unfold resolveTransportEvidence in Hs.
  destruct sid as [[|c t]|]; tx_inv; try done. repeat case_match; tx_inv; done.
Qed.

Definition invoice_row (clientId : string) (shipmentId carrierId : option string) (inv : ParsedInvoice) (i : string) : invoice :=
  mkInvoiceRow i (pg_uuid clientId) (pg_uuid <$> carrierId) (pg_uuid <$> shipmentId) (set_text (transactionSet inv))
    (invoiceNumber inv) (headerCurrency inv) (parserVersion inv).
Lemma invoice_writes clientId sh ca inv : writes e (insert_invoice clientId sh ca inv)
  (λ i d, d = only_invoices [invoice_row clientId sh ca inv i] ∧
    currency_check (headerCurrency inv) = true).
Proof. unfold insert_invoice. step. by rows. Qed.

Lemma invoice_fresh clientId sh ca inv s i s' : insert_invoice clientId sh ca inv e s = Ok (i, s') →
  i ∉ map inv_id (invoices (sources s)).
Proof. unfold insert_invoice. intros Hs. repeat (tx_inv; id_inv). done. Qed.

(** A column of an optional amount. *)
Definition column (o : option string) (c : option Z) : Prop :=
  match o, c with Some t, Some m => money_units t = Some m | None, None => True | _, _ => False end.
Lemma numeric_opt_Ok o e' s r : numeric_opt o e' s = Ok r → ∃ c, column o c ∧ r = (c, s).
Proof.
  unfold numeric_opt. destruct o as [t|]; intros Hr; tx_inv; [|by exists None].
  apply numeric_Ok in Htx as (m & Hm & _ & [= -> ->]). by exists (Some m).
Qed.
Ltac amounts := repeat match goal with
  | H : numeric _ _ _ = Ok _ |- _ => let m := fresh "m" in let Hm := fresh "Hm" in let Hb := fresh "Hb" in
      apply numeric_Ok in H as (m & Hm & Hb & H); injection H as <- <-
  | H : numeric_opt _ _ _ = Ok _ |- _ => let c := fresh "c" in let Hc := fresh "Hc" in
      apply numeric_opt_Ok in H as (c & Hc & H); injection H as <- <-
  end.

(** The row of a billed charge. *)
Definition charge_recorded (clientId invoiceId : string) (c : NormalizedCharge) (p : NormalizedCharge * string)
    (r : charge_fact) : Prop :=
  p.1 = c ∧ cf_id r = p.2 ∧ cf_account r = pg_uuid clientId ∧ cf_invoice r = invoiceId ∧ cf_code r = nc_code c ∧
  cf_category r = nc_category c ∧ (nc_amount c ≫= money_units) = Some (cf_amount r) ∧
  cf_currency r = Some (nc_currency c) ∧ column (nc_rate c) (cf_rate r) ∧ column (nc_basis c) (cf_basis r).
Lemma charge_writes clientId invoiceId c : writes e (insert_charge clientId invoiceId c)
  (λ p d, ∃ r, d = only_charges [r] ∧ charge_recorded clientId invoiceId c p r).
Proof.
  unfold insert_charge. step. amounts. refine (ex_intro _ _ (conj _ (ex_intro _ _ (conj eq_refl _)))).
  { unfold vapp, view_of. simpl. by rewrite ?app_nil_r. }
  unfold charge_recorded. simpl. split_and!; try done. by match goal with Ha : nc_amount c = _ |- _ => rewrite Ha end.
Qed.

Definition run_row (clientId invoiceId : string) (snapshotId : option string) (r : AuditResult) (i : string) : audit_run :=
  mkRun i (pg_uuid clientId) invoiceId (outcome_text (outcome r)) (pg_uuid <$> snapshotId) (pin_engineSpecVersion (pins r)).
Lemma run_writes clientId invoiceId snap r : writes e (insert_run clientId invoiceId snap r)
  (λ i d, d = only_runs [run_row clientId invoiceId snap r i] ∧ True).
Proof. unfold insert_run. step. by rows. Qed.
Lemma run_fresh clientId invoiceId snap r s i s' : insert_run clientId invoiceId snap r e s = Ok (i, s') →
  (i ∉ map ar_id (audit_runs (sources s))) ∧ i = gen_random_uuid (uuids_used s).
Proof. unfold insert_run. intros Hs. repeat (tx_inv; id_inv). done. Qed.

Definition marker_row (clientId run : string) (m : CoverageMarker) (i : string) : coverage_marker :=
  mkMarkerRow i (pg_uuid clientId) run (chargeIndex m) (coverage_code_text (cm_code m)) (missingFields m).
Lemma marker_writes clientId run m : writes e (insert_marker clientId run m)
  (λ i d, ∃ r, d = only_markers [r] ∧ r = marker_row clientId run m i).
Proof.
  unfold insert_marker. step. refine (ex_intro _ _ (conj _ (ex_intro _ _ (conj eq_refl eq_refl)))).
  unfold vapp, view_of. simpl. by rewrite ?app_nil_r.
Qed.

Definition failure_recorded (clientId run : string) (resolved : list (string * ResolvedCriterionIds))
    (transport : option string) (g : GateFailure) (i : string) (r : gate_failure) : Prop :=
  ∃ rc, map_get resolved (gf_criterionKey g) = Some rc ∧
    r = mkFailureRow i (pg_uuid clientId) run (Evaluator.gf_defect g) (Evaluator.gf_citation g) (cites rc transport)
          (jsonb (eval_json (gf_evaluatedExpr g))).
Lemma failure_writes clientId run resolved transport g : writes e (insert_failure clientId run resolved transport g)
  (λ i d, ∃ r, d = only_failures [r] ∧ failure_recorded clientId run resolved transport g i r).
Proof.
  unfold insert_failure, resolved_of. step. refine (ex_intro _ _ (conj _ (ex_intro _ _ (conj eq_refl _)))).
  { unfold vapp, view_of. simpl. by rewrite ?app_nil_r. }
  by eexists.
Qed.

Definition finding_recorded (clientId run : string) (resolved : list (string * ResolvedCriterionIds))
    (transport : option string) (f : ChargeFinding) (i : string) (r : charge_finding) : Prop :=
  ∃ rc, map_get resolved (cf_criterionKey f) = Some rc ∧
    r = mkChargeFinding i (pg_uuid clientId) run (finding_result_text (cf_result f)) (cites rc transport)
          (jsonb (eval_json (cf_evaluatedExpr f))).
Lemma finding_writes clientId run resolved transport f : writes e (insert_charge_finding clientId run resolved transport f)
  (λ i d, ∃ r, d = only_findings [r] ∧ finding_recorded clientId run resolved transport f i r).
Proof.
  unfold insert_charge_finding, resolved_of. step. refine (ex_intro _ _ (conj _ (ex_intro _ _ (conj eq_refl _)))).
  { unfold vapp, view_of. simpl. by rewrite ?app_nil_r. }
  by eexists.
Qed.

Lemma materiality_column o x c c' : materiality o = Ok x → column x c → column o c' → c = Z.abs <$> c'.
Proof.
  unfold materiality. destruct o as [t|], c' as [m|]; try done.
  - intros Hm Hx Ho. apply bind_Ok in Hm as (d & Hd & [= <-]).
    destruct (decimal_units _ _ Ho) as (d' & Hd' & Hdm). assert (d' = d) as -> by congruence.
    destruct c as [n|]; [|done]. simpl in Hx. rewrite (money_fixed _ _ (money_abs _ _ Hdm)), money_units_fixed in Hx.
    by injection Hx as <-.
  - intros [= <-]. by destruct c.
Qed.

Definition conformed (f : ChargeFinding) : bool := match cf_result f with CONFORMED => true | _ => false end.
(** An observation that is not CONFORMED becomes an open finding, with its
    amount as scored. *)
Definition variance_recorded (clientId run : string) (resolved : list (string * ResolvedCriterionIds))
    (transport : option string) (facts : list (NormalizedCharge * string)) (f : ChargeFinding) (r : variance_finding) : Prop :=
  vf_account r = pg_uuid clientId ∧ vf_audit_run r = run ∧ vf_status r = "open" ∧ vf_assigned_to r = None ∧
  vf_direction r = (match cf_direction f with INTEGRITY_ONLY => None | d => Some (direction_text d) end) ∧
  column (cf_varianceAmount f) (vf_variance_amount r) ∧ vf_currency r = Evaluator.cf_currency f ∧
  fb_charge_fact (vf_basis r) = attributed_charge facts (cf_criterionKey f) ∧
  fb_materiality (vf_basis r) = Z.abs <$> vf_variance_amount r ∧
  ∃ rc, map_get resolved (cf_criterionKey f) = Some rc ∧ fb_cites (vf_basis r) = cites rc transport.
Lemma variance_writes clientId run resolved transport facts f :
  writes e (insert_variance clientId run resolved transport facts f)
    (λ _ d, ∃ l, d = only_variances l ∧
      if conformed f then l = [] else ∃ r, l = [r] ∧ variance_recorded clientId run resolved transport facts f r).
Proof.
  unfold insert_variance, resolved_of, conformed. destruct (cf_result f) eqn:Er.
  { eapply writes_mono; [apply writes_ret|]. intros ? d [_ ->]. by exists []. }
  all: step; amounts.
  all: refine (ex_intro _ _ (conj _ (ex_intro _ _ (conj eq_refl (ex_intro _ _ (conj eq_refl _))))));
    [unfold vapp, view_of; simpl; by rewrite ?app_nil_r|].
  all: unfold variance_recorded; simpl; split_and!; try done; [by eapply materiality_column|by eexists].
Qed.

Definition scorecard_recorded (clientId run : string) (currency : option string) (c : Scorecard) (i : string)
    (r : Database.scorecard) : Prop :=
  sk_id r = i ∧ sk_account r = pg_uuid clientId ∧ sk_audit_run r = run ∧ sk_conformed r = conformedCount c ∧
  sk_variance r = varianceCount c ∧ sk_unassessable r = unassessableCount c ∧
  money_units (totalOvercharge c) = Some (sk_overcharge r) ∧ money_units (totalUndercharge c) = Some (sk_undercharge r) ∧
  sk_currency r = currency.
Lemma scorecard_writes clientId run currency c : writes e (insert_scorecard clientId run currency c)
  (λ i d, ∃ r, d = only_scorecards [r] ∧ scorecard_recorded clientId run currency c i r).
Proof.
  unfold insert_scorecard. step. amounts. refine (ex_intro _ _ (conj _ (ex_intro _ _ (conj eq_refl _)))).
  { unfold vapp, view_of. simpl. by rewrite ?app_nil_r. }
  by unfold scorecard_recorded.
Qed.

Definition manifest_row (clientId run hash : string) (m : AuditReplayManifest) : replay_manifest :=
  mkManifestRow (pg_uuid clientId) run hash (jsonb (manifest_json m)).
Lemma manifest_writes clientId run hash m : writes e (insert_manifest clientId run hash m)
  (λ _ d, d = only_manifests [manifest_row clientId run hash m] ∧ True).
Proof. unfold insert_manifest. step. by rows. Qed.

Lemma emit_writes i : writes e (emit i) (λ _ d, True ∧ d = nothing).
Proof.
  apply writes_pure. intros s b s' Hs. split; [|done]. pose proof (emit_evaluations _ _ _ _ _ Hs) as He.
  apply emit_frame in Hs as (Hs & Hf & _ & _ & Hp & _). unfold view_of. by rewrite Hs, Hf, Hp, He.
Qed.

Lemma resolve_writes ct r : writes e (resolve_keys ct r)
  (λ l d, (l.*1 = result_keys r ∧ ∀ k rc, (k, rc) ∈ l → resolveCriterionIds ct e k = Some rc) ∧ d = nothing).
Proof.
  apply writes_pure. unfold resolve_keys. generalize (result_keys r) as keys.
  induction keys as [|k keys IH]; intros s l s' Hl; cbn [for_each] in Hl; tx_inv; [set_solver|].
  destruct (IH _ _ _ Htx0) as (Hv & Hk & Hr). split; [done|]. split; [cbn; by rewrite Hk|].
  intros k' rc [[= -> ->]|Hin]%elem_of_cons; [done|]. by apply Hr.
Qed.
End steps.

(** ** The decision *)

Section decision.
Context {D : DecimalJs} {L : DecimalLaws D} {C : Collator} {H : Sha256} {U : UuidSource} {UL : UuidSourceLaws U} {W : Zod}.
Context (e : env).

(** The system's decision on a run. *)
Definition system_decision (clientId invoiceId run action : string) (rationale : string) (d : payment_gate_decision) : Prop :=
  pd_account d = pg_uuid clientId ∧ pd_invoice d = invoiceId ∧ pd_audit_run d = run ∧ pd_action d = action ∧
  pd_amount d = None ∧ pd_actor_kind d = ActorSystem ∧ pd_rationale d = Some rationale.
Definition holds_first (ct : catalog) (clientId : string) : bool :=
  match select_one (λ p, uuid_is (pc_clientId p) clientId) (ct_policies ct) with
  | Some p => pc_holdThenApprove p
  | None => DEFAULT_PAYMENT_POLICY.1.1
  end.
Definition decisions_for (ct : catalog) (clientId invoiceId run : string) (r : AuditResult) (failures : list gate_failure)
    (ds : list payment_gate_decision) : Prop :=
  match outcome r with
  | SCORED => if holds_first ct clientId
              then ∃ d, ds = [d] ∧ system_decision clientId invoiceId run "hold" HOLD_RATIONALE d else ds = []
  | REJECTED_REWORK => ∃ d dn, ds = [d] ∧ composeDoNotPayDecision failures = Ok dn ∧
      system_decision clientId invoiceId run "do_not_pay" (dn_rationale dn) d
  end.

Lemma decide_writes clientId i run action kind rationale s rowId s' : pg_uuid run = run →
  insert_decision clientId i run action None None kind rationale e s = Ok (rowId, s') →
  ∃ d, view_of s' = vapp (view_of s) (only_decisions [d]) ∧ pd_account d = pg_uuid clientId ∧ pd_invoice d = i ∧
    pd_audit_run d = run ∧ pd_action d = action ∧ pd_amount d = None ∧ pd_actor_kind d = kind ∧ pd_rationale d = rationale.
Proof.
  intros Hr (_ & _ & _ & m & -> & ->)%insert_decision_spec. rewrite Hr. eexists. split.
  { unfold vapp, view_of. simpl. rewrite ?app_nil_r. reflexivity. }
  done.
Qed.

(** The run just inserted is the one a query by its id finds. *)
Lemma new_run_selected (p : audit_run → bool) runs row run : ar_id row = run → (run ∉ map ar_id runs) → p row = true →
  (∀ r, p r = true → ar_id r = run) → select_one p (runs ++ [row]) = Some row.
Proof.
  intros Hid Hf Hp Hsound. rewrite select_one_app. replace (select_one p runs) with (@None audit_run).
  { unfold select_one. simpl. by rewrite Hp. }
  symmetry. apply select_one_None. intros r Hr. destruct (p r) eqn:E; [|done]. destruct Hf.
  rewrite <- (Hsound r E). by apply list_elem_of_fmap_2.
Qed.

Lemma decision_writes ct clientId invoiceId snap r run s x s' runs failures old :
  payment_decision ct clientId run r e s = Ok (x, s') → pg_uuid run = run →
  audit_runs (sources s) = runs ++ [run_row clientId invoiceId snap r run] → (run ∉ map ar_id runs) →
  (∀ d, d ∈ payment_gate_decisions s → pd_audit_run d ≠ run) →
  gate_failures (sources s) = old ++ failures → (∀ g, g ∈ old → gf_audit_run g ≠ run) →
  (∀ g, g ∈ failures → gf_account g = pg_uuid clientId ∧ gf_audit_run g = run) →
  ∃ ds, view_of s' = vapp (view_of s) (only_decisions ds) ∧ decisions_for ct clientId invoiceId run r failures ds.
Proof.
  intros Hp Hrun Hruns Hfresh Hdec Hfail Hold Hnew. unfold payment_decision, decisions_for in *.
  assert (∀ action, existsb (decision_of clientId run action) (payment_gate_decisions s) = false) as Hnone.
  { intros action. apply existsb_false. intros d Hd. unfold decision_of, uuid_is. rewrite Hrun.
    rewrite (bool_decide_eq_false_2 (pd_audit_run d = run)) by by apply Hdec. by rewrite andb_false_r. }
  assert (∀ action, select_one (decision_of clientId run action) (payment_gate_decisions s) = None) as Hnosel.
  { intros action. apply select_one_None. by apply existsb_false. }
  assert (∀ text, outcome_text (outcome r) = text → select_one (λ r0, run_of clientId run r0 && bool_decide (ar_outcome r0 = text))
    (audit_runs (sources s)) = Some (run_row clientId invoiceId snap r run)) as Hsel.
  { intros text Ht. rewrite Hruns. apply (new_run_selected _ _ _ run); [done|done| |].
    - unfold run_of, uuid_is. simpl. by rewrite Hrun, !bool_decide_eq_true_2.
    - intros r0 [[_ Hi]%andb_true_iff _]%andb_true_iff. unfold uuid_is in Hi. rewrite Hrun in Hi.
      by apply bool_decide_eq_true in Hi. }
  assert (True → List.filter (λ g, uuid_is (gf_account g) clientId && uuid_is (gf_audit_run g) run) (gate_failures (sources s)) =
    failures) as Hfilter.
  { intros _. rewrite Hfail, List.filter_app, (filter_none _ old), (filter_all _ failures); [done|..]; intros g Hg; unfold uuid_is; rewrite Hrun.
    - destruct (Hnew g Hg) as [-> ->]. by rewrite !bool_decide_eq_true_2.
    - rewrite (bool_decide_eq_false_2 (gf_audit_run g = run)) by by apply Hold. by rewrite andb_false_r. }
  destruct (outcome r) eqn:Eo.
  - unfold generateDoNotPayDecision in Hp. tx_inv. unfold id in *. rewrite Hnone in *.
    match goal with Hx : select_one _ _ = Some _ |- _ => rewrite (Hsel "REJECTED_REWORK" eq_refl) in Hx; injection Hx as <- end.
    match goal with Hx : composeDoNotPayDecision _ = Ok _ |- _ => rewrite (Hfilter I) in Hx end.
    clear Hfilter. tx_inv.
    match goal with Hi : insert_decision _ _ _ _ _ _ _ _ _ _ = _ |- _ => apply decide_writes in Hi as (d & Hv & Hd); [|done] end.
    match goal with He : emit _ _ _ = _ |- _ => apply emit_writes in He as (d0 & Hv' & _ & ->); rewrite vapp_nothing_r in Hv' end.
    exists [d]. split; [by rewrite Hv', Hv|]. eexists d, _. split; [done|]. split; [done|]. unfold system_decision. naive_solver.
  - unfold generateHoldDecision in Hp. fold (holds_first ct clientId) in Hp. destruct (holds_first ct clientId).
    + clear Hfilter. tx_inv. cbn [negb] in *. tx_inv.
      match goal with Hx : select_one _ _ = Some _ |- _ => rewrite (Hsel "SCORED" eq_refl) in Hx; injection Hx as <- end.
      rewrite Hnosel in *. tx_inv.
      match goal with Hi : insert_decision _ _ _ _ _ _ _ _ _ _ = _ |- _ => apply decide_writes in Hi as (d & Hv & Hd); [|done] end.
      match goal with He : emit _ _ _ = _ |- _ => apply emit_writes in He as (d0 & Hv' & _ & ->); rewrite vapp_nothing_r in Hv' end.
      exists [d]. split; [by rewrite Hv', Hv|]. exists d. split; [done|]. unfold system_decision. naive_solver.
    + tx_inv. cbn [negb] in *. tx_inv. exists []. by rewrite vapp_nothing_r.
Qed.
End decision.

(** ** The whole transaction *)

(** Rows of one table, one per element. *)
Lemma concat_only {A B R} (only : list R → view) (P : A → B → R → Prop) l ys ds :
  only [] = nothing → (∀ r rs, only (r :: rs) = vapp (only [r]) (only rs)) →
  Forall3 (λ x y d, ∃ r, d = only [r] ∧ P x y r) l ys ds → ∃ rs, vconcat ds = only rs ∧ Forall3 P l ys rs.
Proof.
  intros Hn Hc. induction 1 as [|x y d l ys ds (r & -> & Hr) _ (rs & Hrs & HP)].
  - exists []. split; [by rewrite Hn|constructor].
  - exists (r :: rs). split; [|by constructor]. simpl. rewrite Hrs. symmetry. apply Hc.
Qed.
Lemma concat_variances {A B R} (P : A → R → Prop) (drop : A → bool) (only : list R → view) (l : list A) (ys : list B) ds :
  only [] = nothing → (∀ rs rs', only (rs ++ rs') = vapp (only rs) (only rs')) →
  Forall3 (λ x _ d, ∃ rs, d = only rs ∧ if drop x then rs = [] else ∃ r, rs = [r] ∧ P x r) l ys ds →
  ∃ rs, vconcat ds = only rs ∧ Forall2 P (List.filter (λ x, negb (drop x)) l) rs.
Proof.
  intros Hn Hc. induction 1 as [|x y d l ys ds (r & -> & Hr) _ (rs & Hrs & HP)].
  - exists []. split; [by rewrite Hn|constructor].
  - simpl. destruct (drop x); simpl.
    + subst r. exists rs. split; [by rewrite Hrs, <- Hc|done].
    + destruct Hr as (r0 & -> & Hr0). exists (r0 :: rs). split; [by rewrite Hrs, <- Hc|by constructor].
Qed.

(** Foreign keys: a gate failure, a decision and a manifest belong to a run. *)
Definition references_ok (s : db) : Prop :=
  (∀ g, g ∈ gate_failures (sources s) → gf_audit_run g ∈ map ar_id (audit_runs (sources s))) ∧
  (∀ d, d ∈ payment_gate_decisions s → pd_audit_run d ∈ map ar_id (audit_runs (sources s))) ∧
  (∀ m, m ∈ replay_manifests (evaluations s) → rm_audit_run m ∈ map ar_id (audit_runs (sources s))).

Section persist.
Context {D : DecimalJs} {L : DecimalLaws D} {C : Collator} {H : Sha256} {U : UuidSource} {UL : UuidSourceLaws U} {W : Zod}.

(** The rows [d] that record an audit. *)
Record audit_recorded (ct : catalog) (e : env) (input : PersistInput) (p : PersistedRun)
    (resolved : list (string * ResolvedCriterionIds)) (transport : option string)
    (facts : list (NormalizedCharge * string)) (d : view) : Prop := mkRecorded {
  rec_invoice : v_invoices d = [invoice_row (pi_clientId input) (pi_shipmentId input) (pi_carrierId input)
                                  (pi_invoice input) (pr_invoiceId p)];
  rec_run : v_runs d = [run_row (pi_clientId input) (pr_invoiceId p) (pi_rubricSnapshotId input) (pi_result input)
                          (pr_auditRunId p)];
  rec_charges : match outcome (pi_result input) with
    | SCORED => Forall3 (charge_recorded (pi_clientId input) (pr_invoiceId p)) (charges (pi_invoice input)) facts (v_charges d)
    | REJECTED_REWORK => v_charges d = []
    end;
  rec_failures : Forall3 (failure_recorded (pi_clientId input) (pr_auditRunId p) resolved transport)
    (gateFailures (pi_result input)) (pr_gateFailureIds p) (v_failures d);
  rec_findings : Forall3 (finding_recorded (pi_clientId input) (pr_auditRunId p) resolved transport)
    (Evaluator.findings (pi_result input)) (pr_chargeFindingIds p) (v_findings d);
  rec_variances : Forall2 (variance_recorded (pi_clientId input) (pr_auditRunId p) resolved transport facts)
    (List.filter (λ f, negb (conformed f)) (Evaluator.findings (pi_result input))) (v_variances d);
  rec_markers : Forall3 (λ m i r, r = marker_row (pi_clientId input) (pr_auditRunId p) m i)
    (coverageMarkers (pi_result input)) (pr_coverageMarkerIds p) (v_markers d);
  rec_scorecard : match Evaluator.scorecard (pi_result input), pr_scorecardId p with
    | Some c, Some i => ∃ r, v_scorecards d = [r] ∧
        scorecard_recorded (pi_clientId input) (pr_auditRunId p) (headerCurrency (pi_invoice input)) c i r
    | None, None => v_scorecards d = []
    | _, _ => False
    end;
  rec_decision : decisions_for ct (pi_clientId input) (pr_invoiceId p) (pr_auditRunId p) (pi_result input)
    (v_failures d) (v_decisions d);
  rec_manifest : ∃ hash, v_manifests d = [manifest_row (pi_clientId input) (pr_auditRunId p) hash
      (build_manifest ct e input (pr_auditRunId p) resolved)] ∧
    replayManifestHash (manifest_json (build_manifest ct e input (pr_auditRunId p) resolved)) = Some hash;
  rec_resolved : map fst resolved = result_keys (pi_result input) ∧
    ∀ k rc, (k, rc) ∈ resolved → resolveCriterionIds ct e k = Some rc;
}.

(** The charges, written only on a clean gate. *)
Lemma charges_step clientId invoiceId inv r e s facts s' :
  match outcome r with
  | SCORED => for_each (insert_charge clientId invoiceId) (charges inv)
  | REJECTED_REWORK => mret []
  end e s = Ok (facts, s') →
  ∃ rows, view_of s' = vapp (view_of s) (only_charges rows) ∧
    match outcome r with
    | SCORED => Forall3 (charge_recorded clientId invoiceId) (charges inv) facts rows
    | REJECTED_REWORK => rows = []
    end.
Proof.
  destruct (outcome r); intros Hc.
  - tx_inv. exists []. by rewrite vapp_nothing_r.
  - apply (writes_for_each _ _ _ _ (λ x _, charge_writes e _ _ x)) in Hc as (d & V & ds & -> & Hds).
    apply concat_only in Hds as (rows & Hr & Hf); [|done..]. exists rows. by rewrite <- Hr.
Qed.
Lemma scorecard_step clientId run currency o e s i s' :
  match o with Some c => i ← insert_scorecard clientId run currency c; mret (Some i) | None => mret None end e s = Ok (i, s') →
  ∃ rows, view_of s' = vapp (view_of s) (only_scorecards rows) ∧
    match o, i with
    | Some c, Some i => ∃ r, rows = [r] ∧ scorecard_recorded clientId run currency c i r
    | None, None => rows = []
    | _, _ => False
    end.
Proof.
  destruct o as [c|]; intros Hs.
  - apply tx_bind_Ok in Hs as (j & s1 & Hj & Hs). tx_inv. apply scorecard_writes in Hj as (d & V & r & -> & Hr). eauto 10.
  - tx_inv. exists []. by rewrite vapp_nothing_r.
Qed.

Lemma variances_step clientId run resolved transport facts fs e s us s' :
  for_each (insert_variance clientId run resolved transport facts) fs e s = Ok (us, s') →
  ∃ rows, view_of s' = vapp (view_of s) (only_variances rows) ∧
    Forall2 (variance_recorded clientId run resolved transport facts) (List.filter (λ f, negb (conformed f)) fs) rows.
Proof.
  intros Hv. apply (writes_for_each _ _ _ _ (λ x _, variance_writes e _ _ _ _ _ x)) in Hv as (d & V & ds & -> & Hds).
  apply (concat_variances _ conformed only_variances) in Hds as (rows & Hr & Hf); [exists rows; by rewrite <- Hr|done..].
Qed.
Lemma failures_owned clientId run resolved transport gs ids rows :
  Forall3 (failure_recorded clientId run resolved transport) gs ids rows →
  ∀ g, g ∈ rows → gf_account g = pg_uuid clientId ∧ gf_audit_run g = run.
Proof.
  induction 1 as [|x y r gs ids rows (rc & _ & ->) _ IH]; intros g Hg; [set_solver|].
  apply elem_of_cons in Hg as [->|Hg]; [done|by apply IH].
Qed.

Ltac table_step H lemma := apply (writes_for_each _ _ _ _ (λ x _, lemma x)) in H as (? & ? & ? & -> & H);
  apply concat_only in H as (? & ? & H); [|done..].

Lemma persist_spec ct input e s p s' : references_ok s → persistAuditRun ct input e s = Ok (p, s') →
  (pr_auditRunId p ∉ map ar_id (audit_runs (sources s))) ∧ pg_uuid (pr_auditRunId p) = pr_auditRunId p ∧
  (pr_invoiceId p ∉ map inv_id (invoices (sources s))) ∧
  ∃ resolved transport facts d, view_of s' = vapp (view_of s) d ∧ audit_recorded ct e input p resolved transport facts d.
Proof.
  intros (Rg & Rd & Rm) Hp. unfold persistAuditRun in Hp.
  apply tx_bind_Ok in Hp as (transport & s1 & H1 & Hp). apply transport_writes in H1 as (d1 & V1 & _ & ->).
  apply tx_bind_Ok in Hp as (invoiceId & s2 & H2 & Hp). pose proof (invoice_fresh _ _ _ _ _ _ _ _ H2) as Hinew.
  apply invoice_writes in H2 as (d2 & V2 & -> & Hcur).
  apply tx_bind_Ok in Hp as (facts & s3 & H3 & Hp). apply charges_step in H3 as (crows & V3 & Hcharges).
  apply tx_bind_Ok in Hp as (run & s4 & H4 & Hp). pose proof (run_fresh _ _ _ _ _ _ _ _ H4) as [Hfresh Hrun].
  apply run_writes in H4 as (d4 & V4 & -> & _).
  apply tx_bind_Ok in Hp as (markers & s5 & H5 & Hp). table_step H5 (marker_writes e (pi_clientId input) run).
  apply tx_bind_Ok in Hp as (resolved & s6 & H6 & Hp). apply resolve_writes in H6 as (d6 & V6 & Hres & ->).
  apply tx_bind_Ok in Hp as (fids & s7 & H7 & Hp). table_step H7 (failure_writes e (pi_clientId input) run resolved transport).
  match goal with V5 : view_of s5 = _, V7 : view_of s7 = _, E5 : vconcat _ = only_markers _, E7 : vconcat _ = only_failures _ |- _ =>
    rewrite V6, V5, V4, V3, V2, V1, E5, E7, view_prefix in V7; rename V7 into V end.
  assert (audit_runs (sources s3) = audit_runs (sources s)) as Hruns.
  { apply (f_equal v_runs) in V1, V2, V3. simpl in V1, V2, V3. rewrite app_nil_r in V1, V2, V3. congruence. }
  rewrite Hruns in Hfresh. pose proof (f_equal v_invoices V1) as Vi. simpl in Vi. rewrite app_nil_r in Vi.
  rewrite Vi in Hinew. clear V1 V2 V3 V4 V6 Hruns.
  assert (pg_uuid run = run) as Hpg by (rewrite Hrun; apply gen_random_uuid_lower).
  pose proof (f_equal v_runs V) as Vr. pose proof (f_equal v_failures V) as Vf. pose proof (f_equal v_decisions V) as Vd.
  simpl in Vr, Vf, Vd. rewrite app_nil_r in Vd.
  apply tx_bind_Ok in Hp as ([] & s8 & H8 & Hp).
  match goal with F : Forall3 (failure_recorded _ _ _ _) _ _ _ |- _ => rename F into Hfails end.
  edestruct (decision_writes e) as (ds & V8 & Hdec); [exact H8|exact Hpg|exact Vr|exact Hfresh| |exact Vf| | |].
  { intros d Hd Hr. rewrite Vd in Hd. apply Hfresh. rewrite <- Hr. by apply Rd. }
  { intros g Hg Hr. apply Hfresh. rewrite <- Hr. by apply Rg. }
  { by apply (failures_owned _ _ _ _ _ _ _ Hfails). }
  clear H8.
  apply tx_bind_Ok in Hp as (cids & s9 & H9 & Hp).
  table_step H9 (finding_writes e (pi_clientId input) run resolved transport).
  apply tx_bind_Ok in Hp as (vids & s10 & H10 & Hp).
  apply variances_step in H10 as (vrows & V10 & Hvars).
  apply tx_bind_Ok in Hp as (sid & s11 & H11 & Hp). apply scorecard_step in H11 as (krows & V11 & Hcard).
  apply tx_bind_Ok in Hp as (e' & s12 & Hask & Hp). injection Hask as <- <-.
  apply tx_bind_Ok in Hp as (hash & s13 & (h & Hhash & [= <- <-])%the_Ok & Hp).
  apply tx_bind_Ok in Hp as ([] & s14 & H14 & Hp). apply manifest_writes in H14 as (d14 & V14 & -> & _).
  apply tx_bind_Ok in Hp as (ev & s15 & H15 & Hp). apply emit_writes in H15 as (d15 & V15 & _ & ->).
  injection Hp as <- <-. split; [done|]. split; [done|]. split; [done|]. exists resolved, transport, facts.
  match goal with V9 : view_of s9 = _, E9 : vconcat _ = only_findings _ |- _ =>
    rewrite V14, V11, V10, V9, V8, V, E9, view_suffix in V15 end.
  eexists. split; [exact V15|]. constructor; simpl; eauto.
Qed.

(** The rows of an outcome. *)
Definition rejected_rows (d : view) : Prop :=
  v_charges d = [] ∧ v_findings d = [] ∧ v_variances d = [] ∧ v_scorecards d = [] ∧ v_failures d ≠ [] ∧
  map pd_action (v_decisions d) = ["do_not_pay"].
Definition scored_rows (ct : catalog) (clientId : string) (charges : nat) (d : view) : Prop :=
  v_failures d = [] ∧ length (v_charges d) = charges ∧
  map pd_action (v_decisions d) = (if holds_first ct clientId then ["hold"] else []) ∧
  ∃ k, v_scorecards d = [k] ∧
    sk_conformed k + sk_variance k + sk_unassessable k = Z.of_nat (length (v_findings d)) ∧
    sk_variance k + sk_unassessable k = Z.of_nat (length (v_variances d)).

Lemma conformed_count fs :
  count_results CONFORMED fs + Z.of_nat (length (List.filter (λ f, negb (conformed f)) fs)) = Z.of_nat (length fs).
Proof.
  unfold count_results, conformed. induction fs as [|f fs IH]; [done|]. rewrite zsum_by_cons. simpl List.filter.
  destruct (cf_result f); simpl bool_decide; cbv iota beta; simpl length; simpl negb; cbv iota; simpl length; lia.
Qed.

Lemma recorded_outcome ct e input rubric contract p resolved transport facts d :
  evaluateInvoice (pi_invoice input) rubric contract = Ok (pi_result input) →
  audit_recorded ct e input p resolved transport facts d →
  match outcome (pi_result input) with
  | REJECTED_REWORK => rejected_rows d
  | SCORED => scored_rows ct (pi_clientId input) (length (charges (pi_invoice input))) d
  end.
Proof.
  intros (bundle & failures & _ & _ & _ & _ & Hg & Hr)%evaluateInvoice_inv [_ _ Rc Rf Rfi Rv _ Rs Rd _ _].
  unfold decisions_for in Rd. rewrite Hg in Rf. destruct failures as [|g gs].
  - destruct Hr as (Ho & st & Hst & Hf & Hcard). rewrite Ho in *. rewrite Hcard in Rs.
    inversion Rf as [Hn|]; subst. destruct (pr_scorecardId p) as [i|]; [|done]. destruct Rs as (k & Hk & _ & _ & _ & K1 & K2 & K3 & _).
    destruct (score_counts _ _ _ _ Hst) as (C1 & C2 & C3); [done..|]. simpl in K1, K2, K3.
    rewrite C1 in K1. rewrite C2 in K2. rewrite C3 in K3. rewrite <- Hf in K1, K2, K3.
    pose proof (count_results_total (Evaluator.findings (pi_result input))) as Ht.
    pose proof (conformed_count (Evaluator.findings (pi_result input))) as Hc.
    apply Forall3_length_lr in Rfi. apply Forall2_length in Rv.
    split; [done|]. split; [by apply Forall3_length_lr in Rc|]. split.
    { destruct (holds_first ct (pi_clientId input)); [|by rewrite Rd].
      destruct Rd as (dec & -> & _ & _ & _ & Ha & _). simpl. by rewrite Ha. }
    exists k. split; [done|]. lia.
  - destruct Hr as (Ho & Hf & Hcard). rewrite Ho in *. rewrite Hf in *. rewrite Hcard in Rs.
    inversion Rfi; inversion Rv; inversion Rf; subst. unfold rejected_rows. destruct Rd as (dec & dn & -> & _ & _ & _ & _ & Ha & _).
    destruct (pr_scorecardId p); [done|]. split_and!; try congruence. simpl. by rewrite Ha.
Qed.

(** C4: an audit is recorded whole, in rows that agree with its outcome: the run
    is new; the tables grow by the invoice, the run and one row per coverage
    marker, gate failure and finding, each citing the references its criterion
    resolves to; every finding that does not conform opens a variance finding of
    the same amount; the replay manifest pins the inputs and the result.  A
    rejected invoice leaves its failures, no charge, finding or scorecard, and a
    refusal to pay; a scored one leaves no failure, all its charges, a scorecard
    that counts the findings and, unless the tenant's policy says otherwise, a
    hold. *)
Theorem audit_persisted ct input rubric contract e s p s' :
  references_ok s → evaluateInvoice (pi_invoice input) rubric contract = Ok (pi_result input) →
  persistAuditRun ct input e s = Ok (p, s') →
  (pr_auditRunId p ∉ map ar_id (audit_runs (sources s))) ∧
  ∃ resolved transport facts d, view_of s' = vapp (view_of s) d ∧
    audit_recorded ct e input p resolved transport facts d ∧
    match outcome (pi_result input) with
    | REJECTED_REWORK => rejected_rows d
    | SCORED => scored_rows ct (pi_clientId input) (length (charges (pi_invoice input))) d
    end.
Proof.
  intros Hs Hev (Hf & _ & _ & resolved & transport & facts & d & Hv & Hd)%persist_spec; [|done]. split; [done|].
  exists resolved, transport, facts, d. split; [done|]. split; [done|]. by eapply recorded_outcome.
Qed.
End persist.

(** ** The theorems at work *)

Section examples.
#[local] Existing Instances ExactDecimal.ops ExactDecimal.laws demo_sha demo_uuid demo_uuid_laws demo_zod code_unit_collator.

#[local] Abbreviation rejected := (persistAuditRun demo_catalog (demo_persist "521.0000" demo_rejected) demo_env empty_db).
Definition rejected_db : db := tx_state rejected empty_db.
Definition rejected_run : PersistedRun := Eval vm_compute in
  default (mkPersisted "" "" [] [] [] None) (tx_value rejected).
Lemma rejected_ok : rejected = Ok (rejected_run, rejected_db).
Proof. apply (tx_ran rejected). vm_compute. reflexivity. Qed.
Lemma empty_references : references_ok empty_db.
Proof. split_and!; intros x Hx; by apply elem_of_nil in Hx. Qed.
Lemma audit_persisted_witness :
  ∃ d, view_of rejected_db = vapp (view_of empty_db) d ∧ rejected_rows d.
Proof.
  destruct (audit_persisted demo_catalog (demo_persist "521.0000" demo_rejected) CONTRACT_RUBRIC demo_contract demo_env
    empty_db rejected_run rejected_db empty_references demo_run_rejected rejected_ok)
    as (_ & resolved & transport & facts & d & Hv & _ & Hd).
  exists d. split; [exact Hv|exact Hd].
Defined.
End examples.
