(* ===== verification/ReplaySafety.v ===== *)
(** Replaying a persisted audit gives back its result, byte for byte. *)

From S2P Require Import Prelude JsText Decimal Json Store AuditLedger Interpreter AstJson Rubrics Facts Evaluator Jsonb Manifest JsDate Database Tx Jobs Money Payments PaymentsSafety Persist Replay PersistSafety.

(** ** The catalog a manifest pins *)

(** Primary keys are unique, and stored in lower case. *)
Definition keyed {R} (key : R → string) (t : list R) : Prop :=
  NoDup (map key t) ∧ ∀ r, r ∈ t → pg_uuid (key r) = key r.
Definition catalog_ok (ct : catalog) : Prop :=
  keyed rv_id (ct_rule_versions ct) ∧ keyed cv_id (ct_contract_versions ct).

Lemma keyed_selected {R} (key : R → string) t r : keyed key t → r ∈ t →
  select_one (λ x, uuid_is (key x) (key r)) t = Some r.
Proof. intros [Hn Hk] Hr. unfold uuid_is. rewrite (Hk r Hr). by apply select_one_unique. Qed.
(** A unique key finds its row under any filter the row passes. *)
Lemma keyed_selected_and {R} (key : R → string) (p : R → bool) t r : keyed key t → r ∈ t → p r = true →
  select_one (λ x, uuid_is (key x) (key r) && p x) t = Some r.
Proof.
  intros Hk Hr Hp. destruct (select_one_existsb (λ x, uuid_is (key x) (key r) && p x) t) as [x Hx].
  { apply existsb_true. exists r. split; [done|]. unfold uuid_is. by rewrite (proj2 Hk r Hr), bool_decide_eq_true_2. }
  rewrite Hx. f_equal. apply select_one_Some in Hx as [Hin [Hxr _]%andb_true_iff].
  pose proof (keyed_selected key t x Hk Hin) as Hsx. pose proof (keyed_selected key t r Hk Hr) as Hsr.
  unfold uuid_is in *. apply bool_decide_eq_true in Hxr. rewrite (proj2 Hk r Hr) in Hxr. rewrite Hxr in Hsx. congruence.
Qed.

Lemma keyed_decided {R} (key : R → string) t :
  bool_decide (NoDup (map key t)) && forallb (λ r, bool_decide (pg_uuid (key r) = key r)) t = true → keyed key t.
Proof.
  rewrite andb_true_iff, bool_decide_eq_true, forallb_forall. intros [Hn Hk]. split; [done|].
  intros r Hr%list_elem_of_In%Hk. by apply bool_decide_eq_true in Hr.
Qed.

Section pins.
Context (ct : catalog) (e : env) (Hct : catalog_ok ct).

Lemma rule_pins_verified resolved : forallb pin_ok (rule_pins ct resolved) = true →
  forallb (rule_pin_ok ct) (rule_pins ct resolved) = true.
Proof using Hct.
  intros Hok. rewrite forallb_forall in Hok |- *. intros p Hp. specialize (Hok p Hp). unfold rule_pins in Hp.
  apply in_map_iff in Hp as (v & <- & Hv%list_elem_of_In). rewrite elem_of_js_sort in Hv.
  apply list_elem_of_In, filter_In in Hv as [Hv%list_elem_of_In _].
  unfold rule_pin_ok. simpl. rewrite (keyed_selected rv_id) by (done || apply Hct).
  apply andb_true_iff in Hok as [_ Hh]. simpl in Hh. destruct (rv_ast_hash v); [done|]. by apply bool_decide_eq_true.
Qed.

Lemma contract_pins_verified ids : forallb (contract_pin_ok ct e) (contract_pins ct e ids) = true.
Proof using Hct.
  apply forallb_forall. intros p Hp. unfold contract_pins in Hp.
  apply in_map_iff in Hp as (v & <- & Hv%list_elem_of_In). rewrite elem_of_js_sort in Hv.
  apply list_elem_of_In, filter_In in Hv as [Hv%list_elem_of_In [_ Hvis]%andb_true_iff].
  unfold contract_pin_ok, contract_pin. simpl.
  rewrite (keyed_selected_and cv_id (λ r, visible e (cv_account r))) by (done || apply Hct).
  destruct (cv_source_document v) as [doc|]; [|done]. simpl. destruct (select_one _ _) as [sd|]; [|done]. simpl.
  destruct (sd_sha256 sd) as [|c t]; [done|]. simpl. by apply bool_decide_eq_true.
Qed.
End pins.

Section replay.
Context {D : DecimalJs} {L : DecimalLaws D} {C : Collator} {H : Sha256} {HL : Sha256Laws H}.
Context {U : UuidSource} {UL : UuidSourceLaws U} {W : Zod}.

Definition result_hash (result : json) : string := hex (sha256 (canonicalJson result)).
(** The event of a replay that found the result of hash [h] again. *)
Definition replay_event (clientId run manifestHash h : string) : AuditEvent :=
  audit_event (deterministicAuditEventId [clientId; run; h; "replay.executed"])
    clientId "audit_run" run "replay.executed" ActorSystem None
    [("manifestHash", JString manifestHash); ("originalResultHash", JString h);
     ("resultHash", JString h); ("byteIdentical", JBool true)].
Lemma replay_event_valid clientId run mh h : isUuid clientId = true → isUuid run = true →
  ∃ v, AuditEventInputSchema (replay_event clientId run mh h) = Some v ∧
    audit_row v = audit_row (replay_event clientId run mh h).
Proof.
  intros Hc Hr. unfold AuditEventInputSchema, replay_event, audit_event. cbn [ae_id ae_clientId ae_entity ae_entityId
    ae_event ae_actorUserId ae_ruleVersionId ae_rubricSnapshotId ae_detail nullable].
  rewrite deterministicAuditEventId_isUuid, Hc, Hr. eexists. split; reflexivity.
Qed.

(** The inputs of [evaluateInvoice] a manifest can hold: the hand-authored
    rubric the contract versions select, no rubric snapshot, and the contract
    facts without external resolutions. *)
Record replayable (ct : catalog) (e : env) (input : PersistInput) (rubric : ComposedRubric) (contract : ContractFacts) : Prop := {
  rp_result : evaluateInvoice (pi_invoice input) rubric contract = Ok (pi_result input);
  rp_rubric : rubric = match contract_pins ct e (pi_contractVersionIds input) with [] => STANDARD_RUBRIC | _ => CONTRACT_RUBRIC end;
  rp_snapshot : pi_rubricSnapshotId input = None;
  rp_inputs : pi_resolvedInputs input = contract_json contract;
  rp_external : externalResolutions contract = [];
  rp_documents : forallb (source_pin_ok ct e) (pi_sourceDocuments input) = true;
}.

Section manifest.
Context (ct : catalog) (e : env) (input : PersistInput) (rubric : ComposedRubric) (contract : ContractFacts).
Context (Hct : catalog_ok ct) (Hin : replayable ct e input rubric contract).
Context (run : string) (resolved : list (string * ResolvedCriterionIds)).
#[local] Abbreviation m := (build_manifest ct e input run resolved).

Lemma manifest_distinct : parts_distinct m.
Proof using Hin.
  split; [|split; [exact (distinct_invoice _)|exact (distinct_result _)]].
  change (distinct_keys (pi_resolvedInputs input) = true). rewrite (rp_inputs _ _ _ _ _ Hin). apply distinct_contract.
Qed.
Lemma manifest_admitted hash : replayManifestHash (manifest_json m) = Some hash → manifest_ok m = true.
Proof using. unfold replayManifestHash, canonicalManifestJson. rewrite schema_manifest. by destruct (manifest_ok m). Qed.
Lemma manifest_reads hash : replayManifestHash (manifest_json m) = Some hash →
  AuditReplayManifestSchema (jsonb (manifest_json m)) = Some (stored m).
Proof using Hin.
  intros Hok%manifest_admitted. rewrite schema_jsonb by apply distinct_manifest, manifest_distinct.
  by rewrite schema_manifest, Hok.
Qed.
Lemma manifest_pins_verified hash s : replayManifestHash (manifest_json m) = Some hash →
  verifyPins ct e (stored m) e s = Ok (tt, s).
Proof using Hct Hin.
  intros Hok%manifest_admitted. unfold verifyPins. simpl.
  rewrite (rp_documents _ _ _ _ _ Hin), rule_pins_verified, contract_pins_verified; [done|done|done|].
  unfold manifest_ok in Hok. rewrite !andb_true_iff in Hok. apply Hok.
Qed.
End manifest.

(** The pins depend on the environment's scope only. *)
Lemma verifyPins_scope ct e t m s : verifyPins ct e m e s = Ok (tt, s) →
  verifyPins ct (mkEnv t (scope e)) m (mkEnv t (scope e)) s = Ok (tt, s).
Proof.
  intros Hp. change (verifyPins ct e m (mkEnv t (scope e)) s = Ok (tt, s)). unfold verifyPins in *.
  unfold check, mbind, tx_bind, throw, mret, tx_ret in *. by repeat (destruct (forallb _ _); [|discriminate]).
Qed.

Lemma result_engine invoice rubric contract r : evaluateInvoice invoice rubric contract = Ok r →
  pin_engineSpecVersion (pins r) = ENGINE_SPEC_VERSION.
Proof. by intros (bundle & failures & _ & _ & -> & _)%evaluateInvoice_inv. Qed.

(** A replay whose every check succeeds. *)
Lemma replay_runs ct run e s row m hash inv contract r b s' :
  select_one (λ r, uuid_is (rm_audit_run r) run && visible e (rm_account r)) (replay_manifests (evaluations s)) = Some row →
  AuditReplayManifestSchema (rm_manifest row) = Some m → replayManifestHash (manifest_json m) = Some hash →
  mf_auditRunId m = run → rm_content_hash row = hash → verifyPins ct e m e s = Ok (tt, s) →
  mf_engineSpecVersion m = ENGINE_SPEC_VERSION → mf_snapshotId m = None →
  invoice_of (mf_invoice m) = Some inv → contract_of (mf_resolvedInputs m) = Some contract →
  evaluateInvoice inv (match mf_contractVersions m with [] => STANDARD_RUBRIC | _ => CONTRACT_RUBRIC end) contract = Ok r →
  canonicalJson (mf_result m) = canonicalJson (result_json r) →
  emit (replay_event (mf_clientId m) run hash (result_hash (result_json r))) e s = Ok (b, s') →
  replayAuditRun ct run e s = Ok (mkReplay run hash (result_hash (result_json r)) (result_hash (result_json r)) r, s').
Proof.
  intros Hsel Hm Hhash Hrun Hrow Hpins Heng Hsnap Hinv Hcon Hev Htext He. unfold replayAuditRun.
  assert (∀ A B (m : tx A) (f : A → tx B) a s1, m e s = Ok (a, s1) → (m ≫= f) e s = f a e s1) as Hbind.
  { intros A B m0 f a s1 E. unfold mbind, tx_bind. by rewrite E. }
  rewrite (Hbind _ _ _ _ e s) by done. rewrite (Hbind _ _ _ _ (Some row) s) by (unfold query; by rewrite Hsel).
  rewrite (Hbind _ _ _ _ row s), (Hbind _ _ _ _ m s) by (done || (unfold the; by rewrite Hm)).
  rewrite (Hbind _ _ _ _ hash s) by (unfold the; by rewrite Hhash).
  rewrite (Hbind _ _ _ _ tt s) by (unfold check; by rewrite Hrun, Hrow, !bool_decide_eq_true_2).
  rewrite (Hbind _ _ _ _ tt s) by done.
  do 2 (rewrite (Hbind _ _ _ _ tt s) by (unfold check; by rewrite bool_decide_eq_true_2)).
  rewrite (Hbind _ _ _ _ inv s), (Hbind _ _ _ _ contract s) by (unfold the; by rewrite ?Hinv, ?Hcon).
  rewrite (Hbind _ _ _ _ r s) by (unfold lift; by rewrite Hev). cbv zeta.
  rewrite (Hbind _ _ _ _ tt s) by (unfold check; by rewrite Htext, bool_decide_eq_true_2).
  rewrite (Hbind _ _ _ _ b s') by (rewrite Htext, Hrow; exact He). by rewrite Htext, Hrow.
Qed.

(** The hash of the result a manifest row holds. *)
Definition stored_result (row : replay_manifest) : string := result_hash (default JNull (prop (rm_manifest row) "result")).
(** The event of a replay is in the ledger only as written by a replay. *)
Definition replay_recordable (clientId run : string) (s : db) : Prop :=
  ∀ row x, row ∈ replay_manifests (evaluations s) → rm_audit_run row = run → x ∈ audit_log s →
    let ev := audit_row (replay_event clientId run (rm_content_hash row) (stored_result row)) in
    ae_id x = ae_id ev → same_evidence ev x = true.
Lemma replay_recordable_fresh clientId run s :
  forallb (λ row, let i := ae_id (audit_row (replay_event clientId run "" (stored_result row))) in
                  forallb (λ x, negb (bool_decide (ae_id x = i))) (audit_log s)) (replay_manifests (evaluations s)) = true →
  replay_recordable clientId run s.
Proof.
  intros Hf row x Hrow _ Hx ev Hid. rewrite forallb_forall in Hf. apply list_elem_of_In, Hf in Hrow.
  cbv zeta in Hrow. rewrite forallb_forall in Hrow. apply list_elem_of_In, Hrow in Hx. by rewrite bool_decide_eq_true_2 in Hx.
Qed.
Lemma stored_result_of m clientId run hash : parts_distinct m →
  stored_result (manifest_row clientId run hash m) = result_hash (mf_result m).
Proof.
  intros Hd. unfold stored_result, result_hash. do 2 f_equal. unfold manifest_row. cbn [rm_manifest]. rewrite prop_jsonb by by apply distinct_manifest.
  unfold manifest_json. erewrite prop_literal; [|literal_keys|reflexivity]. apply canonical_jsonb, Hd.
Qed.

(** An audit replays to the same bytes: once a run is persisted, replaying it
    at any later time, over any later state that still holds the manifests, finds
    its manifest, reads it back from the jsonb column with the hash it was stored
    under, finds every pinned document, rule and contract unchanged, evaluates to
    the very result that was persisted, with equal hashes of the canonical text,
    and changes nothing but the ledger. *)
Lemma persisted_replays ct input rubric contract e s p s' t s2 later :
  references_ok s → catalog_ok ct → replayable ct e input rubric contract →
  visible e (pg_uuid (pi_clientId input)) = true → persistAuditRun ct input e s = Ok (p, s') →
  replay_manifests (evaluations s2) = replay_manifests (evaluations s') ++ later →
  replay_recordable (pi_clientId input) (pr_auditRunId p) s2 →
  ∃ r s3, replayAuditRun ct (pr_auditRunId p) (mkEnv t (scope e)) s2 = Ok (r, s3) ∧
    ry_result r = pi_result input ∧ ry_resultHash r = ry_originalResultHash r ∧ view_of s3 = view_of s2.
Proof.
  intros Hs Hct Hin Hvis Hp Hlater Hrec.
  destruct (persist_spec _ _ _ _ _ _ Hs Hp) as (Hfresh & Hpg & _ & resolved & transport & facts & d & Hv & Hd).
  destruct (rec_manifest _ _ _ _ _ _ _ _ Hd) as (hash & Hrow & Hhash). apply (f_equal v_manifests) in Hv.
  destruct Hs as (_ & _ & Rm).
  set (run := pr_auditRunId p) in *. set (row := manifest_row (pi_clientId input) run hash (build_manifest ct e input run resolved)) in *.
  assert (replay_manifests (evaluations s2) = replay_manifests (evaluations s) ++ row :: later) as Hm2.
  { rewrite Hlater. simpl in Hv. rewrite Hv. destruct d; simpl in *. by rewrite Hrow, <- app_assoc. }
  assert (select_one (λ r, uuid_is (rm_audit_run r) run && visible e (rm_account r)) (replay_manifests (evaluations s2)) = Some row) as Hsel.
  { rewrite Hm2, select_one_app. replace (select_one _ (replay_manifests (evaluations s))) with (@None replay_manifest).
    - unfold select_one. cbn [find]. unfold uuid_is. rewrite Hpg. simpl. by rewrite bool_decide_eq_true_2, Hvis.
    - symmetry. apply select_one_None. intros r Hr. unfold uuid_is. rewrite Hpg. rewrite bool_decide_eq_false_2; [done|].
      intros E. apply Hfresh. rewrite <- E. by apply Rm. }
  pose proof (manifest_admitted _ _ _ _ _ _ Hhash) as Hok. unfold manifest_ok in Hok. rewrite !andb_true_iff in Hok. simpl in Hok.
  destruct (replay_event_valid (pi_clientId input) run hash (result_hash (result_json (pi_result input)))) as (v & Hv' & Hvrow); [apply Hok..|].
  edestruct (emit_total _ v (mkEnv t (scope e)) s2 Hv') as (b & s3 & He).
  { rewrite Hvrow. intros x Hx. pose proof (Hrec row x) as Hev. unfold row in Hev.
    rewrite stored_result_of in Hev by by eapply manifest_distinct. apply Hev; [rewrite Hm2; unfold row; set_solver|done..]. }
  eexists _, s3. split; [|split; [|split]].
  - apply (replay_runs ct run _ s2 row (stored (build_manifest ct e input run resolved)) hash (pi_invoice input) contract
      (pi_result input) b s3).
    + exact Hsel.
    + by eapply manifest_reads.
    + rewrite hash_stored; [exact Hhash|by eapply manifest_distinct].
    + reflexivity.
    + reflexivity.
    + by eapply verifyPins_scope, manifest_pins_verified.
    + by eapply result_engine, Hin.
    + apply Hin.
    + apply invoice_read.
    + cbn [stored mf_resolvedInputs build_manifest]. rewrite (rp_inputs _ _ _ _ _ Hin). apply contract_read, Hin.
    + cbn [stored mf_contractVersions build_manifest]. rewrite <- (rp_rubric _ _ _ _ _ Hin). apply Hin.
    + apply canonical_jsonb, distinct_result.
    + exact He.
  - reflexivity.
  - reflexivity.
  - apply emit_writes in He as (d' & -> & _ & ->). apply vapp_nothing_r.
Qed.
End replay.
