(* ===== verification/Ingest.v ===== *)
(** Ingesting an EDI document ([src/src/modules/ingestion/ingest-invoice.ts] and
    the modules it calls): the raw bytes are stored, the interchange is parsed
    with the charge codes of the crosswalk, the facts other documents decide are
    resolved, the invoice is evaluated and the audit persisted. *)

From S2P Require Import Prelude JsText Decimal Json Store AuditLedger Interpreter AstJson Rubrics Facts Evaluator Jsonb Manifest X12 JsDate Database Tx Jobs Money Payments Persist.

(** ** Text comparisons of the database *)

(** [btrim(s)]: spaces only, unlike [String.prototype.trim]. *)
Fixpoint ltrim (s : string) : string :=
  match s with String c s' => if decide (c = " "%char) then ltrim s' else s | "" => "" end.
Fixpoint rtrim (s : string) : string :=
  match s with
  | "" => ""
  | String c s' => match rtrim s' with "" => if decide (c = " "%char) then "" else String c "" | t => String c t end
  end.
Definition btrim (s : string) : string := rtrim (ltrim s).
(** [char(n)] values compare without their padding. *)
Definition bpchar_eq (a b : string) : bool := bool_decide (rtrim a = rtrim b).

(** [text ~ pattern], of PostgreSQL, for well-formed patterns. *)
Class PgRegex := pg_matches : string → string → bool.

(** ** Crosswalk ([src/src/modules/reference-data/crosswalk.ts]) *)

Section ingest.
Context {D : DecimalJs} {C : Collator} {H : Sha256} {U : UuidSource} {W : Zod} {RX : PgRegex}.

Record CrosswalkMatch := mkMatch { canonicalCategory : string; precedenceRank : Z }.

Definition crosswalk_applies (e : env) (carrierId : option string) (sourceCode : string) (r : crosswalk_row) : bool :=
  visible_shared e (xw_account r) &&
  match xw_carrier r with None => true | Some c => from_option (uuid_is c) false carrierId end &&
  (bool_decide (xw_code r = Some sourceCode) || from_option (λ p, pg_matches p sourceCode) false (xw_pattern r)).
Definition crosswalk_order : crosswalk_row → crosswalk_row → comparison :=
  cmp_flip (cmp_then (cmp_on xw_rank Z.compare) (cmp_on xw_created_at Z.compare)).
Definition resolveChargeCode (ct : catalog) (e : env) (carrierId : option string) (sourceCode : string) : option CrosswalkMatch :=
  (λ r, mkMatch (xw_category r) (xw_rank r)) <$>
    head (js_sort crosswalk_order (List.filter (crosswalk_applies e carrierId sourceCode) (ct_crosswalk ct))).

(** ** The facts other documents decide *)

(** [detectDuplicateInvoice]; the advisory lock orders concurrent transactions. *)
Definition same_number (normalized : string) (r : invoice) : bool :=
  from_option (λ n, bool_decide (to_lower (btrim n) = to_lower normalized)) false (inv_number r).
Definition detectDuplicateInvoice (clientId : string) (number : option string) (set : string) : tx (option bool) :=
  match trim <$> number with
  | None | Some "" => mret None
  | Some normalized =>
      found ← query (λ s, existsb (λ r, uuid_is (inv_account r) clientId && bool_decide (inv_transaction_set r = set) &&
                                        same_number normalized r) (invoices (sources s)));
      mret (Some found)
  end.

(** [resolveShipmentReferenceMatch] *)
Definition normalized_references (references : option (list string)) : list string :=
  set_of (List.filter truthy (map (λ v, to_lower (trim v)) (default [] references))).
Definition resolveShipmentReferenceMatch (ct : catalog) (clientId : string) (references : option (list string)) : option bool :=
  match normalized_references references with
  | [] => None
  | normalized => Some (existsb (λ r, uuid_is (sh_account r) clientId &&
      from_option (λ t, bool_decide (to_lower (btrim t) ∈ normalized)) false (sh_reference r)) (ct_shipments ct))
  end.

(** [lookupContractRate] ([src/src/modules/rate-engine/rate-lookup.ts]) *)
Definition lookupContractRate (ct : catalog) (e : env) (contractVersionId category : string) : option ContractRate :=
  (λ r, mkRate (numeric_text (rr_rate r)) (rr_currency r) (rr_clause r)) <$>
    select_one (λ r, uuid_is (rr_contract_version r) contractVersionId && bool_decide (rr_category r = category) &&
                     visible e (rr_account r)) (ct_rates ct).

(** [resolveAndEvaluate]: the result, and the inputs as recorded. *)
Definition evaluated (r : result DecimalError AuditResult) : tx AuditResult :=
  lift (match r with Ok r => Ok r | Err _ => Err (OtherError "DecimalError") end).
Definition resolveAndEvaluate (ct : catalog) (clientId : string) (inv : ParsedInvoice) (contractVersionId : option string) :
    tx (AuditResult * json) :=
  duplicate ← detectDuplicateInvoice clientId (invoiceNumber inv) (set_text (transactionSet inv));
  let refs := resolveShipmentReferenceMatch ct clientId (shipmentReferences inv) in
  e ← ask id;
  match contractVersionId with
  | None | Some "" =>
      let facts := mkContract None duplicate refs [] in
      r ← evaluated (evaluateInvoice inv STANDARD_RUBRIC facts); mret (r, contract_json facts)
  | Some version =>
      let facts := mkContract (Some (lookupContractRate ct e version "LINEHAUL")) duplicate refs [] in
      r ← evaluated (evaluateInvoice inv CONTRACT_RUBRIC facts); mret (r, contract_json facts)
  end.

(** ** Source documents ([src/src/modules/reference-data/source-document.ts]) *)

(** [sha256Hex] and the address a store gives the bytes. *)
Definition sha256Hex (bytes : string) : string := hex (sha256 bytes).
Class ObjectStore := uriFor : string → string.

Record SourceDocumentRef := mkDocumentRef {
  dr_id : string; dr_sha256 : string; dr_storageUri : string; dr_byteSize : Z; dr_created : bool;
}.
Definition add_document (row : source_document_row) (ct : catalog) : catalog :=
  mkCatalog (ct_criteria ct) (ct_rules ct) (ct_rule_versions ct) (ct_clauses ct) (ct_contract_versions ct)
    (ct_source_documents ct ++ [row]) (ct_snapshots ct) (ct_shipments ct) (ct_policies ct) (ct_rates ct) (ct_carriers ct)
    (ct_crosswalk ct).
(** The row [account_id, sha256] names. *)
Definition document_of (clientId sha : string) (d : source_document_row) : bool :=
  bool_decide (sd_account d = Some (pg_uuid clientId)) && bool_decide (sd_sha256 d = sha).
Definition storeSourceDocument `{ObjectStore} (ct : catalog) (clientId bytes : string) (contentType : option string) :
    tx (SourceDocumentRef * catalog) :=
  let sha := sha256Hex bytes in
  let size := Z.of_nat (String.length bytes) in
  match select_one (document_of clientId sha) (ct_source_documents ct) with
  | Some d => mret (mkDocumentRef (sd_id d) sha (uriFor sha) size false, ct)
  | None =>
      rowId ← new_uuid;
      _ ← primary_key (map sd_id (ct_source_documents ct)) rowId;
      mret (mkDocumentRef rowId sha (uriFor sha) size true,
            add_document (mkSourceDocument rowId (Some (pg_uuid clientId)) sha contentType size (uriFor sha)) ct)
  end.

(** ** [ingestInvoice] *)

Definition UnparseableEdiError (message : string) : handler_error := Thrown "UnparseableEdiError" message.
Definition edi_message (x : edi_error) : string :=
  match x with X12ParseError m | EnvelopeError m => m | AmountThrew => "DecimalError" end.
Definition parsed {A} (r : result edi_error A) : tx A :=
  lift (match r with Ok a => Ok a | Err x => Err (UnparseableEdiError (edi_message x)) end).

Definition detectTransactionSet (raw : string) : result edi_error (option TransactionSet * option string) :=
  ix ← parseX12 raw;
  let st01 := el (firstSegment ix "ST") 1 in
  Ok (match st01 with Some "210" => Some Set210 | Some "310" => Some Set310 | _ => None end, st01).

(** The carrier of a B3-11 code. *)
Definition carrier_of (ct : catalog) (carrierCode : option string) : option string :=
  match carrierCode with
  | None | Some "" => None
  | Some code => ca_id <$> select_one (λ c, from_option (bpchar_eq (trim code)) false (ca_scac c)) (ct_carriers ct)
  end.
Definition l1_codes (ix : X12Interchange) : list string :=
  set_of (omap (λ l1, el (Some l1) 8) (segmentsByTag ix "L1")).
Definition categoryByCode (ct : catalog) (e : env) (carrierId : option string) (codes : list string) : list (string * option string) :=
  map (λ c, (c, canonicalCategory <$> resolveChargeCode ct e carrierId c)) codes.
Definition resolveCategorizer (ct : catalog) (e : env) (raw : string) (set : TransactionSet) : result edi_error Categorize :=
  ix ← parseX12 raw;
  let carrierCode := match set with Set210 => el (firstSegment ix "B3") 11 | _ => None end in
  let categories := categoryByCode ct e (carrier_of ct carrierCode) (l1_codes ix) in
  Ok (λ code, c ← code; default None (map_get categories c)).

Definition stored_event (clientId : string) (d : SourceDocumentRef) (contentType : option string) : AuditEvent :=
  audit_event (deterministicAuditEventId [clientId; dr_id d; "ingestion.source_stored"]) clientId "source_document" (dr_id d)
    "ingestion.source_stored" ActorSystem None
    [("contentType", json_opt contentType); ("sha256", JString (dr_sha256 d))].
Definition audited_event (clientId : string) (p : PersistedRun) (r : AuditResult) (set : TransactionSet) : AuditEvent :=
  audit_event (deterministicAuditEventId [clientId; pr_auditRunId p; "ingestion.audit_created"]) clientId "audit_run"
    (pr_auditRunId p) "ingestion.audit_created" ActorSystem None
    [("invoiceId", JString (pr_invoiceId p)); ("outcome", JString (outcome_text (outcome r)));
     ("transactionSet", JString (set_text set))].

Record IngestInput := mkIngest {
  in_clientId : string; in_rawBytes : string; in_contentType : option string; in_contractVersionId : option string;
}.
Record IngestResult := mkIngestResult { ig_auditRunId : string; ig_invoiceId : string; ig_outcome : Outcome }.

(** The parse of step 2: the transaction set and the normalized invoice. *)
Definition parse_invoice (set : TransactionSet) (raw : string) (categorize : Categorize) : result edi_error ParsedInvoice :=
  match set with Set210 => parse210 raw categorize | _ => parse310 raw categorize end.
Definition read_document (ct : catalog) (raw : string) : tx (TransactionSet * ParsedInvoice) :=
  '(set, st01) ← parsed (detectTransactionSet raw);
  set ← the set (UnparseableEdiError ("unrecognized or missing ST01 transaction-set code: " +:+ default "(none)" st01));
  e ← ask id;
  categorize ← parsed (resolveCategorizer ct e raw set);
  inv ← parsed (parse_invoice set raw categorize);
  mret (set, inv).

(** What is persisted: no carrier and no shipment. *)
Definition ingest_persist (input : IngestInput) (d : SourceDocumentRef) (inv : ParsedInvoice) (r : AuditResult) (inputs : json) :
    PersistInput :=
  mkPersist (in_clientId input) None None inv r None [(dr_id d, dr_sha256 d)]
    (match in_contractVersionId input with None | Some "" => [] | Some v => [v] end) inputs.

Definition ingestInvoice `{ObjectStore} (ct : catalog) (input : IngestInput) : tx (IngestResult * catalog) :=
  let clientId := in_clientId input in
  '(document, ct) ← storeSourceDocument ct clientId (in_rawBytes input) (in_contentType input);
  _ ← emit (stored_event clientId document (in_contentType input));
  '(set, inv) ← read_document ct (in_rawBytes input);
  '(r, inputs) ← resolveAndEvaluate ct clientId inv (in_contractVersionId input);
  p ← persistAuditRun ct (ingest_persist input document inv r inputs);
  _ ← emit (audited_event clientId p r set);
  mret (mkIngestResult (pr_auditRunId p) (pr_invoiceId p) (outcome r), ct).
End ingest.
