(* ===== verification/IngestSafety.v ===== *)
(** What an ingested document leads to: its audit replays, its facts are those
    the document states, a repeated invoice number is noticed, and its findings
    carry no carrier. *)

From S2P Require Import Prelude JsText Decimal Json Store AuditLedger Interpreter AstJson Rubrics Facts Evaluator Jsonb Manifest X12 JsDate Database Tx Findings Jobs Money Disputes DisputesSafety Payments PaymentsSafety Persist Replay PersistSafety ReplaySafety Ingest.

Section ingest.
Context {D : DecimalJs} {L : DecimalLaws D} {C : Collator} {H : Sha256} {HL : Sha256Laws H}.
Context {U : UuidSource} {UL : UuidSourceLaws U} {W : Zod} {RX : PgRegex} {OS : ObjectStore}.

(** ** The steps of an ingestion *)

Lemma parsed_Ok {A} (r : result edi_error A) e s x : parsed r e s = Ok x ↔ ∃ a, r = Ok a ∧ x = (a, s).
Proof. unfold parsed. rewrite lift_Ok. destruct r; naive_solver. Qed.
Lemma evaluated_Ok r e s x : evaluated r e s = Ok x ↔ ∃ a, r = Ok a ∧ x = (a, s).
Proof. unfold evaluated. rewrite lift_Ok. destruct r; naive_solver. Qed.

Lemma read_document_inv ct raw e s set inv s' : read_document ct raw e s = Ok ((set, inv), s') →
  s' = s ∧ ∃ categorize, resolveCategorizer ct e raw set = Ok categorize ∧ parse_invoice set raw categorize = Ok inv ∧
    (set = Set210 ∨ set = Set310) ∧ ∃ ix, parseX12 raw = Ok ix ∧ el (firstSegment ix "ST") 1 = Some (set_text set).
Proof.
  unfold read_document. intros Hr. tx_inv.
  repeat match goal with Hp : parsed _ _ _ = Ok _ |- _ => apply parsed_Ok in Hp as (? & ? & Hp); simplify_eq end.
  match goal with Hd : detectTransactionSet _ = Ok _ |- _ => apply bind_Ok in Hd as (ix & Hix & Hd); injection Hd as Hd _ end.
  repeat case_match; simplify_eq; eauto 10.
Qed.

Lemma resolved_inv ct clientId inv v e s r inputs s' : resolveAndEvaluate ct clientId inv v e s = Ok ((r, inputs), s') →
  s' = s ∧ ∃ duplicate, detectDuplicateInvoice clientId (invoiceNumber inv) (set_text (transactionSet inv)) e s = Ok (duplicate, s) ∧
    let rate := match v with None | Some "" => None | Some v => Some (lookupContractRate ct e v "LINEHAUL") end in
    let facts := mkContract rate duplicate (resolveShipmentReferenceMatch ct clientId (shipmentReferences inv)) [] in
    inputs = contract_json facts ∧
    evaluateInvoice inv (match v with None | Some "" => STANDARD_RUBRIC | _ => CONTRACT_RUBRIC end) facts = Ok r.
Proof.
  unfold resolveAndEvaluate. intros Hr. apply tx_bind_Ok in Hr as (duplicate & s1 & Hd & Hr).
  assert (s1 = s) as -> by (unfold detectDuplicateInvoice in Hd; repeat case_match; tx_inv; done).
  destruct v as [[|c v]|]; tx_inv; match goal with Hp : evaluated _ _ _ = Ok _ |- _ =>
    apply evaluated_Ok in Hp as (r' & Hev & Hp); injection Hp as -> -> end; eauto 10.
Qed.

Lemma version_rubric v : standard_or_contract (match v with None | Some "" => STANDARD_RUBRIC | _ => CONTRACT_RUBRIC end).
Proof. destruct v as [[|]|]; [by left|by right|by left]. Qed.

Record ingested (ct ct' : catalog) (input : IngestInput) (e : env) (s s' : db) (res : IngestResult)
    (d : SourceDocumentRef) (s1 : db) (set : TransactionSet) (inv : ParsedInvoice) (r : AuditResult) (inputs : json)
    (p : PersistedRun) : Prop := {
  ig_stored : ∃ s0 b, storeSourceDocument ct (in_clientId input) (in_rawBytes input) (in_contentType input) e s = Ok ((d, ct'), s0) ∧
    emit (stored_event (in_clientId input) d (in_contentType input)) e s0 = Ok (b, s1);
  ig_read : read_document ct' (in_rawBytes input) e s1 = Ok ((set, inv), s1);
  ig_resolved : resolveAndEvaluate ct' (in_clientId input) inv (in_contractVersionId input) e s1 = Ok ((r, inputs), s1);
  ig_persisted : ∃ s2 b, persistAuditRun ct' (ingest_persist input d inv r inputs) e s1 = Ok (p, s2) ∧
    emit (audited_event (in_clientId input) p r set) e s2 = Ok (b, s');
  ig_result : res = mkIngestResult (pr_auditRunId p) (pr_invoiceId p) (outcome r);
}.
Lemma ingest_inv ct input e s res ct' s' : ingestInvoice ct input e s = Ok ((res, ct'), s') →
  ∃ d s1 set inv r inputs p, ingested ct ct' input e s s' res d s1 set inv r inputs p.
Proof.
  unfold ingestInvoice. intros Hi. apply tx_bind_Ok in Hi as ([d ct1] & s0 & Hst & Hi).
  apply tx_bind_Ok in Hi as (b & s1 & He & Hi). apply tx_bind_Ok in Hi as ([set inv] & s1' & Hrd & Hi).
  pose proof (read_document_inv _ _ _ _ _ _ _ Hrd) as [-> _].
  apply tx_bind_Ok in Hi as ([r inputs] & s1' & Hre & Hi). pose proof (resolved_inv _ _ _ _ _ _ _ _ _ Hre) as [-> _].
  apply tx_bind_Ok in Hi as (p & s2 & Hp & Hi). apply tx_bind_Ok in Hi as (b' & s3 & He' & Hi).
  injection Hi as <- <- <-. exists d, s1, set, inv, r, inputs, p. split; eauto.
Qed.

(** Storing a document writes no table of the audit, and leaves a row that names
    its bytes. *)
Definition documents_ok (ct : catalog) : Prop := keyed sd_id (ct_source_documents ct).
Lemma store_spec ct clientId bytes contentType e s d ct' s' :
  storeSourceDocument ct clientId bytes contentType e s = Ok ((d, ct'), s') →
  documents_ok ct → visible e (pg_uuid clientId) = true →
  view_of s' = view_of s ∧ audit_log s' = audit_log s ∧ dr_sha256 d = sha256Hex bytes ∧
  source_pin_ok ct' e (dr_id d, dr_sha256 d) = true ∧
  (ct' = ct ∨ ∃ row, ct' = add_document row ct).
Proof.
  intros Hst Hdocs Hvis. unfold storeSourceDocument in Hst.
  destruct (select_one _ (ct_source_documents ct)) as [x|] eqn:E.
  - tx_inv. split_and!; try done; [|by left]. apply select_one_Some in E as [Hx [Ha Hs]%andb_true_iff].
    apply bool_decide_eq_true in Ha, Hs. unfold source_pin_ok. simpl.
    rewrite (keyed_selected_and sd_id (λ r, visible_shared e (sd_account r))) by (done || by rewrite Ha).
    by apply bool_decide_eq_true.
  - tx_inv. id_inv. tx_inv. split_and!; try done; [|right; by eexists]. unfold source_pin_ok. simpl.
    rewrite select_one_app. replace (select_one _ (ct_source_documents ct)) with (@None source_document_row).
    + unfold select_one. simpl. unfold uuid_is. rewrite gen_random_uuid_lower, bool_decide_eq_true_2 by done. rewrite Hvis.
      by apply bool_decide_eq_true.
    + symmetry. apply select_one_None. intros x Hx. unfold uuid_is. rewrite gen_random_uuid_lower.
      rewrite bool_decide_eq_false_2; [done|]. intros E'. match goal with Hn : _ ∉ _ |- _ => apply Hn end.
      rewrite <- E'. by apply list_elem_of_fmap_2.
Qed.

(** ** Replay *)

Lemma references_view s s' : view_of s' = view_of s → references_ok s → references_ok s'.
Proof.
  intros Hv. unfold references_ok. pose proof (f_equal v_failures Hv) as H1. pose proof (f_equal v_runs Hv) as H2.
  pose proof (f_equal v_decisions Hv) as H3. pose proof (f_equal v_manifests Hv) as H4. simpl in *. by rewrite H1, H2, H3, H4.
Qed.
Lemma emit_view i e s b s' : emit i e s = Ok (b, s') → view_of s' = view_of s.
Proof. intros (d & -> & _ & ->)%emit_writes. apply vapp_nothing_r. Qed.

(** A contract version the tenant can see. *)
Definition version_known (ct : catalog) (e : env) (v : option string) : Prop :=
  match v with
  | None | Some "" => True
  | Some v => ∃ r, r ∈ ct_contract_versions ct ∧ uuid_is (cv_id r) v = true ∧ visible e (cv_account r) = true
  end.
Lemma known_pinned ct e v r : r ∈ ct_contract_versions ct → uuid_is (cv_id r) v = true → visible e (cv_account r) = true →
  contract_pins ct e [v] ≠ [].
Proof.
  intros Hr Hv Hvis Hnil. unfold contract_pins in Hnil. apply map_eq_nil in Hnil.
  assert (r ∈ js_sort (cmp_on cv_id code_unit_compare)
    (List.filter (λ x, existsb (uuid_is (cv_id x)) [v] && visible e (cv_account x)) (ct_contract_versions ct))) as Hin.
  { rewrite elem_of_js_sort. apply list_elem_of_In, filter_In. split; [by apply list_elem_of_In|]. simpl. by rewrite Hv, Hvis. }
  rewrite Hnil in Hin. by apply elem_of_nil in Hin.
Qed.
Lemma no_pins ct e : contract_pins ct e [] = [].
Proof. unfold contract_pins. by rewrite filter_none. Qed.
Lemma same_contracts ct ct' : ct' = ct ∨ (∃ row, ct' = add_document row ct) →
  ct_contract_versions ct' = ct_contract_versions ct ∧ (catalog_ok ct → catalog_ok ct').
Proof. intros [Heq|[row Heq]]; rewrite Heq; done. Qed.

(** The audit of a document is one a replay can repeat. *)
Lemma ingested_replayable ct ct' input e s s' res d s1 set inv r inputs p :
  ingested ct ct' input e s s' res d s1 set inv r inputs p →
  documents_ok ct → visible e (pg_uuid (in_clientId input)) = true → version_known ct e (in_contractVersionId input) →
  ∃ rubric facts, replayable ct' e (ingest_persist input d inv r inputs) rubric facts.
Proof.
  intros [(s0 & b & Hst & _) _ Hre _ _] Hdocs Hvis Hver.
  destruct (store_spec _ _ _ _ _ _ _ _ _ Hst Hdocs Hvis) as (_ & _ & _ & Hpin & [Hcv _]%same_contracts).
  apply resolved_inv in Hre as (_ & duplicate & _ & -> & Hev). eexists _, _.
  split; [exact Hev| |done|reflexivity|done|simpl; by rewrite Hpin].
  simpl. destruct (in_contractVersionId input) as [[|c v]|]; try by rewrite no_pins.
  destruct Hver as (row & Hrow & Hid & Hv). rewrite <- Hcv in Hrow.
  pose proof (known_pinned _ _ _ _ Hrow Hid Hv). by destruct (contract_pins ct' e [String c v]).
Qed.

(** C5: the audit of an ingested document replays byte for byte, under two
    provisos. First, the document was ingested with no contract version or with
    one the tenant can see: ingestion takes any version id, and the audit made
    under one nobody stored does not replay ([unknown_version_unreplayable]).
    Second, the ledger can take the replay's event: it holds no different event
    under that event's deterministic id. Then, over any state that still holds the
    manifests, replaying the run at any later time verifies the manifest's hash and
    every pin (the stored document among them), evaluates to the same outcome with
    equal hashes of the canonical result, and changes nothing but the ledger. *)
Theorem ingested_audit_replays ct input e s res ct' s' t s2 later :
  references_ok s → catalog_ok ct → documents_ok ct → visible e (pg_uuid (in_clientId input)) = true →
  version_known ct e (in_contractVersionId input) → ingestInvoice ct input e s = Ok ((res, ct'), s') →
  replay_manifests (evaluations s2) = replay_manifests (evaluations s') ++ later →
  replay_recordable (in_clientId input) (ig_auditRunId res) s2 →
  ∃ rr s3, replayAuditRun ct' (ig_auditRunId res) (mkEnv t (scope e)) s2 = Ok (rr, s3) ∧
    outcome (ry_result rr) = ig_outcome res ∧ ry_resultHash rr = ry_originalResultHash rr ∧ view_of s3 = view_of s2.
Proof.
  intros Hs Hct Hdocs Hvis Hver (d & s1 & set & inv & r & inputs & p & Hi)%ingest_inv Hlater Hrec.
  destruct (ingested_replayable _ _ _ _ _ _ _ _ _ _ _ _ _ _ Hi Hdocs Hvis Hver) as (rubric & facts & Hrp).
  destruct Hi as [(s0 & b & Hst & He) _ _ (s4 & b' & Hp & He') ->]. simpl in *.
  destruct (store_spec _ _ _ _ _ _ _ _ _ Hst Hdocs Hvis) as (Hv0 & _ & _ & _ & [_ Hct']%same_contracts).
  apply emit_view in He. pose proof (emit_view _ _ _ _ _ He') as Hv'.
  destruct (persisted_replays ct' (ingest_persist input d inv r inputs) rubric facts e s1 p s4 t s2 later)
    as (rr & s3 & Hr & Hres & Hh & Hv); try done.
  - apply (references_view s); [congruence|done].
  - by apply Hct'.
  - rewrite Hlater. f_equal. exact (f_equal v_manifests Hv').
  - exists rr, s3. rewrite Hres. done.
Qed.

(** ** What a scored document states *)







(** ** Footing *)

(** The footing of a document whose total and charge amounts are plain decimals. *)
Lemma zsum_triangle ms : Z.abs (zsum ms) <= zsum (map Z.abs ms).
Proof using Type. induction ms as [|m ms IH]; simpl; lia. Qed.
Lemma parsed_footing set raw categorize inv ix t x ms : set = Set210 ∨ set = Set310 →
  parse_invoice set raw categorize = Ok inv → parseX12 raw = Ok ix → el (firstSegment ix "B3") 7 = Some t →
  money_units t = Some x → stated_amounts ix = map Some ms → zsum (map Z.abs ms) < 10 ^ 20 →
  footing inv = Some (mkFooting (Some (fixed 4 x)) (fixed 4 (zsum ms))).
Proof.
  intros Hset Hp Hix Ht Hx Hms Hb.
  assert (∃ ix' foot resolve loop, parseX12 raw = Ok ix' ∧ footing inv = Some foot ∧
    buildFooting (el (firstSegment ix' "B3") 7) (buildCharges ix' categorize resolve loop).1 = Ok foot) as
    (ix' & foot & resolve & loop & Hix' & -> & Hf).
  { destruct Hset as [-> | ->]; [apply parse210_inv in Hp as (ix' & foot & ? & ? & ? & ? & ? & _)|
      apply parse310_inv in Hp as (ix' & foot & ? & ? & ? & ? & ? & _)]; eauto 10. }
  rewrite Hix in Hix'. injection Hix' as <-.
  erewrite buildFooting_exact in Hf; [by injection Hf as <-|exact Ht|exact Hx|by apply charges_amounts|done].
Qed.

(** The declared total is checked against the charges to the cent: when B3-07
    and every L1-04 of the document are plain decimals, the evaluation of the
    parsed invoice reports STD.FOOTING exactly when B3-07 differs from the exact
    sum of the L1-04 amounts by more than 0.01. *)
Theorem document_footing_checked ct raw e s set inv ix t x ms rubric contract r :
  read_document ct raw e s = Ok ((set, inv), s) → parseX12 raw = Ok ix → el (firstSegment ix "B3") 7 = Some t →
  money_units t = Some x → stated_amounts ix = map Some ms → zsum (map Z.abs ms) + Z.abs x < 10 ^ 20 →
  standard_or_contract rubric → evaluateInvoice inv rubric contract = Ok r →
  "STD.FOOTING" ∈ map gf_criterionKey (gateFailures r) ↔ 100 < Z.abs (x - zsum ms).
Proof.
  intros (_ & categorize & _ & Hp & Hset & _)%read_document_inv Hix Ht Hx Hms Hb Hrub Hev.
  eapply footing_gate_exact; [exact Hrub| |apply money_units_fixed|apply money_units_fixed| |exact Hev].
  - eapply parsed_footing; [done..|]. lia.
  - pose proof (zsum_triangle ms). lia.
Qed.

(** ** Repeated invoices *)

(** The outcome of a scoring criterion that compares a known flag. *)
Lemma duplicate_verdict inv contract facts b : buildFactBundle inv contract = Ok facts → duplicateInvoice contract = Some b →
  verdict <$> evaluate (AstRequire "duplicate_invoice" (fact_eq "duplicate_invoice" (LitBool false))) facts =
    Ok (if b then FAIL else PASS).
Proof.
  intros Hf Hb. destruct (buildFactBundle_inv _ _ _ Hf) as (rb & d & _ & _ & Hget & _).
  assert (facts !! "duplicate_invoice" = Some (FactBool b)) as Hk.
  { rewrite (Hget "duplicate_invoice" (FactBool <$> duplicateInvoice contract) eq_refl eq_refl). by rewrite Hb. }
  rewrite evaluate_require by (unfold fact_present; by rewrite Hk).
  unfold fact_eq. rewrite evaluate_compare. cbn [evaluate]. unfold eval_fact. rewrite Hk. cbn. by destruct b.
Qed.

Lemma detect_duplicate clientId n set e s row m : truthy (trim n) = true → row ∈ invoices (sources s) →
  inv_account row = pg_uuid clientId → inv_transaction_set row = set → inv_number row = Some m →
  btrim m = trim m → to_lower (trim m) = to_lower (trim n) →
  detectDuplicateInvoice clientId (Some n) set e s = Ok (Some true, s).
Proof.
  intros Hn Hrow Ha Hset Hm Hb Heq. unfold detectDuplicateInvoice. cbn [fmap option_fmap option_map].
  destruct (trim n) as [|c t] eqn:Et; [done|]. cbn [mbind tx_bind query]. unfold query, mbind, tx_bind, mret, tx_ret.
  do 2 f_equal. f_equal. apply existsb_true. exists row. split; [done|]. unfold uuid_is, same_number. rewrite Hm. simpl.
  by rewrite Ha, Hset, Hb, Heq, !bool_decide_eq_true_2.
Qed.

(** A known duplicate is a VARIANCE finding of a scored invoice. *)
Lemma duplicate_scored inv rubric contract r : standard_or_contract rubric → evaluateInvoice inv rubric contract = Ok r →
  outcome r = SCORED → duplicateInvoice contract = Some true →
  ∃ f, f ∈ Evaluator.findings r ∧ cf_criterionKey f = "STD.DUPLICATE_INVOICE" ∧ cf_result f = VARIANCE.
Proof.
  intros Hrub (facts & failures & Hf & _ & _ & _ & _ & Hr)%evaluateInvoice_inv Ho Hdup.
  destruct failures as [|g gs]; [|by destruct Hr as [Hr _]; congruence]. destruct Hr as (_ & st & Hst & -> & _).
  apply score_phase_inv in Hst as (new & Hnew & Hall). simpl in Hnew. rewrite Hnew.
  assert (∃ c, orderedCriteria rubric SCORING !! 2%nat = Some c ∧ criterionKey c = "STD.DUPLICATE_INVOICE" ∧
    ast c = AstRequire "duplicate_invoice" (fact_eq "duplicate_invoice" (LitBool false))) as (c & Hc & Hk & Ha).
  { destruct Hrub as [-> | ->]; eexists; split; reflexivity || (split; reflexivity). }
  destruct (Forall2_lookup_l _ _ _ _ _ Hall Hc) as (f & Hf' & Hkey & Hev & Hres).
  exists f. split; [by eapply list_elem_of_lookup_2|]. split; [congruence|]. rewrite Hres.
  pose proof (duplicate_verdict _ _ _ _ Hf Hdup) as Hv. rewrite <- Ha, Hev in Hv. injection Hv as Hv. by rewrite Hv.
Qed.

(** Every observation that does not conform is an open finding of the run. *)
Lemma variance_opened ct e input p resolved transport facts d f :
  audit_recorded ct e input p resolved transport facts d → f ∈ Evaluator.findings (pi_result input) → conformed f = false →
  ∃ row rc, row ∈ v_variances d ∧ vf_audit_run row = pr_auditRunId p ∧ vf_status row = "open" ∧
    resolveCriterionIds ct e (cf_criterionKey f) = Some rc ∧ ci_criterion (fb_cites (vf_basis row)) = Some (rc_criterionId rc).
Proof.
  intros Hd Hf Hc. pose proof (rec_variances _ _ _ _ _ _ _ _ Hd) as Hall.
  assert (f ∈ List.filter (λ f, negb (conformed f)) (Evaluator.findings (pi_result input))) as Hin.
  { apply list_elem_of_In, filter_In. split; [by apply list_elem_of_In|]. by rewrite Hc. }
  apply list_elem_of_lookup_1 in Hin as [i Hi]. destruct (Forall2_lookup_l _ _ _ _ _ Hall Hi) as (row & Hrow & Hrec).
  destruct Hrec as (_ & Hrun & Hst & _ & _ & _ & _ & _ & _ & rc & Hget & Hcites). exists row, rc.
  split; [by eapply list_elem_of_lookup_2|]. split; [done|]. split; [done|]. split; [|by rewrite Hcites].
  apply (proj2 (rec_resolved _ _ _ _ _ _ _ _ Hd)). by apply map_get_elem.
Qed.

Lemma parsed_number set raw categorize inv ix : set = Set210 ∨ set = Set310 → parse_invoice set raw categorize = Ok inv →
  parseX12 raw = Ok ix → invoiceNumber inv = el (firstSegment ix "B3") 2 ∧ transactionSet inv = set.
Proof.
  intros [-> | ->] Hp Hix; [apply parse210_inv in Hp as (ix' & foot & Hix' & _ & Ht & _ & _ & Hn & _)|
    apply parse310_inv in Hp as (ix' & foot & Hix' & _ & Ht & _ & _ & Hn & _)]; (split; [congruence|exact Ht]).
Qed.

(** An invoice that is sent again is noticed: if the table already holds an
    invoice of the tenant and transaction set with the document's number, up to
    case and the spaces around it, then ingesting the document, when it ends
    SCORED, leaves an open finding of the new run that cites the criterion
    STD.DUPLICATE_INVOICE. *)
Theorem repeated_invoice_found ct input e s res ct' s' ix n row m :
  references_ok s → documents_ok ct → visible e (pg_uuid (in_clientId input)) = true →
  ingestInvoice ct input e s = Ok ((res, ct'), s') → ig_outcome res = SCORED →
  parseX12 (in_rawBytes input) = Ok ix → el (firstSegment ix "B3") 2 = Some n → truthy (trim n) = true →
  row ∈ invoices (sources s) → inv_account row = pg_uuid (in_clientId input) →
  el (firstSegment ix "ST") 1 = Some (inv_transaction_set row) → inv_number row = Some m →
  btrim m = trim m → to_lower (trim m) = to_lower (trim n) →
  ∃ f rc, f ∈ variance_findings (Database.findings s') ∧ vf_audit_run f = ig_auditRunId res ∧ vf_status f = "open" ∧
    resolveCriterionIds ct' e "STD.DUPLICATE_INVOICE" = Some rc ∧ ci_criterion (fb_cites (vf_basis f)) = Some (rc_criterionId rc).
Proof.
  intros Hs Hdocs Hvis (d & s1 & set & inv & r & inputs & p & Hi)%ingest_inv Ho Hix Hn Htr Hrow Ha Hst Hm Hb Heq.
  destruct Hi as [(s0 & b & Hstore & He) Hrd Hre (s2 & b' & Hp & He') ->]. simpl in Ho |- *.
  destruct (store_spec _ _ _ _ _ _ _ _ _ Hstore Hdocs Hvis) as (Hv0 & _ & _ & _ & [Hcv _]%same_contracts).
  apply emit_view in He, He'. assert (view_of s1 = view_of s) as Hv1 by congruence.
  apply read_document_inv in Hrd as (_ & categorize & _ & Hparse & Hset & ix' & Hix' & Hst').
  assert (ix' = ix) as -> by congruence. destruct (parsed_number _ _ _ _ _ Hset Hparse Hix) as [Hnum Htset].
  apply resolved_inv in Hre as (_ & duplicate & Hdup & _ & Hev). rewrite Hnum, Hn, Htset in Hdup.
  pose proof (f_equal v_invoices Hv1) as Hinv. simpl in Hinv.
  rewrite (detect_duplicate _ n _ e s1 row m) in Hdup; [|done|by rewrite Hinv|done|congruence|done..]. injection Hdup as <-.
  destruct (duplicate_scored _ _ _ _ (version_rubric (in_contractVersionId input)) Hev Ho eq_refl)
    as (f & Hf & Hkey & Hres).
  destruct (persist_spec _ _ _ _ _ _ (references_view _ _ Hv1 Hs) Hp) as (_ & _ & _ & resolved & transport & facts & dv & Hv & Hd).
  destruct (variance_opened _ _ _ _ _ _ _ _ f Hd Hf) as (v & rc & Hin & Hrun & Hopen & Hrc & Hci); [unfold conformed; by rewrite Hres|].
  exists v, rc. rewrite Hkey in Hrc. split; [|done].
  apply (f_equal v_variances) in Hv, He'. simpl in He'. rewrite He'. destruct dv. simpl in Hv, Hin. rewrite Hv. set_solver.
Qed.

(** ** Findings without a carrier *)

Lemma validate_carriers rows v : validateDisputableFindings rows = Ok v → ∀ r, r ∈ claimable rows → df_carrierId r ≠ None.
Proof.
  unfold validateDisputableFindings. fold (claimable rows). cbv zeta. intros Hv r Hr Hn. res_inv.
  match goal with Hf : fold_res _ _ _ = Ok _ |- _ => by destruct (disputable_rows_ok _ _ Hf r Hr) as (_ & _ & _ & Hk) end.
Qed.

(** The carrier a finding's invoice names, once run and invoice are known. *)
Lemma no_carrier ct e input d p s s' f resolved transport facts :
  view_of s' = vapp (view_of s) d → audit_recorded ct e input p resolved transport facts d →
  pi_carrierId input = None → (pr_auditRunId p ∉ map ar_id (audit_runs (sources s))) →
  (pr_invoiceId p ∉ map inv_id (invoices (sources s))) → ∀ t invs runs,
  invoices t = invoices (sources s') ++ invs → audit_runs t = audit_runs (sources s') ++ runs →
  vf_audit_run f = pr_auditRunId p → vf_account f = pg_uuid (pi_clientId input) → finding_carrier t f = Some None.
Proof.
  intros Hv Hd Hc Hr Hi t invs runs Hinvs Hruns Hrun Hacc.
  pose proof (f_equal v_invoices Hv) as Vi. pose proof (f_equal v_runs Hv) as Vr.
  destruct Hd as [Ri Rr _ _ _ _ _ _ _ _ _]. destruct d. simpl in Vi, Vr, Ri, Rr. subst.
  unfold finding_carrier. rewrite Hruns, Vr, <- app_assoc, select_one_app, Hrun, Hacc.
  replace (select_one _ (audit_runs (sources s))) with (@None audit_run); [|symmetry; apply select_one_None].
  2: { intros x Hx. rewrite bool_decide_eq_false_2; [done|]. intros Ex. apply Hr. rewrite <- Ex. by apply list_elem_of_fmap_2. }
  unfold select_one at 1, run_row. simpl. rewrite !bool_decide_eq_true_2 by done. simpl. rewrite Hinvs, Vi, <- app_assoc, select_one_app.
  replace (select_one _ (invoices (sources s))) with (@None invoice); [|symmetry; apply select_one_None].
  2: { intros x Hx. rewrite bool_decide_eq_false_2; [done|]. intros Ex. apply Hi. rewrite <- Ex. by apply list_elem_of_fmap_2. }
  unfold select_one, invoice_row. simpl. rewrite !bool_decide_eq_true_2 by done. simpl. by rewrite Hc.
Qed.

(** No finding of an ingested document can ever be disputed: in every later
    state that still holds the document's invoice and run, creating a dispute
    that includes a finding of that run other than an undercharge fails, because
    the invoice was stored without the carrier its B3-11 names. *)
Theorem ingested_finding_undisputable ct input e s res ct' s' s2 e2 invs runs f ids actor x :
  references_ok s → documents_ok ct → visible e (pg_uuid (in_clientId input)) = true →
  ingestInvoice ct input e s = Ok ((res, ct'), s') →
  invoices (sources s2) = invoices (sources s') ++ invs → audit_runs (sources s2) = audit_runs (sources s') ++ runs →
  f ∈ variance_findings (Database.findings s2) → vf_audit_run f = ig_auditRunId res →
  vf_account f = pg_uuid (in_clientId input) → vf_direction f ≠ Some "UNDERCHARGE" → vf_id f ∈ map pg_uuid ids →
  createDisputeFromFindings (in_clientId input) ids actor e2 s2 ≠ Ok x.
Proof.
  intros Hs Hdocs Hvis (d & s1 & set & inv & r & inputs & p & Hi)%ingest_inv Hinvs Hruns Hf Hrun Hacc Hdir Hids Hc.
  destruct Hi as [(s0 & b & Hstore & He) _ _ (s4 & b' & Hp & He') ->]. simpl in Hrun.
  destruct (store_spec _ _ _ _ _ _ _ _ _ Hstore Hdocs Hvis) as (Hv0 & _). apply emit_view in He, He'.
  destruct (persist_spec _ _ _ _ _ _ (references_view s s1 ltac:(congruence) Hs) Hp)
    as (Hfr & _ & Hfi & resolved & transport & facts & dv & Hv & Hd).
  assert (finding_carrier (sources s2) f = Some None) as Hcar.
  { rewrite <- He' in Hv. eapply no_carrier; [exact Hv|exact Hd|done|done|done|done|done|done|done]. }
  destruct x as [cd s5]. unfold createDisputeFromFindings in Hc. tx_inv. unfold id in *.
  match goal with Hval : validateDisputableFindings _ = Ok _ |- _ =>
    apply (validate_carriers _ _ Hval (mkDisputable (vf_id f) (vf_status f) None (vf_currency f)
      (numeric_text <$> vf_variance_amount f) (vf_direction f))); [|done] end.
  apply claimable_elem. split; [|done]. apply elem_of_candidates. exists f. split; [done|].
  unfold candidate_row, uuid_is. rewrite !bool_decide_eq_true_2 by done. simpl. by rewrite Hcar.
Qed.

(** A header currency that is not three capital letters makes the audit of the
    document fail to persist, whatever its outcome: the CHECK of the invoice
    table refuses the header before any failure is recorded. *)
Lemma malformed_currency_unrecorded ct input e s cur x : headerCurrency (pi_invoice input) = Some cur →
  is_currency_code cur = false → persistAuditRun ct input e s ≠ Ok x.
Proof.
  intros Hcur Hbad Hp. destruct x as [p s']. unfold persistAuditRun in Hp.
  apply tx_bind_Ok in Hp as (transport & s1 & _ & Hp). apply tx_bind_Ok in Hp as (invoiceId & s2 & H2 & _).
  apply invoice_writes in H2 as (d2 & _ & _ & Hc). rewrite Hcur in Hc. simpl in Hc. congruence.
Qed.
End ingest.

(** ** The theorems at work *)

Section examples.
#[local] Existing Instances ExactDecimal.ops ExactDecimal.laws demo_sha demo_sha_laws demo_uuid demo_uuid_laws demo_zod code_unit_collator.
#[local] Instance demo_regex : PgRegex := λ _ _, false.
#[local] Instance demo_store : ObjectStore := λ sha, "file:///objects/" +:+ sha.

(** A motor invoice of 500.00 linehaul and 20.50 fuel, contracted at 480.00. *)
Definition demo_isa : string :=
  "ISA*00*          *00*          *02*SCAC           *ZZ*SHIPPER        *240101*1200*U*00401*000000001*0*P*>~".
Definition demo_210 (number total : string) : string :=
  demo_isa +:+ "GS*IM*SCAC*SHIPPER*20240101*1200*1*X*004010~ST*210*0001~B3**" +:+ number +:+ "*S1*PP**20240101*" +:+ total +:+
  "****SCAC~L1*1***500.00****400~L1*2***20.50****405~SE*5*0001~GE*1*1~IEA*1*000000001~".
Definition demo_ingest (number total : string) : IngestInput :=
  mkIngest (demo_id 0) (demo_210 number total) (Some "application/edi-x12") (Some (demo_id 400)).

Definition ingest_or (r : result handler_error ((IngestResult * catalog) * db)) : (IngestResult * catalog) * db :=
  match r with Ok x => x | Err _ => ((mkIngestResult "" "" REJECTED_REWORK, demo_catalog), empty_db) end.
Definition first_ingest : (IngestResult * catalog) * db := Eval vm_compute in
  ingest_or (ingestInvoice demo_catalog (demo_ingest "INV-1" "520.50") demo_env empty_db).
Definition again_ingest : (IngestResult * catalog) * db := Eval vm_compute in
  ingest_or (ingestInvoice first_ingest.1.2 (demo_ingest " inv-1" "520.5") demo_env first_ingest.2).
Lemma first_ok : ingestInvoice demo_catalog (demo_ingest "INV-1" "520.50") demo_env empty_db = Ok (first_ingest.1, first_ingest.2).
Proof. vm_cast_no_check (eq_refl (@Ok handler_error _ first_ingest)). Qed.
Lemma again_ok : ingestInvoice first_ingest.1.2 (demo_ingest " inv-1" "520.5") demo_env first_ingest.2 = Ok (again_ingest.1, again_ingest.2).
Proof. vm_cast_no_check (eq_refl (@Ok handler_error _ again_ingest)). Qed.

Lemma demo_documents_ok : documents_ok demo_catalog ∧ documents_ok first_ingest.1.2.
Proof. split; apply keyed_decided; vm_compute; reflexivity. Qed.
Lemma demo_catalog_ok : catalog_ok demo_catalog.
Proof. split; apply keyed_decided; vm_compute; reflexivity. Qed.
Lemma references_decided s :
  (let runs := map ar_id (audit_runs (sources s)) in
   forallb (λ g, bool_decide (gf_audit_run g ∈ runs)) (gate_failures (sources s)) &&
   forallb (λ d, bool_decide (pd_audit_run d ∈ runs)) (payment_gate_decisions s) &&
   forallb (λ m, bool_decide (rm_audit_run m ∈ runs)) (replay_manifests (evaluations s))) = true → references_ok s.
Proof.
  cbv zeta. rewrite !andb_true_iff, !forallb_forall. intros [[Hg Hd] Hm].
  split_and!; intros x Hx%list_elem_of_In; [apply Hg in Hx|apply Hd in Hx|apply Hm in Hx]; by apply bool_decide_eq_true in Hx.
Qed.
Lemma first_references : references_ok first_ingest.2.
Proof. apply references_decided. vm_compute. reflexivity. Qed.
Lemma ingested_audit_replays_witness : ∃ rr s3,
  replayAuditRun first_ingest.1.2 (ig_auditRunId first_ingest.1.1) (mkEnv 1800000000000 (scope demo_env)) again_ingest.2 = Ok (rr, s3) ∧
  outcome (ry_result rr) = SCORED.
Proof.
  destruct (ingested_audit_replays demo_catalog (demo_ingest "INV-1" "520.50") demo_env empty_db first_ingest.1.1 first_ingest.1.2
    first_ingest.2 1800000000000 again_ingest.2 (drop 1 (replay_manifests (evaluations again_ingest.2))) empty_references
    demo_catalog_ok (proj1 demo_documents_ok) eq_refl) as (rr & s3 & Hr & Ho & _).
  - exists (mkContractVersion (demo_id 400) (demo_id 0) None). split; [by left|]. split; reflexivity.
  - apply first_ok.
  - vm_compute. reflexivity.
  - apply replay_recordable_fresh. vm_compute. reflexivity.
  - exists rr, s3. split; [exact Hr|]. rewrite Ho. reflexivity.
Defined.


Definition demo_ix : X12Interchange := Eval vm_compute in
  match parseX12 (demo_210 "INV-1" "520.50") with Ok ix => ix | Err _ => mkInterchange (mkDelimiters " " " " " ") [] end.
Lemma repeated_invoice_found_witness : ∃ f, f ∈ variance_findings (Database.findings again_ingest.2) ∧
  vf_audit_run f = ig_auditRunId again_ingest.1.1.
Proof.
  destruct (parseX12 (demo_210 " inv-1" "520.5")) as [ix|] eqn:Hix; [|vm_compute in Hix; discriminate].
  destruct (invoices (sources first_ingest.2)) as [|row l] eqn:Erow; [discriminate|].
  destruct (repeated_invoice_found first_ingest.1.2 (demo_ingest " inv-1" "520.5") demo_env first_ingest.2 again_ingest.1.1
    again_ingest.1.2 again_ingest.2 ix " inv-1" row "INV-1" first_references (proj2 demo_documents_ok) eq_refl again_ok eq_refl Hix)
    as (f & rc & Hf & Hrun & _); try (vm_compute in Hix; injection Hix as <-; reflexivity);
    try (vm_compute in Erow; injection Erow as <- <-; reflexivity); try reflexivity.
  - rewrite Erow. by left.
  - vm_compute in Hix. injection Hix as <-. vm_compute in Erow. injection Erow as <- <-. reflexivity.
  - exists f. split; [exact Hf|exact Hrun].
Defined.

(** A document a dollar off its charges. *)
Definition off_invoice : ParsedInvoice := Eval vm_compute in
  match read_document demo_catalog (demo_210 "INV-2" "521.50") demo_env empty_db with
  | Ok ((_, inv), _) => inv | Err _ => demo_invoice "" end.
Definition off_result : AuditResult := Eval vm_compute in
  audit_or (evaluateInvoice off_invoice STANDARD_RUBRIC no_contract).
Lemma document_footing_checked_witness : "STD.FOOTING" ∈ map gf_criterionKey (gateFailures off_result).
Proof.
  destruct (parseX12 (demo_210 "INV-2" "521.50")) as [ix|] eqn:Hix; [|vm_compute in Hix; discriminate].
  refine (proj2 (document_footing_checked demo_catalog (demo_210 "INV-2" "521.50") demo_env empty_db Set210 off_invoice ix
    "521.50" 5215000 [5000000; 205000] STANDARD_RUBRIC no_contract off_result _ Hix _ _ _ _ _ _) _).
  - vm_compute. reflexivity.
  - vm_compute in Hix. injection Hix as <-. reflexivity.
  - reflexivity.
  - vm_compute in Hix. injection Hix as <-. vm_compute. reflexivity.
  - reflexivity.
  - by left.
  - vm_compute. reflexivity.
  - reflexivity.
Defined.

(** The findings of the first document, all accepted by an analyst. *)
Definition accepted_db : db := Eval vm_compute in
  upd_findings (λ t, mkFindings (map (set_finding_status "accepted") (variance_findings t)) [] []) first_ingest.2.
Definition overcharge : variance_finding := Eval vm_compute in
  default (mkFinding "" "" "" "" None None None None demo_basis)
    (head (List.filter (λ f, bool_decide (vf_direction f = Some "OVERCHARGE")) (variance_findings (Database.findings accepted_db)))).
Lemma ingested_finding_undisputable_witness : overcharge ∈ variance_findings (Database.findings accepted_db) ∧
  vf_status overcharge = "accepted" ∧ vf_variance_amount overcharge = Some 200000 ∧
  ∀ x, createDisputeFromFindings (demo_id 0) [vf_id overcharge] (Some (demo_id 9)) demo_env accepted_db ≠ Ok x.
Proof.
  assert (overcharge ∈ variance_findings (Database.findings accepted_db)) as Hf by (by apply (list_elem_of_lookup_2 _ 4)).
  split; [exact Hf|]. split; [reflexivity|]. split; [reflexivity|].
  intros x. apply (ingested_finding_undisputable demo_catalog (demo_ingest "INV-1" "520.50") demo_env empty_db first_ingest.1.1
    first_ingest.1.2 first_ingest.2 accepted_db demo_env [] [] overcharge [vf_id overcharge] (Some (demo_id 9)) x
    empty_references (proj1 demo_documents_ok) eq_refl first_ok);
    [reflexivity|reflexivity|exact Hf|reflexivity|reflexivity|discriminate|by left].
Defined.
Lemma undisputable_reason :
  createDisputeFromFindings (demo_id 0) [vf_id overcharge] (Some (demo_id 9)) demo_env accepted_db =
    Err (DisputableFindingsError "MISSING_CARRIER").
Proof. vm_compute. reflexivity. Qed.

(** A contract version nobody stored: the audit is persisted, and its replay
    compares a contract-rubric result with a standard-rubric one. *)
Definition unknown_version : (IngestResult * catalog) * db := Eval vm_compute in
  ingest_or (ingestInvoice demo_catalog (mkIngest (demo_id 0) (demo_210 "INV-3" "520.50") None (Some (demo_id 999))) demo_env empty_db).
Lemma unknown_version_unreplayable : ig_outcome unknown_version.1.1 = SCORED ∧
  replayAuditRun unknown_version.1.2 (ig_auditRunId unknown_version.1.1) demo_env unknown_version.2 =
    Err (ReplayIntegrityError "replay result is not byte-identical to the pinned result").
Proof. split; [reflexivity|]. vm_compute. reflexivity. Qed.

(** The same bytes under another content type are refused, by the ledger. *)
Lemma reingest_content_type_conflict :
  ingestInvoice first_ingest.1.2 (mkIngest (demo_id 0) (demo_210 "INV-1" "520.50") (Some "text/plain") (Some (demo_id 400)))
    demo_env first_ingest.2 = Err (AuditFailed AUDIT_EVENT_CONFLICT).
Proof. vm_compute. reflexivity. Qed.

(** A number that ends in a tab is stored with it, and its repetition goes
    unnoticed: the query strips spaces only. *)
Definition tabbed_db : db := Eval vm_compute in
  upd_sources (λ t, {| accounts := []; audit_runs := []; charge_facts := []; gate_failures := [];
    invoices := [mkInvoiceRow (demo_id 1) (demo_id 0) None None "210" (Some ("INV-1" +:+ String "009" "")) None "210-v1"] |}) empty_db.
Lemma tab_hides_duplicate :
  detectDuplicateInvoice (demo_id 0) (Some ("INV-1" +:+ String "009" "")) "210" demo_env tabbed_db = Ok (Some false, tabbed_db).
Proof. vm_compute. reflexivity. Qed.
End examples.
