(* ===== verification/Cascade.v ===== *)
(** The rubric cascade ([src/src/modules/rubric-resolver/]): the tiers are folded
    into one list of operations per criterion ([fold-rubric-tiers.ts]), which
    [apply-inherit-add.ts] and [apply-replace.ts] resolve into pinned criterion
    versions; [apply-exempt.ts] and [exemption-policy.ts] decide exemptions. *)

From S2P Require Import Prelude JsText Json AuditLedger Rubrics Jsonb Tx.

(** ** Folding the tiers *)

Inductive RubricTier : Set := STANDARD | CLIENT | CONTRACT.
#[export] Instance RubricTier_eq_dec : EqDecision RubricTier.
Proof. solve_decision. Defined.
Definition TIERS : list RubricTier := [STANDARD; CLIENT; CONTRACT].
Definition tier_index (t : RubricTier) : Z := match t with STANDARD => 0 | CLIENT => 1 | CONTRACT => 2 end.

Inductive OverrideVerb : Set := INHERIT | ADD | REPLACE | TIGHTEN | EXEMPT.
#[export] Instance OverrideVerb_eq_dec : EqDecision OverrideVerb.
Proof. solve_decision. Defined.

Record membership := mkMembership {
  mb_criterionKey : string; mb_criterionVersionId : option string; mb_overrideVerb : OverrideVerb;
  mb_overridePayload : option json; mb_evalOrder : Z;
}.
Record RubricLayer := mkLayer {
  rl_tier : RubricTier; rl_rubricId : string; rl_rubricVersionId : string; rl_memberships : list membership;
}.
(** [{ ...membership, tier, rubricVersionId }] *)
Record operation := mkOperation { op_membership : membership; op_tier : RubricTier; op_rubricVersionId : string }.
Definition op_criterionKey (o : operation) : string := mb_criterionKey (op_membership o).
Definition op_criterionVersionId (o : operation) : option string := mb_criterionVersionId (op_membership o).
Definition op_overrideVerb (o : operation) : OverrideVerb := mb_overrideVerb (op_membership o).
Definition op_evalOrder (o : operation) : Z := mb_evalOrder (op_membership o).
Record FoldedCriterionOperations := mkFolded { fc_criterionKey : string; fc_operations : list operation }.

Inductive RubricFoldInputError : Set := InvalidTierInput | MultipleVersionsForOneTier.

(** [z.number().int()]: a safe integer. *)
Definition safe_int (n : Z) : bool := Z.abs n <? 2 ^ 53.

Section fold.
Context {C : Collator} {W : Zod}.

Definition membership_schema (m : membership) : option membership :=
  let key := trim (mb_criterionKey m) in
  if truthy key && from_option zod_uuid true (mb_criterionVersionId m) && safe_int (mb_evalOrder m)
  then Some (mkMembership key (mb_criterionVersionId m) (mb_overrideVerb m) (mb_overridePayload m) (mb_evalOrder m))
  else None.
Definition LayerSchema (l : RubricLayer) : option RubricLayer :=
  if zod_uuid (rl_rubricId l) && zod_uuid (rl_rubricVersionId l) then
    ms ← mapM membership_schema (rl_memberships l);
    Some (mkLayer (rl_tier l) (rl_rubricId l) (rl_rubricVersionId l) ms)
  else None.

Definition membership_order : membership → membership → comparison :=
  cmp_then (cmp_on mb_evalOrder Z.compare) (cmp_on mb_criterionKey localeCompare).
Definition layer_operations (l : RubricLayer) : list operation :=
  map (λ m, mkOperation m (rl_tier l) (rl_rubricVersionId l)) (js_sort membership_order (rl_memberships l)).
(** [grouped.set(key, [...(grouped.get(key) ?? []), operation])] *)
Definition group_operation (grouped : list (string * list operation)) (o : operation) : list (string * list operation) :=
  map_set grouped (op_criterionKey o) (default [] (map_get grouped (op_criterionKey o)) ++ [o]).

(** [Math.min(...)] of the group's evaluation orders; a group is never empty. *)
Definition group_order (c : FoldedCriterionOperations) : Z :=
  match map op_evalOrder (fc_operations c) with [] => 0 | n :: l => foldl Z.min n l end.
Definition group_compare : FoldedCriterionOperations → FoldedCriterionOperations → comparison :=
  cmp_then (cmp_on group_order Z.compare) (cmp_on fc_criterionKey localeCompare).

Definition group_layers (layers : list RubricLayer) : list FoldedCriterionOperations :=
  js_sort group_compare
    (map (λ e, mkFolded e.1 e.2) (foldl group_operation [] (concat (map layer_operations layers)))).

Definition foldRubricTiers (untrustedLayers : list RubricLayer) : result RubricFoldInputError (list FoldedCriterionOperations) :=
  match mapM LayerSchema untrustedLayers with
  | None => Err InvalidTierInput
  | Some parsed =>
      let layers := js_sort (cmp_on rl_tier (cmp_on tier_index Z.compare)) parsed in
      if negb (length (set_of (map rl_tier layers)) =? length layers)%nat then Err MultipleVersionsForOneTier
      else Ok (group_layers layers)
  end.
End fold.

(** ** INHERIT, ADD and REPLACE *)

Record ResolvedCriterionMember := mkMember {
  rm_criterionVersionId : string; rm_introducedBy : RubricTier; rm_rubricVersionId : string;
  rm_sourceVerb : OverrideVerb;   (* INHERIT, ADD or REPLACE *)
}.
Record InheritAddCriterion := mkResolvedCriterion { ic_criterionKey : string; ic_members : list ResolvedCriterionMember }.

(** The reasons [InheritAddResolutionError] and [ReplaceResolutionError] give. *)
Inductive resolution_reason : Set :=
  | UnsupportedVerb (v : OverrideVerb) | RequiresVersionPin (v : OverrideVerb)
  | RequiresUpstream | NoCriterionVersion.
Definition resolution_error : Set := string * resolution_reason.

Definition member_of (o : operation) (version : string) : ResolvedCriterionMember :=
  mkMember version (op_tier o) (op_rubricVersionId o) (op_overrideVerb o).

(** One round of the loop of [applyInheritAdd]; the state is [(members, pinned)]. *)
Definition inherit_add_step (key : string) (st : list ResolvedCriterionMember * list string) (o : operation) :
    result resolution_error (list ResolvedCriterionMember * list string) :=
  let '(members, pinned) := st in
  _ ← guard_or (bool_decide (op_overrideVerb o ∈ [INHERIT; ADD])) (key, UnsupportedVerb (op_overrideVerb o));
  if bool_decide (op_overrideVerb o = INHERIT) && negb (bool_decide (members = [])) then Ok st else
  match op_criterionVersionId o with
  | None => Err (key, RequiresVersionPin (op_overrideVerb o))
  | Some version =>
      if bool_decide (version ∈ pinned) then Ok st
      else Ok (members ++ [member_of o version], pinned ++ [version])
  end.
Definition applyInheritAdd (folded : list FoldedCriterionOperations) : result resolution_error (list InheritAddCriterion) :=
  map_res (λ criterion,
    let key := fc_criterionKey criterion in
    st ← fold_res (inherit_add_step key) ([], []) (fc_operations criterion);
    _ ← guard_or (negb (bool_decide (st.1 = []))) (key, NoCriterionVersion);
    Ok (mkResolvedCriterion key st.1)) folded.

(** One round of the loop of [applyReplace]. *)
Definition replace_step (key : string) (members : list ResolvedCriterionMember) (o : operation) :
    result resolution_error (list ResolvedCriterionMember) :=
  _ ← guard_or (bool_decide (op_overrideVerb o ∈ [INHERIT; ADD; REPLACE])) (key, UnsupportedVerb (op_overrideVerb o));
  if bool_decide (op_overrideVerb o = INHERIT) && negb (bool_decide (members = [])) then Ok members else
  match op_criterionVersionId o with
  | None => Err (key, RequiresVersionPin (op_overrideVerb o))
  | Some version =>
      if decide (op_overrideVerb o = REPLACE) then
        _ ← guard_or (negb (bool_decide (members = []))) (key, RequiresUpstream);
        Ok [member_of o version]
      else if existsb (λ m, bool_decide (rm_criterionVersionId m = version)) members then Ok members
      else Ok (members ++ [member_of o version])
  end.
Definition resolve_criterion (criterion : FoldedCriterionOperations) : result resolution_error InheritAddCriterion :=
  let key := fc_criterionKey criterion in
  members ← fold_res (replace_step key) [] (fc_operations criterion);
  _ ← guard_or (negb (bool_decide (members = []))) (key, NoCriterionVersion);
  Ok (mkResolvedCriterion key members).
Definition applyReplace (folded : list FoldedCriterionOperations) : result resolution_error (list InheritAddCriterion) :=
  map_res resolve_criterion folded.

(** ** Exemptions *)

Inductive exempt_reason : Set :=
  | ExpectedExempt (v : OverrideVerb) | NoUpstreamCriterion | StandardCannotExempt | ReasonAndAuthorityRequired.
Inductive exempt_error : Set :=
  | ExemptResolutionError (criterionKey : string) (reason : exempt_reason)
  | ProtectionUnavailable (criterionKey : string)            (* HardStandardGateExemptionError, *)
  | HardStandardGateExemptionError (criterionKey : string).  (* both EXEMPT_HARD_STANDARD_GATE *)

Definition bounded_text (max : nat) (j : json) : option string :=
  s ← as_string j;
  let t := trim s in
  if truthy t && (String.length t <=? max)%nat then Some t else None.
(** A strict object: no key but these two. *)
Definition PayloadSchema (payload : option json) : option (string * string) :=
  match payload with
  | Some (JObject entries) =>
      if forallb (λ e, bool_decide (e.1 ∈ ["reason"; "authority"])) entries then
        reason ← required (bounded_text 1000) (JObject entries) "reason";
        authority ← required (bounded_text 255) (JObject entries) "authority";
        Some (reason, authority)
      else None
  | _ => None
  end.

Record ExemptedCriterion := mkExempted {
  ex_criterionKey : string; ex_priorMembers : list ResolvedCriterionMember;
  ex_reason : string; ex_authority : string; ex_exemptedBy : RubricTier * string;
}.

Definition applyExempt (current : option InheritAddCriterion) (o : operation) : result exempt_error ExemptedCriterion :=
  let fail r := ExemptResolutionError (op_criterionKey o) r in
  _ ← guard_or (bool_decide (op_overrideVerb o = EXEMPT)) (fail (ExpectedExempt (op_overrideVerb o)));
  match current with
  | Some (mkResolvedCriterion _ ((_ :: _) as members)) =>
      _ ← guard_or (negb (bool_decide (op_tier o = STANDARD))) (fail StandardCannotExempt);
      match PayloadSchema (mb_overridePayload (op_membership o)) with
      | None => Err (fail ReasonAndAuthorityRequired)
      | Some (reason, authority) =>
          Ok (mkExempted (op_criterionKey o) members reason authority (op_tier o, op_rubricVersionId o))
      end
  | _ => Err (fail NoUpstreamCriterion)
  end.

Inductive Hardness : Set := HUMAN_INPUT | AI_CANON | AI_DOCS | FIRM_RULE.
#[export] Instance Hardness_eq_dec : EqDecision Hardness.
Proof. solve_decision. Defined.
Record CriterionProtectionMetadata := mkProtection {
  cp_criterionVersionId : string; cp_kind : CriterionKind; cp_hardness : Hardness;
}.

(** [new Map(metadata.map(...)).get(version)]: the last entry counts. *)
Definition protection_of (metadata : list CriterionProtectionMetadata) (version : string) : option CriterionProtectionMetadata :=
  map_get (map_of (map (λ p, (cp_criterionVersionId p, p)) metadata)) version.
Definition hard_standard_gate (m : ResolvedCriterionMember) (p : CriterionProtectionMetadata) : bool :=
  bool_decide (rm_introducedBy m = STANDARD) && bool_decide (cp_kind p = GATING) && bool_decide (cp_hardness p = FIRM_RULE).

Definition protection_check (key : string) (metadata : list CriterionProtectionMetadata) (_ : unit)
    (m : ResolvedCriterionMember) : result exempt_error unit :=
  match protection_of metadata (rm_criterionVersionId m) with
  | None => Err (ProtectionUnavailable key)
  | Some p => guard_or (negb (hard_standard_gate m p)) (HardStandardGateExemptionError key)
  end.
Definition applyPermittedExempt (current : InheritAddCriterion) (o : operation)
    (metadata : list CriterionProtectionMetadata) : result exempt_error ExemptedCriterion :=
  _ ← fold_res (protection_check (ic_criterionKey current) metadata) tt (ic_members current);
  applyExempt (Some current) o.
