(* ===== verification/CascadeSafety.v ===== *)
(** What the rubric cascade guarantees: folding does not depend on the order the
    layers come in, a criterion resolves to its last replacement and the
    additions after it, [applyReplace] extends [applyInheritAdd], and exactly
    which exemptions are permitted. *)

From S2P Require Import Prelude JsText Json Store AuditLedger Rubrics Jsonb Tx Cascade.

(** ** Order of the layers *)

Section cascade.
Context {C : Collator} {CL : CollatorLaws C} {W : Zod}.

Definition trimmed_key (m : membership) : string := trim (mb_criterionKey m).
(** Two layers that differ only in the order of their memberships. *)
Definition same_layer (l l' : RubricLayer) : Prop :=
  rl_tier l = rl_tier l' ∧ rl_rubricId l = rl_rubricId l' ∧ rl_rubricVersionId l = rl_rubricVersionId l' ∧
  rl_memberships l ≡ₚ rl_memberships l'.
(** The collation tells the keys of a layer apart. *)
Definition keys_apart (l : RubricLayer) : Prop := ∀ m m', m ∈ rl_memberships l → m' ∈ rl_memberships l →
  localeCompare (trimmed_key m) (trimmed_key m') = Eq → m = m'.

Lemma tier_index_inj t t' : tier_index t = tier_index t' → t = t'.
Proof. by destruct t, t'. Qed.

Lemma single_tiers (layers : list RubricLayer) :
  length (set_of (map rl_tier layers)) = length layers → NoDup (map rl_tier layers).
Proof.
  rewrite <- (length_map rl_tier). apply set_of_length.
Qed.

Lemma membership_schema_key m m' : membership_schema m = Some m' →
  mb_criterionKey m' = trimmed_key m ∧ mb_evalOrder m' = mb_evalOrder m.
Proof. unfold membership_schema, trimmed_key. case_match; [|done]. by intros [= <-]. Qed.

(** A layer whose memberships come in another order yields the same operations. *)
Lemma layer_operations_perm l l' k : same_layer l l' → keys_apart l → LayerSchema l = Some k →
  ∃ k', LayerSchema l' = Some k' ∧ rl_tier k = rl_tier k' ∧ layer_operations k = layer_operations k'.
Proof.
  intros (Ht & Hr & Hv & Hp) Ha. unfold LayerSchema. rewrite <- Hr, <- Hv.
  destruct (zod_uuid _ && zod_uuid _); [|done].
  pose proof (mapM_perm membership_schema _ _ Hp) as Hm.
  destruct (mapM membership_schema (rl_memberships l)) as [ms|] eqn:E; [|done].
  destruct (mapM membership_schema (rl_memberships l')) as [ms'|]; [|done].
  intros [= <-]. eexists. split; [done|]. split; [done|]. unfold layer_operations. simpl. rewrite Ht. f_equal.
  apply (js_sort_unique _); [done|]. intros x y Hx Hy.
  destruct (mapM_elem _ _ _ _ E Hx) as (x0 & Hx0 & Hx1), (mapM_elem _ _ _ _ E Hy) as (y0 & Hy0 & Hy1).
  destruct (membership_schema_key _ _ Hx1) as [Hxk _], (membership_schema_key _ _ Hy1) as [Hyk _].
  unfold membership_order, cmp_then, cmp_on. destruct (_ ?= _) eqn:Ez; try done.
  rewrite Hxk, Hyk. intros Hc. rewrite (Ha x0 y0) in Hx1 by done. congruence.
Qed.

(** The layers of a fold, once sorted by tier. *)
Lemma sorted_layers (parsed parsed' : list RubricLayer) : parsed ≡ₚ parsed' → NoDup (map rl_tier parsed) →
  js_sort (cmp_on rl_tier (cmp_on tier_index Z.compare)) parsed = js_sort (cmp_on rl_tier (cmp_on tier_index Z.compare)) parsed'.
Proof.
  intros Hp Hnd. apply (js_sort_unique _); [done|]. intros x y Hx Hy Ht%Z.compare_eq_iff%tier_index_inj.
  apply (NoDup_map_inj rl_tier parsed); done.
Qed.

(** What folding reads of a parsed layer. *)
Definition layer_view (l : RubricLayer) : RubricTier * list operation := (rl_tier l, layer_operations l).
Lemma sorted_view ks : map layer_view (js_sort (cmp_on rl_tier (cmp_on tier_index Z.compare)) ks) =
  js_sort (cmp_on fst (cmp_on tier_index Z.compare)) (map layer_view ks).
Proof. symmetry. by apply js_sort_map. Qed.
Lemma group_layers_view ks ks' : map layer_view ks = map layer_view ks' → group_layers ks = group_layers ks'.
Proof.
  intros H. unfold group_layers. do 4 f_equal. apply (f_equal (map snd)) in H. by rewrite !map_map in H.
Qed.

Lemma same_layer_sym l l' : same_layer l l' → same_layer l' l.
Proof. intros (? & ? & ? & ?). by split_and!. Qed.
Lemma keys_apart_same l l' : same_layer l l' → keys_apart l → keys_apart l'.
Proof. intros (_ & _ & _ & Hp) Ha m m' Hm Hm'. rewrite <- Hp in Hm, Hm'. by apply Ha. Qed.

Lemma parsed_views layers layers' ks : Forall2 same_layer layers layers' → Forall keys_apart layers →
  mapM LayerSchema layers = Some ks →
  ∃ ks', mapM LayerSchema layers' = Some ks' ∧ map layer_view ks = map layer_view ks'.
Proof.
  intros Hs. revert ks. induction Hs as [|l l' layers layers' Hl _ IH]; intros ks Ha; cbn [mapM].
  - intros [= <-]. by exists [].
  - inversion Ha as [|? ? Hl1 Ha1]; subst. intros (k & Hk & (rest & Hr & [= <-])%bind_Some)%bind_Some.
    destruct (layer_operations_perm _ _ _ Hl Hl1 Hk) as (k' & -> & Ht & Ho), (IH _ Ha1 Hr) as (rest' & -> & Hv).
    exists (k' :: rest'). split; [done|]. cbn [map]. rewrite Hv. unfold layer_view. by rewrite Ht, Ho.
Qed.

Lemma set_of_perm_length {A} `{EqDecision A} (l l' : list A) : l ≡ₚ l' → length (set_of l) = length (set_of l').
Proof.
  intros Hp. apply Permutation_length, NoDup_Permutation; [apply NoDup_set_of..|].
  intros x. by rewrite !elem_of_set_of, Hp.
Qed.

(** The outcome of a fold, from the parsed layers. *)
Definition folded_of (parsed : option (list RubricLayer)) : result RubricFoldInputError (list FoldedCriterionOperations) :=
  match parsed with
  | None => Err InvalidTierInput
  | Some ks => if decide (NoDup (map rl_tier ks))
               then Ok (group_layers (js_sort (cmp_on rl_tier (cmp_on tier_index Z.compare)) ks))
               else Err MultipleVersionsForOneTier
  end.
Lemma foldRubricTiers_parsed layers : foldRubricTiers layers = folded_of (mapM LayerSchema layers).
Proof using Type.
  unfold foldRubricTiers, folded_of. destruct (mapM LayerSchema layers) as [ks|]; [|done].
  set (s := js_sort _ ks). assert (s ≡ₚ ks) as Hp by apply js_sort_perm.
  replace (length (set_of (map rl_tier s)) =? length s)%nat with (bool_decide (NoDup (map rl_tier ks))).
  { case_bool_decide; [by rewrite decide_True|by rewrite decide_False]. }
  rewrite (set_of_perm_length _ (map rl_tier ks)) by by rewrite Hp.
  rewrite (Permutation_length Hp), <- (length_map rl_tier ks).
  case_bool_decide as Hd; symmetry.
  - apply Nat.eqb_eq. by apply set_of_length.
  - apply Nat.eqb_neq. intros He. by apply Hd, set_of_length.
Qed.

(** Folding is deterministic: it does not depend on the order in which the
    database returns the layers, nor, when the collation tells the keys of a
    layer apart, on the order of the memberships inside a layer; errors
    included. *)
Theorem foldRubricTiers_order_independent layers mid layers' :
  Forall2 same_layer layers mid → mid ≡ₚ layers' → Forall keys_apart layers →
  foldRubricTiers layers = foldRubricTiers layers'.
Proof using CL.
  intros Hs Hp Ha. rewrite !foldRubricTiers_parsed.
  assert (folded_of (mapM LayerSchema layers) = folded_of (mapM LayerSchema mid)) as ->.
  { destruct (mapM LayerSchema layers) as [ks|] eqn:E.
    - destruct (parsed_views _ _ _ Hs Ha E) as (ks' & -> & Hv). unfold folded_of.
      assert (map rl_tier ks = map rl_tier ks') as Ht.
      { apply (f_equal (map fst)) in Hv. by rewrite !map_map in Hv. }
      rewrite Ht. destruct (decide _); [|done]. f_equal. apply group_layers_view. by rewrite !sorted_view, Hv.
    - destruct (mapM LayerSchema mid) as [ks'|] eqn:E'; [|done].
      destruct (parsed_views mid layers ks') as (ks & Hk & _); [|..|done|congruence].
      + clear -Hs. induction Hs; constructor; eauto using same_layer_sym.
      + clear -Hs Ha. induction Hs; inversion Ha; subst; constructor; eauto using keys_apart_same. }
  pose proof (mapM_perm LayerSchema _ _ Hp) as Hm.
  destruct (mapM LayerSchema mid) as [ks|], (mapM LayerSchema layers') as [ks'|]; try done.
  unfold folded_of. destruct (decide (NoDup (map rl_tier ks))) as [Hd|Hd].
  - rewrite decide_True by by rewrite <- Hm. by rewrite (sorted_layers ks ks').
  - rewrite decide_False; [done|]. by rewrite <- Hm.
Qed.
End cascade.

(** ** What a criterion resolves to *)

Definition pinned_member (o : operation) : option ResolvedCriterionMember := member_of o <$> op_criterionVersionId o.
Definition is_replace (o : operation) : bool := bool_decide (op_overrideVerb o = REPLACE).
Definition is_add (o : operation) : bool := bool_decide (op_overrideVerb o = ADD).

(** The operation in force (the last replacement, or the first operation) and
    the additions after it. *)
Fixpoint in_force (ops : list operation) : list operation :=
  match ops with
  | [] => []
  | o :: ops' => if existsb is_replace ops' then in_force ops' else o :: List.filter is_add ops'
  end.
(** Each pinned version once, at its first occurrence. *)
Definition add_member (ms : list ResolvedCriterionMember) (m : ResolvedCriterionMember) : list ResolvedCriterionMember :=
  if existsb (λ x, bool_decide (rm_criterionVersionId x = rm_criterionVersionId m)) ms then ms else ms ++ [m].
Definition cascade_members (ops : list operation) : list ResolvedCriterionMember :=
  foldl add_member [] (omap pinned_member (in_force ops)).

(** The cascades that resolve: they open with a pinned INHERIT or ADD, and every
    later ADD and REPLACE is pinned. *)
Definition opening_ok (o : operation) : bool :=
  bool_decide (op_overrideVerb o ∈ [INHERIT; ADD]) && bool_decide (is_Some (op_criterionVersionId o)).
Definition later_ok (o : operation) : bool :=
  bool_decide (op_overrideVerb o = INHERIT) ||
  bool_decide (op_overrideVerb o ∈ [ADD; REPLACE]) && bool_decide (is_Some (op_criterionVersionId o)).
Definition cascade_ok (ops : list operation) : bool :=
  match ops with [] => false | o :: ops' => opening_ok o && forallb later_ok ops' end.

Section resolution.
Implicit Types (o : operation) (ops : list operation) (ms : list ResolvedCriterionMember).

(** One later operation, when it is acceptable. *)
Definition later_step ms o : list ResolvedCriterionMember :=
  match op_overrideVerb o, pinned_member o with
  | ADD, Some m => add_member ms m
  | REPLACE, Some m => [m]
  | _, _ => ms
  end.

Lemma later_step_nonempty ms o : ms ≠ [] → later_step ms o ≠ [].
Proof.
  intros Hms. unfold later_step. repeat case_match; try done. unfold add_member. case_match; [done|]. by destruct ms.
Qed.

Lemma replace_step_later key ms o r : ms ≠ [] →
  replace_step key ms o = Ok r ↔ later_ok o = true ∧ r = later_step ms o.
Proof.
  intros Hms. unfold replace_step, later_ok, later_step, pinned_member, add_member.
  rewrite (bool_decide_eq_false_2 (ms = [])) by done. simpl.
  destruct (op_overrideVerb o) eqn:Ev, (op_criterionVersionId o) as [v|]; cbn.
  all: try (split; [intros [= <-]|intros [? ->]]; done).
  destruct (existsb _ ms); (split; [intros [= <-]|intros [? ->]]; done).
Qed.

Lemma replace_loop key ms ops r : ms ≠ [] →
  fold_res (replace_step key) ms ops = Ok r ↔ forallb later_ok ops = true ∧ r = foldl later_step ms ops.
Proof.
  revert ms. induction ops as [|o ops IH]; intros ms Hms.
  { cbn. split; [by intros [= <-]|by intros [_ ->]]. }
  rewrite fold_res_cons, bind_Ok. setoid_rewrite replace_step_later; [|done]. cbn [forallb foldl].
  rewrite andb_true_iff. split.
  - intros (ms' & [Ho ->] & H). apply IH in H as [? ->]; [done|by apply later_step_nonempty].
  - intros [[Ho Hops] ->]. eexists. split; [done|]. apply IH; [by apply later_step_nonempty|done].
Qed.

(** A loop over acceptable operations forgets what the last replacement hides. *)
Lemma later_members ms ops : forallb later_ok ops = true →
  foldl later_step ms ops =
    if existsb is_replace ops then cascade_members ops
    else foldl add_member ms (omap pinned_member (List.filter is_add ops)).
Proof.
  revert ms. induction ops as [|o ops IH]; intros ms; [done|]. cbn [forallb foldl existsb List.filter].
  intros [Ho Hops]%andb_true_iff. rewrite IH by done. unfold cascade_members. cbn [in_force].
  destruct (existsb is_replace ops) eqn:Er; [by rewrite orb_true_r|]. rewrite orb_false_r.
  clear IH Er Hops. revert Ho. generalize (List.filter is_add ops) as l. intros l.
  assert (∀ l, omap pinned_member (o :: l) =
    match pinned_member o with Some m => m :: omap pinned_member l | None => omap pinned_member l end) as Hcons by done.
  unfold later_step, later_ok, is_replace, is_add.
  assert (is_Some (pinned_member o) ↔ is_Some (op_criterionVersionId o)) as Hpin by apply fmap_is_Some.
  rewrite <- (bool_decide_ext _ _ Hpin).
  destruct (op_overrideVerb o) eqn:Ev; try done; destruct (pinned_member o) as [m|] eqn:Ep; try done; intros _.
  - change (foldl add_member (add_member ms m) (omap pinned_member l) = foldl add_member ms (omap pinned_member (o :: l))).
    by rewrite Hcons.
  - change (foldl add_member [m] (omap pinned_member l) = foldl add_member [] (omap pinned_member (o :: l))).
    by rewrite Hcons.
Qed.

Lemma opening_step key o r : replace_step key [] o = Ok r ↔
  opening_ok o = true ∧ r = omap pinned_member [o].
Proof.
  unfold replace_step, opening_ok, pinned_member. cbn.
  destruct (op_overrideVerb o) eqn:Ev, (op_criterionVersionId o) as [v|]; cbn.
  all: split; [intros H|intros [? ->]]; try done.
  all: by injection H as <-.
Qed.

Lemma opening_members o ops : opening_ok o = true → forallb later_ok ops = true →
  foldl later_step (omap pinned_member [o]) ops = cascade_members (o :: ops).
Proof.
  intros Ho Hops. rewrite later_members by done. unfold cascade_members. cbn [in_force].
  destruct (existsb is_replace ops); [done|].
  cbn. by destruct (pinned_member o).
Qed.
Lemma opening_nonempty o : opening_ok o = true → omap pinned_member [o] ≠ [].
Proof.
  unfold opening_ok, pinned_member. intros [_ [v Hv]%bool_decide_eq_true]%andb_true_iff. cbn. by rewrite Hv.
Qed.
Lemma foldl_later_nonempty ms ops : ms ≠ [] → foldl later_step ms ops ≠ [].
Proof. revert ms. induction ops as [|o ops IH]; intros ms Hms; [done|]. cbn. by apply IH, later_step_nonempty. Qed.
End resolution.

(** C19: a criterion resolves exactly when its cascade opens with a pinned INHERIT
    or ADD and every later ADD and REPLACE is pinned, and then to the operation in
    force (the last REPLACE, or the first operation) followed by the ADDs after
    it, each criterion version once. *)
Theorem cascade_resolution_exact (criterion : FoldedCriterionOperations) (r : InheritAddCriterion) :
  applyReplace [criterion] = Ok [r] ↔
    cascade_ok (fc_operations criterion) = true ∧
    r = mkResolvedCriterion (fc_criterionKey criterion) (cascade_members (fc_operations criterion)).
Proof.
  transitivity (resolve_criterion criterion = Ok r).
  { unfold applyReplace. rewrite map_res_cons. cbn.
    destruct (resolve_criterion criterion); cbn; split; by intros [= <-]. }
  unfold resolve_criterion. destruct (fc_operations criterion) as [|o ops].
  { cbn. split; [done|]. by intros []. }
  rewrite fold_res_cons, bind_Ok. cbn [cascade_ok]. rewrite andb_true_iff. split.
  - intros (ms & (m0 & [Ho ->]%opening_step & Hl)%bind_Ok & Hg).
    apply replace_loop in Hl as [Hops ->]; [|by apply opening_nonempty].
    rewrite opening_members in Hg by done. res_inv. done.
  - intros [[Ho Hops] ->]. exists (cascade_members (o :: ops)). rewrite <- opening_members by done. split.
    + apply bind_Ok. eexists. split; [by apply opening_step|].
      apply replace_loop; [by apply opening_nonempty|done].
    + rewrite bool_decide_eq_false_2 by by apply foldl_later_nonempty, opening_nonempty. done.
Qed.

(** ** [applyReplace] extends [applyInheritAdd] *)

(** [pinned] holds the versions of [members]. *)
Lemma inherit_add_replace_step key ms o : op_overrideVerb o ≠ REPLACE →
  replace_step key ms o = fst <$> inherit_add_step key (ms, map rm_criterionVersionId ms) o ∧
  ∀ st, inherit_add_step key (ms, map rm_criterionVersionId ms) o = Ok st → st.2 = map rm_criterionVersionId st.1.
Proof.
  intros Hv. unfold replace_step, inherit_add_step.
  assert (bool_decide (op_overrideVerb o ∈ [INHERIT; ADD; REPLACE]) = bool_decide (op_overrideVerb o ∈ [INHERIT; ADD])) as ->
    by by destruct (op_overrideVerb o).
  destruct (bool_decide (op_overrideVerb o ∈ _)); [|done]. cbn.
  destruct (bool_decide _ && negb _); [split; [done|by intros ? [= <-]]|].
  destruct (op_criterionVersionId o) as [v|]; [|done]. rewrite decide_False by done.
  assert (existsb (λ m, bool_decide (rm_criterionVersionId m = v)) ms = bool_decide (v ∈ map rm_criterionVersionId ms)) as ->.
  { apply eq_true_iff_eq. rewrite existsb_exists, bool_decide_eq_true, list_elem_of_In, in_map_iff.
    split; intros (m & H1 & H2); exists m; [apply bool_decide_eq_true in H2|split; [|apply bool_decide_eq_true]]; done. }
  case_bool_decide; (split; [done|]); intros ? [= <-]; [done|]. cbn. by rewrite map_app.
Qed.

Lemma inherit_add_replace_loop key ms ops : (∀ o, o ∈ ops → op_overrideVerb o ≠ REPLACE) →
  fold_res (replace_step key) ms ops = fst <$> fold_res (inherit_add_step key) (ms, map rm_criterionVersionId ms) ops.
Proof.
  revert ms. induction ops as [|o ops IH]; intros ms Hv; [done|]. rewrite !fold_res_cons.
  destruct (inherit_add_replace_step key ms o) as [-> Hst]; [by apply Hv; left|].
  destruct (inherit_add_step key _ o) as [[ms' pinned]|e]; [|done]. cbn. specialize (Hst _ eq_refl). cbn in Hst. subst pinned.
  apply IH. intros o' Ho'. apply Hv. by right.
Qed.

(** On cascades without a REPLACE the two resolvers agree, on results and on
    errors alike, however the loop keeps track of the versions it has pinned. *)
Theorem applyReplace_extends_inherit_add folded :
  (∀ c o, c ∈ folded → o ∈ fc_operations c → op_overrideVerb o ≠ REPLACE) →
  applyReplace folded = applyInheritAdd folded.
Proof.
  intros H. unfold applyReplace, applyInheritAdd. apply map_res_ext. intros c Hc. unfold resolve_criterion.
  rewrite inherit_add_replace_loop by eauto. cbn [map].
  by destruct (fold_res (inherit_add_step _) ([], []) _) as [[ms pinned]|e].
Qed.

(** ** Exemptions *)

Lemma protection_fold key metadata ms : fold_res (protection_check key metadata) tt ms = Ok tt ↔
  ∀ m, m ∈ ms → ∃ p, protection_of metadata (rm_criterionVersionId m) = Some p ∧ hard_standard_gate m p = false.
Proof.
  induction ms as [|m ms IH]; [split; [intros _; set_solver|done]|]. rewrite fold_res_cons, bind_Ok. split.
  - intros ([] & Hm & H) m' Hm'. rewrite IH in H. apply elem_of_cons in Hm' as [->|Hm']; [|by apply H].
    unfold protection_check in Hm. destruct (protection_of _ _) as [p|]; [|done].
    apply guard_or_Ok, negb_true_iff in Hm. by exists p.
  - intros H. exists tt. split; [|apply IH; intros; apply H; by right].
    destruct (H m) as (p & Hp & Hg); [by left|]. unfold protection_check. by rewrite Hp, Hg.
Qed.

(** An exemption is granted exactly when the operation is an EXEMPT of the
    CLIENT or CONTRACT tier with a reason and an authority, the criterion has
    members, the protection of every member is known, and none is a hard STANDARD
    gate; the record names the reason, the authority and who exempted. *)
Theorem permitted_exempt_exact current o metadata e :
  applyPermittedExempt current o metadata = Ok e ↔
    (∀ m, m ∈ ic_members current →
       ∃ p, protection_of metadata (rm_criterionVersionId m) = Some p ∧
            ¬ (rm_introducedBy m = STANDARD ∧ cp_kind p = GATING ∧ cp_hardness p = FIRM_RULE)) ∧
    ic_members current ≠ [] ∧ op_overrideVerb o = EXEMPT ∧ op_tier o ≠ STANDARD ∧
    ∃ reason authority, PayloadSchema (mb_overridePayload (op_membership o)) = Some (reason, authority) ∧
      e = mkExempted (op_criterionKey o) (ic_members current) reason authority (op_tier o, op_rubricVersionId o).
Proof.
  unfold applyPermittedExempt. rewrite bind_Ok.
  transitivity ((∀ m, m ∈ ic_members current →
       ∃ p, protection_of metadata (rm_criterionVersionId m) = Some p ∧ hard_standard_gate m p = false) ∧
     applyExempt (Some current) o = Ok e).
  { rewrite <- (protection_fold (ic_criterionKey current)). split; [by intros ([] & ? & ?)|intros []; by exists tt]. }
  match goal with |- (?a ∧ ?b ↔ ?c ∧ ?d) => enough ((a ↔ c) ∧ (b ↔ d)) by tauto end. split.
  - unfold hard_standard_gate. setoid_rewrite andb_false_iff. setoid_rewrite andb_false_iff.
    setoid_rewrite bool_decide_eq_false. split; intros H m Hm; destruct (H m Hm) as (p & Hp & Hn); exists p.
    + split; [done|]. tauto.
    + split; [done|]. destruct (decide (rm_introducedBy m = STANDARD)), (decide (cp_kind p = GATING)); tauto.
  - unfold applyExempt. destruct current as [key [|m ms]]; cbn [ic_members].
    { destruct (guard_or _ _); cbn; split; [done| |done|]; by intros []. }
    destruct (PayloadSchema _) as [[reason authority]|]; split.
    + intros H. res_inv. split_and!; [done|by eapply bool_decide_eq_true_1| |by eexists _, _].
      by apply negb_true_iff, bool_decide_eq_false in Hb0.
    + intros (_ & Hv & Ht & reason' & authority' & [= <- <-] & ->).
      by rewrite (bool_decide_eq_true_2 _ Hv), (bool_decide_eq_false_2 _ Ht).
    + intros H. res_inv.
    + intros (_ & _ & _ & reason' & authority' & ? & _). done.
Qed.

Lemma add_members_keep ms l m : m ∈ ms → m ∈ foldl add_member ms l.
Proof.
  revert ms. induction l as [|x l IH]; intros ms Hm; [done|]. cbn. apply IH. unfold add_member.
  case_match; [done|]. apply elem_of_app. by left.
Qed.

(** ** Grouping *)

Lemma group_get k g ops :
  map_get (foldl group_operation g ops) k =
    match List.filter (λ o, bool_decide (op_criterionKey o = k)) ops with
    | [] => map_get g k
    | l => Some (default [] (map_get g k) ++ l)
    end.
Proof.
  revert g. induction ops as [|o ops IH]; intros g; [done|]. cbn [foldl List.filter]. rewrite IH. unfold group_operation.
  case_bool_decide as Hk.
  - subst k. rewrite map_get_set_eq. cbn. destruct (List.filter _ ops); [done|]. by rewrite <- app_assoc.
  - by rewrite map_get_set_ne by done.
Qed.
Lemma group_NoDup g ops : NoDup g.*1 → NoDup (foldl group_operation g ops).*1.
Proof. revert g. induction ops as [|o ops IH]; intros g Hg; [done|]. by apply IH, NoDup_map_set. Qed.

(** A criterion carries all the operations of its key, in the order of the layers. *)
Lemma group_layers_elem `{Collator} layers c : c ∈ group_layers layers →
  fc_operations c ≠ [] ∧
  fc_operations c = List.filter (λ o, bool_decide (op_criterionKey o = fc_criterionKey c)) (concat (map layer_operations layers)).
Proof.
  unfold group_layers. rewrite elem_of_js_sort. intros ([k ops] & -> & He)%list_elem_of_fmap. cbn.
  apply map_get_Some in He; [|by apply group_NoDup, NoDup_nil_2]. rewrite group_get in He.
  destruct (List.filter _ _); [done|]. cbn in He. by injection He as <-.
Qed.

(** The STANDARD layer comes first. *)
Lemma standard_first (layers : list RubricLayer) l : NoDup (map rl_tier layers) → l ∈ layers → rl_tier l = STANDARD →
  ∃ rest, js_sort (cmp_on rl_tier (cmp_on tier_index Z.compare)) layers = l :: rest.
Proof.
  intros Hnd Hl Ht. set (cmp := cmp_on rl_tier (cmp_on tier_index Z.compare)).
  pose proof (js_sort_perm cmp layers) as Hp. pose proof (js_sort_sorted cmp layers) as Hs.
  rewrite <- Hp in Hnd, Hl. destruct (js_sort cmp layers) as [|x rest]; [by apply elem_of_nil in Hl|].
  exists rest. f_equal. apply elem_of_cons in Hl as [->|Hl]; [done|].
  inversion Hs as [|? ? _ Hx]; subst. rewrite Forall_forall in Hx. specialize (Hx l Hl).
  unfold cmp_le, cmp, cmp_on in Hx. rewrite Ht in Hx.
  cbn [map] in Hnd. apply NoDup_cons in Hnd as [Hnd _]. destruct Hnd.
  replace (rl_tier x) with (rl_tier l); [by apply list_elem_of_fmap_2|].
  rewrite Ht. by destruct (rl_tier x).
Qed.

Lemma applyReplace_elem folded resolved r : applyReplace folded = Ok resolved → r ∈ resolved →
  ∃ c, c ∈ folded ∧ resolve_criterion c = Ok r.
Proof.
  intros H%map_res_Ok Hr. induction H as [|c r' l l' Hc _ IH]; [by apply elem_of_nil in Hr|].
  apply elem_of_cons in Hr as [->|Hr]; [exists c; split; [by left|done]|].
  destruct (IH Hr) as (c' & ? & ?). exists c'. split; [by right|done].
Qed.

Lemma resolved_head c r o v : resolve_criterion c = Ok r → head (fc_operations c) = Some o →
  op_criterionVersionId o = Some v → (∀ o', o' ∈ fc_operations c → op_overrideVerb o' ≠ REPLACE) →
  member_of o v ∈ ic_members r.
Proof.
  unfold resolve_criterion. destruct (fc_operations c) as [|o' ops]; [done|]. intros H [= ->] Hv Hno.
  rewrite fold_res_cons in H. apply bind_Ok in H as (ms & (m0 & [Ho ->]%opening_step & Hl)%bind_Ok & H).
  apply replace_loop in Hl as [Hl ->]; [|by apply opening_nonempty]. res_inv. cbn [ic_members].
  rewrite later_members by done. rewrite (proj2 (existsb_false _ _)).
  - apply add_members_keep. cbn. unfold pinned_member. rewrite Hv. by left.
  - intros o' Ho'. apply bool_decide_eq_false. apply Hno. by right.
Qed.

Section hard_gates.
Context {C : Collator} {W : Zod}.

Lemma membership_schema_fields m m' : membership_schema m = Some m' →
  m' = mkMembership (trimmed_key m) (mb_criterionVersionId m) (mb_overrideVerb m) (mb_overridePayload m) (mb_evalOrder m).
Proof. unfold membership_schema, trimmed_key. case_match; [|done]. by intros [= <-]. Qed.

(** The operations of a parsed layer come from its memberships. *)
Lemma layer_operation l k o : LayerSchema l = Some k → o ∈ layer_operations k ↔
  ∃ m m', m ∈ rl_memberships l ∧ membership_schema m = Some m' ∧ o = mkOperation m' (rl_tier l) (rl_rubricVersionId l).
Proof.
  unfold LayerSchema. destruct (_ && _); [|done]. intros (ms & Hms & [= <-])%bind_Some.
  unfold layer_operations. cbn. rewrite list_elem_of_fmap. setoid_rewrite elem_of_js_sort. split.
  - intros (m' & -> & Hm'). destruct (mapM_elem _ _ _ _ Hms Hm') as (m & ? & ?). by exists m, m'.
  - intros (m & m' & Hm & Hs & ->). exists m'. split; [done|].
    destruct (mapM_has _ _ _ _ Hms Hm) as (m2 & Hm2 & Hs2). by simplify_eq.
Qed.

Lemma layer_has l k m : LayerSchema l = Some k → m ∈ rl_memberships l → ∃ m', membership_schema m = Some m'.
Proof.
  unfold LayerSchema. destruct (_ && _); [|done]. intros (ms & Hms & _)%bind_Some Hm.
  destruct (mapM_has _ _ _ _ Hms Hm) as (m' & _ & ?). by exists m'.
Qed.
Lemma parsed_tier l k : LayerSchema l = Some k → rl_tier k = rl_tier l.
Proof. unfold LayerSchema. destruct (_ && _); [|done]. by intros (ms & _ & [= <-])%bind_Some. Qed.

(** A hard gate of the STANDARD tier survives every exemption: when the
    STANDARD layer pins a criterion to a version known to be a FIRM_RULE gate and
    no layer replaces that criterion, then, whatever else the layers hold and in
    whatever order they come, no EXEMPT operation on it is granted. *)
Theorem hard_gate_not_exempted layers folded resolved r std m v p metadata op :
  foldRubricTiers layers = Ok folded → applyReplace folded = Ok resolved → r ∈ resolved →
  std ∈ layers → rl_tier std = STANDARD → m ∈ rl_memberships std → trimmed_key m = ic_criterionKey r →
  (∀ m', m' ∈ rl_memberships std → trimmed_key m' = trimmed_key m → m' = m) →
  (∀ l m', l ∈ layers → m' ∈ rl_memberships l → trimmed_key m' = trimmed_key m → mb_overrideVerb m' ≠ REPLACE) →
  mb_criterionVersionId m = Some v → protection_of metadata v = Some p → cp_kind p = GATING → cp_hardness p = FIRM_RULE →
  ∃ err, applyPermittedExempt r op metadata = Err err.
Proof.
  intros Hf Hr Hrin Hstd Ht Hm Hkey Huniq Hno Hv Hp Hk Hh.
  destruct (applyReplace_elem _ _ _ Hr Hrin) as (c & Hc & Hres).
  assert (fc_criterionKey c = trimmed_key m) as Hck.
  { rewrite Hkey. unfold resolve_criterion in Hres. by res_inv. }
  rewrite foldRubricTiers_parsed in Hf. unfold folded_of in Hf.
  destruct (mapM LayerSchema layers) as [ks|] eqn:Eks; [|done]. destruct (decide _) as [Hnd|]; [|done]. simplify_eq.
  destruct (mapM_has _ _ _ _ Eks Hstd) as (k & Hkin & Hks).
  assert (rl_tier k = STANDARD) as Hkt by by rewrite (parsed_tier _ _ Hks).
  destruct (standard_first ks k Hnd Hkin Hkt) as [rest Hsort].
  destruct (group_layers_elem _ _ Hc) as [_ Hops]. rewrite Hck in Hops.
  assert (∀ o, o ∈ layer_operations k → op_criterionKey o = trimmed_key m → op_criterionVersionId o = Some v ∧ op_tier o = STANDARD) as Hstd'.
  { intros o (m1 & m2 & Hm1 & Hm2 & ->)%(layer_operation _ _ _ Hks) Hko. cbn in Hko.
    apply membership_schema_fields in Hm2. subst m2. cbn in Hko. by rewrite (Huniq m1 Hm1 Hko). }
  destruct (layer_has _ _ _ Hks Hm) as (m' & Hm').
  assert (∃ o, head (fc_operations c) = Some o ∧ o ∈ layer_operations k ∧ op_criterionKey o = trimmed_key m) as (o & Ho & Hok & Hkey').
  { rewrite Hops, Hsort. cbn [map concat]. rewrite List.filter_app.
    destruct (List.filter _ (layer_operations k)) as [|o l] eqn:El.
    - exfalso. apply (@filter_empty_in _ _ _ (mkOperation m' (rl_tier std) (rl_rubricVersionId std)) El).
      + apply (layer_operation _ _ _ Hks). by exists m, m'.
      + apply bool_decide_eq_true. apply membership_schema_fields in Hm'. by rewrite Hm'.
    - exists o. split; [done|]. assert (o ∈ List.filter (λ o, bool_decide (op_criterionKey o = trimmed_key m)) (layer_operations k)) as Hin.
      { rewrite El. by left. }
      apply list_elem_of_In, filter_In in Hin as [Hin Hk2]. apply list_elem_of_In in Hin. by apply bool_decide_eq_true in Hk2. }
  destruct (Hstd' o Hok Hkey') as [Hov Hot].
  assert (member_of o v ∈ ic_members r) as Hmem.
  { eapply resolved_head; [done..|]. intros o' Ho'. rewrite Hops in Ho'.
    apply list_elem_of_In, filter_In in Ho' as [Hin Hk2%bool_decide_eq_true].
    apply in_concat in Hin as (x & (k' & <- & Hk')%in_map_iff & Hin).
    apply list_elem_of_In in Hk', Hin. rewrite elem_of_js_sort in Hk'.
    destruct (mapM_elem _ _ _ _ Eks Hk') as (l' & Hl' & Hls').
    apply (layer_operation _ _ _ Hls') in Hin as (m1 & m2 & Hm1 & Hm2%membership_schema_fields & ->). subst m2.
    cbn in Hk2 |- *. by eapply Hno. }
  unfold applyPermittedExempt. destruct (fold_res _ _ _) as [[]|err] eqn:E; [|by eexists].
  apply protection_fold with (m := member_of o v) in E as (p' & Hp' & Hg); [|done]. cbn in Hp'. simplify_eq.
  unfold hard_standard_gate in Hg. cbn in Hg. by rewrite !bool_decide_eq_true_2 in Hg.
Qed.
End hard_gates.

(** ** The cascade at work *)

#[local] Existing Instances code_unit_collator demo_zod.

Definition demo_member (key : string) (version : option string) (v : OverrideVerb) (order : Z) : membership :=
  mkMembership key version v None order.
Definition demo_layer (t : RubricTier) (n : Z) (ms : list membership) : RubricLayer :=
  mkLayer t (demo_id n) (demo_id (n + 10)) ms.
Definition demo_footing : membership := demo_member " STD.FOOTING" (Some (demo_id 31)) INHERIT 10.
Definition demo_standard : RubricLayer :=
  demo_layer STANDARD 1 [demo_footing; demo_member "STD.FUEL_PRESENT" (Some (demo_id 32)) INHERIT 5].
Definition demo_layers : list RubricLayer :=
  [demo_layer CLIENT 2 [demo_member "STD.FOOTING" (Some (demo_id 33)) ADD 1;
                        demo_member "STD.FUEL_PRESENT" (Some (demo_id 34)) REPLACE 5]; demo_standard].
Definition demo_metadata : list CriterionProtectionMetadata :=
  [mkProtection (demo_id 31) GATING FIRM_RULE; mkProtection (demo_id 33) SCORING AI_DOCS].
Definition demo_exempt : operation :=
  mkOperation (mkMembership "STD.FOOTING" None EXEMPT
    (Some (JObject [("reason", JString " paid by weight "); ("authority", JString "CFO")])) 1) CLIENT (demo_id 12).
Definition demo_folded : list FoldedCriterionOperations :=
  Eval vm_compute in match foldRubricTiers demo_layers with Ok l => l | Err _ => [] end.
Definition demo_resolved : list InheritAddCriterion :=
  Eval vm_compute in match applyReplace demo_folded with Ok l => l | Err _ => [] end.

Lemma elem_of_two {A} (x a b : A) : x ∈ [a; b] → x = a ∨ x = b.
Proof. rewrite !elem_of_cons, elem_of_nil. tauto. Qed.

Lemma foldRubricTiers_order_independent_witness :
  foldRubricTiers demo_layers =
  foldRubricTiers [demo_layer STANDARD 1 (rev (rl_memberships demo_standard)); demo_layer CLIENT 2 (rl_memberships (default demo_standard (head demo_layers)))].
Proof.
  apply (foldRubricTiers_order_independent demo_layers
    [demo_layer CLIENT 2 (rl_memberships (default demo_standard (head demo_layers))); demo_layer STANDARD 1 (rev (rl_memberships demo_standard))]).
  - constructor; [by split_and!|]. constructor; [|constructor]. split_and!; [done..|]. apply Permutation_rev.
  - apply Permutation_swap.
  - constructor; [|constructor; [|constructor]]; intros m m' [->| ->]%elem_of_two [->| ->]%elem_of_two;
      intros Hc; vm_compute in Hc; (reflexivity || discriminate).
Defined.

Lemma cascade_resolution_exact_witness :
  ∃ c r, applyReplace [c] = Ok [r] ∧ map rm_criterionVersionId (ic_members r) = [demo_id 34].
Proof.
  eexists (mkFolded "STD.FUEL_PRESENT" (fc_operations (default (mkFolded "" []) (demo_folded !! 1%nat)))), _. split.
  - apply cascade_resolution_exact. split; [vm_compute; reflexivity|reflexivity].
  - vm_compute. reflexivity.
Defined.

Lemma applyReplace_extends_inherit_add_witness :
  let folded := [mkFolded "STD.FOOTING" (fc_operations (default (mkFolded "" []) (demo_folded !! 0%nat)))] in
  length (fc_operations (default (mkFolded "" []) (head folded))) = 2%nat ∧ applyReplace folded = applyInheritAdd folded.
Proof.
  split; [vm_compute; reflexivity|]. apply applyReplace_extends_inherit_add.
  intros c o ->%list_elem_of_singleton [->| ->]%elem_of_two; vm_compute; discriminate.
Defined.

Definition demo_fuel : InheritAddCriterion := default (mkResolvedCriterion "" []) (demo_resolved !! 1%nat).
Definition demo_fuel_exempted : ExemptedCriterion :=
  mkExempted "STD.FOOTING" (ic_members demo_fuel) "paid by weight" "CFO" (CLIENT, demo_id 12).

Lemma permitted_exempt_exact_witness :
  applyPermittedExempt demo_fuel demo_exempt [mkProtection (demo_id 34) GATING FIRM_RULE] = Ok demo_fuel_exempted.
Proof.
  apply permitted_exempt_exact. split_and!; [|vm_compute; discriminate|reflexivity|vm_compute; discriminate|].
  - intros m ->%(proj1 (list_elem_of_singleton _ _)). eexists. split; [vm_compute; reflexivity|].
    by intros [? _].
  - exists "paid by weight", "CFO". split; [vm_compute; reflexivity|reflexivity].
Defined.

Lemma hard_gate_not_exempted_witness :
  ∃ r err, r ∈ demo_resolved ∧ applyPermittedExempt r demo_exempt demo_metadata = Err err.
Proof.
  exists (default (mkResolvedCriterion "" []) (demo_resolved !! 0%nat)).
  assert (default (mkResolvedCriterion "" []) (demo_resolved !! 0%nat) ∈ demo_resolved) as Hin by by left.
  destruct (hard_gate_not_exempted demo_layers demo_folded demo_resolved (default (mkResolvedCriterion "" []) (demo_resolved !! 0%nat)) demo_standard demo_footing (demo_id 31)
    (mkProtection (demo_id 31) GATING FIRM_RULE) demo_metadata demo_exempt) as [err Herr]; try exact Hin; try reflexivity.
  - right. by left.
  - by left.
  - intros m' [->| ->]%elem_of_two Hk; [reflexivity|discriminate].
  - intros l m' [->| ->]%elem_of_two [->| ->]%elem_of_two Hk; vm_compute in Hk |- *; discriminate.
  - exists err. split; [exact Hin|exact Herr].
Defined.

(** A client that replaces a hard STANDARD gate with the very version STANDARD
    pins is recorded as the tier that introduced it, and may then exempt it. *)
Lemma replaced_gate_exemptable :
  let pin v := demo_member "STD.FOOTING" (Some (demo_id 31)) v 10 in
  match foldRubricTiers [demo_layer STANDARD 1 [pin INHERIT]; demo_layer CLIENT 2 [pin REPLACE]] with
  | Ok folded =>
      match applyReplace folded with
      | Ok [r] => map rm_criterionVersionId (ic_members r) = [demo_id 31] ∧
                  is_ok (applyPermittedExempt r demo_exempt demo_metadata) = true
      | _ => False
      end
  | Err _ => False
  end.
Proof. vm_compute. by split. Qed.
