(* ===== verification/Resolver.v ===== *)
(** The database side of the rubric resolver ([src/src/modules/rubric-resolver/]):
    the bitemporal selectors ([select-rubric-version.ts],
    [select-applicable-rubrics.ts], [resolve-active-rule-version.ts]), the record
    of refused tightenings ([persist-tighten-conflict.ts]) and the content-addressed
    rubric snapshots ([canonicalize-resolved-rubric.ts],
    [store-rubric-snapshot.ts]).  Dates are days, instants microseconds, both
    since the epoch; zod's date formats are a parameter. *)

From S2P Require Import Prelude JsText Decimal Json Store AuditLedger Interpreter AstJson Tighten Lifecycle Jsonb Manifest JsDate Database Tx Persist Cascade.

(** [ORDER BY ... DESC LIMIT 1] *)
Definition latest {R} (ascending : R → R → comparison) (rows : list R) : option R :=
  head (js_sort (cmp_flip ascending) rows).
(** [SELECT DISTINCT ON (key)]: the first row of each key, in the order given. *)
Fixpoint distinct_on {R} (key : R → string) (rows : list R) : list R :=
  match rows with
  | [] => []
  | r :: rows' => r :: List.filter (λ x, negb (bool_decide (key x = key r))) (distinct_on key rows')
  end.

(** ** Bitemporal versions *)

Record period := mkPeriod { valid_from : Z; valid_to : option Z; recorded_at : Z }.
Definition effective (d : Z) (p : period) : bool :=
  (valid_from p <=? d) && match valid_to p with None => true | Some t => d <? t end.
Definition known (cutoff : Z) (p : period) : bool := recorded_at p <=? cutoff.
(** [valid_from, recorded_at, id] *)
Definition period_order {R} (at_ : R → period) (id : R → string) : R → R → comparison :=
  cmp_then (cmp_on (λ r, valid_from (at_ r)) Z.compare)
    (cmp_then (cmp_on (λ r, recorded_at (at_ r)) Z.compare) (cmp_on id code_unit_compare)).

Record rubric_version := mkRubricVersion { rbv_id : string; rbv_rubric : string; rbv_period : period }.
Record rubric := mkRubricRow {
  rb_id : string; rb_tier : RubricTier; rb_scope_account : option string; rb_scope_contract : option string;
  rb_mode_filter : option (list string);
}.
(** The columns of [rule_version] the resolver reads. *)
Record rule_version_entry := mkRuleVersionEntry {
  rve_id : string; rve_rule : string; rve_hardness : Hardness; rve_ast_hash : string;
  rve_lifecycle : RuleLifecycle; rve_period : period;
}.

(** [toISOString] of the [Date] the driver makes of a timestamp, to the millisecond. *)
Definition driver_instant (t : Z) : string := toISOString (t / 1000).

Section selectors.
Context {W : Zod} {T : IsoTime}.

Record version_request := mkVersionRequest { vr_rubricId : string; vr_effectiveOn : string; vr_recordedAsOf : string }.
Record SelectedRubricVersion := mkSelected {
  srv_id : string; srv_rubricId : string; srv_validFrom : Z; srv_validTo : option Z; srv_recordedAt : string;
}.
Inductive RubricVersionSelection : Set := VersionFound (v : SelectedRubricVersion) | NO_VERSION_KNOWN.
Inductive selector_error : Set := RUBRIC_VERSION_SELECTION_INVALID | ACTIVE_RULE_REQUEST_INVALID | RUBRIC_APPLICABILITY_INVALID.

(** The day and the cutoff of a request. *)
Definition request_times (ids : list string) (effectiveOn recordedAsOf : string) : option (Z * Z) :=
  if forallb zod_uuid ids then
    d ← iso_date effectiveOn;
    cutoff ← iso_datetime recordedAsOf;
    Some (d, cutoff)
  else None.

Definition version_order : rubric_version → rubric_version → comparison := period_order rbv_period rbv_id.
Definition version_applies (rubricId : string) (d cutoff : Z) (v : rubric_version) : bool :=
  uuid_is (rbv_rubric v) rubricId && effective d (rbv_period v) && known cutoff (rbv_period v).
Definition selectRubricVersion (versions : list rubric_version) (r : version_request) :
    result selector_error RubricVersionSelection :=
  match request_times [vr_rubricId r] (vr_effectiveOn r) (vr_recordedAsOf r) with
  | None => Err RUBRIC_VERSION_SELECTION_INVALID
  | Some (d, cutoff) =>
      match latest version_order (List.filter (version_applies (vr_rubricId r) d cutoff) versions) with
      | None => Ok NO_VERSION_KNOWN
      | Some v => Ok (VersionFound (mkSelected (rbv_id v) (rbv_rubric v) (valid_from (rbv_period v))
                        (valid_to (rbv_period v)) (driver_instant (recorded_at (rbv_period v)))))
      end
  end.

(** [CASE hardness ... END] *)
Definition hardness_rank (h : Hardness) : Z :=
  match h with FIRM_RULE => 4 | AI_DOCS => 3 | AI_CANON => 2 | HUMAN_INPUT => 1 end.
Record rule_request := mkRuleRequest { rr_ruleId : string; rr_effectiveOn : string; rr_recordedAsOf : string }.
Inductive ActiveRuleResolution : Set :=
  | RuleFound (ruleVersionId : string) (hardness : Hardness) (astHash : string) | NO_ACTIVE_VERSION.

Definition rule_order : rule_version_entry → rule_version_entry → comparison :=
  cmp_then (cmp_on (λ v, hardness_rank (rve_hardness v)) Z.compare) (period_order rve_period rve_id).
Definition rule_applies (ruleId : string) (d cutoff : Z) (v : rule_version_entry) : bool :=
  uuid_is (rve_rule v) ruleId && bool_decide (rve_lifecycle v = ACTIVE) &&
  effective d (rve_period v) && known cutoff (rve_period v).
Definition resolveActiveRuleVersion (versions : list rule_version_entry) (r : rule_request) :
    result selector_error ActiveRuleResolution :=
  match request_times [rr_ruleId r] (rr_effectiveOn r) (rr_recordedAsOf r) with
  | None => Err ACTIVE_RULE_REQUEST_INVALID
  | Some (d, cutoff) =>
      match latest rule_order (List.filter (rule_applies (rr_ruleId r) d cutoff) versions) with
      | None => Ok NO_ACTIVE_VERSION
      | Some v => Ok (RuleFound (rve_id v) (rve_hardness v) (rve_ast_hash v))
      end
  end.

Definition MODES : list string := ["OCEAN"; "AIR"; "MULTIMODAL"; "ROAD"; "RAIL"].
Record applicability_request := mkApplicability {
  ap_clientId : string; ap_contractId : option string; ap_mode : string; ap_effectiveOn : string; ap_recordedAsOf : string;
}.
Record ApplicableRubricVersion := mkApplicable {
  av_rubricId : string; av_rubricVersionId : string; av_tier : RubricTier;
  av_validFrom : Z; av_validTo : option Z; av_recordedAt : string;
}.

Definition rubric_in_scope (r : applicability_request) (b : rubric) : bool :=
  from_option (λ a, uuid_is a (ap_clientId r)) true (rb_scope_account b) &&
  match rb_scope_contract b with
  | None => true
  | Some c => from_option (uuid_is c) false (ap_contractId r)
  end &&
  from_option (λ modes, bool_decide (ap_mode r ∈ modes)) true (rb_mode_filter b).
Definition joined_order : rubric * rubric_version → rubric * rubric_version → comparison :=
  cmp_then (cmp_on (λ p, rb_id p.1) code_unit_compare) (cmp_flip (cmp_on snd version_order)).
Definition joined (e : env) (rubrics : list rubric) (versions : list rubric_version) (r : applicability_request) (d cutoff : Z) :
    list (rubric * rubric_version) :=
  List.filter (λ p, bool_decide (rbv_rubric p.2 = rb_id p.1) && effective d (rbv_period p.2) && known cutoff (rbv_period p.2))
    (list_prod (List.filter (λ b, visible_shared e (rb_scope_account b) && rubric_in_scope r b) rubrics) versions).
Definition selectApplicableRubricVersions (e : env) (rubrics : list rubric) (versions : list rubric_version)
    (r : applicability_request) : result selector_error (list ApplicableRubricVersion) :=
  if negb (bool_decide (ap_mode r ∈ MODES)) then Err RUBRIC_APPLICABILITY_INVALID else
  match request_times (ap_clientId r :: option_list (ap_contractId r)) (ap_effectiveOn r) (ap_recordedAsOf r) with
  | None => Err RUBRIC_APPLICABILITY_INVALID
  | Some (d, cutoff) =>
      Ok (map (λ p, mkApplicable (rb_id p.1) (rbv_id p.2) (rb_tier p.1) (valid_from (rbv_period p.2))
                      (valid_to (rbv_period p.2)) (driver_instant (recorded_at (rbv_period p.2))))
            (distinct_on (λ p, rb_id p.1) (js_sort joined_order (joined e rubrics versions r d cutoff))))
  end.
End selectors.

(** ** Refused tightenings *)

(** The row-level policy on inserts: internal callers, or a tenant of the caller. *)
Definition insertable (e : env) (tenant : option string) : bool :=
  match scope e with None => true | Some _ => from_option (visible e) false tenant end.

Record resolution_conflict := mkConflict {
  rc_id : string; rc_tenant : option string; rc_criterion_key : string; rc_conflict_type : string; rc_detail : json;
}.
Record TightenConflictInput := mkTightenConflict {
  tc_tenantId : option string; tc_criterionKey : string; tc_baseRuleVersionId : string;
  tc_attemptedRuleVersionId : string; tc_reason : TightenReason;
}.
Inductive conflict_error : Set := TIGHTEN_CONFLICT_INVALID | ConflictRowSecurity.

Definition tighten_reason_text (r : TightenReason) : string :=
  match r with
  | UNSUPPORTED_SHAPE => "UNSUPPORTED_SHAPE" | OPERAND_CHANGED => "OPERAND_CHANGED"
  | BOUND_WEAKENED => "BOUND_WEAKENED" | CLAUSE_REMOVED => "CLAUSE_REMOVED"
  end.

Definition conflict_schema (i : TightenConflictInput) : option TightenConflictInput :=
  let key := trim (tc_criterionKey i) in
  if nullable isUuid (tc_tenantId i) && truthy key && (String.length key <=? 255)%nat &&
     isUuid (tc_baseRuleVersionId i) && isUuid (tc_attemptedRuleVersionId i)
  then Some (mkTightenConflict (tc_tenantId i) key (tc_baseRuleVersionId i) (tc_attemptedRuleVersionId i) (tc_reason i))
  else None.
Definition conflict_detail (i : TightenConflictInput) : json :=
  JObject [("baseRuleVersionId", JString (tc_baseRuleVersionId i));
           ("attemptedRuleVersionId", JString (tc_attemptedRuleVersionId i));
           ("proofVersion", JString "monotonic-tighten-v1"); ("reason", JString (tighten_reason_text (tc_reason i)))].
(** [IS NOT DISTINCT FROM] on [jsonb]. *)
Definition same_json (a b : json) : bool :=
  bool_decide (canonical code_unit_compare a = canonical code_unit_compare b).

(** The digest's first 16 bytes with the version and variant bits of a uuid. *)
Definition uuid_of_digest (bytes : list N) : string :=
  let bytes := alter (λ b, N.lor (N.land b 63) 128) 8%nat (alter (λ b, N.lor (N.land b 15) 128) 6%nat (take 16 bytes)) in
  let part from n := hex (take n (drop from bytes)) in
  part 0%nat 4%nat +:+ "-" +:+ part 4%nat 2%nat +:+ "-" +:+ part 6%nat 2%nat +:+ "-" +:+ part 8%nat 2%nat +:+ "-" +:+ part 10%nat 6%nat.

Section conflicts.
Context {H : Sha256}.

Definition deterministicConflictId (i : TightenConflictInput) : string :=
  uuid_of_digest (sha256 (print (JArray [json_opt (tc_tenantId i); JString (tc_criterionKey i);
    JString (tc_baseRuleVersionId i); JString (tc_attemptedRuleVersionId i); JString (tighten_reason_text (tc_reason i))]))).

Definition conflict_row (i : TightenConflictInput) : resolution_conflict :=
  mkConflict (pg_uuid (deterministicConflictId i)) (pg_uuid <$> tc_tenantId i) (tc_criterionKey i) "NON_MONOTONE_TIGHTEN"
    (jsonb (conflict_detail i)).
Definition same_conflict (e : env) (row x : resolution_conflict) : bool :=
  visible_shared e (rc_tenant x) && bool_decide (rc_id x = rc_id row) && bool_decide (rc_tenant x = rc_tenant row) &&
  bool_decide (rc_criterion_key x = rc_criterion_key row) && bool_decide (rc_conflict_type x = rc_conflict_type row) &&
  same_json (rc_detail x) (rc_detail row).

Definition persistTightenConflict (e : env) (untrustedInput : TightenConflictInput) (t : list resolution_conflict) :
    result conflict_error ((string * bool) * list resolution_conflict) :=
  match conflict_schema untrustedInput with
  | None => Err TIGHTEN_CONFLICT_INVALID
  | Some input =>
      let row := conflict_row input in
      _ ← guard_or (insertable e (rc_tenant row)) ConflictRowSecurity;
      match insertIdempotent rc_id (λ x, bool_decide (rc_id x = rc_id row)) (same_conflict e row) row t with
      | (Some r, t') => Ok (r, t')
      | (None, _) => Err TIGHTEN_CONFLICT_INVALID
      end
  end.
End conflicts.

(** ** Rubric snapshots *)

(** [Decimal.prototype.toFixed()] without an argument: normal notation, all digits. *)
Class DecimalNotation {D : DecimalJs} := d_toNormal : dec → string.
Class DecimalNotationLaws {D : DecimalJs} (N : DecimalNotation) : Prop :=
  d_toNormal_read d : ∃ d', new_Decimal (d_toNormal d) = Some d' ∧ d_toNormal d' = d_toNormal d.

Record rubric_snapshot := mkRubricSnapshot {
  sn_id : string; sn_tenant : option string; sn_content_hash : string; sn_resolved_doc : json; sn_resolver_version : string;
}.
Inductive snapshot_error : Set :=
  RESOLVED_RUBRIC_DOCUMENT_INVALID | RUBRIC_SNAPSHOT_HASH_CONFLICT | SnapshotRowSecurity.

Section snapshots.
Context {D : DecimalJs} {N : DecimalNotation} {C : Collator} {H : Sha256}.

Definition setLikeKeys : list string := ["criteria"; "members"; "ruleVersions"; "humanOverrides"; "conflicts"].
Definition text_order : json → json → comparison := cmp_on canonicalJson localeCompare.
Definition decimal_object (l : list (string * json)) : option string :=
  match l with [(k, JString s)] => if decide (k = "decimal") then Some s else None | _ => None end.

(** [None] is the thrown [ResolvedRubricDocumentError]. *)
Fixpoint normalize (parentKey : option string) (value : json) : option json :=
  match value with
  | JArray l =>
      items ← mapM (normalize None) l;
      Some (JArray (if from_option (λ k, bool_decide (k ∈ setLikeKeys)) false parentKey
                    then js_sort text_order items else items))
  | JObject l =>
      match decimal_object l with
      | Some s => d ← new_Decimal s; Some (JObject [("decimal", JString (d_toNormal d))])
      | None =>
          entries ← mapM (λ e, v ← normalize (Some e.1) e.2; Some (e.1, v)) l;
          Some (JObject (js_sort (cmp_on fst code_unit_compare) entries))
      end
  | _ => Some value
  end.

Definition is_object (j : json) : bool := match j with JObject _ => true | _ => false end.
Definition resolver_version (j : json) : option string :=
  s ← prop j "resolverVersion" ≫= as_string; if truthy (trim s) then Some (trim s) else None.
Definition DocumentSchema (j : json) : option json :=
  match j, prop j "schemaVersion", resolver_version j, prop j "criteria" with
  | JObject l, Some (JNumber (JsFinite one)), Some version, Some (JArray criteria) =>
      if bool_decide (one = "1") && forallb is_object criteria && jsonValue_ok j
      then Some (JObject (map (λ e, if decide (e.1 = "resolverVersion") then (e.1, JString version) else e) l))
      else None
  | _, _, _, _ => None
  end.

Record canonical_document := mkCanonical { cd_document : json; cd_json : string; cd_contentHash : string }.
Definition canonicalizeResolvedRubricDocument (untrusted : json) : option canonical_document :=
  parsed ← DocumentSchema untrusted;
  normal ← normalize None parsed;
  document ← DocumentSchema normal;
  Some (mkCanonical document (canonicalJson document) (hex (sha256 (canonicalJson document)))).

Definition same_snapshot (tenant : option string) (hash : string) (x : rubric_snapshot) : bool :=
  bool_decide (sn_tenant x = tenant) && bool_decide (sn_content_hash x = hash).
(** [newId] is the identifier the database would give the new row. *)
Definition storeRubricSnapshot (e : env) (newId : string) (tenantId : option string) (untrustedDocument : json)
    (t : list rubric_snapshot) : result snapshot_error ((string * string * bool) * list rubric_snapshot) :=
  match canonicalizeResolvedRubricDocument untrustedDocument with
  | None => Err RESOLVED_RUBRIC_DOCUMENT_INVALID
  | Some c =>
      let tenant := pg_uuid <$> tenantId in
      let version := default "" (resolver_version (cd_document c)) in
      _ ← guard_or (insertable e tenant) SnapshotRowSecurity;
      let row := mkRubricSnapshot newId tenant (cd_contentHash c) (jsonb (cd_document c)) version in
      let '(created, t') := insert_on_conflict (same_snapshot tenant (cd_contentHash c)) row t in
      if created : bool then Ok ((newId, cd_contentHash c, true), t') else
      match select_one (λ x, visible_shared e (sn_tenant x) && same_snapshot tenant (cd_contentHash c) x) t' with
      | None => Err RUBRIC_SNAPSHOT_HASH_CONFLICT
      | Some existing =>
          match canonicalizeResolvedRubricDocument (sn_resolved_doc existing) with
          | None => Err RESOLVED_RUBRIC_DOCUMENT_INVALID
          | Some stored =>
              if bool_decide (cd_json stored = cd_json c) && bool_decide (sn_resolver_version existing = version)
              then Ok ((sn_id existing, cd_contentHash c, false), t')
              else Err RUBRIC_SNAPSHOT_HASH_CONFLICT
          end
      end
  end.
End snapshots.
