(* ===== verification/ResolverSafety.v ===== *)
(** What the rubric resolver's database side guarantees: selections as of a past
    cutoff never change, a selection is the latest applicable version, refused
    tightenings and snapshots are recorded once, and a canonical document survives
    storage. *)

From S2P Require Import Prelude JsText Decimal Json Store AuditLedger Interpreter AstJson Tighten Lifecycle Jsonb Manifest JsDate Database Tx Persist Cascade Resolver.

(** ** Latest rows *)

#[export] Instance period_order_preorder {R} (at_ : R → period) (id : R → string) : TotalPreorder (period_order at_ id).
Proof. unfold period_order. apply _. Qed.
#[export] Instance version_order_preorder : TotalPreorder version_order.
Proof. unfold version_order. apply _. Qed.
#[export] Instance rule_order_preorder : TotalPreorder rule_order.
Proof. unfold rule_order. apply _. Qed.
#[export] Instance joined_order_preorder : TotalPreorder joined_order.
Proof. unfold joined_order. apply _. Qed.

Lemma latest_None {R} (c : R → R → comparison) l : latest c l = None ↔ l = [].
Proof.
  unfold latest. pose proof (js_sort_perm (cmp_flip c) l) as Hp. split.
  - destruct (js_sort _ l); [|done]. intros _. by apply Permutation_nil.
  - by intros ->.
Qed.
Lemma latest_Some {R} (c : R → R → comparison) `{!TotalPreorder c} l r : latest c l = Some r →
  r ∈ l ∧ ∀ x, x ∈ l → c x r ≠ Gt.
Proof.
  unfold latest. pose proof (js_sort_perm (cmp_flip c) l) as Hp. pose proof (js_sort_sorted (cmp_flip c) l) as Hs.
  destruct (js_sort _ l) as [|y k]; [done|]. intros [= <-]. inversion Hs as [|? ? _ Hy]; subst. split.
  - rewrite <- Hp. by left.
  - intros x Hx. rewrite <- Hp in Hx. apply elem_of_cons in Hx as [->|Hx].
    + intros Hg. pose proof (cmp_anti y y). rewrite Hg in *. done.
    + rewrite Forall_forall in Hy. by apply (Hy x).
Qed.

(** Of rows that tie only when equal, the latest is the one no row exceeds. *)
Lemma latest_exact {R} (c : R → R → comparison) `{!TotalPreorder c} l r :
  (∀ x y, x ∈ l → y ∈ l → c x y = Eq → x = y) →
  latest c l = Some r ↔ r ∈ l ∧ ∀ x, x ∈ l → c x r ≠ Gt.
Proof.
  intros Ht. split; [by apply latest_Some|]. intros [Hr Hmax].
  destruct (latest c l) as [y|] eqn:E; [|apply latest_None in E as ->; by apply elem_of_nil in Hr].
  apply (latest_Some c) in E as [Hy Hmy]. f_equal. apply Ht; [done..|].
  specialize (Hmax y Hy). specialize (Hmy r Hr). rewrite cmp_anti in Hmy. by destruct (c y r).
Qed.

Lemma period_order_tie {R} (at_ : R → period) id x y : period_order at_ id x y = Eq → id x = id y.
Proof.
  unfold period_order, cmp_then, cmp_on. do 2 (destruct (_ ?= _); try done). apply code_unit_compare_eq.
Qed.

(** ** Selections *)

Lemma known_later cutoff p : cutoff < recorded_at p → known cutoff p = false.
Proof. intros H. by apply Z.leb_gt. Qed.

Section selection.
Context {W : Zod} {T : IsoTime}.

(** What was known at a cutoff never changes: rows recorded after the cutoff of
    a request, whatever they say, alter none of the three selections. *)
Theorem selections_as_of_stable e rubrics versions versions' rules rules' vr rr ap d1 c1 d2 c2 d3 c3 :
  request_times [vr_rubricId vr] (vr_effectiveOn vr) (vr_recordedAsOf vr) = Some (d1, c1) →
  request_times [rr_ruleId rr] (rr_effectiveOn rr) (rr_recordedAsOf rr) = Some (d2, c2) →
  request_times (ap_clientId ap :: option_list (ap_contractId ap)) (ap_effectiveOn ap) (ap_recordedAsOf ap) = Some (d3, c3) →
  (∀ v, v ∈ versions' → c1 < recorded_at (rbv_period v) ∧ c3 < recorded_at (rbv_period v)) →
  (∀ v, v ∈ rules' → c2 < recorded_at (rve_period v)) →
  selectRubricVersion (versions ++ versions') vr = selectRubricVersion versions vr ∧
  resolveActiveRuleVersion (rules ++ rules') rr = resolveActiveRuleVersion rules rr ∧
  selectApplicableRubricVersions e rubrics (versions ++ versions') ap = selectApplicableRubricVersions e rubrics versions ap.
Proof.
  intros H1 H2 H3 Hv Hr.
  unfold selectRubricVersion, resolveActiveRuleVersion, selectApplicableRubricVersions. rewrite H1, H2, H3.
  rewrite !filter_snoc_none.
  - split_and!; [done..|]. case_match; [done|]. do 4 f_equal. unfold joined. apply filter_prod_none.
    intros b v [_ Hc]%Hv. cbn. by rewrite (known_later _ _ Hc), andb_false_r.
  - intros v Hc%Hr. unfold rule_applies. by rewrite (known_later _ _ Hc), andb_false_r.
  - intros v [Hc _]%Hv. unfold version_applies. by rewrite (known_later _ _ Hc), andb_false_r.
Qed.

(** [DISTINCT ON] of rows sorted by their key. *)
Lemma elem_of_distinct_on {R} (key : R → string) l x : x ∈ distinct_on key l → x ∈ l.
Proof.
  induction l as [|r l IH]; [done|]. cbn. intros [->|Hx]%elem_of_cons; [by left|].
  apply list_elem_of_In, filter_In in Hx as [Hx%list_elem_of_In _]. right. auto.
Qed.
Lemma distinct_on_NoDup {R} (key : R → string) l : NoDup (map key (distinct_on key l)).
Proof.
  induction l as [|r l IH]; [constructor|]. cbn. apply NoDup_cons. split.
  - intros (x & Hk & Hx)%list_elem_of_fmap. apply list_elem_of_In, filter_In in Hx as [_ Hx].
    apply negb_true_iff, bool_decide_eq_false in Hx. congruence.
  - apply (sublist_NoDup _ _ IH). clear IH. induction (distinct_on key l) as [|y k IHk]; [constructor|].
    cbn. case_bool_decide; cbn; by constructor.
Qed.
Lemma distinct_on_covers {R} (key : R → string) l x : x ∈ l → ∃ y, y ∈ distinct_on key l ∧ key y = key x.
Proof.
  induction l as [|r l IH]; [intros H; by apply elem_of_nil in H|]. cbn. intros [->|Hx]%elem_of_cons; [exists r; split; [by left|done]|].
  destruct (IH Hx) as (y & Hy & Hk). destruct (decide (key y = key r)) as [Hr|Hr].
  - exists r. split; [by left|congruence].
  - exists y. split; [|done]. right. apply list_elem_of_In, filter_In. split; [by apply list_elem_of_In|].
    by apply negb_true_iff, bool_decide_eq_false.
Qed.
(** The first row of each key is the least of its key. *)
Lemma distinct_on_least {R} (key : R → string) (c : R → R → comparison) `{!TotalPreorder c} l x y :
  StronglySorted (cmp_le c) l → y ∈ distinct_on key l → x ∈ l → key x = key y → c y x ≠ Gt.
Proof.
  induction 1 as [|r l Hl IH Hr]; [intros H; by apply elem_of_nil in H|]. cbn. rewrite Forall_forall in Hr.
  intros [->|Hy]%elem_of_cons [->|Hx]%elem_of_cons Hk.
  - intros Hg. pose proof (cmp_anti r r) as Ha. by rewrite Hg in Ha.
  - by apply Hr.
  - exfalso. apply list_elem_of_In, filter_In in Hy as [_ Hy].
    apply negb_true_iff, bool_decide_eq_false in Hy. congruence.
  - apply list_elem_of_In, filter_In in Hy as [Hy%list_elem_of_In _]. by apply IH.
Qed.

(** A version in force for a rubric, on the day and at the cutoff. *)
Definition in_force_at (d cutoff : Z) (b : rubric) (v : rubric_version) : Prop :=
  rbv_rubric v = rb_id b ∧ effective d (rbv_period v) = true ∧ known cutoff (rbv_period v) = true.
Definition applicable_of (b : rubric) (v : rubric_version) : ApplicableRubricVersion :=
  mkApplicable (rb_id b) (rbv_id v) (rb_tier b) (valid_from (rbv_period v)) (valid_to (rbv_period v))
    (driver_instant (recorded_at (rbv_period v))).

Lemma elem_of_joined e rubrics versions r d cutoff b v :
  (b, v) ∈ joined e rubrics versions r d cutoff ↔
  b ∈ rubrics ∧ visible_shared e (rb_scope_account b) = true ∧ rubric_in_scope r b = true ∧ v ∈ versions ∧ in_force_at d cutoff b v.
Proof.
  unfold joined, in_force_at. rewrite list_elem_of_In, filter_In, in_prod_iff, filter_In. cbn.
  rewrite !andb_true_iff, bool_decide_eq_true, <- !list_elem_of_In. tauto.
Qed.

(** The applicable versions are exactly the latest effective and known version
    of every rubric in scope that has one, one per rubric. *)
Theorem applicable_versions_exact e rubrics versions r d cutoff out :
  NoDup (map rb_id rubrics) → NoDup (map rbv_id versions) →
  request_times (ap_clientId r :: option_list (ap_contractId r)) (ap_effectiveOn r) (ap_recordedAsOf r) = Some (d, cutoff) →
  selectApplicableRubricVersions e rubrics versions r = Ok out →
  NoDup (map av_rubricId out) ∧
  ∀ a, a ∈ out ↔ ∃ b v, a = applicable_of b v ∧
    b ∈ rubrics ∧ visible_shared e (rb_scope_account b) = true ∧ rubric_in_scope r b = true ∧
    v ∈ versions ∧ in_force_at d cutoff b v ∧
    ∀ v', v' ∈ versions → in_force_at d cutoff b v' → version_order v' v ≠ Gt.
Proof.
  intros Hb Hv Ht. unfold selectApplicableRubricVersions. rewrite Ht. case_match; [done|]. intros [= <-].
  set (rows := js_sort joined_order _).
  assert (∀ p, p ∈ rows ↔ p ∈ joined e rubrics versions r d cutoff) as Hrows by (intros; apply elem_of_js_sort).
  assert (StronglySorted (cmp_le joined_order) rows) as Hs by apply (js_sort_sorted _).
  split; [rewrite map_map; apply distinct_on_NoDup|]. intros a. rewrite list_elem_of_fmap. split.
  - intros ([b v] & -> & Hp). pose proof (elem_of_distinct_on _ _ _ Hp) as Hin. apply Hrows, elem_of_joined in Hin as (Hb1 & Hvis & Hsc & Hv1 & Hf).
    exists b, v. split_and!; [done..|]. intros v' Hv' Hf'.
    assert ((b, v') ∈ rows) as Hr' by by apply Hrows, elem_of_joined.
    pose proof (distinct_on_least (λ p, rb_id p.1) joined_order rows (b, v') (b, v) Hs Hp Hr' eq_refl) as Hl.
    unfold joined_order, cmp_then, cmp_flip, cmp_on in Hl. cbn in Hl.
    by rewrite cmp_refl in Hl.
  - intros (b & v & -> & Hb1 & Hvis & Hsc & Hv1 & Hf & Hmax).
    assert ((b, v) ∈ rows) as Hr by by apply Hrows, elem_of_joined.
    destruct (distinct_on_covers (λ p, rb_id p.1) rows _ Hr) as ([b' v'] & Hp & Hk). cbn in Hk.
    pose proof (elem_of_distinct_on _ _ _ Hp) as Hin. apply Hrows, elem_of_joined in Hin as (Hb1' & _ & _ & Hv1' & Hf').
    assert (b' = b) as -> by by apply (NoDup_map_inj rb_id rubrics).
    pose proof (distinct_on_least (λ p, rb_id p.1) joined_order rows (b, v) (b, v') Hs Hp Hr eq_refl) as Hl.
    unfold joined_order, cmp_then, cmp_flip, cmp_on in Hl. cbn in Hl.
    rewrite cmp_refl in Hl.
    specialize (Hmax v' Hv1' Hf'). rewrite cmp_anti in Hmax.
    assert (v' = v) as ->; [|by exists (b, v)].
    apply (NoDup_map_inj rbv_id versions); [done..|]. symmetry.
    apply (period_order_tie rbv_period rbv_id). change (version_order v v' = Eq). by destruct (version_order v v').
Qed.
End selection.

(** ** Refused tightenings *)

Section conflicts.
Context {H : Sha256}.

Lemma same_conflict_fields e row x : same_conflict e row x = true →
  rc_id x = rc_id row ∧ rc_tenant x = rc_tenant row ∧ rc_criterion_key x = rc_criterion_key row ∧
  rc_conflict_type x = rc_conflict_type row ∧
  canonical code_unit_compare (rc_detail x) = canonical code_unit_compare (rc_detail row).
Proof. unfold same_conflict, same_json. rewrite !andb_true_iff, !bool_decide_eq_true. tauto. Qed.

Lemma insertable_visible e tenant : insertable e tenant = true → visible_shared e tenant = true.
Proof.
  unfold insertable, visible_shared, visible. destruct (scope e) as [l|]; [|by destruct tenant].
  by destruct tenant.
Qed.

Lemma same_conflict_self e row : insertable e (rc_tenant row) = true → same_conflict e row row = true.
Proof.
  intros Hi. unfold same_conflict, same_json. rewrite (insertable_visible _ _ Hi). by rewrite !bool_decide_eq_true_2.
Qed.

(** A refused tightening is recorded once: a successful call leaves every
    earlier record in place, the record under the id it returns names the tenant,
    the criterion, both rule versions and the reason the prover gave, and repeating
    the call finds that record and changes nothing. *)
Theorem tighten_conflict_recorded_once e i t id created t' :
  NoDup (map rc_id t) → persistTightenConflict e i t = Ok ((id, created), t') →
  (∃ added, t' = t ++ added ∧ length added = if created then 1%nat else 0%nat) ∧ NoDup (map rc_id t') ∧
  (∃ x, x ∈ t' ∧ rc_id x = id ∧ rc_tenant x = pg_uuid <$> tc_tenantId i ∧
     rc_criterion_key x = trim (tc_criterionKey i) ∧
     canonical code_unit_compare (rc_detail x) = canonical code_unit_compare (conflict_detail i)) ∧
  persistTightenConflict e i t' = Ok ((id, false), t').
Proof.
  intros Hnd. unfold persistTightenConflict. destruct (conflict_schema i) as [v|] eqn:Ev; [|done].
  destruct (insertable e _) eqn:Ei; [|done]. cbn -[insertIdempotent conflict_row].
  assert (tc_tenantId v = tc_tenantId i ∧ tc_criterionKey v = trim (tc_criterionKey i) ∧ conflict_detail v = conflict_detail i) as (Ht & Hk & Hd).
  { unfold conflict_schema in Ev. case_match; [|done]. by injection Ev as <-. }
  pose proof (same_conflict_self _ _ Ei) as Hself. set (row := conflict_row v) in *.
  destruct (insertIdempotent _ _ _ _ _) as [[r|] t1] eqn:E; [|done]. intros [= -> ->].
  assert (∀ x, x ∈ t' → same_conflict e row x = true →
    insertIdempotent rc_id (λ x, bool_decide (rc_id x = rc_id row)) (same_conflict e row) row t' = (Some (rc_id row, false), t')) as Hagain.
  { intros x. apply insertIdempotent_found. intros y [-> _]%same_conflict_fields. split; [done|]. by apply bool_decide_eq_true. }
  assert (∀ x, same_conflict e row x = true → rc_id x = rc_id row ∧ rc_tenant x = pg_uuid <$> tc_tenantId i ∧
     rc_criterion_key x = trim (tc_criterionKey i) ∧
     canonical code_unit_compare (rc_detail x) = canonical code_unit_compare (conflict_detail i)) as Hfields.
  { intros x (? & Htx & Hkx & _ & Hdx)%same_conflict_fields. rewrite Htx, Hkx, Hdx. cbn [row rc_tenant rc_criterion_key rc_detail conflict_row].
    rewrite Ht, Hk, Hd. split_and!; [done..|]. by apply canonical_jsonb; vm_compute. }
  apply insertIdempotent_spec in E as [([= -> ->] & -> & Hn)|((-> & _) & [(? & _)|(x & Hx & Hs & [= -> ->])])]; [| done|].
  - split_and!; [by exists [row]| | |].
    + rewrite map_app. apply NoDup_app. split_and!; [done| |apply NoDup_singleton].
      intros k (x & -> & Hx)%list_elem_of_fmap Hkk. apply list_elem_of_singleton in Hkk.
      specialize (Hn x Hx). by apply bool_decide_eq_false in Hn.
    + exists row. split; [set_solver|]. by apply Hfields.
    + by rewrite (Hagain row) by set_solver.
  - assert (rc_id x = rc_id row) as Hid by by apply same_conflict_fields in Hs as [? _]. rewrite Hid.
    split_and!; [exists []; by rewrite app_nil_r|done| |by rewrite (Hagain x)].
    exists x. split; [done|]. by apply Hfields.
Qed.
End conflicts.

(** ** Snapshots *)

Lemma map_id_on {A} (f : A → A) l : (∀ x, x ∈ l → f x = x) → map f l = l.
Proof. induction l as [|x l IH]; intros Hf; [done|]. cbn. by rewrite Hf, IH by set_solver. Qed.

Section canonical.
Context {D : DecimalJs} {N : DecimalNotation} {NL : DecimalNotationLaws N} {C : Collator} {CL : CollatorLaws C} {H : Sha256}.

Definition scalar (j : json) : bool := match j with JArray _ | JObject _ => false | _ => true end.
Lemma normalize_scalar p j n : normalize p j = Some n → scalar n = scalar j.
Proof.
  destruct j as [| | | |l|l]; cbn [normalize]; try by intros [= <-].
  - by intros (? & _ & [= <-])%bind_Some.
  - case_match; by intros (? & _ & [= <-])%bind_Some.
Qed.
Lemma normalize_scalar_id p j : scalar j = true → normalize p j = Some j.
Proof. by destruct j. Qed.
Lemma sorted_scalar cmp j : scalar (sorted_keys cmp j) = scalar j.
Proof. by destruct j. Qed.

Lemma decimal_object_Some l s : decimal_object l = Some s → l = [("decimal", JString s)].
Proof. unfold decimal_object. repeat case_match; try done. by intros [= <-]; subst. Qed.

(** Entries that are not a decimal stay so when their values are normalized and
    their order changes. *)
Lemma decimal_object_none l l' : decimal_object l = None → l'.*1 ≡ₚ l.*1 →
  (∀ k s, (k, JString s) ∈ l' → (k, JString s) ∈ l) → decimal_object l' = None.
Proof.
  intros Hn Hp Hs. destruct (decimal_object l') as [s|] eqn:E; [|done]. exfalso.
  apply decimal_object_Some in E as ->. cbn in Hp. apply Permutation_singleton_l in Hp.
  assert (("decimal", JString s) ∈ l) as Hin by (apply Hs; by left).
  destruct l as [|[k v] [|e l]]; [done| |done]. apply list_elem_of_singleton in Hin as [= <- <-].
  cbn in Hn. by rewrite decide_True in Hn.
Qed.

Lemma normalize_string p j s : normalize p j = Some (JString s) → j = JString s.
Proof.
  intros Hn. pose proof (normalize_scalar _ _ _ Hn) as Hs. cbn in Hs. rewrite normalize_scalar_id in Hn by done. by simplify_eq.
Qed.
Lemma sorted_string cmp j s : sorted_keys cmp j = JString s → j = JString s.
Proof. by destruct j. Qed.

Lemma normalize_entry (e y : string * json) :
  (v ← normalize (Some e.1) e.2; Some (e.1, v)) = Some y ↔ y.1 = e.1 ∧ normalize (Some e.1) e.2 = Some y.2.
Proof.
  rewrite bind_Some. destruct y as [k v]. cbn. split.
  - by intros (? & ? & [= <- <-]).
  - intros [-> ?]. by exists v.
Qed.
Lemma normalize_entries_fst l l' : mapM (λ e : string * json, v ← normalize (Some e.1) e.2; Some (e.1, v)) l = Some l' → l'.*1 = l.*1.
Proof.
  intros Hl%mapM_Some. induction Hl as [|e y l l' [He _]%normalize_entry _ IH]; [done|]. rewrite !fmap_cons. congruence.
Qed.

Lemma normalize_distinct v p n : distinct_keys v = true → normalize p v = Some n → distinct_keys n = true.
Proof.
  revert p n. induction v as [| |num| |l IH|l IH] using json_ind'; intros p n Hd; cbn [normalize];
    try (by intros [= <-]).
  - intros (items & Hi & [= <-])%bind_Some.
    assert (forallb distinct_keys items = true) as Hall.
    { apply forallb_forall. intros y Hy%list_elem_of_In. destruct (mapM_elem _ _ _ _ Hi Hy) as (x & Hx & Hn).
      rewrite Forall_forall in IH. apply (IH x Hx None); [|done]. cbn in Hd. rewrite forallb_forall in Hd. apply Hd.
      by apply list_elem_of_In. }
    cbn. destruct (from_option _ _ _); [|done]. rewrite forallb_forall in Hall |- *.
    intros y Hy%list_elem_of_In. rewrite elem_of_js_sort in Hy. apply Hall. by apply list_elem_of_In.
  - cbn in Hd. apply andb_true_iff in Hd as [Hnd Hall]. case_match.
    { by intros (d & _ & [= <-])%bind_Some. }
    intros (entries & He & [= <-])%bind_Some. cbn. apply andb_true_iff. rewrite bool_decide_eq_true in Hnd |- *. split.
    + rewrite js_sort_perm. by rewrite (normalize_entries_fst _ _ He).
    + apply forallb_forall. intros y Hy%list_elem_of_In. rewrite elem_of_js_sort in Hy.
      destruct (mapM_elem _ _ _ _ He Hy) as (x & Hx & [_ Hn]%normalize_entry).
      rewrite Forall_forall in IH. apply (IH x Hx (Some x.1)); [|done]. rewrite forallb_forall in Hall. apply (Hall x).
      by apply list_elem_of_In.
Qed.

(** Normal documents are fixed points, whatever order storage gives their keys. *)
Lemma normalize_sorted cmp v p n : distinct_keys v = true → normalize p v = Some n →
  normalize p (sorted_keys cmp n) = Some n.
Proof using NL CL.
  revert p n. induction v as [| |num| |l IH|l IH] using json_ind'; intros p n Hd Hn; pose proof (normalize_distinct _ _ _ Hd Hn) as Hdn;
    cbn [normalize] in Hn; try (by injection Hn as <-).
  - apply bind_Some in Hn as (items & Hi & [= <-]). cbn [sorted_keys normalize].
    set (items' := if from_option (λ k, bool_decide (k ∈ setLikeKeys)) false p then js_sort text_order items else items) in *.
    rewrite (mapM_fixed (normalize None) (sorted_keys cmp) items').
    + cbn. f_equal. f_equal. unfold items'. destruct (from_option _ _ _); [|done].
      apply js_sort_id, js_sort_sorted. unfold text_order. apply _.
    + intros y Hy. assert (y ∈ items) as Hy'.
      { unfold items' in Hy. destruct (from_option _ _ _); [by rewrite elem_of_js_sort in Hy|done]. }
      destruct (mapM_elem _ _ _ _ Hi Hy') as (x & Hx & Hxy). rewrite Forall_forall in IH.
      apply (IH x Hx None y); [|done]. cbn in Hd. rewrite forallb_forall in Hd. apply Hd. by apply list_elem_of_In.
  - destruct (decimal_object l) as [s|] eqn:Edec.
    { apply bind_Some in Hn as (d & _ & [= <-]). destruct (d_toNormal_read d) as (d' & Hrd & Hd').
      change (normalize p (JObject [("decimal", JString (d_toNormal d))]) = Some (JObject [("decimal", JString (d_toNormal d))])).
      cbn [normalize decimal_object]. rewrite decide_True, Hrd by done. cbn. by rewrite Hd'. }
    apply bind_Some in Hn as (entries & He & [= <-]).
    set (entries' := js_sort (cmp_on fst code_unit_compare) entries) in *.
    assert (entries' ≡ₚ entries) as Hp by apply js_sort_perm.
    assert (∀ y : string * json, y ∈ entries' → ∃ x, x ∈ l ∧ y.1 = x.1 ∧ normalize (Some x.1) x.2 = Some y.2) as Hfrom.
    { intros y Hy. rewrite Hp in Hy. destruct (mapM_elem _ _ _ _ He Hy) as (x & Hx & Hxy%normalize_entry). by exists x. }
    cbn [sorted_keys normalize]. set (g := λ e : string * json, (e.1, sorted_keys cmp e.2)).
    set (stored := js_sort (cmp_on fst cmp) _).
    assert (stored ≡ₚ map g entries') as Hps by apply js_sort_perm.
    assert ((map g entries').*1 = entries'.*1) as Hg by apply sorted_keys_fst.
    rewrite (decimal_object_none l stored); [|done|..].
    + assert (mapM (λ e : string * json, v ← normalize (Some e.1) e.2; Some (e.1, v)) (map g entries') = Some entries') as Hfix.
      { apply mapM_fixed. intros y Hy. apply normalize_entry. split; [done|]. cbn.
        destruct (Hfrom y Hy) as (x & Hx & Hk & Hn). rewrite Hk. rewrite Forall_forall in IH. apply (IH x Hx); [|done].
        cbn in Hd. apply andb_true_iff in Hd as [_ Hd]. rewrite forallb_forall in Hd. apply (Hd x). by apply list_elem_of_In. }
      pose proof (mapM_perm (λ e : string * json, v ← normalize (Some e.1) e.2; Some (e.1, v)) _ _ Hps) as Hm.
      rewrite Hfix in Hm. destruct (mapM _ stored) as [k|]; [|done]. cbn. do 2 f_equal.
      transitivity (js_sort (cmp_on fst code_unit_compare) entries'); [|apply js_sort_id, (js_sort_sorted _)].
      apply (js_sort_unique _); [done|]. intros x y Hx Hy Ht%code_unit_compare_eq.
      rewrite Hm in Hx, Hy. cbn in Hdn. apply andb_true_iff in Hdn as [Hnd%bool_decide_eq_true _].
      by apply (NoDup_map_inj fst entries').
    + rewrite Hps, Hg, Hp. by rewrite (normalize_entries_fst _ _ He).
    + intros k s Hks. rewrite Hps in Hks. apply list_elem_of_fmap in Hks as ([k' v'] & [= -> Hs] & Hin).
      apply eq_sym, sorted_string in Hs. cbn in Hs. subst v'.
      destruct (Hfrom _ Hin) as ([k2 v2] & Hx & Hk & Hn%normalize_string). cbn in Hk, Hn. by subst.
Qed.

Lemma jsonValue_sorted cmp j : jsonValue_ok (sorted_keys cmp j) = jsonValue_ok j.
Proof using Type.
  induction j as [| |num| |l IH|l IH] using json_ind'; cbn; try done.
  - induction IH as [|x l Hx _ IH]; cbn; [done|]. by rewrite Hx, IH.
  - apply eq_true_iff_eq. rewrite !forallb_forall. setoid_rewrite <- list_elem_of_In.
    setoid_rewrite elem_of_js_sort. rewrite Forall_forall in IH. split.
    + intros Hj e He. rewrite <- IH by done. apply (Hj (e.1, sorted_keys cmp e.2)).
      by apply (list_elem_of_fmap_2 (λ e : string * json, (e.1, sorted_keys cmp e.2))).
    + intros Hj e (e' & -> & He')%list_elem_of_fmap. cbn. by rewrite IH; auto.
Qed.

(** ** The document schema *)

Lemma DocumentSchema_inv j p : DocumentSchema j = Some p → ∃ l version criteria,
  j = JObject l ∧ map_get l "schemaVersion" = Some (JNumber (JsFinite "1")) ∧ resolver_version j = Some version ∧
  map_get l "criteria" = Some (JArray criteria) ∧ forallb is_object criteria = true ∧ jsonValue_ok j = true ∧
  p = JObject (map (λ e, if decide (e.1 = "resolverVersion") then (e.1, JString version) else e) l).
Proof using Type.
  unfold DocumentSchema. destruct j as [| | | | |l]; try done. cbn [prop].
  destruct (map_get l "schemaVersion") as [[| |[t| |]| | |]|] eqn:Es; try done.
  destruct (resolver_version _) as [version|] eqn:Ev; [|done]. destruct (map_get l "criteria") as [[| | | |criteria|]|] eqn:Ec; try done.
  destruct (_ && _) eqn:E; [|done]. rewrite !andb_true_iff, bool_decide_eq_true in E. destruct E as [[-> ?] ?].
  intros [= <-]. by eexists l, version, criteria.
Qed.

Lemma DocumentSchema_fixed l s criteria : NoDup l.*1 →
  map_get l "schemaVersion" = Some (JNumber (JsFinite "1")) →
  map_get l "resolverVersion" = Some (JString s) → trim s = s → s ≠ "" →
  map_get l "criteria" = Some (JArray criteria) → forallb is_object criteria = true → jsonValue_ok (JObject l) = true →
  DocumentSchema (JObject l) = Some (JObject l).
Proof using Type.
  intros Hnd Hs Hv Ht Hne Hc Ho Hj. unfold DocumentSchema, resolver_version, required. cbn [prop]. rewrite Hs, Hv, Hc. cbn [mbind option_bind as_string].
  rewrite Ht. unfold truthy. rewrite bool_decide_eq_false_2 by done. cbn [negb]. rewrite Ho, Hj, bool_decide_eq_true_2 by done. cbn [andb]. do 2 f_equal.
  apply map_id_on. intros [k v] Hin. cbn. destruct (decide (k = "resolverVersion")) as [->|]; [|done].
  apply map_get_Some in Hin; [|done]. congruence.
Qed.

Lemma map_get_entry (f : string * json → string * json) l k v :
  (∀ e, (f e).1 = e.1) → map_get l k = Some v → NoDup l.*1 → map_get (map f l) k = Some (f (k, v)).2.
Proof using Type.
  intros Hf Hv Hnd. apply map_get_Some.
  - replace (map f l).*1 with l.*1; [done|]. clear -Hf. induction l as [|e l IH]; [done|]. cbn. rewrite Hf. by f_equal.
  - apply map_get_elem in Hv. replace (k, (f (k, v)).2) with (f (k, v)); [by apply list_elem_of_fmap_2|].
    rewrite (surjective_pairing (f (k, v))). by rewrite Hf.
Qed.

(** A property of a normalized object is the normalized property. *)
Lemma normalize_prop l n k v : NoDup l.*1 → decimal_object l = None → normalize None (JObject l) = Some n →
  map_get l k = Some v → ∃ l' v', n = JObject l' ∧ NoDup l'.*1 ∧ map_get l' k = Some v' ∧ normalize (Some k) v = Some v'.
Proof using Type.
  intros Hnd Hdec Hn Hv. cbn [normalize] in Hn. rewrite Hdec in Hn. apply bind_Some in Hn as (entries & He & [= <-]).
  assert (NoDup (js_sort (cmp_on fst code_unit_compare) entries).*1) as Hnd'.
  { rewrite js_sort_perm. by rewrite (normalize_entries_fst _ _ He). }
  destruct (mapM_has _ _ _ (k, v) He) as ([k' v'] & Hin & [Hk Hvv]%normalize_entry); [by apply map_get_elem|].
  cbn in Hk, Hvv. subst k'. eexists _, v'. split_and!; [done..| |done].
  apply map_get_Some; [done|]. by rewrite js_sort_perm.
Qed.

(** What canonicalization returns is a normal, trimmed document. *)
Lemma canonicalize_inv j c : distinct_keys j = true → canonicalizeResolvedRubricDocument j = Some c →
  ∃ p l s criteria, distinct_keys p = true ∧ normalize None p = Some (JObject l) ∧ cd_document c = JObject l ∧
    distinct_keys (JObject l) = true ∧
    map_get l "schemaVersion" = Some (JNumber (JsFinite "1")) ∧ map_get l "resolverVersion" = Some (JString s) ∧
    trim s = s ∧ s ≠ "" ∧ map_get l "criteria" = Some (JArray criteria) ∧ forallb is_object criteria = true ∧
    jsonValue_ok (JObject l) = true ∧
    cd_json c = canonicalJson (JObject l) ∧ cd_contentHash c = hex (sha256 (canonicalJson (JObject l))).
Proof using Type.
  intros Hd Hc. unfold canonicalizeResolvedRubricDocument in Hc.
  apply bind_Some in Hc as (p & Hp & (n & Hn & (d & Hd' & [= <-])%bind_Some)%bind_Some).
  apply DocumentSchema_inv in Hp as (l0 & version & cs & -> & Hs0 & Hv0 & Hc0 & _ & _ & ->).
  set (f := λ e : string * json, if decide (e.1 = "resolverVersion") then (e.1, JString version) else e) in *.
  assert (∀ e, (f e).1 = e.1) as Hf by (intros e; unfold f; by case_decide).
  assert ((map f l0).*1 = l0.*1) as Hkeys.
  { clear -Hf. induction l0 as [|e l IH]; [done|]. cbn. rewrite Hf. by f_equal. }
  pose proof Hd as Hnd0. cbn in Hnd0. apply andb_true_iff in Hnd0 as [Hnd0%bool_decide_eq_true Hall0].
  unfold resolver_version in Hv0. cbn [prop] in Hv0. apply bind_Some in Hv0 as (s0 & Hs & Ht0).
  apply bind_Some in Hs as (j0 & Hj0 & Hs1). destruct j0; try done. cbn in Hs1. simplify_eq.
  destruct (truthy (trim s0)) eqn:Etr; [|done]. injection Ht0 as <-.
  assert (distinct_keys (JObject (map f l0)) = true) as Hdp.
  { cbn. rewrite Hkeys. apply andb_true_iff. split; [by apply bool_decide_eq_true|].
    rewrite forallb_forall in Hall0 |- *. intros e (e' & <- & He)%in_map_iff. unfold f. case_decide; [done|]. by apply Hall0. }
  assert (decimal_object (map f l0) = None) as Hdec.
  { destruct (decimal_object _) as [s|] eqn:E; [|done]. apply decimal_object_Some in E.
    apply (map_get_entry f) in Hs0; [|done..]. by rewrite E in Hs0. }
  assert (NoDup (map f l0).*1) as Hndf by by rewrite Hkeys.
  apply (map_get_entry f) in Hj0; [|done..]. unfold f in Hj0 at 2. cbn in Hj0.
  destruct (normalize_prop _ _ _ _ Hndf Hdec Hn Hj0) as (l & v' & -> & Hnd & Hv' & [= <-]).
  pose proof Hd' as (l1 & _ & cs' & [= <-] & Hs' & _ & Hc' & Ho' & Hj' & _)%DocumentSchema_inv.
  assert (trim s0 ≠ "") as Hne by (unfold truthy in Etr; by apply negb_true_iff, bool_decide_eq_false in Etr).
  rewrite (DocumentSchema_fixed l (trim s0) cs') in Hd' by (done || apply trim_idem). injection Hd' as <-.
  exists (JObject (map f l0)), l, (trim s0), cs'. split_and!; try done.
  - by eapply normalize_distinct.
  - apply trim_idem.
Qed.

Lemma stored_property l k v : distinct_keys (JObject l) = true → map_get l k = Some v → ∃ l',
  jsonb (JObject l) = JObject l' ∧ NoDup l'.*1 ∧ map_get l' k = Some (jsonb v).
Proof using Type.
  intros Hd Hv. pose proof (prop_jsonb (JObject l) k Hd) as Hp. cbn [prop] in Hp. rewrite Hv in Hp.
  pose proof (distinct_sorted jsonb_compare (JObject l)) as Hds. fold jsonb in Hds. rewrite Hd in Hds.
  eexists. split; [done|]. split; [|done]. cbn in Hds. apply andb_true_iff in Hds as [Hds _]. by apply bool_decide_eq_true in Hds.
Qed.

Lemma canonical_document_stored_core untrusted c : distinct_keys untrusted = true →
  canonicalizeResolvedRubricDocument untrusted = Some c →
  canonicalizeResolvedRubricDocument (jsonb (cd_document c)) = Some c.
Proof using NL CL.
  intros Hd (p & l & s & criteria & Hdp & Hn & Hdoc & Hdl & Hs & Hv & Ht & Hne & Hcr & Ho & Hj & Hjs & Hh)%canonicalize_inv; [|done].
  rewrite Hdoc. destruct (stored_property _ _ _ Hdl Hs) as (l' & Hl' & Hnd' & Hs').
  destruct (stored_property _ _ _ Hdl Hv) as (l2 & Hl2 & _ & Hv'). rewrite Hl' in Hl2. injection Hl2 as <-.
  destruct (stored_property _ _ _ Hdl Hcr) as (l2 & Hl2 & _ & Hc'). rewrite Hl' in Hl2. injection Hl2 as <-.
  assert (jsonValue_ok (JObject l') = true) as Hj' by (rewrite <- Hl'; unfold jsonb; by rewrite jsonValue_sorted).
  assert (forallb is_object (map jsonb criteria) = true) as Ho'.
  { rewrite forallb_forall in Ho |- *. intros x (y & <- & Hy)%in_map_iff. specialize (Ho y Hy). by destruct y. }
  unfold canonicalizeResolvedRubricDocument. rewrite Hl', (DocumentSchema_fixed l' s (map jsonb criteria)) by done.
  cbn [mbind option_bind]. rewrite <- Hl'. unfold jsonb. rewrite (normalize_sorted _ _ _ _ Hdp Hn). cbn [mbind option_bind].
  rewrite (DocumentSchema_fixed l s criteria); try done.
  - cbn [mbind option_bind]. destruct c as [doc js h]. cbn in *. by subst.
  - cbn in Hdl. apply andb_true_iff in Hdl as [Hdl _]. by apply bool_decide_eq_true in Hdl.
Qed.

(** A canonical document survives storage: reading it back from its [jsonb]
    column, in whatever key order the database keeps, and canonicalizing it again
    gives the same document, the same bytes and the same content hash; in
    particular canonicalization is idempotent. *)
Theorem canonical_document_stored untrusted c : distinct_keys untrusted = true →
  canonicalizeResolvedRubricDocument untrusted = Some c →
  canonicalizeResolvedRubricDocument (jsonb (cd_document c)) = Some c.
Proof using NL CL. apply canonical_document_stored_core. Qed.

(** A snapshot that holds canonical content [c] for a tenant. *)
Definition holds_snapshot (tenant : option string) (c : canonical_document) (x : rubric_snapshot) : Prop :=
  sn_tenant x = tenant ∧ sn_content_hash x = cd_contentHash c ∧
  sn_resolver_version x = default "" (resolver_version (cd_document c)) ∧
  ∃ stored, canonicalizeResolvedRubricDocument (sn_resolved_doc x) = Some stored ∧ cd_json stored = cd_json c.

(** Storing content the first visible row of its hash already holds. *)
Lemma store_existing e newId tenantId u c t x : canonicalizeResolvedRubricDocument u = Some c →
  insertable e (pg_uuid <$> tenantId) = true → x ∈ t →
  select_one (λ x, visible_shared e (sn_tenant x) && same_snapshot (pg_uuid <$> tenantId) (cd_contentHash c) x) t = Some x →
  holds_snapshot (pg_uuid <$> tenantId) c x →
  storeRubricSnapshot e newId tenantId u t = Ok ((sn_id x, cd_contentHash c, false), t).
Proof using Type.
  intros Hc Hi Hx Hsel (Ht & Hh & Hv & stored & Hst & Hjs). unfold storeRubricSnapshot, insert_on_conflict. rewrite Hc, Hi. cbn -[select_one].
  rewrite (proj2 (existsb_true _ _)).
  - rewrite Hsel, Hst. by rewrite !bool_decide_eq_true_2.
  - exists x. split; [done|]. unfold same_snapshot. by rewrite !bool_decide_eq_true_2.
Qed.

(** C34: snapshots are content-addressed: whatever row [storeRubricSnapshot] answers
    with, new or found, belongs to the tenant and canonicalizes to the very bytes of
    the document given; earlier rows stay; and storing any document with the same
    canonical form again returns the same row and changes nothing. *)
Theorem snapshot_content_addressed e newId tenantId u t i h created t' : distinct_keys u = true →
  storeRubricSnapshot e newId tenantId u t = Ok ((i, h, created), t') →
  ∃ c x, canonicalizeResolvedRubricDocument u = Some c ∧ h = cd_contentHash c ∧
    x ∈ t' ∧ sn_id x = i ∧ holds_snapshot (pg_uuid <$> tenantId) c x ∧
    t' = (if created then t ++ [x] else t) ∧
    ∀ newId' u', canonicalizeResolvedRubricDocument u' = Some c →
      storeRubricSnapshot e newId' tenantId u' t' = Ok ((i, h, false), t').
Proof using NL CL.
  intros Hd Hst. pose proof Hst as H0. unfold storeRubricSnapshot in Hst.
  destruct (canonicalizeResolvedRubricDocument u) as [c|] eqn:Hc; [|done].
  destruct (insertable e _) eqn:Hi; [|done]. cbn -[select_one insert_on_conflict] in Hst.
  set (tenant := pg_uuid <$> tenantId) in *.
  set (row := mkRubricSnapshot _ _ _ _ _) in Hst.
  destruct (insert_on_conflict _ row t) as [b t1] eqn:E. apply insert_on_conflict_spec in E as [(-> & -> & Hn)|(-> & -> & _)].
  - injection Hst as <- <- <- <-. exists c, row.
    assert (holds_snapshot tenant c row) as Hrow.
    { split_and!; [done..|]. exists c. split; [|done]. cbn. by apply canonical_document_stored_core with (untrusted := u). }
    split_and!; [done|done|set_solver|done|done|done|]. intros newId' u' Hc'.
    apply (store_existing e newId' tenantId u' c (t ++ [row]) row); [done|done|set_solver| |done].
    rewrite select_one_app, (proj2 (select_one_None _ t)).
    + unfold select_one. cbn. rewrite (insertable_visible _ _ Hi). unfold same_snapshot. by rewrite !bool_decide_eq_true_2.
    + intros x Hx. fold tenant. by rewrite (Hn x Hx), andb_false_r.
  - destruct (select_one _ t) as [x|] eqn:Esel; [|done].
    destruct (canonicalizeResolvedRubricDocument (sn_resolved_doc x)) as [stored|] eqn:Est; [|done].
    destruct (_ && _) eqn:Eeq; [|done]. injection Hst as <- <- <- <-.
    apply andb_true_iff in Eeq as [Hj%bool_decide_eq_true Hv%bool_decide_eq_true].
    pose proof (select_one_Some _ _ _ Esel) as [Hx Hs]. unfold same_snapshot in Hs.
    rewrite !andb_true_iff, !bool_decide_eq_true in Hs. destruct Hs as (_ & Ht & Hh).
    assert (holds_snapshot tenant c x) as Hrow by (split_and!; [done..|]; by exists stored).
    exists c, x. split_and!; [done..|]. intros newId' u' Hc'. by apply (store_existing e newId' tenantId u' c t x).
Qed.
End canonical.

(** ** The resolver at work *)

Module demo_notation.
Import ExactDecimal.
Definition to_normal : DecimalNotation (D := ops) := λ d : t,
  match d with
  | Num neg mag sc => let '(m, sc') := norm (signed neg mag) sc in fixed sc' m
  | NaN => "NaN"
  end.
Lemma norm_idem m sc : norm (norm m sc).1 (norm m sc).2 = norm m sc.
Proof.
  revert m. induction sc as [|k IH]; intros m; [done|]. cbn [norm].
  destruct (m mod 10 =? 0) eqn:E; [apply IH|]. cbn. by rewrite E.
Qed.
Lemma signed_of_make tie v sc : match make tie v sc with Num n m _ => signed n m = v | NaN => False end.
Proof. unfold make, signed. destruct (v =? 0) eqn:E; destruct tie; cbn; destruct (v <? 0) eqn:?; lia. Qed.
Lemma to_normal_laws : DecimalNotationLaws (D := ops) to_normal.
Proof.
  intros [neg mag sc|]; unfold d_toNormal, to_normal.
  - pose proof (norm_idem (signed neg mag) sc) as Hi. destruct (norm (signed neg mag) sc) as [m sc'].
    cbn [new_Decimal ops]. unfold new. rewrite plain_fixed. eexists. split; [done|].
    pose proof (signed_of_make (match fixed sc' m with String c _ => bool_decide (c = "-"%char) | "" => false end) m sc') as Hs.
    unfold make in *. cbn in Hi; rewrite Hs, Hi. done.
  - exists NaN. by split.
Qed.
End demo_notation.

Definition demo_time : IsoTime := {|
  iso_date s := map_get [("2026-06-01", 20605)] s;
  iso_datetime s := map_get [("2026-06-02T00:00:00Z", 1780358400000000)] s;
|}.

Section witnesses.
#[local] Existing Instances ExactDecimal.ops demo_notation.to_normal demo_notation.to_normal_laws demo_sha demo_zod demo_time code_unit_collator.

Definition demo_version (n from recorded : Z) (to : option Z) : rubric_version :=
  mkRubricVersion (demo_id n) (demo_id 1) (mkPeriod from to recorded).
Definition demo_versions : list rubric_version :=
  [demo_version 11 20000 1700000000000000 None; demo_version 12 20500 1770000000000000 None;
   demo_version 13 20600 1770000000000000 (Some 20605)].
Definition demo_late : rubric_version := demo_version 14 20600 1780358400000001 None.
Definition demo_rubrics : list rubric :=
  [mkRubricRow (demo_id 1) STANDARD None None None; mkRubricRow (demo_id 2) CLIENT (Some (demo_id 7)) None (Some ["ROAD"])].
Definition demo_rule : rule_version_entry :=
  mkRuleVersionEntry (demo_id 21) (demo_id 20) FIRM_RULE "hash" ACTIVE (mkPeriod 20000 None 1700000000000000).
Definition demo_applicability : applicability_request :=
  mkApplicability (demo_id 7) None "ROAD" "2026-06-01" "2026-06-02T00:00:00Z".
Definition demo_scope : env := mkEnv 0 (Some [demo_id 7]).

Lemma selections_as_of_stable_witness :
  let vr := mkVersionRequest (demo_id 1) "2026-06-01" "2026-06-02T00:00:00Z" in
  selectRubricVersion (demo_versions ++ [demo_late]) vr = selectRubricVersion demo_versions vr ∧
  match selectRubricVersion demo_versions vr with Ok (VersionFound v) => srv_id v = demo_id 12 | _ => False end.
Proof.
  intros vr. split; [|vm_compute; reflexivity].
  apply (selections_as_of_stable demo_scope demo_rubrics demo_versions [demo_late] [demo_rule] [] vr
    (mkRuleRequest (demo_id 20) "2026-06-01" "2026-06-02T00:00:00Z") demo_applicability
    20605 1780358400000000 20605 1780358400000000 20605 1780358400000000); try reflexivity.
  - intros v ->%list_elem_of_singleton. split; vm_compute; reflexivity.
  - intros v Hv. by apply elem_of_nil in Hv.
Defined.

Definition demo_applicable : list ApplicableRubricVersion :=
  Eval vm_compute in match selectApplicableRubricVersions demo_scope demo_rubrics demo_versions demo_applicability with
                     | Ok l => l | Err _ => [] end.
Lemma applicable_versions_exact_witness :
  map av_rubricVersionId demo_applicable = [demo_id 12] ∧ NoDup (map av_rubricId demo_applicable).
Proof.
  split; [vm_compute; reflexivity|].
  apply (applicable_versions_exact demo_scope demo_rubrics demo_versions demo_applicability 20605 1780358400000000 demo_applicable).
  - apply (bool_decide_unpack _). vm_compute. exact I.
  - apply (bool_decide_unpack _). vm_compute. exact I.
  - vm_compute. reflexivity.
  - vm_compute. reflexivity.
Defined.

Definition demo_conflict : TightenConflictInput :=
  mkTightenConflict (Some (demo_id 7)) " STD.FOOTING " (demo_id 31) (demo_id 32) BOUND_WEAKENED.
Definition demo_conflict_table : list resolution_conflict :=
  Eval vm_compute in match persistTightenConflict demo_scope demo_conflict [] with Ok (_, t) => t | Err _ => [] end.
Lemma tighten_conflict_recorded_once_witness : ∃ id,
  persistTightenConflict demo_scope demo_conflict demo_conflict_table = Ok ((id, false), demo_conflict_table).
Proof.
  eexists. apply (tighten_conflict_recorded_once demo_scope demo_conflict [] _ true demo_conflict_table).
  - constructor.
  - vm_compute. reflexivity.
Defined.

Definition demo_document : json :=
  JObject [("schemaVersion", JNumber (JsFinite "1")); ("resolverVersion", JString " resolver-v1 ");
           ("criteria", JArray [JObject [("threshold", JObject [("decimal", JString "1.50")]); ("criterionKey", JString "B")];
                                JObject [("criterionKey", JString "A")]])].
Definition demo_canonical : canonical_document :=
  Eval vm_compute in default (mkCanonical JNull "" "") (canonicalizeResolvedRubricDocument demo_document).
Lemma canonical_document_stored_witness :
  cd_document demo_canonical ≠ demo_document ∧
  canonicalizeResolvedRubricDocument (jsonb (cd_document demo_canonical)) = Some demo_canonical.
Proof.
  split; [vm_compute; discriminate|].
  apply (canonical_document_stored demo_document); [vm_compute; reflexivity|vm_compute; reflexivity].
Defined.

Definition demo_snapshots : list rubric_snapshot :=
  Eval vm_compute in match storeRubricSnapshot demo_scope "s1" (Some (demo_id 7)) demo_document [] with
                     | Ok (_, t) => t | Err _ => [] end.
Lemma snapshot_content_addressed_witness :
  storeRubricSnapshot demo_scope "s2" (Some (demo_id 7)) (cd_document demo_canonical) demo_snapshots =
    Ok (("s1", cd_contentHash demo_canonical, false), demo_snapshots).
Proof.
  destruct (snapshot_content_addressed demo_scope "s1" (Some (demo_id 7)) demo_document [] "s1"
    (cd_contentHash demo_canonical) true demo_snapshots) as (c & x & Hc & _ & _ & _ & _ & _ & Hagain);
    [vm_compute; reflexivity|vm_compute; reflexivity|].
  apply Hagain. rewrite <- Hc. vm_compute. reflexivity.
Defined.
End witnesses.
