(* ===== verification/WorkflowScan.v ===== *)
(** The recurring scans of the job worker ([src/src/jobs/boss.ts],
    [make-reclaim-and-scan-job-handler.ts] and its two users,
    [claim-aging-scan-handler.ts]): each tick first recovers claims whose worker
    has died, then claims the due rows of every active account.  Their clock is the
    instant at which the worker started, and stands still while it runs.  Two facts
    follow: a command that falls due after the start is never run by that worker;
    and where the worker is started again and again, at least half an hour apart,
    every command due at the first start ends. *)

From S2P Require Import Prelude JsText Decimal Json Store AuditLedger JsDate Database Tx Jobs Workflow WorkflowOps Money Claims.

(** ** The scan jobs *)

(** The payload of a scan: no tenant. *)
Record scan_payload := mkScan { sp_schemaVersion : Z; sp_requestedAt : string }.

Section scans.
Context {H : Sha256} {U : UuidSource} {W : Zod} {B : PgBoss} {T : IsoTime}.

Definition parse_scan (p : scan_payload) : option Z :=
  if sp_schemaVersion p =? 1 then date_of (sp_requestedAt p) else None.

(** [withTenantTx({ internal: true }, ...)] *)
Definition internal {A} (m : tx A) : tx A := λ e s, m (mkEnv (now e) None) s.

(** [makeReclaimAndScanJobHandler]; [locked] are the rows other transactions hold. *)
Definition handleReclaimAndScanJob (reclaim : Z → tx (nat * nat)) (scan : Z → tx nat) (p : scan_payload) : tx (nat * (nat * nat)) :=
  at_ ← the (parse_scan p) SchemaRejected;
  internal (recovery ← reclaim at_; scanResult ← scan at_; mret (scanResult, recovery)).
Definition handleWorkflowCommandScanJob (locked : list string) : scan_payload → tx (nat * (nat * nat)) :=
  handleReclaimAndScanJob (reclaimStaleClaimsForActiveClients locked reclaimStaleWorkflowCommands_CONFIG)
    (scheduleWorkflowCommandJobs locked).
Definition handleOutboxMessageScanJob (locked : list string) : scan_payload → tx (nat * (nat * nat)) :=
  handleReclaimAndScanJob (reclaimStaleClaimsForActiveClients locked reclaimStaleOutboxMessages_CONFIG)
    (scheduleOutboxDeliveryJobs locked).
Definition handleClaimAgingScanJob (p : scan_payload) : tx (nat * nat) :=
  at_ ← the (parse_scan p) SchemaRejected;
  internal (scheduleClaimAgingJobs at_).

(** ** Registration *)

Definition CLAIM_AGING_SCAN_CRON : string := "*/15 * * * *".
Definition WORKFLOW_COMMAND_SCAN_CRON : string := "* * * * *".
Definition OUTBOX_MESSAGE_SCAN_CRON : string := "* * * * *".

(** A row of pg-boss's schedule: every time the cron expression fires, a job with
    this very payload is sent. *)
Record schedule := mkSchedule { sc_name : string; sc_cron : string; sc_data : scan_payload }.

(** The schedules [registerJobConsumers] leaves behind; [boot] is what [new Date()]
    returns while the worker starts. *)
Definition registered_schedules (boot : Z) : list schedule :=
  let data := mkScan 1 (toISOString boot) in
  [mkSchedule "freight.claims.scan-aging.v1" CLAIM_AGING_SCAN_CRON data;
   mkSchedule "freight.workflow.scan-commands.v1" WORKFLOW_COMMAND_SCAN_CRON data;
   mkSchedule "freight.workflow.scan-outbox.v1" OUTBOX_MESSAGE_SCAN_CRON data].

(** What happens to the command table while a worker runs: ticks of the command
    scan, as scheduled, among the statements that schedule and complete commands
    and whatever else is written to the other tables; a transaction that fails
    leaves no trace. *)
Inductive worker_run (boot : Z) : db → db → Prop :=
  | worker_start s : worker_run boot s s
  | worker_tick s s1 sc locked e r s2 :
      worker_run boot s s1 → sc ∈ registered_schedules boot → sc_name sc = "freight.workflow.scan-commands.v1" →
      handleWorkflowCommandScanJob locked (sc_data sc) e s1 = Ok (r, s2) → worker_run boot s s2
  | worker_schedule s s1 c i ty p runAfter e r s2 :
      worker_run boot s s1 → scheduleWorkflowCommand c i ty p runAfter e s1 = Ok (r, s2) → worker_run boot s s2
  | worker_complete s s1 c i e r s2 :
      worker_run boot s s1 → completeWorkflowCommand c i e s1 = Ok (r, s2) → worker_run boot s s2
  | worker_other s s1 s2 :
      worker_run boot s s1 → workflow_commands (workflow_part s2) = workflow_commands (workflow_part s1) → worker_run boot s s2.
End scans.

(** ** A clock that stands still *)

Section frozen_queue.
Context `{QueueRow R, !QueueRowLaws R}.
Implicit Types (t : list R) (r : R).

Lemma frozen_step boot final t claimed t' r : final ≠ "pending" → final ≠ "claimed" → NoDup (map q_id t) →
  queue_step (λ now, now = boot) final t claimed t' → r ∈ t → q_status r = "pending" → boot < q_due r → r ∈ t'.
Proof.
  intros Hf1 Hf2 Hnd Hstep Hr Hp Hd.
  assert (∀ (hit : R → bool) f, hit r = false → r ∈ update_where hit f t) as Hupd.
  { intros hit f Hh. pose proof (update_where_keeps hit f t r Hr) as Hin. by rewrite Hh in Hin. }
  destruct Hstep as [r' t _ _ _|locked c now limit t ->|locked c now t ->|c i t]; cbn.
  - set_solver.
  - apply Hupd. apply not_true_iff_false. intros Hh. apply hit_cond in Hh; [|done..].
    rewrite !andb_true_iff in Hh. destruct_and? Hh. lia.
  - apply Hupd. apply not_true_iff_false. intros Hh. apply hit_cond in Hh; [|done..].
    rewrite !andb_true_iff, bool_decide_eq_true in Hh. destruct_and? Hh. congruence.
  - apply Hupd. rewrite (bool_decide_eq_false_2 (q_status r = "claimed")), (bool_decide_eq_false_2 (q_status r = final)) by congruence.
    apply andb_false_r.
Qed.

Lemma frozen_claim boot final t claimed t' r : final ≠ "pending" → final ≠ "claimed" → NoDup (map q_id t) →
  queue_step (λ now, now = boot) final t claimed t' → r ∈ t → q_status r = "claimed" →
  (∃ c, q_claimed_at r = Some c ∧ boot - 30 * 60000 < c) →
  ∃ r', r' ∈ t' ∧ q_id r' = q_id r ∧ q_attempts r' = q_attempts r ∧ q_claimed_at r' = q_claimed_at r ∧
    (q_status r' = "claimed" ∨ q_status r' = final).
Proof.
  intros Hf1 Hf2 Hnd Hstep Hr Hc (x & Hx & Hlt).
  assert (∀ (hit : R → bool) f, hit r = false → ∃ r', r' ∈ update_where hit f t ∧ q_id r' = q_id r ∧
    q_attempts r' = q_attempts r ∧ q_claimed_at r' = q_claimed_at r ∧ (q_status r' = "claimed" ∨ q_status r' = final)) as Hupd.
  { intros hit f Hh. exists r. pose proof (update_where_keeps hit f t r Hr) as Hin. rewrite Hh in Hin. split_and!; auto. }
  destruct Hstep as [r' t _ _ _|locked c now limit t ->|locked c now t ->|c i t]; cbn.
  - exists r. split_and!; auto. set_solver.
  - apply Hupd. apply not_true_iff_false. intros Hh. apply hit_cond in Hh; [|done..].
    rewrite !andb_true_iff, bool_decide_eq_true in Hh. destruct_and? Hh. congruence.
  - apply Hupd. apply not_true_iff_false. intros Hh. apply hit_cond in Hh; [|done..].
    rewrite !andb_true_iff, Hx in Hh. destruct_and? Hh. lia.
  - match goal with |- context [update_where ?h ?f t] => set (hit := h); set (g := f) end.
    pose proof (update_where_keeps hit g t r Hr) as Hin. destruct (hit r); [exists (g r)|exists r; by split_and!; auto].
    split; [done|]. unfold g. rewrite q_set_id, q_set_attempts, q_set_claimed, q_set_status. auto.
Qed.
End frozen_queue.

Section frozen.
Context {H : Sha256} {U : UuidSource} {W : Zod} {B : PgBoss} {T : IsoTime}.

Lemma parse_registered boot sc : reads_back boot → sc ∈ registered_schedules boot → parse_scan (sc_data sc) = Some boot.
Proof using Type.
  intros Hb Hsc. assert (sc_data sc = mkScan 1 (toISOString boot)) as ->.
  { unfold registered_schedules in Hsc. rewrite !elem_of_cons, elem_of_nil in Hsc. by destruct Hsc as [->|[->|[->|[]]]]. }
  by apply date_of_toISOString.
Qed.

Lemma enqueue_moves c env p k e s r s' : enqueueInTransaction c env p k e s = Ok (r, s') → commands_of s' = commands_of s.
Proof using Type. intros Hs. unfold enqueueInTransaction in Hs. tx_inv. case_match; tx_inv. done. Qed.

Lemma schedule_jobs_moves (clock : Z → Prop) locked a e s r s' : clock a →
  scheduleWorkflowCommandJobs locked a e s = Ok (r, s') → ∃ log, queue_moves clock s log s'.
Proof using Type.
  intros Hclk Hs. unfold scheduleWorkflowCommandJobs in Hs. tx_inv.
  match goal with Hl : for_each _ _ _ _ = _ |- _ => revert Hl end.
  apply (for_each_inv (λ s1, ∃ log, queue_moves clock s log s1)); [|exists []; apply run_nil].
  intros c s1 y s2 _ [log Hr1] Hround. tx_inv.
  match goal with Hc : claimDueWorkflowCommands _ _ _ _ _ _ = _ |- _ => apply (claim_moves clock) in Hc as Hm; [|done] end.
  revert Hround. apply (for_each_inv (λ s1, ∃ log, queue_moves clock s log s1)).
  - intros row s3 b s4 _ [log3 Hr3] Hq%enqueue_moves. exists log3. unfold queue_moves. by rewrite Hq.
  - eexists. eapply queue_run_app; [exact Hr1|exact Hm].
Qed.

Lemma tick_moves (clock : Z → Prop) locked p at_ e s r s' : parse_scan p = Some at_ → clock at_ →
  handleWorkflowCommandScanJob locked p e s = Ok (r, s') → ∃ log, queue_moves clock s log s'.
Proof using Type.
  intros Hp Hclk Hs. unfold handleWorkflowCommandScanJob, handleReclaimAndScanJob in Hs. rewrite Hp in Hs. tx_inv.
  unfold internal in *. tx_inv.
  match goal with Hr : reclaimStaleClaimsForActiveClients _ _ _ _ _ = _ |- _ => apply (reclaim_moves clock) in Hr as Hm1; [|done] end.
  match goal with Hr : scheduleWorkflowCommandJobs _ _ _ _ = _ |- _ => apply (schedule_jobs_moves clock) in Hr as [log Hm2]; [|done] end.
  eexists. eapply queue_run_app; [exact Hm1|exact Hm2].
Qed.

Lemma worker_run_moves boot s s' : reads_back boot → worker_run boot s s' →
  ∃ log, queue_moves (λ now, now = boot) s log s'.
Proof using Type.
  intros Hb. induction 1 as [s|s s1 sc locked e r s2 _ [log IH] Hsc _ Hs|s s1 c i ty p ra e r s2 _ [log IH] Hs|s s1 c i e r s2 _ [log IH] Hs|s s1 s2 _ [log IH] Hs].
  - exists []. apply run_nil.
  - apply (tick_moves (λ now, now = boot)) with (at_ := boot) in Hs as [log2 Hm]; [|by apply parse_registered|done].
    eexists. by eapply queue_run_app.
  - apply (schedule_moves (λ now, now = boot)) in Hs. eexists. by eapply queue_run_app.
  - apply (complete_moves (λ now, now = boot)) in Hs. eexists. by eapply queue_run_app.
  - exists log. unfold queue_moves, commands_of in *. by rewrite Hs.
Qed.

(** The worker's scans do not see time pass: the payload of a recurring scan is
    fixed when the worker starts, so, however long it runs and however many ticks
    fire, a pending command that falls due after the start is never claimed, and a
    claim made within the half hour before the start (or by any of its ticks) is
    never recovered: it stays claimed until somebody completes it. *)
Theorem scheduled_scans_frozen boot s s' r : reads_back boot →
  queue_ok "done" (commands_of s) → worker_run boot s s' → r ∈ commands_of s →
  (wc_status r = "pending" → boot < wc_run_after r → r ∈ commands_of s') ∧
  (∀ c, wc_status r = "claimed" → wc_claimed_at r = Some c → boot - 30 * 60000 < c →
     ∃ r', r' ∈ commands_of s' ∧ wc_id r' = wc_id r ∧
       (wc_status r' = "claimed" ∧ wc_attempts r' = wc_attempts r ∨ wc_status r' = "done")).
Proof using Type.
  intros Hb Hok Hrun Hr. destruct (worker_run_moves _ _ _ Hb Hrun) as [log Hm]. unfold queue_moves in Hm. split.
  - intros Hp Hd. clear Hrun. revert Hok Hr. induction Hm as [t|t log t1 claimed t2 Hm IH Hstep]; [done|]. intros Hok Hr.
    destruct (queue_run_ok (λ now, now = boot) "done" t log t1) as [[Hnd _] _]; [done..|].
    apply (frozen_step (R:=workflow_command) boot "done" t1 claimed t2 r); [done|done|done|done|by apply IH|done|done].
  - intros c Hc Hx Hlt. clear Hrun. revert Hok Hr.
    enough (queue_ok "done" (commands_of s) → r ∈ commands_of s → ∃ r', r' ∈ commands_of s' ∧ wc_id r' = wc_id r ∧
      (wc_status r' = "claimed" ∧ wc_attempts r' = wc_attempts r ∧ wc_claimed_at r' = Some c ∨ wc_status r' = "done")) as He.
    { intros Hok Hr. destruct (He Hok Hr) as (r' & ? & ? & [(? & ? & _)|?]); exists r'; auto. }
    induction Hm as [t|t log t1 claimed t2 Hm IH Hstep]; [intros _ Hr; exists r; by split_and!; auto|]. intros Hok Hr.
    destruct (IH Hok Hr) as (r1 & Hr1 & Hid & Hst).
    destruct (queue_run_ok (λ now, now = boot) "done" t log t1) as [[Hnd _] _]; [done..|].
    destruct Hst as [(Hst & Ha & Hcl)|Hst].
    + destruct (frozen_claim (R:=workflow_command) boot "done" t1 claimed t2 r1) as (r2 & Hr2 & Hid2 & Ha2 & Hcl2 & Hst2); try done.
      { by exists c. }
      exists r2. cbn in *. rewrite Hid2, Ha2, Hcl2, Hid. split; [done|]. split; [done|]. destruct Hst2; auto.
    + destruct (queue_step_row (R:=workflow_command) (λ now, now = boot) "done" t1 claimed t2 r1) as (r2 & Hr2 & Hid2 & _ & Hfin); try done.
      exists r2. cbn in *. rewrite Hid2, Hid. split; [done|]. split; [done|]. right. rewrite Hfin; auto.
Qed.
End frozen.

(** ** Progress of one account's rows *)

Section measure.
Context `{QueueRow R, !QueueRowLaws R}.
Implicit Types (t : list R) (r : R).

(** A bound on the claims and recoveries a row may still go through. *)
Definition weight (r : R) : Z :=
  if bool_decide (q_status r = "pending") then 2 * (5 - q_attempts r)
  else if bool_decide (q_status r = "claimed") then 2 * (5 - q_attempts r) + 1 else 0.

Lemma row_weight_nonneg final r : queue_row_ok final r → 0 <= weight r.
Proof using QueueRowLaws0. intros (_ & Ha & _). unfold weight. repeat case_bool_decide; lia. Qed.
Lemma weight_bound final r : queue_row_ok final r → weight r <= 10.
Proof using QueueRowLaws0. intros (_ & Ha & _ & Hc). unfold weight. case_bool_decide; [lia|]. case_bool_decide as Hs; [specialize (Hc Hs)|]; lia. Qed.
Lemma unfinished_weight final r : queue_row_ok final r → q_status r = "pending" ∨ q_status r = "claimed" → 0 < weight r.
Proof using QueueRowLaws0.
  intros (_ & Ha & Hp & _) [Hs|Hs]; unfold weight.
  - rewrite bool_decide_eq_true_2 by done. specialize (Hp Hs). lia.
  - rewrite bool_decide_eq_false_2, bool_decide_eq_true_2 by congruence. lia.
Qed.
Lemma weight_claimed n c r : weight (q_set "claimed" n c r) = 2 * (5 - n) + 1.
Proof using QueueRowLaws0.
  unfold weight. rewrite q_set_status, q_set_attempts. by rewrite bool_decide_eq_false_2, bool_decide_eq_true_2 by done.
Qed.
Lemma weight_pending n c r : weight (q_set "pending" n c r) = 2 * (5 - n).
Proof using QueueRowLaws0. unfold weight. rewrite q_set_status, q_set_attempts. by rewrite bool_decide_eq_true_2 by done. Qed.
Lemma weight_done st n c r : st ≠ "pending" → st ≠ "claimed" → weight (q_set st n c r) = 0.
Proof using QueueRowLaws0. intros ??. unfold weight. rewrite q_set_status. by rewrite !bool_decide_eq_false_2 by done. Qed.
Lemma weight_of_pending r : q_status r = "pending" → weight r = 2 * (5 - q_attempts r).
Proof using QueueRowLaws0. intros Hs. unfold weight. by rewrite bool_decide_eq_true_2. Qed.
Lemma weight_of_claimed r : q_status r = "claimed" → weight r = 2 * (5 - q_attempts r) + 1.
Proof using QueueRowLaws0. intros Hs. unfold weight. by rewrite bool_decide_eq_false_2, bool_decide_eq_true_2 by congruence. Qed.

(** A statement with no rows locked hits a row as soon as one qualifies. *)
Lemma select_hits p key n t r : 0 < n → r ∈ t → p r = true → ∃ r', r' ∈ t ∧ q_id r' ∈ select_for_update [] p key n t.
Proof using QueueRowLaws0.
  intros Hn Hr Hp. unfold select_for_update.
  set (l := js_sort (cmp_on key Z.compare) (List.filter (λ r, p r && negb (bool_decide (q_id r ∈ []))) t)).
  assert (r ∈ l) as Hrl.
  { unfold l. rewrite elem_of_js_sort. apply list_elem_of_In, filter_In. split; [by apply list_elem_of_In|]. by rewrite Hp. }
  destruct l as [|x l'] eqn:El; [by apply elem_of_nil in Hrl|]. exists x.
  assert (x ∈ l) as Hx by (rewrite El; by left). unfold l in Hx. rewrite elem_of_js_sort in Hx.
  apply list_elem_of_In, filter_In in Hx as [Hx%list_elem_of_In _]. split; [done|].
  destruct (Z.to_nat n) eqn:En; [lia|]. cbn. by left.
Qed.

Lemma update_sum_le (g : R → Z) (hit : R → bool) f t : (∀ r, r ∈ t → hit r = true → g r <= g (f r)) →
  zsum_by g t <= zsum_by g (update_where hit f t).
Proof using QueueRowLaws0.
  induction t as [|x t IH]; intros Hf; [done|]. unfold update_where in *. cbn [map]. rewrite !zsum_by_cons.
  pose proof (IH ltac:(intros; apply Hf; [by right|done])). destruct (hit x) eqn:Ex; [|lia].
  pose proof (Hf x ltac:(by left) Ex). lia.
Qed.
Lemma update_sum_lt (g : R → Z) (hit : R → bool) f t r : (∀ r, r ∈ t → hit r = true → g r <= g (f r)) →
  r ∈ t → hit r = true → g r < g (f r) → zsum_by g t < zsum_by g (update_where hit f t).
Proof using QueueRowLaws0.
  intros Hf Hr Hh Hlt. apply list_elem_of_split in Hr as (t1 & t2 & ->).
  pose proof (update_sum_le g hit f t1 ltac:(intros; apply Hf; [set_solver|done])).
  pose proof (update_sum_le g hit f t2 ltac:(intros; apply Hf; [set_solver|done])).
  unfold update_where in *. rewrite map_app, !zsum_by_app. cbn [map]. rewrite Hh, !zsum_by_cons. lia.
Qed.
End measure.

Section progress.
Context `{QueueRow R, !QueueRowLaws R} (final clientId : string) (Hf1 : final ≠ "pending") (Hf2 : final ≠ "claimed").
Implicit Types (t : list R) (r : R).

Definition mine (r : R) : bool := uuid_is (q_account r) clientId.
Definition finished (r : R) : Prop := q_status r = final ∨ q_status r = "failed".
(** What the account's rows have used up of their attempts. *)
Definition spent : list R → Z := zsum_by (λ r, if mine r then 10 - weight r else 0).
Definition held (r : R) : Prop := mine r = true ∧ q_status r = "claimed".
(** Nothing is given back, and where nothing was used up the claims are old ones. *)
Definition progress t t' : Prop := spent t <= spent t' ∧ (spent t < spent t' ∨ ∀ r, r ∈ t' → held r → r ∈ t).

Lemma progress_refl t : progress t t.
Proof using QueueRowLaws0. split; [lia|by right]. Qed.
Lemma progress_trans t1 t2 t3 : progress t1 t2 → progress t2 t3 → progress t1 t3.
Proof using QueueRowLaws0. intros [Hle1 H1] [Hle2 H2]. split; [lia|]. destruct H1 as [?|H1]; [left; lia|]. destruct H2 as [?|H2]; [left; lia|]. auto. Qed.

Lemma update_spent (hit : R → bool) f t r : (∀ r, r ∈ t → hit r = true → q_account (f r) = q_account r ∧ weight (f r) <= weight r) →
  r ∈ t → hit r = true → mine r = true → weight (f r) < weight r → spent t < spent (update_where hit f t).
Proof using QueueRowLaws0.
  intros Hf Hr Hh Hm Hw. apply (update_sum_lt _ hit f t r); [|done|done|].
  - intros x Hx Hhx. destruct (Hf x Hx Hhx) as [Ha ?]. unfold mine. rewrite Ha. case_match; lia.
  - destruct (Hf r Hr Hh) as [Ha _]. unfold mine in *. rewrite Ha, Hm. lia.
Qed.

Lemma update_progress (hit : R → bool) f t : (∀ r, r ∈ t → hit r = true → q_account (f r) = q_account r ∧
    weight (f r) <= weight r ∧ (weight (f r) < weight r ∨ q_status (f r) ≠ "claimed")) →
  progress t (update_where hit f t).
Proof using QueueRowLaws0.
  intros Hf. split.
  - apply update_sum_le. intros r Hr Hh. destruct (Hf r Hr Hh) as (Ha & ? & _). unfold mine. rewrite Ha. case_match; lia.
  - destruct (decide (Exists (λ r, hit r = true ∧ mine r = true ∧ weight (f r) < weight r) t)) as [Hex|Hno].
    + left. apply Exists_exists in Hex as (r & Hr & Hh & Hm & Hw). apply (update_spent hit f t r); [|done..].
      intros x Hx Hhx. by destruct (Hf x Hx Hhx) as (? & ? & _).
    + right. intros r [[Hr _]|(r0 & Hr & Hh & ->)]%elem_of_update_where [Hm Hs]; [done|]. exfalso. apply Hno, Exists_exists.
      exists r0. destruct (Hf r0 Hr Hh) as (Ha & _ & [Hw|Hc]); [|done]. unfold mine in *. by rewrite Ha in Hm.
Qed.

Lemma step_progress clock t log t' : queue_ok final t → queue_step clock final t log t' → progress t t'.
Proof using QueueRowLaws0 Hf1 Hf2.
  intros [Hnd Hok] Hstep. destruct Hstep as [r t _ Hs Ha|locked c now limit t _|locked c now t _|c i t].
  - assert (weight r = 10) as Hw by (rewrite weight_of_pending by done; lia).
    split; [unfold spent; rewrite zsum_by_app, zsum_by_cons, Hw; cbn; case_match; lia|].
    right. intros x [Hx|Hx]%elem_of_app [_ Hc]; [done|]. apply list_elem_of_singleton in Hx as ->. congruence.
  - apply update_progress. intros r Hr Hh. apply hit_cond in Hh; [|done..].
    rewrite !andb_true_iff, bool_decide_eq_true in Hh. destruct_and? Hh.
    rewrite q_set_account, weight_claimed, (weight_of_pending r) by done. split_and!; [done|lia|left; lia].
  - apply update_progress. intros r Hr Hh. apply hit_cond in Hh; [|done..].
    rewrite !andb_true_iff, bool_decide_eq_true in Hh. destruct_and? Hh. destruct (Hok r Hr) as (_ & ? & _).
    rewrite q_set_account, (weight_of_claimed r) by done. unfold reclaim_status.
    destruct (_ >=? _); [rewrite weight_done by done|rewrite weight_pending]; (split_and!; [done|lia|left; lia]).
  - apply update_progress. intros r Hr Hh. rewrite q_set_account, weight_done by done. split_and!; [done| |right; by rewrite q_set_status].
    by eapply row_weight_nonneg, Hok.
Qed.

Lemma run_progress clock t log t' : queue_ok final t → queue_run clock final t log t' → progress t t'.
Proof using QueueRowLaws0 Hf1 Hf2.
  intros Hok. induction 1 as [t|t log t1 c t2 Hr IH Hs]; [apply progress_refl|].
  apply (progress_trans _ t1); [auto|]. eapply step_progress; [|done]. by eapply queue_run_ok.
Qed.

(** Claims bear an instant of the clock. *)
Lemma step_claims (clock : Z → Prop) hi t log t' r : NoDup (map q_id t) → (∀ a, clock a → a <= hi) →
  queue_step clock final t log t' → r ∈ t' → q_status r = "claimed" → r ∈ t ∨ ∃ c, q_claimed_at r = Some c ∧ c <= hi.
Proof using QueueRowLaws0 Hf1 Hf2.
  intros Hnd Hhi Hstep Hr Hs. destruct Hstep as [r' t _ Hp Ha|locked c now limit t Hc|locked c now t _|c i t]; cbn in Hr.
  - apply elem_of_app in Hr as [Hr|Hr%list_elem_of_singleton]; [by left|]. congruence.
  - apply elem_of_update_where in Hr as [[Hr _]|(r0 & Hr & Hh & ->)]; [by left|]. right. exists now. by rewrite q_set_claimed; auto.
  - apply elem_of_update_where in Hr as [[Hr _]|(r0 & Hr & Hh & ->)]; [by left|].
    rewrite q_set_status in Hs. unfold reclaim_status in Hs. by destruct (_ >=? _).
  - apply elem_of_update_where in Hr as [[Hr _]|(r0 & Hr & Hh & ->)]; [by left|]. by rewrite q_set_status in Hs.
Qed.
Lemma run_claims (clock : Z → Prop) hi t log t' r : queue_ok final t → (∀ a, clock a → a <= hi) →
  queue_run clock final t log t' → r ∈ t' → q_status r = "claimed" → r ∈ t ∨ ∃ c, q_claimed_at r = Some c ∧ c <= hi.
Proof using QueueRowLaws0 Hf1 Hf2.
  intros Hok Hhi Hrun. revert r. induction Hrun as [t|t log t1 c t2 Hrun IH Hs]; [auto|]. intros r Hr Hc.
  destruct (queue_run_ok clock final t log t1) as [[Hnd _] _]; [done..|].
  destruct (step_claims clock hi t1 c t2 r) as [?|?]; auto.
Qed.

(** A row stays where it is: same id, account and due time; once finished, finished. *)
Lemma run_row clock t log t' r : queue_ok final t → queue_run clock final t log t' → r ∈ t →
  ∃ r', r' ∈ t' ∧ q_id r' = q_id r ∧ q_account r' = q_account r ∧ q_due r' = q_due r ∧ (finished r → finished r').
Proof using QueueRowLaws0 Hf1 Hf2.
  intros Hok Hrun Hr. induction Hrun as [t|t log t1 c t2 Hrun IH Hs]; [by exists r; split_and!|].
  destruct (IH Hok Hr) as (r1 & Hr1 & Hi1 & Ha1 & Hd1 & Hfin1).
  destruct (queue_run_ok clock final t log t1) as [Hok1 _]; [done..|].
  destruct (queue_step_row clock final t1 c t2 r1) as (r2 & Hr2 & Hi2 & _ & Hfin2); [done|done|apply Hok1|done|done|].
  assert (∃ x, x ∈ t2 ∧ q_id x = q_id r1 ∧ q_account x = q_account r1 ∧ q_due x = q_due r1) as (x & Hx & Hxi & Hxa & Hxd).
  { assert (∀ (hit : R → bool) (f : R → R) t, r1 ∈ t → (∀ r, q_id (f r) = q_id r ∧ q_account (f r) = q_account r ∧ q_due (f r) = q_due r) →
      ∃ x, x ∈ update_where hit f t ∧ q_id x = q_id r1 ∧ q_account x = q_account r1 ∧ q_due x = q_due r1) as Hu.
    { intros hit f u Hu Hf. pose proof (update_where_keeps hit f u r1 Hu) as Hin.
      destruct (hit r1); eexists; (split; [exact Hin|]); [apply Hf|done]. }
    destruct Hs as [r' t1 _ _ _|locked cl now limit t1 _|locked cl now t1 _|cl i t1]; cbn; [exists r1; split_and!; [set_solver|done..]|..];
      (apply Hu; [done|]; intros; by rewrite q_set_id, q_set_account, q_set_due). }
  assert (x = r2) as ->.
  { apply (q_id_inj t2); [|done|done|congruence]. by eapply (queue_step_ok clock final t1). }
  exists r2. split_and!; [done|congruence..|]. intros Hfr%Hfin1. unfold finished in *. rewrite Hfin2; done.
Qed.

(** A statement for the account, with nothing locked, uses something up where it can. *)
Lemma reclaim_spends now t r : queue_ok final t → r ∈ t → held r →
  (∀ r, r ∈ t → held r → ∃ c, q_claimed_at r = Some c ∧ c <= now - 30 * 60000) →
  spent t < spent (reclaimStaleClaims [] clientId now 30 5 20 t).2.
Proof using QueueRowLaws0 Hf1 Hf2.
  intros [Hnd Hok] Hr [Hm Hs] Hstale. unfold reclaimStaleClaims, update_returning. cbn [snd].
  set (p := λ r : R, uuid_is (q_account r) clientId && _ && _). set (key := λ r : R, default 0 (q_claimed_at r)).
  assert (p r = true) as Hp.
  { destruct (Hstale r Hr) as (c & Hc & Hle); [by split|]. unfold p. fold (mine r). rewrite Hm, Hc, bool_decide_eq_true_2 by done. by apply Z.leb_le. }
  destruct (select_hits p key 20 t r) as (r' & Hr' & Hin); [done..|].
  assert (∀ x, x ∈ t → p x = true → mine x = true ∧ q_status x = "claimed") as Hpx.
  { intros x _ Hx. unfold p in Hx. rewrite !andb_true_iff, bool_decide_eq_true in Hx. by destruct_and? Hx. }
  assert (∀ x, x ∈ t → p x = true → weight (q_set (reclaim_status 5 x) (q_attempts x) None x) < weight x) as Hw.
  { intros x Hx Hpr. destruct (Hpx x Hx Hpr) as [_ Hsx]. destruct (Hok x Hx) as (_ & ? & _). rewrite (weight_of_claimed x) by done.
    unfold reclaim_status. destruct (_ >=? _); [rewrite weight_done by done|rewrite weight_pending]; lia. }
  pose proof Hin as Hin'. apply (bool_decide_eq_true _) in Hin'. pose proof (hit_cond _ _ _ _ _ _ Hnd Hr' Hin') as Hp'.
  apply (update_spent _ _ t r'); [|done|done|by apply Hpx|by apply Hw].
  intros x Hx Hhx%hit_cond; [|done..]. rewrite q_set_account. split; [done|]. by apply Z.lt_le_incl, Hw.
Qed.
Lemma claim_spends now t r : queue_ok final t → r ∈ t → mine r = true → q_status r = "pending" → q_due r <= now →
  spent t < spent (claim_due [] clientId now 20 t).2.
Proof using QueueRowLaws0 Hf1 Hf2.
  intros [Hnd Hok] Hr Hm Hs Hd. unfold claim_due, update_returning. cbn [snd].
  set (p := λ r : R, uuid_is (q_account r) clientId && _ && _).
  assert (p r = true) as Hp by (unfold p; fold (mine r); rewrite Hm, bool_decide_eq_true_2 by done; by apply Z.leb_le).
  destruct (select_hits p q_due 20 t r) as (r' & Hr' & Hin); [done..|].
  assert (∀ x, p x = true → mine x = true ∧ q_status x = "pending") as Hpx.
  { intros x Hx. unfold p in Hx. rewrite !andb_true_iff, bool_decide_eq_true in Hx. by destruct_and? Hx. }
  assert (∀ x, p x = true → weight (q_set "claimed" (q_attempts x + 1) (Some now) x) < weight x) as Hw.
  { intros x [_ Hsx]%Hpx. rewrite (weight_of_pending x), weight_claimed by done. lia. }
  pose proof Hin as Hin'. apply (bool_decide_eq_true _) in Hin'. pose proof (hit_cond _ _ _ _ _ _ Hnd Hr' Hin') as Hp'.
  apply (update_spent _ _ t r'); [|done|done|by apply Hpx|by apply Hw].
  intros x Hx Hhx%hit_cond; [|done..]. rewrite q_set_account. split; [done|]. by apply Z.lt_le_incl, Hw.
Qed.

Lemma spent_bound t : queue_ok final t → spent t <= 10 * Z.of_nat (length (List.filter mine t)) ∧
  ((∃ r, r ∈ t ∧ mine r = true ∧ ¬ finished r) → spent t < 10 * Z.of_nat (length (List.filter mine t))).
Proof using QueueRowLaws0.
  intros [_ Hok]. unfold spent. induction t as [|x t IH]; [split; [done|intros (r & []%elem_of_nil & _)]|].
  destruct IH as [Hle Hlt]; [intros; apply Hok; by right|]. rewrite zsum_by_cons. cbn [List.filter].
  pose proof (Hok x ltac:(by left)) as Hx. pose proof (row_weight_nonneg final x Hx).
  split; [destruct (mine x); cbn [length]; lia|]. intros (r & [->|Hr]%elem_of_cons & Hm & Hu).
  - rewrite Hm. cbn [length]. assert (0 < weight x); [|lia]. apply (unfinished_weight final x Hx).
    destruct Hx as (Hst & _). unfold queue_statuses in Hst. rewrite !elem_of_cons, elem_of_nil in Hst. unfold finished in Hu. tauto.
  - specialize (Hlt ltac:(eauto)). destruct (mine x); cbn [length]; lia.
Qed.

Lemma spent_nonneg t : queue_ok final t → 0 <= spent t.
Proof using QueueRowLaws0.
  intros [_ Hok]. apply zsum_by_nonneg. intros r Hr. pose proof (weight_bound final r (Hok r Hr)). case_match; lia.
Qed.

(** The account's part of a tick: nothing is used up only when everything due has ended. *)
Lemma tick_spends clock now t t1 t2 t' l1 l2 l3 r : queue_ok final t →
  (∀ r, r ∈ t → held r → ∃ c, q_claimed_at r = Some c ∧ c <= now - 30 * 60000) → clock now →
  queue_run clock final t l1 t1 → queue_run clock final (reclaimStaleClaims [] clientId now 30 5 20 t1).2 l2 t2 →
  queue_run clock final (claim_due [] clientId now 20 t2).2 l3 t' →
  r ∈ t → mine r = true → q_due r <= now →
  spent t < spent t' ∨ ∃ r', r' ∈ t' ∧ q_id r' = q_id r ∧ finished r'.
Proof using QueueRowLaws0 Hf1 Hf2.
  intros Hok Hstale Hclk H1 H2 H3 Hr Hm Hd.
  assert (queue_run clock final t1 ([] ++ l2) t2) as H12.
  { eapply queue_run_app; [|exact H2]. apply queue_run_one. by apply step_reclaim. }
  pose proof (queue_run_app _ _ _ _ _ _ _ H1 H12) as H02.
  destruct (queue_run_ok clock final t l1 t1) as [Hok1 _]; [done..|].
  destruct (queue_run_ok clock final t _ t2 Hf1 Hf2 Hok H02) as [Hok2 _].
  assert (queue_ok final (reclaimStaleClaims [] clientId now 30 5 20 t1).2) as Hok1'
    by (by eapply queue_step_ok, (step_reclaim clock)).
  assert (queue_ok final (claim_due [] clientId now 20 t2).2) as Hok2' by (by eapply queue_step_ok, (step_claim clock)).
  pose proof (run_progress _ _ _ _ Hok H1) as [Hle1 Hh1]. pose proof (run_progress _ _ _ _ Hok1' H2) as [Hle2 _].
  pose proof (run_progress _ _ _ _ Hok1 H12) as [_ Hh12]. pose proof (run_progress _ _ _ _ Hok2' H3) as [Hle3 _].
  pose proof (step_progress clock t1 _ _ Hok1 (step_reclaim clock final [] clientId now t1 Hclk)) as [Hler _].
  pose proof (step_progress clock t2 _ _ Hok2 (step_claim clock final [] clientId now 20 t2 Hclk)) as [Hlec _].
  destruct (Z.lt_ge_cases (spent t) (spent t')) as [?|Hge]; [by left|right].
  assert (∀ x, x ∈ t1 → ¬ held x) as Hno1.
  { intros x Hx Hhx. destruct Hh1 as [?|Hh1]; [lia|].
    pose proof (reclaim_spends now t1 x Hok1 Hx Hhx ltac:(intros y Hy Hhy; apply Hstale; auto)). lia. }
  destruct (run_row clock t _ t2 r Hok H02 Hr) as (r2 & Hr2 & Hi2 & Ha2 & Hd2 & _).
  assert (mine r2 = true) as Hm2 by (unfold mine in *; by rewrite Ha2).
  assert (finished r2) as Hfin.
  { destruct Hok2 as [Hnd2 Hrows]. destruct (Hrows r2 Hr2) as (Hst & _). unfold queue_statuses in Hst. rewrite !elem_of_cons, elem_of_nil in Hst.
    destruct Hst as [Hst|[Hst|[Hst|[Hst|[]]]]]; [exfalso|exfalso|by right|by left].
    - pose proof (claim_spends now t2 r2 ltac:(by split) Hr2 Hm2 Hst ltac:(lia)). lia.
    - destruct Hh12 as [?|Hh12]; [lia|]. by apply (Hno1 r2); [apply Hh12|]. }
  assert (∃ l, queue_run clock final t2 l t') as [l H23].
  { eexists. eapply queue_run_app; [|exact H3]. by apply queue_run_one, step_claim. }
  destruct (run_row clock t2 l t' r2) as (r3 & Hr3 & Hi3 & _ & _ & Hf3); [done..|].
  exists r3. split_and!; [done|congruence|auto].
Qed.
End progress.

(** ** A worker started again and again *)

Section restarts.
Context {H : Sha256} {U : UuidSource} {W : Zod} {B : PgBoss} {T : IsoTime}.

(** Lives of the worker, none started after [hi]. *)
Inductive worker_lives (hi : Z) : db → db → Prop :=
  | lives_start s : worker_lives hi s s
  | lives_more s s1 boot s2 :
      worker_lives hi s s1 → boot <= hi → reads_back boot → worker_run boot s1 s2 → worker_lives hi s s2.

(** Lives of the worker from [from] to [until] with [n] ticks among them that
    commit while no other transaction holds a row and the client is active, each
    in a life started at least half an hour after the life of the one before; no
    life starts after that of the next such tick. *)
Inductive clear_ticks (clientId : string) (from : Z) (s : db) : nat → Z → db → Prop :=
  | ticks_start : clear_ticks clientId from s 0 from s
  | ticks_more n until s1 s2 boot sc e r s3 :
      clear_ticks clientId from s n until s1 → until + 30 * 60000 <= boot → reads_back boot →
      worker_lives boot s1 s2 →
      sc ∈ registered_schedules boot → sc_name sc = "freight.workflow.scan-commands.v1" →
      clientId ∈ active_accounts s2 →
      handleWorkflowCommandScanJob [] (sc_data sc) e s2 = Ok (r, s3) →
      clear_ticks clientId from s (S n) boot s3.

(** A loop seen from one of its elements. *)
Lemma for_each_through {A C} (P : db → db → Prop) (Q : A → db → db → Prop) (f : A → tx C) l e s ys s' x :
  (∀ s, P s s) → (∀ x s1 s2 s3, P s1 s2 → Q x s2 s3 → P s1 s3) →
  (∀ x s1 y s2, f x e s1 = Ok (y, s2) → Q x s1 s2) → x ∈ l → for_each f l e s = Ok (ys, s') →
  ∃ s1 s2, P s s1 ∧ Q x s1 s2 ∧ P s2 s'.
Proof using Type.
  intros Hrefl Hstep Hf Hx Hs.
  assert (∀ l s0 s ys s', P s0 s → for_each f l e s = Ok (ys, s') → P s0 s') as Hl.
  { intros l' s0 s1 ys' s2 Hp. apply (for_each_inv (P s0)); [|done]. intros y s3 z s4 _ Hp3 Hy. eauto. }
  enough (∀ s0, P s0 s → ∃ s1 s2, P s0 s1 ∧ Q x s1 s2 ∧ P s2 s') as He by (by apply He).
  revert s ys Hs. induction l as [|z l IH]; intros s ys Hs s0 Hp; [by apply elem_of_nil in Hx|]. cbn [for_each] in Hs. tx_inv.
  apply elem_of_cons in Hx as [->|Hx].
  - exists s. eexists. split_and!; [done|by eapply Hf|by eapply Hl].
  - eapply IH; [done|done|]. eauto.
Qed.

(** What the rounds of a scan's loop leave of the database. *)
Definition scan_moves (clock : Z → Prop) (s s' : db) : Prop :=
  sources s' = sources s ∧ ∃ log, queue_moves clock s log s'.

Lemma scan_moves_step (clock : Z → Prop) s1 s2 s3 log : scan_moves clock s1 s2 → sources s3 = sources s2 →
  queue_step clock "done" (commands_of s2) log (commands_of s3) → scan_moves clock s1 s3.
Proof using Type.
  intros [Hs [log1 Hm]] Hs3 Hstep. split; [congruence|]. eexists. eapply queue_run_app; [exact Hm|]. by apply queue_run_one.
Qed.

Lemma reclaim_through (clock : Z → Prop) locked a e s res s' c : clock a → c ∈ active_accounts s →
  reclaimStaleClaimsForActiveClients locked reclaimStaleWorkflowCommands_CONFIG a e s = Ok (res, s') →
  ∃ s1 s2, scan_moves clock s s1 ∧ commands_of s2 = (reclaimStaleClaims locked c a 30 5 20 (commands_of s1)).2 ∧
    sources s2 = sources s1 ∧ scan_moves clock s2 s'.
Proof using Type.
  intros Hclk Hc Hs. unfold reclaimStaleClaimsForActiveClients in Hs. tx_inv.
  match goal with Hl : for_each ?f _ _ _ = _ |- _ => set (round := f) in Hl; rename Hl into Hloop end.
  apply (for_each_through (scan_moves clock)
    (λ c s1 s2, commands_of s2 = (reclaimStaleClaims locked c a 30 5 20 (commands_of s1)).2 ∧ sources s2 = sources s1)
    round) with (x := c) in Hloop; [|..|done]; [by destruct Hloop as (s1 & s2 & ? & [? ?] & ?); exists s1, s2|..].
  - intros s0. split; [done|]. exists []. apply run_nil.
  - intros x s1 s2 s3 Hm [Hq Hsrc]. eapply scan_moves_step; [done|done|]. rewrite Hq. by apply step_reclaim.
  - intros x s1 y s2 Hround. subst round. cbv beta in Hround. tx_inv. unfold id in *. cbn [rc_get reclaimStaleWorkflowCommands_CONFIG] in *.
    match goal with Hi : reclaimStaleClaims _ _ _ _ _ _ _ = (?b, ?l) |- _ => apply (f_equal snd) in Hi; cbn [snd] in Hi; subst l end.
    revert Hround. apply (for_each_inv (λ s2, commands_of s2 = _ ∧ sources s2 = sources s1)); [|done].
    intros row s3 b s4 _ [Hr3 Hr4] Hemit. tx_inv. match goal with Hm : emit _ _ _ = _ |- _ =>
      pose proof (emit_moves _ _ _ _ _ Hm) as Hcm; apply emit_frame in Hm as (Hsrc & _) end. rewrite Hcm, Hsrc. done.
Qed.

Lemma schedule_through (clock : Z → Prop) locked a e s res s' c : clock a → c ∈ active_accounts s →
  scheduleWorkflowCommandJobs locked a e s = Ok (res, s') →
  ∃ s1 s2, scan_moves clock s s1 ∧ commands_of s2 = (claim_due locked c a 20 (commands_of s1)).2 ∧
    sources s2 = sources s1 ∧ scan_moves clock s2 s'.
Proof using Type.
  intros Hclk Hc Hs. unfold scheduleWorkflowCommandJobs in Hs. tx_inv.
  match goal with Hl : for_each ?f _ _ _ = _ |- _ => set (round := f) in Hl; rename Hl into Hloop end.
  apply (for_each_through (scan_moves clock)
    (λ c s1 s2, commands_of s2 = (claim_due locked c a 20 (commands_of s1)).2 ∧ sources s2 = sources s1)
    round) with (x := c) in Hloop; [|..|done]; [by destruct Hloop as (s1 & s2 & ? & [? ?] & ?); exists s1, s2|..].
  - intros s0. split; [done|]. exists []. apply run_nil.
  - intros x s1 s2 s3 Hm [Hq Hsrc]. eapply scan_moves_step; [done|done|]. rewrite Hq. by apply step_claim.
  - intros x s1 y s2 Hround. subst round. cbv beta in Hround. unfold claimDueWorkflowCommands in Hround. tx_inv. unfold id in *.
    match goal with Hi : claim_due _ _ _ _ _ = (?b, ?l) |- _ => apply (f_equal snd) in Hi; cbn [snd] in Hi; subst l end.
    revert Hround. apply (for_each_inv (λ s2, commands_of s2 = _ ∧ sources s2 = sources s1)); [|done].
    intros row s3 b s4 _ [Hr3 Hr4] Hq. rewrite (enqueue_moves _ _ _ _ _ _ _ _ Hq). apply enqueue_frame in Hq. by rewrite Hq.
Qed.

Lemma queue_run_mono `{QueueRow R} (clock clock' : Z → Prop) final (t : list R) log t' : (∀ a, clock a → clock' a) →
  queue_run clock final t log t' → queue_run clock' final t log t'.
Proof using Type.
  intros Hc. induction 1 as [t|t log t1 c t2 _ IH Hs]; [constructor|]. econstructor; [exact IH|]. destruct Hs; constructor; auto.
Qed.

Lemma worker_lives_moves hi s s' : worker_lives hi s s' → ∃ log, queue_moves (λ a, a <= hi) s log s'.
Proof using Type.
  induction 1 as [s|s s1 boot s2 _ [log IH] Hle Hb Hrun]; [exists []; apply run_nil|].
  apply worker_run_moves in Hrun as [log2 Hm]; [|done]. eexists. eapply queue_run_app; [exact IH|].
  eapply queue_run_mono; [|exact Hm]. by intros a ->.
Qed.

Lemma clear_tick_spends clientId boot s s' sc e res r : reads_back boot →
  queue_ok "done" (commands_of s) →
  (∀ c, c ∈ commands_of s → held clientId c → ∃ a, q_claimed_at c = Some a ∧ a <= boot - 30 * 60000) →
  sc ∈ registered_schedules boot → clientId ∈ active_accounts s →
  handleWorkflowCommandScanJob [] (sc_data sc) e s = Ok (res, s') →
  r ∈ commands_of s → mine clientId r = true → q_due r <= boot →
  spent clientId (commands_of s) < spent clientId (commands_of s') ∨
  ∃ r', r' ∈ commands_of s' ∧ q_id r' = q_id r ∧ finished "done" r'.
Proof using Type.
  intros Hb Hok Hstale Hsc Hact Hs Hr Hm Hd. unfold handleWorkflowCommandScanJob, handleReclaimAndScanJob in Hs.
  rewrite (parse_registered boot) in Hs by done. tx_inv. unfold internal in *. tx_inv.
  match goal with Hr1 : reclaimStaleClaimsForActiveClients _ _ ?a _ _ = _, Hr2 : scheduleWorkflowCommandJobs _ _ _ _ = _ |- _ =>
    rename a into boot; apply (reclaim_through (λ a, a = boot) _ _ _ _ _ _ clientId) in Hr1 as (u1 & u2 & [Hs1 [l1 H1]] & Hq1 & Hs2 & [Hs3 [l2 H2]]); [|done..];
    apply (schedule_through (λ a, a = boot) _ _ _ _ _ _ clientId) in Hr2 as (u3 & u4 & [_ [l3 H3]] & Hq2 & _ & [_ [l4 H4]]); [|done|by unfold active_accounts in *; congruence] end.
  unfold queue_moves in *. rewrite Hq1 in H2. rewrite Hq2 in H4.
  pose proof (queue_run_app _ _ _ _ _ _ _ H2 H3) as H23.
  exact (tick_spends (R:=workflow_command) "done" clientId ltac:(done) ltac:(done) (λ a, a = boot) boot _ _ _ _ _ _ _ r Hok Hstale eq_refl H1 H23 H4 Hr Hm Hd).
Qed.

Lemma clear_ticks_spent clientId from s n until s1 r : queue_ok "done" (commands_of s) →
  (∀ c, c ∈ commands_of s → held clientId c → ∃ a, q_claimed_at c = Some a ∧ a <= from) →
  r ∈ commands_of s → mine clientId r = true → q_due r <= from + 30 * 60000 →
  clear_ticks clientId from s n until s1 →
  from <= until ∧ (∃ log, queue_run (R:=workflow_command) (λ _, True) "done" (commands_of s) log (commands_of s1)) ∧
  (∀ c, c ∈ commands_of s1 → held clientId c → ∃ a, q_claimed_at c = Some a ∧ a <= until) ∧
  (Z.of_nat n <= spent clientId (commands_of s1) ∨ ∃ r', r' ∈ commands_of s1 ∧ q_id r' = q_id r ∧ finished "done" r').
Proof using Type.
  intros Hok Hclaims Hr Hm Hd. induction 1 as [|n until s1 s2 boot sc e res s3 _ IH Hle Hb Hlives Hsc _ Hact Hs].
  { split_and!; [lia|exists []; apply run_nil|done|]. left. by eapply (spent_nonneg (R:=workflow_command) "done"). }
  destruct IH as (Hfrom & [log0 H0] & Hcl & Hn). destruct (worker_lives_moves _ _ _ Hlives) as [log1 H1].
  destruct (tick_moves (λ a, a <= boot) [] (sc_data sc) boot e s2 res s3) as [log2 H2]; [by apply parse_registered|done|done|].
  unfold queue_moves in *. pose proof (queue_run_app _ _ _ _ _ _ _ H1 H2) as H12.
  assert (queue_ok "done" (commands_of s1)) as Hok1 by (by eapply (queue_run_ok (R:=workflow_command) (λ _, True) "done")).
  assert (queue_ok "done" (commands_of s2)) as Hok2 by (by eapply (queue_run_ok (R:=workflow_command) (λ a, a <= boot) "done")).
  assert (∀ c t', queue_run (R:=workflow_command) (λ a, a <= boot) "done" (commands_of s1) c t' → ∃ log, queue_run (R:=workflow_command) (λ _, True) "done" (commands_of s) log t') as Hfull.
  { intros c t' Hc. eexists. eapply queue_run_app; [exact H0|]. by eapply queue_run_mono; [|exact Hc]. }
  split_and!; [lia|by eapply Hfull| |].
  - intros c Hc Hh. destruct (run_claims (R:=workflow_command) "done" ltac:(done) ltac:(done) (λ a, a <= boot) boot (commands_of s1) _ (commands_of s3) c Hok1 ltac:(done) H12 Hc (proj2 Hh)) as [Hc1|?]; [|done].
    destruct (Hcl c Hc1 Hh) as (a & ? & ?). exists a. split; [done|lia].
  - destruct Hn as [Hn|(r' & Hr' & Hid & Hfin)].
    2:{ right. destruct (run_row (R:=workflow_command) "done" ltac:(done) ltac:(done) _ _ _ _ r' Hok1 H12 Hr') as (r2 & ? & Hid2 & _ & _ & Hf2).
        exists r2. split_and!; [done|congruence|auto]. }
    pose proof (run_progress (R:=workflow_command) "done" clientId ltac:(done) ltac:(done) _ _ _ _ Hok1 H1) as [Hle1 Hh1].
    pose proof (run_progress (R:=workflow_command) "done" clientId ltac:(done) ltac:(done) _ _ _ _ Hok2 H2) as [Hle2 _].
    destruct Hh1 as [?|Hh1]; [left; lia|].
    destruct (Hfull _ _ H1) as [log02 H02].
    destruct (run_row (R:=workflow_command) "done" ltac:(done) ltac:(done) _ _ _ _ r Hok H02 Hr) as (r2 & Hr2 & Hid2 & Ha2 & Hd2 & _).
    destruct (clear_tick_spends clientId boot s2 s3 sc e res r2) as [?|(r3 & Hr3 & Hid3 & Hf3)]; try done.
    + intros c Hc Hh. destruct (Hcl c (Hh1 c Hc Hh) Hh) as (a & ? & ?). exists a. split; [done|lia].
    + unfold mine in *. by rewrite Ha2.
    + cbn in *. lia.
    + left. lia.
    + right. exists r3. split_and!; [done|congruence|done].
Qed.

(** C36: commands end, by the worker's restarts.  The scans' clock is the start of
    the worker's life, so what drains the queue is that the worker is started
    again.  Take a well-formed command table in which the account's claims were made
    by [from], and a command of the account due by half an hour after [from].
    Let the worker live any number of lives, whose scans skip whatever rows other
    transactions hold, while commands are scheduled, completed or abandoned.
    Suppose that among its ticks, for each command the account has in the end, there
    are ten that commit while the account is active and no other transaction holds
    a row, each in a life started at least half an hour after the life of the one
    before ([from], for the first), with no life between them started later than
    the life of the second.  Then the command is still in the table and has ended:
    done, or failed. *)
Theorem restarted_worker_drains clientId from s n until s1 hi s' r :
  queue_ok "done" (commands_of s) →
  (∀ c, c ∈ commands_of s → held clientId c → ∃ a, wc_claimed_at c = Some a ∧ a <= from) →
  clear_ticks clientId from s n until s1 → worker_lives hi s1 s' →
  (10 * length (List.filter (mine clientId) (commands_of s')) <= n)%nat →
  r ∈ commands_of s → mine clientId r = true → wc_run_after r <= from + 30 * 60000 →
  ∃ r', r' ∈ commands_of s' ∧ wc_id r' = wc_id r ∧ (wc_status r' = "done" ∨ wc_status r' = "failed").
Proof using Type.
  intros Hok Hclaims Hticks Hlives Hlen Hr Hm Hd.
  destruct (clear_ticks_spent clientId from s n until s1 r Hok Hclaims Hr Hm Hd Hticks) as (_ & [log H0] & _ & Hn).
  destruct (worker_lives_moves _ _ _ Hlives) as [log1 H1].
  assert (queue_ok "done" (commands_of s1)) as Hok1 by (by eapply (queue_run_ok (R:=workflow_command) (λ _, True) "done")).
  assert (queue_ok "done" (commands_of s')) as Hok' by (by eapply (queue_run_ok (R:=workflow_command) (λ a, a <= hi) "done")).
  destruct Hn as [Hn|(r1 & Hr1 & Hid1 & Hf1)].
  - destruct (run_row (R:=workflow_command) "done" ltac:(done) ltac:(done) _ _ _ _ r Hok H0 Hr) as (r1 & Hr1 & Hid1 & Ha1 & _).
    destruct (run_row (R:=workflow_command) "done" ltac:(done) ltac:(done) _ _ _ _ r1 Hok1 H1 Hr1) as (r2 & Hr2 & Hid2 & Ha2 & _).
    pose proof (run_progress (R:=workflow_command) "done" clientId ltac:(done) ltac:(done) _ _ _ _ Hok1 H1) as [Hle _].
    destruct (decide (wc_status r2 = "done")); [exists r2; split_and!; [done|cbn in *; congruence|auto]|].
    destruct (decide (wc_status r2 = "failed")); [exists r2; split_and!; [done|cbn in *; congruence|auto]|].
    destruct (spent_bound (R:=workflow_command) "done" clientId (commands_of s') Hok') as [_ Hlt].
    assert (∃ r, r ∈ commands_of s' ∧ mine clientId r = true ∧ ¬ finished "done" r) as He; [|specialize (Hlt He); lia].
    exists r2. split_and!; [done|unfold mine in *; by rewrite Ha2, Ha1|by intros [?|?]].
  - destruct (run_row (R:=workflow_command) "done" ltac:(done) ltac:(done) _ _ _ _ r1 Hok1 H1 Hr1) as (r2 & Hr2 & Hid2 & _ & _ & Hf2).
    exists r2. split_and!; [done|cbn in *; congruence|]. by apply Hf2.
Qed.
End restarts.

(** ** The scans at work *)

(** A reader of the instants below: a start, and twenty restarts every 2,000 seconds. *)
Definition restart_at (k : nat) : Z := 2000000 * Z.of_nat k.
Definition demo_iso : IsoTime := {|
  iso_date s := None;
  iso_datetime s := (λ t, t * 1000) <$> find (λ t, bool_decide (toISOString t = s)) (1000 :: map restart_at (seq 1 20));
|}.

Section witnesses.
#[local] Existing Instances demo_sha demo_uuid demo_zod memory_boss demo_iso.

(** An account with a command due now, one due tomorrow and one just claimed. *)
Definition scan_db : db :=
  upd_sources (λ t, {| accounts := [{| acc_id := demo_id 0; acc_is_active := true |}]; invoices := []; audit_runs := [];
                         charge_facts := []; gate_failures := [] |})
    (upd_commands (λ _, [mkCommand (demo_id 5) (demo_id 0) (demo_id 1) "deliver_dispute" [] 500 "pending" 0 None;
                         mkCommand (demo_id 6) (demo_id 0) (demo_id 1) "deliver_dispute" [] 86400500 "pending" 0 None;
                         mkCommand (demo_id 7) (demo_id 0) (demo_id 1) "deliver_dispute" [] 400 "claimed" 1 (Some 900)]) workflow_db).
Definition scanned_db : db :=
  tx_state (handleWorkflowCommandScanJob [] (mkScan 1 (toISOString 1000)) demo_env scan_db) scan_db.
Definition late_command : workflow_command :=
  mkCommand (demo_id 6) (demo_id 0) (demo_id 1) "deliver_dispute" [] 86400500 "pending" 0 None.

Lemma scheduled_scans_frozen_witness : late_command ∈ commands_of scanned_db ∧
  map wc_status (commands_of scanned_db) = ["claimed"; "pending"; "claimed"].
Proof.
  split; [|vm_compute; reflexivity].
  refine (proj1 (scheduled_scans_frozen 1000 scan_db scanned_db late_command _ _ _ _) _ _).
  - vm_compute. reflexivity.
  - split; [apply (bool_decide_unpack _); vm_compute; exact I|].
    intros r Hr. apply (Forall_forall (queue_row_ok "done") (commands_of scan_db)); [|exact Hr].
    repeat (constructor; [unfold queue_row_ok, queue_statuses; cbn; rewrite !elem_of_cons; split_and!; auto; try done; lia|]). constructor.
  - eapply (worker_tick 1000 scan_db scan_db (mkSchedule "freight.workflow.scan-commands.v1" WORKFLOW_COMMAND_SCAN_CRON (mkScan 1 (toISOString 1000))) [] demo_env).
    + constructor.
    + right. by left.
    + reflexivity.
    + apply tx_ran. vm_compute. reflexivity.
  - right. by left.
  - reflexivity.
  - vm_compute. reflexivity.
Defined.

(** A worker started twenty times, every 2,000 seconds, over two commands of one
    account; in its second life it completes one of them, the other is abandoned
    five times. *)
#[local] Abbreviation restart_tick k := (handleWorkflowCommandScanJob [] (mkScan 1 (toISOString (restart_at k))) demo_env).
#[local] Abbreviation finish_first := (completeWorkflowCommand (demo_id 0) (demo_id 5) demo_env).
Definition restart_start : db :=
  upd_commands (λ _, [demo_command 8 "pending" 0 None; demo_command 5 "claimed" 3 (Some 10)]) scan_db.
Definition meanwhile (k : nat) (s : db) : db := if bool_decide (k = 2%nat) then tx_state (finish_first s) s else s.
Fixpoint restarted (k : nat) : db :=
  match k with
  | O => restart_start
  | S k' => let s := meanwhile k' (restarted k') in tx_state (restart_tick k s) s
  end.
Definition ran {A} (r : result handler_error (A * db)) : bool := match tx_value r with Some _ => true | None => false end.
Lemma ran_ok {A} (r : result handler_error (A * db)) s : ran r = true → ∃ a, r = Ok (a, tx_state r s).
Proof. unfold ran. destruct (tx_value r) as [a|] eqn:E; [|done]. exists a. by apply tx_ran. Qed.
(** One more life: its completions, then a tick. *)
Lemma one_more_life {H : Sha256} {U : UuidSource} {W : Zod} {B : PgBoss} {T : IsoTime} clientId from s k until s1 s2 boot e res s3 :
  clear_ticks clientId from s k until s1 → until + 30 * 60000 <= boot → reads_back boot → clientId ∈ active_accounts s2 →
  (s2 = s1 ∨ ∃ c i e r, completeWorkflowCommand c i e s1 = Ok (r, s2)) →
  handleWorkflowCommandScanJob [] (mkScan 1 (toISOString boot)) e s2 = Ok (res, s3) →
  clear_ticks clientId from s (S k) boot s3.
Proof.
  intros Hk Hle Hb Ha Hc Ht.
  apply (ticks_more _ _ _ k until s1 s2 boot (mkSchedule "freight.workflow.scan-commands.v1" WORKFLOW_COMMAND_SCAN_CRON (mkScan 1 (toISOString boot))) e res s3);
    [done..| |right; by left|done|done|done].
  destruct Hc as [->|(c & i & e' & r & Hc)]; [constructor|].
  apply (lives_more _ s1 s1 boot); [constructor|done|done|]. eapply (worker_complete boot s1 s1); [constructor|exact Hc].
Qed.
Lemma one_life k s until s1 : clear_ticks (demo_id 0) 10 s k until s1 →
  until + 30 * 60000 <= restart_at (S k) → reads_back (restart_at (S k)) → demo_id 0 ∈ active_accounts (meanwhile k s1) →
  ran (restart_tick (S k) (meanwhile k s1)) = true → ran (finish_first s1) = true →
  clear_ticks (demo_id 0) 10 s (S k) (restart_at (S k)) (tx_state (restart_tick (S k) (meanwhile k s1)) (meanwhile k s1)).
Proof.
  intros Hk Hle Hb Ha [res Ht]%(ran_ok _ (meanwhile k s1)) [b Hc]%(ran_ok _ s1).
  refine (one_more_life _ _ _ _ _ _ _ _ _ _ _ Hk Hle Hb Ha _ Ht).
  unfold meanwhile. destruct (bool_decide _); [right; do 4 eexists; exact Hc|by left].
Qed.

Lemma lives_ok : forallb (λ k,
  (bool_decide (iso_datetime (toISOString (restart_at (S k))) = Some (restart_at (S k) * 1000)) &&
   bool_decide (demo_id 0 ∈ active_accounts (meanwhile k (restarted k)))) &&
  (ran (restart_tick (S k) (meanwhile k (restarted k))) && ran (finish_first (restarted k)))) (seq 0 20) = true.
Proof. vm_compute. reflexivity. Qed.
Lemma restart_clear_ticks n : (n <= 20)%nat →
  clear_ticks (demo_id 0) 10 restart_start n (match n with O => 10 | _ => restart_at n end) (restarted n).
Proof.
  induction n as [|n IH]; intros Hn; [constructor|].
  destruct (andb_prop _ _ (proj1 (forallb_forall _ _) lives_ok n (proj2 (in_seq 20 0 n) ltac:(lia)))) as [H1 H2].
  apply andb_prop in H1 as [Hb%bool_decide_eq_true Ha%bool_decide_eq_true]. apply andb_prop in H2 as [Ht Hc].
  refine (one_life n restart_start _ (restarted n) (IH ltac:(lia)) _ Hb Ha Ht Hc). unfold restart_at. destruct n; lia.
Qed.

Lemma restarted_worker_drains_witness :
  (∃ r', r' ∈ commands_of (restarted 20) ∧ wc_id r' = demo_id 8 ∧ (wc_status r' = "done" ∨ wc_status r' = "failed")) ∧
  map wc_status (commands_of (restarted 2)) = ["claimed"; "claimed"] ∧
  map wc_status (commands_of (restarted 20)) = ["failed"; "done"].
Proof.
  split; [|split; vm_compute; reflexivity].
  refine (restarted_worker_drains (demo_id 0) 10 restart_start 20 (restart_at 20) (restarted 20) 0 (restarted 20)
    (demo_command 8 "pending" 0 None) _ _ (restart_clear_ticks 20 _) _ _ _ _ _).
  - split; [apply (bool_decide_unpack _); vm_compute; exact I|].
    intros r [->|[->|Hr]%elem_of_cons]%elem_of_cons; [..|by apply elem_of_nil in Hr];
      unfold queue_row_ok, queue_statuses; cbn; rewrite !elem_of_cons; split_and!; auto; try done; lia.
  - intros c [->|[->|Hc]%elem_of_cons]%elem_of_cons [_ Hs]; [discriminate Hs| |by apply elem_of_nil in Hc].
    exists 10. split; [reflexivity|lia].
  - lia.
  - constructor.
  - vm_compute. lia.
  - by left.
  - vm_compute. reflexivity.
  - cbn. lia.
Defined.
End witnesses.
