(* ===== verification/RuleTypes.v ===== *)
(** Types of rules: a checker for the predicate AST of
    [src/src/modules/rule-engine/ast.ts], its soundness for the interpreter
    ([interpreter.ts]), and the types of the facts of [buildFactBundle], under
    which every criterion of the standard and contract rubrics is well typed.  The
    code has no checker: it finds an ill-typed operand when it evaluates it. *)

From S2P Require Import Prelude JsText Decimal Json Interpreter AstJson AuditLedger Rubrics Facts Evaluator.

(** ** Types *)

Inductive ty : Set := TyNumeric | TyBool | TyString.
#[export] Instance ty_eq_dec : EqDecision ty.
Proof. solve_decision. Defined.

(** Money is a number with a currency that no operation reads. *)
Definition fact_type (v : FactValue) : ty :=
  match v with
  | FactNumber _ | FactMoney _ _ | FactDecimal _ => TyNumeric
  | FactBool _ => TyBool
  | FactString _ => TyString
  end.
Definition value_type (v : EvalValue) : option ty :=
  match v with
  | VNumber _ | VMoney _ _ => Some TyNumeric
  | VBool _ => Some TyBool
  | VString _ => Some TyString
  | VUnassessable _ => None
  end.
Abbreviation fact_types := (gmap string ty).
Definition facts_typed (Γ : fact_types) (facts : FactBundle) : Prop :=
  ∀ k v t, facts !! k = Some v → Γ !! k = Some t → fact_type v = t.

Section types.
Context {D : DecimalJs}.
Implicit Types (Γ : fact_types) (facts : FactBundle) (n : AstNode).

(** A divisor that is known not to be zero. *)
Definition nonzero (n : AstNode) : bool :=
  match n with
  | AstLit (LitNumber x) => match safeDecimal (inl x) with Some d => negb (d_isZero d) | None => false end
  | _ => false
  end.
Definition arity_ok (op : ArithOp) (args : list AstNode) : bool :=
  match op, args with
  | OpAbs, _ :: _ => true
  | OpDiv, _ :: ((_ :: _) as rest) => forallb nonzero rest
  | (OpAdd | OpSub | OpMul), _ :: _ :: _ => true
  | _, _ => false
  end.
Definition compare_ok (op : CompareOp) (tolerance : option string) (l r : ty) : bool :=
  match op with
  | CmpEq | CmpNe => bool_decide (l = r)
  | CmpApprox => bool_decide (l = TyNumeric) && bool_decide (r = TyNumeric) &&
                 defined (new_Decimal (default "0" tolerance))
  | _ => bool_decide (l = TyNumeric) && bool_decide (r = TyNumeric)
  end.

(** The type of a rule whose facts have the types [Γ]. *)
Fixpoint typed Γ n : option ty :=
  match n with
  | AstLit (LitNumber x) => _ ← safeDecimal (inl x); Some TyNumeric
  | AstLit (LitString _) => Some TyString
  | AstLit (LitBool _) => Some TyBool
  | AstMoney amount _ => _ ← safeDecimal (inr amount); Some TyNumeric
  | AstFactRef key => Γ !! key
  | AstArith op args =>
      guard (forallb (λ a, bool_decide (typed Γ a = Some TyNumeric)) args && arity_ok op args = true);;
      Some TyNumeric
  | AstCompare op l r tolerance =>
      tl ← typed Γ l; tr ← typed Γ r; guard (compare_ok op tolerance tl tr = true);; Some TyBool
  | AstLogic op args =>
      guard (forallb (λ a, bool_decide (typed Γ a = Some TyBool)) args &&
             match op with LogNot => bool_decide (length args = 1%nat) | _ => true end = true);; Some TyBool
  | AstRequire _ body => typed Γ body
  end.

(** The evidence a rule needs: a fact with a value its evaluation can read. *)
Definition readable facts (key : string) : bool :=
  match facts !! key with
  | None | Some (FactString "") => false
  | Some (FactNumber n) => defined (safeDecimal (inl n))
  | Some (FactDecimal t) | Some (FactMoney t _) => defined (safeDecimal (inr t))
  | Some _ => true
  end.
Fixpoint complete facts n : bool :=
  match n with
  | AstLit _ | AstMoney _ _ => true
  | AstFactRef key => readable facts key
  | AstArith _ args | AstLogic _ args => forallb (complete facts) args
  | AstCompare _ l r _ => complete facts l && complete facts r
  | AstRequire key body => fact_present facts key && complete facts body
  end.

(** What a rule of type [t] evaluates to. *)
Definition gives facts (t : ty) (n : AstNode) (ev : EvalNode) : Prop :=
  evaluate n facts = Ok ev ∧
  if complete facts n then value_type (ev_value ev) = Some t else isUnassessable (ev_value ev) = true.

Lemma typed_assessable v t : value_type v = Some t → isUnassessable v = false.
Proof using Type. by destruct v. Qed.

(** The children of a node, all of type [t]. *)
Lemma gives_args facts t args :
  Forall (λ a, ∃ ev, gives facts t a ev) args →
  ∃ evs, map_res (λ a, evaluate a facts) args = Ok evs ∧ Forall2 (gives facts t) args evs ∧
    if forallb (complete facts) args then Forall (λ c, value_type (ev_value c) = Some t) evs
    else existsb (λ c, isUnassessable (ev_value c)) evs = true.
Proof using Type.
  induction 1 as [|a args (ev & Hev & Hg) _ (evs & Hevs & Hall & IH)]; [exists []; by repeat constructor|].
  exists (ev :: evs). rewrite map_res_cons, Hev, bind_ret_l, Hevs, bind_ret_l.
  split; [done|]. split; [by constructor|]. simpl.
  destruct (complete facts a); simpl; [|by rewrite Hg].
  case_match; [by constructor|]. by rewrite IH, orb_true_r.
Qed.

Lemma eval_logic_typed op evs : Forall (λ c, value_type (ev_value c) = Some TyBool) evs →
  (op = LogNot → length evs = 1%nat) → value_type (eval_logic op evs) = Some TyBool.
Proof using Type.
  intros Hall Hnot. assert (∃ bs, mapM (λ c, bool_of (ev_value c)) evs = Some bs) as [bs Hbs].
  { clear Hnot. induction Hall as [|c evs Hc _ [bs IH]]; [by exists []|].
    simpl. destruct (ev_value c); try done. simpl. rewrite IH. by eexists. }
  destruct op; simpl; [by rewrite Hbs..|]. specialize (Hnot eq_refl).
  destruct evs as [|c []]; try done. apply Forall_cons in Hall as [Hc _]. by destruct (ev_value c).
Qed.

Lemma eval_logic_incomplete op evs : existsb (λ c, isUnassessable (ev_value c)) evs = true →
  (op = LogNot → length evs = 1%nat) → isUnassessable (eval_logic op evs) = true.
Proof using Type.
  intros Hex Hnot. assert (op ≠ LogNot → isUnassessable (eval_logic op evs) = true) as Hop.
  { intros Hop. apply not_false_iff_true. intros Hs%eval_logic_strict; [|done].
    apply existsb_exists in Hex as (c & Hc%list_elem_of_In & Hu). rewrite Forall_forall in Hs.
    specialize (Hs c Hc). cbn in Hs. congruence. }
  destruct op; [by apply Hop..|]. specialize (Hnot eq_refl). destruct evs as [|c []]; try done.
  simpl in *. rewrite orb_false_r in Hex. by destruct (ev_value c).
Qed.
End types.

Section soundness.
Context {D : DecimalJs} {L : DecimalLaws D}.
Implicit Types (Γ : fact_types) (facts : FactBundle) (n : AstNode).

Lemma numeric_decimal v : value_type v = Some TyNumeric → value_ok v → ∃ d, toDecimal v = Ok (Some d).
Proof using Type.
  destruct v as [s|s c| | |]; try done; intros _ [d Hd]; exists d; simpl; unfold decimal_or_throw; by rewrite Hd.
Qed.

Lemma nonzero_decimal facts n ev d : nonzero n = true → evaluate n facts = Ok ev →
  toDecimal (ev_value ev) = Ok (Some d) → d_isZero d = false.
Proof using L.
  destruct n as [[x| |]| | | | | |]; try done. unfold nonzero.
  destruct (safeDecimal (inl x)) as [e|] eqn:He; [|done]. intros Hz Hev.
  assert (ev_value ev = VNumber (d_toString e)) as ->.
  { cbn [evaluate] in Hev. assert (ev = mkEval (AstLit (LitNumber x)) (eval_lit (LitNumber x)) None) as -> by congruence.
    unfold ev_value, eval_lit. by rewrite He. }
  assert (d_isFinite e = true) as Hf by by apply (safeDecimal_finite (inl x)).
  destruct (law_toString e) as (d' & Hd' & Hf' & Hv). rewrite Hf in Hf'. specialize (Hv Hf).
  unfold toDecimal, decimal_or_throw. rewrite Hd', bind_ret_l. intros [= <-].
  apply negb_true_iff in Hz. apply not_true_iff_false in Hz. apply not_true_iff_false.
  rewrite law_zero in Hz |- * by done. by rewrite Hv.
Qed.

Lemma eval_arith_incomplete op evs : existsb (λ c, isUnassessable (ev_value c)) evs = true →
  eval_arith op evs = Ok (VUnassessable "operand unassessable").
Proof using Type. intros He. unfold eval_arith. by rewrite He. Qed.

Lemma divisors_nonzero args nums :
  Forall2 (λ a d, nonzero a = true → d_isZero d = false) args nums →
  forallb nonzero args = true → existsb d_isZero nums = false.
Proof using Type.
  induction 1 as [|a d args nums Hz _ IH]; simpl; [done|].
  intros [Ha Has]%andb_true_iff. by rewrite Hz, IH.
Qed.

Lemma eval_arith_typed facts op args evs :
  Forall2 (gives facts TyNumeric) args evs → Forall (λ c, value_type (ev_value c) = Some TyNumeric) evs →
  arity_ok op args = true → ∃ v, eval_arith op evs = Ok v ∧ value_type v = Some TyNumeric.
Proof using L.
  intros Hg Hnum Har. unfold eval_arith.
  replace (existsb (λ c, isUnassessable (ev_value c)) evs) with false.
  2: { symmetry. apply not_true_iff_false. intros (c & Hc%list_elem_of_In & Hu)%existsb_exists.
       rewrite Forall_forall in Hnum. specialize (Hnum c Hc). apply typed_assessable in Hnum. congruence. }
  assert (∃ nums, map_res (λ c, toDecimal (ev_value c)) evs = Ok (map Some nums) ∧
    Forall2 (λ a d, nonzero a = true → d_isZero d = false) args nums) as (nums & -> & Hnz).
  { clear Har. revert Hnum. induction Hg as [|a ev args evs [Ha _] _ IH]; [by exists []|].
    intros [Hv Hvs]%Forall_cons. destruct (IH Hvs) as (nums & Hn & Hz).
    destruct (numeric_decimal (ev_value ev)) as [d Hd]; [done|by eapply evaluate_value_ok|].
    exists (d :: nums). rewrite map_res_cons, Hd, bind_ret_l, Hn, bind_ret_l. split; [done|].
    constructor; [|done]. intros Hza. by eapply nonzero_decimal. }
  rewrite bind_ret_l. assert (mapM id (map Some nums) = Some nums) as ->.
  { clear. induction nums as [|d nums IH]; [done|]. simpl. by rewrite IH. }
  destruct Hnz as [|a d args nums _ Hnz]; [by destruct op|].
  destruct op; simpl in *; [destruct Hnz; try done; simpl; by eexists..| | by eexists].
  destruct Hnz as [|a2 d2 args nums Hz2 Hnz]; [done|].
  assert (existsb d_isZero (d2 :: nums) = false) as ->; [|simpl; by eexists].
  apply (divisors_nonzero (a2 :: args)); [by constructor|done].
Qed.
Lemma eval_compare_typed op tol l r tl tr : value_ok (ev_value l) → value_ok (ev_value r) →
  value_type (ev_value l) = Some tl → value_type (ev_value r) = Some tr → compare_ok op tol tl tr = true →
  ∃ b, eval_compare op tol l r = Ok (VBool b).
Proof using Type.
  intros Hl Hr Htl Htr Hok. unfold eval_compare.
  rewrite (typed_assessable _ _ Htl), (typed_assessable _ _ Htr). cbn [orb].
  destruct (decide (tl = TyNumeric ∧ tr = TyNumeric)) as [[-> ->]|Hne].
  - destruct (numeric_decimal _ Htl Hl) as [a ->], (numeric_decimal _ Htr Hr) as [b ->]. rewrite !bind_ret_l.
    destruct op; try by eexists. simpl in Hok. unfold decimal_or_throw.
    destruct (new_Decimal (default "0" tol)) as [t|]; [by eexists|done].
  - assert ((op = CmpEq ∨ op = CmpNe) ∧ tl = tr) as [Hop ->].
    { destruct op; simpl in Hok; rewrite ?andb_true_iff, ?bool_decide_eq_true in Hok; naive_solver. }
    assert (tr ≠ TyNumeric) as Hn by naive_solver.
    destruct (ev_value l), (ev_value r); simplify_eq/=; try done; destruct Hop as [-> | ->]; by eexists.
Qed.

Lemma eval_fact_typed Γ facts k t : facts_typed Γ facts → Γ !! k = Some t →
  if readable facts k then value_type (eval_fact k facts) = Some t else isUnassessable (eval_fact k facts) = true.
Proof using Type.
  intros Hty Hk. unfold readable, eval_fact. destruct (facts !! k) as [v|] eqn:Hv; [|done].
  pose proof (Hty k v t Hv Hk) as <-. destruct v as [x|[]|b|a c|x]; try done; by destruct (safeDecimal _).
Qed.

Lemma checked_args Γ facts t args :
  Forall (λ a, ∀ t, typed Γ a = Some t → ∃ ev, gives facts t a ev) args →
  forallb (λ a, bool_decide (typed Γ a = Some t)) args = true → Forall (λ a, ∃ ev, gives facts t a ev) args.
Proof using Type.
  induction 1 as [|a args Ha _ IH]; simpl; [by constructor|].
  intros [Ht Hts]%andb_true_iff. constructor; [|by apply IH]. apply Ha. by apply bool_decide_eq_true in Ht.
Qed.

(** Well-typed rules cannot go wrong: on facts of the assumed types the
    evaluation throws nothing, and its value has the rule's type exactly when the
    rule's evidence is complete; otherwise it is UNASSESSABLE. *)
Lemma typed_gives Γ facts n t : facts_typed Γ facts → typed Γ n = Some t → ∃ ev, gives facts t n ev.
Proof using L.
  intros Hty. revert t. induction n as [v|a c|k|op args IH|op l r tol IHl IHr|op args IH|k b IH] using AstNode_ind';
    intros t Ht.
  - eexists. split; [reflexivity|]. destruct v as [x| |]; simplify_eq/=; [|done..].
    apply bind_Some in Ht as (d & -> & [= <-]). done.
  - eexists. split; [reflexivity|]. cbn in *. unfold eval_money, safeDecimal in *.
    apply bind_Some in Ht as (d & -> & [= <-]). done.
  - eexists. split; [reflexivity|]. by eapply eval_fact_typed.
  - cbn [typed] in Ht. case_guard as Hg; [|done]. injection Ht as <-. apply andb_true_iff in Hg as [Hargs Har].
    destruct (gives_args facts TyNumeric args) as (evs & Hevs & Hall & Hc).
    { by eapply checked_args. }
    unfold gives. cbn [evaluate complete]. rewrite Hevs, bind_ret_l. case_match.
    + destruct (eval_arith_typed facts op args evs) as (v & -> & Hv); [done..|]. by eexists.
    + rewrite eval_arith_incomplete by done. by eexists.
  - cbn [typed] in Ht. destruct (typed Γ l) as [tl|] eqn:Hl, (typed Γ r) as [tr|] eqn:Hr; try done.
    simpl in Ht. case_guard as Hg; [|done]. injection Ht as <-.
    destruct (IHl _ eq_refl) as (el & Hel & Hcl), (IHr _ eq_refl) as (er & Her & Hcr).
    unfold gives. rewrite evaluate_compare, Hel, Her, !bind_ret_l. cbn [complete].
    destruct (complete facts l), (complete facts r); cbn [andb].
    + destruct (eval_compare_typed op tol el er tl tr) as [b ->]; [by eapply evaluate_value_ok..|done|done|done|].
      by eexists.
    + unfold eval_compare. rewrite Hcr, orb_true_r. by eexists.
    + unfold eval_compare. rewrite Hcl. by eexists.
    + unfold eval_compare. rewrite Hcl. by eexists.
  - cbn [typed] in Ht. case_guard as Hg; [|done]. injection Ht as <-. apply andb_true_iff in Hg as [Hargs Har].
    destruct (gives_args facts TyBool args) as (evs & Hevs & Hall & Hc).
    { by eapply checked_args. }
    assert (op = LogNot → length evs = 1%nat) as Hlen.
    { intros ->. rewrite <- (Forall2_length _ _ _ Hall). by apply bool_decide_eq_true in Har. }
    unfold gives. cbn [evaluate complete]. rewrite Hevs, bind_ret_l. eexists. split; [done|]. cbn [ev_value].
    case_match; [by apply eval_logic_typed|by apply eval_logic_incomplete].
  - cbn [typed] in Ht. destruct (IH _ Ht) as (ev & Hev & Hc). unfold gives. cbn [evaluate complete].
    destruct (fact_present facts k); [rewrite Hev, bind_ret_l|]; by eexists.
Qed.

(** C39: well-typed rules cannot go wrong: on facts of the types it was checked
    with, a rule of type [t] evaluates without a throw, to a value of type [t] when
    its evidence is complete and to UNASSESSABLE when it is not, and for no other
    reason: never an operand of the wrong type, too few operands, a division by
    zero or a malformed tolerance. *)
Theorem well_typed_rules_progress Γ facts n t : facts_typed Γ facts → typed Γ n = Some t →
  ∃ ev, evaluate n facts = Ok ev ∧
    if complete facts n then value_type (ev_value ev) = Some t
    else verdict ev = UNASSESSABLE ∧ ∃ reason, ev_value ev = VUnassessable reason.
Proof using L.
  intros Hty (ev & Hev & Hg)%(typed_gives Γ facts); [|done]. exists ev. split; [done|].
  case_match; [done|]. unfold verdict. destruct (ev_value ev); try done. split; [done|by eexists].
Qed.
End soundness.

(** ** The types of the invoice's facts *)

Definition bundle_type_list : list (string * ty) :=
  [("declared_total", TyNumeric); ("line_sum", TyNumeric); ("all_currencies_stated", TyBool);
   ("all_amounts_stated", TyBool); ("charge_count", TyNumeric); ("quarantined_count", TyNumeric);
   ("has_fuel_category", TyBool); ("duplicate_invoice", TyBool); ("shipment_reference_match", TyBool);
   ("rate_basis_arithmetic_matches", TyBool); ("required_210_invoice_number", TyBool);
   ("required_210_shipment_id", TyBool); ("required_210_scac", TyBool); ("required_310_invoice_number", TyBool);
   ("required_310_reference", TyBool); ("required_310_container", TyBool); ("required_310_vessel_voyage", TyBool);
   ("required_310_ports", TyBool); ("required_310_charge_identity", TyBool); ("valid_310_currency_codes", TyBool);
   ("consistent_310_charge_currencies", TyBool); ("suspicious_missing_data_count", TyNumeric)].
Definition linehaul_type_list : list (string * ty) :=
  [("billed_linehaul", TyNumeric); ("contract_linehaul_rate", TyNumeric); ("linehaul_currencies_match", TyBool)].
Definition bundle_types : fact_types := list_to_map (bundle_type_list ++ linehaul_type_list).

Section bundle.
Context {D : DecimalJs} {L : DecimalLaws D} {C : Collator} {H : Sha256}.

Lemma invoice_facts_typed inv contract sum rb :
  Forall2 (λ (f : string * option FactValue) (g : string * ty), f.1 = g.1 ∧ ∀ v, f.2 = Some v → fact_type v = g.2)
    (invoice_facts inv contract sum rb) bundle_type_list.
Proof using Type.
  unfold invoice_facts, bundle_type_list, unless_set.
  repeat (constructor; [split; [reflexivity|]; cbn [fst snd]; intros v Hv;
    repeat first [case_match|apply fmap_Some in Hv as (?&_&->)]; simplify_eq/=; reflexivity|]). constructor.
Qed.
Lemma invoice_fact_typed inv contract sum rb k t : (k, t) ∈ bundle_type_list →
  ∃ v, map_get (invoice_facts inv contract sum rb) k = Some v ∧ ∀ x, v = Some x → fact_type x = t.
Proof using Type.
  intros Hk. pose proof (invoice_facts_typed inv contract sum rb) as Hall.
  assert ((invoice_facts inv contract sum rb).*1 = bundle_type_list.*1) as Hkeys by done.
  apply list_elem_of_lookup in Hk as [i Hi]. destruct (Forall2_lookup_r _ _ _ _ _ Hall Hi) as ((k' & v) & Hv & Hkv & Ht).
  cbn in Hkv, Ht. subst k'. exists v. split; [|done]. apply map_get_Some; [|by eapply list_elem_of_lookup_2].
  rewrite Hkeys. by apply (bool_decide_unpack _).
Qed.

Lemma linehaul_fact_typed inv rate facts k t : linehaul_facts inv rate = Ok facts → (k, t) ∈ linehaul_type_list →
  ∃ v, map_get facts k = Some v ∧ ∀ x, v = Some x → fact_type x = t.
Proof using Type.
  unfold linehaul_facts. intros (billed & Hb & [= <-])%bind_Ok Hk.
  unfold linehaul_type_list in Hk. rewrite !elem_of_cons, elem_of_nil in Hk.
  destruct Hk as [[= -> ->]|[[= -> ->]|[[= -> ->]|[]]]]; eexists; (split; [reflexivity|]); intros x Hx.
  - subst billed. case_match; [|done]. by apply bind_Ok in Hb as (total & _ & [= <-]).
  - by apply fmap_Some in Hx as (r & _ & ->).
  - case_match; by simplify_eq.
Qed.

Lemma buildFactBundle_typed inv contract facts :
  buildFactBundle inv contract = Ok facts → facts_typed bundle_types facts.
Proof using Type.
  intros (rb & d & _ & _ & Hget & Hlh)%buildFactBundle_inv k v t Hv Ht.
  apply elem_of_list_to_map_2, elem_of_app in Ht as [Ht|Ht].
  - assert (is_external k = false) as He.
    { apply (Forall_forall (λ e : string * ty, is_external e.1 = false) bundle_type_list) in Ht; [done|]. by repeat constructor. }
    destruct (invoice_fact_typed inv contract (d_toFixed 4 d) rb k t Ht) as (x & Hx & Hxt).
    rewrite (Hget k x Hx He) in Hv. by apply Hxt.
  - destruct (linehaulRate contract) as [rate|].
    + destruct Hlh as (lf & Hlf & Hl). destruct (linehaul_fact_typed inv rate lf k t Hlf Ht) as (x & Hx & Hxt).
      rewrite (Hl k x Hx) in Hv. by apply Hxt.
    + assert (k ∈ linehaul_keys) as Hk by by apply (list_elem_of_fmap_2 fst) in Ht.
      rewrite (Hlh k Hk) in Hv. done.
Qed.

Lemma plain_safe s m sc : plain s = Some (m, sc) → ∃ d, safeDecimal_text s = Some d ∧ new_Decimal s = Some d.
Proof using L. intros (d & Hd & Hf & _)%law_new. exists d. unfold safeDecimal_text. rewrite Hd. simpl. by rewrite Hf. Qed.

Lemma typed_flag Γ key b : Γ !! key = Some TyBool → typed Γ (fact_eq key (LitBool b)) = Some TyBool.
Proof using Type. intros Hk. unfold fact_eq. cbn [typed]. by rewrite Hk. Qed.
Lemma typed_zero Γ key op : Γ !! key = Some TyNumeric → compare_ok op None TyNumeric TyNumeric = true →
  typed Γ (AstCompare op (AstFactRef key) (AstLit zero_lit) None) = Some TyBool.
Proof using L.
  intros Hk Hop. destruct (plain_safe "0" 0 0) as (z & Hz & _); [done|].
  cbn [typed zero_lit safeDecimal]. rewrite Hk, Hz. cbn [mbind option_bind]. by rewrite Hop.
Qed.
Lemma typed_approx Γ kl kr : Γ !! kl = Some TyNumeric → Γ !! kr = Some TyNumeric →
  typed Γ (AstCompare CmpApprox (AstFactRef kl) (AstFactRef kr) (Some "0.01")) = Some TyBool.
Proof using L.
  intros Hl Hr. destruct (plain_safe "0.01" 1 2) as (cent & _ & Hc); [done|].
  cbn [typed]. rewrite Hl, Hr. cbn [mbind option_bind]. unfold compare_ok. cbn [default from_option id]. by rewrite Hc.
Qed.

Lemma criteria_typed rubric c : standard_or_contract rubric → c ∈ criteria rubric →
  typed bundle_types (ast c) = Some TyBool.
Proof using L.
  intros Hr Hc. assert (c ∈ criteria CONTRACT_RUBRIC) as Hin.
  { destruct Hr as [-> | ->]; [|done]. by apply elem_of_app; left. }
  clear Hr Hc. revert c Hin. apply Forall_forall.
  repeat (constructor; [first [apply typed_flag; reflexivity | apply typed_zero; reflexivity | apply typed_approx; reflexivity]|]).
  constructor.
Qed.

(** The rubrics are well typed: on the facts of any invoice, every criterion
    of the standard and the contract rubric evaluates without a throw, to PASS or
    FAIL when its evidence is complete, and to UNASSESSABLE exactly when a fact it
    needs is missing or not a number. *)
Theorem rubrics_well_typed rubric inv contract facts c : standard_or_contract rubric →
  buildFactBundle inv contract = Ok facts → c ∈ criteria rubric →
  ∃ ev, evaluate (ast c) facts = Ok ev ∧ (verdict ev = UNASSESSABLE ↔ complete facts (ast c) = false).
Proof using L.
  intros Hr Hf%buildFactBundle_typed Hc.
  destruct (typed_gives bundle_types facts (ast c) TyBool Hf) as (ev & Hev & Hg); [by eapply criteria_typed|].
  exists ev. split; [done|]. unfold verdict.
  destruct (complete facts (ast c)), (ev_value ev) as [| |[]| |]; by simplify_eq/=.
Qed.
End bundle.

(** ** The theorems at concrete inputs *)

Section witnesses.
#[local] Existing Instance ExactDecimal.ops.
#[local] Existing Instance ExactDecimal.laws.
#[local] Existing Instance code_unit_collator.
#[local] Existing Instance demo_sha.

(** [half the billed amount exceeds the expected one], on complete and on missing facts. *)
Definition half_rule : AstNode :=
  AstCompare CmpGt (AstArith OpDiv [AstFactRef "billed"; AstLit (LitNumber (JsFinite "2"))]) (AstFactRef "expected") None.
Definition half_types : fact_types := {[ "billed" := TyNumeric; "expected" := TyNumeric ]}.

Lemma well_typed_rules_progress_witness :
  (∃ ev, evaluate half_rule demo_facts = Ok ev ∧ value_type (ev_value ev) = Some TyBool) ∧
  (∃ ev, evaluate half_rule ∅ = Ok ev ∧ verdict ev = UNASSESSABLE).
Proof.
  assert (typed half_types half_rule = Some TyBool) as Ht by (vm_compute; reflexivity). split.
  - assert (facts_typed half_types demo_facts) as Hf.
    { intros k v t Hv Hk. unfold half_types in Hk. rewrite lookup_insert_Some, lookup_singleton_Some in Hk.
      destruct Hk as [[<- <-]|[_ [<- <-]]]; vm_compute in Hv; by injection Hv as <-. }
    destruct (well_typed_rules_progress half_types demo_facts half_rule TyBool Hf Ht) as (ev & Hev & Hg).
    exists ev. split; [exact Hev|exact Hg].
  - assert (facts_typed half_types ∅) as Hf by (intros k v t Hv; by rewrite lookup_empty in Hv).
    destruct (well_typed_rules_progress half_types ∅ half_rule TyBool Hf Ht) as (ev & Hev & Hg).
    exists ev. split; [exact Hev|exact (proj1 Hg)].
Defined.

Definition footing_criterion : StandardCriterion := Eval cbn in
  default RATE_VARIANCE_CRITERION (head (criteria STANDARD_RUBRIC)).
Definition complete_on (r : result DecimalError FactBundle) (c : StandardCriterion) : bool :=
  match r with Ok facts => complete facts (ast c) | Err _ => false end.

Lemma rubrics_well_typed_witness : ∃ facts ev, buildFactBundle (demo_invoice "520.5000") no_contract = Ok facts ∧
  evaluate (ast footing_criterion) facts = Ok ev ∧ verdict ev ≠ UNASSESSABLE.
Proof.
  assert (complete_on (buildFactBundle (demo_invoice "520.5000") no_contract) footing_criterion = true) as Hc
    by (vm_compute; reflexivity).
  assert (footing_criterion ∈ criteria STANDARD_RUBRIC) as Hin by by left.
  destruct (buildFactBundle (demo_invoice "520.5000") no_contract) as [facts|] eqn:Hf; [|discriminate].
  destruct (rubrics_well_typed STANDARD_RUBRIC (demo_invoice "520.5000") no_contract facts footing_criterion
    (or_introl eq_refl) Hf Hin) as (ev & Hev & Hv).
  exists facts, ev. split; [reflexivity|]. split; [exact Hev|]. intros Hu. apply Hv in Hu.
  unfold complete_on in Hc. rewrite Hc in Hu. discriminate.
Defined.
End witnesses.
