(* ===== verification/RateEngine.v ===== *)
(** The rate engine ([src/src/modules/rate-engine/]): the charges a contract leads
    to ([generate-expected-charges.ts]), their alignment with the billed ones
    ([align-tier1-charges.ts]), grouped variances
    ([attribute-grouped-variance.ts]) and how both are persisted
    ([persistExpectedCharges], [persist-charge-alignment.ts]), on tables of their
    own.  No code outside the module calls these functions yet.  An error is the
    message thrown. *)

From S2P Require Import Prelude JsText Decimal Json Store AuditLedger Jsonb JsDate Database Tx.

(** ** Tier 1 alignment *)

Record BilledChargeForAlignment := mkBilled { bc_chargeFactId : string; bc_category : option string; bc_currency : option string }.
Record ExpectedChargeForAlignment := mkExpected { xc_expectedChargeId : string; xc_category : option string; xc_currency : option string }.
Inductive side : Set := billed | expected.
#[export] Instance side_eq_dec : EqDecision side.
Proof. solve_decision. Defined.
Record Tier1Alignment := mkAlignment {
  al_key : string; al_category : string; al_currency : string; al_chargeFactId : string; al_expectedChargeId : string;
}.
Inductive issue_reason : Set := MISSING_CLASSIFICATION | BILLED_ONLY | EXPECTED_ONLY | AMBIGUOUS.
Record AlignmentIssue := mkIssue {
  is_key : string; is_reason : issue_reason; is_chargeFactIds : list string; is_expectedChargeIds : list string;
}.
Record Tier1AlignmentResult := mkTier1 { t1_alignments : list Tier1Alignment; t1_unassessable : list AlignmentIssue }.

Definition side_text (s : side) : string := match s with billed => "billed" | expected => "expected" end.
(** [value?.trim().toUpperCase() ?? ''] *)
Definition canonical_text (o : option string) : string := from_option (λ s, to_upper (trim s)) "" o.
Record bucket := mkBucket { bu_category : string; bu_currency : string; bu_members : list (side * string) }.

Definition canonicalKey (category currency : option string) : option (string * (string * string)) :=
  let canonicalCategory := canonical_text category in
  let canonicalCurrency := canonical_text currency in
  if truthy canonicalCategory && is_currency_code canonicalCurrency
  then Some (canonicalCategory +:+ "|" +:+ canonicalCurrency, (canonicalCategory, canonicalCurrency)) else None.

(** [ids], [buckets] and [missing], as [align_add] updates them. *)
Record align_state := mkAlign { as_ids : list string; as_buckets : list (string * bucket); as_missing : list AlignmentIssue }.
(** A row to align: its side, id, category and currency. *)
Record align_row := mkRow { ar_side : side; ar_id : string; ar_category : option string; ar_currency : option string }.
Definition scoped_id (s : side) (cleanId : string) : string := side_text s +:+ ":" +:+ cleanId.

Definition align_add (st : align_state) (r : align_row) : result string align_state :=
  let cleanId := trim (ar_id r) in
  _ ← guard_or (truthy cleanId) (side_text (ar_side r) +:+ " charge id is required");
  let scopedId := scoped_id (ar_side r) cleanId in
  _ ← guard_or (negb (bool_decide (scopedId ∈ as_ids st))) ("duplicate " +:+ side_text (ar_side r) +:+ " charge id: " +:+ cleanId);
  let ids := as_ids st ++ [scopedId] in
  match canonicalKey (ar_category r) (ar_currency r) with
  | None =>
      let only s := if decide (ar_side r = s) then [cleanId] else [] in
      Ok (mkAlign ids (as_buckets st)
            (as_missing st ++ [mkIssue scopedId MISSING_CLASSIFICATION (only billed) (only expected)]))
  | Some (key, (category, currency)) =>
      let b := default (mkBucket category currency []) (map_get (as_buckets st) key) in
      Ok (mkAlign ids
            (map_set (as_buckets st) key (mkBucket (bu_category b) (bu_currency b) (bu_members b ++ [(ar_side r, cleanId)])))
            (as_missing st))
  end.

Definition side_ids (s : side) (members : list (side * string)) : list string :=
  js_sort code_unit_compare (map snd (List.filter (λ m, bool_decide (m.1 = s)) members)).

Section align.
Context {C : Collator}.

Definition align_bucket (out : list Tier1Alignment * list AlignmentIssue) (e : string * bucket) :
    list Tier1Alignment * list AlignmentIssue :=
  let '(alignments, unassessable) := out in
  let '(key, b) := e in
  let chargeFactIds := side_ids billed (bu_members b) in
  let expectedChargeIds := side_ids expected (bu_members b) in
  match chargeFactIds, expectedChargeIds with
  | [c], [x] => (alignments ++ [mkAlignment key (bu_category b) (bu_currency b) c x], unassessable)
  | _, _ =>
      let reason := match chargeFactIds, expectedChargeIds with
                    | [], _ => EXPECTED_ONLY | _, [] => BILLED_ONLY | _, _ => AMBIGUOUS end in
      (alignments, unassessable ++ [mkIssue key reason chargeFactIds expectedChargeIds])
  end.

Definition billed_row (b : BilledChargeForAlignment) : align_row :=
  mkRow billed (bc_chargeFactId b) (bc_category b) (bc_currency b).
Definition expected_row (x : ExpectedChargeForAlignment) : align_row :=
  mkRow expected (xc_expectedChargeId x) (xc_category x) (xc_currency x).

Definition alignTier1Charges (bs : list BilledChargeForAlignment) (xs : list ExpectedChargeForAlignment) :
    result string Tier1AlignmentResult :=
  st ← fold_res align_add (mkAlign [] [] []) (map billed_row bs);
  st ← fold_res align_add st (map expected_row xs);
  let '(alignments, unassessable) :=
    foldl align_bucket ([], as_missing st) (js_sort (cmp_on fst localeCompare) (as_buckets st)) in
  Ok (mkTier1 alignments (js_sort (cmp_on is_key localeCompare) unassessable)).
End align.

(** ** Grouped variances *)

Record VarianceMember := mkMember { vm_id : string; vm_amount : string; vm_currency : string }.
Inductive attribution_level : Set := GROUP | INVOICE.
#[export] Instance attribution_level_eq_dec : EqDecision attribution_level.
Proof. solve_decision. Defined.
Definition level_text (l : attribution_level) : string := match l with GROUP => "GROUP" | INVOICE => "INVOICE" end.
Record VarianceAttributionRequest := mkRequest {
  va_level : attribution_level; va_key : string; va_billed : list VarianceMember; va_expected : list VarianceMember;
}.
Inductive attribution_direction : Set := OVERCHARGE | UNDERCHARGE | CONFORMED.
Record VarianceAttribution := mkAttribution {
  at_level : attribution_level; at_key : string; at_currency : string; at_billedIds : list string; at_expectedIds : list string;
  at_billedTotal : string; at_expectedTotal : string; at_varianceAmount : string; at_direction : attribution_direction;
}.
Inductive attribution_reason : Set := MISSING_SIDE | CURRENCY_MISMATCH.
Record VarianceAttributionIssue := mkAttributionIssue {
  ai_level : attribution_level; ai_key : string; ai_reason : attribution_reason;
}.
Record attribution_state := mkAttr {
  ag_keys : list string; ag_memberIds : list string;
  ag_attributed : list VarianceAttribution; ag_unassessable : list VarianceAttributionIssue;
}.

Section attribution.
Context {D : DecimalJs} {C : Collator}.

Definition scoped_key (l : attribution_level) (key : string) : string := level_text l +:+ "|" +:+ key.
Definition claim_member (scopedKey : string) (memberIds : list string) (m : VarianceMember) : result string (list string) :=
  let id := trim (vm_id m) in
  _ ← guard_or (truthy id) ("member id is required for " +:+ scopedKey);
  _ ← guard_or (negb (bool_decide (id ∈ memberIds))) ("member appears in multiple attributions: " +:+ id);
  Ok (memberIds ++ [id]).
(** [parse] *)
Definition member_amount (m : VarianceMember) : result string dec :=
  let invalid := "invalid member amount: " +:+ vm_id m in
  match new_Decimal (vm_amount m) with
  | None => Err invalid
  | Some value => _ ← guard_or (d_isFinite value && negb (d_isNeg value)) invalid; Ok value
  end.
Definition members_total (l : list VarianceMember) : result string dec :=
  fold_res (λ sum m, v ← member_amount m; Ok (d_plus sum v)) (d_of_int 0) l.

Definition attribute_step (st : attribution_state) (request : VarianceAttributionRequest) : result string attribution_state :=
  let key := trim (va_key request) in
  let level := va_level request in
  _ ← guard_or (truthy key) "attribution key is required";
  let scopedKey := scoped_key level key in
  _ ← guard_or (negb (bool_decide (scopedKey ∈ ag_keys st))) ("duplicate attribution key: " +:+ scopedKey);
  let keys := ag_keys st ++ [scopedKey] in
  let issue reason := Ok (mkAttr keys (ag_memberIds st) (ag_attributed st)
                            (ag_unassessable st ++ [mkAttributionIssue level key reason])) in
  if bool_decide (va_billed request = []) || bool_decide (va_expected request = []) then issue MISSING_SIDE else
  let all := va_billed request ++ va_expected request in
  match set_of (map (λ m, to_upper (trim (vm_currency m))) all) with
  | [currency] =>
      if negb (is_currency_code currency) then issue CURRENCY_MISMATCH else
      memberIds ← fold_res (claim_member scopedKey) (ag_memberIds st) all;
      billedTotal ← members_total (va_billed request);
      expectedTotal ← members_total (va_expected request);
      let variance := d_toDP 4 (d_minus billedTotal expectedTotal) in
      let ids l := js_sort code_unit_compare (map (λ m, trim (vm_id m)) l) in
      Ok (mkAttr keys memberIds
            (ag_attributed st ++
               [mkAttribution level key currency (ids (va_billed request)) (ids (va_expected request))
                  (d_toFixed 4 (d_toDP 4 billedTotal)) (d_toFixed 4 (d_toDP 4 expectedTotal)) (d_toFixed 4 variance)
                  (if d_isPos variance then OVERCHARGE else if d_isNeg variance then UNDERCHARGE else CONFORMED)])
            (ag_unassessable st))
  | _ => issue CURRENCY_MISMATCH
  end.
Definition attributeGroupedVariance (requests : list VarianceAttributionRequest) :
    result string (list VarianceAttribution * list VarianceAttributionIssue) :=
  st ← fold_res attribute_step (mkAttr [] [] [] [])
         (js_sort (cmp_on (λ r, scoped_key (va_level r) (va_key r)) localeCompare) requests);
  Ok (ag_attributed st, ag_unassessable st).
End attribution.

(** ** Expected charges *)

Inductive ExpectedChargeCalculation := FLAT (amount : string) | RATE_TIMES_BASIS (rate basis : string).
Record ExpectedChargeSpec := mkSpec {
  xs_sourceKey : string; xs_category : string; xs_currency : string; xs_chargeFactId : option string;
  xs_clauseId : option string; xs_rateCellId : option string; xs_sourceDocumentId : option string;
  xs_calculation : ExpectedChargeCalculation;
}.
Record GeneratedExpectedCharge := mkGenerated {
  ge_idempotencyKey : string; ge_sourceKey : string; ge_category : string; ge_currency : string; ge_expectedAmount : string;
  ge_chargeFactId : option string; ge_clauseId : option string; ge_rateCellId : option string;
  ge_sourceDocumentId : option string; ge_calculation : json;
}.

Section expected.
Context {D : DecimalJs} {C : Collator} {H : Sha256}.

(** [decimal] *)
Definition non_negative (value field : string) : result string dec :=
  match new_Decimal value with
  | None => Err (field +:+ " must be a decimal")
  | Some parsed =>
      _ ← guard_or (d_isFinite parsed && negb (d_isNeg parsed)) (field +:+ " must be a non-negative finite decimal"); Ok parsed
  end.
(** The amount of a calculation and the object recorded for it. *)
Definition calculate (sourceKey : string) (c : ExpectedChargeCalculation) : result string (dec * json) :=
  match c with
  | FLAT amount =>
      flatAmount ← non_negative amount (sourceKey +:+ ".amount");
      Ok (flatAmount, JObject [("kind", JString "FLAT"); ("amount", JString (d_toFixed 4 flatAmount))])
  | RATE_TIMES_BASIS rate basis =>
      rate ← non_negative rate (sourceKey +:+ ".rate");
      basis ← non_negative basis (sourceKey +:+ ".basis");
      Ok (d_times rate basis, JObject [("kind", JString "RATE_TIMES_BASIS"); ("rate", JString (d_toFixed 4 rate));
                                       ("basis", JString (d_toFixed 4 basis))])
  end.
Definition idempotency_key (sourceKey : string) : string := hex (sha256 (print (JObject [("sourceKey", JString sourceKey)]))).

Definition generate_step (st : list string * list GeneratedExpectedCharge) (spec : ExpectedChargeSpec) :
    result string (list string * list GeneratedExpectedCharge) :=
  let '(seen, generated) := st in
  let sourceKey := trim (xs_sourceKey spec) in
  let category := to_upper (trim (xs_category spec)) in
  let currency := to_upper (trim (xs_currency spec)) in
  _ ← guard_or (truthy sourceKey) "sourceKey is required";
  _ ← guard_or (truthy category) "category is required";
  _ ← guard_or (is_currency_code currency) ("invalid currency for " +:+ sourceKey);
  _ ← guard_or (negb (bool_decide (sourceKey ∈ seen))) ("duplicate expected-charge sourceKey: " +:+ sourceKey);
  '(amount, calculation) ← calculate sourceKey (xs_calculation spec);
  Ok (seen ++ [sourceKey],
      generated ++ [mkGenerated (idempotency_key sourceKey) sourceKey category currency (d_toFixed 4 (d_toDP 4 amount))
                      (xs_chargeFactId spec) (xs_clauseId spec) (xs_rateCellId spec) (xs_sourceDocumentId spec) calculation]).
Definition generateExpectedCharges (specs : list ExpectedChargeSpec) : result string (list GeneratedExpectedCharge) :=
  '(_, generated) ← fold_res generate_step ([], []) specs;
  Ok (js_sort (cmp_then (cmp_on ge_category localeCompare) (cmp_on ge_sourceKey localeCompare)) generated).
End expected.

(** ** Persistence *)

Record expected_charge := mkExpectedCharge {
  ec_id : string; ec_account : string; ec_audit_run : string; ec_charge_fact : option string; ec_category : string;
  ec_expected_amount : Z; ec_currency : string; ec_idempotency_key : string; ec_source_key : string; ec_calculation : json;
  ec_clause : option string; ec_rate_cell : option string; ec_source_document : option string;
}.
Record charge_alignment := mkChargeAlignment {
  ca_id : string; ca_account : string; ca_audit_run : string; ca_label : string; ca_level : string; ca_attribution_key : string;
  ca_currency : string; ca_billed_total : Z; ca_expected_total : Z; ca_variance_amount : Z; ca_idempotency_key : string;
}.
(** CHECK: exactly one of the two sides. *)
Record charge_alignment_member := mkAlignmentMember {
  cm_account : string; cm_alignment : string; cm_member : side * string;
}.

(** A [numeric(18,4)] column. *)
Definition numeric_column (s : string) : result string Z :=
  match money_units s with
  | Some m => if Z.abs m <? 10 ^ 18 then Ok m else Err "numeric field overflow"
  | None => Err "invalid input syntax for type numeric"
  end.

Section persistence.
Context {D : DecimalJs} {H : Sha256}.

(** [newId] is the identifier the database would give the new row. *)
Definition expected_row_of (newId clientId auditRunId : string) (amount : Z) (c : GeneratedExpectedCharge) : expected_charge :=
  mkExpectedCharge newId (pg_uuid clientId) (pg_uuid auditRunId) (pg_uuid <$> ge_chargeFactId c) (ge_category c) amount
    (ge_currency c) (ge_idempotencyKey c) (ge_sourceKey c) (jsonb (ge_calculation c)) (pg_uuid <$> ge_clauseId c)
    (pg_uuid <$> ge_rateCellId c) (pg_uuid <$> ge_sourceDocumentId c).
Definition same_expected (clientId auditRunId key : string) (r : expected_charge) : bool :=
  bool_decide (ec_account r = pg_uuid clientId) && bool_decide (ec_audit_run r = pg_uuid auditRunId) &&
  bool_decide (ec_idempotency_key r = key).
(** [new Decimal(row.expected_amount).toFixed(4)] *)
Definition stored_amount (m : Z) : result string string :=
  match new_Decimal (numeric_text m) with Some d => Ok (d_toFixed 4 d) | None => Err "DecimalError" end.
Definition exact_retry (row : expected_charge) (stored : string) (c : GeneratedExpectedCharge) : bool :=
  bool_decide (ec_category row = ge_category c) && bool_decide (ec_currency row = ge_currency c) &&
  bool_decide (stored = ge_expectedAmount c) && bool_decide (ec_source_key row = ge_sourceKey c) &&
  bool_decide (print (ec_calculation row) = print (ge_calculation c)) &&
  bool_decide (ec_charge_fact row = ge_chargeFactId c) && bool_decide (ec_clause row = ge_clauseId c) &&
  bool_decide (ec_rate_cell row = ge_rateCellId c) && bool_decide (ec_source_document row = ge_sourceDocumentId c).

Definition persist_charge (newId clientId auditRunId : string) (c : GeneratedExpectedCharge) (t : list expected_charge) :
    result string (string * list expected_charge) :=
  amount ← numeric_column (ge_expectedAmount c);
  _ ← guard_or (is_currency_code (ge_currency c)) "expected_charge_currency_format_chk";
  _ ← guard_or (negb (bool_decide (newId ∈ map ec_id t))) "primary key";
  let same := same_expected clientId auditRunId (ge_idempotencyKey c) in
  match insert_on_conflict same (expected_row_of newId clientId auditRunId amount c) t with
  | (true, t') => Ok (newId, t')
  | (false, t') =>
      match select_one same t' with
      | None => Err "expected-charge idempotency conflict could not be resolved"
      | Some row =>
          stored ← stored_amount (ec_expected_amount row);
          _ ← guard_or (exact_retry row stored c) ("expected-charge source conflict: " +:+ ge_sourceKey c);
          Ok (ec_id row, t')
      end
  end.
(** [input.charges], each with the identifier a new row would get. *)
Definition persistExpectedCharges (clientId auditRunId : string) (cs : list (string * GeneratedExpectedCharge))
    (t : list expected_charge) : result string (list string * list expected_charge) :=
  fold_res (λ st e, '(id, t') ← persist_charge e.1 clientId auditRunId e.2 st.2; Ok (st.1 ++ [id], t')) ([], t) cs.

Definition alignment_key (a : VarianceAttribution) : string :=
  hex (sha256 (print (JObject [("level", JString (level_text (at_level a))); ("key", JString (at_key a))]))).
Definition same_alignment (clientId auditRunId key : string) (r : charge_alignment) : bool :=
  bool_decide (ca_account r = pg_uuid clientId) && bool_decide (ca_audit_run r = pg_uuid auditRunId) &&
  bool_decide (ca_idempotency_key r = key).
(** [INSERT ... ON CONFLICT (alignment_id, member) DO NOTHING] *)
Definition add_alignment_member (clientId alignmentId : string) (s : side) (t : list charge_alignment_member) (id : string) :=
  let row := mkAlignmentMember (pg_uuid clientId) alignmentId (s, pg_uuid id) in
  (insert_on_conflict (λ r, bool_decide (cm_alignment r = alignmentId) && bool_decide (cm_member r = cm_member row)) row t).2.

Definition persistChargeAlignment (newId clientId auditRunId : string) (a : VarianceAttribution)
    (tables : list charge_alignment * list charge_alignment_member) :
    result string (string * (list charge_alignment * list charge_alignment_member)) :=
  let '(t, members) := tables in
  let idempotencyKey := alignment_key a in
  billedTotal ← numeric_column (at_billedTotal a);
  expectedTotal ← numeric_column (at_expectedTotal a);
  varianceAmount ← numeric_column (at_varianceAmount a);
  _ ← guard_or (is_currency_code (at_currency a)) "charge_alignment_currency_format_chk";
  _ ← guard_or (negb (bool_decide (newId ∈ map ca_id t))) "primary key";
  let same := same_alignment clientId auditRunId idempotencyKey in
  let row := mkChargeAlignment newId (pg_uuid clientId) (pg_uuid auditRunId) (level_text (at_level a) +:+ ":" +:+ at_key a) (level_text (at_level a))
    (at_key a) (at_currency a) billedTotal expectedTotal varianceAmount idempotencyKey in
  let '(created, t') := insert_on_conflict same row t in
  alignmentId ←
    (if created : bool then Ok newId else
     match select_one same t' with
     | Some r =>
         if bool_decide (numeric_text (ca_billed_total r) = at_billedTotal a) &&
            bool_decide (numeric_text (ca_expected_total r) = at_expectedTotal a) &&
            bool_decide (numeric_text (ca_variance_amount r) = at_varianceAmount a)
         then Ok (ca_id r) else Err ("charge-alignment source conflict: " +:+ scoped_key (at_level a) (at_key a))
     | None => Err ("charge-alignment source conflict: " +:+ scoped_key (at_level a) (at_key a))
     end);
  let members := foldl (add_alignment_member clientId alignmentId billed) members (at_billedIds a) in
  let members := foldl (add_alignment_member clientId alignmentId expected) members (at_expectedIds a) in
  Ok (alignmentId, (t', members)).
End persistence.
