(* ===== verification/RateEngineSafety.v ===== *)
(** What the rate engine guarantees: tier 1 aligns exactly the sole pairs and
    accounts for every charge, whatever the order of its input; grouped variances
    and expected amounts are exact up to the fourth decimal; expected charges are
    recorded once. *)

From Stdlib Require Import QArith Qround Lqa.
From S2P Require Import Prelude JsText Decimal Json Store AuditLedger Jsonb JsDate Database Tx Money RateEngine.
#[local] Open Scope Z_scope.

(** ** Tier 1: what the loops build *)

Section rows.
Implicit Types (rows : list align_row) (r : align_row) (s : side).

Definition clean_id (r : align_row) : string := trim (ar_id r).
Definition row_key (r : align_row) : option string := fst <$> canonicalKey (ar_category r) (ar_currency r).
Definition on_side (s : side) (r : align_row) : bool := bool_decide (ar_side r = s).
Definition has_key (key : string) (r : align_row) : bool := bool_decide (row_key r = Some key).
(** The ids of one side, and of one side of one category and currency. *)
Definition ids_on (s : side) (rows : list align_row) : list string := map clean_id (List.filter (on_side s) rows).
Definition ids_under (s : side) (key : string) (rows : list align_row) : list string := ids_on s (List.filter (has_key key) rows).
Definition unkeyed (r : align_row) : bool := bool_decide (row_key r = None).

Definition member_of_row (r : align_row) : side * string := (ar_side r, clean_id r).
Definition missing_issue (r : align_row) : AlignmentIssue :=
  mkIssue (scoped_id (ar_side r) (clean_id r)) MISSING_CLASSIFICATION (ids_on billed [r]) (ids_on expected [r]).
Definition row_bucket (rows : list align_row) (key : string) : option bucket :=
  match List.filter (has_key key) rows with
  | [] => None
  | (r :: _) as l => '(_, (category, currency)) ← canonicalKey (ar_category r) (ar_currency r);
                     Some (mkBucket category currency (map member_of_row l))
  end.

(** The loops' state after [rows]. *)
Definition aligned_state (st : align_state) (rows : list align_row) : Prop :=
  as_ids st = map (λ r, scoped_id (ar_side r) (clean_id r)) rows ∧ NoDup (as_ids st) ∧
  Forall (λ r, clean_id r ≠ "") rows ∧
  as_missing st = map missing_issue (List.filter unkeyed rows) ∧
  NoDup (as_buckets st).*1 ∧ ∀ key, map_get (as_buckets st) key = row_bucket rows key.

Lemma filter_snoc {A} (p : A → bool) l x : List.filter p (l ++ [x]) = List.filter p l ++ (if p x then [x] else []).
Proof using Type. rewrite List.filter_app. simpl. by destruct (p x). Qed.

Lemma canonicalKey_key category currency key c : canonicalKey category currency = Some (key, c) →
  key = c.1 +:+ "|" +:+ c.2 ∧ is_currency_code c.2 = true ∧ c.1 ≠ "".
Proof.
  unfold canonicalKey. destruct (_ && _) eqn:E; [|done]. intros [= <- <-].
  apply andb_true_iff in E as [Hc Hk]. split_and!; [done..|]. unfold truthy in Hc. by apply negb_true_iff, bool_decide_eq_false in Hc.
Qed.

Lemma head_keyed rows key r l : List.filter (has_key key) rows = r :: l →
  ∃ c, canonicalKey (ar_category r) (ar_currency r) = Some (key, c).
Proof.
  intros Hl. assert (r ∈ List.filter (has_key key) rows) as Hin by (rewrite Hl; by left).
  apply list_elem_of_In, filter_In in Hin as [_ Hk]. unfold has_key, row_key in Hk.
  apply bool_decide_eq_true, fmap_Some in Hk as ([k c] & Hc & [= ->]). by exists c.
Qed.

Lemma row_bucket_snoc rows r key :
  row_bucket (rows ++ [r]) key =
  if has_key key r then
    match row_bucket rows key, canonicalKey (ar_category r) (ar_currency r) with
    | Some b, _ => Some (mkBucket (bu_category b) (bu_currency b) (bu_members b ++ [member_of_row r]))
    | None, Some (_, (category, currency)) => Some (mkBucket category currency [member_of_row r])
    | None, None => None
    end
  else row_bucket rows key.
Proof.
  unfold row_bucket. rewrite filter_snoc. destruct (has_key key r) eqn:Hk; [|by rewrite app_nil_r].
  destruct (List.filter (has_key key) rows) as [|r0 l] eqn:Hl.
  - cbn [app]. destruct (canonicalKey _ _) as [[k [c u]]|]; done.
  - apply head_keyed in Hl as ([c u] & Hc). cbn [app]. rewrite Hc. cbn. by rewrite map_app.
Qed.

Lemma add_spec st seen r st' : aligned_state st seen → align_add st r = Ok st' → aligned_state st' (seen ++ [r]).
Proof.
  intros (Hids & Hnd & Hall & Hmiss & Hkeys & Hb). unfold align_add.
  intros (u1 & Hne%guard_or_Ok & (u2 & Hnew%guard_or_Ok & Hst)%bind_Ok)%bind_Ok.
  unfold truthy in Hne. apply negb_true_iff, bool_decide_eq_false in Hne.
  apply negb_true_iff, bool_decide_eq_false in Hnew.
  assert (NoDup (as_ids st ++ [scoped_id (ar_side r) (trim (ar_id r))])) as Hnd'.
  { apply NoDup_app. split; [done|]. split; [|apply NoDup_singleton]. intros x Hx ->%list_elem_of_singleton. done. }
  assert (Forall (λ r, clean_id r ≠ "") (seen ++ [r])) as Hall' by (apply Forall_app; split; [done|by repeat constructor]).
  unfold aligned_state. rewrite filter_snoc, !map_app. unfold unkeyed.
  destruct (canonicalKey (ar_category r) (ar_currency r)) as [[key [c u]]|] eqn:Hk; injection Hst as <-;
    cbn [as_ids as_buckets as_missing].
  - assert (row_key r = Some key) as Hrk by (unfold row_key; by rewrite Hk).
    rewrite bool_decide_eq_false_2 by (by rewrite Hrk). cbn [map]. rewrite app_nil_r.
    split_and!; [by rewrite Hids|done|done|done|by apply NoDup_map_set|].
    intros key'. rewrite row_bucket_snoc, Hk. unfold has_key. rewrite Hrk. destruct (decide (key' = key)) as [->|Hne'].
    + rewrite map_get_set_eq, bool_decide_eq_true_2 by done. rewrite Hb. by destruct (row_bucket seen key).
    + rewrite map_get_set_ne, bool_decide_eq_false_2 by congruence. apply Hb.
  - assert (row_key r = None) as Hrk by (unfold row_key; by rewrite Hk).
    rewrite bool_decide_eq_true_2 by done. split_and!; [by rewrite Hids|done|done| |done|].
    + rewrite Hmiss. f_equal. cbn. unfold missing_issue, ids_on, on_side, clean_id. cbn.
      by destruct (ar_side r).
    + intros key'. rewrite row_bucket_snoc. unfold has_key. rewrite Hrk, bool_decide_eq_false_2 by done. apply Hb.
Qed.

Lemma add_rows rows st' : fold_res align_add (mkAlign [] [] []) rows = Ok st' → aligned_state st' rows.
Proof.
  apply (fold_res_inv (λ st seen, aligned_state st seen)); [|intros; by eapply add_spec].
  split_and!; try done; constructor.
Qed.
End rows.

(** The loop accepts exactly the rows with identifiers, distinct on each side. *)
Definition rows_ok (rows : list align_row) : Prop :=
  Forall (λ r, clean_id r ≠ "") rows ∧ NoDup (map (λ r, scoped_id (ar_side r) (clean_id r)) rows).

Lemma add_accepts st r : clean_id r ≠ "" → scoped_id (ar_side r) (clean_id r) ∉ as_ids st →
  ∃ st', align_add st r = Ok st' ∧ as_ids st' = as_ids st ++ [scoped_id (ar_side r) (clean_id r)].
Proof.
  intros Hne Hnew. unfold align_add, guard_or, truthy. unfold clean_id in *.
  rewrite (bool_decide_eq_false_2 (_ = "")), (bool_decide_eq_false_2 (_ ∈ _)) by done. cbn [negb]. rewrite !bind_ret_l.
  destruct (canonicalKey _ _) as [[key [c u]]|]; by eexists.
Qed.

Lemma add_rows_accepts rows st : Forall (λ r, clean_id r ≠ "") rows →
  NoDup (as_ids st ++ map (λ r, scoped_id (ar_side r) (clean_id r)) rows) → ∃ st', fold_res align_add st rows = Ok st'.
Proof.
  revert st. induction rows as [|r rows IH]; intros st Hall Hnd; [exists st; apply fold_res_nil|].
  apply Forall_cons in Hall as [Hr Hall]. rewrite fold_res_cons.
  destruct (add_accepts st r Hr) as (st1 & -> & Hids).
  - intros Hin. apply NoDup_app in Hnd as (_ & Hdis & _). apply (Hdis _ Hin). by left.
  - rewrite bind_ret_l. apply IH; [done|]. by rewrite Hids, <- app_assoc.
Qed.

Lemma add_rows_ok rows st : fold_res align_add (mkAlign [] [] []) rows = Ok st → rows_ok rows.
Proof. intros (Hids & Hnd & Hall & _)%add_rows. split; [done|]. by rewrite <- Hids. Qed.

Lemma rows_ok_perm rows rows' : rows ≡ₚ rows' → rows_ok rows → rows_ok rows'.
Proof. intros Hp. unfold rows_ok. by rewrite Hp. Qed.

(** ** Tier 1: judging the buckets *)

(** What is decided about one bucket. *)
Definition judge (e : string * bucket) : Tier1Alignment + AlignmentIssue :=
  let '(key, b) := e in
  match side_ids billed (bu_members b), side_ids expected (bu_members b) with
  | [c], [x] => inl (mkAlignment key (bu_category b) (bu_currency b) c x)
  | [], xs => inr (mkIssue key EXPECTED_ONLY [] xs)
  | cs, [] => inr (mkIssue key BILLED_ONLY cs [])
  | cs, xs => inr (mkIssue key AMBIGUOUS cs xs)
  end.
Definition lefts {A B} : list (A + B) → list A := omap (λ x, match x with inl a => Some a | inr _ => None end).
Definition rights {A B} : list (A + B) → list B := omap (λ x, match x with inl _ => None | inr b => Some b end).

Lemma align_bucket_judge out e : align_bucket out e =
  match judge e with inl a => (out.1 ++ [a], out.2) | inr i => (out.1, out.2 ++ [i]) end.
Proof.
  destruct out as [alignments issues], e as [key b]. unfold align_bucket, judge.
  destruct (side_ids billed _) as [|c [|c2 cs]], (side_ids expected _) as [|x [|x2 xs]]; done.
Qed.

Lemma foldl_align l out : foldl align_bucket out l = (out.1 ++ lefts (map judge l), out.2 ++ rights (map judge l)).
Proof.
  revert out. induction l as [|e l IH]; intros out; [cbn; rewrite !app_nil_r; by destruct out|].
  cbn [foldl map]. rewrite IH, align_bucket_judge. unfold lefts, rights. destruct (judge e); cbn; by rewrite <- app_assoc.
Qed.

Lemma side_ids_rows s rows : side_ids s (map member_of_row rows) = js_sort code_unit_compare (ids_on s rows).
Proof.
  unfold side_ids, ids_on. f_equal. induction rows as [|r rows IH]; [done|]. cbn. unfold on_side.
  destruct (bool_decide (ar_side r = s)); cbn; by rewrite IH.
Qed.

(** The ids of one side that a decision names. *)
Definition decided_ids (s : side) (x : Tier1Alignment + AlignmentIssue) : list string :=
  match x, s with
  | inl a, billed => [al_chargeFactId a] | inl a, expected => [al_expectedChargeId a]
  | inr i, billed => is_chargeFactIds i | inr i, expected => is_expectedChargeIds i
  end.
Lemma judge_ids s key b : decided_ids s (judge (key, b)) = side_ids s (bu_members b).
Proof.
  unfold judge. destruct s, (side_ids billed _) as [|c [|c2 cs]] eqn:E1, (side_ids expected _) as [|x [|x2 xs]] eqn:E2;
    cbn; congruence.
Qed.

Section align.
Context {C : Collator}.

Definition align_rows (bs : list BilledChargeForAlignment) (xs : list ExpectedChargeForAlignment) : list align_row :=
  map billed_row bs ++ map expected_row xs.

Lemma alignTier1_inv bs xs r : alignTier1Charges bs xs = Ok r →
  ∃ st, aligned_state st (align_rows bs xs) ∧
    let judged := map judge (js_sort (cmp_on fst localeCompare) (as_buckets st)) in
    t1_alignments r = lefts judged ∧
    t1_unassessable r = js_sort (cmp_on is_key localeCompare) (as_missing st ++ rights judged).
Proof.
  unfold alignTier1Charges. intros (st1 & H1 & (st & H2 & Hr)%bind_Ok)%bind_Ok.
  exists st. split. { apply add_rows. unfold align_rows. by rewrite fold_res_app, H1. }
  rewrite foldl_align in Hr. injection Hr as <-. done.
Qed.

Lemma row_bucket_Some rows key b : row_bucket rows key = Some b →
  bu_members b = map member_of_row (List.filter (has_key key) rows) ∧ key = bu_category b +:+ "|" +:+ bu_currency b ∧
  is_currency_code (bu_currency b) = true ∧ List.filter (has_key key) rows ≠ [].
Proof.
  unfold row_bucket. destruct (List.filter (has_key key) rows) as [|r l] eqn:Hl; [done|].
  destruct (head_keyed _ _ _ _ Hl) as ([c u] & Hk). rewrite Hk. intros [= <-].
  apply canonicalKey_key in Hk as (-> & Hu & _). done.
Qed.

Lemma row_bucket_None rows key : row_bucket rows key = None → ∀ r, r ∈ rows → has_key key r = false.
Proof.
  unfold row_bucket. intros Hn r Hr. apply not_true_iff_false. intros Hk.
  assert (r ∈ List.filter (has_key key) rows) as Hin by (apply list_elem_of_In, filter_In; by rewrite <- list_elem_of_In).
  destruct (List.filter (has_key key) rows) as [|r0 l] eqn:Hl; [by apply elem_of_nil in Hin|].
  apply head_keyed in Hl as ([c u] & Hc). by rewrite Hc in Hn.
Qed.

(** A key tells its category and currency apart. *)
Lemma key_split c u c' u' : is_currency_code u = true → is_currency_code u' = true →
  c +:+ "|" +:+ u = c' +:+ "|" +:+ u' → c = c' ∧ u = u'.
Proof using Type.
  assert (∀ v, is_currency_code v = true → String.length v = 3%nat) as Hlen.
  { intros v [Hl _]%andb_true_iff. by apply Nat.eqb_eq. }
  intros Hu%Hlen Hu'%Hlen Heq. revert c' Heq. induction c as [|a c IH]; intros [|a' c'] Heq; cbn in Heq.
  - split; [done|]. by injection Heq.
  - apply (f_equal String.length) in Heq. cbn in Heq. rewrite sapp_length in Heq. cbn in Heq. lia.
  - apply (f_equal String.length) in Heq. cbn in Heq. rewrite sapp_length in Heq. cbn in Heq. lia.
  - injection Heq as -> Heq. apply IH in Heq as [-> ->]. done.
Qed.

Lemma js_sort_singleton l x : js_sort code_unit_compare l = [x] ↔ l = [x].
Proof using Type.
  split; [|by intros ->]. intros Hs. pose proof (js_sort_perm code_unit_compare l) as Hp. rewrite Hs in Hp.
  by apply Permutation_singleton_l in Hp.
Qed.

Lemma elem_of_lefts {A B} (l : list (A + B)) a : a ∈ lefts l ↔ inl a ∈ l.
Proof using Type.
  unfold lefts. rewrite list_elem_of_omap. split; [|intros Hl; by exists (inl a)].
  intros ([x|] & Hx & Hs); by simplify_eq.
Qed.

Lemma judge_inl key b a : judge (key, b) = inl a ↔
  a = mkAlignment key (bu_category b) (bu_currency b) (al_chargeFactId a) (al_expectedChargeId a) ∧
  side_ids billed (bu_members b) = [al_chargeFactId a] ∧ side_ids expected (bu_members b) = [al_expectedChargeId a].
Proof using Type.
  unfold judge. destruct (side_ids billed _) as [|c [|c2 cs]], (side_ids expected _) as [|x [|x2 xs]]; split;
    try naive_solver; intros (-> & [= ->] & [= ->]); done.
Qed.
End align.

(** ** Tier 1: every charge once *)

Lemma filter_disjoint_perm {A} (p q : A → bool) l : (∀ x, p x = true → q x = false) →
  List.filter (λ x, p x || q x) l ≡ₚ List.filter p l ++ List.filter q l.
Proof.
  intros Hd. induction l as [|x l IH]; [done|]. simpl. destruct (p x) eqn:Hp.
  - rewrite (Hd x Hp). cbn [orb app]. by rewrite IH.
  - cbn [orb]. destruct (q x); [|done]. by rewrite IH, Permutation_middle.
Qed.

(** Grouping by key loses and repeats nothing. *)
Lemma group_perm rows ks : NoDup ks →
  concat (map (λ k, List.filter (has_key k) rows) ks) ≡ₚ
  List.filter (λ r, existsb (λ k, has_key k r) ks) rows.
Proof.
  induction 1 as [|k ks Hk Hnd IH]; cbn [map concat existsb].
  - by rewrite filter_none.
  - rewrite IH. symmetry. apply filter_disjoint_perm. intros r Hr. unfold has_key in Hr |- *. apply bool_decide_eq_true in Hr.
    apply not_true_iff_false. intros (k' & Hk'%list_elem_of_In & Hr')%existsb_exists. apply bool_decide_eq_true in Hr'.
    by simplify_eq.
Qed.

Lemma ids_on_perm s rows rows' : rows ≡ₚ rows' → ids_on s rows ≡ₚ ids_on s rows'.
Proof.
  intros Hp. unfold ids_on. apply Permutation_map. induction Hp; cbn; repeat case_match; eauto using Permutation.
Qed.
Lemma ids_on_app s rows rows' : ids_on s (rows ++ rows') = ids_on s rows ++ ids_on s rows'.
Proof. unfold ids_on. by rewrite List.filter_app, map_app. Qed.
Lemma ids_on_concat s ls : ids_on s (concat ls) = concat (map (ids_on s) ls).
Proof. induction ls as [|l ls IH]; [done|]. cbn [concat map]. by rewrite ids_on_app, IH. Qed.

Lemma concat_perm_pointwise {A B} (f g : A → list B) l : (∀ x, x ∈ l → f x ≡ₚ g x) → concat (map f l) ≡ₚ concat (map g l).
Proof.
  induction l as [|x l IH]; intros Hfg; [done|]. cbn. rewrite (Hfg x) by (by left). rewrite IH; [done|]. intros. apply Hfg. by right.
Qed.
Lemma concat_map_perm {A B} (f : A → list B) l l' : l ≡ₚ l' → concat (map f l) ≡ₚ concat (map f l').
Proof. intros Hp. rewrite <- !flat_map_concat_map. by rewrite Hp. Qed.

Lemma decided_split s l : concat (map (decided_ids s) l) ≡ₚ
  concat (map (λ a, decided_ids s (inl a)) (lefts l)) ++ concat (map (λ i, decided_ids s (inr i)) (rights l)).
Proof.
  induction l as [|[a|i] l IH]; [done|..]; cbn [map concat lefts rights omap list_omap]; fold (@lefts Tier1Alignment AlignmentIssue) in *;
    fold (@rights Tier1Alignment AlignmentIssue) in *.
  - rewrite IH, <- app_assoc. done.
  - rewrite IH, !app_assoc. apply Permutation_app_tail. apply Permutation_app_comm.
Qed.

Lemma bucket_ids s st rows : aligned_state st rows →
  concat (map (decided_ids s) (map judge (as_buckets st))) ≡ₚ ids_on s (List.filter (λ r, negb (unkeyed r)) rows).
Proof.
  intros (_ & _ & _ & _ & Hnd & Hb). rewrite map_map.
  transitivity (ids_on s (concat (map (λ k, List.filter (has_key k) rows) (as_buckets st).*1))).
  - rewrite ids_on_concat, map_map. change ((as_buckets st).*1) with (map fst (as_buckets st)). rewrite map_map.
    apply concat_perm_pointwise. intros [key b] Hin. rewrite judge_ids. cbn [fst].
    apply map_get_Some in Hin; [|done]. rewrite Hb in Hin. apply row_bucket_Some in Hin as (-> & _).
    rewrite side_ids_rows. apply js_sort_perm.
  - apply ids_on_perm. rewrite group_perm by done. erewrite filter_ext_in; [done|]. cbn beta.
    intros r Hr%list_elem_of_In. unfold unkeyed. destruct (row_key r) as [k|] eqn:Hk.
    + rewrite bool_decide_eq_false_2 by done. cbn [negb]. apply existsb_exists.
      assert (has_key k r = true) as Hkr by by apply bool_decide_eq_true.
      exists k. split; [|done]. apply list_elem_of_In. destruct (decide (k ∈ (as_buckets st).*1)) as [|Hn]; [done|].
      apply map_get_None in Hn. rewrite Hb in Hn. by rewrite (row_bucket_None _ _ Hn r Hr) in Hkr.
    + rewrite bool_decide_eq_true_2 by done. cbn [negb]. apply not_true_iff_false. intros (k & _ & Hr')%existsb_exists.
      unfold has_key in Hr'. apply bool_decide_eq_true in Hr'. congruence.
Qed.

Lemma missing_ids s rows :
  concat (map (λ i, decided_ids s (inr i)) (map missing_issue rows)) = ids_on s rows.
Proof.
  induction rows as [|r rows IH]; [done|]. cbn [map concat]. rewrite IH.
  change (r :: rows) with ([r] ++ rows). rewrite ids_on_app. by destruct s.
Qed.

Lemma unkeyed_split rows : List.filter unkeyed rows ++ List.filter (λ r, negb (unkeyed r)) rows ≡ₚ rows.
Proof.
  rewrite <- filter_disjoint_perm by (by intros r ->). rewrite filter_all; [done|]. intros r _. apply orb_negb_r.
Qed.

(** Whatever is decided, every id is in exactly one decision. *)
Lemma partitioned s st rows l :
  aligned_state st rows → l ≡ₚ as_buckets st →
  concat (map (λ a, decided_ids s (inl a)) (lefts (map judge l))) ++
    concat (map (λ i, decided_ids s (inr i)) (as_missing st ++ rights (map judge l))) ≡ₚ ids_on s rows.
Proof.
  intros Hst Hl. rewrite map_app, concat_app. pose proof Hst as (_ & _ & _ & -> & _).
  rewrite missing_ids, Permutation_app_comm, <- app_assoc, (Permutation_app_comm (concat (map (λ i, _) (rights _)))), <- decided_split.
  rewrite (concat_map_perm _ (map judge l) (map judge (as_buckets st))) by by rewrite Hl.
  rewrite bucket_ids by done. rewrite <- ids_on_app. apply ids_on_perm, unkeyed_split.
Qed.

Lemma ids_on_other s rows : Forall (λ r, ar_side r ≠ s) rows → ids_on s rows = [].
Proof.
  unfold ids_on. induction 1 as [|r rows Hr _ IH]; [done|]. cbn. unfold on_side at 1. by rewrite bool_decide_eq_false_2.
Qed.
Lemma ids_on_all s rows : Forall (λ r, ar_side r = s) rows → ids_on s rows = map clean_id rows.
Proof.
  intros Hall. unfold ids_on. rewrite filter_all; [done|]. intros r Hr. apply bool_decide_eq_true. by eapply Forall_forall in Hall.
Qed.
Lemma ids_on_billed bs xs : ids_on billed (align_rows bs xs) = map (λ b, trim (bc_chargeFactId b)) bs.
Proof.
  unfold align_rows. rewrite ids_on_app, ids_on_all, (ids_on_other _ (map expected_row xs)), app_nil_r, map_map; [done|..];
    apply Forall_map, Forall_forall; by intros.
Qed.
Lemma ids_on_expected bs xs : ids_on expected (align_rows bs xs) = map (λ x, trim (xc_expectedChargeId x)) xs.
Proof.
  unfold align_rows. rewrite ids_on_app, ids_on_other, ids_on_all, map_map; [done|..];
    apply Forall_map, Forall_forall; by intros.
Qed.

Lemma concat_singletons {A B} (f : A → B) l : concat (map (λ a, [f a]) l) = map f l.
Proof. induction l as [|a l IH]; [done|]. cbn. by rewrite IH. Qed.

Section tier1.
Context {C : Collator}.

(** Tier 1 aligns exactly what leaves no choice: a billed and an expected
    charge are aligned when, of their category and currency, they are the only
    billed and the only expected one; every charge of the input, by its trimmed
    id, is in exactly one alignment or one unassessable issue. *)
Theorem alignTier1_exact bs xs r : alignTier1Charges bs xs = Ok r →
  (∀ a, a ∈ t1_alignments r ↔
     al_key a = al_category a +:+ "|" +:+ al_currency a ∧ is_currency_code (al_currency a) = true ∧
     ids_under billed (al_key a) (align_rows bs xs) = [al_chargeFactId a] ∧
     ids_under expected (al_key a) (align_rows bs xs) = [al_expectedChargeId a]) ∧
  map al_chargeFactId (t1_alignments r) ++ concat (map is_chargeFactIds (t1_unassessable r)) ≡ₚ
    map (λ b, trim (bc_chargeFactId b)) bs ∧
  map al_expectedChargeId (t1_alignments r) ++ concat (map is_expectedChargeIds (t1_unassessable r)) ≡ₚ
    map (λ x, trim (xc_expectedChargeId x)) xs.
Proof using Type.
  intros (st & Hst & Ha & Hu)%alignTier1_inv. cbv zeta in *. set (l := js_sort _ (as_buckets st)) in *.
  assert (l ≡ₚ as_buckets st) as Hl by apply js_sort_perm. rewrite Ha, Hu. split.
  - intros a. rewrite elem_of_lefts, list_elem_of_fmap. pose proof Hst as (_ & _ & _ & _ & Hnd & Hb). split.
    + intros ([key b] & Hj & Hin). rewrite Hl in Hin. apply map_get_Some in Hin; [|done]. rewrite Hb in Hin.
      apply row_bucket_Some in Hin as (Hm & Hk & Hc & _). symmetry in Hj. apply judge_inl in Hj as (-> & H1 & H2).
      rewrite Hm, side_ids_rows, js_sort_singleton in H1, H2. done.
    + intros (Hk & Hc & H1 & H2).
      destruct (row_bucket (align_rows bs xs) (al_key a)) as [b|] eqn:E.
      * exists (al_key a, b). rewrite Hl. rewrite <- Hb in E. split; [|by apply map_get_elem].
        rewrite Hb in E. apply row_bucket_Some in E as (Hm & Hk' & Hc' & _). symmetry. apply judge_inl.
        rewrite Hm, !side_ids_rows, !js_sort_singleton. split; [|done].
        rewrite Hk in Hk'. apply key_split in Hk' as [<- <-]; [|done..]. by destruct a.
      * exfalso. unfold ids_under in H1. rewrite filter_none in H1; [done|]. by apply row_bucket_None.
  - rewrite <- (concat_singletons al_chargeFactId), <- (concat_singletons al_expectedChargeId), <- (ids_on_billed bs xs),
      <- (ids_on_expected bs xs). split.
    + rewrite (concat_map_perm is_chargeFactIds) by apply js_sort_perm. by apply (partitioned billed).
    + rewrite (concat_map_perm is_expectedChargeIds) by apply js_sort_perm. by apply (partitioned expected).
Qed.

(** *** The order of the input *)

Lemma code_unit_sorted_perm (l l' : list string) : l ≡ₚ l' → js_sort code_unit_compare l = js_sort code_unit_compare l'.
Proof using Type. intros Hp. apply js_sort_unique; [apply _|done|]. intros x y _ _ Hc. by apply String.compare_eq_iff. Qed.

Definition decision_key (x : Tier1Alignment + AlignmentIssue) : string :=
  match x with inl a => al_key a | inr i => is_key i end.
Lemma judge_key e : decision_key (judge e) = e.1.
Proof using Type.
  destruct e as [key b]. unfold judge.
  by destruct (side_ids billed _) as [|c [|c2 cs]], (side_ids expected _) as [|x [|x2 xs]].
Qed.

Lemma judge_same key b b' : bu_category b = bu_category b' → bu_currency b = bu_currency b' →
  (∀ s, side_ids s (bu_members b) = side_ids s (bu_members b')) → judge (key, b) = judge (key, b').
Proof using Type. intros Hc Hu Hs. unfold judge. by rewrite !Hs, Hc, Hu. Qed.

Lemma filter_perm {A} (p : A → bool) l l' : l ≡ₚ l' → List.filter p l ≡ₚ List.filter p l'.
Proof using Type. induction 1; cbn; repeat case_match; eauto using Permutation. Qed.

Lemma judged_bucket st st' rows rows' key b : rows ≡ₚ rows' → aligned_state st rows → aligned_state st' rows' →
  (key, b) ∈ as_buckets st → judge (key, b) ∈ map judge (as_buckets st').
Proof using Type.
  intros Hp (_ & _ & _ & _ & Hnd & Hb) (_ & _ & _ & _ & _ & Hb') Hin.
  apply map_get_Some in Hin; [|done]. rewrite Hb in Hin. apply row_bucket_Some in Hin as (Hm & Hk & Hc & Hne).
  destruct (row_bucket rows' key) as [b'|] eqn:E.
  - apply list_elem_of_fmap. exists (key, b'). split; [|apply map_get_elem; by rewrite Hb'].
    apply row_bucket_Some in E as (Hm' & Hk' & Hc' & _). rewrite Hk in Hk'.
    apply key_split in Hk' as [Hcat Hcur]; [|done..]. apply judge_same; [done..|]. intros s.
    rewrite Hm, Hm', !side_ids_rows. apply code_unit_sorted_perm, ids_on_perm. by apply filter_perm.
  - exfalso. pose proof (row_bucket_None _ _ E) as Hnone. apply Hne, filter_none. intros r Hr. apply Hnone. by rewrite <- Hp.
Qed.

Lemma judged_NoDup st rows : aligned_state st rows → NoDup (map judge (as_buckets st)).
Proof using Type.
  intros (_ & _ & _ & _ & Hnd & _). apply (NoDup_fmap_1 decision_key).
  change (NoDup (map decision_key (map judge (as_buckets st)))). rewrite map_map.
  by rewrite (map_ext _ fst) by apply judge_key.
Qed.

Lemma judged_perm st st' rows rows' : rows ≡ₚ rows' → aligned_state st rows → aligned_state st' rows' →
  map judge (as_buckets st) ≡ₚ map judge (as_buckets st').
Proof using Type.
  intros Hp Hst Hst'. apply NoDup_Permutation; [by eapply judged_NoDup..|]. intros x. split.
  - intros ([key b] & -> & Hin)%list_elem_of_fmap. by eapply judged_bucket.
  - intros ([key b] & -> & Hin)%list_elem_of_fmap. apply (judged_bucket st' st rows' rows); [by symmetry|done..].
Qed.

(** Keys are upper case; the keys of unclassified charges are not. *)
Lemma upper_char_not_lower c : is_lower (upper_char c) = false.
Proof using Type. by destruct c as [[] [] [] [] [] [] [] []]. Qed.
Lemma scoped_not_key rows key s i b : row_bucket rows key = Some b → key ≠ scoped_id s i.
Proof using Type.
  unfold row_bucket. destruct (List.filter (has_key key) rows) as [|r l] eqn:Hl; [done|]. intros _.
  apply head_keyed in Hl as ([c u] & Hk). pose proof (canonicalKey_key _ _ _ _ Hk) as (-> & _ & Hne). cbn in Hne.
  unfold canonicalKey in Hk. destruct (_ && _); [|done]. injection Hk as _ <- _. unfold canonical_text in *.
  destruct (ar_category r) as [cat|]; [|done]. cbn in *. destruct (trim cat) as [|x t]; [done|]. cbn. intros Heq.
  assert (∃ y z, scoped_id s i = String y z ∧ is_lower y = true) as (y & z & Hs & Hy) by (destruct s; by repeat eexists).
  rewrite Hs in Heq. injection Heq as Hx _. rewrite <- Hx, upper_char_not_lower in Hy. done.
Qed.

Lemma issue_keys_NoDup st rows l : aligned_state st rows → l ≡ₚ as_buckets st →
  NoDup (map is_key (as_missing st ++ rights (map judge l))).
Proof using Type.
  intros (Hids & Hnd & _ & Hmiss & Hkeys & Hb) Hl. rewrite map_app. apply NoDup_app. split_and!.
  - rewrite Hmiss, map_map. rewrite Hids in Hnd. cbn. revert Hnd. clear. induction rows as [|r rows IH]; [done|]. cbn.
    intros [Hr Hnd]%NoDup_cons. destruct (unkeyed r); [|by apply IH]. cbn. apply NoDup_cons. split; [|by apply IH].
    intros (r' & Hk & [Hin _]%list_elem_of_In%filter_In)%list_elem_of_fmap. apply Hr. apply list_elem_of_fmap.
    exists r'. split; [done|]. by apply list_elem_of_In.
  - intros k (i & -> & Hi)%list_elem_of_fmap (i' & Hk & Hi')%list_elem_of_fmap.
    rewrite Hmiss in Hi. apply list_elem_of_fmap in Hi as (r & -> & _). cbn in Hk.
    unfold rights in Hi'. apply list_elem_of_omap in Hi' as ([|] & Hx & [= ->]).
    apply list_elem_of_fmap in Hx as ([key b] & Hj & Hin). pose proof (judge_key (key, b)) as Hjk. rewrite <- Hj in Hjk. cbn in Hjk.
    rewrite Hl in Hin. apply map_get_Some in Hin; [|done]. rewrite Hb in Hin.
    eapply scoped_not_key in Hin. apply Hin. rewrite <- Hjk, <- Hk. done.
  - assert (NoDup (map fst l)) as Hndl by (rewrite (Permutation_map fst Hl); exact Hkeys).
    apply (sublist_NoDup _ (map fst l)); [done|].
    rewrite <- (map_ext _ _ judge_key l), <- (map_map judge decision_key). generalize (map judge l) as k. clear.
    induction k as [|[a|i] k IH]; cbn; [done|by apply sublist_cons|by apply sublist_skip].
Qed.
End tier1.

Section tier1_order.
Context {C : Collator} {CL : CollatorLaws C}.

Lemma sort_unique_key {A} (key : A → string) (l l' : list A) : (∀ a b, localeCompare a b = Eq → a = b) → l ≡ₚ l' →
  NoDup (map key l) → js_sort (cmp_on key localeCompare) l = js_sort (cmp_on key localeCompare) l'.
Proof using CL.
  intros Hsep Hp Hnd. apply js_sort_unique; [apply _|done|]. intros x y Hx Hy Hc%Hsep. by eapply NoDup_map_inj.
Qed.

(** Tier 1 never guesses by input order: with a collation that tells keys
    apart, any reordering of the billed and of the expected charges gives the same
    alignments and issues, in the same order, and is accepted as well. *)
Theorem alignTier1_order_independent bs xs bs' xs' r :
  (∀ a b, localeCompare a b = Eq → a = b) → bs ≡ₚ bs' → xs ≡ₚ xs' →
  alignTier1Charges bs xs = Ok r → alignTier1Charges bs' xs' = Ok r.
Proof using CL.
  intros Hsep Hbs Hxs Hr. assert (align_rows bs xs ≡ₚ align_rows bs' xs') as Hp.
  { unfold align_rows. by rewrite Hbs, Hxs. }
  assert (∃ r', alignTier1Charges bs' xs' = Ok r') as [r' Hr'].
  { assert (rows_ok (align_rows bs' xs')) as [Hne Hnd].
    { apply (rows_ok_perm (align_rows bs xs)); [done|]. unfold alignTier1Charges in Hr.
      apply bind_Ok in Hr as (st1 & H1 & (st & H2 & _)%bind_Ok). apply (add_rows_ok _ st). unfold align_rows. by rewrite fold_res_app, H1. }
    destruct (add_rows_accepts (align_rows bs' xs') (mkAlign [] [] []) Hne Hnd) as [st Hst].
    unfold align_rows in Hst. rewrite fold_res_app in Hst. apply bind_Ok in Hst as (st1 & H1 & H2).
    unfold alignTier1Charges. rewrite H1, bind_ret_l, H2, bind_ret_l. case_match. by eexists. }
  rewrite Hr'. f_equal. apply alignTier1_inv in Hr as (st & Hst & Ha & Hu), Hr' as (st' & Hst' & Ha' & Hu').
  assert (map judge (js_sort (cmp_on fst localeCompare) (as_buckets st)) =
          map judge (js_sort (cmp_on fst localeCompare) (as_buckets st'))) as Hj.
  { rewrite <- !(js_sort_map judge _ (cmp_on decision_key localeCompare)) by (intros; unfold cmp_on; by rewrite !judge_key).
    apply sort_unique_key; [done|by eapply judged_perm|]. rewrite map_map, (map_ext _ fst) by apply judge_key. apply Hst. }
  assert (t1_alignments r = t1_alignments r') as Heq by by rewrite Ha, Ha', Hj.
  assert (t1_unassessable r = t1_unassessable r') as Hequ.
  { rewrite Hu, Hu', <- Hj. symmetry. apply sort_unique_key; [done| |].
    - apply Permutation_app_tail. destruct Hst as (_ & _ & _ & -> & _), Hst' as (_ & _ & _ & -> & _).
      apply Permutation_map, filter_perm. by rewrite Hp.
    - rewrite Hj. eapply issue_keys_NoDup; [exact Hst'|apply js_sort_perm]. }
  clear -Heq Hequ. destruct r, r'. cbn in *. congruence.
Qed.
End tier1_order.

(** ** Grouped variances *)

Section variances.
Context {D : DecimalJs} {L : DecimalLaws D} {C : Collator}.

Definition member_units (m : VarianceMember) : Z := default 0 (money_units (vm_amount m)).
Definition total_units (l : list VarianceMember) : Z := zsum (map member_units l).
(** Amounts of at most four decimals whose total fits 20 digits. *)
Definition plain_members (l : list VarianceMember) : Prop :=
  Forall (λ m, is_Some (money_units (vm_amount m))) l ∧ zsum (map (λ m, Z.abs (member_units m)) l) < 10 ^ 20.

Lemma member_amount_exact m d : is_Some (money_units (vm_amount m)) → member_amount m = Ok d →
  d ≐ member_units m ∧ d_isNeg d = false ∧ 0 <= member_units m.
Proof using L.
  intros [z Hz]. unfold member_amount, member_units. rewrite Hz. destruct (money_new _ _ Hz) as (d' & -> & Hd).
  intros (u & Hg%guard_or_Ok & [= <-])%bind_Ok. apply andb_true_iff in Hg as [_ Hneg%negb_true_iff]. split_and!; [done|done|].
  destruct (decide (0 <= z)) as [|Hlt]; [done|]. rewrite (money_neg d' z) in Hneg by (done || lia). done.
Qed.

Lemma members_total_exact l d : plain_members l → members_total l = Ok d →
  d ≐ total_units l ∧ d_isNeg d = false ∧ 0 <= total_units l.
Proof using L.
  intros [Hall Hb]. unfold members_total, total_units.
  enough (∀ d0 z0, d0 ≐ z0 → d_isNeg d0 = false → 0 <= z0 → z0 + zsum (map (λ m, Z.abs (member_units m)) l) < 10 ^ 20 →
    fold_res (λ sum m, v ← member_amount m; Ok (d_plus sum v)) d0 l = Ok d →
    d ≐ z0 + zsum (map member_units l) ∧ d_isNeg d = false ∧ 0 <= z0 + zsum (map member_units l)) as Hgen.
  { intros Hd. destruct (law_int 0) as (_ & _ & Hneg); [done|].
    specialize (Hgen (d_of_int 0) 0 money_zero). rewrite !Z.add_0_l in Hgen. by apply Hgen. }
  clear Hb. induction Hall as [|m l Hm _ IH]; intros d0 z0 Hd0 Hn0 Hz0 Hb.
  - rewrite fold_res_nil. intros [= <-]. cbn [map zsum foldr]. by rewrite Z.add_0_r.
  - rewrite fold_res_cons. intros (d1 & (v & Hv & [= <-])%bind_Ok & Hd)%bind_Ok.
    apply member_amount_exact in Hv as (Hv & Hvn & Hvz); [|done]. cbn [map zsum foldr] in Hb |- *.
    assert (0 <= zsum (map (λ m, Z.abs (member_units m)) l)) as Hpos.
    { clear. induction l as [|m l IH]; cbn; [done|]. unfold zsum in *. lia. }
    unfold zsum in *. apply (IH (d_plus d0 v) (z0 + member_units m)) in Hd as (H1 & H2 & H3); [|apply money_plus; [done..|lia]| |lia|lia].
    + rewrite !Z.add_assoc. by split_and!.
    + apply law_plus_sign; [apply Hd0|apply Hv|done..].
Qed.

(** The direction of a variance: a balanced group counts as overcharged. *)
Lemma variance_direction b e x y : b ≐ x → e ≐ y → d_isNeg b = false → d_isNeg e = false → Z.abs (x - y) < 10 ^ 20 →
  let v := d_toDP 4 (d_minus b e) in
  d_toFixed 4 v = fixed 4 (x - y) ∧
  (if d_isPos v then OVERCHARGE else if d_isNeg v then UNDERCHARGE else CONFORMED) =
  (if y <=? x then OVERCHARGE else UNDERCHARGE).
Proof using L.
  intros Hb He Hbn Hen Hlt v. assert (d_minus b e ≐ x - y) as Hm by by apply money_minus.
  assert (v ≐ x - y) as Hv by by apply money_toDP. split; [by apply money_fixed|].
  assert (d_isNeg v = negb (y <=? x)) as Hn.
  { destruct (Z.leb_spec y x) as [Hle|Hlt']; cbn [negb]; [|apply (money_neg v (x - y)); [done|lia]].
    destruct (decide (x = y)) as [->|Hne]; [|apply (money_nonneg v (x - y)); [done|lia]].
    unfold v. destruct (law_toDP 4 (d_minus b e)) as (_ & _ & ->); [apply Hm|].
    apply law_minus_zero; [apply Hb|apply He|done|done|]. rewrite (proj2 Hb), (proj2 He). done. }
  rewrite law_pos by apply Hv. rewrite Hn. by destruct (y <=? x).
Qed.

Definition member_ids (l : list VarianceMember) : list string := map (λ m, trim (vm_id m)) l.
Definition attribution_ids (a : VarianceAttribution) : list string := at_billedIds a ++ at_expectedIds a.
Definition request_key (q : VarianceAttributionRequest) : string := scoped_key (va_level q) (trim (va_key q)).

(** [a] is the variance of the request [q]. *)
Definition attributed_from (q : VarianceAttributionRequest) (a : VarianceAttribution) : Prop :=
  at_level a = va_level q ∧ at_key a = trim (va_key q) ∧
  at_billedIds a ≡ₚ member_ids (va_billed q) ∧ at_expectedIds a ≡ₚ member_ids (va_expected q) ∧
  is_currency_code (at_currency a) = true ∧
  (∀ m, m ∈ va_billed q ++ va_expected q → to_upper (trim (vm_currency m)) = at_currency a) ∧
  (plain_members (va_billed q) → plain_members (va_expected q) →
     let b := total_units (va_billed q) in let x := total_units (va_expected q) in
     at_billedTotal a = fixed 4 b ∧ at_expectedTotal a = fixed 4 x ∧ at_varianceAmount a = fixed 4 (b - x) ∧
     at_direction a = if x <=? b then OVERCHARGE else UNDERCHARGE).

Lemma add_members scopedKey ids l ids' : fold_res (claim_member scopedKey) ids l = Ok ids' → NoDup ids →
  ids' = ids ++ member_ids l ∧ NoDup ids'.
Proof using Type.
  revert ids. induction l as [|m l IH]; intros ids.
  - rewrite fold_res_nil. intros [= <-] Hnd. by rewrite app_nil_r.
  - rewrite fold_res_cons. intros (ids1 & Hm & Hl)%bind_Ok Hnd. unfold claim_member in Hm. res_inv.
    match goal with Hn : negb (bool_decide (_ ∈ _)) = true |- _ => apply negb_true_iff, bool_decide_eq_false in Hn as Hnew end.
    apply IH in Hl as [-> Hnd']; [by rewrite <- app_assoc in Hnd' |- *|].
    apply NoDup_app. split; [done|]. split; [|apply NoDup_singleton]. by intros y Hy ->%list_elem_of_singleton.
Qed.

(** One request: an issue, or its exact variance, with members of its own. *)
Lemma attribute_step_spec st q st' : attribute_step st q = Ok st' → NoDup (ag_keys st) → NoDup (ag_memberIds st) →
  ag_keys st' = ag_keys st ++ [request_key q] ∧ NoDup (ag_keys st') ∧ NoDup (ag_memberIds st') ∧
  ((∃ reason, ag_memberIds st' = ag_memberIds st ∧ ag_attributed st' = ag_attributed st ∧
      ag_unassessable st' = ag_unassessable st ++ [mkAttributionIssue (va_level q) (trim (va_key q)) reason]) ∨
   ∃ a, attributed_from q a ∧ ag_memberIds st' = ag_memberIds st ++ member_ids (va_billed q ++ va_expected q) ∧
      ag_attributed st' = ag_attributed st ++ [a] ∧ ag_unassessable st' = ag_unassessable st).
Proof using L.
  unfold attribute_step. intros (u1 & Hk%guard_or_Ok & (u2 & Hnew%guard_or_Ok & Hst)%bind_Ok)%bind_Ok Hndk Hndm.
  apply negb_true_iff, bool_decide_eq_false in Hnew. fold (request_key q) in *.
  assert (NoDup (ag_keys st ++ [request_key q])) as Hndk'.
  { apply NoDup_app. split; [done|]. split; [|apply NoDup_singleton]. by intros y Hy ->%list_elem_of_singleton. }
  case_match; [injection Hst as <-; split_and!; [done..|left; by eexists]|].
  case_match eqn:Hcur; [injection Hst as <-; split_and!; [done..|left; by eexists]|].
  case_match; [|injection Hst as <-; split_and!; [done..|left; by eexists]].
  case_match eqn:Hcode; [injection Hst as <-; split_and!; [done..|left; by eexists]|].
  apply bind_Ok in Hst as (ids & Hids & (b & Hb & (x & Hx & [= <-])%bind_Ok)%bind_Ok).
  apply add_members in Hids as [-> Hndm']; [|done]. cbn [ag_keys ag_memberIds ag_attributed ag_unassessable].
  split_and!; [done..|]. right. eexists. split_and!; [|done..]. apply negb_false_iff in Hcode. subst.
  split_and!; cbn [at_level at_key at_currency at_billedIds at_expectedIds at_billedTotal at_expectedTotal at_varianceAmount at_direction];
    [done|done|apply js_sort_perm|apply js_sort_perm|done| |].
  - intros m Hm. apply list_elem_of_singleton. rewrite <- Hcur. apply elem_of_set_of.
    by apply (list_elem_of_fmap_2 (λ m, to_upper (trim (vm_currency m)))).
  - intros Hpb Hpx. destruct (members_total_exact _ _ Hpb Hb) as (Hbd & Hbn & Hbz), (members_total_exact _ _ Hpx Hx) as (Hxd & Hxn & Hxz).
    assert (∀ l, plain_members l → total_units l < 10 ^ 20) as Hlt.
    { intros l [_ Hl]. unfold total_units. change (zsum (map ?f l)) with (zsum_by f l) in *.
      pose proof (zsum_by_triangle member_units l). unfold zsum_by in *. lia. }
    destruct (variance_direction b x _ _ Hbd Hxd Hbn Hxn) as [Hv Hdir]; [pose proof (Hlt _ Hpb); pose proof (Hlt _ Hpx); lia|].
    rewrite (money_fixed _ _ (money_toDP _ _ Hbd)), (money_fixed _ _ (money_toDP _ _ Hxd)). done.
Qed.

Definition issue_key (i : VarianceAttributionIssue) : string := scoped_key (ai_level i) (ai_key i).
Definition attribution_scope (a : VarianceAttribution) : string := scoped_key (at_level a) (at_key a).

(** The loop after the requests [seen]. *)
Definition attributed_state (st : attribution_state) (seen : list VarianceAttributionRequest) : Prop :=
  (∀ a, a ∈ ag_attributed st → ∃ q, q ∈ seen ∧ attributed_from q a) ∧
  ag_memberIds st ≡ₚ concat (map attribution_ids (ag_attributed st)) ∧ NoDup (ag_memberIds st) ∧
  ag_keys st = map request_key seen ∧ NoDup (ag_keys st) ∧
  map attribution_scope (ag_attributed st) ++ map issue_key (ag_unassessable st) ≡ₚ map request_key seen.

Lemma attribute_loop st seen q st' : attributed_state st seen → attribute_step st q = Ok st' → attributed_state st' (seen ++ [q]).
Proof using L.
  intros (Ha & Hm & Hndm & Hk & Hndk & Hall) Hst.
  destruct (attribute_step_spec _ _ _ Hst Hndk Hndm) as (Hk' & Hndk' & Hndm' & Hcase).
  assert (ag_keys st' = map request_key (seen ++ [q])) as Hkeys by by rewrite Hk', Hk, map_app.
  destruct Hcase as [(reason & Em & Ea & Eu)|(a & Hq & Em & Ea & Eu)]; unfold attributed_state; rewrite Ea, Eu.
  - split_and!; [|by rewrite Em|done..|].
    + intros a (q' & ? & ?)%Ha. exists q'. split; [|done]. apply elem_of_app. by left.
    + rewrite !map_app. cbn [map]. rewrite app_assoc, Hall. done.
  - split_and!; [| |done..|].
    + intros a' [(q' & ? & ?)%Ha| ->%list_elem_of_singleton]%elem_of_app; [exists q'|exists q]; rewrite elem_of_app, ?list_elem_of_singleton; auto.
    + rewrite Em, map_app, concat_app, Hm. cbn. rewrite app_nil_r. apply Permutation_app_head.
      destruct Hq as (_ & _ & Hb & Hx & _). unfold attribution_ids. rewrite Hb, Hx. unfold member_ids. by rewrite map_app.
    + rewrite !map_app. cbn [map]. rewrite <- Hall, <- !app_assoc. apply Permutation_app_head.
      replace (attribution_scope a) with (request_key q); [apply Permutation_app_comm|].
      destruct Hq as (Hl & Hkq & _). unfold request_key, attribution_scope. by rewrite Hl, Hkq.
Qed.

(** C17: grouped variances are exact, and no charge is counted twice: every
    request is answered once, by an issue or by an attribution of exactly its
    members, all in one currency; with amounts of at most four decimals, its totals
    and its variance are exact, and it is an undercharge when billed below
    expected and an overcharge otherwise, the balanced case included: no
    attribution is ever CONFORMED. *)
Theorem attribution_exact requests attributed issues :
  attributeGroupedVariance requests = Ok (attributed, issues) →
  (∀ a, a ∈ attributed → ∃ q, q ∈ requests ∧ attributed_from q a) ∧
  NoDup (concat (map attribution_ids attributed)) ∧
  map attribution_scope attributed ++ map issue_key issues ≡ₚ map request_key requests.
Proof using L.
  unfold attributeGroupedVariance. intros (st & Hst & [= <- <-])%bind_Ok.
  assert (attributed_state st (js_sort (cmp_on (λ r, scoped_key (va_level r) (va_key r)) localeCompare) requests))
    as (Ha & Hm & Hndm & _ & _ & Hall).
  { eapply (fold_res_inv attributed_state); [|intros; by eapply attribute_loop|exact Hst].
    split_and!; try done; [|constructor..]. intros a Ha%elem_of_nil. done. }
  split_and!.
  - intros a (q & Hq & ?)%Ha. exists q. by rewrite elem_of_js_sort in Hq.
  - by rewrite <- Hm.
  - rewrite Hall. apply Permutation_map, js_sort_perm.
Qed.
End variances.

(** ** Expected amounts *)

(** [h] ten-thousandths is [k / 10^sc] rounded to the nearest. *)
Definition rounds (h k : Z) (sc : nat) : Prop := 2 * Z.abs (h * 10 ^ Z.of_nat sc - k * 10 ^ 4) <= 10 ^ Z.of_nat sc.

Lemma half_up_near n q : (Qabs.Qabs (inject_Z (half_up n q) - q * inject_Z (10 ^ Z.of_nat n)) <= 1 # 2)%Q.
Proof.
  unfold half_up. set (x := (q * inject_Z (10 ^ Z.of_nat n))%Q).
  assert (∀ y, (Qabs.Qabs (inject_Z (Qfloor (y + (1 # 2))) - y) <= 1 # 2)%Q) as Hf.
  { intros y. pose proof (Qfloor_le (y + (1 # 2))). pose proof (Qlt_floor (y + (1 # 2))) as Hlt.
    rewrite inject_Z_plus in Hlt. change (inject_Z 1) with 1%Q in Hlt. apply Qabs.Qabs_Qle_condition. split; lra. }
  destruct (Qle_bool 0 x); [apply Hf|]. specialize (Hf (- x)%Q). rewrite inject_Z_opp.
  apply Qabs.Qabs_Qle_condition in Hf. apply Qabs.Qabs_Qle_condition. split; lra.
Qed.

Lemma half_up_rounds k sc : rounds (half_up 4 (scaled k sc)) k sc.
Proof.
  pose proof (half_up_near 4 (scaled k sc)) as Hn. unfold rounds. set (h := half_up 4 (scaled k sc)) in *.
  pose proof (pow10_Q sc) as Hp. set (p := 10 ^ Z.of_nat sc) in *.
  apply Qabs.Qabs_Qle_condition in Hn as [Hlo Hhi]. unfold scaled in *. fold p in Hlo, Hhi.
  assert (inject_Z k / inject_Z p * inject_Z (10 ^ Z.of_nat 4) * inject_Z p == inject_Z (k * 10 ^ 4))%Q as Hk.
  { rewrite inject_Z_mult. change (10 ^ Z.of_nat 4) with (10 ^ 4). field. lra. }
  assert (∀ a b, (inject_Z a <= inject_Z b)%Q → a <= b) as Hz by (intros a b; by rewrite <- Zle_Qle).
  set (v := (inject_Z k / inject_Z p * inject_Z (10 ^ Z.of_nat 4))%Q) in *.
  assert (- p <= 2 * (h * p - k * 10 ^ 4) ∧ 2 * (h * p - k * 10 ^ 4) <= p) as [H1 H2]; [|lia].
  split; apply Hz; rewrite ?inject_Z_opp, inject_Z_mult, <- Z.add_opp_r, inject_Z_plus, inject_Z_opp, inject_Z_mult, <- Hk;
    change (inject_Z 2) with 2%Q; nra.
Qed.

Lemma half_up_scaled_nonneg k sc : 0 <= k → 0 <= half_up 4 (scaled k sc).
Proof.
  intros Hk. pose proof (half_up_rounds k sc) as Hr. unfold rounds in Hr. pose proof (pow10_pos sc).
  set (h := half_up 4 (scaled k sc)) in *. set (p := 10 ^ Z.of_nat sc) in *. nia.
Qed.

Section expected_amounts.
Context {D : DecimalJs} {L : DecimalLaws D} {C : Collator} {H : Sha256}.

(** A decimal that holds [k / 10^sc], at least 0. *)
Definition holds (d : dec) (k : Z) (sc : nat) : Prop := d_isFinite d = true ∧ (dval d == scaled k sc)%Q ∧ 0 <= k.

Lemma non_negative_holds value field d k sc : plain value = Some (k, sc) → non_negative value field = Ok d → holds d k sc.
Proof using L.
  intros Hp. unfold non_negative. destruct (law_new _ _ _ Hp) as (d' & -> & Hf & Hv).
  intros (u & Hg%guard_or_Ok & [= <-])%bind_Ok. apply andb_true_iff in Hg as [_ Hn%negb_true_iff].
  split_and!; [done|done|]. destruct (decide (0 <= k)) as [|Hk]; [done|]. rewrite law_neg in Hn; [done|done|].
  rewrite Hv, <- (scaled_0 sc). apply Qlt_alt. rewrite scaled_cmp. apply Z.compare_lt_iff. lia.
Qed.

(** What is recorded for an exactly held amount. *)
Lemma amount_text d k sc : holds d k sc → ∃ h, d_toFixed 4 (d_toDP 4 d) = fixed 4 h ∧ 0 <= h ∧ rounds h k sc.
Proof using L.
  intros (Hf & Hv & Hk). exists (half_up 4 (scaled k sc)). split_and!; [|by apply half_up_scaled_nonneg|apply half_up_rounds].
  destruct (law_toDP 4 d Hf) as (Hf' & Hv' & _). apply money_fixed. split; [done|]. rewrite Hv', Hv. done.
Qed.

(** The exact amount of a calculation, as a scaled integer. *)
Definition exact_amount (c : ExpectedChargeCalculation) : option (Z * nat) :=
  match c with
  | FLAT amount => plain amount
  | RATE_TIMES_BASIS rate basis => '(m, k) ← plain rate; '(n, l) ← plain basis; Some (m * n, (k + l)%nat)
  end.

Lemma calculate_holds key c d j k sc : calculate key c = Ok (d, j) → exact_amount c = Some (k, sc) →
  k < 10 ^ 20 → (sc <= 40)%nat → holds d k sc.
Proof using L.
  destruct c as [amount|rate basis]; cbn [calculate exact_amount].
  - intros (d' & Hd & [= <- <-])%bind_Ok Hp _ _. by eapply non_negative_holds.
  - intros (r & Hr & (b & Hb & [= <- <-])%bind_Ok)%bind_Ok ([m x] & Hm & ([n y] & Hn & [= <- <-])%bind_Some)%bind_Some Hlt Hsc.
    destruct (non_negative_holds _ _ _ _ _ Hm Hr) as (Hrf & Hrv & Hr0), (non_negative_holds _ _ _ _ _ Hn Hb) as (Hbf & Hbv & Hb0).
    assert (dval r * dval b == scaled (m * n) (x + y))%Q as Hq by by rewrite Hrv, Hbv, scaled_times.
    destruct (law_times r b Hrf Hbf) as [Hf Hv].
    { exists (m * n), (x + y)%nat. split_and!; [|done|done]. rewrite Z.abs_eq by nia. done. }
    split_and!; [done|by rewrite Hv|nia].
Qed.

(** [g] is what [spec] generates. *)
Definition generated_from (spec : ExpectedChargeSpec) (g : GeneratedExpectedCharge) : Prop :=
  ge_sourceKey g = trim (xs_sourceKey spec) ∧ ge_sourceKey g ≠ "" ∧ ge_category g ≠ "" ∧
  is_currency_code (ge_currency g) = true ∧ ge_idempotencyKey g = idempotency_key (ge_sourceKey g) ∧
  ∀ k sc, exact_amount (xs_calculation spec) = Some (k, sc) → k < 10 ^ 20 → (sc <= 40)%nat →
    ∃ h, ge_expectedAmount g = fixed 4 h ∧ 0 <= h ∧ rounds h k sc.

Lemma generate_step_spec seen gen spec seen' gen' : generate_step (seen, gen) spec = Ok (seen', gen') →
  ∃ g, generated_from spec g ∧ gen' = gen ++ [g] ∧ seen' = seen ++ [ge_sourceKey g] ∧ ge_sourceKey g ∉ seen.
Proof using L.
  unfold generate_step. intros (u1 & Hk%guard_or_Ok & Hr1)%bind_Ok. apply bind_Ok in Hr1 as (u2 & Hc%guard_or_Ok & Hr2).
  apply bind_Ok in Hr2 as (u3 & Hu%guard_or_Ok & Hr3). apply bind_Ok in Hr3 as (u4 & Hn%guard_or_Ok & Hr4).
  apply bind_Ok in Hr4 as ([d j] & Hcalc & [= <- <-]).
  unfold truthy in Hk, Hc. apply negb_true_iff, bool_decide_eq_false in Hk, Hc, Hn.
  eexists. split_and!; [|done..]. split_and!; cbn [ge_sourceKey ge_category ge_currency ge_idempotencyKey ge_expectedAmount]; try done.
  intros k sc Hex Hlt Hsc. by eapply amount_text, calculate_holds.
Qed.

Definition generated_state (st : list string * list GeneratedExpectedCharge) (specs : list ExpectedChargeSpec) : Prop :=
  length st.2 = length specs ∧ st.1 = map ge_sourceKey st.2 ∧ NoDup st.1 ∧
  ∀ g, g ∈ st.2 → ∃ spec, spec ∈ specs ∧ generated_from spec g.
Lemma generate_loop st spec st' specs :
  generated_state st specs → generate_step st spec = Ok st' → generated_state st' (specs ++ [spec]).
Proof using L.
  destruct st as [s1 g1], st' as [s2 g2]. intros (Hl & Hs & Hnd & Hg) (g & Hf & -> & -> & Hnew)%generate_step_spec.
  cbn in *. subst s1. split_and!; cbn [fst snd]; [by rewrite !length_app, Hl|by rewrite map_app| |].
  - apply NoDup_app. split; [done|]. split; [|apply NoDup_singleton]. by intros y Hy ->%list_elem_of_singleton.
  - intros g' [(q & ? & ?)%Hg| ->%list_elem_of_singleton]%elem_of_app; [exists q|exists spec];
      rewrite elem_of_app, ?list_elem_of_singleton; auto.
Qed.

(** C32: an expected charge is its calculation to the nearest ten-thousandth: each
    specification gives one charge, with a source key of its own; a flat amount, or
    a rate times a basis whose product has at most 20 digits, is off by at most
    half a ten-thousandth, is not negative, and is in a currency of three letters. *)
Theorem expected_amounts_bounded specs charges : generateExpectedCharges specs = Ok charges →
  length charges = length specs ∧ NoDup (map ge_sourceKey charges) ∧
  ∀ g, g ∈ charges → ∃ spec, spec ∈ specs ∧ generated_from spec g.
Proof using L.
  unfold generateExpectedCharges. intros ([seen gen] & Hgen & [= <-])%bind_Ok.
  assert (generated_state (seen, gen) specs) as (Hl & Hs & Hnd & Hg).
  { apply (fold_res_inv generated_state generate_step ([], []) specs (seen, gen)); [|by apply generate_loop|exact Hgen].
    split_and!; [done|done|constructor|]. by intros g Hg%elem_of_nil. }
  cbn in Hl, Hs, Hnd, Hg. subst seen.
  split_and!.
  - by rewrite js_sort_length.
  - by rewrite js_sort_perm.
  - intros g Hin. apply Hg. by rewrite elem_of_js_sort in Hin.
Qed.
End expected_amounts.

(** ** Persisting expected charges *)

Section retries.
Context {D : DecimalJs} {L : DecimalLaws D} {C : Collator} {H : Sha256}.
Implicit Types (g : GeneratedExpectedCharge) (t : list expected_charge).

(** A charge whose columns read back as they were written. *)
Definition reads_back_as (o : option string) : Prop := pg_uuid <$> o = o.
Definition storable g : Prop :=
  (∃ h, ge_expectedAmount g = fixed 4 h) ∧ print (jsonb (ge_calculation g)) = print (ge_calculation g) ∧
  reads_back_as (ge_chargeFactId g) ∧ reads_back_as (ge_clauseId g) ∧ reads_back_as (ge_rateCellId g) ∧
  reads_back_as (ge_sourceDocumentId g).

(** [id] is the row that holds [g]. *)
Definition recorded (clientId runId id : string) g t : Prop :=
  is_ok (numeric_column (ge_expectedAmount g)) = true ∧ is_currency_code (ge_currency g) = true ∧
  ∃ row stored, select_one (same_expected clientId runId (ge_idempotencyKey g)) t = Some row ∧ ec_id row = id ∧
    stored_amount (ec_expected_amount row) = Ok stored ∧ exact_retry row stored g = true.

Lemma stored_amount_fixed m : stored_amount m = Ok (fixed 4 m).
Proof using L.
  unfold stored_amount, numeric_text. destruct (money_new _ _ (money_units_fixed m)) as (d & -> & Hd).
  by rewrite (money_fixed _ _ Hd).
Qed.

Lemma new_row_retries newId clientId runId g m : storable g → numeric_column (ge_expectedAmount g) = Ok m →
  exact_retry (expected_row_of newId clientId runId m g) (fixed 4 m) g = true.
Proof using Type.
  intros ([h Hh] & Hj & H1 & H2 & H3 & H4) Hm. unfold numeric_column in Hm. rewrite Hh, money_units_fixed in Hm.
  case_match; [|done]. injection Hm as <-. unfold exact_retry. cbn. unfold reads_back_as in *.
  by rewrite !bool_decide_eq_true_2 by (done || congruence).
Qed.

Lemma persist_charge_records newId clientId runId g t id t' : storable g →
  persist_charge newId clientId runId g t = Ok (id, t') →
  recorded clientId runId id g t' ∧ (t' = t ∨ ∃ row, t' = t ++ [row] ∧ ec_id row = newId ∧ newId ∉ map ec_id t).
Proof using L.
  intros Hst. unfold persist_charge. intros (m & Hm & Hr1)%bind_Ok. apply bind_Ok in Hr1 as (u1 & Hc%guard_or_Ok & Hr2).
  apply bind_Ok in Hr2 as (u2 & Hn%guard_or_Ok & Hr3). apply negb_true_iff, bool_decide_eq_false in Hn.
  set (row := expected_row_of newId clientId runId m g) in *.
  destruct (insert_on_conflict _ _ t) as [created t1] eqn:E. apply insert_on_conflict_spec in E as [(-> & -> & Hnone)|(-> & -> & _)].
  - injection Hr3 as <- <-. split; [|right; by exists row]. split; [by rewrite Hm|]. split; [done|].
    exists row, (fixed 4 m). split_and!; [|done|apply stored_amount_fixed|by apply new_row_retries].
    rewrite select_one_app, (proj2 (select_one_None _ _)) by done. cbn.
    unfold same_expected. cbn. by rewrite !bool_decide_eq_true_2.
  - destruct (select_one _ t) as [r|] eqn:Er; [|done]. apply bind_Ok in Hr3 as (stored & Hs & Hr4).
    apply bind_Ok in Hr4 as (u3 & Hx%guard_or_Ok & [= <- <-]). split; [|by left].
    split; [by rewrite Hm|]. split; [done|]. by exists r, stored.
Qed.

Lemma recorded_later clientId runId id g t later : recorded clientId runId id g t → recorded clientId runId id g (t ++ later).
Proof using Type.
  intros (Hn & Hc & row & stored & Hs & ?). split; [done|]. split; [done|]. exists row, stored. by rewrite select_one_app, Hs.
Qed.

Lemma recorded_again newId clientId runId id g t : recorded clientId runId id g t → newId ∉ map ec_id t →
  persist_charge newId clientId runId g t = Ok (id, t).
Proof using Type.
  intros (Hn & Hc & row & stored & Hs & <- & Hst & Hx) Hnew. unfold persist_charge, guard_or.
  destruct (numeric_column _) as [m|]; [|done]. rewrite bind_ret_l, Hc, bind_ret_l, bool_decide_eq_false_2 by done.
  cbn [negb]. rewrite bind_ret_l. unfold insert_on_conflict.
  rewrite (proj2 (existsb_true _ _)) by (apply select_one_Some in Hs as [??]; eauto). by rewrite Hs, Hst, bind_ret_l, Hx.
Qed.

Lemma persist_records clientId runId cs acc t ids t' : Forall (λ e, storable e.2) cs →
  fold_res (λ st (e : string * GeneratedExpectedCharge), '(id, t') ← persist_charge e.1 clientId runId e.2 st.2;
              Ok (st.1 ++ [id], t')) (acc, t) cs = Ok (ids, t') →
  ∃ new later, ids = acc ++ new ∧ t' = t ++ later ∧ Forall2 (λ e id, recorded clientId runId id e.2 t') cs new ∧
    (NoDup (map ec_id t) → NoDup (map ec_id t')).
Proof using L.
  intros Hst. revert acc t. induction Hst as [|[n g] cs Hg _ IH]; intros acc t.
  - rewrite fold_res_nil. intros [= <- <-]. exists [], []. rewrite !app_nil_r. split_and!; [done|done|constructor|done].
  - rewrite fold_res_cons. intros (st1 & ([id t1] & Hp & [= <-])%bind_Ok & Hl)%bind_Ok. cbn [fst snd] in *.
    apply persist_charge_records in Hp as [Hrec Ht]; [|done].
    destruct (IH _ _ Hl) as (new & later & -> & -> & Hall & Hids).
    assert (∃ l0, t1 = t ++ l0 ∧ (NoDup (map ec_id t) → NoDup (map ec_id t1))) as (l0 & -> & Hids0).
    { destruct Ht as [->|(row & -> & <- & Hnew)]; [exists []; by rewrite app_nil_r|exists [row]]. split; [done|].
      intros Hnd. rewrite map_app. apply NoDup_app. split; [done|]. split; [|apply NoDup_singleton].
      by intros y Hy ->%list_elem_of_singleton. }
    exists (id :: new), (l0 ++ later). rewrite <- !app_assoc. split_and!; [done|done| |rewrite app_assoc; auto].
    constructor; [|by rewrite <- app_assoc in Hall]. rewrite app_assoc. by apply recorded_later.
Qed.

Lemma calculation_storable key c d j : calculate key c = Ok (d, j) → print (jsonb j) = print j.
Proof using Type.
  destruct c; cbn [calculate]; intros Hc; res_inv; simplify_eq; reflexivity.
Qed.

Lemma generated_storable specs charges : generateExpectedCharges specs = Ok charges →
  Forall (λ g, print (jsonb (ge_calculation g)) = print (ge_calculation g)) charges.
Proof using Type.
  unfold generateExpectedCharges. intros ([seen gen] & Hgen & [= <-])%bind_Ok. rewrite js_sort_perm.
  revert Hgen. apply (fold_res_inv (λ (st : list string * list GeneratedExpectedCharge) _,
    Forall (λ g, print (jsonb (ge_calculation g)) = print (ge_calculation g)) st.2)); [constructor|].
  intros [s1 g1] spec st' _ Hall Hst. unfold generate_step in Hst. res_inv.
  match goal with Hc : calculate _ _ = Ok ?x |- _ => destruct x as [d j]; apply calculation_storable in Hc as Hj end. res_inv.
  apply Forall_app. split; [done|]. by repeat constructor.
Qed.

Lemma persist_again clientId runId newIds charges ids acc t :
  Forall2 (λ g id, recorded clientId runId id g t) charges ids → length newIds = length charges →
  (∀ n, n ∈ newIds → n ∉ map ec_id t) →
  fold_res (λ st (e : string * GeneratedExpectedCharge), '(id, t') ← persist_charge e.1 clientId runId e.2 st.2;
              Ok (st.1 ++ [id], t')) (acc, t) (zip newIds charges) = Ok (acc ++ ids, t).
Proof using Type.
  intros Hall. revert newIds acc. induction Hall as [|g id charges ids Hg _ IH]; intros [|n newIds] acc Hlen Hnew; try done.
  - cbn. rewrite fold_res_nil. by rewrite app_nil_r.
  - cbn [zip zip_with]. rewrite fold_res_cons. cbn [fst snd]. rewrite (recorded_again n _ _ id) by (done || (apply Hnew; by left)).
    rewrite !bind_ret_l. rewrite IH; [by rewrite <- app_assoc|by injection Hlen|]. intros n' Hn'. apply Hnew. by right.
Qed.

(** Expected charges are recorded once and never changed: persisting them only
    appends rows; every charge is held, column for column, by the row whose id is
    answered; and an exact retry, over any later state of the table, answers the
    same ids and writes nothing. *)
Theorem expected_retry clientId runId charges newIds ids t t' : Forall storable charges → length newIds = length charges →
  NoDup (map ec_id t) → persistExpectedCharges clientId runId (zip newIds charges) t = Ok (ids, t') →
  t `prefix_of` t' ∧ NoDup (map ec_id t') ∧ Forall2 (λ g id, recorded clientId runId id g t') charges ids ∧
  ∀ newIds' later, length newIds' = length charges → (∀ n, n ∈ newIds' → n ∉ map ec_id (t' ++ later)) →
    persistExpectedCharges clientId runId (zip newIds' charges) (t' ++ later) = Ok (ids, t' ++ later).
Proof using L.
  intros Hst Hlen Hnd Hp. apply persist_records in Hp as (new & l0 & -> & -> & Hall & Hids).
  2: { apply Forall_forall. intros [n g] Hin. apply elem_of_zip_r in Hin. by eapply Forall_forall in Hst. }
  cbn [app] in *.
  assert (Forall2 (λ g id, recorded clientId runId id g (t ++ l0)) charges new) as Hrec.
  { rewrite <- (snd_zip newIds charges) by lia. rewrite Forall2_fmap_l. exact Hall. }
  split_and!; [by apply prefix_app_r|by apply Hids|done|].
  intros newIds' later Hlen' Hnew. apply (persist_again clientId runId newIds' charges new []); [|done|done].
  eapply Forall2_impl; [exact Hrec|]. intros g id. apply recorded_later.
Qed.
End retries.

(** ** The rate engine at work *)

Section examples.
#[local] Existing Instances ExactDecimal.ops ExactDecimal.laws code_unit_collator code_unit_collator_laws demo_sha.

Definition demo_billed : list BilledChargeForAlignment :=
  [mkBilled "b1" (Some " fuel") (Some "usd"); mkBilled "b2" (Some "LINEHAUL") (Some "USD"); mkBilled "b3" None (Some "USD");
   mkBilled "b4" (Some "Linehaul") (Some "USD")].
Definition demo_expected : list ExpectedChargeForAlignment :=
  [mkExpected "x1" (Some "FUEL") (Some "USD"); mkExpected "x2" (Some "LINEHAUL") (Some "USD"); mkExpected "x3" (Some "DETENTION") (Some "USD")].
Definition demo_tier1 : Tier1AlignmentResult :=
  mkTier1 [mkAlignment "FUEL|USD" "FUEL" "USD" "b1" "x1"]
    [mkIssue "DETENTION|USD" EXPECTED_ONLY [] ["x3"]; mkIssue "LINEHAUL|USD" AMBIGUOUS ["b2"; "b4"] ["x2"];
     mkIssue "billed:b3" MISSING_CLASSIFICATION ["b3"] []].
Lemma demo_tier1_ok : alignTier1Charges demo_billed demo_expected = Ok demo_tier1.
Proof. vm_compute. reflexivity. Qed.

Lemma alignTier1_exact_witness :
  map al_chargeFactId (t1_alignments demo_tier1) ++ concat (map is_chargeFactIds (t1_unassessable demo_tier1)) ≡ₚ ["b1"; "b2"; "b3"; "b4"].
Proof. exact (proj1 (proj2 (alignTier1_exact demo_billed demo_expected demo_tier1 demo_tier1_ok))). Defined.

Lemma alignTier1_order_independent_witness : alignTier1Charges (rev demo_billed) (rev demo_expected) = Ok demo_tier1.
Proof.
  apply (alignTier1_order_independent demo_billed demo_expected).
  - intros a b Hc. by apply String.compare_eq_iff.
  - apply Permutation_rev.
  - apply Permutation_rev.
  - exact demo_tier1_ok.
Defined.

Definition group_request (key : string) (b x : string) : VarianceAttributionRequest :=
  mkRequest GROUP key [mkMember (key +:+ "-b") b "USD"] [mkMember (key +:+ "-x") x "usd"].
Definition demo_attributed : list VarianceAttribution :=
  [mkAttribution GROUP "fuel" "USD" ["fuel-b"] ["fuel-x"] "10.5000" "10.0000" "0.5000" OVERCHARGE;
   mkAttribution GROUP "toll" "USD" ["toll-b"] ["toll-x"] "7.0000" "7.0000" "0.0000" OVERCHARGE].
Lemma demo_attributed_ok :
  attributeGroupedVariance [group_request "toll" "7" "7.00"; group_request "fuel" "10.5" "10"] = Ok (demo_attributed, []).
Proof. vm_compute. reflexivity. Qed.

Lemma attribution_exact_witness : NoDup (concat (map attribution_ids demo_attributed)) ∧ ∃ q, attributed_from q
  (mkAttribution GROUP "toll" "USD" ["toll-b"] ["toll-x"] "7.0000" "7.0000" "0.0000" OVERCHARGE).
Proof.
  destruct (attribution_exact _ _ _ demo_attributed_ok) as (Ha & Hnd & _). split; [exact Hnd|].
  destruct (Ha (mkAttribution GROUP "toll" "USD" ["toll-b"] ["toll-x"] "7.0000" "7.0000" "0.0000" OVERCHARGE)) as (q & _ & Hq).
  - right. by left.
  - exists q. exact Hq.
Defined.

(** A rate of five decimals: the amount is exact, the recorded rate is not. *)
Definition demo_specs : list ExpectedChargeSpec :=
  [mkSpec "cell-7" "fuel" "usd" None None None None (RATE_TIMES_BASIS "0.00005" "100000")].
Definition demo_generated : GeneratedExpectedCharge :=
  mkGenerated (idempotency_key "cell-7") "cell-7" "FUEL" "USD" "5.0000" None None None None
    (JObject [("kind", JString "RATE_TIMES_BASIS"); ("rate", JString "0.0001"); ("basis", JString "100000.0000")]).
Lemma demo_charges_ok : generateExpectedCharges demo_specs = Ok [demo_generated].
Proof. vm_compute. reflexivity. Qed.

Lemma expected_amounts_bounded_witness : ∃ spec, spec ∈ demo_specs ∧ generated_from spec demo_generated.
Proof.
  destruct (expected_amounts_bounded demo_specs [demo_generated] demo_charges_ok) as (_ & _ & Hg).
  destruct (Hg demo_generated) as (spec & Hs & Hf); [by left|]. exists spec. split; [exact Hs|exact Hf].
Defined.

(** The calculation kept as evidence says 0.0001 x 100000, which is not 5. *)
Lemma calculation_contradicts_amount : ∃ recomputed, generateExpectedCharges [mkSpec "cell-7" "fuel" "usd" None None None None (RATE_TIMES_BASIS "0.0001" "100000.0000")] =
    Ok [recomputed] ∧ ge_calculation recomputed = ge_calculation demo_generated ∧ ge_expectedAmount recomputed = "10.0000".
Proof. eexists. split; [vm_compute; reflexivity|]. done. Qed.

Definition persisted_charge : expected_charge := Eval vm_compute in
  expected_row_of "row-1" "acct" "run" 50000 demo_generated.
Lemma expected_retry_witness :
  persistExpectedCharges "acct" "run" (zip ["row-2"] [demo_generated]) ([persisted_charge] ++ []) = Ok (["row-1"], [persisted_charge] ++ []).
Proof.
  assert (Forall storable [demo_generated]) as Hst.
  { constructor; [|constructor]. split; [exists 50000; vm_compute; reflexivity|]. split; [vm_compute; reflexivity|]. repeat split; reflexivity. }
  assert (persistExpectedCharges "acct" "run" (zip ["row-1"] [demo_generated]) [] = Ok (["row-1"], [persisted_charge])) as Hp
    by (vm_compute; reflexivity).
  destruct (expected_retry "acct" "run" [demo_generated] ["row-1"] ["row-1"] [] [persisted_charge] Hst) as (_ & _ & _ & Hagain).
  - reflexivity.
  - constructor.
  - exact Hp.
  - apply Hagain; [reflexivity|]. intros n Hn Hin. vm_compute in Hin, Hn. apply list_elem_of_singleton in Hn, Hin. subst. discriminate.
Defined.

(** A retry with the same totals but other members is taken for the same
    alignment: the members of both are kept under it. *)
Definition realigned (b x : string) : VarianceAttribution :=
  mkAttribution GROUP "fuel" "USD" [b] [x] "10.0000" "8.0000" "2.0000" OVERCHARGE.
Lemma realigned_members_merge : ∃ tables, persistChargeAlignment "al-1" "acct" "run" (realigned "b1" "x1") ([], []) = Ok ("al-1", tables) ∧
  ∃ tables', persistChargeAlignment "al-2" "acct" "run" (realigned "b2" "x2") tables = Ok ("al-1", tables') ∧
    map cm_member tables'.2 = [(billed, "b1"); (expected, "x1"); (billed, "b2"); (expected, "x2")] ∧
    map ca_billed_total tables'.1 = [100000].
Proof. eexists. split; [vm_compute; reflexivity|]. eexists. split; [vm_compute; reflexivity|]. split; vm_compute; reflexivity. Qed.
End examples.
