(* ===== verification/Proposals.v ===== *)
(** Rule proposals by a language model ([src/src/modules/contracts/]): the gate
    that refuses financial authority ([model-money-authority-gate.ts]), the source
    citations of clauses and criteria ([clause-normalization.ts],
    [proposal-citation-gate.ts]), the predicate a model may propose and its
    canonical form ([proposed-criteria.ts]), the provider boundary
    ([anthropic-provider.ts]) and the corpora proposals are tried on
    ([backtest-contract-rule-proposals.ts]). *)

From S2P Require Import Prelude JsText Decimal Json Interpreter AstJson Store AuditLedger Lifecycle GoldenCorpus Jsonb Manifest.

(** [s.normalize('NFKC')]: the tables of Unicode are a parameter. *)
Class Unicode := nfkc : string → string.

(** ** Money authority *)

Inductive MoneyAuthorityRejectionCode : Set := ARITHMETIC_AST | MONEY_LITERAL | AUTHORITATIVE_FINANCIAL_FIELD.
Record MoneyAuthorityRejection := mkMoneyRejection { mr_code : MoneyAuthorityRejectionCode; mr_path : string }.

Definition authoritativeKeys : list string :=
  ["amount"; "approvedamount"; "billedtotal"; "calculatedamount"; "calculatedtotal"; "expectedamount"; "expectedcharge";
   "expectedtotal"; "invoicepayableamount"; "payableamount"; "paymentamount"; "ratecalculation"; "subtotal";
   "total"; "varianceamount"].

(** [value.replace(/[^p]/g, '')] *)
Fixpoint keep_chars (p : ascii → bool) (s : string) : string :=
  match s with "" => "" | String c s' => if p c then String c (keep_chars p s') else keep_chars p s' end.

Section money.
Context {U : Unicode}.

Definition canonicalKey (key : string) : string :=
  keep_chars (λ c, is_lower c || is_digit c) (to_lower (nfkc key)).
Definition authoritative (key : string) : bool := bool_decide (canonicalKey key ∈ authoritativeKeys).

Definition type_is (t : string) (entries : list (string * json)) : bool :=
  match map_get entries "type" with Some (JString s) => bool_decide (s = t) | _ => false end.

(** The loop over [Object.keys(record).sort()]; the entries carry the visits of
    their values. *)
Definition visit_entry (isMoneyLiteral : bool) (path : string) (e : string * (string → list MoneyAuthorityRejection)) :
    list MoneyAuthorityRejection :=
  let childPath := path +:+ "." +:+ e.1 in
  (if negb (isMoneyLiteral && bool_decide (e.1 = "amount")) && authoritative e.1
   then [mkMoneyRejection AUTHORITATIVE_FINANCIAL_FIELD childPath] else []) ++ e.2 childPath.

Definition item_path (path : string) (index : nat) : string :=
  path +:+ "[" +:+ nat_text (Z.of_nat index) "" +:+ "]".

Fixpoint visit (value : json) (path : string) : list MoneyAuthorityRejection :=
  match value with
  | JArray items => concat (imap (λ index item, item (item_path path index)) (map visit items))
  | JObject entries =>
      let isMoneyLiteral := type_is "money" entries in
      (if type_is "arith" entries then [mkMoneyRejection ARITHMETIC_AST path] else []) ++
      (if isMoneyLiteral then [mkMoneyRejection MONEY_LITERAL path] else []) ++
      concat (map (visit_entry isMoneyLiteral path)
        (js_sort (cmp_on fst code_unit_compare) (map (λ e, (e.1, visit e.2)) entries)))
  | _ => []
  end.

(** [(accepted, rejections)] *)
Definition validateNoModelMoneyAuthority (untrusted : json) : bool * list MoneyAuthorityRejection :=
  let rejections := visit untrusted "$" in (bool_decide (length rejections = 0%nat), rejections).
End money.

(** ** Citations *)

(** [z.number().int().min(lo)], which takes safe integers, on a number's text. *)
Definition int_number (lo : Z) (j : json) : option js_number :=
  match j with
  | JNumber (JsFinite t) =>
      match plain t with
      | Some (m, O) => if (lo <=? m) && (Z.abs m <? 2 ^ 53) then Some (JsFinite t) else None
      | _ => None
      end
  | _ => None
  end.
(** [z.number().finite().nonnegative()] *)
Definition coordinate (j : json) : option js_number :=
  match j with
  | JNumber (JsFinite (String c s)) => if bool_decide (c = "-"%char) then None else Some (JsFinite (String c s))
  | _ => None
  end.
(** [z.string().trim().min(lo).max(hi)] *)
Definition within (lo hi : Z) (n : nat) : bool := (lo <=? Z.of_nat n) && (Z.of_nat n <=? hi).
Definition trimmed (lo hi : Z) (j : json) : option string :=
  s ← as_string j; if within lo hi (String.length (trim s)) then Some (trim s) else None.
(** [z.array(f).min(lo).max(hi)] *)
Definition array_of {A} (lo hi : Z) (f : json → option A) (j : json) : option (list A) :=
  l ← as_list f j; if within lo hi (length l) then Some l else None.
(** [z.literal(t)] and [z.enum(ts)] *)
Definition literal (t : string) : json → option string := text_where (λ s, bool_decide (s = t)).
Definition enum (ts : list string) : json → option string := text_where (λ s, bool_decide (s ∈ ts)).

Record Citation := mkCitation {
  ct_pageNumber : js_number; ct_excerpt : string;
  ct_boundingBox : option (list js_number); ct_span : option (js_number * js_number);
}.
#[export] Instance Citation_eq_dec : EqDecision Citation.
Proof. solve_decision. Defined.

Definition span_of (j : json) : option (js_number * js_number) :=
  j ← strict ["offset"; "length"] j;
  offset ← required (int_number 0) j "offset"; len ← required (int_number 1) j "length"; Some (offset, len).
Definition ExtractionCitationSchema (j : json) : option Citation :=
  j ← strict ["pageNumber"; "excerpt"; "boundingBox"; "span"] j;
  page ← required (int_number 1) j "pageNumber";
  excerpt ← required (trimmed 1 4000) j "excerpt";
  box ← optional (array_of 8 32 coordinate) j "boundingBox";
  span ← optional span_of j "span";
  if bool_decide (box = None) && bool_decide (span = None) then None
  else Some (mkCitation page excerpt box span).

(** [JSON.stringify([pageNumber, excerpt, boundingBox ?? null, ...])] *)
Definition citationKey (c : Citation) : string :=
  print (JArray [JNumber (ct_pageNumber c); JString (ct_excerpt c);
    match ct_boundingBox c with Some box => JArray (map JNumber box) | None => JNull end;
    match ct_span c with Some (offset, len) => JArray [JNumber offset; JNumber len] | None => JNull end]).

(** ** Normalized clauses *)

Record SemanticTerm := mkTerm {
  tm_key : string; tm_semanticType : string; tm_sourceValue : string; tm_unit : option string;
  tm_citations : list Citation;
}.
Record ClauseContent := mkContent {
  cc_category : string; cc_title : option string; cc_summary : string; cc_applicability : list string;
  cc_terms : list SemanticTerm;
}.
Inductive ClauseStatus : Type :=
  | NORMALIZED (content : ClauseContent)
  | ABSTAINED (reason clarificationQuestion : string).
Record NormalizedClause := mkClause {
  nc_clauseReference : string; nc_citations : list Citation; nc_status : ClauseStatus;
}.
(** The [clauses] of the schema version. *)
Definition ClauseNormalization : Type := list NormalizedClause.
Definition is_normalized (c : NormalizedClause) : bool := match nc_status c with NORMALIZED _ => true | _ => false end.

Section citations.
Context {U : Unicode} {C : Collator}.

Definition canonicalReference (value : string) : string := to_lower (nfkc value).

(** [/^[a-z][a-z0-9_]*$/] *)
Definition term_key (s : string) : bool :=
  match s with
  | String c s' => is_lower c && string_all (λ c, is_lower c || is_digit c || bool_decide (c = "_"%char)) s'
  | "" => false
  end.
Definition semanticTermSchema (j : json) : option SemanticTerm :=
  j ← strict ["key"; "semanticType"; "sourceValue"; "unit"; "citations"] j;
  key ← required (trimmed 1 200) j "key"; _ ← guard (term_key key = true);
  semanticType ← required (enum ["TEXT"; "DATE"; "DECIMAL"; "PERCENTAGE"; "CURRENCY"; "DURATION"; "IDENTIFIER"]) j "semanticType";
  sourceValue ← required (trimmed 1 20000) j "sourceValue";
  unit ← required (nullable_of (trimmed 1 100)) j "unit";
  citations ← required (array_of 1 20 ExtractionCitationSchema) j "citations";
  Some (mkTerm key semanticType sourceValue unit citations).
Definition normalizedClauseSchema (j : json) : option NormalizedClause :=
  j ← strict ["status"; "clauseReference"; "category"; "title"; "summary"; "applicability"; "terms"; "citations"] j;
  reference ← required (trimmed 1 300) j "clauseReference";
  category ← required (enum ["RATE"; "ACCESSORIAL"; "PAYMENT"; "SERVICE"; "LIABILITY"; "TERM"; "AMENDMENT"; "OTHER"]) j "category";
  title ← required (nullable_of (trimmed 1 1000)) j "title";
  summary ← required (trimmed 1 4000) j "summary";
  applicability ← required (array_of 0 100 (trimmed 1 1000)) j "applicability";
  terms ← required (array_of 0 500 semanticTermSchema) j "terms";
  citations ← required (array_of 1 20 ExtractionCitationSchema) j "citations";
  Some (mkClause reference citations (NORMALIZED (mkContent category title summary applicability terms))).
Definition abstainedClauseSchema (j : json) : option NormalizedClause :=
  j ← strict ["status"; "clauseReference"; "reason"; "clarificationQuestion"; "citations"] j;
  reference ← required (trimmed 1 300) j "clauseReference";
  reason ← required (enum ["MISSING_TEXT"; "AMBIGUOUS_MEANING"; "CONFLICTING_TERMS"; "INSUFFICIENT_CITATION"]) j "reason";
  question ← required (trimmed 1 2000) j "clarificationQuestion";
  citations ← required (array_of 0 20 ExtractionCitationSchema) j "citations";
  Some (mkClause reference citations (ABSTAINED reason question)).
(** [z.discriminatedUnion('status', [...])] *)
Definition clauseSchema (j : json) : option NormalizedClause :=
  status ← required as_string j "status";
  if decide (status = "NORMALIZED") then normalizedClauseSchema j
  else if decide (status = "ABSTAINED") then abstainedClauseSchema j else None.

Definition terms_distinct (c : NormalizedClause) : bool :=
  match nc_status c with
  | NORMALIZED content => bool_decide (NoDup (map tm_key (cc_terms content)))
  | ABSTAINED _ _ => true
  end.
(** What [superRefine] checks of typed clauses. *)
Definition normalization_refined (clauses : ClauseNormalization) : bool :=
  bool_decide (NoDup (map (λ c, canonicalReference (nc_clauseReference c)) clauses)) && forallb terms_distinct clauses.
Definition ClauseNormalizationSchema (j : json) : option ClauseNormalization :=
  j ← strict ["schemaVersion"; "clauses"] j;
  _ ← required (literal "clause-normalization/1") j "schemaVersion";
  clauses ← required (array_of 0 10000 clauseSchema) j "clauses";
  if normalization_refined clauses then Some clauses else None.

(** *** Grounding in the extraction *)

(** The verified clauses: their references and the citations of their texts. *)
Definition source_clause : Type := string * list Citation.
Definition clause_citations (c : NormalizedClause) : list Citation :=
  match nc_status c with
  | NORMALIZED content => nc_citations c ++ concat (map tm_citations (cc_terms content))
  | ABSTAINED _ _ => nc_citations c
  end.
Inductive ClauseNormalizationError : Set := NO_CLAUSES | UNGROUNDED_OUTPUT.

Definition assertGrounded (output : ClauseNormalization) (sources : list source_clause) :
    result ClauseNormalizationError unit :=
  let sourceByReference := map_of (map (λ s, (canonicalReference s.1, s.2)) sources) in
  let outputReferences := set_of (map (λ c, canonicalReference (nc_clauseReference c)) output) in
  _ ← guard_or ((length outputReferences =? length sourceByReference)%nat &&
        forallb (λ reference, bool_decide (reference ∈ outputReferences)) sourceByReference.*1) UNGROUNDED_OUTPUT;
  fold_res (λ _ clause,
    let allowed := map citationKey (default [] (map_get sourceByReference (canonicalReference (nc_clauseReference clause)))) in
    guard_or (forallb (λ citation, bool_decide (citationKey citation ∈ allowed)) (clause_citations clause)) UNGROUNDED_OUTPUT)
    tt output.

(** *** The gate on proposals *)

Inductive ProposalCitationRejectionCode : Set :=
  | MISSING_CLAUSE_REFERENCE | MISSING_CITATION | UNKNOWN_CLAUSE | ABSTAINED_CLAUSE | UNCITED_CLAUSE | UNKNOWN_CITATION.
Record ProposalCitationRejection := mkCitationRejection {
  cr_criterionKey : string; cr_code : ProposalCitationRejectionCode; cr_clauseReference : option string;
}.
(** What the gate reads of a criterion. *)
Record CitationCandidate := mkCandidate {
  cd_criterionKey : string; cd_clauseReferences : list string; cd_citations : list Citation;
}.

Definition clauses_by_reference (clauses : ClauseNormalization) : list (string * NormalizedClause) :=
  map_of (map (λ c, (canonicalReference (nc_clauseReference c), c)) clauses).

(** One reference of a criterion: its rejections, and the citation keys it allows. *)
Definition check_reference (clauses : list (string * NormalizedClause)) (criterion : CitationCandidate) (reference : string) :
    list ProposalCitationRejection * list string :=
  let reject code r := mkCitationRejection (cd_criterionKey criterion) code (Some r) in
  match map_get clauses reference with
  | None => ([reject UNKNOWN_CLAUSE reference], [])
  | Some clause =>
      if negb (is_normalized clause) then ([reject ABSTAINED_CLAUSE (nc_clauseReference clause)], []) else
      let clauseCitations := map citationKey (nc_citations clause) in
      (if existsb (λ citation, bool_decide (citationKey citation ∈ clauseCitations)) (cd_citations criterion) then []
       else [reject UNCITED_CLAUSE (nc_clauseReference clause)], clauseCitations)
  end.
Definition check_criterion (clauses : list (string * NormalizedClause)) (criterion : CitationCandidate) :
    list ProposalCitationRejection :=
  let reject code := mkCitationRejection (cd_criterionKey criterion) code None in
  let references := js_sort code_unit_compare (set_of (map canonicalReference (cd_clauseReferences criterion))) in
  let checked := map (check_reference clauses criterion) references in
  let allowed := concat checked.*2 in
  (if bool_decide (cd_clauseReferences criterion = []) then [reject MISSING_CLAUSE_REFERENCE] else []) ++
  (if bool_decide (cd_citations criterion = []) then [reject MISSING_CITATION] else []) ++
  concat checked.*1 ++
  concat (map (λ citation, if bool_decide (citationKey citation ∈ allowed) then [] else [reject UNKNOWN_CITATION])
    (cd_citations criterion)).

(** [(accepted, rejections)]; the clauses have passed [ClauseNormalizationSchema]. *)
Definition validateProposalCitations (criteria : list CitationCandidate) (verified : ClauseNormalization) :
    bool * list ProposalCitationRejection :=
  let clauses := clauses_by_reference verified in
  let rejections := concat (map (check_criterion clauses) (js_sort (cmp_on cd_criterionKey localeCompare) criteria)) in
  (bool_decide (length rejections = 0%nat), rejections).
End citations.

(** ** Proposable predicates *)

Definition PROPOSABLE_FACT_KEYS : list string :=
  ["all_amounts_stated"; "all_currencies_stated"; "billed_linehaul"; "charge_count";
   "consistent_310_charge_currencies"; "contract_linehaul_rate"; "duplicate_invoice"; "has_fuel_category";
   "line_sum"; "linehaul_currencies_match"; "quarantined_count"; "rate_basis_arithmetic_matches";
   "shipment_reference_match"; "suspicious_missing_data_count"].
Definition factKeySchema : json → option string := enum PROPOSABLE_FACT_KEYS.

(** [z.union([decimalLiteral, z.string().max(1_000), z.boolean()])] *)
Definition lit_value (j : json) : option LitValue :=
  match j with
  | JNumber _ => LitNumber <$> int_number (- (2 ^ 53)) j
  | JString s => if within 0 1000 (String.length s) then Some (LitString s) else None
  | JBool b => Some (LitBool b)
  | _ => None
  end.
Definition compare_op_of (j : json) : option CompareOp :=
  s ← as_string j;
  if decide (s = "eq") then Some CmpEq else if decide (s = "ne") then Some CmpNe
  else if decide (s = "gt") then Some CmpGt else if decide (s = "gte") then Some CmpGte
  else if decide (s = "lt") then Some CmpLt else if decide (s = "lte") then Some CmpLte else None.
Definition logic_op_of (j : json) : option LogicOp :=
  s ← as_string j;
  if decide (s = "and") then Some LogAnd else if decide (s = "or") then Some LogOr
  else if decide (s = "not") then Some LogNot else None.
Definition arity_refined (op : LogicOp) (args : list AstNode) : bool :=
  match op with LogNot => (length args =? 1)%nat | _ => (2 <=? length args)%nat end.

(** A value read as a predicate, and as a list of predicates. *)
Record parsed_ast := mkParsed { as_ast : option AstNode; as_asts : option (list AstNode) }.

(** The members of the union; [sub] are the entries, read. *)
Definition ast_of_entries (j : json) (sub : list (string * parsed_ast)) : option AstNode :=
  type ← required as_string j "type";
  let child k := p ← map_get sub k; as_ast p in
  if decide (type = "lit") then
    _ ← strict ["type"; "value"] j; v ← required lit_value j "value"; Some (AstLit v)
  else if decide (type = "fact") then
    _ ← strict ["type"; "key"] j; k ← required factKeySchema j "key"; Some (AstFactRef k)
  else if decide (type = "compare") then
    _ ← strict ["type"; "op"; "left"; "right"] j; op ← required compare_op_of j "op";
    l ← child "left"; r ← child "right"; Some (AstCompare op l r None)
  else if decide (type = "logic") then
    _ ← strict ["type"; "op"; "args"] j; op ← required logic_op_of j "op";
    args ← (p ← map_get sub "args"; as_asts p);
    if within 1 20 (length args) && arity_refined op args then Some (AstLogic op args) else None
  else if decide (type = "require") then
    _ ← strict ["type"; "key"; "then"] j; k ← required factKeySchema j "key";
    body ← child "then"; Some (AstRequire k body)
  else None.
Fixpoint parse_ast (j : json) : parsed_ast :=
  match j with
  | JArray items => mkParsed None (mapM as_ast (map parse_ast items))
  | JObject entries => mkParsed (ast_of_entries j (map (λ e, (e.1, parse_ast e.2)) entries)) None
  | _ => mkParsed None None
  end.
Definition proposalAstSchema (j : json) : option AstNode := as_ast (parse_ast j).

Fixpoint isBooleanAst (ast : AstNode) : bool :=
  match ast with
  | AstCompare _ _ _ _ | AstLogic _ _ => true
  | AstRequire _ body => isBooleanAst body
  | _ => false
  end.

(** [Math.max(...l)] of depths, which are positive. *)
Definition max_depth (l : list Z) : Z := foldr Z.max 0 l.
Fixpoint astDepth (ast : AstNode) : Z :=
  match ast with
  | AstCompare _ l r _ => 1 + Z.max (astDepth l) (astDepth r)
  | AstLogic _ args => 1 + max_depth (map astDepth args)
  | AstRequire _ body => 1 + astDepth body
  | _ => 1
  end.

Section criteria.
Context {C : Collator}.

(** [stableStringify(left).localeCompare(stableStringify(right))] *)
Definition ast_text (ast : AstNode) : string := canonical code_unit_compare (ast_json ast).
Definition ast_order : AstNode → AstNode → comparison := cmp_on ast_text localeCompare.
Fixpoint canonicalizeAst (ast : AstNode) : AstNode :=
  match ast with
  | AstCompare op l r tolerance => AstCompare op (canonicalizeAst l) (canonicalizeAst r) tolerance
  | AstRequire key body => AstRequire key (canonicalizeAst body)
  | AstLogic op args =>
      let args := map canonicalizeAst args in
      AstLogic op (match op with LogNot => args | _ => js_sort ast_order args end)
  | _ => ast
  end.
End criteria.

(** The keys a traversal adds to the set, in order. *)
Fixpoint fact_keys (ast : AstNode) : list string :=
  match ast with
  | AstFactRef key => [key]
  | AstRequire key body => key :: fact_keys body
  | AstCompare _ l r _ => fact_keys l ++ fact_keys r
  | AstLogic _ args | AstArith _ args => concat (map fact_keys args)
  | _ => []
  end.
Definition collectFactKeys (ast : AstNode) : list string := set_of (fact_keys ast).
(** [[...collectFactKeys(ast)].sort()] *)
Definition expected_inputs (ast : AstNode) : list string := js_sort code_unit_compare (collectFactKeys ast).

(** *** Criteria *)

Record CriterionProposal := mkProposal {
  cp_criterionKey : string; cp_ruleType : RuleType; cp_description : string;
  cp_clauseReferences : list string; cp_citations : list Citation; cp_ast : AstNode;
}.
(** A [ProposedCriterion]: the proposal, its AST canonical, and what is derived
    from it; its [kind] is SCORING and its [lifecycleState] PROPOSED. *)
Record ProposedCriterion := mkProposed {
  pc_proposal : CriterionProposal; pc_astHash : string; pc_expectedInputs : list string;
}.

(** [/^CONTRACT\.PROPOSED\.[A-Z][A-Z0-9_]*$/] *)
Definition KEY_PREFIX : string := "CONTRACT.PROPOSED.".
Fixpoint strip_prefix (p s : string) : option string :=
  match p, s with
  | "", _ => Some s
  | String c p', String d s' => if decide (c = d) then strip_prefix p' s' else None
  | _, _ => None
  end.
Definition criterion_key_ok (s : string) : bool :=
  match strip_prefix KEY_PREFIX s with
  | Some (String c s') => is_upper c && string_all (λ c, is_upper c || is_digit c || bool_decide (c = "_"%char)) s'
  | _ => false
  end.
Definition RULE_TYPES : list (string * RuleType) :=
  [("STRUCTURAL", STRUCTURAL); ("INTRA_LINE", INTRA_LINE); ("CROSS_REFERENCE", CROSS_REFERENCE);
   ("CONTRACT_CONFORMANCE", CONTRACT_CONFORMANCE); ("EXTERNAL_REFERENCE", EXTERNAL_REFERENCE);
   ("CROSS_DOCUMENT", CROSS_DOCUMENT); ("POLICY_ELIGIBILITY", POLICY_ELIGIBILITY)].

Definition criterion_fields : list string :=
  ["criterionKey"; "kind"; "ruleType"; "description"; "clauseReferences"; "citations"; "ast"].
Definition proposedCriterionSchema (j : json) : option CriterionProposal :=
  j ← strict criterion_fields j;
  key ← required (trimmed 1 255) j "criterionKey"; _ ← guard (criterion_key_ok key = true);
  _ ← required (literal "SCORING") j "kind";
  ruleType ← (s ← required as_string j "ruleType"; map_get RULE_TYPES s);
  description ← required (trimmed 1 4000) j "description";
  references ← required (array_of 1 100 (trimmed 1 300)) j "clauseReferences";
  citations ← required (array_of 1 100 ExtractionCitationSchema) j "citations";
  ast ← required proposalAstSchema j "ast";
  Some (mkProposal key ruleType description references citations ast).
(** What [superRefine] checks. *)
Definition criteria_refined (criteria : list CriterionProposal) : bool :=
  bool_decide (NoDup (map cp_criterionKey criteria)) &&
  forallb (λ c, isBooleanAst (cp_ast c) && (astDepth (cp_ast c) <=? 20)) criteria.
Definition PROPOSED_CRITERIA_SCHEMA_VERSION : string := "proposed-criteria/1".
Definition ProposedCriteriaModelOutputSchema (j : json) : option (list CriterionProposal) :=
  j ← strict ["schemaVersion"; "criteria"] j;
  _ ← required (literal PROPOSED_CRITERIA_SCHEMA_VERSION) j "schemaVersion";
  criteria ← required (array_of 0 1000 proposedCriterionSchema) j "criteria";
  if criteria_refined criteria then Some criteria else None.

(** ** The provider boundary *)

(** What the SDK call answers. *)
Record ParsedResponse := mkResponse {
  rs_id : string; rs_model : string; rs_stop_reason : option string; rs_parsed_output : json;
}.
Record AnthropicStructuredResult (Output : Type) := mkResult {
  as_output : Output; as_modelId : string; as_promptVersion : string; as_sourceDocumentSha256 : string;
  as_requestKey : string; as_providerMessageId : string;
}.
Arguments mkResult {Output}. Arguments as_output {Output}. Arguments as_modelId {Output}.
Arguments as_promptVersion {Output}. Arguments as_sourceDocumentSha256 {Output}.
Arguments as_requestKey {Output}. Arguments as_providerMessageId {Output}.

Inductive proposal_error : Type :=
  | InvalidPin                                   (* a ZodError about the call's own inputs *)
  | AnthropicProviderError (code : string) (retryable : bool)
  | SchemaParse                                  (* a ZodError about the model's output *)
  | NO_NORMALIZED_CLAUSES
  | ModelMoneyAuthorityError (rejections : list MoneyAuthorityRejection)
  | ProposalCitationError (rejections : list ProposalCitationRejection)
  | GroundingError (e : ClauseNormalizationError).

(** [/^[a-zA-Z0-9][a-zA-Z0-9._/-]*$/], trimmed, at most 200 characters. *)
Definition is_alnum (c : ascii) : bool := is_lower c || is_upper c || is_digit c.
Definition pinSchema (s : string) : option string :=
  let t := trim s in
  match t with
  | String c s' =>
      if within 1 200 (String.length t) && is_alnum c &&
         string_all (λ c, is_alnum c || existsb (λ d, bool_decide (c = d)) ["."; "_"; "/"; "-"]%char) s'
      then Some t else None
  | "" => None
  end.

Section provider.
Context {H : Sha256}.
(** The configured model, and the SDK's answer: the error's name and its HTTP
    status, or a response. *)
Context (modelId : string) (call : string → string → result (string * option Z) ParsedResponse).

Definition newline : string := String (ascii_of_N 10) "".
Definition request_key (promptVersion sourceDocumentSha256 : string) : string :=
  hex (sha256 (modelId +:+ newline +:+ promptVersion +:+ newline +:+ sourceDocumentSha256)).
Definition retryable_status (status : option Z) : bool :=
  match status with
  | None => true
  | Some s => (s =? 408) || (s =? 409) || (s =? 429) || (500 <=? s)
  end.

(** [generateStructured]; the prompts are the constants of the module, so only
    their version and the evidence count. *)
Definition generateStructured {Output} (outputSchema : json → option Output) (version sourceDocumentSha256 evidence : string) :
    result proposal_error (AnthropicStructuredResult Output) :=
  match pinSchema version with None => Err InvalidPin | Some promptVersion =>
  _ ← guard_or (is_sha256_hex sourceDocumentSha256) InvalidPin;
  _ ← guard_or (truthy (trim evidence)) (AnthropicProviderError "INVALID_INPUT" false);
  let requestKey := request_key promptVersion sourceDocumentSha256 in
  response ← map_err (λ e, AnthropicProviderError e.1 (retryable_status e.2)) (call requestKey evidence);
  _ ← guard_or (bool_decide (rs_model response = modelId)) (AnthropicProviderError "PIN_MISMATCH" false);
  _ ← guard_or (bool_decide (rs_stop_reason response = Some "end_turn"))
        (AnthropicProviderError "INCOMPLETE_RESPONSE" (bool_decide (rs_stop_reason response = Some "max_tokens")));
  match outputSchema (rs_parsed_output response) with
  | None => Err (AnthropicProviderError "INVALID_RESPONSE" false)
  | Some output => Ok (mkResult output modelId promptVersion sourceDocumentSha256 requestKey (rs_id response))
  end
  end.
End provider.

(** *** The envelope of the model's output: unknown properties pass through *)

Definition citation_json (c : Citation) : json :=
  obj [("pageNumber", Some (JNumber (ct_pageNumber c))); ("excerpt", Some (JString (ct_excerpt c)));
       ("boundingBox", (λ box, JArray (map JNumber box)) <$> ct_boundingBox c);
       ("span", (λ s, obj [("offset", Some (JNumber s.1)); ("length", Some (JNumber s.2))]) <$> ct_span c)].
Definition term_json (t : SemanticTerm) : json :=
  obj [("key", Some (JString (tm_key t))); ("semanticType", Some (JString (tm_semanticType t)));
       ("sourceValue", Some (JString (tm_sourceValue t))); ("unit", Some (json_null (tm_unit t)));
       ("citations", Some (JArray (map citation_json (tm_citations t))))].
Definition clause_json (c : NormalizedClause) : json :=
  let citations := ("citations", Some (JArray (map citation_json (nc_citations c)))) in
  let reference := ("clauseReference", Some (JString (nc_clauseReference c))) in
  match nc_status c with
  | NORMALIZED n =>
      obj [("status", Some (JString "NORMALIZED")); reference; ("category", Some (JString (cc_category n)));
           ("title", Some (json_null (cc_title n))); ("summary", Some (JString (cc_summary n)));
           ("applicability", Some (JArray (map JString (cc_applicability n))));
           ("terms", Some (JArray (map term_json (cc_terms n)))); citations]
  | ABSTAINED reason question =>
      obj [("status", Some (JString "ABSTAINED")); reference; ("reason", Some (JString reason));
           ("clarificationQuestion", Some (JString question)); citations]
  end.
(** A parsed property replaces the one it was read from. *)
Definition with_prop (k : string) (v : json) (entries : list (string * json)) : list (string * json) :=
  map (λ e, if decide (e.1 = k) then (k, v) else e) entries.
Definition envelope_criterion (j : json) : option json :=
  match j with
  | JObject entries =>
      key ← required (trimmed 1 255) j "criterionKey";
      _ ← required as_string j "kind"; _ ← required as_string j "ruleType"; _ ← required as_string j "description";
      _ ← required (as_list as_string) j "clauseReferences";
      citations ← required (as_list ExtractionCitationSchema) j "citations";
      Some (JObject (with_prop "criterionKey" (JString key)
              (with_prop "citations" (JArray (map citation_json citations)) entries)))
  | _ => None
  end.
Definition ProposedCriteriaProviderEnvelopeSchema (j : json) : option json :=
  match j with
  | JObject entries =>
      _ ← required (literal PROPOSED_CRITERIA_SCHEMA_VERSION) j "schemaVersion";
      criteria ← required (array_of 0 1000 envelope_criterion) j "criteria";
      Some (JObject (with_prop "criteria" (JArray criteria) entries))
  | _ => None
  end.

(** *** Generation *)

Section generate.
Context {U : Unicode} {C : Collator} {H : Sha256}.
Context (modelId : string) (call : string → string → result (string * option Z) ParsedResponse).

Definition rejectModelMoneyAuthority (untrusted : json) : result proposal_error unit :=
  let '(accepted, rejections) := validateNoModelMoneyAuthority untrusted in
  guard_or accepted (ModelMoneyAuthorityError rejections).
Definition candidate_of (c : CriterionProposal) : CitationCandidate :=
  mkCandidate (cp_criterionKey c) (cp_clauseReferences c) (cp_citations c).
Definition requireProposalCitations (criteria : list CriterionProposal) (verified : ClauseNormalization) :
    result proposal_error unit :=
  let '(accepted, rejections) := validateProposalCitations (map candidate_of criteria) verified in
  guard_or accepted (ProposalCitationError rejections).

Definition propose (c : CriterionProposal) : ProposedCriterion :=
  let ast := canonicalizeAst (cp_ast c) in
  mkProposed (mkProposal (cp_criterionKey c) (cp_ruleType c) (cp_description c) (cp_clauseReferences c) (cp_citations c) ast)
    (hash (ast_json ast)) (expected_inputs ast).
(** After the provider: the gates, the strict schema, and the derived columns. *)
Definition admit_proposals (output : json) (verified : ClauseNormalization) :
    result proposal_error (list ProposedCriterion) :=
  _ ← rejectModelMoneyAuthority output;
  match ProposedCriteriaModelOutputSchema output with None => Err SchemaParse | Some criteria =>
  _ ← requireProposalCitations criteria verified;
  Ok (js_sort (cmp_on (λ p, cp_criterionKey (pc_proposal p)) localeCompare) (map propose criteria))
  end.

(** The evidence sent: the fact keys and the clauses, as text.  [verified] has
    passed [ClauseNormalizationSchema]. *)
Definition generateProposedCriteria (sourceDocumentSha256 : string)
    (verified : ClauseNormalization) : result proposal_error (AnthropicStructuredResult (list ProposedCriterion)) :=
  _ ← guard_or (existsb is_normalized verified) NO_NORMALIZED_CLAUSES;
  provided ← generateStructured modelId call ProposedCriteriaProviderEnvelopeSchema "contract-proposed-criteria/1"
    sourceDocumentSha256 (print (obj [("schemaVersion", Some (JString "clause-normalization/1"));
      ("availableFacts", Some (JArray (map JString PROPOSABLE_FACT_KEYS))); ("clauses", Some (JArray (map clause_json verified)))]));
  criteria ← admit_proposals (as_output provided) verified;
  Ok (mkResult criteria (as_modelId provided) (as_promptVersion provided) (as_sourceDocumentSha256 provided)
        (as_requestKey provided) (as_providerMessageId provided)).

End generate.

(** ** Proposal corpora *)

Inductive ProposalBacktestError : Set :=
  | PROPOSAL_SET_MISMATCH | DUPLICATE_PROPOSAL | DUPLICATE_CASE | UNEXPECTED_FACT | PROPOSAL_CHANGED | PARTIAL_CONFLICT.
Inductive corpus_failure : Set :=
  | BacktestRefused (e : ProposalBacktestError)
  | BacktestThrew (e : DecimalError).

Record ProposalBacktestCase := mkBacktestCase { pb_caseKey : string; pb_facts : FactBundle; pb_expectedVerdict : Verdict }.
Record CaseEvidence := mkEvidence {
  ce_case : ProposalBacktestCase; ce_actualVerdict : Verdict; ce_passed : bool;
  ce_inputHash : string; ce_expectedHash : string; ce_actualHash : string; ce_evaluatedAst : EvalNode;
}.

Section corpus.
Context {D : DecimalJs} {C : Collator} {H : Sha256}.
Definition case_evidence (ast : AstNode) (item : ProposalBacktestCase) : result corpus_failure CaseEvidence :=
  evaluatedAst ← map_err BacktestThrew (evaluate ast (pb_facts item));
  let actualVerdict := verdict evaluatedAst in
  Ok (mkEvidence item actualVerdict (bool_decide (actualVerdict = pb_expectedVerdict item))
        (hash (facts_json (pb_facts item))) (hash (verdict_json (pb_expectedVerdict item)))
        (hash (eval_json evaluatedAst)) evaluatedAst).
Definition unexpected_facts (expectedInputs : list string) (item : ProposalBacktestCase) : bool :=
  existsb (λ key, negb (bool_decide (key ∈ expectedInputs))) (map_to_list (pb_facts item)).*1.
Definition evaluateProposalCorpus (ast : AstNode) (expectedInputs : list string) (cases : list ProposalBacktestCase) :
    result corpus_failure (list CaseEvidence) :=
  let caseKeys := map pb_caseKey cases in
  _ ← guard_or (length (set_of caseKeys) =? length caseKeys)%nat (BacktestRefused DUPLICATE_CASE);
  _ ← guard_or (negb (existsb (unexpected_facts expectedInputs) cases)) (BacktestRefused UNEXPECTED_FACT);
  map_res (case_evidence ast) (js_sort (cmp_on pb_caseKey localeCompare) cases).
End corpus.
