(* ===== verification/ProposalsSafety.v ===== *)
(** The gates on model output are exact, what they admit is safe to evaluate, and
    the canonical form, the expected inputs and the corpora of proposals mean what
    they say (the definitions are in Proposals.v). *)

From S2P Require Import Prelude JsText Decimal Json Interpreter AstJson Store AuditLedger Lifecycle GoldenCorpus Jsonb Manifest Proposals.

(** ** Money authority *)

(** The values inside a value. *)
Inductive part_of : json → json → Prop :=
  | part_self j : part_of j j
  | part_item s j items : j ∈ items → part_of s j → part_of s (JArray items)
  | part_entry s k j entries : (k, j) ∈ entries → part_of s j → part_of s (JObject entries).

Section money.
Context {U : Unicode}.

(** An object that computes, states an amount of money, or claims a financial
    result under any spelling of its name. *)
Definition financial (j : json) : bool :=
  match j with
  | JObject entries =>
      type_is "arith" entries || type_is "money" entries || existsb (λ e, authoritative e.1) entries
  | _ => false
  end.

Lemma concat_nil {A} (ls : list (list A)) : concat ls = [] ↔ ∀ l, l ∈ ls → l = [].
Proof using Type.
  induction ls as [|l ls IH]; simpl; [split; [set_solver|done]|]. rewrite app_nil, IH. set_solver.
Qed.
Lemma if_nil {A} (b : bool) (x : A) : (if b then [x] else []) = [] ↔ b = false.
Proof using Type. by destruct b. Qed.

Lemma visit_nil j path : visit j path = [] ↔ ∀ s, part_of s j → financial s = false.
Proof using Type.
  revert path. induction j as [| | | |items IH|entries IH] using json_ind'; intros path;
    try (split; [intros _ x Hx; by inv Hx|done]).
  - cbn [visit].
    rewrite concat_nil. rewrite Forall_forall in IH. split.
    + intros Hall s Hs. inv Hs; [done|].
      match goal with Hj : _ ∈ items |- _ => pose proof Hj as Hin; apply list_elem_of_lookup in Hj as [i Hi] end.
      apply (proj1 (IH _ Hin (item_path path i))); [|done]. apply Hall.
      apply list_elem_of_lookup. exists i. by rewrite list_lookup_imap, list_lookup_fmap, Hi.
    + intros Hall l (i & v & -> & Hv)%elem_of_lookup_imap_1. rewrite list_lookup_fmap in Hv.
      apply fmap_Some in Hv as (x & Hx & ->). apply list_elem_of_lookup_2 in Hx as Hin.
      apply IH; [done|]. intros s Hs. apply Hall. by econstructor.
  - cbn [visit]. rewrite !app_nil, !if_nil, concat_nil. rewrite Forall_forall in IH. split.
    + intros (Ha & Hm & Hall) s Hs. inv Hs.
      * cbn [financial]. rewrite Ha, Hm. cbn [orb]. apply not_true_iff_false.
        intros ((k & v) & Hkv%list_elem_of_In & Hauth)%existsb_exists. cbn in Hauth.
        assert (visit_entry (type_is "money" entries) path (k, visit v) = []) as Hv.
        { apply Hall. apply list_elem_of_fmap. exists (k, visit v). split; [done|].
          rewrite elem_of_js_sort. apply list_elem_of_fmap. by exists (k, v). }
        unfold visit_entry in Hv. rewrite Hm in Hv. cbn in Hv. by rewrite Hauth in Hv.
      * match goal with Hkv : (?k, ?v) ∈ entries |- _ =>
          assert (visit_entry (type_is "money" entries) path (k, visit v) = []) as Hv;
          [apply Hall; apply list_elem_of_fmap; exists (k, visit v); split; [done|];
           rewrite elem_of_js_sort; apply list_elem_of_fmap; by exists (k, v)|];
          unfold visit_entry in Hv; apply app_nil in Hv as [_ Hv]; cbn in Hv;
          by apply (proj1 (IH _ Hkv _) Hv) end.
    + intros Hall. pose proof (Hall _ (part_self _)) as Hself. cbn [financial] in Hself.
      rewrite !orb_false_iff in Hself. destruct Hself as ((Ha & Hm) & Hk).
      repeat split; [done..|]. intros l ((k & f) & -> & Hf)%list_elem_of_fmap.
      rewrite elem_of_js_sort in Hf. apply list_elem_of_fmap in Hf as ((k' & v) & [= -> ->] & Hkv).
      unfold visit_entry. cbn. rewrite Hm. cbn.
      pose proof (proj1 (existsb_false _ entries) Hk _ Hkv) as Hauth. cbn in Hauth. rewrite Hauth. cbn. apply (IH _ Hkv).
      intros s Hs. apply Hall. by econstructor.
Qed.

Lemma money_gate_accepts untrusted :
  (validateNoModelMoneyAuthority untrusted).1 = true ↔ ∀ s, part_of s untrusted → financial s = false.
Proof using Type.
  unfold validateNoModelMoneyAuthority. cbn [fst]. rewrite bool_decide_eq_true, length_zero_iff_nil. apply visit_nil.
Qed.

(** The gate on model output refuses every financial authority and nothing
    else: it accepts a value if and only if no object inside it, at any depth, is an
    arithmetic node, is a money literal, or has a property whose name is one of the
    authoritative ones in any case, width or punctuation. *)
Theorem money_gate_exact untrusted :
  (validateNoModelMoneyAuthority untrusted).1 = true ↔ ∀ s, part_of s untrusted → financial s = false.
Proof using Type. apply money_gate_accepts. Qed.
End money.

(** ** Citations *)

Definition citation_wf (c : Citation) : bool :=
  number_wf (ct_pageNumber c) && from_option (forallb number_wf) true (ct_boundingBox c) &&
  from_option (λ s, number_wf s.1 && number_wf s.2) true (ct_span c).

Lemma numbers_json_wf l : forallb json_wf (map JNumber l) = forallb number_wf l.
Proof. induction l as [|x l IH]; [done|]. simpl. by rewrite IH. Qed.

Lemma numbers_inj l l' : map JNumber l = map JNumber l' → l = l'.
Proof. revert l'. induction l as [|x l IH]; intros [|y l']; try done. cbn. intros [= -> H]. by rewrite (IH _ H). Qed.

(** The key identifies the citation. *)
Lemma citationKey_inj c d : citation_wf c = true → citation_wf d = true → citationKey c = citationKey d → c = d.
Proof.
  unfold citation_wf, citationKey. destruct c as [p e b s], d as [p' e' b' s']. cbn [ct_pageNumber ct_excerpt ct_boundingBox ct_span].
  rewrite !andb_true_iff. intros [[Hp Hb] Hs] [[Hp' Hb'] Hs'] Hk. apply print_inj in Hk.
  - injection Hk as -> -> Hbox Hspan.
    assert (b = b') as ->.
    { destruct b as [b|], b' as [b'|]; try done. injection Hbox as Hbox. f_equal.
      by apply numbers_inj. }
    destruct s as [[]|], s' as [[]|]; try done. by injection Hspan as -> ->.
  - simpl. rewrite Hp. destruct b, s as [[]|]; simpl in *; rewrite ?numbers_json_wf, ?Hb, ?andb_true_r; auto.
  - simpl. rewrite Hp'. destruct b', s' as [[]|]; simpl in *; rewrite ?numbers_json_wf, ?Hb', ?andb_true_r; auto.
Qed.

(** [new Map(entries)] with distinct keys has just these entries. *)
Lemma map_set_fresh {K V} `{EqDecision K} (m : list (K * V)) k v : k ∉ m.*1 → map_set m k v = m ++ [(k, v)].
Proof.
  induction m as [|[k' v'] m IH]; intros Hk; [done|]. cbn [map_set]. rewrite decide_False by set_solver.
  rewrite IH by set_solver. done.
Qed.
Lemma map_of_distinct {K V} `{EqDecision K} (entries : list (K * V)) : NoDup entries.*1 → map_of entries = entries.
Proof.
  unfold map_of. change entries with ([] ++ entries) at 1 3. generalize (@nil (K * V)) as m.
  induction entries as [|[k v] entries IH]; intros m Hnd; [by rewrite app_nil_r|]. cbn [foldl].
  rewrite fmap_app in Hnd. cbn in Hnd. rewrite map_set_fresh.
  - rewrite IH; [by rewrite <- app_assoc|]. by rewrite <- app_assoc, fmap_app.
  - apply NoDup_app in Hnd as (_ & Hd & _). intros Hk. apply (Hd k Hk). by left.
Qed.

Section gate.
Context {U : Unicode} {C : Collator}.
Implicit Types (clauses : ClauseNormalization) (c : CitationCandidate).

(** A clause of the document a reference means. *)
Definition names (clause : NormalizedClause) (reference : string) : Prop :=
  canonicalReference (nc_clauseReference clause) = canonicalReference reference.

Lemma clauses_by_reference_get clauses k clause : normalization_refined clauses = true →
  map_get (clauses_by_reference clauses) k = Some clause ↔
  clause ∈ clauses ∧ canonicalReference (nc_clauseReference clause) = k.
Proof using Type.
  unfold normalization_refined, clauses_by_reference. intros [Hnd _]%andb_true_iff. rewrite bool_decide_eq_true in Hnd.
  assert (∀ l : ClauseNormalization, (map (λ n, (canonicalReference (nc_clauseReference n), n)) l).*1 =
    map (λ n, canonicalReference (nc_clauseReference n)) l) as Hkeys.
  { intros l. induction l as [|x l IH]; [done|]. cbn. by f_equal. }
  rewrite map_of_distinct by by rewrite Hkeys. split.
  - intros (x & [= -> ->] & Hx)%map_get_elem%list_elem_of_fmap. done.
  - intros [Hc <-]. apply map_get_Some; [by rewrite Hkeys|]. apply list_elem_of_fmap. by exists clause.
Qed.

(** What a reference of a criterion must be. *)
Definition reference_cited clauses c (reference : string) : Prop :=
  ∃ clause, clause ∈ clauses ∧ names clause reference ∧ is_normalized clause = true ∧
    ∃ citation, citation ∈ cd_citations c ∧ citationKey citation ∈ map citationKey (nc_citations clause).

Lemma existsb_cites c (keys : list string) :
  existsb (λ citation, bool_decide (citationKey citation ∈ keys)) (cd_citations c) = true ↔
  ∃ citation, citation ∈ cd_citations c ∧ citationKey citation ∈ keys.
Proof using Type. rewrite existsb_true. by setoid_rewrite bool_decide_eq_true. Qed.

Lemma check_reference_nil clauses c r : normalization_refined clauses = true →
  (check_reference (clauses_by_reference clauses) c (canonicalReference r)).1 = [] ↔ reference_cited clauses c r.
Proof using Type.
  intros Hr. unfold check_reference, reference_cited.
  destruct (map_get (clauses_by_reference clauses) (canonicalReference r)) as [clause|] eqn:Hg.
  - apply clauses_by_reference_get in Hg as [Hin Hn]; [|done]. split.
    + destruct (is_normalized clause) eqn:Hnorm; cbn [negb]; [|done]. case_match eqn:He; [|done].
      intros _. apply existsb_cites in He. eauto.
    + intros (clause' & Hin' & Hn' & Hnorm & Hc).
      assert (clause' = clause) as ->.
      { assert (∀ x, x ∈ clauses → names x r →
          map_get (clauses_by_reference clauses) (canonicalReference r) = Some x) as Hx.
        { intros x Hx Hxr. by apply clauses_by_reference_get. }
        pose proof (Hx _ Hin Hn). pose proof (Hx _ Hin' Hn'). congruence. }
      rewrite Hnorm. cbn [negb]. apply existsb_cites in Hc. by rewrite Hc.
  - split; [done|]. intros (clause & Hin & Hn & _).
    rewrite (proj2 (clauses_by_reference_get clauses _ clause Hr)) in Hg by done. done.
Qed.

Lemma check_reference_allowed clauses c r k : normalization_refined clauses = true →
  k ∈ (check_reference (clauses_by_reference clauses) c (canonicalReference r)).2 ↔
  ∃ clause, clause ∈ clauses ∧ names clause r ∧ is_normalized clause = true ∧ k ∈ map citationKey (nc_citations clause).
Proof using Type.
  intros Hr. unfold check_reference.
  destruct (map_get (clauses_by_reference clauses) (canonicalReference r)) as [clause|] eqn:Hg.
  - pose proof Hg as Hg'. apply clauses_by_reference_get in Hg' as [Hin Hn]; [|done].
    destruct (is_normalized clause) eqn:Hnorm; cbn [negb snd].
    + split; [by exists clause|]. intros (clause' & Hin' & Hn' & _ & Hk).
      rewrite (proj2 (clauses_by_reference_get clauses _ clause' Hr)) in Hg by done. by injection Hg as ->.
    + split; [set_solver|]. intros (clause' & Hin' & Hn' & Hnorm' & _).
      rewrite (proj2 (clauses_by_reference_get clauses _ clause' Hr)) in Hg by done. congruence.
  - cbn [snd]. split; [set_solver|]. intros (clause & Hin & Hn & _).
    by rewrite (proj2 (clauses_by_reference_get clauses _ clause Hr)) in Hg by done.
Qed.

(** The gate as a condition on one criterion. *)
Definition well_cited clauses c : Prop :=
  cd_clauseReferences c ≠ [] ∧ cd_citations c ≠ [] ∧
  (∀ r, r ∈ cd_clauseReferences c → reference_cited clauses c r) ∧
  (∀ citation, citation ∈ cd_citations c → ∃ r clause, r ∈ cd_clauseReferences c ∧ clause ∈ clauses ∧
     names clause r ∧ is_normalized clause = true ∧ citationKey citation ∈ map citationKey (nc_citations clause)).

Lemma check_criterion_nil clauses c : normalization_refined clauses = true →
  check_criterion (clauses_by_reference clauses) c = [] ↔ well_cited clauses c.
Proof using Type.
  intros Hr. unfold check_criterion, well_cited. rewrite !app_nil, !if_nil, !concat_nil, !bool_decide_eq_false.
  assert (∀ r, r ∈ js_sort code_unit_compare (set_of (map canonicalReference (cd_clauseReferences c))) ↔
    ∃ r0, r0 ∈ cd_clauseReferences c ∧ r = canonicalReference r0) as Href.
  { intros r. rewrite elem_of_js_sort, elem_of_set_of, list_elem_of_fmap. naive_solver. }
  do 2 (apply and_iff_compat_l). f_equiv.
  - split.
    + intros Hall r Hin. apply check_reference_nil; [done|]. apply Hall. rewrite <- list_fmap_compose.
      apply (list_elem_of_fmap_2 (fst ∘ check_reference _ c)). apply Href. eauto.
    + intros Hall l Hl. rewrite <- list_fmap_compose in Hl. apply list_elem_of_fmap in Hl as (r & -> & Hin).
      apply Href in Hin as (r0 & Hin & ->). by apply check_reference_nil, Hall.
  - assert (∀ k, k ∈ concat (map (check_reference (clauses_by_reference clauses) c)
        (js_sort code_unit_compare (set_of (map canonicalReference (cd_clauseReferences c))))).*2 ↔
      ∃ r clause, r ∈ cd_clauseReferences c ∧ clause ∈ clauses ∧ names clause r ∧ is_normalized clause = true ∧
        k ∈ map citationKey (nc_citations clause)) as Hallowed.
    { intros k. rewrite <- list_fmap_compose, list_elem_of_In, in_concat. setoid_rewrite <- list_elem_of_In. split.
      - intros (l & Hl & Hk). apply list_elem_of_fmap in Hl as (r & -> & Hin).
        apply Href in Hin as (r0 & Hin & ->). apply check_reference_allowed in Hk; [|done]. naive_solver.
      - intros (r & clause & Hin & Hrest).
        exists ((check_reference (clauses_by_reference clauses) c (canonicalReference r)).2). split.
        + apply (list_elem_of_fmap_2 (snd ∘ check_reference _ c)). apply Href. eauto.
        + apply check_reference_allowed; eauto. }
    split.
    + intros Hall citation Hin. apply Hallowed. specialize (Hall _ (list_elem_of_fmap_2 _ _ _ Hin)). cbn beta in Hall.
      by case_bool_decide.
    + intros Hall l Hl. apply list_elem_of_fmap in Hl as (citation & -> & Hin).
      rewrite bool_decide_true; [done|]. by apply Hallowed, Hall.
Qed.

Lemma citation_gate_accepts criteria clauses : normalization_refined clauses = true →
  (validateProposalCitations criteria clauses).1 = true ↔ ∀ c, c ∈ criteria → well_cited clauses c.
Proof using Type.
  intros Hr. unfold validateProposalCitations. cbn [fst].
  rewrite bool_decide_eq_true, length_zero_iff_nil, concat_nil. split.
  - intros Hall c Hc. apply check_criterion_nil; [done|]. apply Hall, list_elem_of_fmap_2. by rewrite elem_of_js_sort.
  - intros Hall l Hl. apply list_elem_of_fmap in Hl as (c & -> & Hc). rewrite elem_of_js_sort in Hc.
    by apply check_criterion_nil, Hall.
Qed.

(** C20: the citation gate accepts exactly the grounded proposals: every criterion
    names at least one clause and carries at least one citation; every clause it
    names is a clause of the normalized document, up to case and compatibility
    forms, that was not abstained on and shares a citation with the criterion; and
    every citation of the criterion is one of a clause it names. *)
Theorem citation_gate_exact criteria clauses : normalization_refined clauses = true →
  (validateProposalCitations criteria clauses).1 = true ↔ ∀ c, c ∈ criteria → well_cited clauses c.
Proof using Type. apply citation_gate_accepts. Qed.
End gate.

(** ** Proposable predicates *)

(** The nodes the schema can yield. *)
Fixpoint proposable (ast : AstNode) : bool :=
  match ast with
  | AstLit (LitNumber n) => bool_decide (is_Some (int_number (- (2 ^ 53)) (JNumber n)))
  | AstLit _ => true
  | AstFactRef key => bool_decide (key ∈ PROPOSABLE_FACT_KEYS)
  | AstCompare op l r tolerance =>
      bool_decide (op ≠ CmpApprox) && bool_decide (tolerance = None) && proposable l && proposable r
  | AstLogic op args => arity_refined op args && forallb proposable args
  | AstRequire key body => bool_decide (key ∈ PROPOSABLE_FACT_KEYS) && proposable body
  | AstMoney _ _ | AstArith _ _ => false
  end.

Lemma map_get_map {A B} (f : A → B) (l : list (string * A)) k :
  map_get (map (λ e, (e.1, f e.2)) l) k = f <$> map_get l k.
Proof. induction l as [|[k' v] l IH]; [done|]. cbn. by destruct (decide (k = k')). Qed.

Lemma text_where_Some p j s : text_where p j = Some s → p s = true.
Proof. unfold text_where. intros (x & _ & H)%bind_Some. by case_match; simplify_eq. Qed.
Lemma enum_Some ts j s : enum ts j = Some s → s ∈ ts.
Proof. intros H%text_where_Some. by apply bool_decide_eq_true in H. Qed.
Lemma int_number_Some lo j n : int_number lo j = Some n → j = JNumber n.
Proof. destruct j as [| |[]| | |]; try done. cbn. repeat case_match; by intros [= ->]. Qed.

(** The strict schema yields predicates only: no arithmetic, no money, no
    tolerance, and only facts of the list. *)
Lemma parse_ast_proposable j : (∀ ast, as_ast (parse_ast j) = Some ast → proposable ast = true) ∧
  (∀ asts, as_asts (parse_ast j) = Some asts → forallb proposable asts = true).
Proof.
  induction j as [| | | |items IH|entries IH] using json_ind'; try done.
  - split; [done|]. cbn. intros asts Hasts. apply forallb_forall. intros x Hx%list_elem_of_In.
    apply (mapM_elem _ _ _ _ Hasts) in Hx as (p & Hp & Hx). apply list_elem_of_fmap in Hp as (j & -> & Hj).
    rewrite Forall_forall in IH. by apply (IH j Hj).
  - split; [|done]. cbn [parse_ast as_ast]. unfold ast_of_entries. intros ast (type & _ & Hast)%bind_Some.
    assert (∀ k p, map_get (map (λ e, (e.1, parse_ast e.2)) entries) k = Some p →
      (∀ a, as_ast p = Some a → proposable a = true) ∧ (∀ l, as_asts p = Some l → forallb proposable l = true)) as Hsub.
    { intros k p. rewrite map_get_map. intros (j & Hj & ->)%fmap_Some. apply map_get_elem in Hj.
      rewrite Forall_forall in IH. by apply (IH (k, j)). }
    repeat case_decide; try done.
    + apply bind_Some in Hast as (x & _ & Hast). apply bind_Some in Hast as (v & Hv & [= <-]).
      apply bind_Some in Hv as (j & _ & Hv). destruct j; try done; cbn [lit_value] in Hv.
      * by injection Hv as <-.
      * apply fmap_Some in Hv as (m & Hm & ->). cbn [proposable]. apply int_number_Some in Hm as Hj.
        injection Hj as <-. apply bool_decide_eq_true. eauto.
      * case_match; by simplify_eq.
    + apply bind_Some in Hast as (x & _ & Hast). apply bind_Some in Hast as (k & Hk & [= <-]).
      apply bind_Some in Hk as (j & _ & Hk%enum_Some). cbn. by apply bool_decide_eq_true.
    + apply bind_Some in Hast as (x & _ & Hast). apply bind_Some in Hast as (op & Hop & Hast).
      apply bind_Some in Hast as (l & Hl & Hast). apply bind_Some in Hast as (r & Hr & [= <-]).
      apply bind_Some in Hl as (pl & Hpl & Hl), Hr as (pr & Hpr & Hr). cbn [proposable].
      rewrite (proj1 (Hsub _ _ Hpl) _ Hl), (proj1 (Hsub _ _ Hpr) _ Hr), !andb_true_r.
      apply bool_decide_eq_true. apply bind_Some in Hop as (j & _ & Hop). apply bind_Some in Hop as (s & _ & Hop).
      by repeat case_decide; simplify_eq.
    + apply bind_Some in Hast as (x & _ & Hast). apply bind_Some in Hast as (op & Hop & Hast).
      apply bind_Some in Hast as (args & Hargs & Hast). case_match eqn:Hw; [|done]. injection Hast as <-.
      apply andb_true_iff in Hw as [_ Hw]. apply bind_Some in Hargs as (p & Hp & Hargs).
      cbn [proposable]. rewrite Hw. by apply (proj2 (Hsub _ _ Hp)).
    + apply bind_Some in Hast as (x & _ & Hast). apply bind_Some in Hast as (k & Hk & Hast).
      apply bind_Some in Hast as (body & Hb & [= <-]). apply bind_Some in Hb as (p & Hp & Hb).
      apply bind_Some in Hk as (j & _ & Hk%enum_Some). cbn [proposable].
      rewrite (proj1 (Hsub _ _ Hp) _ Hb), andb_true_r. by apply bool_decide_eq_true.
Qed.

Lemma scan_digits v sc s r : scan v sc s = Some r → string_all (λ c, is_digit c || bool_decide (c = "."%char)) s = true.
Proof.
  revert v sc. induction s as [|c s IH]; intros v sc; [done|]. cbn [scan string_all].
  destruct (is_digit c); [cbn; apply IH|]. destruct (decide (c = "."%char)) as [->|]; [|done].
  destruct sc; [done|]. cbn. apply IH.
Qed.
Lemma string_all_impl (p q : ascii → bool) s : (∀ c, p c = true → q c = true) → string_all p s = true → string_all q s = true.
Proof. intros Hpq. induction s as [|c s IH]; [done|]. cbn. rewrite !andb_true_iff. naive_solver. Qed.
Lemma plain_number_wf t m : plain t = Some m → number_wf (JsFinite t) = true.
Proof.
  unfold plain. destruct t as [|c s]; [done|]. cbn [number_wf].
  assert (∀ v sc s r, scan v sc s = Some r → string_all numeral_char s = true) as Hscan.
  { intros v sc u r Hu%scan_digits. revert Hu. apply string_all_impl. by intros [[] [] [] [] [] [] [] []]. }
  destruct (is_digit c) eqn:Hc.
  - intros H%scan_digits. cbn in H. rewrite Hc in H. unfold numeral_head. rewrite Hc. cbn.
    revert H. apply string_all_impl. by intros [[] [] [] [] [] [] [] []].
  - case_decide as Hd; [|done]. subst c. destruct s as [|d s]; [done|].
    destruct (is_digit d) eqn:Hd; [|done]. intros H. cbn. destruct (scan 0 None (String d s)) eqn:Hs; [|done].
    by apply Hscan in Hs.
Qed.

Lemma proposable_wf n : proposable n = true → ast_wf n = true.
Proof.
  assert (∀ args, Forall (λ n, proposable n = true → ast_wf n = true) args →
    forallb proposable args = true → forallb ast_wf args = true) as Hargs.
  { induction 1 as [|x l Hx _ IH]; cbn; [done|]. rewrite !andb_true_iff. naive_solver. }
  induction n as [[x|s|b]|a c|k|op args _|op l r tol IHl IHr|op args IH|k b IH] using AstNode_ind'; cbn; try done.
  - intros [m Hm]%bool_decide_eq_true. destruct x as [t| |]; try done.
    destruct (plain t) as [p|] eqn:Hp; [by eapply plain_number_wf|done].
  - rewrite !andb_true_iff. naive_solver.
  - rewrite andb_true_iff. naive_solver.
  - rewrite andb_true_iff. naive_solver.
Qed.

Lemma map_res_perm {E A B} (f : A → result E B) l l' k : l ≡ₚ l' → map_res f l = Ok k →
  ∃ k', map_res f l' = Ok k' ∧ k ≡ₚ k'.
Proof.
  intros Hp. revert k. induction Hp as [|x l l' _ IH|x y l|l1 l2 l3 _ IH1 _ IH2]; intros k Hk.
  - eauto.
  - rewrite map_res_cons in Hk. res_inv. destruct (IH _ Hb0) as (k' & Hk' & Hp).
    rewrite map_res_cons, Hb, bind_ret_l, Hk', bind_ret_l. eauto.
  - rewrite !map_res_cons in Hk. res_inv. rewrite !map_res_cons, Hb1, bind_ret_l, Hb, bind_ret_l, Hb2, !bind_ret_l.
    eexists. split; [done|]. constructor.
  - destruct (IH1 _ Hk) as (k1 & Hk1 & Hp1), (IH2 _ Hk1) as (k2 & Hk2 & Hp2). exists k2. split; [done|]. by etrans.
Qed.

Section evaluation.
Context {D : DecimalJs} {L : DecimalLaws D} {C : Collator} {CL : CollatorLaws C}.
Implicit Types (n : AstNode) (facts : FactBundle).

Lemma proposable_tolerances n : proposable n = true → tolerances_ok n.
Proof using Type.
  induction n as [v|a c|k|op args _|op l r tol IHl IHr|op args IH|k b IH] using AstNode_ind'; cbn; try done.
  - rewrite !andb_true_iff, !bool_decide_eq_true. intros [[[Hop _] Hl] Hr]. split; [by destruct op|]. naive_solver.
  - rewrite andb_true_iff. intros [_ Hall]. apply tolerances_ok_args. rewrite Forall_forall in IH |- *.
    rewrite forallb_forall in Hall. setoid_rewrite list_elem_of_In. intros x Hx. apply IH; [by apply list_elem_of_In|auto].
  - rewrite andb_true_iff. naive_solver.
Qed.

(** A node's value depends on the values of its children only. *)
Lemma mapM_values evs : mapM (λ c, bool_of (ev_value c)) evs = mapM bool_of (map ev_value evs).
Proof using Type. induction evs as [|c evs IH]; [done|]. cbn. by rewrite IH. Qed.
Lemma eval_logic_values op evs evs' : map ev_value evs = map ev_value evs' → eval_logic op evs = eval_logic op evs'.
Proof using Type.
  intros H. destruct op; cbn [eval_logic]; [by rewrite !mapM_values, H..|].
  destruct evs as [|c evs], evs' as [|c' evs']; try done. cbn in H. by injection H as -> _.
Qed.
Lemma eval_logic_perm op evs evs' : op ≠ LogNot → evs ≡ₚ evs' → eval_logic op evs = eval_logic op evs'.
Proof using Type.
  intros Hop Hp. pose proof (mapM_perm (λ c, bool_of (ev_value c)) _ _ Hp) as Hm.
  destruct op; cbn [eval_logic]; [..|done];
    (destruct (mapM _ evs) as [bs|], (mapM _ evs') as [bs'|]; try done; apply (f_equal VBool), eq_true_iff_eq).
  - rewrite !forallb_forall. setoid_rewrite <- list_elem_of_In. by setoid_rewrite Hm.
  - rewrite !existsb_exists. setoid_rewrite <- list_elem_of_In. by setoid_rewrite Hm.
Qed.
Lemma eval_compare_values op tol l r l' r' : ev_value l = ev_value l' → ev_value r = ev_value r' →
  eval_compare op tol l r = eval_compare op tol l' r'.
Proof using Type. unfold eval_compare. by intros -> ->. Qed.

(** Canonicalization keeps the value. *)
Definition same_value facts n n' : Prop :=
  ∃ ev ev', evaluate n facts = Ok ev ∧ evaluate n' facts = Ok ev' ∧ ev_value ev = ev_value ev'.

Lemma same_value_args facts args (f : AstNode → AstNode) : Forall (λ n, same_value facts n (f n)) args →
  ∃ evs evs', map_res (λ a, evaluate a facts) args = Ok evs ∧ map_res (λ a, evaluate a facts) (map f args) = Ok evs' ∧
    map ev_value evs = map ev_value evs'.
Proof using Type.
  induction 1 as [|n args (ev & ev' & Hev & Hev' & Hv) _ (evs & evs' & Hevs & Hevs' & IH)]; [by exists [], []|].
  exists (ev :: evs), (ev' :: evs'). cbn [map]. rewrite !map_res_cons, Hev, Hev', !bind_ret_l, Hevs, Hevs'.
  repeat split. cbn. by rewrite Hv, IH.
Qed.

Lemma canonicalizeAst_value facts n : proposable n = true → same_value facts n (canonicalizeAst n).
Proof using L CL.
  intros Hn. induction n as [v|a c|k|op args _|op l r tol IHl IHr|op args IH|k b IH] using AstNode_ind'.
  1-4: destruct (evaluate_total _ facts (proposable_tolerances _ Hn)) as [ev Hev]; by exists ev, ev.
  - cbn [proposable] in Hn. rewrite !andb_true_iff, !bool_decide_eq_true in Hn. destruct Hn as [[[Hop ->] Hl] Hr].
    destruct (IHl Hl) as (x & x' & Hx & Hx' & Hvx), (IHr Hr) as (y & y' & Hy & Hy' & Hvy).
    unfold same_value. cbn [canonicalizeAst]. rewrite !evaluate_compare, Hx, Hx', Hy, Hy', !bind_ret_l.
    rewrite (eval_compare_values op None x y x' y') by done.
    assert (tolerance_ok op None) as Ht by by destruct op.
    destruct (eval_compare_total op None x' y') as [v ->]; [done|by eapply evaluate_value_ok..|]. by do 2 eexists.
  - cbn [proposable] in Hn. apply andb_true_iff in Hn as [Har Hall].
    assert (Forall (λ n, same_value facts n (canonicalizeAst n)) args) as Hargs.
    { rewrite Forall_forall in IH |- *. rewrite forallb_forall in Hall. intros x Hx. apply IH; [done|].
      by apply Hall, list_elem_of_In. }
    destruct (same_value_args facts args canonicalizeAst Hargs) as (evs & evs' & Hevs & Hevs' & Hv).
    unfold same_value. cbn [canonicalizeAst evaluate]. rewrite Hevs, bind_ret_l.
    assert (op = LogNot ∨ op ≠ LogNot) as [->|Hop] by (destruct op; naive_solver).
    + rewrite Hevs', bind_ret_l. do 2 eexists. repeat split. by apply eval_logic_values.
    + destruct (map_res_perm (λ a, evaluate a facts) (map canonicalizeAst args)
        (js_sort ast_order (map canonicalizeAst args)) evs') as (evs'' & Hevs'' & Hp); [by rewrite js_sort_perm|done|].
      exists (mkEval (AstLogic op args) (eval_logic op evs) (Some evs)).
      exists (mkEval (AstLogic op (js_sort ast_order (map canonicalizeAst args))) (eval_logic op evs'') (Some evs'')).
      split; [done|]. split; [by destruct op; try done; rewrite Hevs''|].
      cbn [ev_value]. rewrite (eval_logic_values op evs evs') by done. by apply eval_logic_perm.
  - cbn [proposable] in Hn. apply andb_true_iff in Hn as [_ Hb]. destruct (IH Hb) as (x & x' & Hx & Hx' & Hv).
    unfold same_value. cbn [canonicalizeAst evaluate].
    destruct (fact_present facts k); [rewrite Hx, Hx', !bind_ret_l|]; by do 2 eexists.
Qed.

(** *** One canonical form for every order of the operands *)

(** Predicates that differ in the order of the operands of [and] and [or]. *)
Inductive reordered : AstNode → AstNode → Prop :=
  | reordered_refl n : reordered n n
  | reordered_trans n1 n2 n3 : reordered n1 n2 → reordered n2 n3 → reordered n1 n3
  | reordered_swap op args args' : op ≠ LogNot → args ≡ₚ args' → reordered (AstLogic op args) (AstLogic op args')
  | reordered_arg op l n n' r : reordered n n' → reordered (AstLogic op (l ++ n :: r)) (AstLogic op (l ++ n' :: r))
  | reordered_compare op l l' r r' tol : reordered l l' → reordered r r' →
      reordered (AstCompare op l r tol) (AstCompare op l' r' tol)
  | reordered_require k b b' : reordered b b' → reordered (AstRequire k b) (AstRequire k b').

Lemma forallb_perm {A} (p : A → bool) l l' : l ≡ₚ l' → forallb p l = forallb p l'.
Proof using Type.
  intros Hp. apply eq_true_iff_eq. rewrite !forallb_forall. setoid_rewrite <- list_elem_of_In. by setoid_rewrite Hp.
Qed.
Lemma reordered_proposable n n' : reordered n n' → proposable n = proposable n'.
Proof using Type.
  induction 1 as [n|n1 n2 n3 _ -> _ ->|op args args' Hop Hp|op l n n' r _ IH|op l l' r r' tol _ IHl _ IHr|k b b' _ IH];
    cbn [proposable]; try done.
  - rewrite (forallb_perm _ _ _ Hp). destruct op; try done; cbn; by rewrite (Permutation_length Hp).
  - rewrite !forallb_app. cbn [forallb]. rewrite IH. f_equal. destruct op; cbn; by rewrite !length_app.
  - by rewrite IHl, IHr.
  - by rewrite IH.
Qed.

Lemma canonicalizeAst_proposable n : proposable n = true → proposable (canonicalizeAst n) = true.
Proof using Type.
  assert (∀ args, Forall (λ n, proposable n = true → proposable (canonicalizeAst n) = true) args →
    forallb proposable args = true → forallb proposable (map canonicalizeAst args) = true) as Hargs.
  { induction 1 as [|x l Hx _ IH]; cbn; [done|]. rewrite !andb_true_iff. naive_solver. }
  induction n as [v|a c|k|op args _|op l r tol IHl IHr|op args IH|k b IH] using AstNode_ind'; try done.
  - cbn. rewrite !andb_true_iff. naive_solver.
  - cbn [proposable canonicalizeAst]. rewrite !andb_true_iff. intros [Har Hall].
    destruct op; (split; [|rewrite ?(forallb_perm _ _ _ (js_sort_perm _ _)); by apply Hargs]);
      cbn in *; by rewrite ?js_sort_length, length_map.
  - cbn. rewrite !andb_true_iff. naive_solver.
Qed.

(** The collation tells the operands of every [and] and [or] apart: two whose
    canonical texts it calls equal have the same text. *)
Definition texts_apart (args : list AstNode) : bool :=
  forallb (λ x, forallb (λ y, negb (bool_decide (ast_order x y = Eq)) || bool_decide (ast_text x = ast_text y)) args) args.
Fixpoint told_apart (n : AstNode) : bool :=
  match n with
  | AstCompare _ l r _ => told_apart l && told_apart r
  | AstRequire _ b => told_apart b
  | AstLogic op args => (bool_decide (op = LogNot) || texts_apart (map canonicalizeAst args)) && forallb told_apart args
  | _ => true
  end.
Lemma texts_apart_spec args : texts_apart args = true ↔ ∀ x y, x ∈ args → y ∈ args → ast_order x y = Eq → ast_text x = ast_text y.
Proof using Type.
  unfold texts_apart. rewrite forallb_forall. setoid_rewrite forallb_forall. setoid_rewrite <- list_elem_of_In.
  setoid_rewrite orb_true_iff. setoid_rewrite negb_true_iff. setoid_rewrite bool_decide_eq_true. setoid_rewrite bool_decide_eq_false.
  split; intros Ha x.
  - intros y Hx Hy Heq. by destruct (Ha x Hx y Hy).
  - intros Hx y Hy. destruct (decide (ast_order x y = Eq)) as [E|E]; [right; by apply Ha|by left].
Qed.
Lemma texts_apart_perm args args' : args ≡ₚ args' → texts_apart args = texts_apart args'.
Proof using Type. intros Hp. apply eq_true_iff_eq. rewrite !texts_apart_spec. by setoid_rewrite Hp. Qed.
Lemma canonical_args_wf args : forallb proposable args = true → ∀ x, x ∈ map canonicalizeAst args → ast_wf x = true.
Proof using Type.
  intros Hn x (y & -> & Hy)%list_elem_of_fmap. apply proposable_wf, canonicalizeAst_proposable.
  rewrite forallb_forall in Hn. by apply Hn, list_elem_of_In.
Qed.

Lemma canonicalizeAst_reordered n n' : reordered n n' → proposable n = true → told_apart n = true →
  canonicalizeAst n = canonicalizeAst n' ∧ told_apart n' = true.
Proof using CL.
  induction 1 as [n|n1 n2 n3 H1 IH1 _ IH2|op args args' Hop Hp|op l n n' r _ IH|op l l' r r' tol _ IHl _ IHr|k b b' _ IH];
    intros Hn Ht; cbn [proposable told_apart] in Hn, Ht; rewrite ?andb_true_iff in Hn, Ht.
  - done.
  - destruct (IH1 Hn Ht) as [-> Ht2]. apply IH2; [|done]. by rewrite <- (reordered_proposable _ _ H1).
  - destruct Hn as [_ Hn], Ht as [Ha Ht]. rewrite bool_decide_eq_false_2 in Ha by done. cbn [orb] in Ha.
    assert (map canonicalizeAst args ≡ₚ map canonicalizeAst args') as Hpm by by apply fmap_Permutation.
    split; cbn [canonicalizeAst told_apart].
    + assert (js_sort ast_order (map canonicalizeAst args) = js_sort ast_order (map canonicalizeAst args')) as Hs;
        [|by destruct op; try done; rewrite Hs].
      assert (TotalPreorder ast_order) as Hpre by (unfold ast_order; apply _). apply (js_sort_unique ast_order); [done|].
      intros x y Hx Hy Heq. rewrite texts_apart_spec in Ha. pose proof (canonical_args_wf args Hn) as Hwf.
      pose proof (Ha x y Hx Hy Heq) as Htx. by apply (canonical_ast_inj code_unit_compare) in Htx; auto.
    + rewrite <- (texts_apart_perm _ _ Hpm), Ha, <- (forallb_perm _ _ _ Hp), Ht. by rewrite orb_true_r.
  - destruct Hn as [_ Hn], Ht as [Ha Ht]. rewrite forallb_app in Hn, Ht. cbn in Hn, Ht. rewrite !andb_true_iff in Hn, Ht.
    destruct IH as [IHc IHt]; [tauto..|].
    assert (map canonicalizeAst (l ++ n :: r) = map canonicalizeAst (l ++ n' :: r)) as Hm by (rewrite !map_app; cbn [map]; by rewrite IHc).
    split; cbn [canonicalizeAst told_apart]; [by rewrite Hm|]. rewrite <- Hm, forallb_app. cbn [forallb]. rewrite !andb_true_iff. tauto.
  - destruct Hn as [[_ Hl]%andb_true_iff Hr], Ht as [Htl Htr], (IHl Hl Htl) as [IHl1 IHl2], (IHr Hr Htr) as [IHr1 IHr2]. cbn [canonicalizeAst told_apart]. by rewrite IHl1, IHr1, IHl2, IHr2.
  - apply andb_true_iff in Hn as [_ Hn]. destruct (IH Hn Ht) as [IH1 IH2]. cbn [canonicalizeAst told_apart]. by rewrite IH1, IH2.
Qed.
Lemma canonicalizeAst_idem n : canonicalizeAst (canonicalizeAst n) = canonicalizeAst n.
Proof using CL.
  induction n as [v|a c|k|op args _|op l r tol IHl IHr|op args IH|k b IH] using AstNode_ind'; try done; cbn [canonicalizeAst].
  - by rewrite IHl, IHr.
  - assert (map canonicalizeAst (map canonicalizeAst args) = map canonicalizeAst args) as Hm.
    { rewrite map_map. apply map_ext_Forall. exact IH. }
    assert (map canonicalizeAst (js_sort ast_order (map canonicalizeAst args)) = js_sort ast_order (map canonicalizeAst args)) as Hs.
    { rewrite <- (map_id (js_sort _ _)) at 2. apply map_ext_in. intros x Hx. apply list_elem_of_In, elem_of_js_sort, list_elem_of_fmap in Hx as (y & -> & Hy).
      rewrite Forall_forall in IH. by apply IH. }
    assert (TotalPreorder ast_order) as Hpre by (unfold ast_order; apply _).
    f_equal. destruct op; try done; rewrite Hs; by apply js_sort_id, js_sort_sorted.
  - by rewrite IH.
Qed.

(** C21: the canonical form of a predicate a model may propose stands for it: on any
    facts it evaluates, as the predicate does, without a throw and to the same value;
    canonicalizing it again changes nothing; and every reordering of the operands of
    [and] and [or], at any depth, has the same canonical form, hence the same hash,
    provided that localeCompare does not call two operands with different texts equal
    (for operands it cannot tell apart the code keeps the order they came in). *)
Theorem canonical_form_faithful ast : proposable ast = true →
  (∀ facts, ∃ ev ev', evaluate ast facts = Ok ev ∧ evaluate (canonicalizeAst ast) facts = Ok ev' ∧
     ev_value ev = ev_value ev') ∧
  canonicalizeAst (canonicalizeAst ast) = canonicalizeAst ast ∧
  (told_apart ast = true → ∀ ast', reordered ast ast' → canonicalizeAst ast' = canonicalizeAst ast).
Proof using L CL.
  intros Hp. split; [intros facts; by apply canonicalizeAst_value|]. split; [apply canonicalizeAst_idem|].
  intros Ht ast' Hr. symmetry. by apply canonicalizeAst_reordered.
Qed.

(** *** Expected inputs *)

Lemma fact_keys_ast_keys n k : k ∈ ast_keys n ↔ k ∈ fact_keys n.
Proof using Type.
  assert (∀ args, Forall (λ n, k ∈ ast_keys n ↔ k ∈ fact_keys n) args →
    k ∈ flat_map ast_keys args ↔ k ∈ concat (map fact_keys args)) as Hargs.
  { induction 1 as [|x l Hx _ IH]; [done|]. cbn. by rewrite !elem_of_app, Hx, IH. }
  induction n as [v|a c|x|op args IH|op l r tol IHl IHr|op args IH|x b IH] using AstNode_ind'; cbn [ast_keys fact_keys].
  - done.
  - done.
  - done.
  - by apply Hargs.
  - by rewrite !elem_of_app, IHl, IHr.
  - by apply Hargs.
  - by rewrite !elem_of_cons, IH.
Qed.
Lemma elem_of_expected_inputs n k : k ∈ expected_inputs n ↔ k ∈ fact_keys n.
Proof using Type. unfold expected_inputs, collectFactKeys. by rewrite elem_of_js_sort, elem_of_set_of. Qed.
End evaluation.

(** ** Corpora *)

Section corpora.
Context {D : DecimalJs} {L : DecimalLaws D} {C : Collator} {H : Sha256}.
Implicit Types (cases : list ProposalBacktestCase) (item : ProposalBacktestCase).

(** The case mentions only facts the predicate reads. *)
Definition expected_only ast item : Prop :=
  ∀ k v, pb_facts item !! k = Some v → k ∈ fact_keys ast.

Lemma unexpected_facts_false ast item : unexpected_facts (expected_inputs ast) item = false ↔ expected_only ast item.
Proof using Type.
  unfold unexpected_facts, expected_only. rewrite existsb_false. split.
  - intros Hall k v Hk. rewrite <- elem_of_map_to_list in Hk. apply (list_elem_of_fmap_2 fst) in Hk.
    specialize (Hall _ Hk). cbn in Hall. apply negb_false_iff, bool_decide_eq_true in Hall.
    by apply elem_of_expected_inputs in Hall.
  - intros Hall k ((k' & v) & -> & Hv)%list_elem_of_fmap. apply elem_of_map_to_list in Hv.
    apply negb_false_iff, bool_decide_eq_true. apply elem_of_expected_inputs. by eapply Hall.
Qed.

(** The evidence of one case. *)
Definition evidence_of ast item (e : CaseEvidence) : Prop :=
  ce_case e = item ∧ evaluate ast (pb_facts item) = Ok (ce_evaluatedAst e) ∧
  ce_actualVerdict e = verdict (ce_evaluatedAst e) ∧
  ce_passed e = bool_decide (ce_actualVerdict e = pb_expectedVerdict item).

Lemma case_evidence_Ok ast item : proposable ast = true → ∃ e, case_evidence ast item = Ok e ∧ evidence_of ast item e.
Proof using L.
  intros Hp%proposable_tolerances. destruct (evaluate_total ast (pb_facts item) Hp) as [ev Hev].
  unfold case_evidence. rewrite Hev. cbn [map_err]. rewrite bind_ret_l. eexists. split; [done|]. by repeat split.
Qed.

(** Trying a proposal on a corpus never throws from the evaluation: the corpus
    is refused for a repeated case key, or for a fact the predicate does not read,
    and otherwise there is one piece of evidence per case, in the order of the keys,
    that passes exactly when the predicate's verdict is the expected one; and every
    fact bundle that agrees with the case on the expected inputs evaluates to the
    recorded tree. *)
Theorem proposal_corpus_exact ast cases : proposable ast = true →
  match evaluateProposalCorpus ast (expected_inputs ast) cases with
  | Ok evidence =>
      NoDup (map pb_caseKey cases) ∧ (∀ item, item ∈ cases → expected_only ast item) ∧
      Forall2 (evidence_of ast) (js_sort (cmp_on pb_caseKey localeCompare) cases) evidence ∧
      ∀ e facts, e ∈ evidence → (∀ k, k ∈ expected_inputs ast → facts !! k = pb_facts (ce_case e) !! k) →
        evaluate ast facts = Ok (ce_evaluatedAst e)
  | Err (BacktestRefused DUPLICATE_CASE) => ¬ NoDup (map pb_caseKey cases)
  | Err (BacktestRefused UNEXPECTED_FACT) =>
      NoDup (map pb_caseKey cases) ∧ ∃ item, item ∈ cases ∧ ¬ expected_only ast item
  | Err _ => False
  end.
Proof using L.
  intros Hp. unfold evaluateProposalCorpus.
  destruct (length (set_of (map pb_caseKey cases)) =? length (map pb_caseKey cases))%nat eqn:Hd.
  2: { intros Hnd. apply Nat.eqb_neq in Hd. by apply Hd, set_of_length. }
  apply Nat.eqb_eq, set_of_length in Hd. cbn [guard_or]. rewrite bind_ret_l.
  destruct (existsb (unexpected_facts (expected_inputs ast)) cases) eqn:Hu; cbn [negb guard_or].
  { split; [done|]. apply existsb_true in Hu as (item & Hin & Hu). exists item. split; [done|].
    intros He%unexpected_facts_false. congruence. }
  rewrite bind_ret_l. destruct (map_res_total (case_evidence ast) (js_sort (cmp_on pb_caseKey localeCompare) cases)) as [es Hes].
  { intros item _. destruct (case_evidence_Ok ast item Hp) as (e & He & _). eauto. }
  rewrite Hes. apply map_res_Ok in Hes.
  assert (Forall2 (evidence_of ast) (js_sort (cmp_on pb_caseKey localeCompare) cases) es) as Hall.
  { eapply Forall2_impl; [exact Hes|]. intros item e He. destruct (case_evidence_Ok ast item Hp) as (e' & He' & Hev).
    cbn in He. congruence. }
  split; [done|]. split; [|split; [done|]].
  - intros item Hin. apply unexpected_facts_false. by eapply existsb_false in Hu.
  - intros e facts He Hk. apply list_elem_of_lookup in He as [i Hi].
    destruct (Forall2_lookup_r _ _ _ _ _ Hall Hi) as (item & Hitem & <- & Hev & _).
    rewrite <- Hev. apply evaluate_depends_on_keys. intros k Hin. apply Hk.
    by apply elem_of_expected_inputs, fact_keys_ast_keys.
Qed.
End corpora.

(** ** What the generation of proposals admits *)

Section generation.
Context {D : DecimalJs} {L : DecimalLaws D} {U : Unicode} {C : Collator} {CL : CollatorLaws C} {H : Sha256}.
Implicit Types (verified : ClauseNormalization) (ast : AstNode).

Lemma canonicalizeAst_boolean ast : isBooleanAst (canonicalizeAst ast) = isBooleanAst ast.
Proof using Type. by induction ast using AstNode_ind'. Qed.
Lemma max_depth_perm l l' : l ≡ₚ l' → max_depth l = max_depth l'.
Proof using Type. unfold max_depth. induction 1; cbn; lia. Qed.
Lemma canonicalizeAst_depth ast : astDepth (canonicalizeAst ast) = astDepth ast.
Proof using Type.
  induction ast as [v|a c|k|op args _|op l r tol IHl IHr|op args IH|k b IH] using AstNode_ind';
    cbn [astDepth canonicalizeAst]; try done; [by rewrite IHl, IHr| |by rewrite IH].
  assert (map astDepth (map canonicalizeAst args) = map astDepth args) as Hd.
  { rewrite map_map. by apply map_ext_Forall. }
  f_equal. rewrite <- Hd. apply max_depth_perm. destruct op; [by rewrite js_sort_perm..|done].
Qed.
Lemma proposable_fact_keys ast k : proposable ast = true → k ∈ fact_keys ast → k ∈ PROPOSABLE_FACT_KEYS.
Proof using Type.
  intros Hp. revert k. apply Forall_forall.
  induction ast as [v|a c|x|op args _|op l r tol IHl IHr|op args IH|x b IH] using AstNode_ind'; cbn in *; try done.
  - rewrite Forall_singleton. by apply bool_decide_eq_true in Hp.
  - rewrite !andb_true_iff in Hp. apply Forall_app. naive_solver.
  - apply andb_true_iff in Hp as [_ Hp]. revert Hp. induction IH as [|y l Hy _ IHl]; cbn; [constructor|].
    intros [??]%andb_true_iff. apply Forall_app. auto.
  - apply andb_true_iff in Hp as [Hx Hp]. apply bool_decide_eq_true in Hx. constructor; auto.
Qed.

(** A predicate gives a verdict. *)
Definition gives_verdict ast : Prop := ∀ facts, ∃ ev, evaluate ast facts = Ok ev ∧
  ((∃ b, ev_value ev = VBool b) ∨ ∃ reason, ev_value ev = VUnassessable reason).
Lemma boolean_gives_verdict ast : proposable ast = true → isBooleanAst ast = true → gives_verdict ast.
Proof using L.
  intros Hp Hb facts. destruct (evaluate_total ast facts (proposable_tolerances _ Hp)) as [ev Hev].
  exists ev. split; [done|]. clear Hp.
  revert ev Hev. induction ast as [v|a c|x|op args _|op l r tol _ _|op args _|x b IH] using AstNode_ind';
    try done; intros ev Hev; cbn [evaluate] in Hev.
  - apply bind_Ok in Hev as (el & _ & (er & _ & (v & Hv & [= <-])%bind_Ok)%bind_Ok). cbn [ev_value].
    unfold eval_compare in Hv. destruct (isUnassessable (ev_value el) || isUnassessable (ev_value er)).
    { injection Hv as <-. eauto. }
    apply bind_Ok in Hv as (x & _ & (y & _ & Hv)%bind_Ok).
    destruct x, y, op; try (injection Hv as <-; eauto). apply bind_Ok in Hv as (t & _ & [= <-]). eauto.
  - apply bind_Ok in Hev as (evs & _ & [= <-]). cbn [ev_value]. unfold eval_logic.
    repeat case_match; eauto.
  - cbn in Hb. case_match; [|injection Hev as <-; cbn; eauto].
    apply bind_Ok in Hev as (e & He & [= <-]). cbn [ev_value]. by apply IH.
Qed.

(** A proposal a reviewer may see. *)
Record safe_proposal verified (p : ProposedCriterion) : Prop := {
  sp_predicate : proposable (cp_ast (pc_proposal p)) = true;
  sp_boolean : isBooleanAst (cp_ast (pc_proposal p)) = true;
  sp_depth : astDepth (cp_ast (pc_proposal p)) <= 20;
  sp_verdict : gives_verdict (cp_ast (pc_proposal p));
  sp_cited : well_cited verified (candidate_of (pc_proposal p));
  sp_hash : pc_astHash p = hash (ast_json (cp_ast (pc_proposal p)));
  sp_inputs : pc_expectedInputs p = expected_inputs (cp_ast (pc_proposal p));
  sp_facts : ∀ k, k ∈ pc_expectedInputs p → k ∈ PROPOSABLE_FACT_KEYS;
}.

Lemma bind_guard_Some {A} (P : Prop) `{Decision P} (f : option A) x : (guard P;; f) = Some x → P ∧ f = Some x.
Proof using Type. intros Hx. by case_guard. Qed.

Lemma criterion_schema_ast j c : proposedCriterionSchema j = Some c → proposable (cp_ast c) = true.
Proof using Type.
  unfold proposedCriterionSchema. intros Hc.
  repeat (apply bind_Some in Hc as (? & ? & Hc)). injection Hc as <-. cbn [cp_ast].
  match goal with Hast : required proposalAstSchema _ _ = Some _ |- _ => apply bind_Some in Hast as (a & _ & Hast) end.
  by apply (parse_ast_proposable a).
Qed.

Lemma output_schema_criteria j criteria : ProposedCriteriaModelOutputSchema j = Some criteria →
  criteria_refined criteria = true ∧ ∀ c, c ∈ criteria → proposable (cp_ast c) = true.
Proof using Type.
  unfold ProposedCriteriaModelOutputSchema. intros Hc. repeat (apply bind_Some in Hc as (? & ? & Hc)).
  match goal with Hl : required _ _ "criteria" = Some _ |- _ => rename Hl into Hcs end.
  case_match eqn:Hr; [|done]. injection Hc as <-. split; [done|]. intros c Hin.
  apply bind_Some in Hcs as (a & _ & Hcs). unfold array_of in Hcs. apply bind_Some in Hcs as (l & Hl & Hcs).
  case_match; [|done]. injection Hcs as <-. destruct a as [| | | |items|]; try done.
  apply (mapM_elem _ _ _ _ Hl) in Hin as (j' & _ & Hj'). by eapply criterion_schema_ast.
Qed.

Lemma propose_safe verified c : proposable (cp_ast c) = true → isBooleanAst (cp_ast c) && (astDepth (cp_ast c) <=? 20) = true →
  well_cited verified (candidate_of c) → safe_proposal verified (propose c).
Proof using L.
  intros Hp [Hb Hd]%andb_true_iff Hc. apply canonicalizeAst_proposable in Hp as Hp'.
  constructor; cbn; try done.
  - by rewrite canonicalizeAst_boolean.
  - rewrite canonicalizeAst_depth. lia.
  - apply boolean_gives_verdict; [done|]. by rewrite canonicalizeAst_boolean.
  - intros k Hk%elem_of_expected_inputs. by eapply proposable_fact_keys.
Qed.

(** The gates in sequence, and what each refusal means. *)
Lemma admit_proposals_spec output verified : normalization_refined verified = true →
  match admit_proposals output verified with
  | Ok ps =>
      (∀ s, part_of s output → financial s = false) ∧ (∀ p, p ∈ ps → safe_proposal verified p) ∧
      NoDup (map (λ p, cp_criterionKey (pc_proposal p)) ps)
  | Err (ModelMoneyAuthorityError _) => ¬ ∀ s, part_of s output → financial s = false
  | Err SchemaParse => ProposedCriteriaModelOutputSchema output = None
  | Err (ProposalCitationError _) =>
      ∃ criteria, ProposedCriteriaModelOutputSchema output = Some criteria ∧
        ¬ ∀ c, c ∈ criteria → well_cited verified (candidate_of c)
  | Err _ => False
  end.
Proof using L CL.
  intros Hr. unfold admit_proposals, rejectModelMoneyAuthority, requireProposalCitations.
  pose proof (money_gate_accepts output) as Hmoney.
  destruct (validateNoModelMoneyAuthority output) as [[] rejections]; cbn [fst guard_or] in Hmoney |- *.
  2: { intros Hs%Hmoney. done. }
  rewrite bind_ret_l. destruct (ProposedCriteriaModelOutputSchema output) as [criteria|] eqn:Hs; [|done].
  destruct (output_schema_criteria _ _ Hs) as [Href Hprop].
  pose proof (citation_gate_accepts (map candidate_of criteria) verified Hr) as Hcite.
  assert ((∀ c, c ∈ map candidate_of criteria → well_cited verified c) ↔
    ∀ c, c ∈ criteria → well_cited verified (candidate_of c)) as Hmap.
  { split; [intros Hall c Hc; by apply Hall, list_elem_of_fmap_2|]. intros Hall c (x & -> & Hx)%list_elem_of_fmap. auto. }
  rewrite Hmap in Hcite.
  destruct (validateProposalCitations _ _) as [[] cr]; cbn [fst guard_or] in Hcite |- *.
  2: { exists criteria. split; [done|]. intros Hall%Hcite. done. }
  rewrite bind_ret_l. apply andb_true_iff in Href as [Hnd Hast]. apply bool_decide_eq_true in Hnd.
  split; [by apply Hmoney|]. split.
  - intros p. rewrite elem_of_js_sort. intros (c & -> & Hc)%list_elem_of_fmap.
    apply propose_safe; [by apply Hprop|by eapply forallb_True_elem in Hast|by apply Hcite].
  - rewrite js_sort_perm, map_map. done.
Qed.

Lemma generateStructured_inv modelId call {O} (schema : json → option O) version sha evidence (r : AnthropicStructuredResult O) :
  generateStructured modelId call schema version sha evidence = Ok r →
  as_modelId r = modelId ∧ as_sourceDocumentSha256 r = sha ∧
  as_requestKey r = request_key modelId (as_promptVersion r) sha ∧
  ∃ response, call (as_requestKey r) evidence = Ok response ∧ rs_model response = modelId ∧
    rs_stop_reason response = Some "end_turn" ∧ rs_id response = as_providerMessageId r ∧
    schema (rs_parsed_output response) = Some (as_output r).
Proof using Type.
  unfold generateStructured. destruct (pinSchema version) as [v|]; [|done]. intros Hr.
  apply bind_Ok in Hr as (? & _ & Hr). apply bind_Ok in Hr as (? & _ & Hr). apply bind_Ok in Hr as (response & Hcall & Hr).
  apply bind_Ok in Hr as (? & Hm%guard_or_Ok & Hr). apply bind_Ok in Hr as (? & Hs%guard_or_Ok & Hr).
  rewrite !bool_decide_eq_true in Hm, Hs. destruct (schema _) as [o|] eqn:Ho; [|done]. injection Hr as <-. cbn.
  repeat split. exists response. repeat split; try done. by destruct (call _ _); cbn in Hcall; simplify_eq.
Qed.

(** C12: a model can only propose: whatever it answers, every criterion that
    [generateProposedCriteria] returns is a boolean predicate without arithmetic,
    money or tolerances, at most 20 deep, over the listed facts; evaluates on any
    facts to a verdict; cites clauses of the document that were not abstained on; and
    carries its hash and its inputs; the keys are distinct; the answer came from the
    configured model and nothing in it claims financial authority. *)
Theorem generated_proposals_safe modelId call sha verified r : normalization_refined verified = true →
  generateProposedCriteria modelId call sha verified = Ok r →
  (∀ p, p ∈ as_output r → safe_proposal verified p) ∧
  NoDup (map (λ p, cp_criterionKey (pc_proposal p)) (as_output r)) ∧
  as_modelId r = modelId ∧ as_sourceDocumentSha256 r = sha ∧
  ∃ evidence response answer, call (as_requestKey r) evidence = Ok response ∧ rs_model response = modelId ∧
    ProposedCriteriaProviderEnvelopeSchema (rs_parsed_output response) = Some answer ∧
    ∀ s, part_of s answer → financial s = false.
Proof using L CL.
  unfold generateProposedCriteria. intros Hr Hg. apply bind_Ok in Hg as (? & _ & Hg).
  apply bind_Ok in Hg as (provided & Hp & Hg). apply bind_Ok in Hg as (ps & Hps & [= <-]). cbn.
  apply generateStructured_inv in Hp as (Hm & Hsha & Hk & response & Hcall & Hmod & _ & _ & Hans).
  pose proof (admit_proposals_spec (as_output provided) verified Hr) as Hspec. rewrite Hps in Hspec.
  destruct Hspec as (Hfin & Hsafe & Hnd). split; [done|]. split; [done|]. split; [done|]. split; [done|].
  do 3 eexists. done.
Qed.
End generation.

(** ** The theorems at concrete inputs *)

(** Unicode normalization of Latin text without compatibility characters. *)
Definition demo_unicode : Unicode := λ s, s.

Section witnesses.
#[local] Existing Instances ExactDecimal.ops ExactDecimal.laws code_unit_collator demo_unicode prefix_sha.

Definition demo_citation : Citation :=
  mkCitation (JsFinite "3") "Fuel is included in the linehaul rate." None (Some (JsFinite "10", JsFinite "38")).
Definition demo_clauses : ClauseNormalization :=
  [mkClause "4.2" [demo_citation] (NORMALIZED (mkContent "RATE" None "Fuel is not billed apart." [] []));
   mkClause "9" [] (ABSTAINED "MISSING_TEXT" "What does clause 9 say?")].
Definition compare_json (key op : string) (value : json) : json :=
  JObject [("type", JString "compare"); ("op", JString op);
           ("left", JObject [("type", JString "fact"); ("key", JString key)]);
           ("right", JObject [("type", JString "lit"); ("value", value)])].
Definition logic_json (args : list json) : json :=
  JObject [("type", JString "logic"); ("op", JString "and"); ("args", JArray args)].
Definition no_fuel_json : json :=
  logic_json [compare_json "has_fuel_category" "eq" (JBool false); compare_json "charge_count" "gt" (JNumber (JsFinite "0"))].
Definition demo_criterion_json (reference : string) (ast : json) : json :=
  JObject [("criterionKey", JString "CONTRACT.PROPOSED.NO_FUEL"); ("kind", JString "SCORING");
           ("ruleType", JString "CONTRACT_CONFORMANCE"); ("description", JString "No fuel charge.");
           ("clauseReferences", JArray [JString reference]); ("citations", JArray [citation_json demo_citation]);
           ("ast", ast)].
Definition demo_answer (criteria : list json) : json :=
  JObject [("schemaVersion", JString PROPOSED_CRITERIA_SCHEMA_VERSION); ("criteria", JArray criteria)].
Definition demo_call (answer : json) : string → string → result (string * option Z) ParsedResponse :=
  λ _ _, Ok (mkResponse "msg_1" "model-1" (Some "end_turn") answer).
Definition demo_source_sha : string := hex (replicate 32 0%N).
Definition generated (answer : json) : result proposal_error (AnthropicStructuredResult (list ProposedCriterion)) :=
  generateProposedCriteria "model-1" (demo_call answer) demo_source_sha demo_clauses.

Definition no_fuel : AstNode := Eval vm_compute in
  default (AstLit (LitBool true)) (proposalAstSchema no_fuel_json).

(** An arithmetic node hidden two levels down, and a total under another spelling. *)
Example money_gate_refuses :
  (validateNoModelMoneyAuthority (JArray [JObject [("note", JObject [("type", JString "arith")])]])).1 = false ∧
  (validateNoModelMoneyAuthority (demo_answer [JObject [("Billed-Total", JNull)]])).1 = false ∧
  (validateNoModelMoneyAuthority (demo_answer [demo_criterion_json "4.2" no_fuel_json])).1 = true.
Proof. by repeat split; vm_compute. Qed.

Lemma citation_gate_exact_witness :
  well_cited demo_clauses (mkCandidate "k" ["4.2"] [demo_citation]) ∧
  ¬ well_cited demo_clauses (mkCandidate "k" ["9"] [demo_citation]).
Proof.
  assert (normalization_refined demo_clauses = true) as Hr by (vm_compute; reflexivity). split.
  - apply (proj1 (citation_gate_exact [mkCandidate "k" ["4.2"] [demo_citation]] demo_clauses Hr)
      ltac:(vm_compute; reflexivity)). by left.
  - intros Hc. pose proof (proj2 (citation_gate_exact [mkCandidate "k" ["9"] [demo_citation]] demo_clauses Hr)) as Hg.
    assert ((validateProposalCitations [mkCandidate "k" ["9"] [demo_citation]] demo_clauses).1 = false) as Hf
      by (vm_compute; reflexivity).
    rewrite Hg in Hf; [discriminate|]. intros c Hin. apply list_elem_of_singleton in Hin as ->. exact Hc.
Defined.

Definition no_fuel_swapped : AstNode :=
  match no_fuel with AstLogic op [a; b] => AstLogic op [b; a] | n => n end.
Lemma canonical_form_faithful_witness :
  no_fuel_swapped ≠ no_fuel ∧ canonicalizeAst no_fuel_swapped = canonicalizeAst no_fuel.
Proof.
  split; [discriminate|].
  apply (proj2 (proj2 (canonical_form_faithful no_fuel ltac:(vm_compute; reflexivity)))).
  - vm_compute. reflexivity.
  - apply reordered_swap; [discriminate|]. apply perm_swap.
Defined.

Definition demo_corpus : list ProposalBacktestCase :=
  [mkBacktestCase "with fuel" {["has_fuel_category" := FactBool true; "charge_count" := FactNumber (JsFinite "2")]} FAIL;
   mkBacktestCase "unknown" {["charge_count" := FactNumber (JsFinite "2")]} UNASSESSABLE].
Lemma proposal_corpus_exact_witness : ∃ evidence,
  evaluateProposalCorpus no_fuel (expected_inputs no_fuel) demo_corpus = Ok evidence ∧
  map ce_passed evidence = [true; true] ∧
  Forall2 (evidence_of no_fuel) (js_sort (cmp_on pb_caseKey localeCompare) demo_corpus) evidence.
Proof.
  pose proof (proposal_corpus_exact no_fuel demo_corpus ltac:(vm_compute; reflexivity)) as Hc.
  assert (map_err (λ _, tt) (map ce_passed <$> evaluateProposalCorpus no_fuel (expected_inputs no_fuel) demo_corpus) =
    Ok [true; true]) as He by (vm_compute; reflexivity).
  destruct (evaluateProposalCorpus no_fuel (expected_inputs no_fuel) demo_corpus) as [evidence|]; [|discriminate He].
  exists evidence. split; [reflexivity|]. split; [by injection He|]. exact (proj1 (proj2 (proj2 Hc))).
Defined.

Lemma generated_proposals_safe_witness : ∃ r p, generated (demo_answer [demo_criterion_json "4.2" no_fuel_json]) = Ok r ∧
  as_output r = [p] ∧ safe_proposal demo_clauses p.
Proof.
  assert (normalization_refined demo_clauses = true) as Hr by (vm_compute; reflexivity).
  assert (is_ok (generated (demo_answer [demo_criterion_json "4.2" no_fuel_json])) = true) as Hok by (vm_compute; reflexivity).
  destruct (generated (demo_answer [demo_criterion_json "4.2" no_fuel_json])) as [r|] eqn:Hg; [|discriminate Hok].
  assert (length <$> (as_output <$> generated (demo_answer [demo_criterion_json "4.2" no_fuel_json])) = Ok 1%nat) as Hlen
    by (vm_compute; reflexivity).
  rewrite Hg in Hlen. cbn in Hlen. exists r. destruct (as_output r) as [|p [|]] eqn:Ho; try discriminate Hlen.
  exists p. split; [reflexivity|]. split; [reflexivity|].
  apply (proj1 (generated_proposals_safe _ _ _ _ r Hr Hg)). rewrite Ho. by left.
Defined.

(** The refusals: an abstained clause, and an answer with an amount. *)
Example generation_refuses :
  generated (demo_answer [demo_criterion_json "9" no_fuel_json]) =
    Err (ProposalCitationError [mkCitationRejection "CONTRACT.PROPOSED.NO_FUEL" ABSTAINED_CLAUSE (Some "9");
                                mkCitationRejection "CONTRACT.PROPOSED.NO_FUEL" UNKNOWN_CITATION None]) ∧
  generated (demo_answer [demo_criterion_json "4.2" (JObject [("type", JString "money"); ("amount", JString "5");
                                                             ("currency", JString "USD")])]) =
    Err (ModelMoneyAuthorityError [mkMoneyRejection MONEY_LITERAL "$.criteria[0].ast"]).
Proof. split; vm_compute; reflexivity. Qed.
End witnesses.
