(* ===== verification/ProposalLifecycle.v ===== *)
(** From a model's proposal to a firm rule ([src/src/modules/contracts/]): storing
    proposals ([persist-contract-rule-proposals.ts]), trying them on a corpus
    ([backtest-contract-rule-proposals.ts]), accepting one into SHADOW
    ([accept-contract-rule-proposal.ts]) and ratifying it into ACTIVE
    ([ratify-contract-rule-proposal.ts]).  A handler takes the tables and returns
    the tables it commits, or the error that rolls its transaction back. *)

From S2P Require Import Prelude JsText Decimal Json Interpreter AstJson Store AuditLedger Lifecycle GoldenCorpus Jsonb JsDate Database Tx Manifest Proposals.

(** ** Tables *)

Record source_document := mkDocument { sd_id : string; sd_account : string; sd_sha256 : string }.
Record verified_version := mkVerified {
  vv_id : string; vv_account : string; vv_contract_version : string; vv_source_document : string;
  vv_extraction_hash : string; vv_verification_hash : string;
}.
Record contract_clause := mkContractClause {
  kl_id : string; kl_account : string; kl_contract_version : string; kl_ref : string; kl_text : option string;
}.
(** A stored proposal: the criterion, and the answer it comes from. *)
Record rule_proposal := mkRuleProposal {
  rp_id : string; rp_account : string; rp_verified_version : string; rp_criterion : ProposedCriterion;
  rp_source : AnthropicStructuredResult unit; rp_extraction_hash : string; rp_verification_hash : string;
  rp_proposal_hash : string; rp_actor : string;
}.
Definition rp_ast (p : rule_proposal) : AstNode := cp_ast (pc_proposal (rp_criterion p)).
Definition rp_ast_hash (p : rule_proposal) : string := pc_astHash (rp_criterion p).
Record proposal_clause := mkProposalClause {
  pl_account : string; pl_proposal : string; pl_clause : string; pl_citations : list Citation;
}.
Record proposal_backtest := mkProposalBacktest {
  pt_id : string; pt_account : string; pt_proposal : string; pt_schema_version : string; pt_corpus_hash : string;
  pt_proposal_hash : string; pt_ast_hash : string; pt_passed : bool; pt_pass_count : Z; pt_regression_count : Z;
  pt_actor : string;
}.
(** A case of a backtest, as stored. *)
Record backtest_case := mkBacktestRow {
  bc_account : string; bc_backtest : string; bc_key : string; bc_facts : json; bc_expected : Verdict; bc_actual : Verdict;
  bc_passed : bool; bc_input_hash : string; bc_expected_hash : string; bc_actual_hash : string; bc_evaluated : json;
}.
Record acceptance := mkAcceptance {
  ap_id : string; ap_account : string; ap_proposal : string; ap_backtest : string; ap_shadow : string;
  ap_by : string; ap_rationale : string;
}.
Record ratification := mkRatification {
  ra_id : string; ra_account : string; ra_acceptance : string; ra_proposal : string; ra_backtest : string;
  ra_shadow : string; ra_active : string; ra_by : string; ra_rationale : string;
}.
(** The columns migrations 0042 and 0043 add to [rule_version], of the versions
    where they are not NULL. *)
Record governance := mkGovernance {
  gv_version : string; gv_proposal : string; gv_backtest : string;
  gv_ratified_by : option string; gv_rationale : option string;
}.

(** [governed_promotions] are the promotion events with a
    [contract_proposal_backtest_id]; the other rows are in [rules]. *)
Record proposal_db := mkProposalDb {
  documents : list source_document; verified_versions : list verified_version; contract_clauses : list contract_clause;
  proposals : list rule_proposal; proposal_clauses : list proposal_clause;
  backtests : list proposal_backtest; backtest_cases : list backtest_case;
  acceptances : list acceptance; ratifications : list ratification;
  rule_slugs : list (string * string);   (* rule.id, rule.slug *)
  governed : list governance; governed_promotions : list (promotion_event * string);
  rules : rule_db; ids_used : nat;
}.

Inductive proposal_failure : Set :=
  | SchemaError                                  (* a ZodError *)
  | ProposalPersistenceError (code : string)
  | CorpusError (e : corpus_failure)             (* ProposalBacktestError, or a throw of the evaluation *)
  | ProposalAcceptanceError (code : string)
  | ProposalRatificationError (code : string)
  | ConstraintError (name : string)
  | AuditError' (e : AuditError)
  | LifecycleError (e : rule_error)
  | AmendmentError (message : string).

(** ** The transactions *)

Definition ptx (A : Type) : Type := proposal_db → result proposal_failure (A * proposal_db).
#[export] Instance ptx_ret : MRet ptx := λ A a s, Ok (a, s).
#[export] Instance ptx_bind : MBind ptx := λ A B f m s, match m s with Ok (a, s') => f a s' | Err x => Err x end.
Definition pthrow {A} (x : proposal_failure) : ptx A := λ s, Err x.
Definition pquery {A} (f : proposal_db → A) : ptx A := λ s, Ok (f s, s).
Definition pmodify (f : proposal_db → proposal_db) : ptx unit := λ s, Ok (tt, f s).
Definition pcheck (b : bool) (x : proposal_failure) : ptx unit := if b then mret tt else pthrow x.
Definition pthe {A} (o : option A) (x : proposal_failure) : ptx A := match o with Some a => mret a | None => pthrow x end.
Fixpoint pfor {A B} (f : A → ptx B) (l : list A) : ptx (list B) :=
  match l with [] => mret [] | x :: l' => y ← f x; ys ← pfor f l'; mret (y :: ys) end.

Definition set_evidence (p : list rule_proposal) (c : list proposal_clause) (b : list proposal_backtest)
    (k : list backtest_case) (s : proposal_db) : proposal_db :=
  mkProposalDb (documents s) (verified_versions s) (contract_clauses s) p c b k (acceptances s) (ratifications s)
    (rule_slugs s) (governed s) (governed_promotions s) (rules s) (ids_used s).
Definition add_proposal (r : rule_proposal) (s : proposal_db) : proposal_db :=
  set_evidence (proposals s ++ [r]) (proposal_clauses s) (backtests s) (backtest_cases s) s.
Definition add_proposal_clause (r : proposal_clause) (s : proposal_db) : proposal_db :=
  set_evidence (proposals s) (proposal_clauses s ++ [r]) (backtests s) (backtest_cases s) s.
Definition add_backtest (r : proposal_backtest) (s : proposal_db) : proposal_db :=
  set_evidence (proposals s) (proposal_clauses s) (backtests s ++ [r]) (backtest_cases s) s.
Definition add_case (r : backtest_case) (s : proposal_db) : proposal_db :=
  set_evidence (proposals s) (proposal_clauses s) (backtests s) (backtest_cases s ++ [r]) s.
Definition set_decisions (a : list acceptance) (r : list ratification) (s : proposal_db) : proposal_db :=
  mkProposalDb (documents s) (verified_versions s) (contract_clauses s) (proposals s) (proposal_clauses s) (backtests s)
    (backtest_cases s) a r (rule_slugs s) (governed s) (governed_promotions s) (rules s) (ids_used s).
Definition set_governed (l : list (string * string)) (g : list governance) (e : list (promotion_event * string))
    (d : rule_db) (s : proposal_db) : proposal_db :=
  mkProposalDb (documents s) (verified_versions s) (contract_clauses s) (proposals s) (proposal_clauses s) (backtests s)
    (backtest_cases s) (acceptances s) (ratifications s) l g e d (ids_used s).
Definition set_rules (d : rule_db) (s : proposal_db) : proposal_db :=
  set_governed (rule_slugs s) (governed s) (governed_promotions s) d s.
Definition add_rule (id slug : string) (t : RuleType) (s : proposal_db) : proposal_db :=
  let d := rules s in
  set_governed (rule_slugs s ++ [(id, slug)]) (governed s) (governed_promotions s)
    (mkRuleDb (rule_versions d) (rule_types d ++ [(id, t)]) (promotion_events d) (promotion_policies d)
       (human_overrides d) (Lifecycle.accounts d) (criteria d) (audit_events d)) s.
Definition add_governed (v : rule_version) (g : governance) (s : proposal_db) : proposal_db :=
  set_governed (rule_slugs s) (governed s ++ [g]) (governed_promotions s) (set_rule_versions (λ t, t ++ [v]) (rules s)) s.
Definition add_promotion (e : promotion_event) (backtest : string) (s : proposal_db) : proposal_db :=
  set_governed (rule_slugs s) (governed s) (governed_promotions s ++ [(e, backtest)]) (rules s) s.
Definition set_ledger (l : ledger) (s : proposal_db) : proposal_db :=
  let d := rules s in
  set_rules (mkRuleDb (rule_versions d) (rule_types d) (promotion_events d) (promotion_policies d)
    (human_overrides d) (Lifecycle.accounts d) (criteria d) l) s.
Definition use_id (s : proposal_db) : proposal_db :=
  mkProposalDb (documents s) (verified_versions s) (contract_clauses s) (proposals s) (proposal_clauses s) (backtests s)
    (backtest_cases s) (acceptances s) (ratifications s) (rule_slugs s) (governed s) (governed_promotions s) (rules s)
    (S (ids_used s)).

(** [IS NOT DISTINCT FROM] on [jsonb]. *)
Definition json_same (a b : json) : bool :=
  bool_decide (canonical code_unit_compare a = canonical code_unit_compare b).
(** [writeAuditEvent] on the transaction's client. *)
Definition pemit (i : AuditEvent) : ptx unit := λ s,
  match writeAuditEvent i (audit_events (rules s)) with
  | Ok (_, log) => Ok (tt, set_ledger log s)
  | Err x => Err (AuditError' x)
  end.
(** An event about a rule version. *)
Definition with_rule_version (v : string) (i : AuditEvent) : AuditEvent :=
  mkAuditEvent (ae_id i) (ae_clientId i) (ae_entity i) (ae_entityId i) (ae_event i) (ae_actorKind i) (ae_actorUserId i)
    (Some v) (ae_rubricSnapshotId i) (ae_detail i).
(** A [persisted] event of the extraction with this response hash. *)
Definition extraction_persisted (clientId document responseHash : string) (e : AuditEvent) : bool :=
  bool_decide (ae_clientId e = Some (pg_uuid clientId)) && bool_decide (ae_entity e = "contract_extraction") &&
  bool_decide (ae_entityId e = Some document) && bool_decide (ae_event e = "persisted") &&
  match ae_detail e with
  | Some d => bool_decide ((map_get d "responseHash" ≫= as_string) = Some responseHash)
  | None => false
  end.

(** The collation [ORDER BY] uses on text columns: the database's. *)
Class DbCollation := text_order : string → string → comparison.

Section handlers.
Context {D : DecimalJs} {C : Collator} {T : DbCollation} {H : Sha256} {U : UuidSource} {W : Zod}.

(** A generated identifier, which must be new for the table with these keys. *)
Definition new_id (keys : proposal_db → list string) : ptx string := λ s,
  let i := gen_random_uuid (ids_used s) in
  if bool_decide (i ∈ keys s) then Err (ConstraintError "primary key") else Ok (i, use_id s).

(** ** Persisting proposals *)

Definition rule_type_text (t : RuleType) : string :=
  match t with
  | STRUCTURAL => "STRUCTURAL" | INTRA_LINE => "INTRA_LINE" | CROSS_REFERENCE => "CROSS_REFERENCE"
  | CONTRACT_CONFORMANCE => "CONTRACT_CONFORMANCE" | EXTERNAL_REFERENCE => "EXTERNAL_REFERENCE"
  | CROSS_DOCUMENT => "CROSS_DOCUMENT" | POLICY_ELIGIBILITY => "POLICY_ELIGIBILITY"
  end.
Definition proposal_entries (c : CriterionProposal) : list (string * option json) :=
  [("criterionKey", Some (JString (cp_criterionKey c))); ("kind", Some (JString "SCORING"));
   ("ruleType", Some (JString (rule_type_text (cp_ruleType c)))); ("description", Some (JString (cp_description c)));
   ("clauseReferences", Some (JArray (map JString (cp_clauseReferences c))));
   ("citations", Some (JArray (map citation_json (cp_citations c)))); ("ast", Some (ast_json (cp_ast c)))].
Definition inputs_json (keys : list string) : json := JArray (map JString keys).
Definition proposed_json (p : ProposedCriterion) : json :=
  obj (proposal_entries (pc_proposal p) ++
       [("astHash", Some (JString (pc_astHash p))); ("expectedInputs", Some (inputs_json (pc_expectedInputs p)));
        ("lifecycleState", Some (JString "PROPOSED"))]).
(** [ProposedCriteriaSchema], of each criterion: the strict schema of the model's
    output, and the derived columns. *)
Definition stored_criterion (p : ProposedCriterion) : option ProposedCriterion :=
  c ← proposedCriterionSchema (obj (proposal_entries (pc_proposal p)));
  if is_sha256_hex (pc_astHash p) && within 0 14 (length (pc_expectedInputs p)) &&
     forallb (λ k, bool_decide (k ∈ PROPOSABLE_FACT_KEYS)) (pc_expectedInputs p)
  then Some (mkProposed c (pc_astHash p) (pc_expectedInputs p)) else None.
Definition result_input (r : AnthropicStructuredResult (list ProposedCriterion)) :
    option (AnthropicStructuredResult (list ProposedCriterion)) :=
  criteria ← mapM stored_criterion (as_output r);
  if within 0 1000 (length criteria) && within 1 200 (String.length (trim (as_modelId r))) &&
     bool_decide (as_promptVersion r = "contract-proposed-criteria/1") && is_sha256_hex (as_sourceDocumentSha256 r) &&
     is_sha256_hex (as_requestKey r) && within 1 500 (String.length (trim (as_providerMessageId r)))
  then Some (mkResult criteria (trim (as_modelId r)) (as_promptVersion r) (as_sourceDocumentSha256 r) (as_requestKey r)
               (trim (as_providerMessageId r)))
  else None.

(** [collectFacts] reads the stored JSON; on a predicate it finds its facts. *)
Definition proposal_hash (verifiedContractVersionId : string) (r : AnthropicStructuredResult (list ProposedCriterion))
    (v : verified_version) (c : ProposedCriterion) : string :=
  hash (obj [("verifiedContractVersionId", Some (JString verifiedContractVersionId)); ("criterion", Some (proposed_json c));
    ("provider", Some (JString "anthropic")); ("modelId", Some (JString (as_modelId r)));
    ("promptVersion", Some (JString (as_promptVersion r))); ("providerMessageId", Some (JString (as_providerMessageId r)));
    ("requestKey", Some (JString (as_requestKey r))); ("extractionResponseHash", Some (JString (vv_extraction_hash v)));
    ("verificationHash", Some (JString (vv_verification_hash v)))]).

(** The unique keys of [contract_rule_proposal]. *)
Definition proposal_clash (r x : rule_proposal) : bool :=
  bool_decide (rp_account x = rp_account r) &&
  (bool_decide (rp_proposal_hash x = rp_proposal_hash r) ||
   bool_decide (rp_verified_version x = rp_verified_version r) &&
   bool_decide (cp_criterionKey (pc_proposal (rp_criterion x)) = cp_criterionKey (pc_proposal (rp_criterion r))) &&
   bool_decide (rp_ast_hash x = rp_ast_hash r)).
(** The fallback's condition. *)
Definition same_proposal (r x : rule_proposal) : bool :=
  bool_decide (rp_account x = rp_account r) && bool_decide (rp_proposal_hash x = rp_proposal_hash r) &&
  bool_decide (rp_verified_version x = rp_verified_version r) &&
  bool_decide (cp_criterionKey (pc_proposal (rp_criterion x)) = cp_criterionKey (pc_proposal (rp_criterion r))) &&
  bool_decide (rp_ast_hash x = rp_ast_hash r).

Definition link_clause (row : proposal_clause) : ptx unit :=
  links ← pquery proposal_clauses;
  let clash x := bool_decide (pl_account x = pl_account row) && bool_decide (pl_proposal x = pl_proposal row) &&
                 bool_decide (pl_clause x = pl_clause row) in
  if existsb clash links then
    pcheck (existsb (λ x, clash x && json_same (JArray (map citation_json (pl_citations x)))
              (JArray (map citation_json (pl_citations row)))) links) (ProposalPersistenceError "PARTIAL_CONFLICT")
  else pmodify (add_proposal_clause row).

(** One round of the loop over the criteria: the proposal's id, and whether it is new. *)
Definition persist_criterion (clientId verifiedContractVersionId actorUserId : string)
    (r : AnthropicStructuredResult (list ProposedCriterion)) (v : verified_version) (clauses : list (string * string))
    (c : ProposedCriterion) : ptx (string * bool) :=
  _ ← pcheck (bool_decide (hash (ast_json (cp_ast (pc_proposal c))) = pc_astHash c)) (ProposalPersistenceError "AST_HASH_MISMATCH");
  _ ← pcheck (bool_decide (expected_inputs (cp_ast (pc_proposal c)) = pc_expectedInputs c))
        (ProposalPersistenceError "EXPECTED_INPUTS_MISMATCH");
  id ← new_id (λ s, map rp_id (proposals s));
  let row := mkRuleProposal id (pg_uuid clientId) (pg_uuid verifiedContractVersionId) c
    (mkResult tt (as_modelId r) (as_promptVersion r) (as_sourceDocumentSha256 r) (as_requestKey r) (as_providerMessageId r))
    (vv_extraction_hash v) (vv_verification_hash v) (proposal_hash verifiedContractVersionId r v c) (pg_uuid actorUserId) in
  rows ← pquery proposals;
  proposal ← (if existsb (proposal_clash row) rows
              then x ← pthe (select_one (same_proposal row) rows) (ProposalPersistenceError "PARTIAL_CONFLICT");
                   mret (rp_id x, false)
              else _ ← pmodify (add_proposal row); mret (id, true));
  _ ← pfor (λ reference, link_clause (mkProposalClause (pg_uuid clientId) proposal.1
        (default "" (map_get clauses reference)) (cp_citations (pc_proposal c))))
      (js_sort code_unit_compare (cp_clauseReferences (pc_proposal c)));
  mret proposal.

Definition persistContractRuleProposals (clientId verifiedContractVersionId actorUserId : string)
    (untrusted : AnthropicStructuredResult (list ProposedCriterion)) : ptx (list string * nat) :=
  _ ← pcheck (zod_uuid clientId && zod_uuid verifiedContractVersionId && zod_uuid actorUserId) SchemaError;
  r ← pthe (result_input untrusted) SchemaError;
  vs ← pquery verified_versions; ds ← pquery documents;
  found ← pthe (v ← select_one (λ v, uuid_is (vv_id v) verifiedContractVersionId && uuid_is (vv_account v) clientId) vs;
                d ← select_one (λ d, bool_decide (sd_id d = vv_source_document v) && bool_decide (sd_account d = vv_account v)) ds;
                Some (v, d)) (ProposalPersistenceError "VERIFIED_VERSION_NOT_FOUND");
  let '(v, d) := found in
  _ ← pcheck (bool_decide (sd_sha256 d = as_sourceDocumentSha256 r)) (ProposalPersistenceError "SOURCE_HASH_MISMATCH");
  log ← pquery (λ s, audit_events (rules s));
  _ ← pcheck (existsb (extraction_persisted clientId (vv_source_document v) (vv_extraction_hash v)) log)
        (ProposalPersistenceError "EXTRACTION_NOT_FOUND");
  let references := js_sort code_unit_compare
    (set_of (concat (map (λ c, cp_clauseReferences (pc_proposal c)) (as_output r)))) in
  all ← pquery contract_clauses;
  let rows := List.filter (λ k, uuid_is (kl_account k) clientId && bool_decide (kl_contract_version k = vv_contract_version v) &&
                bool_decide (kl_ref k ∈ references)) all in
  let clauses := map_of (map (λ k, (kl_ref k, kl_id k)) (js_sort (cmp_on kl_ref text_order) rows)) in
  _ ← pcheck (forallb (λ reference, bool_decide (is_Some (map_get clauses reference))) references)
        (ProposalPersistenceError "CLAUSE_NOT_FOUND");
  ids ← pfor (persist_criterion clientId verifiedContractVersionId actorUserId r v clauses) (as_output r);
  let createdCount := length (List.filter snd ids) in
  _ ← pemit (audit_event (deterministicAuditEventId [clientId; verifiedContractVersionId; as_requestKey r; "contract_rule_proposals.persisted"])
        clientId "contract_rule_proposals" verifiedContractVersionId "persisted" ActorAI (Some actorUserId)
        [("proposalIds", JArray (map (λ i, JString i.1) ids)); ("proposalCount", json_int (Z.of_nat (length ids)));
         ("requestKey", JString (as_requestKey r)); ("modelId", JString (as_modelId r));
         ("promptVersion", JString (as_promptVersion r)); ("providerMessageId", JString (as_providerMessageId r));
         ("extractionResponseHash", JString (vv_extraction_hash v)); ("verificationHash", JString (vv_verification_hash v))]);
  mret (map fst ids, createdCount).

(** ** Backtests *)

Record corpus_input := mkCorpus { ci_proposalId : string; ci_cases : list ProposalBacktestCase }.
Definition CORPUS_SCHEMA_VERSION : string := "contract-proposal-backtest/1".

(** The schema of a case: a key of 1 to 300 characters, facts of the list. *)
Definition fact_input_ok (v : FactValue) : bool :=
  match v with
  | FactNumber n => match n with JsFinite _ => true | _ => false end
  | FactString s => within 0 4000 (String.length s)
  | FactBool _ => true
  | FactMoney amount currency => within 0 100 (String.length amount) && within 1 10 (String.length (trim currency))
  | FactDecimal d => within 0 100 (String.length d)
  end.
Definition trim_fact (v : FactValue) : FactValue :=
  match v with FactMoney amount currency => FactMoney amount (trim currency) | _ => v end.
Definition case_schema (c : ProposalBacktestCase) : option ProposalBacktestCase :=
  if within 1 300 (String.length (trim (pb_caseKey c))) &&
     forallb (λ e, bool_decide (e.1 ∈ PROPOSABLE_FACT_KEYS) && fact_input_ok e.2) (map_to_list (pb_facts c))
  then Some (mkBacktestCase (trim (pb_caseKey c)) (trim_fact <$> pb_facts c) (pb_expectedVerdict c)) else None.
Definition corpus_schema (c : corpus_input) : option corpus_input :=
  cases ← mapM case_schema (ci_cases c);
  if zod_uuid (ci_proposalId c) && within 1 10000 (length cases) then Some (mkCorpus (ci_proposalId c) cases) else None.

Definition case_json (e : CaseEvidence) : json :=
  obj [("caseKey", Some (JString (pb_caseKey (ce_case e)))); ("inputHash", Some (JString (ce_inputHash e)));
       ("expectedHash", Some (JString (ce_expectedHash e)))].
Definition corpus_hash (p : rule_proposal) (evidence : list CaseEvidence) : string :=
  hash (obj [("schemaVersion", Some (JString CORPUS_SCHEMA_VERSION)); ("proposalHash", Some (JString (rp_proposal_hash p)));
             ("astHash", Some (JString (rp_ast_hash p))); ("cases", Some (JArray (map case_json evidence)))]).
Definition case_row (account backtest : string) (e : CaseEvidence) : backtest_case :=
  mkBacktestRow account backtest (pb_caseKey (ce_case e)) (facts_json (pb_facts (ce_case e))) (pb_expectedVerdict (ce_case e))
    (ce_actualVerdict e) (ce_passed e) (ce_inputHash e) (ce_expectedHash e) (ce_actualHash e) (eval_json (ce_evaluatedAst e)).
Definition case_clash (r x : backtest_case) : bool :=
  bool_decide (bc_account x = bc_account r) && bool_decide (bc_backtest x = bc_backtest r) && bool_decide (bc_key x = bc_key r).
Definition same_case (r x : backtest_case) : bool :=
  case_clash r x && json_same (bc_facts x) (bc_facts r) && bool_decide (bc_expected x = bc_expected r) &&
  bool_decide (bc_actual x = bc_actual r) && Bool.eqb (bc_passed x) (bc_passed r) &&
  bool_decide (bc_input_hash x = bc_input_hash r) && bool_decide (bc_expected_hash x = bc_expected_hash r) &&
  bool_decide (bc_actual_hash x = bc_actual_hash r) && json_same (bc_evaluated x) (bc_evaluated r).
Definition partial_conflict : proposal_failure := CorpusError (BacktestRefused PARTIAL_CONFLICT).
Definition store_case (row : backtest_case) : ptx unit :=
  rows ← pquery backtest_cases;
  if existsb (case_clash row) rows then pcheck (existsb (same_case row) rows) partial_conflict else pmodify (add_case row).

Definition proposal_backtest_clash (r x : proposal_backtest) : bool :=
  bool_decide (pt_account x = pt_account r) && bool_decide (pt_proposal x = pt_proposal r) &&
  bool_decide (pt_corpus_hash x = pt_corpus_hash r).
Definition same_backtest (r x : proposal_backtest) : bool :=
  proposal_backtest_clash r x && bool_decide (pt_proposal_hash x = pt_proposal_hash r) && bool_decide (pt_ast_hash x = pt_ast_hash r) &&
  Bool.eqb (pt_passed x) (pt_passed r) && (pt_pass_count x =? pt_pass_count r) &&
  (pt_regression_count x =? pt_regression_count r) && bool_decide (pt_actor x = pt_actor r).

(** One round of the loop over the proposals: the backtest's id, whether it is new,
    whether it passed, and the corpus's hash. *)
Definition backtest_proposal (clientId actorUserId : string) (supplied : list (string * list ProposalBacktestCase))
    (p : rule_proposal) : ptx (string * bool * bool * string) :=
  _ ← pcheck (bool_decide (hash (ast_json (rp_ast p)) = rp_ast_hash p)) (CorpusError (BacktestRefused PROPOSAL_CHANGED));
  evidence ← (match evaluateProposalCorpus (rp_ast p) (pc_expectedInputs (rp_criterion p)) (default [] (map_get supplied (rp_id p))) with
              | Ok es => mret es | Err e => pthrow (CorpusError e) end);
  let regressionCount := Z.of_nat (length (List.filter (λ e, negb (ce_passed e)) evidence)) in
  let passed := regressionCount =? 0 in
  id ← new_id (λ s, map pt_id (backtests s));
  let row := mkProposalBacktest id (pg_uuid clientId) (rp_id p) CORPUS_SCHEMA_VERSION (corpus_hash p evidence) (rp_proposal_hash p)
    (rp_ast_hash p) passed (Z.of_nat (length evidence) - regressionCount) regressionCount (pg_uuid actorUserId) in
  rows ← pquery backtests;
  backtest ← (if existsb (proposal_backtest_clash row) rows
              then x ← pthe (select_one (same_backtest row) rows) partial_conflict; mret (pt_id x, false)
              else _ ← pmodify (add_backtest row); mret (id, true));
  _ ← pfor (λ e, store_case (case_row (pg_uuid clientId) backtest.1 e)) evidence;
  mret (backtest.1, backtest.2, passed, corpus_hash p evidence).

Definition backtestContractRuleProposals (clientId verifiedContractVersionId actorUserId : string)
    (untrusted : list corpus_input) : ptx (list string * nat * bool * nat) :=
  _ ← pcheck (zod_uuid clientId && zod_uuid verifiedContractVersionId && zod_uuid actorUserId &&
        within 1 1000 (length untrusted)) SchemaError;
  corpora ← pthe (mapM corpus_schema untrusted) SchemaError;
  let suppliedIds := map ci_proposalId corpora in
  _ ← pcheck (length (set_of suppliedIds) =? length suppliedIds)%nat (CorpusError (BacktestRefused DUPLICATE_PROPOSAL));
  all ← pquery proposals;
  let rows := js_sort (cmp_on rp_id code_unit_compare)
    (List.filter (λ p, uuid_is (rp_account p) clientId && uuid_is (rp_verified_version p) verifiedContractVersionId) all) in
  _ ← pcheck ((length rows =? length suppliedIds)%nat && forallb (λ p, bool_decide (rp_id p ∈ suppliedIds)) rows)
        (CorpusError (BacktestRefused PROPOSAL_SET_MISMATCH));
  let supplied := map_of (map (λ c, (ci_proposalId c, ci_cases c)) corpora) in
  done ← pfor (λ p, b ← backtest_proposal clientId actorUserId supplied p; mret (p, b)) rows;
  let passed := forallb (λ x : rule_proposal * (string * bool * bool * string), x.2.1.2) done in
  let batchHash := hash (JArray (map (λ x, obj [("proposalId", Some (JString (rp_id x.1))); ("corpusHash", Some (JString x.2.2))]) done)) in
  _ ← pemit (audit_event (deterministicAuditEventId [clientId; verifiedContractVersionId; batchHash; "contract_rule_proposals.backtested"])
        clientId "contract_rule_proposals" verifiedContractVersionId "backtested" ActorAnalyst (Some actorUserId)
        [("corpusSchemaVersion", JString CORPUS_SCHEMA_VERSION); ("batchHash", JString batchHash);
         ("proposalCount", json_int (Z.of_nat (length rows))); ("passed", JBool passed);
         ("backtests", JArray (map (λ x, obj [("proposalId", Some (JString (rp_id x.1))); ("corpusHash", Some (JString x.2.2));
            ("backtestId", Some (JString x.2.1.1.1)); ("passed", Some (JBool x.2.1.2))]) done))]);
  mret (map (λ x : rule_proposal * (string * bool * bool * string), x.2.1.1.1) done, length rows, passed,
        length (List.filter (λ x : rule_proposal * (string * bool * bool * string), x.2.1.1.2) done)).

(** ** Acceptance *)

Definition rationale_ok (rationale : string) : bool := within 1 4000 (String.length (trim rationale)).
Definition governed_by (proposal : string) (s : proposal_db) (v : rule_version) : option governance :=
  select_one (λ g, bool_decide (gv_version g = rv_id v) && bool_decide (gv_proposal g = proposal)) (governed s).

(** The clause the rule cites: the first of the proposal's, by reference. *)
Definition cited_clause (p : rule_proposal) (s : proposal_db) : option string :=
  let linked := List.filter (λ k, bool_decide (kl_account k = rp_account p) &&
    existsb (λ l, bool_decide (pl_account l = rp_account p) && bool_decide (pl_proposal l = rp_id p) &&
               bool_decide (pl_clause l = kl_id k)) (proposal_clauses s)) (contract_clauses s) in
  kl_id <$> head (js_sort (cmp_then (cmp_on kl_ref text_order) (cmp_on kl_id code_unit_compare)) linked).

(** [INSERT INTO rule ... ON CONFLICT(slug) DO UPDATE ... RETURNING id, rule_type] *)
Definition upsert_rule (slug : string) (t : RuleType) : ptx (string * RuleType) :=
  slugs ← pquery rule_slugs; types ← pquery (λ s, rule_types (rules s));
  match select_one (λ r : string * string, bool_decide (r.2 = slug)) slugs with
  | Some (id, _) =>
      r ← pthe (select_one (λ r : string * RuleType, bool_decide (r.1 = id)) types) (ConstraintError "rule"); mret (id, r.2)
  | None => id ← new_id (λ s, map fst (rule_types (rules s))); _ ← pmodify (add_rule id slug t); mret (id, t)
  end.

Definition shadow_provenance (clientId : string) (p : rule_proposal) (b : proposal_backtest) (actorUserId : string) : json :=
  obj [("clientId", Some (JString clientId)); ("proposalId", Some (JString (rp_id p)));
       ("proposalHash", Some (JString (rp_proposal_hash p))); ("backtestId", Some (JString (pt_id b)));
       ("verifiedContractVersionId", Some (JString (rp_verified_version p))); ("acceptedBy", Some (JString actorUserId))].

(** The SHADOW version: inserted, or the one an earlier acceptance made. *)
Definition shadow_body (today ruleId : string) (provenance : json) (clause : option string) (p : rule_proposal) : rule_body :=
  {| rb_rule_id := ruleId; rb_hardness := "AI_DOCS"; rb_ast := rp_ast p; rb_ast_hash := rp_ast_hash p;
     rb_expected_inputs := inputs_json (pc_expectedInputs (rp_criterion p)); rb_emits := JString "PASS_FAIL";
     rb_provenance := provenance; rb_clause_id := clause; rb_valid_from := Some today; rb_valid_to := None |}.
Definition sourced (proposal : string) (state : RuleLifecycle) (s : proposal_db) (v : rule_version) : bool :=
  bool_decide (rv_lifecycle_state v = state) && bool_decide (is_Some (governed_by proposal s v)).
Definition same_shadow (ruleId : string) (provenance : json) (p : rule_proposal) (b : proposal_backtest) (s : proposal_db)
    (v : rule_version) : bool :=
  sourced (rp_id p) SHADOW s v && bool_decide (rb_rule_id (rv_body v) = ruleId) &&
  bool_decide (rb_ast_hash (rv_body v) = rp_ast_hash p) &&
  bool_decide ((gv_backtest <$> governed_by (rp_id p) s v) = Some (pt_id b)) &&
  json_same (rb_provenance (rv_body v)) provenance.
Definition shadow_version (today ruleId : string) (provenance : json) (p : rule_proposal) (b : proposal_backtest) : ptx string :=
  id ← new_id (λ s, map rv_id (rule_versions (rules s)));
  clause ← pquery (cited_clause p);
  s ← pquery (λ s, s);
  if existsb (sourced (rp_id p) SHADOW s) (rule_versions (rules s)) then
    v ← pthe (select_one (same_shadow ruleId provenance p b s) (rule_versions (rules s)))
          (ProposalAcceptanceError "ACCEPTANCE_CONFLICT");
    mret (rv_id v)
  else
    _ ← pmodify (add_governed {| rv_id := id; rv_body := shadow_body today ruleId provenance clause p;
                                 rv_lifecycle_state := SHADOW; rv_predecessor := None |}
          (mkGovernance id (rp_id p) (pt_id b) None None));
    mret id.

Definition acceptance_clash (r x : acceptance) : bool :=
  bool_decide (ap_account x = ap_account r) && bool_decide (ap_proposal x = ap_proposal r).
(** UNIQUE (account_id, shadow_rule_version_id). *)
Definition acceptance_shadow_clash (r x : acceptance) : bool :=
  bool_decide (ap_account x = ap_account r) && bool_decide (ap_shadow x = ap_shadow r).
Definition same_acceptance (r x : acceptance) : bool :=
  acceptance_clash r x && bool_decide (ap_backtest x = ap_backtest r) && bool_decide (ap_shadow x = ap_shadow r) &&
  bool_decide (ap_by x = ap_by r) && bool_decide (ap_rationale x = ap_rationale r).

(** [today] is [CURRENT_DATE]. *)
Definition acceptContractRuleProposal (today clientId proposalId backtestId actorUserId rationale : string) :
    ptx (string * string * bool) :=
  _ ← pcheck (zod_uuid clientId && zod_uuid proposalId && zod_uuid backtestId && zod_uuid actorUserId && rationale_ok rationale)
        SchemaError;
  ps ← pquery proposals;
  p ← pthe (select_one (λ p, uuid_is (rp_account p) clientId && uuid_is (rp_id p) proposalId) ps)
        (ProposalAcceptanceError "PROPOSAL_NOT_FOUND");
  bs ← pquery backtests;
  b ← pthe (select_one (λ b, uuid_is (pt_account b) clientId && uuid_is (pt_id b) backtestId && uuid_is (pt_proposal b) proposalId &&
              bool_decide (pt_proposal_hash b = rp_proposal_hash p) && bool_decide (pt_ast_hash b = rp_ast_hash p) && pt_passed b) bs)
        (ProposalAcceptanceError "PASSING_BACKTEST_REQUIRED");
  rule ← upsert_rule ("contract-proposal-" +:+ rp_id p) (cp_ruleType (pc_proposal (rp_criterion p)));
  _ ← pcheck (bool_decide (rule.2 = cp_ruleType (pc_proposal (rp_criterion p)))) (ProposalAcceptanceError "RULE_CONFLICT");
  shadowId ← shadow_version today rule.1 (shadow_provenance clientId p b actorUserId) p b;
  id ← new_id (λ s, map ap_id (acceptances s));
  let row := mkAcceptance id (pg_uuid clientId) (rp_id p) (pt_id b) shadowId (pg_uuid actorUserId) (trim rationale) in
  rows ← pquery acceptances; rs ← pquery ratifications;
  accepted ← (if existsb (acceptance_clash row) rows
              then x ← pthe (select_one (same_acceptance row) rows) (ProposalAcceptanceError "ACCEPTANCE_CONFLICT"); mret (ap_id x, false)
              else _ ← pcheck (negb (existsb (acceptance_shadow_clash row) rows)) (ConstraintError "acceptance shadow");
                   _ ← pmodify (set_decisions (rows ++ [row]) rs); mret (id, true));
  _ ← pemit (with_rule_version shadowId (audit_event
        (deterministicAuditEventId [clientId; rp_id p; pt_id b; "contract_rule_proposal.accepted"])
        clientId "contract_rule_proposal" (rp_id p) "accepted_to_shadow" ActorAnalyst (Some actorUserId)
        [("acceptanceId", JString accepted.1); ("proposalHash", JString (rp_proposal_hash p)); ("astHash", JString (rp_ast_hash p));
         ("backtestId", JString (pt_id b)); ("shadowRuleVersionId", JString shadowId); ("rationale", JString (trim rationale))]));
  mret (accepted.1, shadowId, accepted.2).

(** ** Ratification *)

(** The join: the acceptance, its SHADOW version and its passing backtest. *)
Definition ratifiable (clientId acceptanceId : string) (s : proposal_db) : option (acceptance * rule_version) :=
  a ← select_one (λ a, uuid_is (ap_account a) clientId && uuid_is (ap_id a) acceptanceId) (acceptances s);
  v ← select_one (λ v, bool_decide (rv_id v = ap_shadow a)) (rule_versions (rules s));
  b ← select_one (λ b, bool_decide (pt_id b = ap_backtest a) && bool_decide (pt_account b = ap_account a) &&
         bool_decide (pt_proposal b = ap_proposal a)) (backtests s);
  if sourced (ap_proposal a) SHADOW s v && bool_decide (rb_hardness (rv_body v) = "AI_DOCS") && pt_passed b &&
     bool_decide ((gv_backtest <$> governed_by (ap_proposal a) s v) = Some (ap_backtest a))
  then Some (a, v) else None.

Definition firm_body (b : rule_body) : rule_body :=
  {| rb_rule_id := rb_rule_id b; rb_hardness := "FIRM_RULE"; rb_ast := rb_ast b; rb_ast_hash := rb_ast_hash b;
     rb_expected_inputs := rb_expected_inputs b; rb_emits := rb_emits b; rb_provenance := rb_provenance b;
     rb_clause_id := rb_clause_id b; rb_valid_from := rb_valid_from b; rb_valid_to := rb_valid_to b |}.
Definition same_active (a : acceptance) (actorUserId rationale : string) (s : proposal_db) (x : rule_version) : bool :=
  bool_decide (rv_predecessor x = Some (ap_shadow a)) && sourced (ap_proposal a) ACTIVE s x &&
  bool_decide (rb_hardness (rv_body x) = "FIRM_RULE") &&
  bool_decide ((λ g, (gv_backtest g, gv_ratified_by g, gv_rationale g)) <$> governed_by (ap_proposal a) s x =
               Some (ap_backtest a, Some actorUserId, Some rationale)).
(** The ACTIVE version: inserted, or the one an earlier ratification made. *)
Definition active_version (a : acceptance) (v : rule_version) (actorUserId rationale : string) : ptx string :=
  id ← new_id (λ s, map rv_id (rule_versions (rules s)));
  s ← pquery (λ s, s);
  if existsb (λ x, bool_decide (rv_predecessor x = Some (ap_shadow a)) && bool_decide (rv_lifecycle_state x = ACTIVE))
       (rule_versions (rules s)) then
    x ← pthe (select_one (same_active a actorUserId rationale s) (rule_versions (rules s)))
          (ProposalRatificationError "RATIFICATION_CONFLICT");
    mret (rv_id x)
  else
    _ ← pcheck (negb (existsb (sourced (ap_proposal a) ACTIVE s) (rule_versions (rules s))))
          (ConstraintError "rule_version_contract_proposal_lifecycle_idx");
    _ ← pmodify (add_governed {| rv_id := id; rv_body := firm_body (rv_body v); rv_lifecycle_state := ACTIVE;
                                 rv_predecessor := Some (ap_shadow a) |}
          (mkGovernance id (ap_proposal a) (ap_backtest a) (Some actorUserId) (Some rationale)));
    mret id.

(** [INSERT INTO promotion_event ... ON CONFLICT DO NOTHING]; the CHECK holds, for
    [contract_proposal_backtest_id] is set. *)
Definition record_promotion (activeId backtest rationale : string) : ptx unit :=
  let e := {| pe_rule_version_id := activeId; pe_hardness := "FIRM_RULE"; pe_from := SHADOW; pe_to := ACTIVE;
              pe_direction := PROMOTE; pe_rationale := rationale; pe_dual_control := None; pe_backtest := None |} in
  s ← pquery (λ s, s);
  if existsb (same_transition e) (promotion_events (rules s) ++ map fst (governed_promotions s)) then mret tt
  else pmodify (add_promotion e backtest).

Definition ratification_clash (r x : ratification) : bool :=
  bool_decide (ra_account x = ra_account r) && bool_decide (ra_acceptance x = ra_acceptance r).
Definition same_ratification (r x : ratification) : bool :=
  ratification_clash r x && bool_decide (ra_active x = ra_active r) && bool_decide (ra_by x = ra_by r) &&
  bool_decide (ra_rationale x = ra_rationale r).

Definition ratifyContractRuleProposal (clientId acceptanceId actorUserId untrustedRationale : string) :
    ptx (string * string * bool) :=
  _ ← pcheck (zod_uuid clientId && zod_uuid acceptanceId && zod_uuid actorUserId && rationale_ok untrustedRationale) SchemaError;
  let rationale := trim untrustedRationale in
  s ← pquery (λ s, s);
  row ← pthe (ratifiable clientId acceptanceId s) (ProposalRatificationError "ACCEPTANCE_NOT_FOUND");
  let '(a, v) := row in
  activeId ← active_version a v (pg_uuid actorUserId) rationale;
  _ ← record_promotion activeId (ap_backtest a) rationale;
  id ← new_id (λ s, map ra_id (ratifications s));
  let r := mkRatification id (pg_uuid clientId) (ap_id a) (ap_proposal a) (ap_backtest a) (ap_shadow a) activeId
    (pg_uuid actorUserId) rationale in
  rows ← pquery ratifications; accepted ← pquery acceptances;
  ratified ← (if existsb (ratification_clash r) rows
              then x ← pthe (select_one (same_ratification r) rows) (ProposalRatificationError "RATIFICATION_CONFLICT"); mret (ra_id x, false)
              else _ ← pcheck (negb (existsb (λ x, bool_decide (ra_account x = ra_account r) && bool_decide (ra_active x = activeId)) rows))
                         (ConstraintError "ratification active");
                   _ ← pmodify (set_decisions accepted (rows ++ [r])); mret (id, true));
  _ ← pemit (with_rule_version activeId (audit_event
        (deterministicAuditEventId [clientId; ap_proposal a; ap_backtest a; "contract_rule_proposal.ratified"])
        clientId "contract_rule_proposal" (ap_proposal a) "ratified_active_firm" ActorAnalyst (Some actorUserId)
        [("ratificationId", JString ratified.1); ("acceptanceId", JString (ap_id a)); ("backtestId", JString (ap_backtest a));
         ("shadowRuleVersionId", JString (ap_shadow a)); ("activeRuleVersionId", JString activeId); ("rationale", JString rationale)]));
  mret (ratified.1, activeId, ratified.2).
End handlers.
