(* ===== verification/ProposalLifecycleSafety.v ===== *)
(** The governance of contract rules: whatever sequence of the proposal handlers
    and of the rule handlers runs, a rule that comes from a proposal is firm only
    with a passing corpus, an acceptance and a ratification behind it (the handlers
    are in ProposalLifecycle.v). *)

From S2P Require Import Prelude JsText Decimal Json Interpreter AstJson Store AuditLedger Lifecycle GoldenCorpus Jsonb JsDate Database Tx Manifest Proposals ProposalsSafety ProposalLifecycle.

(** ** Inverting the transactions *)

Section ptx_lemmas.
Context {A B : Type}.
Implicit Types s : proposal_db.
Lemma ptx_bind_Ok (m : ptx A) (f : A → ptx B) s r : (m ≫= f) s = Ok r ↔ ∃ a s', m s = Ok (a, s') ∧ f a s' = Ok r.
Proof. unfold mbind, ptx_bind. destruct (m s) as [[a s']|]; naive_solver. Qed.
Lemma pquery_Ok (f : proposal_db → A) s r : pquery f s = Ok r ↔ r = (f s, s).
Proof. unfold pquery. naive_solver. Qed.
Lemma pmodify_Ok f s r : pmodify f s = Ok r ↔ r = (tt, f s).
Proof. unfold pmodify. naive_solver. Qed.
Lemma pcheck_Ok b x s r : pcheck b x s = Ok r ↔ b = true ∧ r = (tt, s).
Proof. unfold pcheck, pthrow, mret, ptx_ret. destruct b; naive_solver. Qed.
Lemma pthe_Ok (o : option A) x s r : pthe o x s = Ok r ↔ ∃ a, o = Some a ∧ r = (a, s).
Proof. unfold pthe, pthrow, mret, ptx_ret. destruct o; naive_solver. Qed.
Lemma ptx_ret_Ok (a : A) s r : (mret a : ptx A) s = Ok r ↔ r = (a, s).
Proof. unfold mret, ptx_ret. naive_solver. Qed.
End ptx_lemmas.

(** Break a committed transaction into its steps. *)
Ltac ptx_inv :=
  repeat match goal with
  | H : (_ ≫= _) _ = Ok _ |- _ => let Hx := fresh "Htx" in apply ptx_bind_Ok in H as (? & ? & Hx & H); cbn beta in H
  | H : pquery _ _ = Ok _ |- _ => apply pquery_Ok in H; simplify_eq
  | H : pmodify _ _ = Ok _ |- _ => apply pmodify_Ok in H; simplify_eq
  | H : pcheck _ _ _ = Ok _ |- _ => apply pcheck_Ok in H as [? H]; simplify_eq
  | H : pthe _ _ _ = Ok _ |- _ => apply pthe_Ok in H as (? & ? & H); simplify_eq
  | H : mret _ _ = Ok _ |- _ => apply ptx_ret_Ok in H; simplify_eq
  | H : pthrow _ _ = Ok _ |- _ => discriminate H
  | H : (let '(_, _) := ?p in _) _ = Ok _ |- _ => first [is_var p; destruct p| let Ep := fresh "Ep" in destruct p eqn:Ep]
  | x : unit |- _ => destruct x
  end.

(** A loop keeps what every round keeps. *)
Lemma pfor_inv {A B} (P : proposal_db → Prop) (f : A → ptx B) l s ys s' :
  (∀ x s1 y s2, x ∈ l → P s1 → f x s1 = Ok (y, s2) → P s2) → P s → pfor f l s = Ok (ys, s') → P s'.
Proof.
  revert s ys. induction l as [|x l IH]; intros s ys Hf HP Hl; cbn [pfor] in Hl; ptx_inv; [done|].
  eapply IH; [|eapply Hf; [| |eassumption]|eassumption]; [|set_solver|done].
  intros. eapply Hf; [|done|done]. set_solver.
Qed.

Section safety.
Context {D : DecimalJs} {C : Collator} {T : DbCollation} {H : Sha256} {U : UuidSource} {W : Zod}.
Implicit Types (s : proposal_db) (v u : rule_version) (p : rule_proposal) (b : proposal_backtest) (g : governance)
  (a : acceptance).

Lemma new_id_Ok keys s r : new_id keys s = Ok r ↔
  (gen_random_uuid (ids_used s) ∉ keys s) ∧ r = (gen_random_uuid (ids_used s), use_id s).
Proof using Type. unfold new_id. case_bool_decide; naive_solver. Qed.

Ltac new_id_inv :=
  repeat match goal with
  | Hn : new_id _ _ = Ok _ |- _ => let Hid := fresh "Hid" in apply new_id_Ok in Hn as [Hid Hn]; simplify_eq
  end.

Lemma pemit_Ok i s r : pemit i s = Ok r → ∃ log, r = (tt, set_ledger log s).
Proof using Type. unfold pemit. destruct (writeAuditEvent _ _) as [[x log]|]; [|done]. intros [= <-]. eauto. Qed.

(** ** The steps of the system *)

Inductive proposal_step : proposal_db → proposal_db → Prop :=
  | step_persist clientId versionId actor r s x s' :
      persistContractRuleProposals clientId versionId actor r s = Ok (x, s') → proposal_step s s'
  | step_backtest clientId versionId actor corpora s x s' :
      backtestContractRuleProposals clientId versionId actor corpora s = Ok (x, s') → proposal_step s s'
  | step_accept today clientId proposalId backtestId actor why s x s' :
      acceptContractRuleProposal today clientId proposalId backtestId actor why s = Ok (x, s') → proposal_step s s'
  | step_ratify clientId acceptanceId actor why s x s' :
      ratifyContractRuleProposal clientId acceptanceId actor why s = Ok (x, s') → proposal_step s s'
  | step_rule s d : rule_step (rules s) d → proposal_step s (set_rules d s).

(** ** The invariant *)

(** The proposal's predicate gives the expected verdict on every case of a corpus. *)
Definition passes p (cases : list ProposalBacktestCase) : Prop :=
  cases ≠ [] ∧ ∀ c, c ∈ cases → verdict <$> evaluate (rp_ast p) (pb_facts c) = Ok (pb_expectedVerdict c).
(** The corpus of the backtest, by its hash. *)
Definition tried_on b p (cases : list ProposalBacktestCase) : Prop :=
  ∃ evidence, evaluateProposalCorpus (rp_ast p) (pc_expectedInputs (rp_criterion p)) cases = Ok evidence ∧
    pt_corpus_hash b = corpus_hash p evidence ∧ pt_pass_count b = Z.of_nat (length cases).
Definition backtest_of s b p : Prop :=
  p ∈ proposals s ∧ rp_id p = pt_proposal b ∧ ∃ cases, tried_on b p cases ∧ passes p cases.

(** The SHADOW version an acceptance made of a proposal. *)
Definition shadow_of s g v p : Prop :=
  rv_lifecycle_state v = SHADOW ∧ rb_hardness (rv_body v) = "AI_DOCS" ∧ gv_ratified_by g = None ∧
  rb_ast (rv_body v) = rp_ast p.
(** The firm version a ratification made of it. *)
Definition firm_of s g v p : Prop :=
  rv_lifecycle_state v = ACTIVE ∧ rb_hardness (rv_body v) = "FIRM_RULE" ∧
  (∃ who why, gv_ratified_by g = Some who ∧ gv_rationale g = Some why ∧ truthy why = true) ∧
  ∃ u a, u ∈ rule_versions (rules s) ∧ rv_predecessor v = Some (rv_id u) ∧ rv_lifecycle_state u = SHADOW ∧
    rb_hardness (rv_body u) = "AI_DOCS" ∧ rv_body v = firm_body (rv_body u) ∧ rb_ast (rv_body u) = rp_ast p ∧
    a ∈ acceptances s ∧ ap_proposal a = rp_id p ∧ ap_backtest a = gv_backtest g ∧ ap_shadow a = rv_id u.
Definition governed_ok s g : Prop :=
  ∃ v p b, v ∈ rule_versions (rules s) ∧ rv_id v = gv_version g ∧ p ∈ proposals s ∧ rp_id p = gv_proposal g ∧
    b ∈ backtests s ∧ pt_id b = gv_backtest g ∧ pt_proposal b = rp_id p ∧ pt_passed b = true ∧
    (shadow_of s g v p ∨ firm_of s g v p).

Record governance_sound s : Prop := {
  gs_versions : NoDup (map rv_id (rule_versions (rules s)));
  gs_proposals : NoDup (map rp_id (proposals s));
  gs_backtests : ∀ b, b ∈ backtests s → pt_passed b = true → ∃ p, backtest_of s b p;
  gs_governed : ∀ g, g ∈ governed s → governed_ok s g;
}.

(** Tables only grow. *)
Record grows s s' : Prop := {
  gr_versions : ∀ v, v ∈ rule_versions (rules s) → v ∈ rule_versions (rules s');
  gr_proposals : ∀ p, p ∈ proposals s → p ∈ proposals s';
  gr_backtests : ∀ b, b ∈ backtests s → b ∈ backtests s';
  gr_acceptances : ∀ a, a ∈ acceptances s → a ∈ acceptances s';
}.
Lemma grows_refl s : grows s s.
Proof using Type. by split. Qed.
Lemma grows_trans s1 s2 s3 : grows s1 s2 → grows s2 s3 → grows s1 s3.
Proof using Type. intros [] []. split; auto. Qed.

Lemma governed_ok_grows s s' g : grows s s' → governed_ok s g → governed_ok s' g.
Proof using Type.
  intros [Hv Hp Hb Ha] (v & p & b & Hvin & Hvid & Hpin & Hpid & Hbin & Hbid & Hbp & Hpass & Hcase).
  exists v, p, b. split_and!; auto. destruct Hcase as [Hsh|(Hst & Hh & Hr & u & a & Hu & Hrest)]; [by left|right].
  split_and!; try done. exists u, a. destruct Hrest as (? & ? & ? & ? & ? & ? & ?). split_and!; auto; tauto.
Qed.
Lemma backtest_of_grows s s' b p : grows s s' → backtest_of s b p → backtest_of s' b p.
Proof using Type. intros [? Hp ? ?] (Hin & ?). split; auto. Qed.

(** A change that adds nothing governed and no backtest. *)
Lemma sound_grows s s' : grows s s' → governed s' = governed s → backtests s' = backtests s →
  NoDup (map rv_id (rule_versions (rules s'))) → NoDup (map rp_id (proposals s')) →
  governance_sound s → governance_sound s'.
Proof using Type.
  intros Hg Hgov Hbt Hv Hp [_ _ Hb Hok]. split; [done..| |].
  - rewrite Hbt. intros b Hin Hpass. destruct (Hb b Hin Hpass) as [p Hof]. exists p. by eapply backtest_of_grows.
  - rewrite Hgov. intros g Hin. eapply governed_ok_grows; eauto.
Qed.

(** *** The rule handlers *)

Lemma transition_ids new_id input d r d' : new_id ∉ map rv_id (rule_versions d) →
  transitionRuleLifecycle new_id input d = Ok (r, d') →
  ∃ added, rule_versions d' = rule_versions d ++ added ∧
    (NoDup (map rv_id (rule_versions d)) → NoDup (map rv_id (rule_versions d'))).
Proof using Type.
  intros Hf Ht. destruct input as [i ????], r as [n created].
  apply transition_inv in Ht as (?&next&?&?&?&_&_&Hc&_&->&_). eexists. split; [done|]. intros Hnd.
  destruct created; [|by rewrite app_nil_r]. rewrite map_app, (Hc eq_refl). cbn.
  apply NoDup_app. split; [done|]. split; [|apply NoDup_singleton]. intros y Hy ->%list_elem_of_singleton. done.
Qed.
Lemma rule_step_ids d d' : rule_step d d' → ∃ added, rule_versions d' = rule_versions d ++ added ∧
  (NoDup (map rv_id (rule_versions d)) → NoDup (map rv_id (rule_versions d'))).
Proof using Type.
  assert (∀ d d' : rule_db, rule_versions d' = rule_versions d → ∃ added, rule_versions d' = rule_versions d ++ added ∧
    (NoDup (map rv_id (rule_versions d)) → NoDup (map rv_id (rule_versions d')))) as Hsame.
  { intros x y ->. exists []. by rewrite app_nil_r. }
  induction 1 as [new_id input db r db' Hf Ht|new_id id rationale actor db r db' Hf Ht|
    oid new_id clientId criterionId id fp v now db r db' Hf Ht|clientId t n1 n2 m db r db' Ht].
  - by eapply transition_ids.
  - unfold promoteShadowRule in Ht. destruct (latest_ratification id db); [|done].
    case_bool_decide; [done|]. by eapply transition_ids.
  - unfold recordHumanOverrideReversal in Ht. do 6 (apply bind_Ok in Ht as (? & _ & Ht)).
    apply bind_Ok in Ht as ([[q n] db1] & Hq & [= <- <-]).
    apply quarantine_inv in Hq as (? & ? & ? & _ & _ & _ & _ & _ & Hno & Hyes). destruct q.
    + destruct (Hyes eq_refl) as (ra & c & Htr). apply transition_ids in Htr; [|done]. exact Htr.
    + destruct (Hno eq_refl) as [-> _]. by apply Hsame.
  - unfold upsertPromotionPolicy in Ht. case_match; [|done]. injection Ht as <- <-. by apply Hsame.
Qed.
Lemma rule_step_sound s d : rule_step (rules s) d → governance_sound s → governance_sound (set_rules d s).
Proof using Type.
  intros (added & Hv & Hnd)%rule_step_ids Hs. apply (sound_grows s); try done.
  - split; try done. cbn. rewrite Hv. set_solver.
  - cbn. by apply Hnd, Hs.
  - apply Hs.
Qed.

(** *** Small writes *)

Lemma set_ledger_sound log s : governance_sound s → governance_sound (set_ledger log s).
Proof using Type. intros Hs. by apply (sound_grows s); try apply Hs; try done; apply grows_refl. Qed.
Lemma use_id_sound s : governance_sound s → governance_sound (use_id s).
Proof using Type. intros Hs. by apply (sound_grows s); try apply Hs; try done; apply grows_refl. Qed.
Lemma add_proposal_clause_sound r s : governance_sound s → governance_sound (add_proposal_clause r s).
Proof using Type. intros Hs. by apply (sound_grows s); try apply Hs; try done; apply grows_refl. Qed.
Lemma add_case_sound r s : governance_sound s → governance_sound (add_case r s).
Proof using Type. intros Hs. by apply (sound_grows s); try apply Hs; try done; apply grows_refl. Qed.
Lemma add_rule_sound i slug t s : governance_sound s → governance_sound (add_rule i slug t s).
Proof using Type. intros Hs. by apply (sound_grows s); try apply Hs; try done; apply grows_refl. Qed.
Lemma add_promotion_sound e bt s : governance_sound s → governance_sound (add_promotion e bt s).
Proof using Type. intros Hs. by apply (sound_grows s); try apply Hs; try done; apply grows_refl. Qed.
Lemma set_decisions_sound l r s : governance_sound s → governance_sound (set_decisions (acceptances s ++ l) r s).
Proof using Type.
  intros Hs. apply (sound_grows s); try apply Hs; try done. split; cbn; set_solver.
Qed.
Lemma add_proposal_sound p s : rp_id p ∉ map rp_id (proposals s) → governance_sound s → governance_sound (add_proposal p s).
Proof using Type.
  intros Hp Hs. apply (sound_grows s); try apply Hs; try done.
  - split; cbn; set_solver.
  - cbn. rewrite map_app. apply NoDup_app. split; [apply Hs|]. split; [|apply NoDup_singleton].
    by intros y Hy ->%list_elem_of_singleton.
Qed.
Lemma add_backtest_sound b s : (pt_passed b = true → ∃ p, backtest_of s b p) →
  governance_sound s → governance_sound (add_backtest b s).
Proof using Type.
  intros Hb Hs. destruct Hs as [Hv Hp Hbt Hok].
  assert (grows s (add_backtest b s)) as Hg by (split; cbn; set_solver). split; try done.
  - cbn. intros b' [Hin|Heq]%elem_of_app Hpass; [|apply list_elem_of_singleton in Heq as ->].
    + destruct (Hbt b' Hin Hpass) as [p Hof]. exists p. by eapply backtest_of_grows.
    + destruct (Hb Hpass) as [p Hof]. exists p. by eapply backtest_of_grows.
  - cbn. intros g Hin. eapply governed_ok_grows; [exact Hg|]. by apply Hok.
Qed.
Lemma add_governed_sound v g s : rv_id v ∉ map rv_id (rule_versions (rules s)) →
  governed_ok (add_governed v g s) g → governance_sound s → governance_sound (add_governed v g s).
Proof using Type.
  intros Hv Hok [Hvs Hp Hbt Hgov]. assert (grows s (add_governed v g s)) as Hg by (split; cbn; set_solver). split; try done.
  - cbn. rewrite map_app. apply NoDup_app. split; [done|]. split; [|apply NoDup_singleton].
    by intros y Hy ->%list_elem_of_singleton.
  - cbn. intros g' [Hin|Heq]%elem_of_app; [|by apply list_elem_of_singleton in Heq as ->]. eapply governed_ok_grows; [exact Hg|]. by apply Hgov.
Qed.

(** *** Persisting *)

Lemma link_clause_sound row s x s' : link_clause row s = Ok (x, s') → governance_sound s → governance_sound s'.
Proof using Type.
  unfold link_clause. intros Hl Hs. ptx_inv. case_match; ptx_inv; [done|]. by apply add_proposal_clause_sound.
Qed.
Lemma persist_criterion_sound clientId versionId actor r vv clauses c s x s' :
  persist_criterion clientId versionId actor r vv clauses c s = Ok (x, s') → governance_sound s → governance_sound s'.
Proof using Type.
  unfold persist_criterion. intros Hp Hs. ptx_inv.
  new_id_inv. apply use_id_sound in Hs.
  match goal with Hl : pfor _ _ ?s1 = Ok _ |- _ => assert (governance_sound s1) as Hs1 end.
  { case_match; ptx_inv; [done|]. by apply add_proposal_sound. }
  eapply pfor_inv; [|exact Hs1|eassumption]. cbn. intros. by eapply link_clause_sound.
Qed.
Lemma persist_sound clientId versionId actor r s x s' :
  persistContractRuleProposals clientId versionId actor r s = Ok (x, s') → governance_sound s → governance_sound s'.
Proof using Type.
  unfold persistContractRuleProposals. intros Hp Hs. ptx_inv.
  match goal with He : pemit _ _ = Ok _ |- _ => apply pemit_Ok in He as [log [= ->]] end.
  apply set_ledger_sound. eapply pfor_inv; [|exact Hs|eassumption]. intros. by eapply persist_criterion_sound.
Qed.

(** *** Backtests *)

Lemma corpus_passes ast inputs cases es : evaluateProposalCorpus ast inputs cases = Ok es →
  List.filter (λ e, negb (ce_passed e)) es = [] →
  ∀ c, c ∈ cases → verdict <$> evaluate ast (pb_facts c) = Ok (pb_expectedVerdict c).
Proof using Type.
  unfold evaluateProposalCorpus. intros He Hall c Hc.
  apply bind_Ok in He as (? & _ & He). apply bind_Ok in He as (? & _ & He). apply map_res_Ok in He.
  rewrite <- (elem_of_js_sort (cmp_on pb_caseKey localeCompare)) in Hc. apply list_elem_of_lookup in Hc as [i Hi].
  destruct (Forall2_lookup_l _ _ _ _ _ He Hi) as (e & Hei & Hce). cbn in Hce.
  unfold case_evidence in Hce. apply bind_Ok in Hce as (ev & Hev & [= <-]).
  destruct (evaluate ast (pb_facts c)) as [ev'|] eqn:Hev'; [|done]. cbn in Hev. injection Hev as ->. cbn. f_equal.
  apply list_elem_of_lookup_2 in Hei. destruct (decide (verdict ev = pb_expectedVerdict c)) as [Hv|Hv]; [done|].
  exfalso. eapply filter_empty_in; [exact Hall|exact Hei|]. cbn. by rewrite bool_decide_false.
Qed.

Lemma corpus_length ast inputs cases es : evaluateProposalCorpus ast inputs cases = Ok es → length es = length cases.
Proof using Type.
  unfold evaluateProposalCorpus. intros He. apply bind_Ok in He as (? & _ & He). apply bind_Ok in He as (? & _ & He).
  apply map_res_Ok, Forall2_length in He. by rewrite <- He, js_sort_length.
Qed.
Lemma store_case_sound row s x s' : store_case row s = Ok (x, s') →
  governance_sound s → governance_sound s' ∧ proposals s' = proposals s.
Proof using Type.
  unfold store_case. intros Hst Hs. ptx_inv. case_match; ptx_inv; [done|]. split; [by apply add_case_sound|done].
Qed.
Lemma backtest_proposal_sound clientId actor supplied p s x s' :
  backtest_proposal clientId actor supplied p s = Ok (x, s') → p ∈ proposals s →
  default [] (map_get supplied (rp_id p)) ≠ [] →
  governance_sound s → governance_sound s' ∧ proposals s' = proposals s.
Proof using Type.
  unfold backtest_proposal. intros Hb Hp Hne Hs. ptx_inv. new_id_inv. apply use_id_sound in Hs.
  destruct (evaluateProposalCorpus _ _ _) as [es|] eqn:Hes; ptx_inv.
  match goal with Hl : pfor _ _ ?s1 = Ok _ |- _ => assert (governance_sound s1 ∧ proposals s1 = proposals s) as Hs1 end.
  { case_match; ptx_inv; [done|]. split; [|done]. apply add_backtest_sound; [|done]. cbn [pt_passed pt_proposal].
    intros Hpass%Z.eqb_eq. exists p. split; [done|]. split; [done|]. eexists. split; [|split; [exact Hne|]].
    { exists es. split; [exact Hes|]. split; [done|]. cbn. by rewrite Hpass, (corpus_length _ _ _ _ Hes), Z.sub_0_r. }
    eapply corpus_passes; [exact Hes|]. apply length_zero_iff_nil. lia. }
  eapply (pfor_inv (λ s1, governance_sound s1 ∧ proposals s1 = proposals s)); [|exact Hs1|eassumption].
  intros e s1 y s2 _ [Hg1 Hp1] Hst. cbn in Hst. apply store_case_sound in Hst as [??]; [|done]. split; congruence.
Qed.

Lemma backtest_sound clientId versionId actor corpora s x s' :
  backtestContractRuleProposals clientId versionId actor corpora s = Ok (x, s') → governance_sound s → governance_sound s'.
Proof using Type.
  unfold backtestContractRuleProposals. intros Hb Hs. ptx_inv.
  match goal with He : pemit _ _ = Ok _ |- _ => apply pemit_Ok in He as [log [= ->]] end. apply set_ledger_sound.
  match goal with Hc : mapM corpus_schema corpora = Some ?cs |- _ => rename cs into parsed; rename Hc into Hparsed end.
  match goal with Hd : (length (set_of _) =? _)%nat = true |- _ => apply Nat.eqb_eq, set_of_length in Hd; rename Hd into Hnd end.
  match goal with Hd : (_ && forallb _ _) = true |- _ => apply andb_true_iff in Hd as [_ Hin]; rename Hin into Hids end.
  match goal with Hl : pfor _ ?rows _ = Ok _ |- _ => assert (∀ p, p ∈ rows → p ∈ proposals s ∧
      default [] (map_get (map_of (map (λ c, (ci_proposalId c, ci_cases c)) parsed)) (rp_id p)) ≠ []) as Hrows end.
  { intros p Hp. split.
    - rewrite elem_of_js_sort in Hp. by apply list_elem_of_In, filter_In in Hp as [?%list_elem_of_In _].
    - eapply forallb_True_elem in Hids; [|exact Hp]. apply bool_decide_eq_true in Hids.
      apply list_elem_of_fmap in Hids as (c & Hc & Hcin).
      assert ((map (λ c, (ci_proposalId c, ci_cases c)) parsed).*1 = map ci_proposalId parsed) as Hkeys.
      { clear. induction parsed as [|y l IH]; [done|]. cbn. by f_equal. }
      rewrite map_of_distinct by by rewrite Hkeys.
      rewrite (map_get_Some _ _ (ci_cases c)); [|by rewrite Hkeys|rewrite Hc; by apply (list_elem_of_fmap_2 (λ c, (ci_proposalId c, ci_cases c)))].
      cbn. apply (mapM_elem _ _ _ _ Hparsed) in Hcin as (c0 & _ & Hcs). unfold corpus_schema in Hcs.
      apply bind_Some in Hcs as (cases & _ & Hcs). case_match eqn:Hw; [|done]. injection Hcs as <-. cbn.
      apply andb_true_iff in Hw as [_ Hw]. unfold within in Hw. by destruct cases. }
  match goal with Hl : pfor _ _ _ = Ok _ |- _ =>
    eapply (pfor_inv (λ s1, governance_sound s1 ∧ proposals s1 = proposals s)) in Hl; [by destruct Hl| |done] end.
  intros p s1 y s2 Hp [Hg1 Hp1] Hst. destruct (Hrows p Hp) as [Hpin Hne]. ptx_inv.
  match goal with Hbp : backtest_proposal _ _ _ _ _ = Ok _ |- _ => apply backtest_proposal_sound in Hbp as [??]; [|by rewrite Hp1|done..] end.
  split; congruence.
Qed.

(** *** Acceptance *)

Lemma upsert_rule_sound slug t s x s' : upsert_rule slug t s = Ok (x, s') → governance_sound s →
  governance_sound s' ∧ proposals s' = proposals s ∧ backtests s' = backtests s.
Proof using Type.
  unfold upsert_rule. intros Hu Hs. ptx_inv. destruct (select_one _ _) as [[i ?]|]; ptx_inv; [done|].
  new_id_inv. split; [|done]. by apply add_rule_sound, use_id_sound.
Qed.

Lemma shadow_version_sound today ruleId prov p b s x s' : shadow_version today ruleId prov p b s = Ok (x, s') →
  p ∈ proposals s → b ∈ backtests s → pt_proposal b = rp_id p → pt_passed b = true →
  governance_sound s → governance_sound s'.
Proof using Type.
  unfold shadow_version. intros Hv Hp Hb Hbp Hpass Hs. ptx_inv. new_id_inv. apply use_id_sound in Hs.
  case_match; ptx_inv; [done|]. apply add_governed_sound; [done| |done].
  eexists _, p, b. split; [cbn; apply elem_of_app; right; by left|]. split_and!; try done. by left.
Qed.

Lemma accept_sound today clientId proposalId backtestId actor why s x s' :
  acceptContractRuleProposal today clientId proposalId backtestId actor why s = Ok (x, s') →
  governance_sound s → governance_sound s'.
Proof using Type.
  unfold acceptContractRuleProposal. intros Ha Hs. ptx_inv.
  match goal with He : pemit _ _ = Ok _ |- _ => apply pemit_Ok in He as [log [= ->]] end. apply set_ledger_sound.
  match goal with Hp : select_one _ (proposals s) = Some ?p' |- _ => apply select_one_Some in Hp as [Hp Hpid]; rename p' into p end.
  match goal with Hb : select_one _ (backtests s) = Some ?b' |- _ => apply select_one_Some in Hb as [Hb Hbid]; rename b' into b end.
  unfold uuid_is in Hpid, Hbid. rewrite !andb_true_iff, !bool_decide_eq_true in Hpid.
  rewrite !andb_true_iff, !bool_decide_eq_true in Hbid.
  destruct Hpid as [_ Hpid], Hbid as [[[[[_ _] Hbp] _] _] Hpass].
  match goal with Hu : upsert_rule _ _ _ = Ok _ |- _ => apply upsert_rule_sound in Hu as (Hs1 & Hp1 & Hb1); [|done] end.
  match goal with Hv : shadow_version _ _ _ _ _ _ = Ok _ |- _ => apply shadow_version_sound in Hv; [|by rewrite ?Hp1, ?Hb1|by rewrite ?Hp1, ?Hb1|congruence|done|done] end.
  clear Hs Hs1. new_id_inv. match goal with Hg : governance_sound ?s1 |- _ => is_var s1; apply use_id_sound in Hg end.
  case_match; ptx_inv; [done|]. by apply set_decisions_sound.
Qed.

(** *** Ratification *)

Lemma governed_by_Some proposal s v g : governed_by proposal s v = Some g →
  g ∈ governed s ∧ gv_version g = rv_id v ∧ gv_proposal g = proposal.
Proof using Type.
  unfold governed_by. intros [Hin Hg]%select_one_Some. by rewrite andb_true_iff, !bool_decide_eq_true in Hg.
Qed.

(** What the join finds: an accepted SHADOW version of a proposal with a passing
    backtest. *)
Lemma ratifiable_ok clientId acceptanceId s a v : governance_sound s → ratifiable clientId acceptanceId s = Some (a, v) →
  a ∈ acceptances s ∧ v ∈ rule_versions (rules s) ∧ rv_id v = ap_shadow a ∧ rv_lifecycle_state v = SHADOW ∧
  rb_hardness (rv_body v) = "AI_DOCS" ∧
  ∃ p b, p ∈ proposals s ∧ rp_id p = ap_proposal a ∧ b ∈ backtests s ∧ pt_id b = ap_backtest a ∧
    pt_proposal b = rp_id p ∧ pt_passed b = true ∧ rb_ast (rv_body v) = rp_ast p.
Proof using Type.
  intros Hs Hr. unfold ratifiable in Hr. apply bind_Some in Hr as (a' & Ha & Hr). apply bind_Some in Hr as (v' & Hv & Hr).
  apply bind_Some in Hr as (b' & Hb & Hr). case_match eqn:Hc; [|done]. injection Hr as -> ->.
  apply select_one_Some in Ha as [Ha _], Hv as [Hv Hid]. apply bool_decide_eq_true in Hid.
  unfold sourced in Hc. rewrite !andb_true_iff, !bool_decide_eq_true in Hc.
  destruct Hc as [[[[Hst [g Hg]] Hh] _] Hbt]. rewrite Hg in Hbt. cbn in Hbt. injection Hbt as Hbt.
  apply governed_by_Some in Hg as (Hgin & Hgv & Hgp). split_and!; try done.
  destruct (gs_governed _ Hs g Hgin) as (u & p & b & Hu & Huid & Hp & Hpid & Hbin & Hbid & Hbp & Hpass & Hcase).
  assert (u = v) as -> by (eapply (NoDup_map_inj rv_id); [apply Hs|done..|congruence]).
  exists p, b. split_and!; try congruence; try done.
  destruct Hcase as [(_ & _ & _ & Hast)|(Hact & _)]; congruence.
Qed.

Lemma active_version_sound a v actor why s x s' : active_version a v actor why s = Ok (x, s') → truthy why = true →
  a ∈ acceptances s → v ∈ rule_versions (rules s) → rv_id v = ap_shadow a → rv_lifecycle_state v = SHADOW →
  rb_hardness (rv_body v) = "AI_DOCS" →
  (∃ p b, p ∈ proposals s ∧ rp_id p = ap_proposal a ∧ b ∈ backtests s ∧ pt_id b = ap_backtest a ∧
    pt_proposal b = rp_id p ∧ pt_passed b = true ∧ rb_ast (rv_body v) = rp_ast p) →
  governance_sound s → governance_sound s'.
Proof using Type.
  unfold active_version. intros Hx Hwhy Ha Hv Hid Hst Hh (p & b & Hp & Hpid & Hb & Hbid & Hbp & Hpass & Hast) Hs.
  ptx_inv. new_id_inv. apply use_id_sound in Hs. case_match; ptx_inv; [done|].
  apply add_governed_sound; [done| |done].
  eexists _, p, b. split; [cbn; apply elem_of_app; right; by left|]. split_and!; try done. right.
  split; [done|]. split; [done|]. split; [by eexists _, _|]. exists v, a. rewrite <- Hid. split_and!; try done.
  cbn. apply elem_of_app. by left.
Qed.

Lemma record_promotion_sound activeId bt why s x s' : record_promotion activeId bt why s = Ok (x, s') →
  governance_sound s → governance_sound s'.
Proof using Type. unfold record_promotion. intros Hx Hs. ptx_inv. case_match; ptx_inv; [done|]. by apply add_promotion_sound. Qed.

Lemma set_ratifications_sound r s : governance_sound s → governance_sound (set_decisions (acceptances s) r s).
Proof using Type. intros Hs. apply (set_decisions_sound [] r) in Hs. by rewrite app_nil_r in Hs. Qed.

Lemma ratify_sound clientId acceptanceId actor why s x s' :
  ratifyContractRuleProposal clientId acceptanceId actor why s = Ok (x, s') → governance_sound s → governance_sound s'.
Proof using Type.
  unfold ratifyContractRuleProposal. intros Hr Hs. ptx_inv.
  match goal with He : pemit _ _ = Ok _ |- _ => apply pemit_Ok in He as [log [= ->]] end. apply set_ledger_sound.
  match goal with Hj : ratifiable _ _ _ = Some _ |- _ =>
    apply (ratifiable_ok _ _ _ _ _ Hs) in Hj as (Ha & Hv & Hid & Hst & Hh & Hjoin) end.
  match goal with Hv : active_version _ _ _ _ _ = Ok _ |- _ => apply active_version_sound in Hv; [|try done..] end.
  2: { match goal with Hc : _ && rationale_ok why = true |- _ => apply andb_true_iff in Hc as [_ Hc];
         unfold rationale_ok, within in Hc; unfold truthy; by destruct (trim why) end. }
  clear Hs. match goal with Hp : record_promotion _ _ _ _ = Ok _ |- _ => apply record_promotion_sound in Hp as Hs; [|done] end.
  new_id_inv. apply use_id_sound in Hs. case_match; ptx_inv; [done|]. by apply set_ratifications_sound.
Qed.

(** *** The theorem *)

Lemma proposal_step_sound s s' : proposal_step s s' → governance_sound s → governance_sound s'.
Proof using Type.
  destruct 1; [by eapply persist_sound|by eapply backtest_sound|by eapply accept_sound|by eapply ratify_sound|by apply rule_step_sound].
Qed.

(** Tables in which no rule comes from a proposal yet. *)
Definition ungoverned s : Prop :=
  NoDup (map rv_id (rule_versions (rules s))) ∧ proposals s = [] ∧ backtests s = [] ∧ governed s = [].
Lemma ungoverned_sound s : ungoverned s → governance_sound s.
Proof using Type. intros (Hv & Hp & Hb & Hg). split; rewrite ?Hp, ?Hb, ?Hg; [done|constructor|set_solver..]. Qed.

(** C9: no model makes a rule: in tables reached by any sequence of calls that
    persist, try, accept and ratify proposals and of the rule handlers, every
    version that comes from a proposal carries the proposal's predicate and names a
    backtest that passed, on a corpus that is not empty and on every case of which
    the predicate gives the expected verdict; and it is either a SHADOW version
    without authority, or an ACTIVE firm rule that a human ratified with a reason,
    derived from the SHADOW version that an acceptance of the proposal made. *)
Theorem firm_rules_are_ratified s0 s g : ungoverned s0 → rtc proposal_step s0 s → g ∈ governed s →
  ∃ v p b cases, v ∈ rule_versions (rules s) ∧ rv_id v = gv_version g ∧ p ∈ proposals s ∧ rp_id p = gv_proposal g ∧
    b ∈ backtests s ∧ pt_id b = gv_backtest g ∧ pt_proposal b = rp_id p ∧ tried_on b p cases ∧ passes p cases ∧
    (shadow_of s g v p ∨ firm_of s g v p).
Proof using Type.
  intros H0 Hr Hg. assert (governance_sound s) as Hs.
  { apply ungoverned_sound in H0. induction Hr as [|s1 s2 s3 Hstep _ IH]; [done|]. apply IH; [by eapply proposal_step_sound|done]. }
  destruct (gs_governed _ Hs g Hg) as (v & p & b & Hv & Hvid & Hp & Hpid & Hb & Hbid & Hbp & Hpass & Hcase).
  destruct (gs_backtests _ Hs b Hb Hpass) as (p' & Hp' & Hpid' & cases & Htried & Hcases).
  assert (p' = p) as -> by (eapply (NoDup_map_inj rp_id); [apply Hs|done..|congruence]).
  by exists v, p, b, cases.
Qed.
End safety.

(** ** A proposal's way to a firm rule *)

Definition demo_collation : DbCollation := code_unit_compare.

Section witnesses.
#[local] Existing Instances demo_collation ExactDecimal.ops code_unit_collator demo_unicode demo_sha Tx.demo_uuid demo_zod.

Definition no_rules : rule_db := mkRuleDb [] [] [] [] [] [] []
  [mkAuditEvent (demo_id 90) (Some (demo_id 1)) "contract_extraction" (Some (demo_id 3)) "persisted" ActorAI None None None
     (Some [("responseHash", JString "extraction-1")])].
Definition start : proposal_db :=
  mkProposalDb [mkDocument (demo_id 3) (demo_id 1) demo_source_sha]
    [mkVerified (demo_id 2) (demo_id 1) (demo_id 4) (demo_id 3) "extraction-1" "verification-1"]
    [mkContractClause (demo_id 5) (demo_id 1) (demo_id 4) "4.2" (Some "Fuel is included in the linehaul rate.")]
    [] [] [] [] [] [] [] [] [] no_rules 0.
Definition left {A} (r : result proposal_failure (A * proposal_db)) : proposal_db :=
  match r with Ok (_, s) => s | Err _ => start end.

Definition demo_result : AnthropicStructuredResult (list ProposedCriterion) := Eval vm_compute in
  match generateProposedCriteria "model-1" (demo_call (demo_answer [demo_criterion_json "4.2" no_fuel_json]))
          demo_source_sha demo_clauses with
  | Ok r => r | Err _ => mkResult [] "" "" "" "" ""
  end.
#[local] Abbreviation run_persist := (persistContractRuleProposals (demo_id 1) (demo_id 2) (demo_id 7) demo_result start).
Definition persisted : proposal_db := Eval vm_compute in left run_persist.
Definition demo_proposal_id : string := Eval vm_compute in default "" (rp_id <$> head (proposals persisted)).
#[local] Abbreviation run_backtest := (backtestContractRuleProposals (demo_id 1) (demo_id 2) (demo_id 7)
  [mkCorpus demo_proposal_id demo_corpus] persisted).
Definition tried : proposal_db := Eval vm_compute in left run_backtest.
Definition demo_backtest_id : string := Eval vm_compute in default "" (pt_id <$> head (backtests tried)).
#[local] Abbreviation run_accept := (acceptContractRuleProposal "2026-01-01" (demo_id 1) demo_proposal_id demo_backtest_id (demo_id 7) "reads well" tried).
Definition accepted : proposal_db := Eval vm_compute in left run_accept.
Definition demo_acceptance_id : string := Eval vm_compute in default "" (ap_id <$> head (acceptances accepted)).
#[local] Abbreviation run_ratify := (ratifyContractRuleProposal (demo_id 1) demo_acceptance_id (demo_id 8) " agreed " accepted).
Definition firm : proposal_db := Eval vm_compute in left run_ratify.

Lemma left_step {A} (r : result proposal_failure (A * proposal_db)) s' :
  is_ok r = true → left r = s' → ∃ x, r = Ok (x, s').
Proof. destruct r as [[x s]|]; [|done]. cbn. intros _ ->. by exists x. Qed.

Lemma demo_way : rtc proposal_step start firm.
Proof.
  destruct (left_step run_persist persisted) as [x1 H1]; [vm_compute; reflexivity..|].
  destruct (left_step run_backtest tried) as [x2 H2]; [vm_compute; reflexivity..|].
  destruct (left_step run_accept accepted) as [x3 H3]; [vm_compute; reflexivity..|].
  destruct (left_step run_ratify firm) as [x4 H4]; [vm_compute; reflexivity..|].
  apply (rtc_l _ _ persisted); [exact (step_persist _ _ _ _ _ _ _ H1)|].
  apply (rtc_l _ _ tried); [exact (step_backtest _ _ _ _ _ _ _ H2)|].
  apply (rtc_l _ _ accepted); [exact (step_accept _ _ _ _ _ _ _ _ _ H3)|].
  apply rtc_once. exact (step_ratify _ _ _ _ _ _ _ H4).
Qed.

Lemma firm_rules_are_ratified_witness : ∃ g, g ∈ governed firm ∧ gv_rationale g = Some "agreed" ∧
  ∃ v p cases, rv_id v = gv_version g ∧ passes p cases ∧ (shadow_of firm g v p ∨ firm_of firm g v p).
Proof.
  assert (ungoverned start) as H0 by (split; [constructor|done]).
  destruct (governed firm) as [|g1 [|g2 [|]]] eqn:Hg; try discriminate Hg.
  assert (g2 ∈ governed firm) as Hin by (rewrite Hg; right; left).
  exists g2. split; [right; left|]. split; [injection Hg as _ <-; reflexivity|].
  destruct (firm_rules_are_ratified start firm g2 H0 demo_way Hin)
    as (v & p & b & cases & _ & Hv & _ & _ & _ & _ & _ & _ & Hp & Hc).
  exists v, p, cases. split; [exact Hv|]. split; [exact Hp|exact Hc].
Defined.

(** The same calls once more change nothing and return the same identifiers. *)
#[local] Abbreviation persist_again :=
  (persistContractRuleProposals (demo_id 1) (demo_id 2) (demo_id 7) demo_result firm).
#[local] Abbreviation ratify_again actor :=
  (ratifyContractRuleProposal (demo_id 1) demo_acceptance_id actor "agreed" firm).
Example retries_are_idempotent :
  fst <$> persist_again = Ok ([demo_proposal_id], 0%nat) ∧ proposals (left persist_again) = proposals firm ∧
  snd ∘ fst <$> ratify_again (demo_id 8) = Ok false ∧ rules (left (ratify_again (demo_id 8))) = rules firm ∧
  ratify_again (demo_id 9) = Err (ProposalRatificationError "RATIFICATION_CONFLICT").
Proof. split; [|split; [|split; [|split]]]; vm_compute; reflexivity. Qed.

(** The gate compares clause references up to case and compatibility forms, the
    lookup of the stored clauses exactly: a proposal that is well cited may be
    impossible to persist. *)
Definition other_case : proposal_db :=
  mkProposalDb (documents start) (verified_versions start)
    [mkContractClause (demo_id 5) (demo_id 1) (demo_id 4) "Section 4" None] [] [] [] [] [] [] [] [] [] no_rules 0.
Definition other_clauses : ClauseNormalization :=
  [mkClause "Section 4" [demo_citation] (NORMALIZED (mkContent "RATE" None "Fuel is not billed apart." [] []))].
Lemma cited_but_not_persistable :
  match generateProposedCriteria "model-1" (demo_call (demo_answer [demo_criterion_json "section 4" no_fuel_json]))
          demo_source_sha other_clauses with
  | Ok r => map_err Some (fst <$> persistContractRuleProposals (demo_id 1) (demo_id 2) (demo_id 7) r other_case)
  | Err _ => Err None
  end = Err (Some (ProposalPersistenceError "CLAUSE_NOT_FOUND")).
Proof. vm_compute. reflexivity. Qed.
End witnesses.
