(* ===== verification/Amendments.v ===== *)
(** Contract amendments ([src/src/modules/contracts/]): which clauses an amendment
    changes and which rules cite them ([analyze-amendment-impact.ts]), and the
    retirement of those rules ([retire-amended-rules.ts]).  The tables are those of
    ProposalLifecycle.v, as row-level security shows them to the tenant. *)

From S2P Require Import Prelude JsText Decimal Json Interpreter AstJson Store AuditLedger Lifecycle GoldenCorpus Jsonb JsDate Database Tx Manifest Proposals ProposalsSafety ProposalLifecycle ProposalLifecycleSafety.

Record contract_amendment := mkAmendment {
  am_id : string; am_account : string; am_supersedes : option string; am_new : option string;
}.
Inductive clause_change : Set := ADDED | REMOVED | CHANGED.
#[export] Instance clause_change_eq_dec : EqDecision clause_change.
Proof. solve_decision. Defined.
Record ClauseImpact := mkImpact {
  im_clauseReference : string; im_change : clause_change; im_oldClauseId : option string; im_newClauseId : option string;
  im_affectedRuleVersionIds : list string;
}.

Section amendments.
Context {T : DbCollation} {U : UuidSource}.
Implicit Types (o n : contract_clause) (s : proposal_db).

(** ** Impact *)

(** [contract_clause o FULL OUTER JOIN contract_clause n ON n.contract_version_id = new
    AND n.clause_ref = o.clause_ref]; both sides range over the whole table. *)
Definition joins (new : string) o n : bool :=
  bool_decide (kl_contract_version n = new) && bool_decide (kl_ref n = kl_ref o).
Definition full_join (new : string) (t : list contract_clause) : list (option contract_clause * option contract_clause) :=
  concat (map (λ o, match List.filter (joins new o) t with [] => [(Some o, None)] | ns => map (λ n, (Some o, Some n)) ns end) t) ++
  map (λ n, (None, Some n)) (List.filter (λ n, negb (existsb (λ o, joins new o n) t)) t).
(** [WHERE o.contract_version_id = old OR (o.id IS NULL AND n.contract_version_id = new)] *)
Definition join_where (old new : string) (r : option contract_clause * option contract_clause) : bool :=
  match r with
  | (Some o, _) => bool_decide (kl_contract_version o = old)
  | (None, Some n) => bool_decide (kl_contract_version n = new)
  | (None, None) => false
  end.
(** [coalesce(o.clause_ref, n.clause_ref)] *)
Definition join_ref (r : option contract_clause * option contract_clause) : string :=
  match r with (Some o, _) => kl_ref o | (None, Some n) => kl_ref n | _ => "" end.
Definition compared_clauses (old new : string) s : list (option contract_clause * option contract_clause) :=
  js_sort (cmp_on join_ref text_order) (List.filter (join_where old new) (full_join new (contract_clauses s))).

Definition change_of (r : option contract_clause * option contract_clause) : option clause_change :=
  match r with
  | (None, _) => Some ADDED
  | (Some _, None) => Some REMOVED
  | (Some o, Some n) => if decide (kl_text o = kl_text n) then None else Some CHANGED
  end.
(** The ACTIVE versions citing a clause, by id. *)
Definition citing_versions (clause : string) s : list string :=
  js_sort code_unit_compare (map rv_id (List.filter (λ v, bool_decide (rb_clause_id (rv_body v) = Some clause) &&
    bool_decide (rv_lifecycle_state v = ACTIVE)) (rule_versions (rules s)))).
Definition impact_of s (r : option contract_clause * option contract_clause) : option ClauseImpact :=
  change ← change_of r;
  Some (mkImpact (join_ref r) change (kl_id <$> r.1) (kl_id <$> r.2) (from_option (λ o, citing_versions (kl_id o) s) [] r.1)).

Definition analyzeAmendmentImpact (amendments : list contract_amendment) (clientId amendmentId : string) : ptx (list ClauseImpact) :=
  a ← pthe (select_one (λ a, uuid_is (am_id a) amendmentId && uuid_is (am_account a) clientId) amendments)
        (AmendmentError ("contract amendment not found for tenant: " +:+ amendmentId));
  match am_supersedes a, am_new a with
  | Some old, Some new => rows ← pquery (compared_clauses old new); s ← pquery (λ s, s); mret (omap (impact_of s) rows)
  | _, _ => pthrow (AmendmentError "contract amendment must link old and new versions")
  end.

(** ** Retirement *)

Record AmendedRuleTransition := mkAmended {
  at_oldRuleVersionId : string; at_deprecatedRuleVersionId : string; at_replacementRuleVersionId : option string;
}.
(** [transitionRuleLifecycle] on the transaction's client. *)
Definition transition_with (id : string) (input : transition_input) : ptx (string * bool) := λ s,
  match transitionRuleLifecycle id input (rules s) with
  | Ok (r, d) => Ok (r, set_rules d s)
  | Err e => Err (LifecycleError e)
  end.
Definition transition (input : transition_input) : ptx (string * bool) :=
  id ← new_id (λ s, map rv_id (rule_versions (rules s))); transition_with id input.
Definition change_text (c : clause_change) : string :=
  match c with ADDED => "added" | REMOVED => "removed" | CHANGED => "changed" end.

(** [provenance || jsonb_build_object(...)] *)
Definition amended_provenance (amendmentId replaced : string) (provenance : json) : json :=
  match provenance with
  | JObject l => JObject (map_set (map_set l "contractAmendmentId" (JString amendmentId)) "replacementFor" (JString replaced))
  | j => j
  end.
Definition replacement_body (amendmentId replaced newClause : string) (b : rule_body) : rule_body :=
  {| rb_rule_id := rb_rule_id b; rb_hardness := rb_hardness b; rb_ast := rb_ast b; rb_ast_hash := rb_ast_hash b;
     rb_expected_inputs := rb_expected_inputs b; rb_emits := rb_emits b;
     rb_provenance := amended_provenance amendmentId replaced (rb_provenance b);
     rb_clause_id := Some newClause; rb_valid_from := rb_valid_from b; rb_valid_to := rb_valid_to b |}.
Definition replaces (deprecated : string) (x : rule_version) : bool :=
  bool_decide (rv_predecessor x = Some deprecated) && bool_decide (rv_lifecycle_state x = PROPOSED).
(** The PROPOSED replacement: inserted, or an earlier call's. *)
Definition replacement (amendmentId newClause deprecated : string) : ptx string :=
  id ← new_id (λ s, map rv_id (rule_versions (rules s)));
  s ← pquery (λ s, s);
  let unresolved := AmendmentError "amended rule replacement retry could not be resolved" in
  match select_one (replaces deprecated) (rule_versions (rules s)), select_one (λ v, bool_decide (rv_id v = deprecated)) (rule_versions (rules s)) with
  | Some x, _ => mret (rv_id x)
  | None, None => pthrow unresolved
  | None, Some v =>
      _ ← pmodify (λ s, set_rules (set_rule_versions (λ t, t ++ [{| rv_id := id;
            rv_body := replacement_body amendmentId deprecated newClause (rv_body v);
            rv_lifecycle_state := PROPOSED; rv_predecessor := Some deprecated |}]) (rules s)) s);
      mret id
  end.

(** One rule of one impact. *)
Definition retire_rule (amendmentId : string) (impact : ClauseImpact) (oldRuleVersionId : string) : ptx AmendedRuleTransition :=
  deprecated ← transition (mkTransition oldRuleVersionId DEPRECATED ("Contract amendment " +:+ amendmentId +:+ ": clause " +:+
    im_clauseReference impact +:+ " " +:+ change_text (im_change impact)) None None);
  replacementId ← (match im_change impact, im_newClauseId impact with
                   | CHANGED, Some clause => r ← replacement amendmentId clause deprecated.1; mret (Some r)
                   | _, _ => mret None
                   end);
  mret (mkAmended oldRuleVersionId deprecated.1 replacementId).
Definition retireAmendedRules (amendments : list contract_amendment) (clientId amendmentId : string) : ptx (list AmendedRuleTransition) :=
  impacts ← analyzeAmendmentImpact amendments clientId amendmentId;
  transitions ← pfor (λ impact, pfor (retire_rule amendmentId impact) (im_affectedRuleVersionIds impact)) impacts;
  mret (concat transitions).

(** ** What the analysis reports *)

Lemma elem_of_filter_b {A} (q : A → bool) l x : x ∈ List.filter q l ↔ x ∈ l ∧ q x = true.
Proof using Type. by rewrite !list_elem_of_In, filter_In. Qed.

(** A clause of the new version joins with itself, so it is never alone. *)
Lemma never_unmatched new t n : n ∈ t → kl_contract_version n = new → existsb (λ o, joins new o n) t = true.
Proof using Type.
  intros Hn Hv. apply existsb_true. exists n. split; [done|]. unfold joins. by rewrite !bool_decide_true.
Qed.

Lemma elem_of_compared old new s r : r ∈ compared_clauses old new s ↔
  ∃ o, r.1 = Some o ∧ o ∈ contract_clauses s ∧ kl_contract_version o = old ∧
    match r.2 with
    | Some n => n ∈ contract_clauses s ∧ kl_contract_version n = new ∧ kl_ref n = kl_ref o
    | None => ∀ n, n ∈ contract_clauses s → kl_contract_version n = new → kl_ref n ≠ kl_ref o
    end.
Proof using Type.
  unfold compared_clauses. rewrite elem_of_js_sort, elem_of_filter_b. unfold full_join. rewrite elem_of_app.
  assert (∀ o n, joins new o n = true ↔ kl_contract_version n = new ∧ kl_ref n = kl_ref o) as Hj.
  { intros o n. unfold joins. by rewrite andb_true_iff, !bool_decide_eq_true. }
  rewrite list_elem_of_In, in_concat. setoid_rewrite <- list_elem_of_In. split.
  - intros [[(l & Hl & Hr)|Hr] Hw].
    + apply list_elem_of_fmap in Hl as (o & -> & Ho). destruct (List.filter (joins new o) _) as [|n0 ns] eqn:Hf.
      * apply list_elem_of_singleton in Hr as ->. exists o. cbn in *. apply bool_decide_eq_true in Hw.
        split_and!; try done. intros n Hn Hv Href. exact (filter_empty_in _ _ n Hf Hn (proj2 (Hj o n) (conj Hv Href))).
      * rewrite <- Hf in Hr. apply list_elem_of_fmap in Hr as (n & -> & Hn). apply elem_of_filter_b in Hn as [Hn Hjn].
        exists o. cbn in *. apply bool_decide_eq_true in Hw. apply Hj in Hjn. tauto.
    + apply list_elem_of_fmap in Hr as (n & -> & Hn). apply elem_of_filter_b in Hn as [Hn Hneg]. cbn in Hw.
      apply bool_decide_eq_true in Hw. by rewrite never_unmatched in Hneg.
  - intros (o & Ho & Hin & Hold & Hn). destruct r as [o' r2]. cbn in Ho, Hn |- *. subst o'.
    split; [|by apply bool_decide_eq_true]. left.
    exists (match List.filter (joins new o) (contract_clauses s) with [] => [(Some o, None)] | ns => map (λ n, (Some o, Some n)) ns end).
    split; [by apply (list_elem_of_fmap_2 (λ o, match List.filter (joins new o) (contract_clauses s) with
              [] => [(Some o, None)] | ns => map (λ n, (Some o, Some n)) ns end))|].
    destruct (List.filter (joins new o) (contract_clauses s)) as [|n0 ns] eqn:Hf.
    + destruct r2 as [n|]; [|by left]. destruct Hn as (Hn & Hv & Href). exfalso.
      exact (filter_empty_in _ _ n Hf Hn (proj2 (Hj o n) (conj Hv Href))).
    + rewrite <- Hf. destruct r2 as [n|].
      * apply (list_elem_of_fmap_2 (λ n, (Some o, Some n))), elem_of_filter_b. split; [apply Hn|]. exact (proj2 (Hj o n) (proj2 Hn)).
      * exfalso. assert (n0 ∈ List.filter (joins new o) (contract_clauses s)) as Hn0 by (rewrite Hf; by left).
        apply elem_of_filter_b in Hn0 as [Hn0 [??]%Hj]. by eapply Hn.
Qed.

(** The analysis, in the terms of the clauses. *)
Definition no_counterpart s (version : string) o : Prop :=
  ∀ n, n ∈ contract_clauses s → kl_contract_version n = version → kl_ref n ≠ kl_ref o.
Definition touched s (old new : string) o (change : clause_change) (replacing : option contract_clause) : Prop :=
  o ∈ contract_clauses s ∧ kl_contract_version o = old ∧
  match change, replacing with
  | REMOVED, None => no_counterpart s new o
  | CHANGED, Some n =>
      n ∈ contract_clauses s ∧ kl_contract_version n = new ∧ kl_ref n = kl_ref o ∧ kl_text n ≠ kl_text o
  | _, _ => False
  end.
Definition impact_on s o change replacing : ClauseImpact :=
  mkImpact (kl_ref o) change (Some (kl_id o)) (kl_id <$> replacing) (citing_versions (kl_id o) s).

Lemma analyze_inv amendments clientId amendmentId s impacts s' :
  analyzeAmendmentImpact amendments clientId amendmentId s = Ok (impacts, s') → s' = s ∧
  ∃ a old new, a ∈ amendments ∧ uuid_is (am_id a) amendmentId = true ∧ uuid_is (am_account a) clientId = true ∧
    am_supersedes a = Some old ∧ am_new a = Some new ∧ impacts = omap (impact_of s) (compared_clauses old new s).
Proof using Type.
  intros Ha. unfold analyzeAmendmentImpact in Ha. ptx_inv.
  match goal with Hs : select_one _ _ = Some ?a |- _ =>
    apply select_one_Some in Hs as [Hin Hb]; destruct (am_supersedes a) as [old|] eqn:Ho, (am_new a) as [new|] eqn:Hn end;
    ptx_inv.
  apply andb_true_iff in Hb as [Hb Hb2]. split; [done|]. eexists _, old, new. by split_and!.
Qed.

Lemma elem_of_impacts old new s i : i ∈ omap (impact_of s) (compared_clauses old new s) ↔
  ∃ o change replacing, touched s old new o change replacing ∧ i = impact_on s o change replacing.
Proof using Type.
  rewrite list_elem_of_omap. setoid_rewrite elem_of_compared. unfold impact_of. split.
  - intros ([o' n'] & (o & [= ->] & Hin & Hold & Hn) & Hi). cbn in Hi, Hn. destruct n' as [n|]; cbn in Hi.
    + destruct (decide (kl_text o = kl_text n)) as [|Ht]; [done|]. injection Hi as <-.
      exists o, CHANGED, (Some n). destruct Hn as (? & ? & ?). by split_and!.
    + injection Hi as <-. by exists o, REMOVED, None.
  - intros (o & change & [n|] & (Hin & Hold & Hn) & ->); (destruct change; try done).
    + destruct Hn as (Hn & Hv & Hr & Ht). exists (Some o, Some n). split; [by exists o|].
      cbn. by rewrite decide_False by auto.
    + exists (Some o, None). split; [by exists o|]. done.
Qed.

Lemma elem_of_citing clause s id : id ∈ citing_versions clause s ↔
  ∃ v, v ∈ rule_versions (rules s) ∧ rv_id v = id ∧ rb_clause_id (rv_body v) = Some clause ∧ rv_lifecycle_state v = ACTIVE.
Proof using Type.
  unfold citing_versions. rewrite elem_of_js_sort. setoid_rewrite list_elem_of_fmap. setoid_rewrite elem_of_filter_b.
  setoid_rewrite andb_true_iff. setoid_rewrite bool_decide_eq_true. naive_solver.
Qed.

(** A clause that only the new version has is never reported. *)
Lemma added_clauses_never_reported amendments clientId amendmentId s impacts s' i :
  analyzeAmendmentImpact amendments clientId amendmentId s = Ok (impacts, s') → i ∈ impacts → im_change i ≠ ADDED.
Proof using Type.
  intros (_ & a & old & new & _ & _ & _ & _ & _ & ->)%analyze_inv
    (o & [] & [n|] & (_ & _ & Ht) & ->)%elem_of_impacts; done.
Qed.

(** [analyzeAmendmentImpact] of an amendment that links an old and a new
    version succeeds, changes nothing, and reports exactly the clauses of the old
    version that the new version drops or rewords, each with its counterpart and
    with exactly the ACTIVE rule versions that cite it; of an amendment the tenant
    does not have, or that lacks a link, it fails. *)
Theorem amendment_impact_exact amendments clientId amendmentId s :
  match analyzeAmendmentImpact amendments clientId amendmentId s with
  | Ok (impacts, s') => s' = s ∧ ∃ a old new, a ∈ amendments ∧ am_supersedes a = Some old ∧ am_new a = Some new ∧
      uuid_is (am_id a) amendmentId = true ∧ uuid_is (am_account a) clientId = true ∧
      (∀ i, i ∈ impacts ↔ ∃ o change replacing, touched s old new o change replacing ∧
         im_clauseReference i = kl_ref o ∧ im_change i = change ∧ im_oldClauseId i = Some (kl_id o) ∧
         im_newClauseId i = (kl_id <$> replacing) ∧ im_affectedRuleVersionIds i = citing_versions (kl_id o) s) ∧
      (∀ clause id, id ∈ citing_versions clause s ↔ ∃ v, v ∈ rule_versions (rules s) ∧ rv_id v = id ∧
         rb_clause_id (rv_body v) = Some clause ∧ rv_lifecycle_state v = ACTIVE)
  | Err _ => ∀ a, select_one (λ a, uuid_is (am_id a) amendmentId && uuid_is (am_account a) clientId) amendments = Some a →
      am_supersedes a = None ∨ am_new a = None
  end.
Proof using Type.
  destruct (analyzeAmendmentImpact _ _ _ s) as [[impacts s']|x] eqn:Ha.
  - apply analyze_inv in Ha as (-> & a & old & new & Hin & Hid & Hacc & Ho & Hn & ->). split; [done|].
    exists a, old, new. split_and!; try done; [|intros; apply elem_of_citing].
    intros i. rewrite elem_of_impacts. split; intros (o & change & replacing & Ht & Hi); exists o, change, replacing.
    + by subst i.
    + split; [done|]. destruct i; cbn in Hi. unfold impact_on. naive_solver.
  - intros a Hs. unfold analyzeAmendmentImpact in Ha. unfold mbind at 1, ptx_bind at 1 in Ha. rewrite Hs in Ha.
    cbn in Ha. destruct (am_supersedes a), (am_new a); auto. done.
Qed.

(** ** What retirement leaves *)

(** The same rule, up to its provenance and the clause it cites. *)
Definition keeps_rule u v : Prop :=
  rb_rule_id (rv_body v) = rb_rule_id (rv_body u) ∧ rb_hardness (rv_body v) = rb_hardness (rv_body u) ∧
  rb_ast (rv_body v) = rb_ast (rv_body u) ∧ rb_ast_hash (rv_body v) = rb_ast_hash (rv_body u) ∧
  rb_expected_inputs (rv_body v) = rb_expected_inputs (rv_body u) ∧ rb_emits (rv_body v) = rb_emits (rv_body u) ∧
  rb_valid_from (rv_body v) = rb_valid_from (rv_body u) ∧ rb_valid_to (rv_body v) = rb_valid_to (rv_body u).
Lemma keeps_rule_trans u v w : keeps_rule u v → keeps_rule v w → keeps_rule u w.
Proof using Type. unfold keeps_rule. intuition congruence. Qed.
(** A version retired or proposed from another carries its rule. *)
Definition carried v : Prop := rv_lifecycle_state v = DEPRECATED ∨ rv_lifecycle_state v = PROPOSED.
Record versions_sound s : Prop := {
  vs_ids : NoDup (map rv_id (rule_versions (rules s)));
  vs_descends v p : v ∈ rule_versions (rules s) → rv_predecessor v = Some p → carried v →
    ∃ u, u ∈ rule_versions (rules s) ∧ rv_id u = p ∧ keeps_rule u v;
}.
Lemma version_added s s' w : rule_versions (rules s') = rule_versions (rules s) ++ [w] →
  rv_id w ∉ map rv_id (rule_versions (rules s)) →
  (∃ u, u ∈ rule_versions (rules s) ∧ rv_predecessor w = Some (rv_id u) ∧ keeps_rule u w) →
  versions_sound s → versions_sound s'.
Proof using Type.
  intros Hv Hf (u & Hu & Hp & Hk) [Hnd Hd]. split; rewrite Hv.
  - rewrite map_app. apply NoDup_app. split; [done|]. split; [|apply NoDup_singleton].
    intros y Hy Heq. apply list_elem_of_singleton in Heq as ->. done.
  - intros v p Hin Hvp Hc. apply elem_of_app in Hin as [Hin|Hin]; [|apply list_elem_of_singleton in Hin as ->].
    + destruct (Hd v p Hin Hvp Hc) as (u' & ? & ? & ?). exists u'. set_solver.
    + exists u. split; [set_solver|]. split; [congruence|done].
Qed.

Definition deprecates s (old : string) w : Prop :=
  w ∈ rule_versions (rules s) ∧ rv_predecessor w = Some (pg_uuid old) ∧ rv_lifecycle_state w = DEPRECATED.
Definition replaces_for s d w : Prop :=
  w ∈ rule_versions (rules s) ∧ rv_predecessor w = Some (rv_id d) ∧ rv_lifecycle_state w = PROPOSED.

Lemma transition_step input s r s' : transition input s = Ok (r, s') → ti_to input = DEPRECATED → versions_sound s →
  versions_sound s' ∧ ∃ d added, deprecates s' (ti_ruleVersionId input) d ∧ rv_id d = r.1 ∧
    rule_versions (rules s') = rule_versions (rules s) ++ added ∧ (∀ w, w ∈ added → w = d).
Proof using Type.
  intros Ht Hto Hs. unfold transition in Ht. apply ptx_bind_Ok in Ht as (id & s1 & Hid & Ht).
  apply new_id_Ok in Hid as [Hfresh [= -> ->]]. unfold transition_with in Ht.
  destruct (transitionRuleLifecycle _ _ _) as [[r' db]|] eqn:E; [|done]. injection Ht as -> <-.
  destruct input as [old to why dual bt], r as [n created]. cbn in Hto. subst to. cbn [ti_ruleVersionId].
  apply transition_inv in E as (cur & next & e & Hcur & _ & Hn & Hsucc & Hnew & Hold & Hvs & _).
  apply find_version_Some in Hcur as [Hin Hcid]. apply successor_of_true in Hsucc as [Hp Hst].
  assert (next ∈ rule_versions db) as Hdb by (rewrite Hvs; destruct created; set_solver). split.
  - destruct created.
    + apply (version_added s _ next); [exact Hvs| | |exact Hs].
      * by rewrite (Hnew eq_refl).
      * exists cur. split; [done|]. split; [congruence|]. by rewrite (Hnew eq_refl).
    + rewrite app_nil_r in Hvs. destruct Hs as [Hnd Hd]. split; cbn; by rewrite Hvs.
  - exists next, (if created then [next] else []). split; [by split|]. split; [done|]. split; [done|].
    intros w. destruct created; set_solver.
Qed.

Lemma replacement_step am clause d s r s' : replacement am clause (rv_id d) s = Ok (r, s') →
  d ∈ rule_versions (rules s) → versions_sound s →
  versions_sound s' ∧ ∃ w added, replaces_for s' d w ∧ rv_id w = r ∧
    rule_versions (rules s') = rule_versions (rules s) ++ added ∧
    (∀ x, x ∈ added → x = w ∧ rb_clause_id (rv_body x) = Some clause).
Proof using Type.
  intros Hr Hd Hs. unfold replacement in Hr. ptx_inv.
  match goal with Hn : new_id _ _ = Ok _ |- _ => apply new_id_Ok in Hn as [Hfresh Hn]; simplify_eq end.
  destruct (select_one (replaces (rv_id d)) _) as [x|] eqn:Hx.
  - ptx_inv. apply select_one_Some in Hx as [Hin [Hp Hst]%andb_true_iff].
    split; [destruct Hs; by split|]. exists x, []. rewrite app_nil_r. split_and!; try done; [|set_solver].
    split; [done|]. split; by eapply bool_decide_eq_true.
  - pose proof (select_one_unique rv_id (rule_versions (rules s)) d (vs_ids _ Hs) Hd) as Hsel.
    cbn in Hr. rewrite Hsel in Hr. ptx_inv. split.
    + eapply (version_added s); [reflexivity|done| |done]. exists d. split; [done|]. split; [done|]. by unfold keeps_rule.
    + eexists _, [_]. split; [|split; [|split; [reflexivity|]]].
      * split; [cbn; apply elem_of_app; right; by left|]. done.
      * done.
      * intros x Hx1. apply list_elem_of_singleton in Hx1 as ->. done.
Qed.

(** One rule of one impact, retired between two states. *)
Definition added_for s (impact : ClauseImpact) (old : string) w : Prop :=
  deprecates s old w ∨
  im_change impact = CHANGED ∧ rb_clause_id (rv_body w) = im_newClauseId impact ∧ ∃ d, deprecates s old d ∧ replaces_for s d w.
Definition retired s (impact : ClauseImpact) (old : string) (x : AmendedRuleTransition) : Prop :=
  at_oldRuleVersionId x = old ∧ ∃ d, deprecates s old d ∧ rv_id d = at_deprecatedRuleVersionId x ∧
    match im_change impact, im_newClauseId impact with
    | CHANGED, Some _ => ∃ w, replaces_for s d w ∧ at_replacementRuleVersionId x = Some (rv_id w)
    | _, _ => at_replacementRuleVersionId x = None
    end.
Definition extended s s' (origin : rule_version → Prop) : Prop :=
  ∃ added, rule_versions (rules s') = rule_versions (rules s) ++ added ∧ ∀ w, w ∈ added → origin w.

Lemma extended_mono s s' origin w : extended s s' origin → w ∈ rule_versions (rules s) → w ∈ rule_versions (rules s').
Proof using Type. intros (added & -> & _). set_solver. Qed.
Lemma extended_refl s origin : extended s s origin.
Proof using Type. exists []. rewrite app_nil_r. set_solver. Qed.
Lemma extended_trans s1 s2 s3 (P Q R : rule_version → Prop) : extended s1 s2 P → extended s2 s3 Q →
  (∀ w, P w ∨ Q w → R w) → extended s1 s3 R.
Proof using Type.
  intros (a & Ha & HP) (b & Hb & HQ) HR. exists (a ++ b). rewrite Hb, Ha, app_assoc. split; [done|].
  intros w [Hw|Hw]%elem_of_app; auto.
Qed.
Lemma deprecates_mono s s' old w : (∀ v, v ∈ rule_versions (rules s) → v ∈ rule_versions (rules s')) →
  deprecates s old w → deprecates s' old w.
Proof using Type. intros Hm (? & ? & ?). split; auto. Qed.
Lemma added_for_mono s s' impact old w : (∀ v, v ∈ rule_versions (rules s) → v ∈ rule_versions (rules s')) →
  added_for s impact old w → added_for s' impact old w.
Proof using Type.
  intros Hm [Hd|(Hc & Hcl & d & Hd & Hin & Hr)]; [left; by eapply deprecates_mono|right].
  split_and!; [done..|]. exists d. split; [by eapply deprecates_mono|]. split; auto.
Qed.
Lemma retired_mono s s' impact old x : (∀ v, v ∈ rule_versions (rules s) → v ∈ rule_versions (rules s')) →
  retired s impact old x → retired s' impact old x.
Proof using Type.
  intros Hm (Hx & d & Hd & Hid & Hr). split; [done|]. exists d. split; [by eapply deprecates_mono|]. split; [done|].
  destruct (im_change impact), (im_newClauseId impact); try done. destruct Hr as (w & (Hin & Hw) & Hxw).
  exists w. split; [|done]. split; auto.
Qed.

Lemma retire_rule_step am impact old s x s' : retire_rule am impact old s = Ok (x, s') → versions_sound s →
  versions_sound s' ∧ retired s' impact old x ∧ extended s s' (added_for s' impact old).
Proof using Type.
  intros Hr Hs. unfold retire_rule in Hr. ptx_inv.
  match goal with Ht : transition _ s = Ok (?r, ?s1) |- _ =>
    destruct r as [deprecated created]; destruct (transition_step _ _ _ _ Ht eq_refl Hs) as (Hs1 & d & a1 & Hd & Hid & Hv1 & Ha1);
    cbn [ti_ruleVersionId fst] in Hd, Hid end.
  destruct (im_change impact) eqn:Hc; [ptx_inv| ptx_inv|destruct (im_newClauseId impact) as [clause|] eqn:Hn; ptx_inv].
  all: try (split; [done|]; split;
    [split; [done|]; exists d; split; [done|]; split; [done|]; by rewrite Hc, ?Hn|];
    exists a1; split; [done|]; intros w Hw; rewrite (Ha1 w Hw); by left).
  match goal with Hr : replacement _ _ _ _ = Ok _ |- _ =>
    destruct (replacement_step _ _ _ _ _ _ Hr (proj1 Hd) Hs1) as (Hs2 & w & a2 & Hw & Hwid & Hv2 & Ha2) end.
  lazymatch goal with |- versions_sound ?s2 ∧ _ => rename s2 into s' end. split; [done|].
  assert (deprecates s' old d) as Hd' by (eapply deprecates_mono; [|exact Hd]; intros; rewrite Hv2; set_solver).
  split.
  - split; [done|]. exists d. split; [done|]. split; [done|]. rewrite Hc, Hn. exists w. split; [done|]. cbn. by f_equal.
  - eapply (extended_trans s _ s' (λ x, x = d) (λ x, x = w ∧ rb_clause_id (rv_body x) = Some clause)).
    + by exists a1.
    + by exists a2.
    + intros y [->|[-> Hcl]]; [by left|right]. split; [done|]. split; [by rewrite Hn|]. by exists d.
Qed.

Lemma pfor_extends {A B} (P : A → proposal_db → B → Prop) (Q : A → proposal_db → rule_version → Prop) (f : A → ptx B) :
  (∀ x s1 y s2, f x s1 = Ok (y, s2) → versions_sound s1 → versions_sound s2 ∧ P x s2 y ∧ extended s1 s2 (Q x s2)) →
  (∀ x s1 s2 y, (∀ v, v ∈ rule_versions (rules s1) → v ∈ rule_versions (rules s2)) → P x s1 y → P x s2 y) →
  (∀ x s1 s2 w, (∀ v, v ∈ rule_versions (rules s1) → v ∈ rule_versions (rules s2)) → Q x s1 w → Q x s2 w) →
  ∀ l s ys s', pfor f l s = Ok (ys, s') → versions_sound s →
  versions_sound s' ∧ Forall2 (λ x y, P x s' y) l ys ∧ extended s s' (λ w, ∃ x, x ∈ l ∧ Q x s' w).
Proof using Type.
  intros Hf HP HQ l. induction l as [|x l IH]; intros s ys s' Hl Hs; cbn [pfor] in Hl; ptx_inv.
  { split; [done|]. split; [constructor|apply extended_refl]. }
  match goal with Hx : f x s = Ok (?y, ?s1), Hl : pfor f l ?s1 = Ok (?ys, ?s2) |- _ =>
    destruct (Hf _ _ _ _ Hx Hs) as (Hs1 & Hy & He1); destruct (IH _ _ _ Hl Hs1) as (Hs2 & Hys & He2) end.
  split; [done|]. split; [constructor; [|done]; eapply HP; [|exact Hy]; intros v; by apply (extended_mono _ _ _ v He2)|].
  eapply extended_trans; [exact He1|exact He2|]. intros w [Hw|(z & Hz & Hw)].
  - exists x. split; [by left|]. eapply HQ; [|exact Hw]. intros v. by apply (extended_mono _ _ _ v He2).
  - exists z. split; [by right|done].
Qed.

Lemma retire_impact_step am impact s xs s' : pfor (retire_rule am impact) (im_affectedRuleVersionIds impact) s = Ok (xs, s') →
  versions_sound s → versions_sound s' ∧ Forall2 (retired s' impact) (im_affectedRuleVersionIds impact) xs ∧
    extended s s' (λ w, ∃ old, old ∈ im_affectedRuleVersionIds impact ∧ added_for s' impact old w).
Proof using Type.
  intros Hl Hs. apply (pfor_extends (λ old s x, retired s impact old x) (λ old s w, added_for s impact old w)
    (retire_rule am impact)); [|intros * Hm; by apply retired_mono|intros * Hm; by apply added_for_mono|done|done].
  intros old s1 y s2. apply retire_rule_step.
Qed.

Lemma retire_inv amendments clientId am s xs s' : retireAmendedRules amendments clientId am s = Ok (xs, s') → versions_sound s →
  ∃ impacts xss, analyzeAmendmentImpact amendments clientId am s = Ok (impacts, s) ∧ xs = concat xss ∧ versions_sound s' ∧
    Forall2 (λ i ys, Forall2 (retired s' i) (im_affectedRuleVersionIds i) ys) impacts xss ∧
    extended s s' (λ w, ∃ i, i ∈ impacts ∧ ∃ old, old ∈ im_affectedRuleVersionIds i ∧ added_for s' i old w).
Proof using Type.
  intros Hr Hs. unfold retireAmendedRules in Hr. ptx_inv.
  match goal with Ha : analyzeAmendmentImpact _ _ _ s = Ok (_, ?s1) |- _ =>
    pose proof (analyze_inv _ _ _ _ _ _ Ha) as [-> _] end.
  match goal with Ha : analyzeAmendmentImpact _ _ _ s = Ok (?ims, s), Hl : pfor _ ?ims s = Ok (?yss, _) |- _ =>
    exists ims, yss; split; [exact Ha|]; split; [done|];
    apply (pfor_extends (λ i s ys, Forall2 (retired s i) (im_affectedRuleVersionIds i) ys)
      (λ i s w, ∃ old, old ∈ im_affectedRuleVersionIds i ∧ added_for s i old w)
      (λ i, pfor (retire_rule am i) (im_affectedRuleVersionIds i))); [| | |exact Hl|exact Hs] end.
  - intros i s1 ys s2. apply retire_impact_step.
  - intros i s1 s2 ys Hm. intros Hall. eapply Forall2_impl; [exact Hall|]. intros old y. by apply retired_mono.
  - intros i s1 s2 w Hm (old & Ho & Hw). exists old. split; [done|]. by eapply added_for_mono.
Qed.

Lemma keeps_of_predecessor s v w : versions_sound s → v ∈ rule_versions (rules s) → w ∈ rule_versions (rules s) →
  rv_predecessor w = Some (rv_id v) → carried w → keeps_rule v w.
Proof using Type.
  intros Hs Hv Hw Hp Hc. destruct (vs_descends _ Hs w _ Hw Hp Hc) as (u & Hu & Hid & Hk).
  by rewrite <- (NoDup_map_inj rv_id _ u v (vs_ids _ Hs) Hu Hv Hid).
Qed.
Definition cites_clause s o v : Prop :=
  v ∈ rule_versions (rules s) ∧ rb_clause_id (rv_body v) = Some (kl_id o) ∧ rv_lifecycle_state v = ACTIVE.
(** [w] carries [v]'s rule on, retired, or proposed again under the clause [n]. *)
Definition retires s v w : Prop :=
  w ∈ rule_versions (rules s) ∧ rv_predecessor w = Some (rv_id v) ∧ rv_lifecycle_state w = DEPRECATED ∧ keeps_rule v w.
Definition proposes_again s v w : Prop :=
  ∃ d, retires s v d ∧ w ∈ rule_versions (rules s) ∧ rv_predecessor w = Some (rv_id d) ∧
    rv_lifecycle_state w = PROPOSED ∧ keeps_rule v w.

(** C22: when [retireAmendedRules] commits, every ACTIVE rule that cites a clause the
    amendment drops or rewords has a DEPRECATED successor with the same rule, and,
    if the clause is reworded, a PROPOSED version of the same rule behind it; no
    version is changed or removed, and each version added is one of those, the
    proposed ones citing the new wording. *)
Theorem amended_rules_are_retired amendments clientId am s xs s' : versions_sound s →
  (∀ v, v ∈ rule_versions (rules s) → pg_uuid (rv_id v) = rv_id v) →
  retireAmendedRules amendments clientId am s = Ok (xs, s') →
  versions_sound s' ∧ ∃ a old new, a ∈ amendments ∧ am_supersedes a = Some old ∧ am_new a = Some new ∧
    uuid_is (am_id a) am = true ∧ uuid_is (am_account a) clientId = true ∧
    (∀ o change replacing v, touched s old new o change replacing → cites_clause s o v →
       (∃ d, retires s' v d) ∧ (change = CHANGED → ∃ w, proposes_again s' v w)) ∧
    extended s s' (λ w, ∃ o change replacing v, touched s old new o change replacing ∧ cites_clause s o v ∧
       (retires s' v w ∨ change = CHANGED ∧ proposes_again s' v w ∧ rb_clause_id (rv_body w) = (kl_id <$> replacing))).
Proof using Type.
  intros Hs Hcanon (impacts & xss & Ha & -> & Hs' & Hall & Hadd)%retire_inv; [|done].
  apply analyze_inv in Ha as (_ & a & old & new & Hin & Hid & Hacc & Ho & Hn & ->). split; [done|].
  assert (∀ v d, v ∈ rule_versions (rules s) → deprecates s' (rv_id v) d → retires s' v d) as Hret.
  { intros v d Hv (Hd & Hp & Hst). rewrite Hcanon in Hp by done. split_and!; try done.
    apply (keeps_of_predecessor s'); try done; [by eapply extended_mono|by left]. }
  assert (∀ v d w, v ∈ rule_versions (rules s) → deprecates s' (rv_id v) d → replaces_for s' d w → proposes_again s' v w) as Hprop.
  { intros v d w Hv Hd (Hw & Hp & Hst). apply Hret in Hd; [|done]. exists d. split_and!; try done.
    eapply keeps_rule_trans; [apply Hd|]. apply (keeps_of_predecessor s'); try done; [apply Hd|by right]. }
  exists a, old, new. split_and!; try done.
  - intros o change replacing v Ht (Hv & Hcl & Hst).
    assert (impact_on s o change replacing ∈ omap (impact_of s) (compared_clauses old new s)) as Hi
      by (apply elem_of_impacts; by exists o, change, replacing).
    apply list_elem_of_lookup in Hi as [k Hk]. destruct (Forall2_lookup_l _ _ _ _ _ Hall Hk) as (ys & _ & Hys).
    assert (rv_id v ∈ citing_versions (kl_id o) s) as Hc by (apply elem_of_citing; by exists v).
    apply list_elem_of_lookup in Hc as [j Hj]. destruct (Forall2_lookup_l _ _ _ _ _ Hys Hj) as (y & _ & _ & d & Hd & _ & Hr).
    split; [exists d; auto|]. intros ->. destruct Ht as (_ & _ & Ht). destruct replacing as [n|]; [|done]. cbn in Hr.
    destruct Hr as (w & Hw & _). exists w. by eapply Hprop.
  - destruct Hadd as (added & Hv & Horigin). exists added. split; [done|]. intros w Hw.
    destruct (Horigin w Hw) as (i & Hi & id & Hid' & Hcase). apply elem_of_impacts in Hi as (o & change & replacing & Ht & ->).
    cbn in Hid', Hcase. apply elem_of_citing in Hid' as (v & Hvin & <- & Hcl & Hst). exists o, change, replacing, v.
    split; [done|]. split; [by split_and!|]. destruct Hcase as [Hd|(Hc & Hclause & d & Hd & Hr)]; [left; auto|right].
    split; [done|]. split; [by eapply Hprop|done].
Qed.
End amendments.

(** ** An amendment that rewords one clause and adds one *)

Section witnesses.
#[local] Existing Instances demo_collation Tx.demo_uuid.
Definition demo_amendments : list contract_amendment :=
  [mkAmendment (demo_id 16) (demo_id 1) (Some (demo_id 4)) (Some (demo_id 14))].
Definition reworded : contract_clause :=
  mkContractClause (demo_id 5) (demo_id 1) (demo_id 4) "4.2" (Some "Fuel is included in the linehaul rate.").
Definition rewording : contract_clause := mkContractClause (demo_id 15) (demo_id 1) (demo_id 14) "4.2" (Some "Fuel is billed apart.").
Definition amended : proposal_db :=
  mkProposalDb (documents firm) (verified_versions firm)
    (contract_clauses firm ++
      [rewording;
       mkContractClause (demo_id 17) (demo_id 1) (demo_id 14) "9" (Some "Detention is billed after two hours.")])
    (proposals firm) (proposal_clauses firm) (backtests firm) (backtest_cases firm) (acceptances firm) (ratifications firm)
    (rule_slugs firm) (governed firm) (governed_promotions firm) (rules firm) (ids_used firm).
#[local] Abbreviation run_retire := (retireAmendedRules demo_amendments (demo_id 1) (demo_id 16) amended).
Definition after_retirement : proposal_db := Eval vm_compute in left run_retire.
Definition transitions : list AmendedRuleTransition := Eval vm_compute in match run_retire with Ok (x, _) => x | Err _ => [] end.

(** One rule is retired and proposed again; the new clause "9" is not reported. *)
Example retirement_of_one_rule : length transitions = 1%nat ∧
  map (λ v, (rv_lifecycle_state v, rb_clause_id (rv_body v))) (rule_versions (rules after_retirement)) =
    [(SHADOW, Some (demo_id 5)); (ACTIVE, Some (demo_id 5)); (DEPRECATED, Some (demo_id 5)); (PROPOSED, Some (demo_id 15))] ∧
  (λ r : list ClauseImpact * proposal_db, map (λ i, (im_clauseReference i, im_change i)) r.1) <$>
    analyzeAmendmentImpact demo_amendments (demo_id 1) (demo_id 16) amended = Ok [("4.2", CHANGED)].
Proof. split; [|split]; vm_compute; reflexivity. Qed.

Lemma amended_rules_are_retired_witness : ∃ v w, cites_clause amended reworded v ∧ proposes_again after_retirement v w.
Proof.
  assert (Hs : versions_sound amended).
  { split; [apply (bool_decide_unpack _); vm_compute; reflexivity|]. intros v p Hv _ Hc. exfalso.
    assert (Hf : Forall (λ v, rv_lifecycle_state v ≠ DEPRECATED ∧ rv_lifecycle_state v ≠ PROPOSED) (rule_versions (rules amended)))
      by (apply (bool_decide_unpack _); vm_compute; reflexivity).
    destruct (proj1 (Forall_forall _ _) Hf v Hv) as [Hd Hp]. destruct Hc; contradiction. }
  assert (Hcanon : ∀ v, v ∈ rule_versions (rules amended) → pg_uuid (rv_id v) = rv_id v).
  { apply (proj1 (Forall_forall (λ v, pg_uuid (rv_id v) = rv_id v) _)), (bool_decide_unpack _). vm_compute. reflexivity. }
  assert (Hrun : run_retire = Ok (transitions, after_retirement)) by (vm_compute; reflexivity).
  destruct (amended_rules_are_retired _ _ _ _ _ _ Hs Hcanon Hrun) as (_ & a & old & new & Hin & Hold & Hnew & _ & _ & Hall & _).
  apply list_elem_of_singleton in Hin as ->. injection Hold as <-. injection Hnew as <-.
  destruct (rule_versions (rules amended)) as [|v1 [|v2 [|]]] eqn:Hv; try discriminate Hv.
  injection Hv as _ Hv2.
  assert (Hc : cites_clause amended reworded v2).
  { rewrite <- Hv2. split; [right; left|]. split; reflexivity. }
  destruct (Hall reworded CHANGED (Some rewording) v2)
    as [_ Hw]; [|exact Hc|].
  - split; [left|]. split; [reflexivity|]. split; [right; left|]. split; [reflexivity|]. split; [reflexivity|discriminate].
  - destruct (Hw eq_refl) as [w Hp]. exists v2, w. split; [exact Hc|exact Hp].
Defined.
End witnesses.
