(* ===== verification/RuleHistory.v ===== *)
(** The history of the rule versions, over every writer of the table: the rule
    handlers (Lifecycle.v), the proposal handlers (ProposalLifecycle.v), the
    retirement of amended rules (Amendments.v), the acceptance of a discovery
    proposal ([src/src/modules/discovery/accept-discovery-rule-proposal.ts]) and the
    seeding of the hand-authored rules ([src/scripts/seed-criteria.mjs]).  Where an
    ACTIVE rule can come from. *)

From S2P Require Import Prelude JsText Decimal Json Interpreter AstJson Store AuditLedger Lifecycle GoldenCorpus Rubrics Jsonb JsDate Database Tx Manifest Proposals ProposalsSafety ProposalLifecycle ProposalLifecycleSafety Amendments.

(** ** Seeding ([seed-criteria.mjs]) *)

Definition RULE_TYPE_BY_CRITERION_KEY : list (string * RuleType) :=
  map (λ k, (k, STRUCTURAL))
    ["STD.FOOTING"; "STD.CURRENCY_STATED"; "STD.AMOUNT_STATED"; "STD.HAS_CHARGES"; "STD.210.INVOICE_NUMBER_REQUIRED";
     "STD.210.SHIPMENT_ID_REQUIRED"; "STD.210.SCAC_REQUIRED"; "STD.310.INVOICE_NUMBER_REQUIRED"; "STD.310.REFERENCE_REQUIRED";
     "STD.310.CONTAINER_REQUIRED"; "STD.310.VESSEL_VOYAGE_REQUIRED"; "STD.310.PORTS_REQUIRED"] ++
  [("STD.310.CHARGE_IDENTITY_REQUIRED", INTRA_LINE); ("STD.310.CURRENCY_CODE_VALID", INTRA_LINE);
   ("STD.NO_QUARANTINED_CODES", INTRA_LINE); ("STD.FUEL_PRESENT", INTRA_LINE); ("STD.DUPLICATE_INVOICE", CROSS_DOCUMENT);
   ("STD.SHIPMENT_REFERENCE_MATCH", CROSS_DOCUMENT); ("STD.RATE_BASIS_ARITHMETIC", INTRA_LINE);
   ("STD.310.CURRENCY_CONSISTENCY", INTRA_LINE); ("STD.SUSPICIOUS_MISSING_DATA", INTRA_LINE);
   ("CONTRACT.RATE_VARIANCE", CONTRACT_CONFORMANCE)].
Definition ruleTypeFor (criterionKey : string) : option RuleType := map_get RULE_TYPE_BY_CRITERION_KEY criterionKey.
(** The [Map] of both rubrics' criteria, by key, in order of first appearance. *)
Definition seeded_criteria : list StandardCriterion :=
  map snd (map_of (map (λ c, (criterionKey c, c)) (Rubrics.criteria STANDARD_RUBRIC ++ Rubrics.criteria CONTRACT_RUBRIC))).
Definition rule_slug (criterionKey : string) : string :=
  string_map (λ c, if bool_decide (c = "."%char) then "-"%char else c) (to_lower criterionKey).

Section seeding.
Context {H : Sha256} {U : UuidSource}.
Definition astHash (n : AstNode) : string := hex (sha256 (stableStringify (ast_json n))).

Definition seed_body (today ruleId : string) (c : StandardCriterion) : rule_body :=
  {| rb_rule_id := ruleId; rb_hardness := "FIRM_RULE"; rb_ast := ast c; rb_ast_hash := astHash (ast c);
     rb_expected_inputs := JArray [];
     rb_emits := JString (if bool_decide (criterionKey c = "CONTRACT.RATE_VARIANCE") then "DOLLAR_VARIANCE" else "PASS_FAIL");
     rb_provenance := JObject []; rb_clause_id := None; rb_valid_from := Some today; rb_valid_to := None |}.
(** The rule and its version, for one criterion. *)
Definition seed_rule (today : string) (c : StandardCriterion) : ptx unit :=
  t ← pthe (ruleTypeFor (criterionKey c)) (ConstraintError "no rule_type mapping");
  rule ← upsert_rule (rule_slug (criterionKey c)) t;
  versions ← pquery (λ s, rule_versions (rules s));
  if existsb (λ v, bool_decide (rb_rule_id (rv_body v) = rule.1) && bool_decide (rb_ast_hash (rv_body v) = astHash (ast c))) versions
  then mret tt
  else
    id ← new_id (λ s, map rv_id (rule_versions (rules s)));
    pmodify (λ s, set_rules (set_rule_versions (λ t, t ++ [{| rv_id := id; rv_body := seed_body today rule.1 c;
      rv_lifecycle_state := ACTIVE; rv_predecessor := None |}]) (rules s)) s).
Definition seedCriteria (today : string) : ptx (list unit) := pfor (seed_rule today) seeded_criteria.
End seeding.

(** ** Accepting a discovery proposal *)

(** The version it inserts. *)
Definition discovery_shadow (id : string) (b : rule_body) : rule_version :=
  {| rv_id := id; rv_body := {| rb_rule_id := rb_rule_id b; rb_hardness := "AI_DOCS"; rb_ast := rb_ast b;
       rb_ast_hash := rb_ast_hash b; rb_expected_inputs := rb_expected_inputs b; rb_emits := JString "PASS_FAIL";
       rb_provenance := rb_provenance b; rb_clause_id := None; rb_valid_from := rb_valid_from b; rb_valid_to := None |};
     rv_lifecycle_state := SHADOW; rv_predecessor := None |}.
Definition add_version (v : rule_version) (s : proposal_db) : proposal_db :=
  set_rules (set_rule_versions (λ t, t ++ [v]) (rules s)) s.

(** ** Where a version comes from *)

Section history.
Context {D : DecimalJs} {C : Collator} {T : DbCollation} {H : Sha256} {U : UuidSource} {W : Zod}.
Implicit Types (s : proposal_db) (v u : rule_version) (g : governance).

(** A version of a hand-authored criterion. *)
Definition seeded v : Prop :=
  rv_predecessor v = None ∧ rb_hardness (rv_body v) = "FIRM_RULE" ∧ rb_provenance (rv_body v) = JObject [] ∧
  ∃ c, c ∈ seeded_criteria ∧ rb_ast (rv_body v) = ast c ∧ rb_ast_hash (rv_body v) = astHash (ast c).
(** One of the ways a version gets into the table. *)
Definition origin s v : Prop :=
  (rv_lifecycle_state v = ACTIVE ∧ seeded v) ∨
  (rv_lifecycle_state v = SHADOW ∧ rv_predecessor v = None ∧ rb_hardness (rv_body v) = "AI_DOCS") ∨
  (∃ g, g ∈ governed s ∧ gv_version g = rv_id v) ∨
  (∃ u, derived (rules s) u v) ∨
  (rv_lifecycle_state v = PROPOSED ∧ ∃ u, u ∈ rule_versions (rules s) ∧ rv_predecessor v = Some (rv_id u) ∧
     rv_lifecycle_state u = DEPRECATED ∧ keeps_rule u v).
Record accounted s : Prop := {
  ac_governance : governance_sound s;
  ac_events : events_sound (rules s);
  ac_origin : ∀ v, v ∈ rule_versions (rules s) → origin s v;
}.

Lemma origin_mono s s' v : (∀ v, v ∈ rule_versions (rules s) → v ∈ rule_versions (rules s')) →
  (∀ e, e ∈ promotion_events (rules s) → e ∈ promotion_events (rules s')) →
  (∀ g, g ∈ governed s → g ∈ governed s') → origin s v → origin s' v.
Proof using Type.
  intros Hv He Hg [Ho|[Ho|[(g & Hin & Hid)|[(u & Hd)|(Hst & u & Hu & Hr)]]]].
  - by left.
  - right. by left.
  - right. right. left. exists g. split; [by apply Hg|done].
  - right. right. right. left. exists u. by eapply derived_mono.
  - right. right. right. right. split; [done|]. exists u. split; [by apply Hv|done].
Qed.

(** What the proposal handlers do to the versions: what they add has a governance
    row. *)
Record governs s s' : Prop := {
  go_versions v : v ∈ rule_versions (rules s) → v ∈ rule_versions (rules s');
  go_events : promotion_events (rules s') = promotion_events (rules s);
  go_governed g : g ∈ governed s → g ∈ governed s';
  go_new v : v ∈ rule_versions (rules s') → v ∈ rule_versions (rules s) ∨ ∃ g, g ∈ governed s' ∧ gv_version g = rv_id v;
}.
Lemma governs_same s s' : rule_versions (rules s') = rule_versions (rules s) →
  promotion_events (rules s') = promotion_events (rules s) → governed s' = governed s → governs s s'.
Proof using Type. intros Hv He Hg. split; rewrite ?Hv, ?He, ?Hg; auto. Qed.
Lemma governs_trans s1 s2 s3 : governs s1 s2 → governs s2 s3 → governs s1 s3.
Proof using Type.
  intros [V1 E1 G1 N1] [V2 E2 G2 N2]. split; [auto|congruence|auto|]. intros v Hv.
  destruct (N2 v Hv) as [Hv2|?]; [|by right]. destruct (N1 v Hv2) as [?|(g & Hg & Hid)]; [by left|right]. exists g. auto.
Qed.
Lemma add_governed_governs v g s : gv_version g = rv_id v → governs s (add_governed v g s).
Proof using Type.
  intros Hg. split; cbn; set_solver.
Qed.
Lemma governs_accounted s s' : governs s s' → governance_sound s' → accounted s → accounted s'.
Proof using Type.
  intros [V E G N] Hs [_ He Ho]. split; [done|unfold events_sound; by rewrite E|]. intros v Hv.
  destruct (N v Hv) as [Hold|Hg]; [|right; right; by left]. eapply origin_mono; [exact V| |exact G|by apply Ho]. by rewrite E.
Qed.

Ltac new_id_inv :=
  repeat match goal with
  | Hn : new_id _ _ = Ok _ |- _ => let Hid := fresh "Hid" in apply new_id_Ok in Hn as [Hid Hn]; simplify_eq
  end.
Ltac unchanged := (eapply governs_trans; [eassumption|]); apply governs_same; reflexivity.

Lemma pemit_governs i s x s' : pemit i s = Ok (x, s') → governs s s'.
Proof using Type. intros [log [= -> ->]]%pemit_Ok. by apply governs_same. Qed.
Lemma link_clause_governs row s x s' : link_clause row s = Ok (x, s') → governs s s'.
Proof using Type. unfold link_clause. intros Hl. ptx_inv. case_match; ptx_inv; by apply governs_same. Qed.
Lemma persist_criterion_governs clientId versionId actor r vv clauses c s x s' :
  persist_criterion clientId versionId actor r vv clauses c s = Ok (x, s') → governs s s'.
Proof using Type.
  unfold persist_criterion. intros Hp. ptx_inv. new_id_inv.
  match goal with Hl : pfor _ _ ?s1 = Ok _ |- _ => assert (governs s s1) as Hs1 by (case_match; ptx_inv; by apply governs_same) end.
  eapply (pfor_inv (governs s)); [|exact Hs1|eassumption]. cbn. intros y s1 z s2 _ Hg Hl.
  eapply governs_trans; [exact Hg|]. by eapply link_clause_governs.
Qed.
Lemma persist_governs clientId versionId actor r s x s' :
  persistContractRuleProposals clientId versionId actor r s = Ok (x, s') → governs s s'.
Proof using Type.
  unfold persistContractRuleProposals. intros Hp. ptx_inv.
  match goal with He : pemit _ _ = Ok _ |- _ => apply pemit_governs in He end. eapply governs_trans; [|eassumption].
  eapply (pfor_inv (governs s)); [|by apply (governs_same s s)|eassumption]. intros c s1 z s2 _ Hg Hc.
  eapply governs_trans; [exact Hg|]. by eapply persist_criterion_governs.
Qed.
Lemma backtest_proposal_governs clientId actor supplied p s x s' :
  backtest_proposal clientId actor supplied p s = Ok (x, s') → governs s s'.
Proof using Type.
  unfold backtest_proposal. intros Hb. ptx_inv. new_id_inv.
  destruct (evaluateProposalCorpus _ _ _) as [es|]; ptx_inv.
  match goal with Hl : pfor _ _ ?s1 = Ok _ |- _ => assert (governs s s1) as Hs1 by (case_match; ptx_inv; by apply governs_same) end.
  eapply (pfor_inv (governs s)); [|exact Hs1|eassumption]. cbn. intros y s1 z s2 _ Hg Hst.
  eapply governs_trans; [exact Hg|]. unfold store_case in Hst. ptx_inv. case_match; ptx_inv; by apply governs_same.
Qed.
Lemma backtest_governs clientId versionId actor corpora s x s' :
  backtestContractRuleProposals clientId versionId actor corpora s = Ok (x, s') → governs s s'.
Proof using Type.
  unfold backtestContractRuleProposals. intros Hb. ptx_inv.
  match goal with He : pemit _ _ = Ok _ |- _ => apply pemit_governs in He end. eapply governs_trans; [|eassumption].
  eapply (pfor_inv (governs s)); [|by apply (governs_same s s)|eassumption]. cbn. intros c s1 z s2 _ Hg Hc. ptx_inv.
  eapply governs_trans; [exact Hg|]. by eapply backtest_proposal_governs.
Qed.
Lemma upsert_rule_same slug t s x s' : upsert_rule slug t s = Ok (x, s') → governs s s' ∧
  rule_versions (rules s') = rule_versions (rules s) ∧ governed s' = governed s ∧
  proposals s' = proposals s ∧ backtests s' = backtests s ∧ acceptances s' = acceptances s.
Proof using Type.
  unfold upsert_rule. intros Hu. ptx_inv. destruct (select_one _ _) as [[i ?]|]; ptx_inv; new_id_inv; split_and!; try done;
    by apply governs_same.
Qed.
Lemma shadow_version_governs today ruleId prov p b s x s' : shadow_version today ruleId prov p b s = Ok (x, s') → governs s s'.
Proof using Type.
  unfold shadow_version. intros Hv. ptx_inv. new_id_inv. case_match; ptx_inv; [by apply governs_same|].
  eapply governs_trans; [by apply (governs_same s (use_id s))|]. by apply add_governed_governs.
Qed.
Lemma accept_governs today clientId proposalId backtestId actor why s x s' :
  acceptContractRuleProposal today clientId proposalId backtestId actor why s = Ok (x, s') → governs s s'.
Proof using Type.
  unfold acceptContractRuleProposal. intros Ha. ptx_inv.
  match goal with He : pemit _ _ = Ok _ |- _ => apply pemit_governs in He end. eapply governs_trans; [|eassumption].
  match goal with Hu : upsert_rule _ _ _ = Ok _ |- _ => apply upsert_rule_same in Hu as [Hu _] end.
  match goal with Hv : shadow_version _ _ _ _ _ _ = Ok _ |- _ => apply shadow_version_governs in Hv end.
  new_id_inv. (eapply governs_trans; [eassumption|]). (eapply governs_trans; [eassumption|]).
  case_match; ptx_inv; by apply governs_same.
Qed.
Lemma active_version_governs a v actor why s x s' : active_version a v actor why s = Ok (x, s') → governs s s'.
Proof using Type.
  unfold active_version. intros Hv. ptx_inv. new_id_inv. case_match; ptx_inv; [by apply governs_same|].
  eapply governs_trans; [by apply (governs_same s (use_id s))|]. by apply add_governed_governs.
Qed.
Lemma record_promotion_governs activeId bt why s x s' : record_promotion activeId bt why s = Ok (x, s') → governs s s'.
Proof using Type. unfold record_promotion. intros Hp. ptx_inv. case_match; ptx_inv; by apply governs_same. Qed.
Lemma ratify_governs clientId acceptanceId actor why s x s' :
  ratifyContractRuleProposal clientId acceptanceId actor why s = Ok (x, s') → governs s s'.
Proof using Type.
  unfold ratifyContractRuleProposal. intros Hr. ptx_inv.
  match goal with He : pemit _ _ = Ok _ |- _ => apply pemit_governs in He end. eapply governs_trans; [|eassumption].
  match goal with Hv : active_version _ _ _ _ _ = Ok _ |- _ => apply active_version_governs in Hv end.
  match goal with Hp : record_promotion _ _ _ _ = Ok _ |- _ => apply record_promotion_governs in Hp end.
  new_id_inv. (eapply governs_trans; [eassumption|]). (eapply governs_trans; [eassumption|]).
  case_match; ptx_inv; by apply governs_same.
Qed.

(** *** The other writers *)

Lemma same_accounted s s' : rule_versions (rules s') = rule_versions (rules s) →
  promotion_events (rules s') = promotion_events (rules s) → governed s' = governed s →
  governance_sound s' → accounted s → accounted s'.
Proof using Type. intros Hv He Hg. apply governs_accounted. by apply governs_same. Qed.
Lemma use_id_accounted s : accounted s → accounted (use_id s).
Proof using Type. intros Ha. apply (same_accounted s); try done. apply use_id_sound, Ha. Qed.
(** A version added by itself. *)
Lemma add_version_accounted v s : rv_id v ∉ map rv_id (rule_versions (rules s)) → origin (add_version v s) v →
  accounted s → accounted (add_version v s).
Proof using Type.
  intros Hf Ho [Hs He Hv]. split; [|done|].
  - apply (sound_grows s); try apply Hs; try done; [split; cbn; set_solver|]. cbn. rewrite map_app. apply NoDup_app.
    split; [apply Hs|]. split; [|apply NoDup_singleton]. by intros y Hy ->%list_elem_of_singleton.
  - cbn. intros w [Hw|Hw]%elem_of_app; [|by apply list_elem_of_singleton in Hw as ->].
    apply (origin_mono s); [cbn; set_solver|done|done|by apply Hv].
Qed.
Lemma growth_accounted s d : rule_growth (rules s) d → NoDup (map rv_id (rule_versions d)) →
  accounted s → accounted (set_rules d s).
Proof using Type.
  intros [V E S N] Hnd [Hs He Ho]. split.
  - apply (sound_grows s); try apply Hs; try done.
  - by apply S.
  - cbn. intros v Hv. destruct (N He v Hv) as [Hold|[u Hd]].
    + apply (origin_mono s); cbn; auto.
    + right. right. right. left. by exists u.
Qed.
Lemma rule_step_accounted s d : rule_step (rules s) d → accounted s → accounted (set_rules d s).
Proof using Type.
  intros Hr Ha. apply growth_accounted; [by apply rule_step_growth| |done].
  apply rule_step_ids in Hr as (added & _ & Hnd). apply Hnd, Ha.
Qed.

(** *** Retirement *)

Lemma transition_accounted input s r s' : transition input s = Ok (r, s') → accounted s →
  accounted s' ∧ ∃ d, d ∈ rule_versions (rules s') ∧ rv_id d = r.1 ∧ rv_lifecycle_state d = ti_to input.
Proof using Type.
  intros Ht Ha. unfold transition in Ht. apply ptx_bind_Ok in Ht as (id & s1 & Hid & Ht).
  apply new_id_Ok in Hid as [Hfresh [= -> ->]]. unfold transition_with in Ht.
  destruct (transitionRuleLifecycle _ _ _) as [[r' d]|] eqn:Et; [|done]. injection Ht as -> <-. split.
  - change (accounted (set_rules d (use_id s))). apply growth_accounted; [by eapply transition_growth| |by apply use_id_accounted].
    destruct (transition_ids _ _ _ _ _ Hfresh Et) as (added & _ & Hnd). apply Hnd, Ha.
  - destruct input as [old to why dual bt], r as [n created].
    apply transition_inv in Et as (cur & next & e & _ & _ & Hn & Hsucc & _ & Hold & Hvs & _).
    apply successor_of_true in Hsucc as [_ Hst]. exists next. split; [|done].
    cbn [rules set_rules set_governed]. rewrite Hvs. destruct created; [set_solver|]. rewrite app_nil_r. by apply Hold.
Qed.
Lemma replacement_accounted am clause d s r s' : replacement am clause (rv_id d) s = Ok (r, s') →
  d ∈ rule_versions (rules s) → rv_lifecycle_state d = DEPRECATED → accounted s → accounted s'.
Proof using Type.
  intros Hr Hd Hst Ha. unfold replacement in Hr. ptx_inv. new_id_inv. apply use_id_accounted in Ha.
  destruct (select_one (replaces (rv_id d)) _) as [x|]; [by ptx_inv|].
  pose proof (select_one_unique rv_id (rule_versions (rules s)) d (gs_versions _ (ac_governance _ Ha)) Hd) as Hsel.
  cbn in Hr. rewrite Hsel in Hr. ptx_inv. apply (add_version_accounted _ (use_id s)); [done| |done].
  right. right. right. right. split; [done|]. exists d. split; [cbn; apply elem_of_app; by left|].
  split; [done|]. split; [done|]. by unfold keeps_rule.
Qed.
Lemma retire_rule_accounted am impact old s x s' : retire_rule am impact old s = Ok (x, s') → accounted s → accounted s'.
Proof using Type.
  intros Hr Ha. unfold retire_rule in Hr. ptx_inv.
  match goal with Ht : transition _ s = Ok _ |- _ => apply transition_accounted in Ht as (Ha1 & d & Hd & Hid & Hst); [|done] end.
  destruct (im_change impact); [by ptx_inv|by ptx_inv|]. destruct (im_newClauseId impact) as [clause|]; ptx_inv; [|done].
  match goal with Hr : replacement _ _ _ _ = Ok _ |- _ => rewrite <- Hid in Hr; by apply replacement_accounted in Hr end.
Qed.
Lemma retire_accounted amendments clientId am s xs s' : retireAmendedRules amendments clientId am s = Ok (xs, s') →
  accounted s → accounted s'.
Proof using Type.
  intros Hr Ha. unfold retireAmendedRules in Hr. ptx_inv.
  match goal with Han : analyzeAmendmentImpact _ _ _ s = Ok (_, ?s1) |- _ => pose proof (analyze_inv _ _ _ _ _ _ Han) as [-> _] end.
  eapply (pfor_inv accounted); [|exact Ha|eassumption]. intros i s1 ys s2 _ H1 Hl.
  eapply (pfor_inv accounted); [|exact H1|exact Hl]. intros old s3 y s4 _ H3. intros Hr. by eapply retire_rule_accounted.
Qed.

(** *** Seeding *)

Lemma seed_rule_accounted today c s x s' : seed_rule today c s = Ok (x, s') → c ∈ seeded_criteria →
  accounted s → accounted s'.
Proof using Type.
  intros Hs Hc Ha. unfold seed_rule in Hs. ptx_inv.
  match goal with Hu : upsert_rule _ _ _ = Ok _ |- _ => pose proof Hu as Hsound; apply upsert_rule_same in Hu as [Hg _] end.
  apply upsert_rule_sound in Hsound as [Hsound _]; [|apply Ha].
  pose proof (governs_accounted _ _ Hg Hsound Ha) as Ha1. case_match; ptx_inv; [done|]. new_id_inv.
  apply use_id_accounted in Ha1. apply (add_version_accounted _ (use_id _)); [done| |done].
  left. split; [done|]. split; [done|]. split; [done|]. split; [done|]. exists c. by split_and!.
Qed.
Lemma seed_accounted today s x s' : seedCriteria today s = Ok (x, s') → accounted s → accounted s'.
Proof using Type.
  intros Hs Ha. eapply (pfor_inv accounted); [|exact Ha|exact Hs]. intros c s1 y s2 Hc H1 Hr. by eapply seed_rule_accounted.
Qed.

(** ** Histories *)

(** One committed transaction.  The discovery tables are not modelled: accepting a
    discovery proposal may insert any SHADOW version of the shape it writes.
    Whatever else the program commits writes neither rule versions nor promotion
    events nor proposals, backtests and acceptances. *)
Inductive history_step : proposal_db → proposal_db → Prop :=
  | history_proposal s s' : proposal_step s s' → history_step s s'
  | history_retire amendments clientId am s xs s' :
      retireAmendedRules amendments clientId am s = Ok (xs, s') → history_step s s'
  | history_seed today c s x s' : c ∈ seeded_criteria → seed_rule today c s = Ok (x, s') → history_step s s'
  | history_discovery id b s : id ∉ map rv_id (rule_versions (rules s)) →
      history_step s (add_version (discovery_shadow id b) s)
  | history_elsewhere s s' : rule_versions (rules s') = rule_versions (rules s) →
      promotion_events (rules s') = promotion_events (rules s) → governed s' = governed s →
      proposals s' = proposals s → backtests s' = backtests s → acceptances s' = acceptances s → history_step s s'.

Lemma history_step_accounted s s' : history_step s s' → accounted s → accounted s'.
Proof using Type.
  destruct 1 as [s s' Hp|a cl am s xs s' Hr|today c s x s' Hc Hs|id b s Hf|s s' Hv He Hg Hp Hb Ha]; intros Hacc.
  - pose proof (proposal_step_sound _ _ Hp (ac_governance _ Hacc)) as Hs.
    destruct Hp as [cl v ac r s x s' Hp|cl v ac co s x s' Hp|t cl p b ac w s x s' Hp|cl a ac w s x s' Hp|s d Hp].
    + eapply governs_accounted; [by eapply persist_governs|done..].
    + eapply governs_accounted; [by eapply backtest_governs|done..].
    + eapply governs_accounted; [by eapply accept_governs|done..].
    + eapply governs_accounted; [by eapply ratify_governs|done..].
    + by apply rule_step_accounted.
  - by eapply retire_accounted.
  - by eapply seed_rule_accounted.
  - apply add_version_accounted; [done| |done]. right. left. done.
  - apply (same_accounted s); try done. apply (sound_grows s); try done; [|rewrite Hv|rewrite Hp|apply Hacc]; try apply Hacc.
    split; by rewrite ?Hv, ?Hp, ?Hb, ?Ha.
Qed.

Lemma proposal_history s s' : rtc proposal_step s s' → rtc history_step s s'.
Proof using Type. induction 1 as [|s1 s2 s3 Hs _ IH]; [done|]. eapply rtc_l; [by apply history_proposal|done]. Qed.

(** A database before the first rule. *)
Definition no_rules_yet s : Prop :=
  rule_versions (rules s) = [] ∧ promotion_events (rules s) = [] ∧ proposals s = [] ∧ backtests s = [] ∧ governed s = [].
Lemma no_rules_accounted s : no_rules_yet s → accounted s.
Proof using Type.
  intros (Hv & He & Hp & Hb & Hg). split.
  - apply ungoverned_sound. split_and!; try done. rewrite Hv. constructor.
  - unfold events_sound. rewrite He. set_solver.
  - rewrite Hv. set_solver.
Qed.

(** A promotion with evidence, from SHADOW. *)
Definition promoted s v : Prop :=
  ∃ u e, u ∈ rule_versions (rules s) ∧ rv_predecessor v = Some (rv_id u) ∧ rv_lifecycle_state u = SHADOW ∧
    rv_body v = rv_body u ∧ e ∈ promotion_events (rules s) ∧ pe_rule_version_id e = rv_id v ∧
    pe_from e = SHADOW ∧ pe_to e = ACTIVE ∧ (is_Some (pe_dual_control e) ∨ is_Some (pe_backtest e)).
(** A ratification of a proposal that passed a corpus. *)
Definition ratified s v : Prop :=
  ∃ g p b cases, g ∈ governed s ∧ gv_version g = rv_id v ∧ p ∈ proposals s ∧ rp_id p = gv_proposal g ∧
    b ∈ backtests s ∧ pt_id b = gv_backtest g ∧ pt_proposal b = rp_id p ∧ tried_on b p cases ∧ passes p cases ∧
    firm_of s g v p.

(** C7: where an ACTIVE rule comes from. From a database without rules, over any
    sequence of the transactions that write rule versions (life-cycle transitions,
    dual-control activations and quarantines; the persisting, backtest, acceptance
    and ratification of contract proposals; the retirement of amended rules; the
    acceptance of discovery proposals; the seeding of the hand-authored criteria)
    among transactions that write none of the tables of rules and proposals,
    versions have distinct identifiers and every ACTIVE version has one of three
    origins: it is a seeded version of a criterion of the
    hand-authored rubrics; or it was derived, with its content unchanged, from a
    SHADOW version by a recorded promotion that names a dual-control analyst or a
    backtest; or it is the firm version a human ratified, with a reason, from the
    SHADOW version an acceptance made of a proposal that passed a corpus. *)
Theorem active_only_with_evidence s0 s v : no_rules_yet s0 → rtc history_step s0 s →
  v ∈ rule_versions (rules s) → rv_lifecycle_state v = ACTIVE →
  NoDup (map rv_id (rule_versions (rules s))) ∧ (seeded v ∨ promoted s v ∨ ratified s v).
Proof using Type.
  intros H0 Hr Hv Hst. assert (accounted s) as [Hs He Ho].
  { apply no_rules_accounted in H0. induction Hr as [|s1 s2 s3 Hstep _ IH]; [done|]. apply IH; [|done..]. by eapply history_step_accounted. }
  split; [apply Hs|].
  destruct (Ho v Hv) as [[_ Hsd]|[(Hsh & _)|[(g & Hg & Hid)|[(u & Hu & Hp & Hal & Hb & e & Hin & He1 & He2 & He3 & He4)|(Hpr & _)]]]];
    try congruence; [by left| |].
  - right. right. destruct (gs_governed _ Hs g Hg) as (v' & p & b & Hv' & Hvid & Hp & Hpid & Hbin & Hbid & Hbp & Hpass & Hcase).
    destruct (gs_backtests _ Hs b Hbin Hpass) as (p' & Hp' & Hpid' & cases & Htried & Hcases).
    assert (p' = p) as -> by (eapply (NoDup_map_inj rp_id); [apply Hs|done..|congruence]).
    assert (v' = v) as -> by (eapply (NoDup_map_inj rv_id); [apply Hs|done..|congruence]).
    destruct Hcase as [(Hsh & _)|Hfirm]; [congruence|]. by exists g, p, b, cases.
  - right. left. rewrite Hst in Hal, He3. assert (rv_lifecycle_state u = SHADOW) as Hsh by (destruct (rv_lifecycle_state u); set_solver).
    exists u, e. rewrite Hsh in He2. split_and!; try done. unfold promotion_event_check in He4. rewrite He3 in He4.
    apply orb_true_iff in He4 as [[He4|He4]%orb_true_iff|He4]; rewrite ?bool_decide_eq_true in He4; [done|by right|by left].
Qed.
End history.

(** ** A ratified rule and the seeded ones *)

(** Every seeded criterion has a rule type. *)
Lemma every_criterion_typed : forallb (λ c, bool_decide (is_Some (ruleTypeFor (criterionKey c)))) seeded_criteria = true.
Proof. vm_compute. reflexivity. Qed.

Section witnesses.
#[local] Existing Instances demo_collation ExactDecimal.ops code_unit_collator demo_unicode demo_sha Tx.demo_uuid demo_zod.

(** Seeding a new database makes one ACTIVE version of each of the 22 criteria;
    seeding it again changes nothing but the identifiers drawn. *)
#[local] Abbreviation run_seed := (seedCriteria "2026-01-01" start).
Definition seeded_db : proposal_db := Eval vm_compute in left run_seed.
Example seeding_once :
  map rv_lifecycle_state (rule_versions (rules seeded_db)) = repeat ACTIVE 22 ∧
  rule_versions (rules (left (seedCriteria "2026-01-02" seeded_db))) = rule_versions (rules seeded_db).
Proof. split; vm_compute; reflexivity. Qed.

Lemma active_only_with_evidence_witness : ∃ v, v ∈ rule_versions (rules firm) ∧ rv_lifecycle_state v = ACTIVE ∧
  (seeded v ∨ promoted firm v ∨ ratified firm v).
Proof.
  assert (no_rules_yet start) as H0 by (split_and!; reflexivity).
  assert (rtc history_step start firm) as Hr.
  { apply proposal_history. exact demo_way. }
  destruct (rule_versions (rules firm)) as [|v1 [|v2 [|]]] eqn:Hv; try discriminate Hv.
  assert (v2 ∈ rule_versions (rules firm)) as Hin by (rewrite Hv; right; left).
  assert (rv_lifecycle_state v2 = ACTIVE) as Hst by (injection Hv as _ <-; reflexivity).
  destruct (active_only_with_evidence start firm v2 H0 Hr Hin Hst) as [_ Ho].
  exists v2. split; [right; left|]. split; [exact Hst|exact Ho].
Defined.
End witnesses.
