(* ===== verification/RateTable.v ===== *)
(** Rate tables read from contracts ([src/src/modules/contracts/]): fragments of a
    table on consecutive pages are joined_run ([reassemble-multipage-tables.ts]) and
    the result is checked, without repairing it, for its geometry, its values and
    one monotonic sequence of brackets ([validate-rate-table.ts]). *)

From S2P Require Import Prelude JsText Decimal Proposals Resolver.

(** [s.normalize('NFC')], and [d.negated()], which keeps every digit. *)
Class UnicodeNFC := nfc : string → string.
Class DecimalNegation {D : DecimalJs} := d_negated : dec → dec.
Class DecimalNegationLaws {D : DecimalJs} (N : DecimalNegation) : Prop :=
  law_negated a : d_isFinite a = true → d_isFinite (d_negated a) = true.

(** ** Provider tables *)

Record region := mkRegion { rg_pageNumber : Z; rg_polygon : option (list js_number) }.
Record azure_cell := mkAzureCell {
  az_rowIndex : Z; az_columnIndex : Z; az_rowSpan : option Z; az_columnSpan : option Z;
  az_content : string; az_kind : option string; az_boundingRegions : option (list region);
}.
Record azure_table := mkAzureTable {
  at_rowCount : Z; at_columnCount : Z; at_cells : list azure_cell; at_boundingRegions : option (list region);
}.

(** [z.number().int()]: a safe integer. *)
Definition z_int (z : Z) : bool := Z.abs z <=? 2 ^ 53 - 1.
Definition z_nonnegative (z : Z) : bool := z_int z && (0 <=? z).
Definition z_positive (z : Z) : bool := z_int z && (0 <? z).
Definition opt_all {A} (p : A → bool) (o : option A) : bool := match o with Some a => p a | None => true end.
Definition regions_ok : option (list region) → bool := opt_all (forallb (λ r, z_positive (rg_pageNumber r))).
Definition cellSchema (c : azure_cell) : bool :=
  z_nonnegative (az_rowIndex c) && z_nonnegative (az_columnIndex c) && opt_all z_positive (az_rowSpan c) &&
  opt_all z_positive (az_columnSpan c) && regions_ok (az_boundingRegions c).
Definition tableSchema (t : azure_table) : bool :=
  z_positive (at_rowCount t) && z_positive (at_columnCount t) && forallb cellSchema (at_cells t) &&
  regions_ok (at_boundingRegions t).
Definition AzureLayoutTablesSchema : list azure_table → bool := forallb tableSchema.

(** ** Reassembly *)

Record cell_source := mkSource {
  cs_tableIndex : nat; cs_pageNumber : Z; cs_rowIndex : Z; cs_columnIndex : Z; cs_boundingRegions : list region;
}.
Record ReassembledCell := mkCell {
  rc_rowIndex : Z; rc_columnIndex : Z; rc_rowSpan : Z; rc_columnSpan : Z; rc_content : string; rc_source : cell_source;
}.
Record ReassembledTable := mkTable {
  rt_columnCount : Z; rt_rowCount : Z; rt_headerSignature : string; rt_sourceTableIndexes : list nat;
  rt_pageNumbers : list Z; rt_cells : list ReassembledCell;
}.
Record fragment := mkFragment {
  fr_table : azure_table; fr_tableIndex : nat; fr_pageNumber : option Z; fr_headerSignature : string;
}.

(** [s.replace(/\s+/g, ' ')] *)
Fixpoint collapse_ws (in_ws : bool) (s : string) : string :=
  match s with
  | "" => ""
  | String c s' =>
      if is_ws c then if in_ws then collapse_ws true s' else String " " (collapse_ws true s')
      else String c (collapse_ws false s')
  end.
Definition region_pages (o : option (list region)) : list Z := map rg_pageNumber (default [] o).
Definition pages (t : azure_table) : list Z :=
  set_of (region_pages (at_boundingRegions t) ++ concat (map (region_pages ∘ az_boundingRegions) (at_cells t))).
Definition singlePage (t : azure_table) : option Z := match pages t with [p] => Some p | _ => None end.
Definition headerRowIndexes (t : azure_table) : list Z :=
  match set_of (map az_rowIndex (List.filter (λ c, bool_decide (az_kind c = Some "columnHeader")) (at_cells t))) with
  | [] => [0] | explicit => explicit
  end.
(** [Math.max(...l)] of a list that is not empty. *)
Definition Math_max (l : list Z) : Z := match l with [] => 0 | x :: l' => fold_left Z.max l' x end.
Definition firstDataRow (t : azure_table) : Z :=
  match headerRowIndexes t with [] => 0 | rows => Math_max rows + 1 end.

Section reassembly.
Context {U : Unicode} {C : UnicodeNFC}.

Definition header_text (c : azure_cell) : string :=
  nat_text (az_columnIndex c) "" +:+ ":" +:+ to_lower (collapse_ws false (trim (nfkc (az_content c)))).
Definition headerSignature (t : azure_table) : string :=
  join "|" (map header_text (js_sort (cmp_then (cmp_on az_rowIndex Z.compare) (cmp_on az_columnIndex Z.compare))
    (List.filter (λ c, bool_decide (az_rowIndex c ∈ headerRowIndexes t)) (at_cells t)))).
Definition normalizeCell (c : azure_cell) (tableIndex : nat) (pageNumber : option Z) (rowIndex : Z) : ReassembledCell :=
  mkCell rowIndex (az_columnIndex c) (default 1 (az_rowSpan c)) (default 1 (az_columnSpan c)) (nfc (az_content c))
    (mkSource tableIndex (match pageNumber, az_boundingRegions c with
                          | Some p, _ => p | None, Some (r :: _) => rg_pageNumber r | None, _ => 0 end)
      (az_rowIndex c) (az_columnIndex c) (default [] (az_boundingRegions c))).
Definition buildTable (f : fragment) : ReassembledTable :=
  let t := fr_table f in
  mkTable (at_columnCount t) (at_rowCount t) (fr_headerSignature f) [fr_tableIndex f]
    (match fr_pageNumber f with None => [] | Some p => [p] end)
    (map (λ c, normalizeCell c (fr_tableIndex f) (fr_pageNumber f) (az_rowIndex c)) (at_cells t)).
(** [prior.pageNumbers.at(-1)! + 1 === fragment.pageNumber]: no page is [NaN]. *)
Definition canJoin (prior : ReassembledTable) (f : fragment) : bool :=
  match fr_pageNumber f with
  | None => false
  | Some p =>
      bool_decide (last (rt_pageNumbers prior) = Some (p - 1)) &&
      bool_decide (rt_columnCount prior = at_columnCount (fr_table f)) &&
      negb (bool_decide (rt_headerSignature prior = "")) && bool_decide (rt_headerSignature prior = fr_headerSignature f)
  end.
Definition data_cells (t : azure_table) : list azure_cell :=
  List.filter (λ c, negb (az_rowIndex c <? firstDataRow t)) (at_cells t).
Definition join_fragment (prior : ReassembledTable) (f : fragment) : ReassembledTable :=
  let t := fr_table f in
  let rowOffset := rt_rowCount prior - firstDataRow t in
  mkTable (rt_columnCount prior) (rt_rowCount prior + (at_rowCount t - firstDataRow t)) (rt_headerSignature prior)
    (rt_sourceTableIndexes prior ++ [fr_tableIndex f]) (rt_pageNumbers prior ++ option_list (fr_pageNumber f))
    (rt_cells prior ++ map (λ c, normalizeCell c (fr_tableIndex f) (fr_pageNumber f) (az_rowIndex c + rowOffset)) (data_cells t)).
(** One round of the loop; the last table of the output is updated in place. *)
Definition add_fragment (output : list ReassembledTable) (f : fragment) : list ReassembledTable :=
  match last output with
  | Some prior => if canJoin prior f then removelast output ++ [join_fragment prior f] else output ++ [buildTable f]
  | None => output ++ [buildTable f]
  end.
Definition MAX_SAFE_INTEGER : Z := 2 ^ 53 - 1.
Definition fragment_order : fragment → fragment → comparison :=
  cmp_then (cmp_on (default MAX_SAFE_INTEGER ∘ fr_pageNumber) Z.compare) (cmp_on (Z.of_nat ∘ fr_tableIndex) Z.compare).
Definition fragments (tables : list azure_table) : list fragment :=
  js_sort fragment_order (imap (λ i t, mkFragment t i (singlePage t) (headerSignature t)) tables).
(** [None]: the schema throws. *)
Definition reassembleMultipageTables (tables : list azure_table) : option (list ReassembledTable) :=
  if AzureLayoutTablesSchema tables then Some (fold_left add_fragment (fragments tables) []) else None.
End reassembly.

(** ** Validation *)

Definition sourceSchema (s : cell_source) : bool :=
  z_positive (cs_pageNumber s) && z_nonnegative (cs_rowIndex s) && z_nonnegative (cs_columnIndex s).
Definition reassembledCellSchema (c : ReassembledCell) : bool :=
  z_nonnegative (rc_rowIndex c) && z_nonnegative (rc_columnIndex c) && z_positive (rc_rowSpan c) &&
  z_positive (rc_columnSpan c) && sourceSchema (rc_source c).
Definition reassembledTableSchema (t : ReassembledTable) : bool :=
  z_positive (rt_columnCount t) && z_positive (rt_rowCount t) && negb (bool_decide (rt_sourceTableIndexes t = [])) &&
  forallb z_positive (rt_pageNumbers t) && forallb reassembledCellSchema (rt_cells t).

Inductive BracketOrientation : Set := ROW_BRACKETS | COLUMN_BRACKETS.
Inductive TableValidationCode : Set :=
  | CELL_OUT_OF_BOUNDS | OVERLAPPING_CELLS | EMPTY_VALUE | INVALID_NUMERIC_VALUE
  | BRACKETS_NOT_FOUND | AMBIGUOUS_ORIENTATION | NON_MONOTONIC_BRACKETS.
Record cell_ref := mkRef { rf_rowIndex : Z; rf_columnIndex : Z; rf_source : cell_source }.
Record TableValidationIssue := mkTableIssue { ti_code : TableValidationCode; ti_message : string; ti_cells : list cell_ref }.
Definition ref_of (c : ReassembledCell) : cell_ref := mkRef (rc_rowIndex c) (rc_columnIndex c) (rc_source c).

(** [[$€£¥,%\s]]; the euro sign is not a Latin-1 unit. *)
Definition is_money_mark (c : ascii) : bool :=
  bool_decide (c = "$"%char) || bool_decide (code c = 163%N) || bool_decide (code c = 165%N).
Definition in_numeric_class (c : ascii) : bool :=
  is_ws c || is_money_mark c || is_digit c || bool_decide (c ∈ ["("; ")"; "+"; "-"; "."; ","; "%"]%char).
Fixpoint string_any (p : ascii → bool) (s : string) : bool :=
  match s with "" => false | String c s' => p c || string_any p s' end.
Definition looksNumeric (value : string) : bool := string_any is_digit value && string_all in_numeric_class value.

(** The text between the parentheses of [/^\(.*\)$/]; a dot matches no line end. *)
Fixpoint before_paren (s : string) : option string :=
  match s with
  | "" => None
  | String c s' =>
      if bool_decide (c = ")"%char) && bool_decide (s' = "") then Some ""
      else if bool_decide (code c = 10%N) || bool_decide (code c = 13%N) then None
      else String c <$> before_paren s'
  end.
Definition parenthesized (s : string) : option string :=
  match s with String c s' => if bool_decide (c = "("%char) then before_paren s' else None | "" => None end.
(** Digits with at most one dot among them and at least one digit. *)
Fixpoint plain_digits (seen_digit seen_dot : bool) (s : string) : bool :=
  match s with
  | "" => seen_digit
  | String c s' =>
      if is_digit c then plain_digits true seen_dot s'
      else if bool_decide (c = "."%char) && negb seen_dot then plain_digits seen_digit true s' else false
  end.
Definition is_numeric_text (s : string) : bool :=
  match s with
  | String c s' => if bool_decide (c = "+"%char) || bool_decide (c = "-"%char) then plain_digits false false s' else plain_digits false false s
  | "" => false
  end.

Section validation.
Context {D : DecimalJs} {N : DecimalNotation} {G : DecimalNegation} {U : Unicode}.

Definition parseDecimal (value : string) : option dec :=
  let trimmed := trim (nfkc value) in
  let normalized := keep_chars (λ c, negb (is_money_mark c || is_ws c || bool_decide (c ∈ [","; "%"]%char)))
    (default trimmed (parenthesized trimmed)) in
  if is_numeric_text normalized then
    parsed ← new_Decimal normalized;
    if d_isFinite parsed then Some (match parenthesized trimmed with Some _ => d_negated parsed | None => parsed end) else None
  else None.
Definition is_decimal (c : ReassembledCell) : bool := match parseDecimal (rc_content c) with Some _ => true | None => false end.

Record Candidate := mkCandidate {
  cd_orientation : BracketOrientation; cd_axisIndex : Z; cd_cells : list ReassembledCell; cd_values : list dec; cd_headerScore : Z;
}.
Record ValidatedRateTable := mkValidated {
  vt_valid : bool; vt_orientation : option BracketOrientation;  (** [None]: AMBIGUOUS *)
  vt_bracketAxisIndex : option Z; vt_bracketValues : list string; vt_issues : list TableValidationIssue; vt_table : ReassembledTable;
}.

(** [(^|\W)term(\W|$)] in the header. *)
Definition is_word (c : ascii) : bool := is_digit c || is_lower c || is_upper c || bool_decide (c = "_"%char).
Fixpoint word_here (term s : string) : bool :=
  match term, s with
  | "", "" => true
  | "", String c _ => negb (is_word c)
  | String a t, String c s' => bool_decide (a = c) && word_here t s'
  | String _ _, "" => false
  end.
Fixpoint has_word (at_start : bool) (term s : string) : bool :=
  at_start && word_here term s ||
  match s with "" => false | String c s' => has_word (negb (is_word c)) term s' end.
Definition bracket_terms : list string :=
  ["bracket"; "weight"; "distance"; "mile"; "zone"; "quantity"; "minimum"; "maximum"; "min"; "max"; "from"; "to"].
Definition bracketHeaderScore (cells : list ReassembledCell) : Z :=
  let header := match List.find (negb ∘ is_decimal) cells with Some c => to_lower (nfkc (rc_content c)) | None => "" end in
  fold_left (λ score term, score + (if has_word true term header then 1 else 0)) bracket_terms 0.
Definition axisCells (cells : list ReassembledCell) (key : ReassembledCell → Z) (index : Z) (order : ReassembledCell → Z) :
    list ReassembledCell :=
  js_sort (cmp_on order Z.compare)
    (List.filter (λ c, (key c =? index) && (rc_rowSpan c =? 1) && (rc_columnSpan c =? 1)) cells).
Definition numericRun (cells : list ReassembledCell) : option (list ReassembledCell * list dec) :=
  let parsed := omap (λ c, (c,.) <$> parseDecimal (rc_content c)) cells in
  if (length parsed <? 2)%nat then None else Some (parsed.*1, parsed.*2).
Definition axis_candidate (orientation : BracketOrientation) (axisIndex : Z) (cells : list ReassembledCell) : option Candidate :=
  '(run, values) ← numericRun cells; Some (mkCandidate orientation axisIndex run values (bracketHeaderScore cells)).
Definition bracketCandidates (t : ReassembledTable) : list Candidate :=
  omap (λ column, axis_candidate ROW_BRACKETS column (axisCells (rt_cells t) rc_columnIndex column rc_rowIndex)) (seqZ 0 (rt_columnCount t)) ++
  omap (λ row, axis_candidate COLUMN_BRACKETS row (axisCells (rt_cells t) rc_rowIndex row rc_columnIndex)) (seqZ 0 (rt_rowCount t)).
Definition value_count (c : Candidate) : Z := Z.of_nat (length (cd_values c)).
Definition chooseCandidate (candidates : list Candidate) : option Candidate :=
  match candidates with
  | [] => None
  | _ =>
      let maxHeaderScore := Math_max (map cd_headerScore candidates) in
      let semantic := if maxHeaderScore >? 0
        then List.filter (λ c, cd_headerScore c =? maxHeaderScore) candidates else candidates in
      let maxLength := Math_max (map value_count semantic) in
      match List.filter (λ c, value_count c =? maxLength) semantic with [c] => Some c | _ => None end
  end.
(** [Math.sign(value.cmp(previous)) === Math.sign(direction)] for each value; [NaN]
    equals nothing. *)
Fixpoint same_direction (direction : option comparison) (previous : dec) (values : list dec) : bool :=
  match values with
  | [] => true
  | v :: values =>
      match d_cmp v previous with Some s => bool_decide (direction = Some s) | None => false end && same_direction direction v values
  end.
Definition strictlyMonotonic (values : list dec) : bool :=
  match values with
  | v0 :: v1 :: _ =>
      let direction := d_cmp v1 v0 in
      negb (bool_decide (direction = Some Eq)) && same_direction direction v0 (tail values)
  | _ => false
  end.

(** The coordinates a cell spans, row by row. *)
Definition coordinates (c : ReassembledCell) : list (Z * Z) :=
  row ← seqZ (rc_rowIndex c) (rc_rowSpan c); column ← seqZ (rc_columnIndex c) (rc_columnSpan c); [(row, column)].
Definition overlap (key : Z * Z) (prior c : ReassembledCell) : TableValidationIssue :=
  mkTableIssue OVERLAPPING_CELLS
    ("Multiple source cells occupy row " +:+ nat_text key.1 "" +:+ ", column " +:+ nat_text key.2 "") (map ref_of [prior; c]).
Definition occupy (c : ReassembledCell) (st : list TableValidationIssue * list (Z * Z * ReassembledCell)) (key : Z * Z) :
    list TableValidationIssue * list (Z * Z * ReassembledCell) :=
  match map_get st.2 key with
  | Some prior => (st.1 ++ [overlap key prior c], st.2)
  | None => (st.1, map_set st.2 key c)
  end.
Definition out_of_bounds (t : ReassembledTable) (c : ReassembledCell) : bool :=
  (rc_rowIndex c + rc_rowSpan c >? rt_rowCount t) || (rc_columnIndex c + rc_columnSpan c >? rt_columnCount t).
Definition is_blank (c : ReassembledCell) : bool := negb (truthy (trim (rc_content c))).
Definition bad_number (c : ReassembledCell) : bool := looksNumeric (rc_content c) && negb (is_decimal c).
Definition scan_cell (t : ReassembledTable) (st : list TableValidationIssue * list (Z * Z * ReassembledCell)) (c : ReassembledCell) :
    list TableValidationIssue * list (Z * Z * ReassembledCell) :=
  if out_of_bounds t c then
    (st.1 ++ [mkTableIssue CELL_OUT_OF_BOUNDS "Cell span exceeds the declared table bounds" [ref_of c]], st.2)
  else
    let issues := st.1 ++ (if is_blank c then [mkTableIssue EMPTY_VALUE "Extracted cell value is empty" [ref_of c]] else [])
      ++ (if bad_number c then [mkTableIssue INVALID_NUMERIC_VALUE
            ("Numeric-looking value is not an exact finite decimal: " +:+ rc_content c) [ref_of c]] else []) in
    fold_left (occupy c) (coordinates c) (issues, st.2).
Definition bracket_issues (candidates : list Candidate) (selected : option Candidate) : list TableValidationIssue :=
  match selected with
  | None =>
      let refs := concat (map (map ref_of ∘ cd_cells) candidates) in
      match candidates with
      | [] => [mkTableIssue BRACKETS_NOT_FOUND "No cited numeric bracket sequence was found" refs]
      | _ => [mkTableIssue AMBIGUOUS_ORIENTATION "Both row- and column-oriented bracket sequences are plausible" refs]
      end
  | Some c =>
      if strictlyMonotonic (cd_values c) then []
      else [mkTableIssue NON_MONOTONIC_BRACKETS "Bracket thresholds must be strictly monotonic without duplicates or reversals"
              (map ref_of (cd_cells c))]
  end.
(** [None]: the schema throws. *)
Definition validateRateTable (t : ReassembledTable) : option ValidatedRateTable :=
  if reassembledTableSchema t then
    let candidates := bracketCandidates t in
    let selected := chooseCandidate candidates in
    let issues := (fold_left (scan_cell t) (rt_cells t) ([], [])).1 ++ bracket_issues candidates selected in
    Some (mkValidated (match issues with [] => true | _ => false end) (cd_orientation <$> selected) (cd_axisIndex <$> selected)
      (match selected with Some c => map d_toNormal (cd_values c) | None => [] end) issues t)
  else None.
Definition reassembleAndValidateRateTables {C : UnicodeNFC} (tables : list azure_table) : option (list ValidatedRateTable) :=
  reassembled ← reassembleMultipageTables tables; mapM validateRateTable reassembled.
End validation.
