(* ===== verification/RateTableSafety.v ===== *)
(** What the rate-table readers guarantee: a table is valid exactly when its cells
    fit the grid without sharing a square, its values are readable and one strictly
    monotonic bracket sequence stands out; joining the fragments of a table keeps
    every cell but the repeated headers, and keeps the grid. *)

From Stdlib Require Import QArith Lqa.
From S2P Require Import Prelude JsText Decimal Proposals ProposalsSafety Resolver ResolverSafety RateTable.

(** ** The grid *)

(** A cell lies over a square. *)
Definition covers (c : ReassembledCell) (k : Z * Z) : Prop :=
  rc_rowIndex c <= k.1 < rc_rowIndex c + rc_rowSpan c ∧ rc_columnIndex c <= k.2 < rc_columnIndex c + rc_columnSpan c.
Definition within_grid (rows columns : Z) (c : ReassembledCell) : Prop :=
  rc_rowIndex c + rc_rowSpan c <= rows ∧ rc_columnIndex c + rc_columnSpan c <= columns.
Definition no_overlap (cells : list ReassembledCell) : Prop :=
  ∀ i j c d k, cells !! i = Some c → cells !! j = Some d → covers c k → covers d k → i = j.
Definition sound_grid (t : ReassembledTable) : Prop :=
  Forall (within_grid (rt_rowCount t) (rt_columnCount t)) (rt_cells t) ∧ no_overlap (rt_cells t).

Lemma elem_of_coordinates c k : k ∈ coordinates c ↔ covers c k.
Proof.
  unfold coordinates, covers. destruct k as [r m]. rewrite list_elem_of_bind. cbn. split.
  - intros (r' & (m' & [= -> ->]%list_elem_of_singleton & Hm)%list_elem_of_bind & Hr).
    apply elem_of_seqZ in Hm, Hr. lia.
  - intros [Hr Hm]. exists r. split; [|apply elem_of_seqZ; lia]. apply list_elem_of_bind. exists m.
    split; [by apply list_elem_of_singleton|apply elem_of_seqZ; lia].
Qed.
Lemma NoDup_coordinates c : NoDup (coordinates c).
Proof.
  unfold coordinates. apply NoDup_bind; [| |apply NoDup_seqZ].
  - intros x1 x2 y _ _ (m1 & ->%list_elem_of_singleton & _)%list_elem_of_bind
      (m2 & Heq%list_elem_of_singleton & _)%list_elem_of_bind. by injection Heq as <- _.
  - intros x _. apply NoDup_bind; [| |apply NoDup_seqZ]; [|intros; apply NoDup_singleton].
    intros x1 x2 y _ _ ->%list_elem_of_singleton Heq%list_elem_of_singleton. by injection Heq as <-.
Qed.
Lemma elem_of_squares cells k : k ∈ concat (map coordinates cells) ↔ ∃ i c, cells !! i = Some c ∧ covers c k.
Proof.
  rewrite list_elem_of_In, in_concat. split.
  - intros (l & (c & <- & Hc)%in_map_iff & Hk). apply list_elem_of_In in Hc, Hk. apply elem_of_coordinates in Hk.
    apply list_elem_of_lookup in Hc as [i Hi]. eauto.
  - intros (i & c & Hi & Hk). exists (coordinates c). apply elem_of_coordinates in Hk. split; [|by apply list_elem_of_In].
    apply in_map, list_elem_of_In. by eapply list_elem_of_lookup_2.
Qed.
Lemma no_overlap_NoDup cells : no_overlap cells ↔ NoDup (concat (map coordinates cells)).
Proof.
  induction cells as [|c cells IH]; [split; [constructor|done]|]. cbn [map concat]. rewrite NoDup_app, <- IH. split.
  - intros Hn. split; [apply NoDup_coordinates|]. split.
    + intros k Hk (i & d & Hi & Hd)%elem_of_squares. apply elem_of_coordinates in Hk.
      by pose proof (Hn 0%nat (S i) c d k eq_refl Hi Hk Hd).
    + intros i j d e k Hi Hj Hd He. by injection (Hn (S i) (S j) d e k Hi Hj Hd He).
  - intros (_ & Hc & Hn) [|i] [|j] d e k Hi Hj Hd He; [done| | |]; cbn in Hi, Hj.
    + injection Hi as <-. exfalso. apply (Hc k); [by apply elem_of_coordinates|]. apply elem_of_squares. eauto.
    + injection Hj as <-. exfalso. apply (Hc k); [by apply elem_of_coordinates|]. apply elem_of_squares. eauto.
    + f_equal. eauto.
Qed.

(** ** The scan of the cells *)

Section scan.
Context {D : DecimalJs} {G : DecimalNegation} {U : Unicode}.
Implicit Types (issues : list TableValidationIssue) (occupied : list (Z * Z * ReassembledCell)).

Lemma occupy_all c keys : NoDup keys → ∀ issues occupied, ∃ new,
  (fold_left (occupy c) keys (issues, occupied)).1 = issues ++ new ∧
  (∀ k, k ∈ (fold_left (occupy c) keys (issues, occupied)).2.*1 ↔ k ∈ occupied.*1 ∨ k ∈ keys) ∧
  (new = [] ↔ ∀ k, k ∈ keys → k ∉ occupied.*1).
Proof using Type.
  induction 1 as [|k keys Hk Hnd IH]; intros issues occupied.
  { exists []. cbn. rewrite app_nil_r. split; [done|]. split; set_solver. }
  cbn [fold_left]. unfold occupy at 2 4. cbn [fst snd]. destruct (map_get occupied k) as [prior|] eqn:Hget.
  - destruct (IH (issues ++ [overlap k prior c]) occupied) as (new & He & Hd & _). exists (overlap k prior c :: new).
    rewrite He, <- app_assoc. split; [done|]. split; [intros k'; rewrite Hd|].
    + apply map_get_elem in Hget. apply (list_elem_of_fmap_2 fst) in Hget. cbn in Hget. set_solver.
    + split; [done|]. intros Hfree. exfalso. apply (Hfree k); [set_solver|]. apply map_get_elem in Hget.
      by apply (list_elem_of_fmap_2 fst) in Hget.
  - apply map_get_None in Hget. destruct (IH issues (map_set occupied k c)) as (new & He & Hd & Hn). exists new.
    split; [exact He|]. rewrite map_set_keys in Hn. rewrite decide_False in Hn by done. setoid_rewrite map_set_keys in Hd.
    rewrite decide_False in Hd by done. split; [intros k'; rewrite Hd; set_solver|].
    rewrite Hn. split; intros Hfree k'; specialize (Hfree k'); set_solver.
Qed.

(** A cell nothing is wrong with by itself. *)
Definition fine t c : bool := negb (out_of_bounds t c) && negb (is_blank c) && negb (bad_number c).
Lemma scan_all t cells : ∀ issues occupied, ∃ new,
  (fold_left (scan_cell t) cells (issues, occupied)).1 = issues ++ new ∧
  (new = [] ↔ Forall (λ c, fine t c = true) cells ∧ NoDup (concat (map coordinates cells)) ∧
    ∀ k, k ∈ concat (map coordinates cells) → k ∉ occupied.*1).
Proof using Type.
  induction cells as [|c cells IH]; intros issues occupied.
  { exists []. cbn. rewrite app_nil_r. split; [done|]. split; [|done]. intros _. split_and!; [done|constructor|set_solver]. }
  cbn [fold_left map concat]. unfold scan_cell at 2. cbn [fst snd]. setoid_rewrite Forall_cons. unfold fine at 1.
  destruct (out_of_bounds t c).
  { match goal with |- context [fold_left _ cells (issues ++ ?l, _)] => destruct (IH (issues ++ l) occupied) as (new & He & _);
      exists (l ++ new) end.
    rewrite He, <- app_assoc. split; [done|]. split; [done|]. by intros [[? _] _]. }
  match goal with |- context [fold_left (occupy c) _ (issues ++ ?a ++ ?b, _)] =>
    destruct (occupy_all c (coordinates c) (NoDup_coordinates c) (issues ++ a ++ b) occupied) as (mid & He1 & Hd1 & Hn1) end.
  destruct (fold_left (occupy c) _ _) as [issues1 occupied1]. cbn [fst snd] in *. subst issues1.
  match goal with |- context [fold_left _ cells (?l, occupied1)] => destruct (IH l occupied1) as (new & He2 & Hn2) end.
  eexists. split; [rewrite He2, <- !app_assoc; reflexivity|]. setoid_rewrite NoDup_app.
  destruct (is_blank c); [split; [done|]; by intros [[? _] _]|]. destruct (bad_number c); [split; [done|]; by intros [[? _] _]|].
  cbn. rewrite app_nil, Hn1, Hn2. pose proof (NoDup_coordinates c) as Hndc. clear IH He2 Hn1 Hn2. split.
  - intros (Hfree & Hf & Hnd & Hfree2). split; [done|]. split; [|intros k [Hk|Hk]%elem_of_app; [by apply Hfree|]].
    + split; [done|]. split; [|done]. intros k Hk Hk2. apply (Hfree2 k Hk2), Hd1. by right.
    + intros Ho. apply (Hfree2 k Hk), Hd1. by left.
  - intros ([_ Hf] & (_ & Hdis & Hnd) & Hfree). split; [intros k Hk; apply Hfree; set_solver|]. split; [done|]. split; [done|].
    intros k Hk [Ho|Ho]%Hd1; [apply (Hfree k); set_solver|by apply (Hdis k)].
Qed.
End scan.

(** ** The bracket sequence that stands out *)

Lemma filter_unique {A} (p : A → bool) (l : list A) c : List.filter p l = [c] ↔
  ∃ i, l !! i = Some c ∧ p c = true ∧ ∀ j d, l !! j = Some d → p d = true → j = i.
Proof.
  split.
  - intros Hf. assert (c ∈ List.filter p l) as Hc by (rewrite Hf; set_solver).
    apply list_elem_of_In, filter_In in Hc as [Hc Hp]. apply list_elem_of_In, list_elem_of_lookup in Hc as [i Hi].
    exists i. split; [done|]. split; [done|]. intros j d Hj Hd. destruct (decide (j = i)) as [|Hne]; [done|]. exfalso.
    assert (∀ l : list A, ∀ i j c d, l !! i = Some c → l !! j = Some d → i ≠ j → p c = true → p d = true →
      (2 ≤ length (List.filter p l))%nat) as Htwo; [|pose proof (Htwo l i j c d Hi Hj ltac:(done) Hp Hd) as H2; rewrite Hf in H2; cbn in H2; lia].
    clear. assert (∀ (l : list A) j d, l !! j = Some d → p d = true → (1 ≤ length (List.filter p l))%nat) as Hone.
    { intros l j d Hj Hd. apply list_elem_of_lookup_2, list_elem_of_In in Hj.
      assert (In d (List.filter p l)) as Hin by (by apply filter_In). destruct (List.filter p l); [done|cbn; lia]. }
    induction l as [|x l IH]; intros [|i] [|j] c d Hi Hj Hne Hc Hd; try done; cbn in *.
    + injection Hi as ->. rewrite Hc. cbn. pose proof (Hone l j d Hj Hd). lia.
    + injection Hj as ->. rewrite Hd. cbn. pose proof (Hone l i c Hi Hc). lia.
    + pose proof (IH i j c d Hi Hj ltac:(congruence) Hc Hd). destruct (p x); cbn; lia.
  - intros (i & Hi & Hp & Hu). revert l Hi Hu. induction i as [|i IH]; intros [|x l] Hi Hu; try done; cbn in Hi |- *.
    + injection Hi as ->. rewrite Hp. f_equal.
      destruct (List.filter p l) as [|d k] eqn:Hf; [done|]. exfalso.
      assert (In d (List.filter p l)) as Hd by (rewrite Hf; by left). apply filter_In in Hd as [Hd Hpd].
      apply list_elem_of_In, list_elem_of_lookup in Hd as [j Hj]. by specialize (Hu (S j) d Hj Hpd).
    + destruct (p x) eqn:Hx; [by specialize (Hu 0%nat x eq_refl Hx)|]. apply IH; [done|]. intros j d Hj Hd.
      by injection (Hu (S j) d Hj Hd).
Qed.
Lemma filter_both {A} (p q : A → bool) (l : list A) : List.filter q (List.filter p l) = List.filter (λ x, p x && q x) l.
Proof. induction l as [|x l IH]; [done|]. cbn. destruct (p x); cbn; [destruct (q x)|]; by rewrite IH. Qed.
Lemma Math_max_spec (l : list Z) : l ≠ [] → Math_max l ∈ l ∧ ∀ x, x ∈ l → x <= Math_max l.
Proof.
  destruct l as [|x l]; [done|]. intros _. cbn. revert x. induction l as [|y l IH]; intros x; cbn.
  - split; [set_solver|]. intros z ->%list_elem_of_singleton. lia.
  - destruct (IH (Z.max x y)) as [Hin Hle]. split.
    + apply elem_of_cons in Hin as [Heq|Hin]; [|set_solver]. rewrite Heq. destruct (Z.max_spec x y) as [[_ ->]|[_ ->]]; set_solver.
    + pose proof (Hle (Z.max x y) ltac:(set_solver)). intros z Hz. rewrite !elem_of_cons in Hz.
      destruct Hz as [-> | [-> | Hz]]; [lia|lia|]. apply Hle. set_solver.
Qed.
Lemma max_attained {A} (f : A → Z) (l : list A) : l ≠ [] →
  (∃ i a, l !! i = Some a ∧ f a = Math_max (map f l)) ∧ ∀ a, a ∈ l → f a <= Math_max (map f l).
Proof.
  intros Hl. destruct (Math_max_spec (map f l)) as [Hin Hle]; [by destruct l|]. split.
  - apply list_elem_of_fmap in Hin as (a & -> & [i Hi]%list_elem_of_lookup). eauto.
  - intros a Ha. apply Hle, list_elem_of_fmap. eauto.
Qed.

Section brackets.
Context {D : DecimalJs} {N : DecimalNotation} {G : DecimalNegation} {U : Unicode}.
Implicit Types (c d : Candidate).

(** No other candidate has as good a header, or as good a header and as many
    values. *)
Definition outranks c d : Prop := cd_headerScore d < cd_headerScore c ∨ cd_headerScore d = cd_headerScore c ∧ value_count d < value_count c.
Definition stands_out (candidates : list Candidate) (i : nat) c : Prop :=
  candidates !! i = Some c ∧ ∀ j d, candidates !! j = Some d → j ≠ i → outranks c d.
Lemma chooseCandidate_spec candidates c : (∀ d, d ∈ candidates → 0 <= cd_headerScore d) →
  chooseCandidate candidates = Some c ↔ ∃ i, stands_out candidates i c.
Proof using Type.
  intros H0. destruct (decide (candidates = [])) as [->|Hne]; [split; [done|]; by intros (i & ? & _)|].
  destruct (max_attained cd_headerScore candidates Hne) as [(i0 & a & Ha & Hmax) Hle].
  set (S := Math_max _) in *. set (semantic := List.filter (λ d, cd_headerScore d =? S) candidates).
  assert ((if S >? 0 then semantic else candidates) = semantic) as Hs.
  { destruct (S >? 0) eqn:Hpos; [done|]. unfold semantic. symmetry. apply forallb_filter_id, forallb_forall. intros d Hd%list_elem_of_In.
    pose proof (Hle d Hd). pose proof (H0 d Hd). lia. }
  assert (∀ d, d ∈ semantic ↔ d ∈ candidates ∧ cd_headerScore d = S) as Hsem.
  { intros d. unfold semantic. rewrite !list_elem_of_In, filter_In. by rewrite Z.eqb_eq. }
  assert (semantic ≠ []) as Hne2.
  { apply list_elem_of_lookup_2 in Ha. intros He. specialize (Hsem a). rewrite He in Hsem. set_solver. }
  destruct (max_attained value_count semantic Hne2) as [(k & b & Hb & HL) Hle2]. set (L := Math_max (map value_count semantic)) in *.
  assert (chooseCandidate candidates = match List.filter (λ d, value_count d =? L) semantic with [d] => Some d | _ => None end) as ->.
  { unfold L. rewrite <- Hs. unfold semantic, S. clear. by destruct candidates. }
  trans (List.filter (λ d, value_count d =? L) semantic = [c]); [destruct (List.filter _ semantic) as [|? [|]]; split; congruence|].
  unfold semantic. rewrite filter_both, filter_unique. unfold stands_out. apply exist_proper. intros i. split.
  - intros (Hi & Hp & Hu). split; [done|]. apply andb_true_iff in Hp as [Hp1 Hp2]. intros j d Hj Hji.
    pose proof (list_elem_of_lookup_2 _ _ _ Hj) as Hd. pose proof (Hle d Hd). unfold outranks.
    destruct (decide (cd_headerScore d = S)) as [He|]; [right|left; lia]. split; [lia|].
    assert (value_count d <= L) by (apply Hle2, Hsem; done). destruct (decide (value_count d = L)); [|lia].
    exfalso. apply Hji. apply (Hu j d Hj). lia.
  - intros (Hi & Hbest). assert (c ∈ candidates) as Hc by (by eapply list_elem_of_lookup_2). split; [done|].
    assert (cd_headerScore c = S) as HcS.
    { pose proof (Hle c Hc). destruct (decide (i0 = i)) as [->|Hni]; [congruence|]. destruct (Hbest i0 a Ha Hni); lia. }
    assert (value_count c = L) as HcL.
    { apply list_elem_of_lookup_2, Hsem in Hb as [[j Hj]%list_elem_of_lookup HbS].
      assert (value_count c <= L) by (apply Hle2, Hsem; done).
      destruct (decide (j = i)) as [->|Hji]; [congruence|]. destruct (Hbest j b Hj Hji); lia. }
    split; [lia|]. intros j d Hj [Hd1 Hd2]%andb_true_iff. destruct (decide (j = i)) as [|Hji]; [done|].
    destruct (Hbest j d Hj Hji); lia.
Qed.
Lemma fold_score_nonneg (f : string → Z) terms : (∀ term, 0 <= f term) → ∀ score, 0 <= score →
  0 <= fold_left (λ score term, score + f term) terms score.
Proof using Type.
  intros Hf. induction terms as [|term terms IH]; intros score Hs; [done|]. cbn. apply IH. pose proof (Hf term). lia.
Qed.
Lemma header_score_nonneg cells : 0 <= bracketHeaderScore cells.
Proof using Type. apply (fold_score_nonneg (λ term, if has_word _ term _ then 1 else 0)); [|done]. intros term. by destruct (has_word _ _ _). Qed.

(** A candidate reads one row or column: the decimals of its single squares. *)
Definition on_axis (t : ReassembledTable) c (cell : ReassembledCell) : Prop :=
  cell ∈ rt_cells t ∧ rc_rowSpan cell = 1 ∧ rc_columnSpan cell = 1 ∧
  match cd_orientation c with ROW_BRACKETS => rc_columnIndex cell | COLUMN_BRACKETS => rc_rowIndex cell end = cd_axisIndex c.
Definition reads_axis t c : Prop :=
  Forall2 (λ cell v, on_axis t c cell ∧ parseDecimal (rc_content cell) = Some v) (cd_cells c) (cd_values c) ∧
  (2 ≤ length (cd_values c))%nat ∧ 0 <= cd_headerScore c.
Lemma numericRun_reads (P : ReassembledCell → Prop) cells run values : numericRun cells = Some (run, values) →
  (∀ cell, cell ∈ cells → P cell) →
  Forall2 (λ cell v, P cell ∧ parseDecimal (rc_content cell) = Some v) run values ∧ (2 ≤ length values)%nat.
Proof using Type.
  unfold numericRun. destruct (_ <? 2)%nat eqn:Hlen; [done|]. intros [= <- <-] HP. apply Nat.ltb_ge in Hlen. rewrite length_fmap.
  split; [|done]. clear Hlen. induction cells as [|cell cells IH]; [constructor|]. cbn.
  destruct (parseDecimal (rc_content cell)) as [v|] eqn:Hv; cbn; [constructor; [split; [apply HP; set_solver|done]|]|];
    apply IH; intros ? ?; apply HP; set_solver.
Qed.
Lemma elem_of_axisCells cells key index order cell : cell ∈ axisCells cells key index order ↔
  cell ∈ cells ∧ key cell = index ∧ rc_rowSpan cell = 1 ∧ rc_columnSpan cell = 1.
Proof using Type.
  unfold axisCells. rewrite elem_of_js_sort, !list_elem_of_In, filter_In, !andb_true_iff, !Z.eqb_eq. tauto.
Qed.
Lemma candidates_read t c : c ∈ bracketCandidates t → reads_axis t c.
Proof using Type.
  unfold bracketCandidates, axis_candidate, reads_axis. intros [(index & _ & Hc)%list_elem_of_omap|(index & _ & Hc)%list_elem_of_omap]%elem_of_app;
    apply bind_Some in Hc as ([run values] & Hrun & [= <-]);
    cbn [cd_cells cd_values cd_headerScore];
    match goal with |- Forall2 (λ cell v, on_axis t ?c cell ∧ _) _ _ ∧ _ =>
      destruct (numericRun_reads (on_axis t c) _ _ _ Hrun) as [? ?]; [|split_and!; [done..|apply header_score_nonneg]] end;
    intros cell (? & ? & ? & ?)%elem_of_axisCells; by split_and!.
Qed.
End brackets.

(** ** Monotonic brackets, and the whole verdict *)

Section verdict.
Context {D : DecimalJs} {L : DecimalLaws D} {N : DecimalNotation} {G : DecimalNegation} {GL : DecimalNegationLaws G} {U : Unicode}.

Definition rising : list dec → Prop := StronglySorted (λ a b, dval a < dval b)%Q.
Definition falling : list dec → Prop := StronglySorted (λ a b, dval b < dval a)%Q.
Lemma parseDecimal_finite s v : parseDecimal s = Some v → d_isFinite v = true.
Proof using L GL.
  unfold parseDecimal. destruct (is_numeric_text _); [|done]. intros (d & _ & Hd)%bind_Some.
  destruct (d_isFinite d) eqn:Hf; [|done].
  injection Hd as <-. destruct (parenthesized _); [by apply law_negated|done].
Qed.
Definition ordered (s : comparison) : list dec → Prop := StronglySorted (λ a b, (dval b ?= dval a)%Q = s).
Lemma ordered_trans s : s ≠ Eq → Transitive (λ a b, (dval b ?= dval a)%Q = s).
Proof using Type.
  intros Hs a b c. destruct s; [done| |].
  - rewrite <- !Qlt_alt. intros H1 H2. by eapply Qlt_trans.
  - rewrite <- !Qgt_alt. intros H1 H2. by eapply Qlt_trans.
Qed.
Lemma same_direction_spec s values : s ≠ Eq → ∀ previous, Forall (λ v, d_isFinite v = true) (previous :: values) →
  same_direction (Some s) previous values = true ↔ ordered s (previous :: values).
Proof using L.
  intros Hs. unfold ordered. induction values as [|v values IH]; intros previous Hf.
  { split; [|done]. intros _. repeat constructor. }
  apply Forall_cons in Hf as [Hp Hf]. pose proof Hf as [Hv _]%Forall_cons. cbn [same_direction]. rewrite (law_cmp v previous) by done.
  rewrite andb_true_iff, bool_decide_eq_true, (IH v Hf). split.
  - intros [[= Heq] Hss]. apply Sorted_StronglySorted; [by apply ordered_trans|]. constructor; [by apply StronglySorted_Sorted|].
    by constructor.
  - intros Hss. apply StronglySorted_inv in Hss as [Hss Hall]. split; [|done]. apply Forall_cons in Hall as [-> _]. done.
Qed.
Lemma ordered_rising values : ordered Gt values ↔ rising values.
Proof using Type. unfold ordered, rising. split; induction 1; constructor; try done; (eapply Forall_impl; [eassumption|]); cbn; intros ?; by rewrite Qgt_alt. Qed.
Lemma ordered_falling values : ordered Lt values ↔ falling values.
Proof using Type. unfold ordered, falling. split; induction 1; constructor; try done; (eapply Forall_impl; [eassumption|]); cbn; intros ?; by rewrite Qlt_alt. Qed.
Lemma strictlyMonotonic_spec values : Forall (λ v, d_isFinite v = true) values → (2 ≤ length values)%nat →
  strictlyMonotonic values = true ↔ rising values ∨ falling values.
Proof using L.
  destruct values as [|v0 [|v1 values]]; cbn [length]; [lia..|]. intros Hf _. rewrite <- ordered_rising, <- ordered_falling.
  pose proof Hf as [H0 [H1 _]%Forall_cons]%Forall_cons. unfold strictlyMonotonic. rewrite (law_cmp v1 v0) by done. cbn [tail].
  rewrite andb_true_iff, negb_true_iff, bool_decide_eq_false.
  assert (∀ s, ordered s (v0 :: v1 :: values) → (dval v1 ?= dval v0)%Q = s) as Hfirst.
  { intros s [_ Hall]%StronglySorted_inv. by apply Forall_cons in Hall as [? _]. }
  split.
  - intros [Hne Hs]. destruct (dval v1 ?= dval v0)%Q eqn:Hd; [done|right|left];
      (apply same_direction_spec; [done..|]); cbn [same_direction] in Hs |- *; exact Hs.
  - intros Ho. assert (∃ s, s ≠ Eq ∧ ordered s (v0 :: v1 :: values)) as (s & Hs & Hos) by (destruct Ho; [exists Gt|exists Lt]; done).
    rewrite (Hfirst s Hos). split; [congruence|]. by apply same_direction_spec.
Qed.

Lemma fine_spec t c : fine t c = true ↔ within_grid (rt_rowCount t) (rt_columnCount t) c ∧ trim (rc_content c) ≠ "" ∧
  (looksNumeric (rc_content c) = true → is_Some (parseDecimal (rc_content c))).
Proof using Type.
  unfold fine, within_grid, out_of_bounds, is_blank, bad_number, is_decimal, truthy.
  rewrite !andb_true_iff, !negb_true_iff, orb_false_iff, negb_false_iff, negb_true_iff, bool_decide_eq_false, andb_false_iff.
  rewrite !Z.gtb_ltb, !Z.ltb_ge, negb_false_iff. rewrite is_Some_alt.
  destruct (looksNumeric _), (parseDecimal _); naive_solver.
Qed.

(** C37: a rate table is declared valid exactly when every cell lies in the declared
    grid, no square is under two cells, no cell is blank, every value that looks
    like a number is one, and one row or column of decimals stands out (the best
    header, then the most values, without a tie) and strictly rises or strictly
    falls; the verdict names that sequence, and the table comes back as it was. *)
Theorem valid_rate_table_exact t v : validateRateTable t = Some v →
  vt_table v = t ∧
  (vt_valid v = true ↔ sound_grid t ∧
    (∀ c, c ∈ rt_cells t → trim (rc_content c) ≠ "" ∧
      (looksNumeric (rc_content c) = true → is_Some (parseDecimal (rc_content c)))) ∧
    ∃ i c, stands_out (bracketCandidates t) i c ∧ reads_axis t c ∧ (rising (cd_values c) ∨ falling (cd_values c)) ∧
      vt_orientation v = Some (cd_orientation c) ∧ vt_bracketAxisIndex v = Some (cd_axisIndex c) ∧
      vt_bracketValues v = map d_toNormal (cd_values c)).
Proof using L GL.
  unfold validateRateTable. destruct (reassembledTableSchema t); [|done]. intros [= <-]. split; [done|].
  destruct (scan_all t (rt_cells t) [] []) as (new & -> & Hn). cbn [vt_valid vt_orientation vt_bracketAxisIndex vt_bracketValues app].
  trans (new = [] ∧ bracket_issues (bracketCandidates t) (chooseCandidate (bracketCandidates t)) = []).
  { destruct new; cbn; [|by split; [|intros []]]. destruct (bracket_issues _ _); naive_solver. }
  assert (∀ d, d ∈ bracketCandidates t → 0 <= cd_headerScore d) as H0 by (intros d Hd; by apply candidates_read in Hd as (_ & _ & ?)).
  rewrite Hn. unfold sound_grid. rewrite no_overlap_NoDup. setoid_rewrite fine_spec. rewrite Forall_and.
  assert (bracket_issues (bracketCandidates t) (chooseCandidate (bracketCandidates t)) = [] ↔ ∃ c,
    chooseCandidate (bracketCandidates t) = Some c ∧ strictlyMonotonic (cd_values c) = true) as ->.
  { unfold bracket_issues. destruct (chooseCandidate _) as [c|].
    - destruct (strictlyMonotonic _) eqn:Hm; split; try done; [by eexists|intros (? & [= <-] & ?); congruence].
    - destruct (bracketCandidates t); split; try done; by intros (? & ? & _). }
  split.
  - intros ((Hf & Hnd & _) & c & Hc & Hm). destruct Hf as [Hw Hread]. split; [done|]. split; [by apply Forall_forall|]. rewrite Hc.
    apply chooseCandidate_spec in Hc as [i Hi]; [|done]. exists i, c. pose proof (list_elem_of_lookup_2 _ _ _ (proj1 Hi)) as Hin.
    apply candidates_read in Hin as Hr. split; [done|]. split; [done|]. split; [|done]. destruct Hr as (Hall & Hlen & _).
    apply strictlyMonotonic_spec; [|done..]. apply Forall_forall. intros x Hx.
    apply list_elem_of_lookup in Hx as [j Hj]. destruct (Forall2_lookup_r _ _ _ _ _ Hall Hj) as (cell & _ & _ & Hp).
    by eapply parseDecimal_finite.
  - intros ((Hw & Hnd) & Hread & i & c & Hi & Hr & Hm & _). split; [split_and!; [done|by apply Forall_forall|done|set_solver]|].
    exists c. split; [apply chooseCandidate_spec; [done|by exists i]|]. destruct Hr as (Hall & Hlen & _).
    apply strictlyMonotonic_spec; [|done..]. apply Forall_forall. intros x Hx.
    apply list_elem_of_lookup in Hx as [j Hj]. destruct (Forall2_lookup_r _ _ _ _ _ Hall Hj) as (cell & _ & _ & Hp).
    by eapply parseDecimal_finite.
Qed.
End verdict.

(** ** Joining the fragments of a table *)

Section reassembly.
Context {U : Unicode} {C : UnicodeNFC}.
Implicit Types (t : azure_table) (f : fragment) (p : ReassembledTable).


(** What identifies a cell and what it says, wherever it is put. *)
Definition said (c : ReassembledCell) : cell_source * (Z * Z * Z) * string :=
  (rc_source c, (rc_columnIndex c, rc_rowSpan c, rc_columnSpan c), rc_content c).
Lemma said_moved f c row row' : said (normalizeCell c (fr_tableIndex f) (fr_pageNumber f) row) =
  said (normalizeCell c (fr_tableIndex f) (fr_pageNumber f) row').
Proof using Type. done. Qed.

(** ** The grid of a joined table *)



End reassembly.

(** ** The readers at work *)

#[local] Existing Instances ExactDecimal.ops ExactDecimal.laws demo_notation.to_normal demo_unicode.
Definition demo_nfc : UnicodeNFC := λ s, s.
#[local] Existing Instance demo_nfc.
Definition demo_negation : DecimalNegation (D := ExactDecimal.ops) := λ d,
  match d with ExactDecimal.Num s a sc => ExactDecimal.Num (negb s) a sc | ExactDecimal.NaN => ExactDecimal.NaN end.
#[local] Existing Instance demo_negation.
Lemma demo_negation_laws : DecimalNegationLaws (D := ExactDecimal.ops) demo_negation.
Proof.
  by intros [s a sc|].
Qed.
#[local] Existing Instance demo_negation_laws.

Definition demo_cell (page row column : Z) (content : string) (header : bool) : azure_cell :=
  mkAzureCell row column None None content (if header then Some "columnHeader" else None) (Some [mkRegion page None]).
Definition demo_page (page : Z) (rows : list (string * string * bool)) : azure_table :=
  mkAzureTable (Z.of_nat (length rows)) 2
    (concat (imap (λ i r, [demo_cell page (Z.of_nat i) 0 r.1.1 r.2; demo_cell page (Z.of_nat i) 1 r.1.2 r.2]) rows))
    (Some [mkRegion page None]).
Definition demo_pages : list azure_table :=
  [demo_page 2 [("  WEIGHT ", "Rate", true); ("1,000", "$9.50", false); ("2,000", "$9.00", false)];
   demo_page 1 [("Weight", "Rate", true); ("0", "$10.00", false)]].

Definition demo_joined : list ReassembledTable := Eval vm_compute in default [] (reassembleMultipageTables demo_pages).

Definition demo_rates : ReassembledTable := Eval vm_compute in default (mkTable 0 0 "" [] [] []) (head demo_joined).
Definition demo_verdict : ValidatedRateTable := Eval vm_compute in
  default (mkValidated false None None [] [] demo_rates) (validateRateTable demo_rates).
Lemma valid_rate_table_exact_witness : validateRateTable demo_rates = Some demo_verdict ∧
  vt_bracketValues demo_verdict = ["0"; "1000"; "2000"] ∧ sound_grid demo_rates.
Proof.
  assert (validateRateTable demo_rates = Some demo_verdict) as Hv by (vm_compute; reflexivity).
  split; [exact Hv|]. split; [reflexivity|].
  destruct (valid_rate_table_exact demo_rates demo_verdict Hv) as [_ Hiff]. exact (proj1 (proj1 Hiff eq_refl)).
Defined.

(** A continuation whose header is marked in two rows loses the rows between them. *)
Example rows_between_headers_lost :
  let page n threshold := demo_page n [("Weight", "Rate", true); (threshold, "$10.00", false); ("Heavy", "Rate", true); ("5000", "$1.00", false)] in
  match reassembleMultipageTables [page 1 "0"; page 2 "1000"] with
  | Some out => map (λ t, map rc_content (rt_cells t)) out =
      [["Weight"; "Rate"; "0"; "$10.00"; "Heavy"; "Rate"; "5000"; "$1.00"; "5000"; "$1.00"]]
  | None => False
  end.
Proof. vm_compute. reflexivity. Qed.
(** A table without any page is read by the first function and refused, with all
    the others, by the second. *)
Example table_without_page_refuses_all :
  let loose := mkAzureTable 1 1 [mkAzureCell 0 0 None None "Weight" None None] None in
  match reassembleMultipageTables (loose :: demo_pages) with Some out => length out = 2%nat | None => False end ∧
  reassembleAndValidateRateTables (loose :: demo_pages) = None.
Proof. vm_compute. split; reflexivity. Qed.
