(* ===== verification/Extraction.v ===== *)
(** What a model extracts from a contract ([src/src/modules/contracts/]): the
    schema of its answer ([contract-extraction-schema.ts]), the trusted pins
    ([validate-contract-extraction-response.ts]), fail-safe abstention
    ([apply-contract-extraction-abstention.ts]), the questions it raises
    ([clarifying-questions.ts]) and the rows the extraction flattens to
    ([persist-contract-extraction.ts]).  An answer of another shape than the types
    below is one the schema refuses. *)

From Stdlib Require Import QArith.
From S2P Require Import Prelude JsText Decimal Json Jsonb AuditLedger Manifest Proposals Resolver RateTable.

(** ** Extracted values *)

Inductive AbstentionStatus : Set := NOT_FOUND | AMBIGUOUS.
#[export] Instance AbstentionStatus_eq_dec : EqDecision AbstentionStatus.
Proof. solve_decision. Defined.
(** The two members of the union; [normalizedValue] of the second is [null]. *)
Inductive ExtractedValue : Type :=
  | FOUND (rawText : string) (normalizedValue : option string) (confidence : js_number) (citations : list Citation)
  | ABSTAIN (status : AbstentionStatus) (rawText : option string) (confidence : js_number) (citations : list Citation)
      (clarificationQuestion : string).
Inductive SemanticType : Set := TEXT | DATE | DECIMAL | PERCENTAGE | CURRENCY | DURATION | IDENTIFIER.
Inductive CellRole : Set := COLUMN_HEADER | ROW_HEADER | VALUE.
Record ExtractionField := mkField { ef_path : string; ef_semanticType : SemanticType; ef_value : ExtractedValue }.
Record ExtractedClause := mkExtractedClause { ec_clauseReference : string; ec_title : option string; ec_text : ExtractedValue }.
Record RateTableCell := mkRateCell {
  tc_rowIndex : Z; tc_columnIndex : Z; tc_rowSpan : Z; tc_columnSpan : Z; tc_role : CellRole; tc_value : ExtractedValue;
}.
Record ExtractedRateTable := mkRateTable {
  et_tableKey : string; et_title : ExtractedValue; et_orientation : option BracketOrientation;  (** [None]: AMBIGUOUS *)
  et_rowCount : Z; et_columnCount : Z; et_cells : list RateTableCell;
}.
Record modelPin := mkModelPin { mp_provider : string; mp_modelId : string; mp_promptVersion : string }.
#[export] Instance modelPin_eq_dec : EqDecision modelPin.
Proof. solve_decision. Defined.
Record ContractExtraction := mkExtraction {
  ex_schemaVersion : string; ex_sourceDocumentSha256 : string; ex_model : modelPin;
  ex_fields : list ExtractionField; ex_clauses : list ExtractedClause; ex_rateTables : list ExtractedRateTable;
}.
Definition CONTRACT_EXTRACTION_SCHEMA_VERSION : string := "contract-extraction/1".

(** ** What the schema trims *)

Definition trim_citation (c : Citation) : Citation := mkCitation (ct_pageNumber c) (trim (ct_excerpt c)) (ct_boundingBox c) (ct_span c).
Definition trim_value (v : ExtractedValue) : ExtractedValue :=
  match v with
  | FOUND raw normalized confidence citations => FOUND (trim raw) (trim <$> normalized) confidence (map trim_citation citations)
  | ABSTAIN status raw confidence citations question =>
      ABSTAIN status (trim <$> raw) confidence (map trim_citation citations) (trim question)
  end.
Definition trim_field (f : ExtractionField) : ExtractionField := mkField (trim (ef_path f)) (ef_semanticType f) (trim_value (ef_value f)).
Definition trim_clause (c : ExtractedClause) : ExtractedClause :=
  mkExtractedClause (trim (ec_clauseReference c)) (trim <$> ec_title c) (trim_value (ec_text c)).
Definition trim_cell (c : RateTableCell) : RateTableCell :=
  mkRateCell (tc_rowIndex c) (tc_columnIndex c) (tc_rowSpan c) (tc_columnSpan c) (tc_role c) (trim_value (tc_value c)).
Definition trim_table (t : ExtractedRateTable) : ExtractedRateTable :=
  mkRateTable (trim (et_tableKey t)) (trim_value (et_title t)) (et_orientation t) (et_rowCount t) (et_columnCount t)
    (map trim_cell (et_cells t)).
Definition trim_model (m : modelPin) : modelPin := mkModelPin (mp_provider m) (trim (mp_modelId m)) (trim (mp_promptVersion m)).
Definition trim_extraction (e : ContractExtraction) : ContractExtraction :=
  mkExtraction (ex_schemaVersion e) (ex_sourceDocumentSha256 e) (trim_model (ex_model e)) (map trim_field (ex_fields e))
    (map trim_clause (ex_clauses e)) (map trim_table (ex_rateTables e)).

(** ** What it checks, of trimmed values *)

(** The value of a number's text, exponent included. *)
Fixpoint split_exponent (s : string) : string * option string :=
  match s with
  | "" => ("", None)
  | String c s' => if bool_decide (c = "e"%char) then ("", Some s') else let '(m, x) := split_exponent s' in (String c m, x)
  end.
Definition exponent_value (s : string) : option Z :=
  '(n, sc) ← plain (match s with String c s' => if bool_decide (c = "+"%char) then s' else s | "" => s end);
  match sc with O => Some n | S _ => None end.
Definition number_value (n : js_number) : option Q :=
  match n with
  | JsFinite t =>
      let '(m, x) := split_exponent t in
      '(units, sc) ← plain m;
      match x with
      | None => Some (scaled units sc)
      | Some x => k ← exponent_value x;
          Some (if 0 <=? k then scaled units sc * inject_Z (10 ^ k) else scaled units sc / inject_Z (10 ^ (- k)))%Q
      end
  | _ => None
  end.
(** [a >= b] *)
Definition number_gte (a b : js_number) : bool :=
  match number_value a, number_value b with Some x, Some y => Qle_bool y x | _, _ => false end.
Definition number_in (lo hi n : js_number) : bool := number_gte n lo && number_gte hi n.
Definition confidence_ok : js_number → bool := number_in (JsFinite "0") (JsFinite "1").
Definition text_ok (lo hi : Z) (s : string) : bool := within lo hi (String.length s).

Definition citation_ok (c : Citation) : bool :=
  bool_decide (int_number 1 (JNumber (ct_pageNumber c)) = Some (ct_pageNumber c)) && text_ok 1 4000 (ct_excerpt c) &&
  opt_all (λ box, within 8 32 (length box) && forallb (λ x, bool_decide (coordinate (JNumber x) = Some x)) box) (ct_boundingBox c) &&
  opt_all (λ span, bool_decide (int_number 0 (JNumber span.1) = Some span.1) && bool_decide (int_number 1 (JNumber span.2) = Some span.2))
    (ct_span c) &&
  negb (bool_decide (ct_boundingBox c = None) && bool_decide (ct_span c = None)).
Definition citations_ok (lo : Z) (l : list Citation) : bool := within lo 20 (length l) && forallb citation_ok l.
Definition extracted_value_ok (v : ExtractedValue) : bool :=
  match v with
  | FOUND raw normalized confidence citations =>
      text_ok 1 20000 raw && opt_all (text_ok 1 20000) normalized && confidence_ok confidence && citations_ok 1 citations
  | ABSTAIN _ raw confidence citations question =>
      opt_all (text_ok 1 20000) raw && confidence_ok confidence && citations_ok 0 citations && text_ok 1 2000 question
  end.
(** The pattern of a field path, read from left to right. *)
Inductive path_state : Set := SegmentStart | InName | IndexStart | InIndex | AfterIndex.
Fixpoint path_matches (st : path_state) (s : string) : bool :=
  match s with
  | "" => match st with InName | AfterIndex => true | _ => false end
  | String c s' =>
      match st with
      | SegmentStart => is_lower c && path_matches InName s'
      | InName =>
          if is_word c then path_matches InName s'
          else if bool_decide (c = "["%char) then path_matches IndexStart s'
          else bool_decide (c = "."%char) && path_matches SegmentStart s'
      | IndexStart => (is_word c || bool_decide (c = "-"%char)) && path_matches InIndex s'
      | InIndex =>
          if is_word c || bool_decide (c = "-"%char) then path_matches InIndex s'
          else bool_decide (c = "]"%char) && path_matches AfterIndex s'
      | AfterIndex =>
          if bool_decide (c = "["%char) then path_matches IndexStart s'
          else bool_decide (c = "."%char) && path_matches SegmentStart s'
      end
  end.
Definition fieldPathSchema (s : string) : bool := path_matches SegmentStart s.
Definition field_ok (f : ExtractionField) : bool := text_ok 1 500 (ef_path f) && fieldPathSchema (ef_path f) && extracted_value_ok (ef_value f).
Definition clause_ok (c : ExtractedClause) : bool :=
  text_ok 1 300 (ec_clauseReference c) && opt_all (text_ok 1 1000) (ec_title c) && extracted_value_ok (ec_text c).
Definition up_to (hi n : Z) : bool := z_positive n && (n <=? hi).
Definition cell_ok (c : RateTableCell) : bool :=
  z_nonnegative (tc_rowIndex c) && z_nonnegative (tc_columnIndex c) && up_to 10000 (tc_rowSpan c) && up_to 10000 (tc_columnSpan c) &&
  extracted_value_ok (tc_value c).
(** [/^[a-z][a-z0-9_-]*$/] *)
Definition table_key_ok (s : string) : bool :=
  match s with
  | String c s' => is_lower c && string_all (λ c, is_lower c || is_digit c || bool_decide (c ∈ ["_"; "-"]%char)) s'
  | "" => false
  end.
Definition cell_squares (c : RateTableCell) : list (Z * Z) :=
  row ← seqZ (tc_rowIndex c) (tc_rowSpan c); column ← seqZ (tc_columnIndex c) (tc_columnSpan c); [(row, column)].
(** No issue is added: every cell in bounds, no square twice. *)
Definition table_refined (t : ExtractedRateTable) : bool :=
  forallb (λ c, (tc_rowIndex c + tc_rowSpan c <=? et_rowCount t) && (tc_columnIndex c + tc_columnSpan c <=? et_columnCount t)) (et_cells t) &&
  bool_decide (NoDup (concat (map cell_squares (et_cells t)))).
Definition table_ok (t : ExtractedRateTable) : bool :=
  text_ok 1 300 (et_tableKey t) && table_key_ok (et_tableKey t) && extracted_value_ok (et_title t) && up_to 100000 (et_rowCount t) &&
  up_to 10000 (et_columnCount t) && within 0 250000 (length (et_cells t)) && forallb cell_ok (et_cells t) && table_refined t.
Definition model_ok (m : modelPin) : bool :=
  bool_decide (mp_provider m = "anthropic") && text_ok 1 200 (mp_modelId m) && text_ok 1 200 (mp_promptVersion m).

Section schema.
Context {U : Unicode}.

(** [rejectDuplicates]: no issue is added. *)
Definition rejectDuplicates (values : list string) : bool := bool_decide (NoDup (map canonicalReference values)).
Definition extraction_ok (e : ContractExtraction) : bool :=
  bool_decide (ex_schemaVersion e = CONTRACT_EXTRACTION_SCHEMA_VERSION) && is_sha256_hex (ex_sourceDocumentSha256 e) &&
  model_ok (ex_model e) && within 0 10000 (length (ex_fields e)) && forallb field_ok (ex_fields e) &&
  within 0 10000 (length (ex_clauses e)) && forallb clause_ok (ex_clauses e) &&
  within 0 1000 (length (ex_rateTables e)) && forallb table_ok (ex_rateTables e) &&
  rejectDuplicates (map ef_path (ex_fields e)) && rejectDuplicates (map ec_clauseReference (ex_clauses e)) &&
  rejectDuplicates (map et_tableKey (ex_rateTables e)).
(** [None]: the schema throws. *)
Definition parseContractExtraction (e : ContractExtraction) : option ContractExtraction :=
  let e := trim_extraction e in if extraction_ok e then Some e else None.
End schema.

(** ** Its canonical text *)

Definition abstention_status_text (s : AbstentionStatus) : string := match s with NOT_FOUND => "NOT_FOUND" | AMBIGUOUS => "AMBIGUOUS" end.
Definition value_status (v : ExtractedValue) : string := match v with FOUND _ _ _ _ => "FOUND" | ABSTAIN s _ _ _ _ => abstention_status_text s end.
Definition semantic_text (t : SemanticType) : string :=
  match t with
  | TEXT => "TEXT" | DATE => "DATE" | DECIMAL => "DECIMAL" | PERCENTAGE => "PERCENTAGE" | CURRENCY => "CURRENCY"
  | DURATION => "DURATION" | IDENTIFIER => "IDENTIFIER"
  end.
Definition cell_role_text (r : CellRole) : string :=
  match r with COLUMN_HEADER => "COLUMN_HEADER" | ROW_HEADER => "ROW_HEADER" | VALUE => "VALUE" end.
Definition orientation_text (o : option BracketOrientation) : string :=
  match o with Some ROW_BRACKETS => "ROW_BRACKETS" | Some COLUMN_BRACKETS => "COLUMN_BRACKETS" | None => "AMBIGUOUS" end.
Definition int_json (n : Z) : json := JNumber (JsFinite (nat_text n "")).
Definition extracted_value_json (v : ExtractedValue) : json :=
  match v with
  | FOUND raw normalized confidence citations =>
      obj [("status", Some (JString "FOUND")); ("rawText", Some (JString raw)); ("normalizedValue", Some (json_null normalized));
           ("confidence", Some (JNumber confidence)); ("citations", Some (JArray (map citation_json citations)))]
  | ABSTAIN status raw confidence citations question =>
      obj [("status", Some (JString (abstention_status_text status))); ("rawText", Some (json_null raw)); ("normalizedValue", Some JNull);
           ("confidence", Some (JNumber confidence)); ("citations", Some (JArray (map citation_json citations)));
           ("clarificationQuestion", Some (JString question))]
  end.
Definition field_json (f : ExtractionField) : json :=
  obj [("path", Some (JString (ef_path f))); ("semanticType", Some (JString (semantic_text (ef_semanticType f))));
       ("value", Some (extracted_value_json (ef_value f)))].
Definition extracted_clause_json (c : ExtractedClause) : json :=
  obj [("clauseReference", Some (JString (ec_clauseReference c))); ("title", Some (json_null (ec_title c)));
       ("text", Some (extracted_value_json (ec_text c)))].
Definition cell_json (c : RateTableCell) : json :=
  obj [("rowIndex", Some (int_json (tc_rowIndex c))); ("columnIndex", Some (int_json (tc_columnIndex c)));
       ("rowSpan", Some (int_json (tc_rowSpan c))); ("columnSpan", Some (int_json (tc_columnSpan c)));
       ("role", Some (JString (cell_role_text (tc_role c)))); ("value", Some (extracted_value_json (tc_value c)))].
Definition table_json (t : ExtractedRateTable) : json :=
  obj [("tableKey", Some (JString (et_tableKey t))); ("title", Some (extracted_value_json (et_title t)));
       ("orientation", Some (JString (orientation_text (et_orientation t)))); ("rowCount", Some (int_json (et_rowCount t)));
       ("columnCount", Some (int_json (et_columnCount t))); ("cells", Some (JArray (map cell_json (et_cells t))))].
Definition extraction_json (e : ContractExtraction) : json :=
  obj [("schemaVersion", Some (JString (ex_schemaVersion e))); ("sourceDocumentSha256", Some (JString (ex_sourceDocumentSha256 e)));
       ("model", Some (obj [("provider", Some (JString (mp_provider (ex_model e)))); ("modelId", Some (JString (mp_modelId (ex_model e))));
                            ("promptVersion", Some (JString (mp_promptVersion (ex_model e))))]));
       ("fields", Some (JArray (map field_json (ex_fields e)))); ("clauses", Some (JArray (map extracted_clause_json (ex_clauses e))));
       ("rateTables", Some (JArray (map table_json (ex_rateTables e))))].

(** ** Trusted pins *)

Record ContractExtractionPins := mkPins { xp_model : modelPin; xp_sourceDocumentSha256 : string }.
#[export] Instance ContractExtractionPins_eq_dec : EqDecision ContractExtractionPins.
Proof. solve_decision. Defined.
Definition trim_pins (p : ContractExtractionPins) : ContractExtractionPins := mkPins (trim_model (xp_model p)) (xp_sourceDocumentSha256 p).
(** [None]: the schema throws. *)
Definition pinsSchema (p : ContractExtractionPins) : option ContractExtractionPins :=
  let p := trim_pins p in if model_ok (xp_model p) && is_sha256_hex (xp_sourceDocumentSha256 p) then Some p else None.
(** The adapter's answer; its output may be missing. *)
Record ExtractionResponse := mkResponse { rs_pins : ContractExtractionPins; rs_output : option ContractExtraction }.
Inductive extraction_error : Set :=
  | ExtractionSchemaError   (* a ZodError *)
  | INVALID_RESPONSE_ENVELOPE | PIN_MISMATCH | INVALID_EXTRACTION.
Definition same_pins (a b : ContractExtractionPins) : bool :=
  bool_decide (mp_provider (xp_model a) = mp_provider (xp_model b)) && bool_decide (mp_modelId (xp_model a) = mp_modelId (xp_model b)) &&
  bool_decide (mp_promptVersion (xp_model a) = mp_promptVersion (xp_model b)) &&
  bool_decide (xp_sourceDocumentSha256 a = xp_sourceDocumentSha256 b).

(** ** Abstention *)

Record RequiredField := mkRequired { rq_path : string; rq_semanticType : SemanticType; rq_question : string }.
Record AbstentionPolicy := mkPolicy { po_version : string; po_minimumConfidence : js_number; po_requiredFields : list RequiredField }.
Definition trim_policy (p : AbstentionPolicy) : AbstentionPolicy :=
  mkPolicy (trim (po_version p)) (po_minimumConfidence p)
    (map (λ f, mkRequired (trim (rq_path f)) (rq_semanticType f) (trim (rq_question f))) (po_requiredFields p)).
Definition policy_ok (p : AbstentionPolicy) : bool :=
  text_ok 1 200 (po_version p) && confidence_ok (po_minimumConfidence p) && within 0 10000 (length (po_requiredFields p)) &&
  forallb (λ f, text_ok 1 500 (rq_path f) && text_ok 1 2000 (rq_question f)) (po_requiredFields p) &&
  bool_decide (NoDup (map rq_path (po_requiredFields p))).
Definition ContractExtractionAbstentionPolicySchema (p : AbstentionPolicy) : option AbstentionPolicy :=
  let p := trim_policy p in if policy_ok p then Some p else None.

Inductive AbstentionReason : Set := MISSING_REQUIRED_FIELD | LOW_CONFIDENCE | MODEL_ABSTENTION | AMBIGUOUS_TABLE_ORIENTATION.
#[export] Instance AbstentionReason_eq_dec : EqDecision AbstentionReason.
Proof. solve_decision. Defined.
Definition abstention_reason_text (r : AbstentionReason) : string :=
  match r with
  | MISSING_REQUIRED_FIELD => "MISSING_REQUIRED_FIELD" | LOW_CONFIDENCE => "LOW_CONFIDENCE" | MODEL_ABSTENTION => "MODEL_ABSTENTION"
  | AMBIGUOUS_TABLE_ORIENTATION => "AMBIGUOUS_TABLE_ORIENTATION"
  end.
Record Abstention := mkAbstention { ab_path : string; ab_status : AbstentionStatus; ab_reason : AbstentionReason; ab_question : string }.

(** The value, and what is pushed on the abstentions. *)
Definition applyToValue (v : ExtractedValue) (path : string) (minimumConfidence : js_number) (preferredQuestion : option string) :
    ExtractedValue * list Abstention :=
  match v with
  | ABSTAIN status _ _ _ question => (v, [mkAbstention path status MODEL_ABSTENTION question])
  | FOUND raw _ confidence citations =>
      if number_gte confidence minimumConfidence then (v, []) else
      let question := default ("Please verify " +:+ path +:+ " against the cited contract source.") preferredQuestion in
      (ABSTAIN AMBIGUOUS (Some raw) confidence citations question, [mkAbstention path AMBIGUOUS LOW_CONFIDENCE question])
  end.
Definition apply_field (required : list (string * string)) (minimum : js_number) (f : ExtractionField) : ExtractionField * list Abstention :=
  let '(v, a) := applyToValue (ef_value f) (ef_path f) minimum (map_get required (ef_path f)) in
  (mkField (ef_path f) (ef_semanticType f) v, a).
(** A required field that is still missing is added, if its path is a field path. *)
Definition require_field (st : option (list ExtractionField * list Abstention)) (r : RequiredField) :
    option (list ExtractionField * list Abstention) :=
  '(fields, pushed) ← st;
  if bool_decide (rq_path r ∈ map ef_path fields) then Some (fields, pushed)
  else if fieldPathSchema (rq_path r) then
    Some (fields ++ [mkField (rq_path r) (rq_semanticType r) (ABSTAIN NOT_FOUND None (JsFinite "0") [] (rq_question r))],
          pushed ++ [mkAbstention (rq_path r) NOT_FOUND MISSING_REQUIRED_FIELD (rq_question r)])
  else None.
Definition clause_path (c : ExtractedClause) : string := "clauses[" +:+ quote (ec_clauseReference c) +:+ "].text".
Definition apply_clause (minimum : js_number) (c : ExtractedClause) : ExtractedClause * list Abstention :=
  let '(v, a) := applyToValue (ec_text c) (clause_path c) minimum None in (mkExtractedClause (ec_clauseReference c) (ec_title c) v, a).
Definition table_base (t : ExtractedRateTable) : string := "rateTables[" +:+ quote (et_tableKey t) +:+ "]".
Definition cell_path (base : string) (c : RateTableCell) : string :=
  base +:+ ".cells[" +:+ nat_text (tc_rowIndex c) "" +:+ "," +:+ nat_text (tc_columnIndex c) "" +:+ "]".
Definition apply_cell (base : string) (minimum : js_number) (c : RateTableCell) : RateTableCell * list Abstention :=
  let '(v, a) := applyToValue (tc_value c) (cell_path base c) minimum None in
  (mkRateCell (tc_rowIndex c) (tc_columnIndex c) (tc_rowSpan c) (tc_columnSpan c) (tc_role c) v, a).
Definition orientation_question (t : ExtractedRateTable) : string :=
  "Is " +:+ et_tableKey t +:+ " organized with brackets in rows or columns?".
Definition apply_table (minimum : js_number) (t : ExtractedRateTable) : ExtractedRateTable * list Abstention :=
  let base := table_base t in
  let '(title, a) := applyToValue (et_title t) (base +:+ ".title") minimum None in
  let cells := map (apply_cell base minimum) (et_cells t) in
  (mkRateTable (et_tableKey t) title (et_orientation t) (et_rowCount t) (et_columnCount t) cells.*1,
   a ++ concat cells.*2 ++
   match et_orientation t with
   | None => [mkAbstention (base +:+ ".orientation") AMBIGUOUS AMBIGUOUS_TABLE_ORIENTATION (orientation_question t)]
   | Some _ => []
   end).

Record AbstentionResult := mkAbstentionResult { ar_extraction : ContractExtraction; ar_policyVersion : string; ar_abstentions : list Abstention }.

Section abstention.
Context {U : Unicode} {C : Collator} {H : Sha256}.

Definition contractExtractionIdempotencyKey (e : ContractExtraction) : option string :=
  parsed ← parseContractExtraction e; Some (hex (sha256 (canonical localeCompare (extraction_json parsed)))).
Definition validateContractExtractionResponse (response : ExtractionResponse) (untrustedPins : ContractExtractionPins) :
    result extraction_error (ContractExtraction * string) :=
  match pinsSchema untrustedPins with
  | None => Err ExtractionSchemaError
  | Some expected =>
      match pinsSchema (rs_pins response), rs_output response with
      | Some pins, Some output =>
          if same_pins pins expected then
            match parseContractExtraction output with
            | None => Err INVALID_EXTRACTION
            | Some e =>
                if same_pins (mkPins (ex_model e) (ex_sourceDocumentSha256 e)) expected then
                  match contractExtractionIdempotencyKey e with Some key => Ok (e, key) | None => Err ExtractionSchemaError end
                else Err PIN_MISMATCH
            end
          else Err PIN_MISMATCH
      | _, _ => Err INVALID_RESPONSE_ENVELOPE
      end
  end.

Definition path_order : ExtractionField → ExtractionField → comparison := cmp_on ef_path localeCompare.
(** [None]: a schema throws. *)
Definition applyContractExtractionAbstention (untrusted : ContractExtraction) (untrustedPolicy : AbstentionPolicy) : option AbstentionResult :=
  e ← parseContractExtraction untrusted;
  policy ← ContractExtractionAbstentionPolicySchema untrustedPolicy;
  let minimum := po_minimumConfidence policy in
  let required := map_of (map (λ r, (rq_path r, rq_question r)) (po_requiredFields policy)) in
  let applied := map (apply_field required minimum) (ex_fields e) in
  '(fields, pushed) ← fold_left require_field (po_requiredFields policy) (Some (applied.*1, concat applied.*2));
  let clauses := map (apply_clause minimum) (ex_clauses e) in
  let tables := map (apply_table minimum) (ex_rateTables e) in
  validated ← parseContractExtraction (mkExtraction (ex_schemaVersion e) (ex_sourceDocumentSha256 e) (ex_model e)
    (js_sort path_order fields) clauses.*1 tables.*1);
  Some (mkAbstentionResult validated (po_version policy)
    (js_sort (cmp_then (cmp_on ab_path localeCompare) (cmp_on (abstention_reason_text ∘ ab_reason) localeCompare))
      (pushed ++ concat clauses.*2 ++ concat tables.*2))).
Definition validateContractExtractionResponseWithAbstention (response : ExtractionResponse) (pins : ContractExtractionPins)
    (policy : AbstentionPolicy) : result extraction_error (AbstentionResult * string) :=
  '(e, _) ← validateContractExtractionResponse response pins;
  match applyContractExtractionAbstention e policy with
  | None => Err ExtractionSchemaError
  | Some r => match contractExtractionIdempotencyKey (ar_extraction r) with Some key => Ok (r, key) | None => Err ExtractionSchemaError end
  end.

(** ** Clarifying questions *)

Record ClarifyingQuestion := mkQuestion {
  cq_path : string; cq_status : AbstentionStatus; cq_reason : AbstentionReason; cq_question : string; cq_questionHash : string;
}.
#[global] Instance ClarifyingQuestion_eq_dec : EqDecision ClarifyingQuestion.
Proof. solve_decision. Defined.
Inductive question_error : Set := QuestionSchemaError | CONFLICTING_ABSTENTION.

Definition clarifyingQuestionHash (parts : list string) : string := hex (sha256 (join nul parts)).
Definition question_hash (version path : string) (status : AbstentionStatus) (reason : AbstentionReason) (question : string) : string :=
  clarifyingQuestionHash [version; path; abstention_status_text status; abstention_reason_text reason; question].
Definition trim_abstention (a : Abstention) : Abstention := mkAbstention (trim (ab_path a)) (ab_status a) (ab_reason a) (trim (ab_question a)).
Definition abstention_ok (a : Abstention) : bool := text_ok 1 1000 (ab_path a) && text_ok 1 2000 (ab_question a).
Definition question_of (version : string) (a : Abstention) : ClarifyingQuestion :=
  mkQuestion (ab_path a) (ab_status a) (ab_reason a) (ab_question a)
    (question_hash version (ab_path a) (ab_status a) (ab_reason a) (ab_question a)).
Definition add_question (version : string) (byPath : list (string * ClarifyingQuestion)) (a : Abstention) :
    result question_error (list (string * ClarifyingQuestion)) :=
  let question := question_of version a in
  _ ← guard_or (match map_get byPath (cq_path question) with Some prior => bool_decide (prior = question) | None => true end) CONFLICTING_ABSTENTION;
  Ok (map_set byPath (cq_path question) question).
Definition generateClarifyingQuestions (untrusted : list Abstention) (policyVersion : string) : result question_error (list ClarifyingQuestion) :=
  let abstentions := map trim_abstention untrusted in
  _ ← guard_or (within 0 30000 (length abstentions) && forallb abstention_ok abstentions && text_ok 1 200 (trim policyVersion)) QuestionSchemaError;
  byPath ← fold_res (add_question (trim policyVersion)) [] abstentions;
  Ok (js_sort (cmp_on cq_path localeCompare) byPath.*2).

(** ** The rows of an extraction *)

Definition PersistenceRow : Type := string * ExtractedValue.
Definition table_rows (t : ExtractedRateTable) : list PersistenceRow :=
  let base := table_base t in
  (base +:+ ".title", et_title t) :: map (λ c, (cell_path base c, tc_value c)) (et_cells t).
Definition flattenExtraction (e : ContractExtraction) : list PersistenceRow :=
  js_sort (cmp_on fst localeCompare)
    (map (λ f, (ef_path f, ef_value f)) (ex_fields e) ++ map (λ c, (clause_path c, ec_text c)) (ex_clauses e) ++
     concat (map table_rows (ex_rateTables e))).
End abstention.
