(* ===== verification/ExtractionSafety.v ===== *)
(** What extraction guarantees: an accepted answer carries the trusted pins,
    abstention never invents or keeps a doubtful value, and each doubt becomes one
    question. *)

From Stdlib Require Import QArith.
From S2P Require Import Prelude JsText Decimal Json Jsonb AuditLedger Manifest Proposals ProposalsSafety Resolver RateTable RateTableSafety Extraction.

#[local] Arguments trim : simpl never.

(** ** Trimming *)

Lemma trim_end_snoc s c : is_ws c = false → trim_end (s +:+ String c "") = s +:+ String c "".
Proof.
  intros Hc. induction s as [|d s IH]; cbn; [by rewrite Hc|]. rewrite IH. by destruct s.
Qed.
Lemma trim_closed c s d : is_ws c = false → is_ws d = false → trim (String c (s +:+ String d "")) = String c (s +:+ String d "").
Proof.
  intros Hc Hd. unfold trim. cbn [trim_start]. rewrite Hc. change (String c (s +:+ String d "")) with (String c s +:+ String d "").
  by apply trim_end_snoc.
Qed.
Lemma trim_opt_idem (o : option string) : trim <$> (trim <$> o) = trim <$> o.
Proof. destruct o; cbn; [by rewrite trim_idem|done]. Qed.
Lemma trim_citation_idem c : trim_citation (trim_citation c) = trim_citation c.
Proof. unfold trim_citation. cbn. by rewrite trim_idem. Qed.
Lemma map_idem {A} (f : A → A) l : (∀ x, f (f x) = f x) → map f (map f l) = map f l.
Proof. intros Hf. rewrite map_map. apply map_ext. done. Qed.
Lemma trim_value_idem v : trim_value (trim_value v) = trim_value v.
Proof. destruct v; cbn; by rewrite ?trim_idem, ?trim_opt_idem, ?(map_idem trim_citation) by apply trim_citation_idem. Qed.
Lemma trim_cell_idem c : trim_cell (trim_cell c) = trim_cell c.
Proof. unfold trim_cell. cbn. by rewrite trim_value_idem. Qed.
Lemma trim_extraction_idem e : trim_extraction (trim_extraction e) = trim_extraction e.
Proof.
  unfold trim_extraction. cbn. f_equal.
  - unfold trim_model. cbn. by rewrite !trim_idem.
  - apply map_idem. intros f. unfold trim_field. cbn. by rewrite trim_idem, trim_value_idem.
  - apply map_idem. intros c. unfold trim_clause. cbn. by rewrite trim_idem, trim_value_idem, trim_opt_idem.
  - apply map_idem. intros t. unfold trim_table. cbn. rewrite trim_idem, trim_value_idem. f_equal. apply map_idem, trim_cell_idem.
Qed.

Section parsed.
Context {U : Unicode}.
Lemma parse_spec e e' : parseContractExtraction e = Some e' → e' = trim_extraction e ∧ extraction_ok e' = true.
Proof using Type. unfold parseContractExtraction. destruct (extraction_ok _) eqn:Hok; [|done]. by intros [= <-]. Qed.
Lemma parse_trimmed e e' : parseContractExtraction e = Some e' → trim_extraction e' = e'.
Proof using Type. intros [-> _]%parse_spec. apply trim_extraction_idem. Qed.
Lemma parse_again e e' : parseContractExtraction e = Some e' → parseContractExtraction e' = Some e'.
Proof using Type. intros Hp. unfold parseContractExtraction. rewrite (parse_trimmed _ _ Hp). by apply parse_spec in Hp as [_ ->]. Qed.
End parsed.

(** ** Pins *)

Section pins.
Context {U : Unicode} {C : Collator} {H : Sha256}.

(** The pins an answer claims, in its envelope and in its output. *)
Definition claimed (e : ContractExtraction) : ContractExtractionPins := mkPins (ex_model e) (ex_sourceDocumentSha256 e).
Lemma same_pins_eq a b : same_pins a b = true ↔ a = b.
Proof using Type.
  unfold same_pins. rewrite !andb_true_iff, !bool_decide_eq_true. destruct a as [[] ?], b as [[] ?]. cbn. split; [by intros [[[-> ->] ->] ->]|].
  by intros [= -> -> -> ->].
Qed.
(** An answer is accepted exactly when its envelope and its output both carry
    the trusted model, prompt and document, and the output passes the schema; what
    is returned is the trimmed output, under a key of its canonical text; every
    other answer is refused with the code of the first check it fails. *)
Theorem accepted_answers_are_pinned response expected : validateContractExtractionResponse response expected =
  match pinsSchema expected with
  | None => Err ExtractionSchemaError
  | Some pins =>
      match pinsSchema (rs_pins response), rs_output response with
      | Some p, Some output =>
          if decide (p = pins) then
            if extraction_ok (trim_extraction output) then
              if decide (claimed (trim_extraction output) = pins) then
                Ok (trim_extraction output, hex (sha256 (canonical localeCompare (extraction_json (trim_extraction output)))))
              else Err PIN_MISMATCH
            else Err INVALID_EXTRACTION
          else Err PIN_MISMATCH
      | _, _ => Err INVALID_RESPONSE_ENVELOPE
      end
  end.
Proof using Type.
  unfold validateContractExtractionResponse. destruct (pinsSchema expected) as [pins|]; [|done].
  destruct (pinsSchema (rs_pins response)) as [p|]; [|done]. destruct (rs_output response) as [output|]; [|done].
  destruct (decide (p = pins)) as [Hp|Hp].
  2: { destruct (same_pins p pins) eqn:Hs; [by apply same_pins_eq in Hs|done]. }
  rewrite (proj2 (same_pins_eq p pins) Hp). unfold parseContractExtraction. destruct (extraction_ok _) eqn:Hok; [|done].
  fold (claimed (trim_extraction output)). destruct (decide (claimed _ = pins)) as [Hc|Hc].
  2: { destruct (same_pins (claimed _) pins) eqn:Hs; [by apply same_pins_eq in Hs|done]. }
  rewrite (proj2 (same_pins_eq _ pins) Hc). unfold contractExtractionIdempotencyKey, parseContractExtraction.
  by rewrite trim_extraction_idem, Hok.
Qed.
End pins.

(** ** What abstention does to each value *)

(** A value, where it is, and the question the policy has for it. *)
Definition pending_value : Type := string * ExtractedValue * option string.
Definition treated (minimum : js_number) (p : pending_value) : PersistenceRow := (p.1.1, (applyToValue p.1.2 p.1.1 minimum p.2).1).
Definition raised (minimum : js_number) (p : pending_value) : list Abstention := (applyToValue p.1.2 p.1.1 minimum p.2).2.
Definition all_rows (e : ContractExtraction) : list PersistenceRow :=
  map (λ f, (ef_path f, ef_value f)) (ex_fields e) ++ map (λ c, (clause_path c, ec_text c)) (ex_clauses e) ++
  concat (map table_rows (ex_rateTables e)).
Definition unasked (r : PersistenceRow) : pending_value := (r, None).
Definition pending_values (required : list (string * string)) (e : ContractExtraction) : list pending_value :=
  map (λ f, (ef_path f, ef_value f, map_get required (ef_path f))) (ex_fields e) ++
  map unasked (map (λ c, (clause_path c, ec_text c)) (ex_clauses e) ++ concat (map table_rows (ex_rateTables e))).
Definition orientation_doubt (t : ExtractedRateTable) : list Abstention :=
  match et_orientation t with
  | None => [mkAbstention (table_base t +:+ ".orientation") AMBIGUOUS AMBIGUOUS_TABLE_ORIENTATION (orientation_question t)]
  | Some _ => []
  end.
Definition missing_row (r : RequiredField) : PersistenceRow := (rq_path r, ABSTAIN NOT_FOUND None (JsFinite "0") [] (rq_question r)).
Definition missing_doubt (r : RequiredField) : Abstention := mkAbstention (rq_path r) NOT_FOUND MISSING_REQUIRED_FIELD (rq_question r).

Lemma pending_rows required e : map fst (pending_values required e) = all_rows e.
Proof. unfold pending_values, all_rows. rewrite map_app, !map_map. f_equal. by rewrite map_id. Qed.

Lemma apply_field_eq required minimum f : apply_field required minimum f =
  let p := (ef_path f, ef_value f, map_get required (ef_path f)) in
  (mkField (ef_path f) (ef_semanticType f) (treated minimum p).2, raised minimum p).
Proof. unfold apply_field, treated, raised. cbn. by destruct (applyToValue _ _ _ _). Qed.
Lemma apply_clause_eq minimum c : apply_clause minimum c =
  let p := unasked (clause_path c, ec_text c) in
  (mkExtractedClause (ec_clauseReference c) (ec_title c) (treated minimum p).2, raised minimum p).
Proof. unfold apply_clause, treated, raised. cbn. by destruct (applyToValue _ _ _ _). Qed.
Lemma apply_cell_eq base minimum c : apply_cell base minimum c =
  let p := unasked (cell_path base c, tc_value c) in
  (mkRateCell (tc_rowIndex c) (tc_columnIndex c) (tc_rowSpan c) (tc_columnSpan c) (tc_role c) (treated minimum p).2, raised minimum p).
Proof. unfold apply_cell, treated, raised. cbn. by destruct (applyToValue _ _ _ _). Qed.
Lemma apply_table_eq minimum t : apply_table minimum t =
  let p := unasked (table_base t +:+ ".title", et_title t) in
  let cells := map (apply_cell (table_base t) minimum) (et_cells t) in
  (mkRateTable (et_tableKey t) (treated minimum p).2 (et_orientation t) (et_rowCount t) (et_columnCount t) (map fst cells),
   raised minimum p ++ concat (map snd cells) ++ orientation_doubt t).
Proof. unfold apply_table, treated, raised. cbn. by destruct (applyToValue _ _ _ _). Qed.
Lemma apply_table_rows minimum t : table_rows (apply_table minimum t).1 = map (treated minimum ∘ unasked) (table_rows t) ∧
  (apply_table minimum t).2 = concat (map (raised minimum ∘ unasked) (table_rows t)) ++ orientation_doubt t.
Proof.
  rewrite apply_table_eq. cbn zeta. unfold table_rows. cbn [fst snd et_title et_cells map concat]. split.
  - f_equal. rewrite !map_map. apply map_ext. intros c. by rewrite apply_cell_eq.
  - rewrite <- app_assoc. f_equal. f_equal. rewrite !map_map. f_equal. apply map_ext. intros c. by rewrite apply_cell_eq.
Qed.

Lemma require_fields_spec reqs : ∀ fields pushed fields' pushed',
  fold_left require_field reqs (Some (fields, pushed)) = Some (fields', pushed') →
  ∃ missing, fields' = fields ++ map (λ r, mkField (rq_path r) (rq_semanticType r) (missing_row r).2) missing ∧
    pushed' = pushed ++ map missing_doubt missing ∧ (∀ r, r ∈ missing → r ∈ reqs) ∧ ∀ r, r ∈ reqs → rq_path r ∈ map ef_path fields'.
Proof.
  assert (∀ reqs, fold_left require_field reqs None = None) as Hnone by (intros l; induction l; done).
  induction reqs as [|r reqs IH]; intros fields pushed fields' pushed'; cbn [fold_left].
  { intros [= <- <-]. exists []. cbn. rewrite !app_nil_r. split_and!; [done..|set_solver|set_solver]. }
  unfold require_field at 2. cbn [mbind option_bind].
  case_bool_decide as Hin.
  - intros (missing & Hf & Hp & Hm & Hr)%IH. exists missing. split; [done|]. split; [done|]. split; [set_solver|].
    intros x [->|Hx]%elem_of_cons; [|by apply Hr]. rewrite Hf, map_app. set_solver.
  - destruct (fieldPathSchema (rq_path r)); [|by rewrite Hnone]. intros (missing & Hf & Hp & Hm & Hr)%IH.
    exists (r :: missing). split; [by rewrite Hf, <- app_assoc|]. split; [by rewrite Hp, <- app_assoc|]. split; [set_solver|].
    intros x [->|Hx]%elem_of_cons; [|by apply Hr]. rewrite Hf, !map_app. set_solver.
Qed.

Lemma trim_question path : trim ("Please verify " +:+ path +:+ " against the cited contract source.") =
  "Please verify " +:+ path +:+ " against the cited contract source.".
Proof.
  change (" against the cited contract source.") with (" against the cited contract source" +:+ "."). rewrite <- (sapp_assoc path).
  change ("Please verify " +:+ ?x) with (String "P" ("lease verify " +:+ x)). rewrite <- (sapp_assoc "lease verify "). by apply trim_closed.
Qed.
Lemma trim_treated minimum (p : pending_value) : trim_value p.1.2 = p.1.2 → (∀ q, p.2 = Some q → trim q = q) →
  trim_value (treated minimum p).2 = (treated minimum p).2.
Proof.
  destruct p as [[path v] preferred]. unfold treated. cbn. intros Hv Hq. destruct v as [raw normalized confidence citations|]; [|done]. cbn in *.
  injection Hv as Hraw Hn Hc. destruct (number_gte _ _); cbn; [by rewrite Hraw, Hn, Hc|]. rewrite Hraw, Hc. f_equal.
  destruct preferred as [q|]; cbn; [by apply Hq|apply trim_question].
Qed.

#[local] Arguments treated : simpl never.
#[local] Arguments raised : simpl never.

Section abstention.
Context {U : Unicode} {C : Collator} {H : Sha256}.

Definition questions_asked (policy : AbstentionPolicy) : list (string * string) :=
  map (λ r, (rq_path r, rq_question r)) (po_requiredFields policy).
Lemma policy_spec p policy : ContractExtractionAbstentionPolicySchema p = Some policy →
  policy_ok policy = true ∧ (∀ r, r ∈ po_requiredFields policy → trim (rq_path r) = rq_path r ∧ trim (rq_question r) = rq_question r) ∧
  map_of (questions_asked policy) = questions_asked policy.
Proof using Type.
  unfold ContractExtractionAbstentionPolicySchema. destruct (policy_ok _) eqn:Hok; [|done]. intros [= <-]. split; [done|]. split.
  - intros r Hr. cbn in Hr. apply list_elem_of_fmap in Hr as (x & -> & _). cbn. by rewrite !trim_idem.
  - apply map_of_distinct. unfold policy_ok in Hok. rewrite !andb_true_iff, bool_decide_eq_true in Hok. destruct Hok as [_ Hnd].
    unfold questions_asked. change ((map ?f ?l).*1) with (map fst (map f l)). by rewrite map_map.
Qed.

(** The extraction before its last check, field by field. *)
Lemma trimmed_extraction e : trim_extraction e = e → 
  (∀ f, f ∈ ex_fields e → trim (ef_path f) = ef_path f ∧ trim_value (ef_value f) = ef_value f) ∧
  (∀ c, c ∈ ex_clauses e → trim_clause c = c) ∧ (∀ t, t ∈ ex_rateTables e → trim_table t = t) ∧ trim_model (ex_model e) = ex_model e.
Proof using Type.
  assert (∀ A (g : A → A) l, map g l = l → ∀ x, x ∈ l → g x = x) as Hmap.
  { intros A g l. induction l as [|x l IH]; [set_solver|]. cbn. intros [= Hx Hl] y [->|Hy]%elem_of_cons; auto. }
  destruct e as [v s m fields clauses tables]. unfold trim_extraction. cbn. intros [= Hm Hf Hc Ht]. split.
  - intros f Hin. pose proof (Hmap _ _ _ Hf f Hin) as He. destruct f. unfold trim_field in He. cbn in *. by injection He as -> ->.
  - split; [by apply Hmap|]. split; [by apply Hmap|done].
Qed.
Lemma perm_eq {A} (l k : list A) : l = k → l ≡ₚ k.
Proof using Type. by intros ->. Qed.
Lemma map_fixed {A} (g : A → A) l : (∀ x, x ∈ l → g x = x) → map g l = l.
Proof using Type. induction l as [|x l IH]; [done|]. cbn. intros Hg. rewrite Hg, IH by set_solver. done. Qed.

(** The extraction before its last check. *)
Definition applied (e : ContractExtraction) (minimum : js_number) (fields : list ExtractionField) : ContractExtraction :=
  mkExtraction (ex_schemaVersion e) (ex_sourceDocumentSha256 e) (ex_model e) (js_sort path_order fields)
    (map (apply_clause minimum) (ex_clauses e)).*1 (map (apply_table minimum) (ex_rateTables e)).*1.
Definition treated_fields (policy : AbstentionPolicy) (e : ContractExtraction) (missing : list RequiredField) : list ExtractionField :=
  (map (apply_field (questions_asked policy) (po_minimumConfidence policy)) (ex_fields e)).*1 ++
  map (λ r, mkField (rq_path r) (rq_semanticType r) (missing_row r).2) missing.
Lemma question_trimmed p policy path q : ContractExtractionAbstentionPolicySchema p = Some policy →
  map_get (questions_asked policy) path = Some q → trim q = q.
Proof using Type.
  intros (_ & Hptrim & _)%policy_spec Hq%map_get_elem. apply list_elem_of_fmap in Hq as (y & [= _ ->] & Hy). by apply Hptrim.
Qed.
Lemma trim_applied_table minimum t : trim_table t = t → trim_table (apply_table minimum t).1 = (apply_table minimum t).1.
Proof using Type.
  rewrite apply_table_eq. unfold trim_table. destruct t as [key title orientation rc cc cells]. cbn. intros [= H1 H2 H3].
  rewrite H1. f_equal; [by apply (trim_treated _ (unasked _))|]. rewrite !map_map. apply map_ext_in. intros c Hc. rewrite apply_cell_eq.
  unfold trim_cell. cbn. f_equal. apply (trim_treated _ (unasked _)); [|done]. cbn.
  assert (trim_cell c = c) as Hcell; [|destruct c; unfold trim_cell in Hcell; cbn in *; by injection Hcell].
  apply list_elem_of_In in Hc. revert c Hc. clear -H3. induction cells as [|d cells IH]; [set_solver|]. cbn in H3. injection H3 as Hd Hcs.
  intros c [->|Hc]%elem_of_cons; auto.
Qed.
Lemma trim_applied p policy e missing : ContractExtractionAbstentionPolicySchema p = Some policy → trim_extraction e = e →
  (∀ r, r ∈ missing → r ∈ po_requiredFields policy) →
  let x := applied e (po_minimumConfidence policy) (treated_fields policy e missing) in trim_extraction x = x.
Proof using Type.
  intros Hp He Hm. destruct (trimmed_extraction e He) as (Hfe & Hce & Hte & Hme). destruct (policy_spec _ _ Hp) as (_ & Hptrim & _).
  unfold applied, trim_extraction. cbn. rewrite Hme. f_equal; apply map_fixed.
  - intros f Hin. unfold treated_fields in Hin. rewrite elem_of_js_sort, elem_of_app in Hin. destruct Hin as [Hin|Hin].
    + apply list_elem_of_fmap in Hin as (y & -> & Hin). apply list_elem_of_fmap in Hin as (z & -> & Hz). destruct (Hfe z Hz) as [Hpz Hvz].
      rewrite apply_field_eq. unfold trim_field. cbn. rewrite Hpz. f_equal. apply trim_treated; cbn; [done|].
      intros q. by apply (question_trimmed p).
    + apply list_elem_of_fmap in Hin as (z & -> & Hz). unfold trim_field. cbn. destruct (Hptrim z (Hm z Hz)) as [-> ->]. done.
  - intros c Hin. apply list_elem_of_fmap in Hin as (y & -> & Hin). apply list_elem_of_fmap in Hin as (z & -> & Hz). specialize (Hce z Hz).
    rewrite apply_clause_eq. unfold trim_clause in *. cbn. destruct z as [reference title text]. cbn in *. injection Hce as H1 H2 H3.
    rewrite H1, H2. f_equal. by apply (trim_treated _ (unasked _)).
  - intros t Hin. apply list_elem_of_fmap in Hin as (y & -> & Hin). apply list_elem_of_fmap in Hin as (z & -> & Hz).
    by apply trim_applied_table, Hte.
Qed.
Lemma applied_rows policy e missing : let minimum := po_minimumConfidence policy in
  all_rows (applied e minimum (treated_fields policy e missing)) ≡ₚ
  map (treated minimum) (pending_values (questions_asked policy) e) ++ map missing_row missing.
Proof using Type.
  unfold all_rows, pending_values, applied, treated_fields. cbn [ex_fields ex_clauses ex_rateTables].
  rewrite js_sort_perm, !map_app, <- !app_assoc. change ((map ?f ?l).*1) with (map fst (map f l)). rewrite !map_map. apply Permutation_app.
  { apply perm_eq. apply map_ext. intros f. by rewrite apply_field_eq. }
  rewrite Permutation_app_comm, <- !app_assoc. apply Permutation_app.
  { apply perm_eq. apply map_ext. intros c. by rewrite apply_clause_eq. }
  apply Permutation_app; [|apply perm_eq, map_ext; done].
  apply perm_eq. rewrite concat_map, !map_map. f_equal. apply map_ext. intros t. rewrite (proj1 (apply_table_rows _ t)). done.
Qed.
Lemma applied_doubts policy e missing : let minimum := po_minimumConfidence policy in
  (concat (map (apply_field (questions_asked policy) minimum) (ex_fields e)).*2 ++ map missing_doubt missing) ++
  concat (map (apply_clause minimum) (ex_clauses e)).*2 ++ concat (map (apply_table minimum) (ex_rateTables e)).*2 ≡ₚ
  concat (map (raised minimum) (pending_values (questions_asked policy) e)) ++ map missing_doubt missing ++
  concat (map orientation_doubt (ex_rateTables e)).
Proof using Type.
  unfold pending_values. cbn zeta. rewrite !map_app, !concat_app, <- !app_assoc.
  change ((map ?f ?l).*2) with (map snd (map f l)). rewrite !map_map. apply Permutation_app.
  { apply perm_eq. f_equal. apply map_ext. intros f. by rewrite apply_field_eq. }
  rewrite Permutation_app_comm, <- !app_assoc. apply Permutation_app.
  { apply perm_eq. f_equal. apply map_ext. intros c. by rewrite apply_clause_eq. }
  rewrite (Permutation_app_comm (map missing_doubt missing)). rewrite app_assoc. apply Permutation_app; [|done].
  induction (ex_rateTables e) as [|t l IH]; [done|]. cbn [map concat]. rewrite (proj2 (apply_table_rows _ t)), IH.
  rewrite map_app, concat_app, <- !app_assoc. apply Permutation_app_head. rewrite !app_assoc. apply Permutation_app_tail, Permutation_app_comm.
Qed.
Lemma apply_spec untrusted p r : applyContractExtractionAbstention untrusted p = Some r →
  ∃ e policy missing, parseContractExtraction untrusted = Some e ∧ ContractExtractionAbstentionPolicySchema p = Some policy ∧
    let pending := pending_values (questions_asked policy) e in
    let minimum := po_minimumConfidence policy in
    all_rows (ar_extraction r) ≡ₚ map (treated minimum) pending ++ map missing_row missing ∧
    ar_abstentions r ≡ₚ concat (map (raised minimum) pending) ++ map missing_doubt missing ++ concat (map orientation_doubt (ex_rateTables e)) ∧
    (∀ q, q ∈ missing → q ∈ po_requiredFields policy) ∧
    (∀ q, q ∈ po_requiredFields policy → rq_path q ∈ map ef_path (ex_fields (ar_extraction r))) ∧
    extraction_ok (ar_extraction r) = true ∧ map table_base (ex_rateTables (ar_extraction r)) = map table_base (ex_rateTables e) ∧
    ar_policyVersion r = po_version policy.
Proof using Type.
  unfold applyContractExtractionAbstention. intros (e & He & Hr)%bind_Some. apply bind_Some in Hr as (policy & Hp & Hr).
  destruct (policy_spec _ _ Hp) as (_ & _ & Hmap). fold (questions_asked policy) in Hr. rewrite Hmap in Hr.
  apply bind_Some in Hr as ([fields pushed] & Hreq & Hr). apply bind_Some in Hr as (x & Hx & [= <-]).
  apply require_fields_spec in Hreq as (missing & Hf & Hpush & Hm & Hrq). fold (treated_fields policy e missing) in Hf. subst fields pushed.
  fold (applied e (po_minimumConfidence policy) (treated_fields policy e missing)) in Hx.
  apply parse_spec in Hx as [Hx Hok]. rewrite (trim_applied p) in Hx by (done || by eapply parse_trimmed). subst x.
  exists e, policy, missing. split; [done|]. split; [done|]. cbn zeta. split; [apply applied_rows|]. split; [cbn [ar_abstentions]; rewrite js_sort_perm; apply applied_doubts|].
  split; [done|]. split; [|split; [done|split; [|done]]].
  - intros q Hq. specialize (Hrq q Hq). cbn. by rewrite js_sort_perm.
  - cbn. change ((map ?f ?l).*1) with (map fst (map f l)). rewrite !map_map. apply map_ext. intros t. by rewrite apply_table_eq.
Qed.

Lemma elem_of_flatten e x : x ∈ flattenExtraction e ↔ x ∈ all_rows e.
Proof using Type. apply elem_of_js_sort. Qed.
Lemma pending_row required e x : x ∈ pending_values required e → x.1 ∈ all_rows e.
Proof using Type. intros Hx. rewrite <- (pending_rows required). by apply list_elem_of_fmap_2. Qed.
Lemma row_pending required e x : x ∈ all_rows e → ∃ y, y ∈ pending_values required e ∧ y.1 = x.
Proof using Type. rewrite <- (pending_rows required). intros (y & -> & Hy)%list_elem_of_fmap. by exists y. Qed.
Lemma treated_cases minimum (x : pending_value) path v : treated minimum x = (path, v) →
  match v with
  | FOUND _ _ confidence _ => x.1 = (path, v) ∧ number_gte confidence minimum = true
  | ABSTAIN status raw confidence citations question =>
      (∃ reason, raised minimum x = [mkAbstention path status reason question]) ∧
      (x.1 = (path, v) ∨ ∃ text normalized, raw = Some text ∧ status = AMBIGUOUS ∧
         x.1 = (path, FOUND text normalized confidence citations) ∧ number_gte confidence minimum = false)
  end.
Proof using Type.
  destruct x as [[path' w] preferred]. unfold treated, raised. cbn. destruct w as [raw normalized confidence citations|]; cbn.
  - destruct (number_gte confidence minimum) eqn:Hg; cbn; intros [= -> <-]; [done|]. split; [by eexists|]. right. by eexists _, _.
  - intros [= -> <-]. split; [by eexists|by left].
Qed.

(** C11: abstention is fail-safe: after it every FOUND value is one the model found,
    unchanged, with at least the policy's confidence; every other value is on the
    list of doubts with its question, and is the model's own abstention, a doubtful
    value stripped of its reading but with its text and citations, or a required
    field nobody found, with no text at all; no value of the model disappears, and
    no required field is left out. *)
Theorem abstention_fail_safe untrusted p r : applyContractExtractionAbstention untrusted p = Some r →
  ∃ e policy, parseContractExtraction untrusted = Some e ∧ ContractExtractionAbstentionPolicySchema p = Some policy ∧
    (∀ path v, (path, v) ∈ flattenExtraction (ar_extraction r) →
      match v with
      | FOUND _ _ confidence _ => (path, v) ∈ flattenExtraction e ∧ number_gte confidence (po_minimumConfidence policy) = true
      | ABSTAIN status raw confidence citations question =>
          (∃ reason, mkAbstention path status reason question ∈ ar_abstentions r) ∧
          ((path, v) ∈ flattenExtraction e ∨
           (∃ text normalized, raw = Some text ∧ status = AMBIGUOUS ∧
              (path, FOUND text normalized confidence citations) ∈ flattenExtraction e ∧
              number_gte confidence (po_minimumConfidence policy) = false) ∨
           raw = None ∧ citations = [] ∧ status = NOT_FOUND ∧ path ∈ map rq_path (po_requiredFields policy))
      end) ∧
    (∀ path v, (path, v) ∈ flattenExtraction e → ∃ v', (path, v') ∈ flattenExtraction (ar_extraction r)) ∧
    ∀ q, q ∈ po_requiredFields policy → ∃ v, (rq_path q, v) ∈ flattenExtraction (ar_extraction r).
Proof using Type.
  intros (e & policy & missing & He & Hp & Hrows & Hdoubts & Hm & Hrq & _)%apply_spec. exists e, policy. split; [done|]. split; [done|].
  set (minimum := po_minimumConfidence policy) in *. set (pending := pending_values (questions_asked policy) e) in *.
  split; [|split].
  - intros path v. rewrite elem_of_flatten, Hrows, elem_of_app. intros [(x & Hx & Hin)%list_elem_of_fmap|(q & [= -> ->] & Hin)%list_elem_of_fmap].
    + pose proof (treated_cases minimum x path v (eq_sym Hx)) as Hcase. pose proof (pending_row _ _ _ Hin) as Hrow. destruct v as [|status raw confidence citations question].
      * destruct Hcase as [Hx1 ?]. by rewrite elem_of_flatten, <- Hx1.
      * destruct Hcase as [[reason Hr] Hcase]. split.
        { exists reason. rewrite Hdoubts. apply elem_of_app. left. apply list_elem_of_In, in_concat. exists (raised minimum x).
          split; [by apply in_map, list_elem_of_In|rewrite Hr; by left]. }
        destruct Hcase as [Hx1|(text & normalized & ? & ? & Hx1 & ?)]; [left; by rewrite elem_of_flatten, <- Hx1|]. right. left.
        exists text, normalized. by rewrite elem_of_flatten, <- Hx1.
    + split; [|right; right; split_and!; [done..|]].
      * exists MISSING_REQUIRED_FIELD. rewrite Hdoubts, !elem_of_app. right. left. apply list_elem_of_fmap. by exists q.
      * apply list_elem_of_fmap. exists q. split; [done|by apply Hm].
  - intros path v. rewrite elem_of_flatten. intros (x & Hin & Hx)%(row_pending (questions_asked policy)). exists (treated minimum x).2.
    rewrite elem_of_flatten, Hrows, elem_of_app. left. apply list_elem_of_fmap. exists x. split; [|done].
    assert ((treated minimum x).1 = path) as <- by (destruct x as [[? ?] ?]; cbn in Hx; by injection Hx). by destruct (treated minimum x).
  - intros q Hq. specialize (Hrq q Hq). apply list_elem_of_fmap in Hrq as (f & Hf & Hin). exists (ef_value f).
    assert ((ef_path f, ef_value f) ∈ all_rows (ar_extraction r)) as Hall.
    { unfold all_rows. apply elem_of_app. left. apply list_elem_of_fmap. by exists f. }
    rewrite Hf. by apply elem_of_flatten.
Qed.
End abstention.

(** ** Paths tell rows apart *)

Lemma int_digits_all f n acc : string_all is_digit acc = true → string_all is_digit (int_digits f n acc) = true.
Proof.
  revert n acc. induction f as [|f IH]; intros n acc Hacc; [done|]. cbn [int_digits].
  assert (string_all is_digit (String (digit_char (n mod 10)) acc) = true) as H1.
  { cbn. rewrite Hacc, andb_true_r. pose proof (Z.mod_pos_bound n 10 ltac:(lia)) as Hb.
    assert (∀ k, (k < 10)%nat → is_digit (digit_char (Z.of_nat k)) = true) as Hd.
    { intros k Hk. do 10 (destruct k as [|k]; [reflexivity|]). lia. }
    rewrite <- (Z2Nat.id (n mod 10)) by lia. apply Hd. lia. }
  destruct (n / 10 =? 0); [done|by apply IH].
Qed.
Lemma nat_text_numeral n : string_all numeral_char (nat_text n "") = true.
Proof.
  assert (string_all is_digit (nat_text n "") = true) as Hd by by apply int_digits_all.
  revert Hd. generalize (nat_text n ""). intros s. induction s as [|c s IH]; [done|]. cbn. intros [Hc Hs]%andb_true_iff.
  unfold numeral_char. rewrite Hc. by apply IH.
Qed.
Lemma nat_text_inj n m : 0 <= n → 0 <= m → nat_text n "" = nat_text m "" → n = m.
Proof.
  intros Hn Hm Heq. pose proof (scan_nat_text n "" Hn) as H1. rewrite Heq, scan_nat_text in H1 by done. cbn in H1. by injection H1.
Qed.
Lemma string_any_app p s t : string_any p (s +:+ t) = string_any p s || string_any p t.
Proof. induction s as [|c s IH]; [done|]. cbn. by rewrite IH, orb_assoc. Qed.
Definition has_quote : string → bool := string_any (λ c, bool_decide (c = dquote)).
Lemma quote_has_quote s : has_quote (quote s) = true.
Proof. done. Qed.
Lemma path_unquoted s : ∀ st, path_matches st s = true → has_quote s = false.
Proof.
  induction s as [|c s IH]; intros st; [done|]. cbn [path_matches]. unfold has_quote. cbn [string_any]. fold (has_quote s).
  assert (∀ st, path_matches st s = true → bool_decide (c = dquote) = false → bool_decide (c = dquote) || has_quote s = false) as Hgo.
  { intros st' Hs ->. by apply (IH st'). }
  assert (∀ d, bool_decide (c = d) = true → d ≠ dquote → bool_decide (c = dquote) = false) as Hd.
  { intros d ->%bool_decide_eq_true Hne. by apply bool_decide_eq_false. }
  assert (is_word c = true → bool_decide (c = dquote) = false) as Hw by (intros Hw; apply bool_decide_eq_false; by intros ->).
  assert (is_lower c = true → bool_decide (c = dquote) = false) as Hl by (intros Hl; apply bool_decide_eq_false; by intros ->).
  destruct st; [intros [? ?]%andb_true_iff; eauto| | | |].
  - destruct (is_word c); [eauto|]. destruct (bool_decide (c = "["%char)) eqn:E; [eauto|]. intros [? ?]%andb_true_iff. eauto.
  - intros [[?|?]%orb_true_iff ?]%andb_true_iff; eauto.
  - destruct (is_word c || bool_decide (c = "-"%char)) eqn:E; [apply orb_true_iff in E as [?|?]; eauto|]. intros [? ?]%andb_true_iff. eauto.
  - destruct (bool_decide (c = "["%char)) eqn:E; [eauto|]. intros [? ?]%andb_true_iff. eauto.
Qed.

Lemma NoDup_concat_key {A B K} (key : A → K) (f : A → list B) (l : list A) : NoDup (map key l) → (∀ a, a ∈ l → NoDup (f a)) →
  (∀ a b x, a ∈ l → b ∈ l → x ∈ f a → x ∈ f b → key a = key b) → NoDup (concat (map f l)).
Proof.
  induction l as [|a l IH]; [constructor|]. cbn. intros [Ha Hl]%NoDup_cons Hf Hk. apply NoDup_app. split; [apply Hf; set_solver|]. split.
  - intros x Hx Hin. apply list_elem_of_In, in_concat in Hin as (y & (b & <- & Hb)%in_map_iff & Hxb). apply list_elem_of_In in Hb, Hxb.
    apply Ha. rewrite (Hk a b x) by set_solver. by apply list_elem_of_fmap_2.
  - apply IH; [done|intros b Hb; apply Hf; set_solver|]. intros b c x Hb Hc. apply Hk; set_solver.
Qed.

Lemma table_base_inj t t' x y : table_base t +:+ x = table_base t' +:+ y → et_tableKey t = et_tableKey t' ∧ x = y.
Proof.
  unfold table_base. rewrite !sapp_assoc. intros H%(inj (String.append "rateTables[")). apply quote_inj in H as [-> H].
  split; [done|]. by apply (inj (String.append "]")) in H.
Qed.
Lemma cell_path_inj base c c' : 0 <= tc_rowIndex c → 0 <= tc_rowIndex c' → 0 <= tc_columnIndex c → 0 <= tc_columnIndex c' →
  cell_path base c = cell_path base c' → tc_rowIndex c = tc_rowIndex c' ∧ tc_columnIndex c = tc_columnIndex c'.
Proof.
  intros H1 H2 H3 H4 H%(inj (String.append base)). apply (inj (String.append ".cells[")) in H.
  apply numeral_inj in H as [Hr H]; [|apply nat_text_numeral..|done|done]. apply (inj (String.append ",")) in H.
  apply numeral_inj in H as [Hc _]; [|apply nat_text_numeral..|done|done]. split; by apply nat_text_inj.
Qed.

(** Every path a table has. *)
Definition table_paths (t : ExtractedRateTable) : list string := map fst (table_rows t) ++ [table_base t +:+ ".orientation"].
Lemma cells_distinct t : table_ok t = true → NoDup (map (λ c, (tc_rowIndex c, tc_columnIndex c)) (et_cells t)) ∧
  ∀ c, c ∈ et_cells t → 0 <= tc_rowIndex c ∧ 0 <= tc_columnIndex c.
Proof.
  unfold table_ok, table_refined. rewrite !andb_true_iff, bool_decide_eq_true, (forallb_forall cell_ok). intros [[_ Hcells] [_ Hnd]].
  assert (∀ c, c ∈ et_cells t → 0 <= tc_rowIndex c ∧ 0 <= tc_columnIndex c ∧ (tc_rowIndex c, tc_columnIndex c) ∈ cell_squares c) as Hc.
  { intros c Hc%list_elem_of_In. specialize (Hcells c Hc). unfold cell_ok, up_to, z_positive, z_nonnegative in Hcells. rewrite !andb_true_iff in Hcells.
    split; [lia|]. split; [lia|]. unfold cell_squares. apply list_elem_of_bind. exists (tc_rowIndex c). split; [|apply elem_of_seqZ; lia].
    apply list_elem_of_bind. exists (tc_columnIndex c). split; [set_solver|apply elem_of_seqZ; lia]. }
  split; [|intros c Hin; by apply Hc in Hin as (? & ? & _)]. clear Hcells. induction (et_cells t) as [|c l IH]; [constructor|]. cbn in *.
  apply NoDup_app in Hnd as (_ & Hdis & Hnd). apply NoDup_cons. split; [|apply IH; [done|intros d Hd; apply Hc; set_solver]].
  intros (d & Heq & Hd)%list_elem_of_fmap. destruct (Hc c ltac:(set_solver)) as (_ & _ & H1). destruct (Hc d ltac:(set_solver)) as (_ & _ & H2).
  rewrite <- Heq in H2. apply (Hdis _ H1). apply list_elem_of_In, in_concat. exists (cell_squares d). split; [|by apply list_elem_of_In].
  apply in_map. by apply list_elem_of_In.
Qed.
Lemma table_paths_distinct t : table_ok t = true → NoDup (table_paths t).
Proof.
  intros [Hnd Hpos]%cells_distinct. unfold table_paths, table_rows. cbn [map fst app]. rewrite map_map. cbn [fst].
  assert (∀ x, x ∈ map (cell_path (table_base t)) (et_cells t) → ∃ y, x = table_base t +:+ (".cells[" +:+ y)) as Hcell.
  { intros x (c & -> & _)%list_elem_of_fmap. by eexists. }
  apply NoDup_cons. split.
  - intros [(y & Hy%(inj (String.append (table_base t))))%Hcell|Hin%list_elem_of_singleton]%elem_of_app; [done|].
    by apply (inj (String.append (table_base t))) in Hin.
  - apply NoDup_app. split; [|split; [|apply NoDup_singleton]].
    + clear Hcell. induction (et_cells t) as [|c l IH]; [constructor|]. cbn [map] in *. apply NoDup_cons in Hnd as [Hc Hnd].
      apply NoDup_cons. split; [|apply IH; [done|intros d Hd; apply Hpos; set_solver]]. intros (d & Heq & Hd)%list_elem_of_fmap. apply Hc.
      destruct (Hpos c ltac:(set_solver)), (Hpos d ltac:(set_solver)).
      apply cell_path_inj in Heq as [Hr Hcol]; [|done..]. rewrite Hr, Hcol. apply list_elem_of_fmap. by exists d.
    + intros x (y & ->)%Hcell Hin%list_elem_of_singleton. by apply (inj (String.append (table_base t))) in Hin.
Qed.

Section questions.
Context {U : Unicode} {C : Collator} {H : Sha256}.

Definition all_paths (e : ContractExtraction) : list string :=
  map ef_path (ex_fields e) ++ map clause_path (ex_clauses e) ++ concat (map table_paths (ex_rateTables e)).
Lemma rejectDuplicates_spec l : rejectDuplicates l = true → NoDup l.
Proof using Type. unfold rejectDuplicates. rewrite bool_decide_eq_true. apply NoDup_fmap_1. Qed.
Lemma quoted_paths e x : x ∈ map clause_path (ex_clauses e) ++ concat (map table_paths (ex_rateTables e)) → has_quote x = true.
Proof using Type.
  intros [(c & -> & _)%list_elem_of_fmap|Hx]%elem_of_app; [unfold clause_path, has_quote; by rewrite !string_any_app|].
  apply list_elem_of_In, in_concat in Hx as (l & (t & <- & _)%in_map_iff & Hx).
  assert (∃ y, x = table_base t +:+ y) as [y ->].
  { apply list_elem_of_In in Hx. unfold table_paths, table_rows in Hx. cbn [map fst app] in Hx. rewrite map_map in Hx.
    apply elem_of_cons in Hx as [->|[(c & -> & _)%list_elem_of_fmap| ->%list_elem_of_singleton]%elem_of_app]; by eexists. }
  unfold table_base, has_quote. rewrite !string_any_app. fold (has_quote (quote (et_tableKey t))). by rewrite quote_has_quote.
Qed.
Lemma table_path_base t x : x ∈ table_paths t → ∃ y, x = table_base t +:+ y.
Proof using Type.
  unfold table_paths, table_rows. cbn [map fst app]. rewrite map_map.
  intros [->|[(c & -> & _)%list_elem_of_fmap| ->%list_elem_of_singleton]%elem_of_app]%elem_of_cons; by eexists.
Qed.
Lemma extraction_ok_inv e : extraction_ok e = true → Forall (λ f, field_ok f = true) (ex_fields e) ∧
  Forall (λ c, clause_ok c = true) (ex_clauses e) ∧ Forall (λ t, table_ok t = true) (ex_rateTables e) ∧
  NoDup (map ef_path (ex_fields e)) ∧ NoDup (map ec_clauseReference (ex_clauses e)) ∧ NoDup (map et_tableKey (ex_rateTables e)).
Proof using Type.
  unfold extraction_ok. rewrite !andb_true_iff, !forallb_forall, !Forall_forall. setoid_rewrite list_elem_of_In.
  intros H0. split_and!; try apply rejectDuplicates_spec; tauto.
Qed.
Lemma all_paths_distinct e : extraction_ok e = true → NoDup (all_paths e).
Proof using Type.
  intros (Hfs & Hcs & Hts & Hf & Hc & Ht)%extraction_ok_inv. rewrite !Forall_forall in *. unfold all_paths. apply NoDup_app. split; [done|]. split.
  - intros x (f & -> & Hin)%list_elem_of_fmap Hq%quoted_paths. specialize (Hfs f Hin). unfold field_ok in Hfs. rewrite !andb_true_iff in Hfs.
    destruct Hfs as [[_ Hp] _]. by rewrite (path_unquoted _ _ Hp) in Hq.
  - apply NoDup_app. split; [|split].
    + clear -Hc. induction (ex_clauses e) as [|c l IH]; [constructor|]. cbn [map] in *. apply NoDup_cons in Hc as [Hn Hc].
      apply NoDup_cons. split; [|by apply IH]. intros (d & Heq & Hd)%list_elem_of_fmap. apply Hn. unfold clause_path in Heq.
      apply (inj (String.append "clauses[")), quote_inj in Heq as [-> _]. by apply list_elem_of_fmap_2.
    + intros x (c & -> & _)%list_elem_of_fmap Hin. apply list_elem_of_In, in_concat in Hin as (l & (t & <- & _)%in_map_iff & Hx).
      apply list_elem_of_In, table_path_base in Hx as [y Hy]. done.
    + apply (NoDup_concat_key et_tableKey); [done|intros t Hin; by apply table_paths_distinct, Hts|].
      intros t t' x _ _ [y ->]%table_path_base [z Hz]%table_path_base. by apply table_base_inj in Hz as [-> _].
Qed.

(** The paths of the doubts are among those of the rows and the tables. *)
Lemma raised_path minimum x : map ab_path (raised minimum x) = [] ∨ map ab_path (raised minimum x) = [(treated minimum x).1].
Proof using Type.
  destruct x as [[path v] preferred]. unfold raised, treated. destruct v; cbn; [|by right]. destruct (number_gte _ _); [by left|by right].
Qed.
Definition orientation_path (t : ExtractedRateTable) : string := table_base t +:+ ".orientation".
Lemma all_rows_paths e : map fst (all_rows e) ++ map orientation_path (ex_rateTables e) ≡ₚ all_paths e.
Proof using Type.
  unfold all_rows, all_paths. rewrite !map_app, !map_map, <- !app_assoc. apply Permutation_app; [done|]. apply Permutation_app; [done|].
  induction (ex_rateTables e) as [|t l IH]; [done|]. cbn [map concat]. unfold table_paths at 1. rewrite map_app, <- IH, <- !app_assoc.
  apply Permutation_app_head. symmetry. apply (Permutation_middle (map fst (concat (map table_rows l))) (map orientation_path l)).
Qed.
Lemma NoDup_raised minimum l rest : NoDup (map (λ x, (treated minimum x).1) l ++ rest) →
  NoDup (map ab_path (concat (map (raised minimum) l)) ++ rest).
Proof using Type.
  assert (∀ l x, x ∈ map ab_path (concat (map (raised minimum) l)) → x ∈ map (λ x, (treated minimum x).1) l) as Hsub.
  { clear. induction l as [|x l IH]; intros y; cbn [map concat]; [set_solver|]. rewrite map_app, elem_of_app.
    intros [Hy|Hy]; [|set_solver]. destruct (raised_path minimum x) as [He|He]; rewrite He in Hy; set_solver. }
  induction l as [|x l IH]; [done|]. cbn [map concat app]. intros [Hx Hl]%NoDup_cons. rewrite map_app, <- app_assoc.
  destruct (raised_path minimum x) as [->| ->]; cbn [app]; [by apply IH|]. apply NoDup_cons. split; [|by apply IH].
  rewrite elem_of_app in *. intros [Hin%Hsub|Hin]; tauto.
Qed.
Lemma orientation_sub l x : x ∈ map ab_path (concat (map orientation_doubt l)) → x ∈ map orientation_path l.
Proof using Type.
  induction l as [|t l IH]; [done|]. cbn [map concat]. rewrite map_app. intros [Hx|Hx]%elem_of_app; [|apply elem_of_cons; right; by apply IH].
  unfold orientation_doubt in Hx. destruct (et_orientation t); cbn in Hx; [by apply elem_of_nil in Hx|].
  apply list_elem_of_singleton in Hx as ->. apply elem_of_cons. by left.
Qed.
Lemma orientation_NoDup l : NoDup (map orientation_path l) → NoDup (map ab_path (concat (map orientation_doubt l))).
Proof using Type.
  induction l as [|t l IH]; [done|]. cbn [map concat]. intros [Hn Hl]%NoDup_cons. rewrite map_app. unfold orientation_doubt at 1.
  destruct (et_orientation t); [by apply IH|]. cbn. apply NoDup_cons. split; [|by apply IH]. intros Hin. by apply Hn, orientation_sub.
Qed.
Lemma doubts_distinct untrusted p r : applyContractExtractionAbstention untrusted p = Some r → NoDup (map ab_path (ar_abstentions r)).
Proof using Type.
  intros (e & policy & missing & _ & _ & Hrows & Hdoubts & _ & _ & Hok & Hbases & _)%apply_spec.
  rewrite Hdoubts, !map_app. apply NoDup_raised.
  assert (map orientation_path (ex_rateTables (ar_extraction r)) = map orientation_path (ex_rateTables e)) as Horient.
  { unfold orientation_path. rewrite <- !(map_map table_base (λ b, b +:+ ".orientation")). by rewrite Hbases. }
  pose proof (all_paths_distinct _ Hok) as Hnd. rewrite <- all_rows_paths, Horient, Hrows, map_app, !map_map, <- app_assoc in Hnd.
  apply NoDup_app in Hnd as (H1 & Hd1 & H2). apply NoDup_app in H2 as (H2 & Hd2 & H3). rewrite map_map. apply NoDup_app. split; [exact H1|]. split.
  - intros x Hx [Hm|Ho%orientation_sub]%elem_of_app; apply (Hd1 x Hx), elem_of_app; [by left|by right].
  - apply NoDup_app. split; [exact H2|]. split; [|by apply orientation_NoDup]. intros x Hx Ho%orientation_sub. by apply (Hd2 x Hx).
Qed.

(** Texts that begin and end with a character of the code. *)
Lemma trim_framed c d p q m : is_ws c = false → is_ws d = false →
  trim (String c p +:+ m +:+ q +:+ String d "") = String c p +:+ m +:+ q +:+ String d "".
Proof using Type.
  intros Hc Hd. change (String c p +:+ ?x) with (String c (p +:+ x)). rewrite <- !sapp_assoc. by apply trim_closed.
Qed.
Lemma trim_clause_path c : trim (clause_path c) = clause_path c.
Proof using Type. unfold clause_path. change "].text" with ("].tex" +:+ "t"). by apply (trim_framed "c" "t" "lauses["). Qed.
Lemma trim_table_path t q d : is_ws d = false → trim (table_base t +:+ q +:+ String d "") = table_base t +:+ q +:+ String d "".
Proof using Type.
  intros Hd. unfold table_base. rewrite !sapp_assoc. rewrite <- (sapp_assoc "]"). by apply (trim_framed "r" d "ateTables[").
Qed.
Lemma trim_cell_path t c : trim (cell_path (table_base t) c) = cell_path (table_base t) c.
Proof using Type.
  unfold cell_path. rewrite <- (sapp_assoc ","), <- (sapp_assoc _ _ "]"), <- (sapp_assoc ".cells["). by apply (trim_table_path t _ "]").
Qed.

Definition clean_row (x : PersistenceRow) : Prop := trim x.1 = x.1 ∧ x.1 ≠ "" ∧ extracted_value_ok x.2 = true ∧ trim_value x.2 = x.2.
Lemma rows_clean e : extraction_ok e = true → trim_extraction e = e → ∀ x, x ∈ all_rows e → clean_row x.
Proof using Type.
  intros (Hf & Hc & Ht & _)%extraction_ok_inv (Hfe & Hce & Hte & _)%trimmed_extraction x. rewrite !Forall_forall in *. unfold all_rows, clean_row.
  intros [(f & -> & Hin)%list_elem_of_fmap|[(c & -> & Hin)%list_elem_of_fmap|Hin]%elem_of_app]%elem_of_app; cbn [fst snd].
  - destruct (Hfe f Hin) as [Hp Hv]. specialize (Hf f Hin). unfold field_ok, text_ok, within in Hf. rewrite !andb_true_iff in Hf.
    split_and!; [done| |apply Hf|done]. intros He. rewrite He in Hf. cbn in Hf. lia.
  - specialize (Hc c Hin). specialize (Hce c Hin). unfold clause_ok in Hc. rewrite !andb_true_iff in Hc.
    split_and!; [apply trim_clause_path|done|apply Hc|]. destruct c. unfold trim_clause in Hce. cbn in *. by injection Hce.
  - apply list_elem_of_In, in_concat in Hin as (l & (t & <- & Hin)%in_map_iff & Hx). apply list_elem_of_In in Hin, Hx.
    specialize (Ht t Hin). specialize (Hte t Hin). unfold table_ok in Ht. rewrite !andb_true_iff, forallb_forall in Ht.
    unfold trim_table in Hte. destruct t as [key title orientation rc cc cells] eqn:Heq. rewrite <- Heq in *. 
    assert (trim_value (et_title t) = et_title t ∧ map trim_cell (et_cells t) = et_cells t) as [Htitle Hcells].
    { rewrite Heq in *. cbn in *. injection Hte as _ H2 H3. done. }
    unfold table_rows in Hx. apply elem_of_cons in Hx as [->|(c & -> & Hc2)%list_elem_of_fmap]; cbn [fst snd].
    + split_and!; [apply (trim_table_path t ".titl" "e"); done|done|apply Ht|done].
    + split_and!; [apply trim_cell_path|done| |].
      * destruct Ht as [[_ Hcs] _]. specialize (Hcs c ltac:(by apply list_elem_of_In)). unfold cell_ok in Hcs. rewrite !andb_true_iff in Hcs. apply Hcs.
      * assert (trim_cell c = c) as Hcell; [|destruct c; unfold trim_cell in Hcell; cbn in *; by injection Hcell].
        revert c Hc2. clear -Hcells. induction (et_cells t) as [|d l IH]; [set_solver|]. cbn in Hcells. injection Hcells as Hd Hl.
        intros c [->|Hc]%elem_of_cons; auto.
Qed.
Lemma doubts_clean untrusted p r a : applyContractExtractionAbstention untrusted p = Some r → a ∈ ar_abstentions r →
  trim_abstention a = a ∧ ab_path a ≠ "" ∧ text_ok 1 2000 (ab_question a) = true.
Proof using Type.
  intros Hr Ha. pose proof Hr as (e & policy & missing & He & _ & Hrows & Hdoubts & _ & _ & Hok & Hbases & _)%apply_spec.
  assert (trim_extraction (ar_extraction r) = ar_extraction r) as Htr.
  { unfold applyContractExtractionAbstention in Hr. repeat (apply bind_Some in Hr as (? & ? & Hr)). case_match. 
    apply bind_Some in Hr as (x' & Hx' & [= <-]). by eapply parse_trimmed. }
  assert (∀ path status raw confidence citations question reason, (path, ABSTAIN status raw confidence citations question) ∈ all_rows (ar_extraction r) →
    trim_abstention (mkAbstention path status reason question) = mkAbstention path status reason question ∧ path ≠ "" ∧ text_ok 1 2000 question = true) as Hrow.
  { intros path status raw confidence citations question reason (Hp & Hne & Hv & Ht)%(rows_clean _ Hok Htr). cbn in *. injection Ht as _ _ Hq.
    unfold trim_abstention. cbn. rewrite Hp, Hq. split_and!; [done..|]. rewrite !andb_true_iff in Hv. apply Hv. }
  setoid_rewrite Hrows in Hrow. rewrite Hdoubts, !elem_of_app in Ha. destruct Ha as [Ha|[Ha|Ha]].
  - apply list_elem_of_In, in_concat in Ha as (l & (x & <- & Hin)%in_map_iff & Ha).
    destruct (treated (po_minimumConfidence policy) x) as [path v] eqn:Hx. pose proof (treated_cases _ _ _ _ Hx) as Hcase.
    destruct v as [raw normalized confidence citations|status raw confidence citations question].
    + destruct x as [[path' w] preferred], Hcase as [[= -> ->] Hg]. unfold raised in Ha. cbn in Ha. by rewrite Hg in Ha.
    + destruct Hcase as [[reason Hraised] _]. rewrite Hraised in Ha. destruct Ha as [<-|[]]. apply (Hrow path status raw confidence citations question), elem_of_app. left.
      rewrite <- Hx. apply list_elem_of_fmap_2. by apply list_elem_of_In.
  - apply list_elem_of_fmap in Ha as (q & -> & Hq). eapply Hrow. apply elem_of_app. right. apply list_elem_of_fmap. by exists q.
  - apply list_elem_of_In, in_concat in Ha as (l & (t & <- & Hin)%in_map_iff & Ha). unfold orientation_doubt in Ha.
    destruct (et_orientation t); [done|]. destruct Ha as [<-|[]]. unfold trim_abstention. cbn [ab_path ab_question ab_status ab_reason].
    unfold orientation_question. pose proof (trim_table_path t ".orientatio" "n" eq_refl) as Hp.
    change (".orientatio" +:+ String "n" "") with ".orientation" in Hp. rewrite Hp. clear Hp.
    pose proof (trim_framed "I" "?" "s " " organized with brackets in rows or columns" (et_tableKey t) eq_refl eq_refl) as Hq.
    split_and!; [f_equal; exact Hq|done|]. clear Hq.
    assert (table_ok t = true) as Htable.
    { apply parse_spec in He as [_ (_ & _ & Hts & _)%extraction_ok_inv]. rewrite Forall_forall in Hts. apply Hts. by apply list_elem_of_In. }
    assert (Z.of_nat (String.length (et_tableKey t)) <= 300) as Hlen.
    { unfold table_ok, text_ok, within in Htable. rewrite !andb_true_iff, !Z.leb_le in Htable. tauto. }
    unfold text_ok, within. rewrite !sapp_length. change (String.length "Is ") with 3%nat.
    change (String.length " organized with brackets in rows or columns?") with 44%nat. apply andb_true_iff. rewrite !Z.leb_le. lia.
Qed.

Lemma map_set_new {K V} `{EqDecision K} (m : list (K * V)) k v : (k ∉ m.*1) → map_set m k v = m ++ [(k, v)].
Proof using Type.
  induction m as [|[k' v'] m IH]; [done|]. cbn. intros [Hne Hn]%not_elem_of_cons. rewrite decide_False by done. by rewrite IH.
Qed.
Lemma add_questions version l : ∀ m, NoDup (m.*1 ++ map ab_path l) →
  fold_res (add_question version) m l = Ok (m ++ map (λ a, (ab_path a, question_of version a)) l).
Proof using Type.
  induction l as [|a l IH]; intros m Hnd; cbn [fold_res map]; [by rewrite app_nil_r|].
  apply NoDup_app in Hnd as Hparts. destruct Hparts as (_ & Hd & _). cbn [map] in Hd.
  assert (ab_path a ∉ m.*1) as Hn by (intros Hin; apply (Hd _ Hin); set_solver).
  unfold add_question at 2. cbn [cq_path question_of]. rewrite (proj2 (map_get_None m (ab_path a)) Hn). cbn [guard_or mbind result_bind res_bind].
  rewrite map_set_new by done. rewrite IH.
  - by rewrite <- app_assoc.
  - rewrite fmap_app, <- app_assoc. exact Hnd.
Qed.

(** C27: every doubt of an extraction becomes exactly one question, on its own path
    and with its status, reason and text: the abstentions never contradict each
    other, whatever the model said and the policy requires, so the questions can
    always be generated, up to the limits on their number and on the length of a
    path. *)
Theorem questions_cover_doubts untrusted p r : applyContractExtractionAbstention untrusted p = Some r →
  Z.of_nat (length (ar_abstentions r)) <= 30000 → (∀ a, a ∈ ar_abstentions r → Z.of_nat (String.length (ab_path a)) <= 1000) →
  ∃ questions, generateClarifyingQuestions (ar_abstentions r) (ar_policyVersion r) = Ok questions ∧
    NoDup (map cq_path questions) ∧ questions ≡ₚ map (question_of (ar_policyVersion r)) (ar_abstentions r).
Proof using Type.
  intros Hr Hcount Hlen. pose proof (doubts_distinct _ _ _ Hr) as Hnd.
  assert (∀ a, a ∈ ar_abstentions r → trim_abstention a = a ∧ abstention_ok a = true) as Hclean.
  { intros a Ha. destruct (doubts_clean _ _ _ _ Hr Ha) as (Ht & Hne & Hq). split; [done|]. specialize (Hlen a Ha).
    unfold abstention_ok. rewrite Hq, andb_true_r. unfold text_ok, within. apply andb_true_iff. rewrite !Z.leb_le.
    destruct (ab_path a); [done|]. cbn [String.length] in *. lia. }
  assert (trim (ar_policyVersion r) = ar_policyVersion r ∧ text_ok 1 200 (ar_policyVersion r) = true) as [Hv Hvok].
  { apply apply_spec in Hr as (e & policy & missing & _ & Hp & _ & _ & _ & _ & _ & _ & ->).
    unfold ContractExtractionAbstentionPolicySchema in Hp. destruct (policy_ok _) eqn:Hok; [|done]. injection Hp as <-. cbn.
    rewrite trim_idem. split; [done|]. unfold policy_ok in Hok. rewrite !andb_true_iff in Hok. apply Hok. }
  unfold generateClarifyingQuestions. rewrite (map_fixed trim_abstention) by (intros a Ha; by apply Hclean). rewrite Hv.
  assert (within 0 30000 (length (ar_abstentions r)) && forallb abstention_ok (ar_abstentions r) && text_ok 1 200 (ar_policyVersion r) = true) as ->.
  { rewrite Hvok, andb_true_r. apply andb_true_iff. split; [unfold within; apply andb_true_iff; rewrite !Z.leb_le; lia|].
    apply forallb_forall. intros a Ha%list_elem_of_In. by apply Hclean. }
  cbn [guard_or mbind result_bind res_bind]. rewrite (add_questions _ _ []) by done. eexists. split; [reflexivity|].
  cbn [app]. change ((map ?f ?l).*2) with (map snd (map f l)). rewrite map_map.
  assert (js_sort (cmp_on cq_path localeCompare) (map (λ a, question_of (ar_policyVersion r) a) (ar_abstentions r)) ≡ₚ
    map (question_of (ar_policyVersion r)) (ar_abstentions r)) as Hperm by apply js_sort_perm.
  split; [|exact Hperm]. rewrite Hperm, map_map. exact Hnd.
Qed.
End questions.

(** ** An extraction at work *)

Section witnesses.
#[local] Existing Instances demo_unicode code_unit_collator demo_sha.

Definition demo_pins : ContractExtractionPins :=
  mkPins (mkModelPin "anthropic" "claude-opus-4-8" "contract-extract/1") (String.concat "" (replicate 64 "a")).
Definition extracted_citation : Citation := mkCitation (JsFinite "2") "Effective January 2026" None (Some (JsFinite "10", JsFinite "22")).
Definition demo_policy : AbstentionPolicy := mkPolicy "abstention/1" (JsFinite "0.8")
  [mkRequired "contract.validFrom" DATE "What is the full contract effective date?"; mkRequired "contract.currency" CURRENCY "Which currency applies?"].
Definition demo_extraction : ContractExtraction :=
  mkExtraction "contract-extraction/1" (xp_sourceDocumentSha256 demo_pins) (xp_model demo_pins)
    [mkField "contract.validFrom" DATE (FOUND " January 2026" (Some "2026-01-01") (JsFinite "0.4") [extracted_citation]);
     mkField "contract.name" TEXT (FOUND "Acme Contract" (Some "Acme Contract") (JsFinite "0.99") [extracted_citation])]
    [mkExtractedClause "4.2" None (FOUND "Net 30" None (JsFinite "5e-1") [extracted_citation])]
    [mkRateTable "fuel" (FOUND "Fuel" None (JsFinite "1") [extracted_citation]) None 1 1 []].
Definition demo_abstained : AbstentionResult := Eval vm_compute in
  default (mkAbstentionResult demo_extraction "" []) (applyContractExtractionAbstention demo_extraction demo_policy).
Lemma abstention_fail_safe_witness : applyContractExtractionAbstention demo_extraction demo_policy = Some demo_abstained ∧
  map ab_path (ar_abstentions demo_abstained) =
    ["clauses[" +:+ quote "4.2" +:+ "].text"; "contract.currency"; "contract.validFrom"; "rateTables[" +:+ quote "fuel" +:+ "].orientation"] ∧
  ∃ e policy, parseContractExtraction demo_extraction = Some e ∧ ContractExtractionAbstentionPolicySchema demo_policy = Some policy ∧
    ∀ q, q ∈ po_requiredFields policy → ∃ v, (rq_path q, v) ∈ flattenExtraction (ar_extraction demo_abstained).
Proof.
  split; [vm_compute; reflexivity|]. split; [reflexivity|].
  destruct (abstention_fail_safe demo_extraction demo_policy demo_abstained) as (e & policy & He & Hp & _ & _ & Hq); [vm_compute; reflexivity|].
  by exists e, policy.
Defined.
Lemma questions_cover_doubts_witness : ∃ questions,
  generateClarifyingQuestions (ar_abstentions demo_abstained) (ar_policyVersion demo_abstained) = Ok questions ∧ length questions = 4%nat.
Proof.
  destruct (questions_cover_doubts demo_extraction demo_policy demo_abstained) as (qs & Hq & _ & Hp); [vm_compute; reflexivity| | |].
  - cbn. lia.
  - intros a Ha. repeat (apply elem_of_cons in Ha as [->|Ha]; [cbn; lia|]). by apply elem_of_nil in Ha.
  - exists qs. split; [exact Hq|]. by rewrite Hp.
Defined.

(** A required path that the model spelled with other capitals is not found, and
    the added field then fails the whole extraction. *)
Example other_capitals_refuse_everything :
  let field path := mkField path TEXT (FOUND "Net 30" None (JsFinite "1") [extracted_citation]) in
  let e := mkExtraction "contract-extraction/1" (xp_sourceDocumentSha256 demo_pins) (xp_model demo_pins) [field "paymentTerms"] [] [] in
  is_Some (parseContractExtraction e) ∧
  applyContractExtractionAbstention e (mkPolicy "v" (JsFinite "0") [mkRequired "paymentterms" TEXT "Which terms?"]) = None.
Proof. vm_compute. split; [by eexists|reflexivity]. Qed.
End witnesses.
