(* ===== verification/ExtractionReview.v ===== *)
(** Human review of an extraction ([src/src/modules/contracts/]): its rows
    ([persist-contract-extraction.ts]), its questions
    ([persist-clarifying-questions.ts]) and their answers
    ([clarification-answers.ts]), corrections of single fields
    ([persist-extraction-field-correction.ts]) and the verified version that ends it
    ([finalize-contract-version.ts]). *)

From Stdlib Require Import QArith.
From S2P Require Import Prelude JsText Decimal Json Store AuditLedger Jsonb JsDate Database Tx Manifest Proposals ProposalLifecycle RateTable Extraction.

(** ** Tables *)

Record field_correction := mkCorrection { fc_hash : string; fc_source : string; fc_by : string }.
(** [extraction_field]: the columns migrations 0036 and 0038 add are NULL for the
    rows of invoice drafts; [xf_contract] holds those of 0036. *)
Record field_provenance := mkProvenance { fp_response_hash : string; fp_schema_version : string; fp_status : string; fp_citations : json }.
Record extraction_field := mkExtractionField {
  xf_id : string; xf_account : string; xf_document : string; xf_path : string; xf_ai_value : json; xf_human_value : option json;
  xf_confidence : Z; xf_page_ref : option string; xf_bbox : json; xf_model_version : string; xf_prompt_version : string;
  xf_contract : option field_provenance; xf_correction : option field_correction; xf_recorded_at : Z;
}.
Record clarifying_question := mkClarifying {
  cl_id : string; cl_account : string; cl_document : string; cl_response_hash : string; cl_policy_version : string;
  cl_question : ClarifyingQuestion; cl_answer : option (string * string);  (* answer, answer_source *)
}.
Record contract_version := mkContractVersion { cv_id : string; cv_account : string; cv_source_document : option string }.
(** [verified_contract_version]; its first columns are what proposals read. *)
Record verification := mkVerification { vr_version : verified_version; vr_resolved_fields : json; vr_by : string }.
Record review_db := mkReviewDb {
  shared : db; documents : list source_document; contract_versions : list contract_version;
  extraction_fields : list extraction_field; clarifying_questions : list clarifying_question; verifications : list verification;
}.

(** ** The transactions *)

Definition rtx (A : Type) : Type := env → review_db → result handler_error (A * review_db).
#[export] Instance rtx_ret : MRet rtx := λ A a e s, Ok (a, s).
#[export] Instance rtx_bind : MBind rtx := λ A B f m e s, match m e s with Ok (a, s') => f a e s' | Err x => Err x end.
Definition rthrow {A} (x : handler_error) : rtx A := λ e s, Err x.
Definition rquery {A} (f : review_db → A) : rtx A := λ e s, Ok (f s, s).
Definition rmodify (f : review_db → review_db) : rtx unit := λ e s, Ok (tt, f s).
Definition rcheck (b : bool) (x : handler_error) : rtx unit := if b then mret tt else rthrow x.
Definition rthe {A} (o : option A) (x : handler_error) : rtx A := match o with Some a => mret a | None => rthrow x end.
Fixpoint rfor {A B} (f : A → rtx B) (l : list A) : rtx (list B) :=
  match l with [] => mret [] | x :: l' => y ← f x; ys ← rfor f l'; mret (y :: ys) end.
Definition set_shared (d : db) (s : review_db) : review_db :=
  mkReviewDb d (documents s) (contract_versions s) (extraction_fields s) (clarifying_questions s) (verifications s).
Definition set_fields (l : list extraction_field) (s : review_db) : review_db :=
  mkReviewDb (shared s) (documents s) (contract_versions s) l (clarifying_questions s) (verifications s).
Definition set_questions (l : list clarifying_question) (s : review_db) : review_db :=
  mkReviewDb (shared s) (documents s) (contract_versions s) (extraction_fields s) l (verifications s).
Definition add_verification (r : verification) (s : review_db) : review_db :=
  mkReviewDb (shared s) (documents s) (contract_versions s) (extraction_fields s) (clarifying_questions s) (verifications s ++ [r]).
(** A step on the shared tables. *)
Definition on_tables {A} (m : tx A) : rtx A := λ e s, '(a, d) ← m e (shared s); Ok (a, set_shared d s).

Section handlers.
Context {T : Unicode} {C : Collator} {O : DbCollation} {H : Sha256} {U : UuidSource} {V : Zod}.

Definition fresh (keys : review_db → list string) : rtx string :=
  i ← on_tables new_uuid; s ← rquery id; _ ← on_tables (primary_key (keys s) i); mret i.
Definition review_event (parts : list string) (clientId entity entityId event : string) (kind : ActorKind) (actor : option string)
    (detail : list (string * json)) : rtx bool :=
  on_tables (emit (audit_event (deterministicAuditEventId parts) clientId entity entityId event kind actor detail)).
(** [persisted] events of an extraction are on the ledger. *)
Definition extraction_on_record (clientId document responseHash : string) : rtx bool :=
  rquery (λ s, existsb (extraction_persisted clientId document responseHash) (audit_log (shared s))).

(** ** Persisting the rows *)

Definition persistence_error (code : string) : handler_error := Thrown "ContractExtractionPersistenceError" code.
Definition page_value (n : js_number) : Z := match n with JsFinite t => match plain t with Some (m, _) => m | None => 0 end | _ => 0 end.
Definition pages_of (citations : list Citation) : list js_number :=
  js_sort (cmp_on page_value Z.compare) (set_of (map ct_pageNumber citations)).
Definition value_parts (v : ExtractedValue) : option string * option string * js_number * list Citation * option string :=
  match v with
  | FOUND raw normalized confidence citations => (Some raw, normalized, confidence, citations, None)
  | ABSTAIN _ raw confidence citations question => (raw, None, confidence, citations, Some question)
  end.
(** [toDatabaseRow], and the columns the statement adds. *)
Definition field_row (clientId documentId responseHash : string) (e : ContractExtraction) (time : Z) (rowId : string) (row : PersistenceRow) :
    extraction_field :=
  let '(raw, normalized, confidence, citations, question) := value_parts row.2 in
  mkExtractionField rowId (pg_uuid clientId) (pg_uuid documentId) row.1
    (obj [("status", Some (JString (value_status row.2))); ("rawText", Some (json_null raw)); ("normalizedValue", Some (json_null normalized));
          ("clarificationQuestion", JString <$> question)])
    None (half_up 4 (default 0%Q (number_value confidence)))
    (match pages_of citations with [] => None | pages => Some (join "," (map number_text pages)) end)
    (JArray (map (λ c, obj [("pageNumber", Some (JNumber (ct_pageNumber c)));
                            ("boundingBox", Some (match ct_boundingBox c with Some box => JArray (map JNumber box) | None => JNull end))]) citations))
    (mp_modelId (ex_model e)) (mp_promptVersion (ex_model e))
    (Some (mkProvenance responseHash (ex_schemaVersion e) (value_status row.2) (JArray (map citation_json citations)))) None time.
(** An uncorrected row of an extraction. *)
Definition original_of (account document responseHash : string) (x : extraction_field) : bool :=
  bool_decide (xf_account x = account) && bool_decide (xf_document x = document) &&
  bool_decide (fp_response_hash <$> xf_contract x = Some responseHash) && bool_decide (fc_hash <$> xf_correction x = None).
(** The unique index of those rows. *)
Definition original_clash (r x : extraction_field) : bool :=
  match xf_contract r with
  | Some p => original_of (xf_account r) (xf_document r) (fp_response_hash p) x && bool_decide (xf_path x = xf_path r)
  | None => false
  end.
Definition insert_field (clash : extraction_field → extraction_field → bool) (r : extraction_field) : rtx bool :=
  t ← rquery extraction_fields;
  if existsb (clash r) t then mret false else _ ← rmodify (set_fields (t ++ [r])); mret true.
(** [ContractExtractionSchema], [contractExtractionIdempotencyKey] and the rest of
    the handler; the stored rows are counted before the statement. *)
Definition persistContractExtraction (clientId sourceDocumentId : string) (actorUserId : option string) (idempotencyKey : string)
    (untrusted : ContractExtraction) : rtx (string * nat * bool) :=
  _ ← rcheck (zod_uuid clientId && zod_uuid sourceDocumentId && opt_all zod_uuid actorUserId && is_sha256_hex idempotencyKey) SchemaRejected;
  e ← rthe (parseContractExtraction untrusted) SchemaRejected;
  expectedKey ← rthe (contractExtractionIdempotencyKey e) SchemaRejected;
  _ ← rcheck (bool_decide (idempotencyKey = expectedKey)) (persistence_error "IDEMPOTENCY_KEY_MISMATCH");
  ds ← rquery documents;
  source ← rthe (select_one (λ d, uuid_is (sd_id d) sourceDocumentId && uuid_is (sd_account d) clientId) ds) (persistence_error "SOURCE_NOT_FOUND");
  _ ← rcheck (bool_decide (sd_sha256 source = ex_sourceDocumentSha256 e)) (persistence_error "SOURCE_HASH_MISMATCH");
  let rows := flattenExtraction e in
  before ← rquery extraction_fields;
  inserted ← rfor (λ row, rowId ← fresh (λ s, map xf_id (extraction_fields s)); time ← on_tables (ask now);
        insert_field original_clash (field_row clientId sourceDocumentId expectedKey e time rowId row)) rows;
  let insertedCount := length (List.filter (λ b, b) inserted) in
  let stored := (insertedCount +
    length (List.filter (original_of (pg_uuid clientId) (pg_uuid sourceDocumentId) expectedKey) before))%nat in
  _ ← rcheck (bool_decide (rows = []) || bool_decide (stored = length rows) &&
        (bool_decide (insertedCount = 0%nat) || bool_decide (insertedCount = length rows))) (persistence_error "PARTIAL_CONFLICT");
  created ← review_event [clientId; sourceDocumentId; expectedKey; "contract_extraction.persisted"] clientId "contract_extraction" sourceDocumentId
    "persisted" (match actorUserId with Some _ => ActorAnalyst | None => ActorAI end) actorUserId
    [("responseHash", JString expectedKey); ("schemaVersion", JString (ex_schemaVersion e)); ("modelId", JString (mp_modelId (ex_model e)));
     ("promptVersion", JString (mp_promptVersion (ex_model e))); ("fieldCount", json_int (Z.of_nat (length rows)))];
  mret (expectedKey, length rows, created).

(** ** Questions and answers *)

Definition question_failure (code : string) : handler_error := Thrown "ClarifyingQuestionError" code.
Definition trim_question_row (q : ClarifyingQuestion) : ClarifyingQuestion :=
  mkQuestion (trim (cq_path q)) (cq_status q) (cq_reason q) (trim (cq_question q)) (cq_questionHash q).
Definition question_row_ok (q : ClarifyingQuestion) : bool :=
  text_ok 1 1000 (cq_path q) && text_ok 1 2000 (cq_question q) && is_sha256_hex (cq_questionHash q).
Definition question_of_extraction (account document responseHash : string) (x : clarifying_question) : bool :=
  bool_decide (cl_account x = account) && bool_decide (cl_document x = document) && bool_decide (cl_response_hash x = responseHash).
Definition insert_question (r : clarifying_question) : rtx bool :=
  t ← rquery clarifying_questions;
  if existsb (λ x, question_of_extraction (cl_account r) (cl_document r) (cl_response_hash r) x &&
                   bool_decide (cq_path (cl_question x) = cq_path (cl_question r))) t
  then mret false else _ ← rmodify (set_questions (t ++ [r])); mret true.
(** The joined pairs: each stored question with each equal one of the payload. *)
Definition matching (account document responseHash policyVersion : string) (questions : list ClarifyingQuestion) (t : list clarifying_question) : nat :=
  length (concat (map (λ x, if question_of_extraction account document responseHash x && bool_decide (cl_policy_version x = policyVersion)
                            then List.filter (λ q, bool_decide (q = cl_question x)) questions else []) t)).
Definition persistClarifyingQuestions (clientId sourceDocumentId : string) (actorUserId : option string) (responseHash policyVersion : string)
    (untrusted : list ClarifyingQuestion) : rtx (nat * bool) :=
  let version := trim policyVersion in
  let questions := map trim_question_row untrusted in
  _ ← rcheck (zod_uuid clientId && zod_uuid sourceDocumentId && opt_all zod_uuid actorUserId && is_sha256_hex responseHash &&
        text_ok 1 200 version && within 0 30000 (length questions) && forallb question_row_ok questions) SchemaRejected;
  _ ← rcheck (forallb (λ q, bool_decide (cq_questionHash q = question_hash version (cq_path q) (cq_status q) (cq_reason q) (cq_question q))) questions)
        (question_failure "QUESTION_HASH_MISMATCH");
  found ← extraction_on_record clientId (pg_uuid sourceDocumentId) responseHash;
  _ ← rcheck found (question_failure "EXTRACTION_NOT_FOUND");
  before ← rquery clarifying_questions;
  inserted ← rfor (λ q, rowId ← fresh (λ s, map cl_id (clarifying_questions s));
        insert_question (mkClarifying rowId (pg_uuid clientId) (pg_uuid sourceDocumentId) responseHash version q None)) questions;
  let insertedCount := length (List.filter (λ b, b) inserted) in
  let matched := (insertedCount + matching (pg_uuid clientId) (pg_uuid sourceDocumentId) responseHash version questions before)%nat in
  _ ← rcheck (bool_decide (questions = []) || bool_decide (matched = length questions) &&
        (bool_decide (insertedCount = 0%nat) || bool_decide (insertedCount = length questions))) (question_failure "PARTIAL_CONFLICT");
  created ← review_event [clientId; sourceDocumentId; responseHash; "clarifying_questions.generated"] clientId "clarifying_questions" sourceDocumentId
    "generated" (match actorUserId with Some _ => ActorAnalyst | None => ActorSystem end) actorUserId
    [("extractionResponseHash", JString responseHash); ("policyVersion", JString version);
     ("questionCount", json_int (Z.of_nat (length questions))); ("questionHashes", JArray (map (λ q, JString (cq_questionHash q)) questions))];
  mret (length questions, created).

Definition answer_sources : list string := ["read_from_doc"; "analyst_knowledge"; "carrier_confirmed"].
Definition question_at (clientId questionId : string) (x : clarifying_question) : bool :=
  uuid_is (cl_id x) questionId && uuid_is (cl_account x) clientId.
Definition with_answer (a : string * string) (x : clarifying_question) : clarifying_question :=
  mkClarifying (cl_id x) (cl_account x) (cl_document x) (cl_response_hash x) (cl_policy_version x) (cl_question x) (Some a).
Definition answerClarifyingQuestion (clientId questionId actorUserId answer answerSource : string) : rtx (string * bool) :=
  let text := trim answer in
  _ ← rcheck (text_ok 1 10000 text && bool_decide (answerSource ∈ answer_sources)) SchemaRejected;
  t ← rquery clarifying_questions;
  current ← rthe (select_one (question_at clientId questionId) t) (Thrown "ClarifyingQuestionNotFoundError" "CLARIFYING_QUESTION_NOT_FOUND");
  if bool_decide (cl_answer current = Some (text, answerSource)) then mret (cl_id current, false) else
  created ← review_event [clientId; questionId; answerSource; text; "clarification_question.answered"] clientId "clarifying_question" questionId
    "answered" ActorAnalyst (Some actorUserId) [("answer", JString text); ("answerSource", JString answerSource)];
  _ ← rcheck created (Thrown "ClarificationAnswerConflictError" "CLARIFICATION_ANSWER_REPLAY_CONFLICT");
  _ ← rmodify (λ s, set_questions (update_where (question_at clientId questionId) (with_answer (text, answerSource)) (clarifying_questions s)) s);
  mret (cl_id current, true).

(** ** Corrections *)

Definition correction_hash (fieldId : string) (humanValue : json) (answerSource : string) : string :=
  hex (sha256 (canonical localeCompare (obj [("fieldId", Some (JString fieldId)); ("humanValue", Some humanValue);
    ("answerSource", Some (JString answerSource))]))).
(** The unique index of corrections. *)
Definition correction_clash (r x : extraction_field) : bool :=
  bool_decide (xf_account x = xf_account r) && bool_decide (xf_document x = xf_document r) &&
  bool_decide (fp_response_hash <$> xf_contract x = fp_response_hash <$> xf_contract r) && bool_decide (is_Some (xf_contract r)) &&
  bool_decide (xf_path x = xf_path r) && bool_decide (fc_hash <$> xf_correction x = fc_hash <$> xf_correction r) &&
  bool_decide (is_Some (xf_correction r)).
Definition same_correction (r x : extraction_field) : bool :=
  correction_clash r x && json_same (xf_ai_value x) (xf_ai_value r) &&
  match xf_human_value x, xf_human_value r with Some a, Some b => json_same a b | None, None => true | _, _ => false end &&
  bool_decide (fc_source <$> xf_correction x = fc_source <$> xf_correction r) && bool_decide (fc_by <$> xf_correction x = fc_by <$> xf_correction r).
Definition corrected_row (rowId : string) (time : Z) (humanValue : json) (c : field_correction) (x : extraction_field) : extraction_field :=
  mkExtractionField rowId (xf_account x) (xf_document x) (xf_path x) (xf_ai_value x) (Some humanValue) (xf_confidence x) (xf_page_ref x) (xf_bbox x)
    (xf_model_version x) (xf_prompt_version x) (xf_contract x) (Some c) time.
Definition correctable (clientId fieldId : string) (x : extraction_field) : bool :=
  uuid_is (xf_id x) fieldId && uuid_is (xf_account x) clientId && bool_decide (is_Some (xf_contract x)) &&
  bool_decide (fc_hash <$> xf_correction x = None).
Definition persistExtractionFieldCorrection (clientId fieldId actorUserId : string) (humanValue : json) (answerSource : string) :
    rtx (string * string * bool) :=
  _ ← rcheck (jsonValue_ok humanValue && bool_decide (answerSource ∈ answer_sources)) SchemaRejected;
  t ← rquery extraction_fields;
  original ← rthe (select_one (correctable clientId fieldId) t) (Thrown "ExtractionFieldNotFoundError" "EXTRACTION_FIELD_NOT_FOUND");
  let correctionHash := correction_hash (xf_id original) humanValue answerSource in
  rowId ← fresh (λ s, map xf_id (extraction_fields s)); time ← on_tables (ask now);
  let row := corrected_row rowId time humanValue (mkCorrection correctionHash answerSource (pg_uuid actorUserId)) original in
  created ← insert_field correction_clash row;
  id ← (if (created : bool) then mret rowId
        else x ← rthe (select_one (same_correction row) t) (Thrown "ExtractionFieldCorrectionConflictError" "EXTRACTION_FIELD_CORRECTION_CONFLICT");
             mret (xf_id x));
  _ ← review_event [clientId; xf_id original; correctionHash; "extraction_field.corrected"] clientId "extraction_field" id "corrected"
    ActorAnalyst (Some actorUserId)
    [("originalFieldId", JString (xf_id original)); ("sourceDocumentId", JString (xf_document original)); ("fieldPath", JString (xf_path original));
     ("correctionHash", JString correctionHash); ("answerSource", JString answerSource)];
  mret (id, correctionHash, created).

(** ** Finalization *)

Definition finalization_error (code : string) : handler_error := Thrown "ContractVersionFinalizationError" code.
Definition of_extraction (account document responseHash : string) (x : extraction_field) : bool :=
  bool_decide (xf_account x = account) && bool_decide (xf_document x = document) &&
  bool_decide (fp_response_hash <$> xf_contract x = Some responseHash).
Definition is_original (x : extraction_field) : bool := bool_decide (fc_hash <$> xf_correction x = None).
(** [ORDER BY field_path, recorded_at, id] *)
Definition field_order : extraction_field → extraction_field → comparison :=
  cmp_then (cmp_on xf_path text_order) (cmp_then (cmp_on xf_recorded_at Z.compare) (cmp_on xf_id code_unit_compare)).
Definition last_correction (fields : list extraction_field) (original : extraction_field) : option extraction_field :=
  last (List.filter (λ x, bool_decide (xf_path x = xf_path original) && negb (is_original x)) fields).
(** [a ?? b], for a column that may hold [null]. *)
Definition nullish (a : option json) (b : json) : json := match a with None | Some JNull => b | Some v => v end.
Definition corrected_value (correction : option extraction_field) : option json := correction ≫= xf_human_value.
Definition human_value (correction : option extraction_field) : json := nullish (corrected_value correction) JNull.
Definition resolve_field (fields : list extraction_field) (original : extraction_field) : json :=
  let correction := last_correction fields original in
  obj [("fieldPath", Some (JString (xf_path original))); ("originalFieldId", Some (JString (xf_id original)));
       ("evidenceFieldId", Some (JString (xf_id (default original correction)))); ("aiValue", Some (xf_ai_value original));
       ("humanValue", Some (human_value correction));
       ("effectiveValue", Some (nullish (corrected_value correction) (xf_ai_value original)));
       ("correctionHash", Some (json_null (fc_hash <$> (correction ≫= xf_correction))));
       ("confidence", Some (JString (fixed 4 (xf_confidence original)))); ("pageRef", Some (json_null (xf_page_ref original)));
       ("bbox", Some (xf_bbox original)); ("citations", Some (default JNull (fp_citations <$> xf_contract original)));
       ("modelVersion", Some (JString (xf_model_version original))); ("promptVersion", Some (JString (xf_prompt_version original)));
       ("extractionStatus", Some (json_null (fp_status <$> xf_contract original)))].
Definition verification_hash (contractVersionId document responseHash : string) (resolved : json) : string :=
  hex (sha256 (canonical localeCompare (obj [("contractVersionId", Some (JString contractVersionId)); ("sourceDocumentId", Some (JString document));
    ("extractionResponseHash", Some (JString responseHash)); ("resolvedFields", Some resolved)]))).
Definition verification_key (x : verification) : string * string * string :=
  (vv_account (vr_version x), vv_contract_version (vr_version x), vv_extraction_hash (vr_version x)).
(** The other unique key of the table. *)
Definition hash_key (x : verification) : string * string := (vv_account (vr_version x), vv_verification_hash (vr_version x)).
Definition same_verification (r x : verification) : bool :=
  bool_decide (verification_key x = verification_key r) && bool_decide (vv_verification_hash (vr_version x) = vv_verification_hash (vr_version r)) &&
  json_same (vr_resolved_fields x) (vr_resolved_fields r) && bool_decide (vr_by x = vr_by r).
Definition insert_verification (r : verification) : rtx bool :=
  t ← rquery verifications;
  if existsb (λ x, bool_decide (verification_key x = verification_key r)) t then mret false
  else _ ← rcheck (negb (existsb (λ x, bool_decide (hash_key x = hash_key r)) t)) (ConstraintFailed "verified_contract_version_verification_hash");
       _ ← rmodify (add_verification r); mret true.
Definition finalizeContractVersion (clientId contractVersionId actorUserId responseHash : string) : rtx (string * string * nat * bool) :=
  vs ← rquery contract_versions;
  document ← rthe (select_one (λ v, uuid_is (cv_id v) contractVersionId && uuid_is (cv_account v) clientId) vs ≫= cv_source_document)
    (finalization_error "CONTRACT_VERSION_NOT_FOUND");
  found ← extraction_on_record clientId document responseHash;
  _ ← rcheck found (finalization_error "EXTRACTION_NOT_FOUND");
  t ← rquery extraction_fields;
  let fields := js_sort field_order (List.filter (of_extraction (pg_uuid clientId) document responseHash) t) in
  let originals := List.filter is_original fields in
  _ ← rcheck (negb (bool_decide (length originals = 0%nat))) (finalization_error "EXTRACTION_NOT_FOUND");
  qs ← rquery clarifying_questions;
  _ ← rcheck (forallb (λ q, negb (question_of_extraction (pg_uuid clientId) document responseHash q) || bool_decide (is_Some (cl_answer q))) qs)
        (finalization_error "UNANSWERED_CLARIFICATIONS");
  let resolved := JArray (map (resolve_field fields) originals) in
  let verificationHash := verification_hash contractVersionId document responseHash resolved in
  rowId ← fresh (λ s, map (vv_id ∘ vr_version) (verifications s));
  let row := mkVerification (mkVerified rowId (pg_uuid clientId) (pg_uuid contractVersionId) document responseHash verificationHash) resolved
    (pg_uuid actorUserId) in
  before ← rquery verifications;
  created ← insert_verification row;
  id ← (if (created : bool) then mret rowId
        else x ← rthe (select_one (same_verification row) before) (finalization_error "FINALIZATION_CONFLICT"); mret (vv_id (vr_version x)));
  _ ← review_event [clientId; contractVersionId; verificationHash; "contract_version.verified"] clientId "contract_version" contractVersionId
    "verified" ActorAnalyst (Some actorUserId)
    [("verifiedContractVersionId", JString id); ("sourceDocumentId", JString document); ("extractionResponseHash", JString responseHash);
     ("verificationHash", JString verificationHash); ("fieldCount", json_int (Z.of_nat (length originals)))];
  mret (id, verificationHash, length originals, created).
End handlers.
