(* ===== verification/ExtractionReviewSafety.v ===== *)
(** What the review of an extraction guarantees: its rows are stored whole and never
    rewritten, answers are never withdrawn, and a version is verified from complete
    evidence. *)

From Stdlib Require Import QArith.
From S2P Require Import Prelude JsText Decimal Json Store AuditLedger Jsonb JsDate Database Tx Manifest Proposals ProposalsSafety ProposalLifecycle RateTable Extraction ExtractionSafety ExtractionReview.

(** ** Steps of a review transaction *)

Section steps.
Context {A B : Type}.
Implicit Types (e : env) (s : review_db).
Lemma rtx_bind_Ok (m : rtx A) (f : A → rtx B) e s r : (m ≫= f) e s = Ok r ↔ ∃ a s', m e s = Ok (a, s') ∧ f a e s' = Ok r.
Proof. unfold mbind, rtx_bind. destruct (m e s) as [[a s']|]; naive_solver. Qed.
Lemma rquery_Ok (f : review_db → A) e s r : rquery f e s = Ok r ↔ r = (f s, s).
Proof. unfold rquery. naive_solver. Qed.
Lemma rmodify_Ok f e s r : rmodify f e s = Ok r ↔ r = (tt, f s).
Proof. unfold rmodify. naive_solver. Qed.
Lemma rcheck_Ok b x e s r : rcheck b x e s = Ok r ↔ b = true ∧ r = (tt, s).
Proof. unfold rcheck, rthrow, mret, rtx_ret. destruct b; naive_solver. Qed.
Lemma rthe_Ok (o : option A) x e s r : rthe o x e s = Ok r ↔ ∃ a, o = Some a ∧ r = (a, s).
Proof. unfold rthe, rthrow, mret, rtx_ret. destruct o; naive_solver. Qed.
Lemma rtx_ret_Ok (a : A) e s r : (mret a : rtx A) e s = Ok r ↔ r = (a, s).
Proof. unfold mret, rtx_ret. naive_solver. Qed.
Lemma on_tables_Ok (m : tx A) e s a s' : on_tables m e s = Ok (a, s') → m e (shared s) = Ok (a, shared s') ∧ s' = set_shared (shared s') s.
Proof. unfold on_tables. intros ([x d] & Hm & [= <- <-])%bind_Ok. done. Qed.
End steps.
Ltac rtx_inv :=
  repeat match goal with
  | H : (_ ≫= _) _ _ = Ok _ |- _ =>
      let Hx := fresh "Hstep" in apply rtx_bind_Ok in H as (? & ? & Hx & H); cbn beta in H
  | H : rquery _ _ _ = Ok _ |- _ => apply rquery_Ok in H; simplify_eq
  | H : rmodify _ _ _ = Ok _ |- _ => apply rmodify_Ok in H; simplify_eq
  | H : rcheck _ _ _ _ = Ok _ |- _ => apply rcheck_Ok in H as [? H]; simplify_eq
  | H : rthe _ _ _ _ = Ok _ |- _ => apply rthe_Ok in H as (? & ? & H); simplify_eq
  | H : mret _ _ _ = Ok _ |- _ => apply rtx_ret_Ok in H; simplify_eq
  | H : rthrow _ _ _ = Ok _ |- _ => discriminate H
  | x : unit |- _ => destruct x
  end.

Section safety.
Context {T : Unicode} {C : Collator} {O : DbCollation} {H : Sha256} {U : UuidSource} {V : Zod}.
Implicit Types (e : env) (s : review_db).

Lemma fresh_inv keys e s i s' : fresh keys e s = Ok (i, s') → ∃ d, s' = set_shared d s ∧ i ∉ keys s'.
Proof using Type.
  unfold fresh. intros (x & s1 & H1 & Hf)%rtx_bind_Ok. apply on_tables_Ok in H1 as [_ H1].
  apply rtx_bind_Ok in Hf as (y & s2 & H2 & Hf). apply rquery_Ok in H2 as [= -> ->].
  apply rtx_bind_Ok in Hf as (u & s3 & H3 & Hf). apply rtx_ret_Ok in Hf as [= -> ->].
  apply on_tables_Ok in H3 as [Hp Hs]. apply primary_key_Ok in Hp as [Hk [= _ Hp]]. assert (s3 = s1) as -> by (rewrite Hs, Hp; by destruct s1).
  by exists (shared s1).
Qed.
Lemma review_event_inv parts clientId entity entityId event kind actor detail e s b s' :
  review_event parts clientId entity entityId event kind actor detail e s = Ok (b, s') → ∃ d, s' = set_shared d s.
Proof using Type. intros [_ Hs]%on_tables_Ok. by exists (shared s'). Qed.
Lemma now_inv e s t s' : on_tables (ask now) e s = Ok (t, s') → s' = s ∧ t = now e.
Proof using Type. intros [[= -> Hd] ->]%on_tables_Ok. split; [rewrite <- Hd; by destruct s|done]. Qed.
Lemma on_record_inv clientId document h e s b s' : extraction_on_record clientId document h e s = Ok (b, s') → s' = s ∧
  b = existsb (extraction_persisted clientId document h) (audit_log (shared s)).
Proof using Type. unfold extraction_on_record, rquery. by intros [= <- <-]. Qed.

(** ** What a review never undoes *)

(** The answer may change; nothing else of a question does, and an answer stays one. *)
Definition still_asked (q q' : clarifying_question) : Prop :=
  q' = mkClarifying (cl_id q) (cl_account q) (cl_document q) (cl_response_hash q) (cl_policy_version q) (cl_question q) (cl_answer q') ∧
  (is_Some (cl_answer q) → is_Some (cl_answer q')).
(** What came after [s] kept the evidence of [s]. *)
Record keeps (s s' : review_db) : Prop := {
  kp_fields : ∃ added, extraction_fields s' = extraction_fields s ++ added;
  kp_verified : ∃ added, verifications s' = verifications s ++ added;
  kp_questions : ∃ kept added, clarifying_questions s' = kept ++ added ∧ Forall2 still_asked (clarifying_questions s) kept;
}.
Lemma still_asked_refl q : still_asked q q.
Proof using Type. split; [by destruct q|done]. Qed.
Lemma still_asked_trans q1 q2 q3 : still_asked q1 q2 → still_asked q2 q3 → still_asked q1 q3.
Proof using Type. intros [H1 Ha1] [H2 Ha2]. split; [|tauto]. rewrite H2, H1. done. Qed.
Lemma Forall2_refl_rel {A} (R : A → A → Prop) l : (∀ x, R x x) → Forall2 R l l.
Proof using Type. intros HR. induction l; by constructor. Qed.
#[export] Instance keeps_preorder : PreOrder keeps.
Proof using Type.
  split.
  - intros s. split; try (exists []; by rewrite app_nil_r). exists (clarifying_questions s), []. rewrite app_nil_r.
    split; [done|]. apply Forall2_refl_rel, still_asked_refl.
  - intros s1 s2 s3 [(f1 & Hf1) (v1 & Hv1) (k1 & a1 & Hq1 & Hk1)] [(f2 & Hf2) (v2 & Hv2) (k2 & a2 & Hq2 & Hk2)]. split.
    + exists (f1 ++ f2). by rewrite Hf2, Hf1, app_assoc.
    + exists (v1 ++ v2). by rewrite Hv2, Hv1, app_assoc.
    + rewrite Hq1 in Hk2. apply Forall2_app_inv_l in Hk2 as (k & a & Hk & Ha & ->). exists k, (a ++ a2). rewrite Hq2, <- app_assoc.
      split; [done|]. clear -Hk1 Hk. revert k Hk. induction Hk1 as [|q q' l l' Hq _ IH]; intros k Hk; inversion Hk; subst; constructor; [|by apply IH].
      by eapply still_asked_trans.
Qed.
Lemma keeps_shared d s : keeps s (set_shared d s).
Proof using Type.
  split; try (exists []; by rewrite app_nil_r). exists (clarifying_questions s), []. rewrite app_nil_r.
  split; [done|]. apply Forall2_refl_rel, still_asked_refl.
Qed.

(** Keys no two rows share. *)
Definition original_key (x : extraction_field) : string * string * option string * string :=
  (xf_account x, xf_document x, fp_response_hash <$> xf_contract x, xf_path x).
Definition correction_key (x : extraction_field) : string * string * option string * string * option string :=
  (original_key x, fc_hash <$> xf_correction x).
Definition contract_original (x : extraction_field) : bool := bool_decide (is_Some (xf_contract x)) && is_original x.
Definition contract_correction (x : extraction_field) : bool := bool_decide (is_Some (xf_contract x)) && negb (is_original x).
Definition question_key (x : clarifying_question) : string * string * string * string :=
  (cl_account x, cl_document x, cl_response_hash x, cq_path (cl_question x)).
Record review_sound (s : review_db) : Prop := {
  rs_field_ids : NoDup (map xf_id (extraction_fields s));
  rs_originals : NoDup (map original_key (List.filter contract_original (extraction_fields s)));
  rs_corrections : NoDup (map correction_key (List.filter contract_correction (extraction_fields s)));
  rs_question_ids : NoDup (map cl_id (clarifying_questions s));
  rs_question_keys : NoDup (map question_key (clarifying_questions s));
  rs_verified_ids : NoDup (map (vv_id ∘ vr_version) (verifications s));
  rs_verified : NoDup (map verification_key (verifications s));
}.
Lemma sound_shared d s : review_sound s → review_sound (set_shared d s).
Proof using Type. by intros []; split. Qed.

(** Evidence is kept, and so is the soundness of the tables. *)
Definition progress s s' : Prop := keeps s s' ∧ (review_sound s → review_sound s').
#[export] Instance progress_preorder : PreOrder progress.
Proof using Type.
  split; [by split|]. intros s1 s2 s3 [Hk1 Hs1] [Hk2 Hs2]. split; [by etrans|tauto].
Qed.
Lemma progress_shared d s : progress s (set_shared d s).
Proof using Type. split; [apply keeps_shared|apply sound_shared]. Qed.
Lemma rfor_progress {A B} (f : A → rtx B) e l : (∀ x s y s', f x e s = Ok (y, s') → progress s s') →
  ∀ s ys s', rfor f l e s = Ok (ys, s') → progress s s'.
Proof using Type.
  intros Hf. induction l as [|x l IH]; intros s ys s' Hr; cbn [rfor] in Hr; [apply rtx_ret_Ok in Hr as [= _ ->]; done|].
  apply rtx_bind_Ok in Hr as (y & s1 & H1 & Hr). apply rtx_bind_Ok in Hr as (zs & s2 & H2 & Hr). apply rtx_ret_Ok in Hr as [= _ ->].
  etrans; [by eapply Hf|by eapply IH].
Qed.

(** A key that is new to the rows it concerns. *)
Lemma NoDup_keyed {A K} (q : A → bool) (key : A → K) l r : NoDup (map key (List.filter q l)) →
  (q r = true → ∀ x, x ∈ l → q x = true → key x ≠ key r) → NoDup (map key (List.filter q (l ++ [r]))).
Proof using Type.
  intros Hnd Hr. rewrite List.filter_app, map_app. cbn [List.filter]. destruct (q r); [|by rewrite app_nil_r].
  apply NoDup_app. split; [done|]. split; [|apply NoDup_singleton]. intros k (x & -> & Hx)%list_elem_of_fmap Hk%list_elem_of_singleton.
  apply list_elem_of_In, filter_In in Hx as [Hx Hq]. by apply (Hr eq_refl x (proj2 (list_elem_of_In _ _) Hx) Hq).
Qed.
Lemma NoDup_snoc {A K} (key : A → K) l r : NoDup (map key l) → (key r ∉ map key l) → NoDup (map key (l ++ [r])).
Proof using Type.
  intros Hnd Hr. rewrite map_app. apply NoDup_app. split; [done|]. split; [|apply NoDup_singleton].
  intros k Hk Heq%list_elem_of_singleton. by subst k.
Qed.

Lemma original_clash_spec r x : contract_original r = true → original_clash r x = true ↔ contract_original x = true ∧ original_key x = original_key r.
Proof using Type.
  unfold contract_original, original_clash, original_of, original_key, is_original. rewrite !andb_true_iff, !bool_decide_eq_true.
  intros [[p ->] Hr]. cbn. rewrite !andb_true_iff, !bool_decide_eq_true. split.
  - intros [[[[? ?] Hh] ?] ?]. destruct (xf_contract x) as [p'|]; [|done]. cbn in *. split; [by split; [eexists|]|]. congruence.
  - intros [[_ ?] [= -> -> -> ->]]. done.
Qed.
Lemma correction_clash_spec r x : contract_correction r = true → correction_clash r x = true ↔
  contract_correction x = true ∧ correction_key x = correction_key r.
Proof using Type.
  unfold contract_correction, correction_clash, correction_key, original_key, is_original.
  rewrite !andb_true_iff, !negb_true_iff, !bool_decide_eq_true, !bool_decide_eq_false. intros [Hc Hr]. split.
  - intros [[[[[[? ?] Hh] ?] ?] Hk] ?]. split; [split; [|congruence]|congruence]. destruct Hc as [p Hp]. rewrite Hp in Hh.
    destruct (xf_contract x); [by eexists|done].
  - intros [_ [= -> -> Hh -> Hk]]. split_and!; try done. destruct (xf_correction r); [by eexists|done].
Qed.
Lemma insert_field_inv clash r e s b s' : insert_field clash r e s = Ok (b, s') →
  b = true ∧ s' = set_fields (extraction_fields s ++ [r]) s ∧ (∀ x, x ∈ extraction_fields s → clash r x = false) ∨
  b = false ∧ s' = s ∧ ∃ x, x ∈ extraction_fields s ∧ clash r x = true.
Proof using Type.
  unfold insert_field. intros (t & s1 & Ht & Hi)%rtx_bind_Ok. apply rquery_Ok in Ht as [= -> ->].
  destruct (existsb (clash r) (extraction_fields s)) eqn:He.
  - apply rtx_ret_Ok in Hi as [= -> ->]. right. by apply existsb_true in He.
  - apply rtx_bind_Ok in Hi as (u & s2 & Hm & Hi). apply rmodify_Ok in Hm as [= _ ->]. apply rtx_ret_Ok in Hi as [= -> ->]. left.
    by rewrite existsb_false in He.
Qed.
Lemma insert_field_progress clash r e s b s' : insert_field clash r e s = Ok (b, s') → (xf_id r ∉ map xf_id (extraction_fields s)) →
  (∀ x, contract_original r = true → contract_original x = true → original_key x = original_key r → clash r x = true) →
  (∀ x, contract_correction r = true → contract_correction x = true → correction_key x = correction_key r → clash r x = true) →
  progress s s'.
Proof using Type.
  intros [(-> & -> & Hno)|(-> & -> & _)]%insert_field_inv Hid Ho Hc; [|done]. split.
  - split; cbn; [by eexists|exists []; by rewrite app_nil_r|]. exists (clarifying_questions s), []. rewrite app_nil_r.
    split; [done|]. apply Forall2_refl_rel, still_asked_refl.
  - intros []. split; cbn; try done; [by apply NoDup_snoc| |].
    + apply NoDup_keyed; [done|]. intros Hr x Hx Hq Hk. specialize (Hno x Hx). by rewrite (Ho x Hr Hq Hk) in Hno.
    + apply NoDup_keyed; [done|]. intros Hr x Hx Hq Hk. specialize (Hno x Hx). by rewrite (Hc x Hr Hq Hk) in Hno.
Qed.

(** ** Every handler makes progress *)

Lemma field_row_spec clientId documentId h x time rowId row : let r := field_row clientId documentId h x time rowId row in
  xf_id r = rowId ∧ xf_path r = row.1 ∧ contract_original r = true ∧ contract_correction r = false ∧
  original_of (pg_uuid clientId) (pg_uuid documentId) h r = true.
Proof using Type.
  unfold field_row. destruct (value_parts row.2) as [[[[raw normalized] confidence] citations] question]. cbn. split_and!; try done.
  unfold original_of. cbn. by rewrite !bool_decide_true.
Qed.
(** One row of the loop. *)
Definition store_row (clientId documentId h : string) (x : ContractExtraction) (row : PersistenceRow) : rtx bool :=
  rowId ← fresh (λ s, map xf_id (extraction_fields s)); time ← on_tables (ask now);
  insert_field original_clash (field_row clientId documentId h x time rowId row).
Lemma store_row_inv clientId documentId h x row e s b s' : store_row clientId documentId h x row e s = Ok (b, s') →
  ∃ d rowId, let r := field_row clientId documentId h x (now e) rowId row in (rowId ∉ map xf_id (extraction_fields s)) ∧
    (b = true ∧ s' = set_fields (extraction_fields s ++ [r]) (set_shared d s) ∧ (∀ y, y ∈ extraction_fields s → original_clash r y = false) ∨
     b = false ∧ s' = set_shared d s ∧ ∃ y, y ∈ extraction_fields s ∧ original_clash r y = true).
Proof using Type.
  unfold store_row. intros (rowId & s1 & (d & -> & Hid)%fresh_inv & Hs)%rtx_bind_Ok.
  apply rtx_bind_Ok in Hs as (time & s2 & [-> ->]%now_inv & Hs). apply insert_field_inv in Hs. cbn in *. by exists d, rowId.
Qed.
Lemma store_row_progress clientId documentId h x row e s b s' : store_row clientId documentId h x row e s = Ok (b, s') → progress s s'.
Proof using Type.
  unfold store_row. intros (rowId & s1 & (d & -> & Hid)%fresh_inv & Hs)%rtx_bind_Ok. etrans; [apply (progress_shared d)|].
  apply rtx_bind_Ok in Hs as (time & s2 & [-> ->]%now_inv & Hs).
  destruct (field_row_spec clientId documentId h x (now e) rowId row) as (Hr & _ & Ho & Hc & _).
  eapply insert_field_progress; [exact Hs|by rewrite Hr| |congruence]. intros y _ Hy Hk. by apply original_clash_spec.
Qed.
Lemma persist_extraction_progress clientId documentId actor key x e s r s' :
  persistContractExtraction clientId documentId actor key x e s = Ok (r, s') → progress s s'.
Proof using Type.
  unfold persistContractExtraction. intros Hp. rtx_inv.
  match goal with Hr : rfor _ _ _ _ = Ok _, Hv : review_event _ _ _ _ _ _ _ _ _ _ = Ok _ |- _ =>
    apply review_event_inv in Hv as [d ->]; apply rfor_progress in Hr; [etrans; [exact Hr|apply progress_shared]|] end.
  intros row s1 b s2. apply store_row_progress.
Qed.

Lemma insert_question_progress r e s b s' : insert_question r e s = Ok (b, s') → (cl_id r ∉ map cl_id (clarifying_questions s)) → progress s s'.
Proof using Type.
  unfold insert_question. intros (t & s1 & Ht & Hi)%rtx_bind_Ok Hid. apply rquery_Ok in Ht as [= -> ->].
  destruct (existsb _ _) eqn:He; [by apply rtx_ret_Ok in Hi as [= -> ->]|].
  apply rtx_bind_Ok in Hi as (u & s2 & Hm & Hi). apply rmodify_Ok in Hm as [= _ ->]. apply rtx_ret_Ok in Hi as [= -> ->].
  rewrite existsb_false in He. split.
  - split; cbn; try (exists []; by rewrite app_nil_r). exists (clarifying_questions s), [r]. split; [done|].
    apply Forall2_refl_rel, still_asked_refl.
  - intros []. split; cbn; try done; [by apply NoDup_snoc|]. apply NoDup_snoc; [done|]. intros (x & Hk & Hx)%list_elem_of_fmap.
    specialize (He x Hx). unfold question_key in Hk. injection Hk as H1 H2 H3 H4. unfold question_of_extraction in He.
    by rewrite H1, H2, H3, H4, !bool_decide_true in He.
Qed.
Lemma persist_questions_progress clientId documentId actor h version qs e s r s' :
  persistClarifyingQuestions clientId documentId actor h version qs e s = Ok (r, s') → progress s s'.
Proof using Type.
  unfold persistClarifyingQuestions. intros Hp. rtx_inv.
  repeat match goal with Hx : extraction_on_record _ _ _ _ _ = Ok _ |- _ => apply on_record_inv in Hx as [-> _] end.
  match goal with Hr : rfor _ _ _ _ = Ok _, Hv : review_event _ _ _ _ _ _ _ _ _ _ = Ok _ |- _ =>
    apply review_event_inv in Hv as [d ->]; apply rfor_progress in Hr; [etrans; [exact Hr|apply progress_shared]|] end.
  intros q s1 b s2 (rowId & s3 & (d' & -> & Hid)%fresh_inv & Hi)%rtx_bind_Ok. etrans; [apply (progress_shared d')|].
  by eapply insert_question_progress.
Qed.

Lemma answered_progress p a s : progress s (set_questions (update_where p (with_answer a) (clarifying_questions s)) s).
Proof using Type.
  assert (∀ B (f : clarifying_question → B), (∀ x, f (with_answer a x) = f x) →
    map f (update_where p (with_answer a) (clarifying_questions s)) = map f (clarifying_questions s)) as Hmap.
  { intros B f Hf. unfold update_where. rewrite map_map. apply map_ext. intros x. by destruct (p x). }
  split.
  - split; cbn; try (exists []; by rewrite app_nil_r). exists (update_where p (with_answer a) (clarifying_questions s)), [].
    rewrite app_nil_r. split; [done|]. clear. induction (clarifying_questions s) as [|x l IH]; constructor; [|done].
    destruct (p x); [|apply still_asked_refl]. split; [done|]. by eexists.
  - intros []. split; cbn; try done; by rewrite Hmap.
Qed.
Lemma answer_progress clientId questionId actor answer source e s r s' :
  answerClarifyingQuestion clientId questionId actor answer source e s = Ok (r, s') → progress s s'.
Proof using Type.
  unfold answerClarifyingQuestion. intros Hp. apply rtx_bind_Ok in Hp as (u & s1 & [_ [= _ ->]]%rcheck_Ok & Hp).
  apply rtx_bind_Ok in Hp as (t & s2 & [= -> ->]%rquery_Ok & Hp). apply rtx_bind_Ok in Hp as (q & s3 & (q' & _ & [= -> ->])%rthe_Ok & Hp).
  case_bool_decide; [by apply rtx_ret_Ok in Hp as [= -> ->]|].
  apply rtx_bind_Ok in Hp as (b & s4 & [d ->]%review_event_inv & Hp). apply rtx_bind_Ok in Hp as (v & s5 & [_ [= _ ->]]%rcheck_Ok & Hp).
  apply rtx_bind_Ok in Hp as (w & s6 & [= _ ->]%rmodify_Ok & Hp). apply rtx_ret_Ok in Hp as [= -> ->].
  etrans; [apply (progress_shared d)|apply (answered_progress _ _ (set_shared d s))].
Qed.

Lemma select_uncorrected clientId fieldId t x : select_one (correctable clientId fieldId) t = Some x →
  x ∈ t ∧ is_Some (xf_contract x) ∧ xf_correction x = None.
Proof using Type.
  intros [Hin Hx]%select_one_Some. unfold correctable in Hx. rewrite !andb_true_iff, !bool_decide_eq_true in Hx.
  destruct Hx as [[_ ?] Hc]. split; [done|]. split; [done|]. by destruct (xf_correction x).
Qed.
Lemma correction_progress clientId fieldId actor value source e s r s' :
  persistExtractionFieldCorrection clientId fieldId actor value source e s = Ok (r, s') → progress s s'.
Proof using Type.
  unfold persistExtractionFieldCorrection. intros Hp. apply rtx_bind_Ok in Hp as (u & s1 & [_ [= _ ->]]%rcheck_Ok & Hp).
  apply rtx_bind_Ok in Hp as (t & s2 & [= -> ->]%rquery_Ok & Hp). apply rtx_bind_Ok in Hp as (q & s3 & (x & Hx & [= -> ->])%rthe_Ok & Hp).
  apply rtx_bind_Ok in Hp as (rowId & s4 & (d & -> & Hid)%fresh_inv & Hp). apply rtx_bind_Ok in Hp as (time & s5 & [-> ->]%now_inv & Hp).
  apply rtx_bind_Ok in Hp as (created & s6 & Hi & Hp). apply rtx_bind_Ok in Hp as (i & s7 & Hi2 & Hp).
  apply rtx_bind_Ok in Hp as (b & s8 & [d' ->]%review_event_inv & Hp). apply rtx_ret_Ok in Hp as [= _ ->].
  assert (s7 = s6) as ->.
  { destruct created; [by apply rtx_ret_Ok in Hi2 as [= _ ->]|]. apply rtx_bind_Ok in Hi2 as (y & s9 & (z & _ & [= _ ->])%rthe_Ok & Hi2).
    by apply rtx_ret_Ok in Hi2 as [= _ ->]. }
  apply select_uncorrected in Hx as (_ & Hc & _).
  etrans; [apply (progress_shared d)|]. etrans; [|apply progress_shared]. eapply insert_field_progress; [exact Hi|exact Hid| |].
  - intros y Ho _ _. unfold contract_original, is_original in Ho. cbn in Ho. by rewrite andb_false_r in Ho.
  - intros y Hr Hy Hk. by apply correction_clash_spec.
Qed.

Lemma insert_verification_inv r e s b s' : insert_verification r e s = Ok (b, s') →
  b = true ∧ s' = add_verification r s ∧ (verification_key r ∉ map verification_key (verifications s)) ∨
  b = false ∧ s' = s.
Proof using Type.
  unfold insert_verification. intros (t & s1 & [= -> ->]%rquery_Ok & Hi)%rtx_bind_Ok. destruct (existsb _ _) eqn:He.
  - apply rtx_ret_Ok in Hi as [= -> ->]. by right.
  - apply rtx_bind_Ok in Hi as (u & s1 & [_ [= _ ->]]%rcheck_Ok & Hi). apply rtx_bind_Ok in Hi as (w & s2 & [= _ ->]%rmodify_Ok & Hi).
    apply rtx_ret_Ok in Hi as [= -> ->]. left. split; [done|]. split; [done|]. rewrite existsb_false in He.
    intros (x & Hk & Hx)%list_elem_of_fmap. specialize (He x Hx). by rewrite Hk, bool_decide_true in He.
Qed.
(** What finalization reads. *)
Definition extraction_rows (clientId document h : string) s : list extraction_field :=
  js_sort field_order (List.filter (of_extraction (pg_uuid clientId) document h) (extraction_fields s)).
Definition resolved_fields (clientId document h : string) s : json :=
  JArray (map (resolve_field (extraction_rows clientId document h s)) (List.filter is_original (extraction_rows clientId document h s))).
Lemma finalize_inv clientId versionId actor h e s i vh n created s' :
  finalizeContractVersion clientId versionId actor h e s = Ok ((i, vh, n, created), s') →
  ∃ v document, v ∈ contract_versions s ∧ uuid_is (cv_id v) versionId = true ∧ uuid_is (cv_account v) clientId = true ∧
    cv_source_document v = Some document ∧
    existsb (extraction_persisted clientId document h) (audit_log (shared s)) = true ∧
    n = length (List.filter is_original (extraction_rows clientId document h s)) ∧ n ≠ 0%nat ∧
    (∀ q, q ∈ clarifying_questions s → question_of_extraction (pg_uuid clientId) document h q = true → is_Some (cl_answer q)) ∧
    vh = verification_hash versionId document h (resolved_fields clientId document h s) ∧
    ∃ d d' rowId, let r := mkVerification (mkVerified rowId (pg_uuid clientId) (pg_uuid versionId) document h vh)
        (resolved_fields clientId document h s) (pg_uuid actor) in
      (rowId ∉ map (vv_id ∘ vr_version) (verifications s)) ∧
      (created = true ∧ i = rowId ∧ s' = set_shared d' (add_verification r (set_shared d s)) ∧
         (verification_key r ∉ map verification_key (verifications s)) ∨
       created = false ∧ s' = set_shared d' s ∧ ∃ x, x ∈ verifications s ∧ same_verification r x = true ∧ i = vv_id (vr_version x)).
Proof using Type.
  unfold finalizeContractVersion. intros (vs & s1 & [= -> ->]%rquery_Ok & Hp)%rtx_bind_Ok.
  apply rtx_bind_Ok in Hp as (document & s2 & (doc & Hv & [= -> ->])%rthe_Ok & Hp).
  apply rtx_bind_Ok in Hp as (found & s3 & [-> ->]%on_record_inv & Hp). apply rtx_bind_Ok in Hp as (u1 & s4 & [Hrec [= _ ->]]%rcheck_Ok & Hp).
  apply rtx_bind_Ok in Hp as (t & s5 & [= -> ->]%rquery_Ok & Hp). fold (extraction_rows clientId doc h s) in Hp.
  apply rtx_bind_Ok in Hp as (u2 & s6 & [Hn [= _ ->]]%rcheck_Ok & Hp). apply rtx_bind_Ok in Hp as (qs & s7 & [= -> ->]%rquery_Ok & Hp).
  apply rtx_bind_Ok in Hp as (u3 & s8 & [Hq [= _ ->]]%rcheck_Ok & Hp). fold (resolved_fields clientId doc h s) in Hp.
  apply rtx_bind_Ok in Hp as (rowId & s9 & (d & -> & Hid)%fresh_inv & Hp). apply rtx_bind_Ok in Hp as (before & s10 & [= -> ->]%rquery_Ok & Hp).
  apply rtx_bind_Ok in Hp as (b & s11 & Hins & Hp). apply rtx_bind_Ok in Hp as (i' & s12 & Hi & Hp).
  apply rtx_bind_Ok in Hp as (ev & s13 & [d' ->]%review_event_inv & Hp). apply rtx_ret_Ok in Hp as [= -> -> -> -> ->].
  apply bind_Some in Hv as (v & [Hvin Hvb]%select_one_Some & Hdoc). apply andb_true_iff in Hvb as [Hv1 Hv2].
  exists v, doc. split_and!; try done.
  - apply negb_true_iff, bool_decide_eq_false in Hn. done.
  - intros q Hin Hqo. rewrite forallb_forall in Hq. specialize (Hq q ltac:(by apply list_elem_of_In)). rewrite Hqo in Hq. by apply bool_decide_eq_true in Hq.
  - exists d, d', rowId. cbn zeta. split; [exact Hid|]. apply insert_verification_inv in Hins as [(-> & -> & Hk)|(-> & ->)].
    + apply rtx_ret_Ok in Hi as [= -> ->]. by left.
    + apply rtx_bind_Ok in Hi as (y & s14 & (x & [Hx Hsame]%select_one_Some & [= -> ->])%rthe_Ok & Hi). apply rtx_ret_Ok in Hi as [= -> ->].
      right. split; [done|]. split; [done|]. by exists x.
Qed.
Lemma finalize_progress clientId versionId actor h e s r s' : finalizeContractVersion clientId versionId actor h e s = Ok (r, s') → progress s s'.
Proof using Type.
  destruct r as [[[i vh] n] created].
  intros (v & document & _ & _ & _ & _ & _ & _ & _ & _ & _ & d & d' & rowId & Hid & [(_ & _ & -> & Hk)|(_ & -> & _)])%finalize_inv;
    [|apply progress_shared].
  etrans; [apply (progress_shared d)|]. etrans; [|apply progress_shared]. split.
  - split; cbn; [exists []; by rewrite app_nil_r|by eexists|]. exists (clarifying_questions s), []. rewrite app_nil_r.
    split; [done|]. apply Forall2_refl_rel, still_asked_refl.
  - intros []. split; cbn; try done; by apply NoDup_snoc.
Qed.
End safety.
