(* ===== verification/ExtractionReviewHistory.v ===== *)
(** The course of a review: what no sequence of its steps undoes, what persisting an
    extraction stores, and what a verified version rests on.  The relation
    [review_step] commits one handler of [ExtractionReview.v] at a time. *)

From Stdlib Require Import QArith.
From S2P Require Import Prelude JsText Decimal Json Store AuditLedger Jsonb JsDate Database Tx Manifest Proposals ProposalsSafety ProposalLifecycle ProposalLifecycleSafety RateTable Extraction ExtractionSafety ExtractionReview ExtractionReviewSafety.

Section history.
Context {T : Unicode} {C : Collator} {O : DbCollation} {H : Sha256} {U : UuidSource} {V : Zod}.
Implicit Types (e : env) (s : review_db).

(** ** Steps *)

(** A draft of an invoice stores a field that belongs to no contract extraction. *)
Definition add_draft_field (r : extraction_field) (s : review_db) : review_db := set_fields (extraction_fields s ++ [r]) s.
(** Other work writes none of the three tables of a review. *)
Definition same_review (s s' : review_db) : Prop :=
  extraction_fields s' = extraction_fields s ∧ clarifying_questions s' = clarifying_questions s ∧ verifications s' = verifications s.
Inductive review_step : review_db → review_db → Prop :=
  | review_extraction clientId documentId actor key x e s r s' :
      persistContractExtraction clientId documentId actor key x e s = Ok (r, s') → review_step s s'
  | review_questions clientId documentId actor h version qs e s r s' :
      persistClarifyingQuestions clientId documentId actor h version qs e s = Ok (r, s') → review_step s s'
  | review_answer clientId questionId actor answer source e s r s' :
      answerClarifyingQuestion clientId questionId actor answer source e s = Ok (r, s') → review_step s s'
  | review_correction clientId fieldId actor value source e s r s' :
      persistExtractionFieldCorrection clientId fieldId actor value source e s = Ok (r, s') → review_step s s'
  | review_finalize clientId versionId actor h e s r s' :
      finalizeContractVersion clientId versionId actor h e s = Ok (r, s') → review_step s s'
  | review_draft r s : xf_contract r = None → (xf_id r ∉ map xf_id (extraction_fields s)) → review_step s (add_draft_field r s)
  | review_other s s' : same_review s s' → review_step s s'.

Lemma draft_progress r s : xf_contract r = None → (xf_id r ∉ map xf_id (extraction_fields s)) → progress s (add_draft_field r s).
Proof using Type.
  intros Hr Hid. split.
  - split; cbn; [by eexists|exists []; by rewrite app_nil_r|]. exists (clarifying_questions s), []. rewrite app_nil_r.
    split; [done|]. apply Forall2_refl_rel, still_asked_refl.
  - intros []. split; cbn; try done; [by apply NoDup_snoc|apply NoDup_keyed; [done|]..];
      unfold contract_original, contract_correction; rewrite Hr; by intros [=].
Qed.
Lemma other_progress s s' : same_review s s' → progress s s'.
Proof using Type.
  intros (Hf & Hq & Hv). split.
  - split; rewrite ?Hf, ?Hq, ?Hv; try (exists []; by rewrite app_nil_r). exists (clarifying_questions s), []. rewrite app_nil_r.
    split; [done|]. apply Forall2_refl_rel, still_asked_refl.
  - intros []. by split; rewrite ?Hf, ?Hq, ?Hv.
Qed.
Lemma review_step_progress s s' : review_step s s' → progress s s'.
Proof using Type.
  intros [].
  - by eapply persist_extraction_progress.
  - by eapply persist_questions_progress.
  - by eapply answer_progress.
  - by eapply correction_progress.
  - by eapply finalize_progress.
  - by apply draft_progress.
  - by apply other_progress.
Qed.

(** C25: No sequence of review steps rewrites evidence. Whatever persists, asks,
    answers, corrects and verifies: every row of an extraction, every correction and
    every verified version stays as it was written, at its place; a question keeps its
    text and hash, and one that was answered stays answered. The keys stay keys: one
    uncorrected row per extraction and path, one correction per hash, one question per
    path, one verified version per contract version and extraction. *)
Theorem evidence_never_rewritten s0 s : rtc review_step s0 s → review_sound s0 →
  (∃ added, extraction_fields s = extraction_fields s0 ++ added) ∧
  (∃ added, verifications s = verifications s0 ++ added) ∧
  (∃ kept added, clarifying_questions s = kept ++ added ∧ Forall2 still_asked (clarifying_questions s0) kept) ∧
  review_sound s.
Proof using Type.
  intros Hs H0. assert (progress s0 s) as [[Hf Hv Hq] Hsound]; [|by split_and!; try done; apply Hsound].
  induction Hs as [s|s1 s2 s3 H1 _ IH]; [done|]. apply review_step_progress in H1. etrans; [exact H1|]. by apply IH, H1.
Qed.

(** ** What persisting stores *)

(** The uncorrected rows of an extraction. *)
Definition originals_of (clientId documentId h : string) (t : list extraction_field) : list extraction_field :=
  List.filter (original_of (pg_uuid clientId) (pg_uuid documentId) h) t.

Lemma original_clash_row clientId documentId h x time rowId row y :
  original_clash (field_row clientId documentId h x time rowId row) y = true ↔
  original_of (pg_uuid clientId) (pg_uuid documentId) h y = true ∧ xf_path y = row.1.
Proof using Type.
  unfold field_row. destruct (value_parts row.2) as [[[[raw normalized] confidence] citations] question]. cbn.
  by rewrite andb_true_iff, bool_decide_eq_true.
Qed.
Lemma originals_stored clientId documentId h x e rows : ∀ s ins s', rfor (store_row clientId documentId h x) rows e s = Ok (ins, s') →
  ∃ added, extraction_fields s' = extraction_fields s ++ added ∧
    (∀ y, y ∈ added → ∃ rowId row, row ∈ rows ∧ y = field_row clientId documentId h x (now e) rowId row) ∧
    length (originals_of clientId documentId h (extraction_fields s')) =
      (length (originals_of clientId documentId h (extraction_fields s)) + length (List.filter (λ b, b) ins))%nat ∧
    ∀ row, row ∈ rows → row.1 ∈ map xf_path (originals_of clientId documentId h (extraction_fields s')).
Proof using Type.
  induction rows as [|row rows IH]; intros s ins s' Hr; cbn [rfor] in Hr.
  - apply rtx_ret_Ok in Hr as [= -> ->]. exists []. rewrite app_nil_r. split_and!; [done|by intros y ?%elem_of_nil|cbn; lia|by intros y ?%elem_of_nil].
  - apply rtx_bind_Ok in Hr as (b & s1 & H1 & Hr). apply rtx_bind_Ok in Hr as (bs & s2 & H2 & Hr). apply rtx_ret_Ok in Hr as [= -> ->].
    destruct (IH _ _ _ H2) as (added & Hadd & Hrows & Hlen & Hin). clear IH H2.
    apply store_row_inv in H1 as (d & rowId & _ & Hcase). cbn zeta in Hcase. set (r := field_row _ _ _ _ _ _ _) in *.
    destruct (field_row_spec clientId documentId h x (now e) rowId row) as (_ & Hpath & _ & _ & Ho). fold r in Hpath, Ho.
    destruct Hcase as [(-> & -> & _)|(-> & -> & y & Hy & Hc)]; cbn in Hadd, Hlen.
    + exists (r :: added). rewrite Hadd, <- app_assoc. split; [done|]. split.
      { intros y [->|Hy]%elem_of_cons; [exists rowId, row; split; [left|done]|]. destruct (Hrows y Hy) as (i & w & Hw & ->). exists i, w. split; [by right|done]. }
      unfold originals_of in *. rewrite Hadd, !List.filter_app, !length_app in Hlen. rewrite Hadd in Hin. cbn in Hlen. rewrite Ho in Hlen.
      rewrite !List.filter_app, !length_app. cbn. rewrite Ho. cbn. split; [cbn in Hlen; lia|].
      rewrite !List.filter_app in Hin. cbn in Hin. rewrite Ho, <- app_assoc in Hin.
      intros w [->|Hw]%elem_of_cons; [|by apply Hin]. rewrite !map_app. cbn. rewrite Hpath. set_solver.
    + exists added. split; [done|]. split; [intros z Hz; destruct (Hrows z Hz) as (i & w & Hw & ->); exists i, w; split; [by right|done]|].
      split; [exact Hlen|]. intros w [->|Hw]%elem_of_cons; [|by apply Hin]. apply original_clash_row in Hc as [Hyo <-].
      apply list_elem_of_In, in_map, filter_In. split; [|done]. rewrite Hadd. apply list_elem_of_In, elem_of_app. by left.
Qed.

Lemma flatten_distinct untrusted x : parseContractExtraction untrusted = Some x → NoDup (map fst (flattenExtraction x)).
Proof using Type.
  intros [_ Hok]%parse_spec. unfold flattenExtraction. rewrite js_sort_perm. apply all_paths_distinct in Hok.
  rewrite <- all_rows_paths in Hok. by apply NoDup_app in Hok as [Hok _].
Qed.

(** C26: An extraction is stored whole or not at all. When persisting one succeeds, the
    idempotency key is the hash of the parsed extraction, the rows of that hash without
    a correction are exactly one per row the extraction flattens to (its fields, its
    clauses, the title and the cells of its tables), rows already stored stay, and
    every row added is the row of one of them. *)
Theorem extraction_stored_whole clientId documentId actor key untrusted e s h n created s' :
  persistContractExtraction clientId documentId actor key untrusted e s = Ok ((h, n, created), s') →
  ∃ x, parseContractExtraction untrusted = Some x ∧ contractExtractionIdempotencyKey x = Some h ∧ h = key ∧
    n = length (flattenExtraction x) ∧ NoDup (map fst (flattenExtraction x)) ∧
    (flattenExtraction x = [] ∨
     map xf_path (originals_of clientId documentId h (extraction_fields s')) ≡ₚ map fst (flattenExtraction x)) ∧
    ∃ added, extraction_fields s' = extraction_fields s ++ added ∧
      ∀ y, y ∈ added → ∃ rowId row, row ∈ flattenExtraction x ∧ y = field_row clientId documentId h x (now e) rowId row.
Proof using Type.
  unfold persistContractExtraction. intros (u & s1 & [_ [= _ ->]]%rcheck_Ok & Hp)%rtx_bind_Ok.
  apply rtx_bind_Ok in Hp as (x & s2 & (y & Hx & [= -> ->])%rthe_Ok & Hp). apply rtx_bind_Ok in Hp as (k & s3 & (k' & Hk & [= -> ->])%rthe_Ok & Hp).
  apply rtx_bind_Ok in Hp as (u2 & s4 & [Hkey [= _ ->]]%rcheck_Ok & Hp). apply bool_decide_eq_true in Hkey as <-.
  apply rtx_bind_Ok in Hp as (ds & s5 & [= _ ->]%rquery_Ok & Hp). apply rtx_bind_Ok in Hp as (src & s6 & (z & _ & [= _ ->])%rthe_Ok & Hp).
  apply rtx_bind_Ok in Hp as (u3 & s7 & [_ [= _ ->]]%rcheck_Ok & Hp). apply rtx_bind_Ok in Hp as (before & s8 & [= -> ->]%rquery_Ok & Hp).
  apply rtx_bind_Ok in Hp as (ins & s9 & Hloop%originals_stored & Hp). apply rtx_bind_Ok in Hp as (u4 & s10 & [Hall [= _ ->]]%rcheck_Ok & Hp).
  apply rtx_bind_Ok in Hp as (b & s11 & [d ->]%review_event_inv & Hp). apply rtx_ret_Ok in Hp as [= -> -> -> ->]. cbn [extraction_fields set_shared].
  exists y. split_and!; try done.
  - by apply flatten_distinct with untrusted.
  - apply orb_true_iff in Hall as [?%bool_decide_eq_true|[Hn%bool_decide_eq_true _]%andb_true_iff]; [by left|right].
    destruct Hloop as (added & _ & _ & Hlen & Hin). symmetry. apply NoDup_Permutation_bis.
    + apply NoDup_ListNoDup. by apply flatten_distinct with untrusted.
    + rewrite !length_map. change (length (originals_of clientId documentId key (extraction_fields s9)) ≤ length (flattenExtraction y))%nat.
      rewrite Hlen, <- Hn. unfold originals_of. lia.
    + intros path (row & <- & Hrow)%in_map_iff. apply list_elem_of_In. by apply Hin, list_elem_of_In.
  - destruct Hloop as (added & Hadd & Hrows & _). by exists added.
Qed.

(** ** What a verified version rests on *)

Context `{!TotalPreorder O}.
#[local] Instance field_order_preorder : TotalPreorder field_order.
Proof using All. unfold field_order. apply _. Qed.

(** A correction of the same path. *)
Definition corrects (y z : extraction_field) : Prop := xf_path z = xf_path y ∧ is_original z = false.
Lemma StronglySorted_last {A} (R : A → A → Prop) l x z : StronglySorted R l → last l = Some x → z ∈ l → z = x ∨ R z x.
Proof using Type.
  induction 1 as [|y l Hl IH Hy]; intros Hlast Hz; [by apply elem_of_nil in Hz|].
  destruct l as [|y' l']; [injection Hlast as ->; left; by apply list_elem_of_singleton in Hz|].
  apply elem_of_cons in Hz as [->|Hz]; [right|by apply IH]. rewrite Forall_forall in Hy. apply Hy. by apply last_Some_elem_of.
Qed.
Lemma StronglySorted_filter {A} (R : A → A → Prop) q l : StronglySorted R l → StronglySorted R (List.filter q l).
Proof using Type.
  induction 1 as [|y l Hl IH Hy]; cbn; [constructor|]. destruct (q y); [|done]. constructor; [done|].
  rewrite Forall_forall in *. intros x [Hx _]%list_elem_of_In%filter_In. by apply Hy, list_elem_of_In.
Qed.
Lemma same_path_time x y : xf_path x = xf_path y → cmp_le field_order x y → xf_recorded_at x <= xf_recorded_at y.
Proof using All.
  unfold cmp_le, field_order, cmp_then, cmp_on. intros ->. pose proof (cmp_anti (cmp := text_order) (xf_path y) (xf_path y)) as Ha.
  destruct (text_order (xf_path y) (xf_path y)) eqn:E; try discriminate Ha. intros Hc. apply Z.compare_le_iff. intros Hgt. rewrite Hgt in Hc. by destruct Hc.
Qed.
(** The last correction in the order of the query is the latest of its path. *)
Lemma last_correction_latest clientId document h s y : let rows := extraction_rows clientId document h s in
  match last_correction rows y with
  | Some c => c ∈ rows ∧ corrects y c ∧ ∀ z, z ∈ rows → corrects y z → xf_recorded_at z <= xf_recorded_at c
  | None => ∀ z, z ∈ rows → ~ corrects y z
  end.
Proof using All.
  intros rows. unfold last_correction. set (q := λ x, bool_decide _ && _).
  assert (∀ z, q z = true ↔ corrects y z) as Hq.
  { intros z. unfold q, corrects. by rewrite andb_true_iff, bool_decide_eq_true, negb_true_iff. }
  assert (∀ z, z ∈ List.filter q rows ↔ z ∈ rows ∧ corrects y z) as Hin.
  { intros z. rewrite !list_elem_of_In, filter_In. by rewrite Hq. }
  destruct (last (List.filter q rows)) as [c|] eqn:Hl.
  - pose proof (last_Some_elem_of _ _ Hl) as Hc. apply Hin in Hc as [Hc Hyc]. split; [done|]. split; [done|]. intros z Hz Hyz.
    destruct (StronglySorted_last (cmp_le field_order) _ c z (StronglySorted_filter _ q _ (js_sort_sorted field_order _)) Hl) as [->|Hle];
      [by apply Hin|done|]. apply same_path_time; [|done]. by rewrite (proj1 Hyz), (proj1 Hyc).
  - apply last_None in Hl. intros z Hz Hyz. by eapply (elem_of_nil z), eq_ind, Hl; apply Hin.
Qed.
Lemma json_same_refl a : json_same a a = true.
Proof using Type. unfold json_same. by apply bool_decide_eq_true. Qed.

(** C10: A version is verified only from complete, answered, current evidence. Success
    means: the contract version is the account's and names a document, an extraction
    with that hash is on the document's ledger, it has at least one row, every one of
    its questions is answered, and the version on record under the returned identifier
    holds, row by row, the value of the latest correction of the path, and the model's
    value where there is no correction or where the latest one is to [null] (such a
    correction has no effect, [null_correction_is_ignored]). *)
Theorem verified_from_complete_evidence clientId versionId actor h e s i vh n created s' :
  finalizeContractVersion clientId versionId actor h e s = Ok ((i, vh, n, created), s') →
  ∃ v document x, v ∈ contract_versions s ∧ uuid_is (cv_id v) versionId = true ∧ uuid_is (cv_account v) clientId = true ∧
    cv_source_document v = Some document ∧ existsb (extraction_persisted clientId document h) (audit_log (shared s)) = true ∧
    (∀ q, q ∈ clarifying_questions s → question_of_extraction (pg_uuid clientId) document h q = true → is_Some (cl_answer q)) ∧
    let rows := extraction_rows clientId document h s in
    let originals := List.filter is_original rows in
    n = length originals ∧ n ≠ 0%nat ∧
    x ∈ verifications s' ∧ vv_id (vr_version x) = i ∧ vr_by x = pg_uuid actor ∧
    vv_extraction_hash (vr_version x) = h ∧ vv_verification_hash (vr_version x) = vh ∧
    vh = verification_hash versionId document h (JArray (map (resolve_field rows) originals)) ∧
    json_same (vr_resolved_fields x) (JArray (map (resolve_field rows) originals)) = true ∧
    ∀ y, y ∈ originals →
      (prop (resolve_field rows y) "effectiveValue" = Some (xf_ai_value y) ∧ ∀ z, z ∈ rows → ~ corrects y z) ∨
      ∃ c, c ∈ rows ∧ corrects y c ∧ (∀ z, z ∈ rows → corrects y z → xf_recorded_at z <= xf_recorded_at c) ∧
        prop (resolve_field rows y) "effectiveValue" = Some (nullish (xf_human_value c) (xf_ai_value y)).
Proof using All.
  intros (v & document & Hv & Hv1 & Hv2 & Hd & Hlog & Hn & Hn0 & Hq & Hvh & d & d' & rowId & _ & Hcase)%finalize_inv.
  assert (∃ x, x ∈ verifications s' ∧ vv_id (vr_version x) = i ∧ vr_by x = pg_uuid actor ∧ vv_extraction_hash (vr_version x) = h ∧
    vv_verification_hash (vr_version x) = vh ∧ json_same (vr_resolved_fields x) (resolved_fields clientId document h s) = true) as (x & Hx).
  { destruct Hcase as [(_ & -> & -> & _)|(_ & -> & x & Hx & Hs & ->)].
    - eexists. split; [cbn; apply elem_of_app; right; left|]. by rewrite json_same_refl.
    - unfold same_verification in Hs. rewrite !andb_true_iff, !bool_decide_eq_true in Hs. destruct Hs as [[[Hk Hh] Hj] Hb].
      exists x. cbn in *. unfold verification_key in Hk. cbn in Hk. by injection Hk as _ _ ->. }
  destruct Hx as (Hx & Hi & Hb & Hh & Hxv & Hj). exists v, document, x. cbn zeta. split_and!; try done.
  intros y _. pose proof (last_correction_latest clientId document h s y) as Hl. cbn zeta in Hl. unfold resolve_field, human_value, corrected_value.
  destruct (last_correction _ y) as [c|]; [right|by left]. destruct Hl as (Hc & Hyc & Hmax). by exists c.
Qed.
End history.

(** ** Evaluations *)

Section witnesses.
#[local] Existing Instances demo_unicode code_unit_collator demo_collation demo_sha Tx.demo_uuid demo_zod.

Definition review_env (time : Z) : env := mkEnv time None.
Definition review_start : review_db :=
  mkReviewDb empty_db [mkDocument (demo_id 3) (demo_id 1) (xp_sourceDocumentSha256 demo_pins)]
    [mkContractVersion (demo_id 4) (demo_id 1) (Some (demo_id 3))] [] [] [].
Definition review_left {A} (r : result handler_error (A * review_db)) : review_db := match r with Ok (_, s) => s | Err _ => review_start end.
Lemma review_ran {A} (r : result handler_error (A * review_db)) s' : is_ok r = true → review_left r = s' → ∃ x, r = Ok (x, s').
Proof. destruct r as [[x s]|]; [|done]. cbn. intros _ ->. by exists x. Qed.

Definition read_extraction : ContractExtraction := Eval vm_compute in ar_extraction demo_abstained.
Definition read_hash : string := Eval vm_compute in default "" (contractExtractionIdempotencyKey read_extraction).
Definition read_questions : list ClarifyingQuestion := Eval vm_compute in
  match generateClarifyingQuestions (ar_abstentions demo_abstained) (ar_policyVersion demo_abstained) with Ok l => l | Err _ => [] end.
#[local] Abbreviation run_extraction := (persistContractExtraction (demo_id 1) (demo_id 3) None read_hash read_extraction (review_env 10)).
Definition extracted : review_db := Eval vm_compute in review_left (run_extraction review_start).
#[local] Abbreviation run_questions :=
  (persistClarifyingQuestions (demo_id 1) (demo_id 3) None read_hash "abstention/1" read_questions (review_env 11)).
Definition asked : review_db := Eval vm_compute in review_left (run_questions extracted).
Definition question_id (n : nat) : string := default "" (cl_id <$> clarifying_questions asked !! n).
#[local] Abbreviation run_answer n text := (answerClarifyingQuestion (demo_id 1) (question_id n) (demo_id 7) text "read_from_doc" (review_env 12)).
Definition all_answered : review_db := Eval vm_compute in
  let answer n s := review_left (run_answer n " as printed " s) in answer 3%nat (answer 2%nat (answer 1%nat (answer 0%nat asked))).
Definition currency_field : string := Eval vm_compute in
  default "" (xf_id <$> select_one (λ x, bool_decide (xf_path x = "contract.currency")) (extraction_fields extracted)).
#[local] Abbreviation run_correction v time :=
  (persistExtractionFieldCorrection (demo_id 1) currency_field (demo_id 7) v "read_from_doc" (review_env time)).
Definition corrected : review_db := Eval vm_compute in review_left (run_correction (JString "USD") 13 all_answered).
#[local] Abbreviation run_finalize := (finalizeContractVersion (demo_id 1) (demo_id 4) (demo_id 8) read_hash (review_env 14)).
Definition reviewed : review_db := Eval vm_compute in review_left (run_finalize corrected).

Lemma demo_review : rtc review_step review_start asked ∧ rtc review_step all_answered reviewed.
Proof.
  destruct (review_ran (run_extraction review_start) extracted) as [x1 H1]; [vm_compute; reflexivity..|].
  destruct (review_ran (run_questions extracted) asked) as [x2 H2]; [vm_compute; reflexivity..|].
  destruct (review_ran (run_correction (JString "USD") 13 all_answered) corrected) as [x3 H3]; [vm_compute; reflexivity..|].
  destruct (review_ran (run_finalize corrected) reviewed) as [x4 H4]; [vm_compute; reflexivity..|]. split.
  - apply (rtc_l _ _ extracted); [exact (review_extraction _ _ _ _ _ _ _ _ _ H1)|]. apply rtc_once. exact (review_questions _ _ _ _ _ _ _ _ _ _ H2).
  - apply (rtc_l _ _ corrected); [exact (review_correction _ _ _ _ _ _ _ _ _ H3)|]. apply rtc_once. exact (review_finalize _ _ _ _ _ _ _ _ H4).
Qed.
Lemma review_start_sound : review_sound review_start.
Proof. split; cbn; constructor. Qed.

Lemma evidence_never_rewritten_witness : length (extraction_fields asked) = 5%nat ∧ length (clarifying_questions asked) = 4%nat ∧ review_sound asked.
Proof.
  destruct (evidence_never_rewritten review_start asked (proj1 demo_review) review_start_sound) as (_ & _ & _ & Hs).
  split; [reflexivity|]. split; [reflexivity|exact Hs].
Defined.
Lemma extraction_stored_whole_witness : ∃ x, parseContractExtraction read_extraction = Some x ∧
  map xf_path (extraction_fields extracted) ≡ₚ map fst (flattenExtraction x) ∧ length (flattenExtraction x) = 5%nat.
Proof.
  destruct (extraction_stored_whole (demo_id 1) (demo_id 3) None read_hash read_extraction (review_env 10) review_start
    read_hash 5 true extracted) as (x & Hx & _ & _ & Hn & _ & Hp & _); [vm_compute; reflexivity|].
  exists x. split; [exact Hx|]. split; [|by rewrite <- Hn]. destruct Hp as [Hp|Hp]; [by rewrite Hp in Hn|exact Hp].
Defined.
Definition verified_row : string * string := Eval vm_compute in
  default ("", "") ((λ x, (vv_id (vr_version x), vv_verification_hash (vr_version x))) <$> head (verifications reviewed)).
Lemma verified_from_complete_evidence_witness : ∃ x, x ∈ verifications reviewed ∧ vv_id (vr_version x) = verified_row.1 ∧ vr_by x = demo_id 8.
Proof.
  destruct (verified_from_complete_evidence (demo_id 1) (demo_id 4) (demo_id 8) read_hash (review_env 14) corrected
    verified_row.1 verified_row.2 5 true reviewed) as (v & d & x & _ & _ & _ & _ & _ & _ & _ & _ & Hx & Hi & Hb & _); [vm_compute; reflexivity|].
  by exists x.
Defined.

Definition effective_currency {A} (r : result handler_error (A * review_db)) : option json :=
  x ← last (verifications (review_left r));
  match vr_resolved_fields x with JArray l => find (λ f, bool_decide (prop f "fieldPath" ≫= as_string = Some "contract.currency")) l | _ => None end ≫=
  λ f, prop f "effectiveValue".
(** Unanswered questions block the version, and the same calls once more change nothing. *)
Example review_gates : run_finalize asked = Err (finalization_error "UNANSWERED_CLARIFICATIONS") ∧
  review_left (run_extraction extracted) = set_shared (shared (review_left (run_extraction extracted))) extracted ∧
  effective_currency (run_finalize corrected) = Some (JString "USD").
Proof. split; [|split]; vm_compute; reflexivity. Qed.

(** A correction back to a value that was corrected before is taken for a repetition:
    the call succeeds, nothing is stored, and the superseded value stays in force. *)
Lemma corrected_back_is_lost : let other := review_left (run_correction (JString "EUR") 14 corrected) in
  let back := run_correction (JString "USD") 15 other in
  is_ok back = true ∧ extraction_fields (review_left back) = extraction_fields other ∧ effective_currency (run_finalize (review_left back)) = Some (JString "EUR").
Proof. split; [|split]; vm_compute; reflexivity. Qed.

(** A correction to [null] is recorded under its own hash, and has no effect. *)
Lemma null_correction_is_ignored : let s := review_left (run_correction JNull 13 all_answered) in
  length (extraction_fields s) = 6%nat ∧
  (x ← find (λ x, bool_decide (xf_id x = currency_field)) (extraction_fields s); Some (xf_ai_value x)) = effective_currency (run_finalize s).
Proof. split; vm_compute; reflexivity. Qed.

(** A version can be verified before its questions were generated. *)
Lemma verified_before_questions : is_ok (run_finalize extracted) = true ∧ clarifying_questions (review_left (run_finalize extracted)) = [].
Proof. split; vm_compute; reflexivity. Qed.
End witnesses.
