(* ===== verification/Exports.v ===== *)
(** Exports to payment and ERP systems ([src/src/modules/exports/] and
    [src/src/jobs/export-record-handler.ts]): the registry of adapters, the record
    of what an adapter answered, and the job that runs one export in a tenant's
    transaction ([src/src/jobs/boss.ts], [src/src/db/tenant-context.ts]). *)

From S2P Require Import Prelude JsText Decimal Json Store AuditLedger JsDate Database Tx Jobs Claims.

(** ** Adapters *)

Record ExportRecord := mkExportRecord {
  xr_systemCode : string; xr_dedupeKey : string; xr_payload : list (string * json);
}.
Inductive ExportResult : Set :=
  | Acknowledged (externalReference adapterVersion : string)
  | Failed (reason adapterVersion : string)
  | NotConfigured (systemCode : string).

Definition normalizeSystemCode (systemCode : string) : string := to_upper (trim systemCode).

(** An adapter acts on the world outside the database, of type [W]; it may throw. *)
Record ExportAdapter (W : Type) := mkAdapter {
  xa_systemCode : string; xa_export : ExportRecord → W → result string ExportResult * W;
}.
Arguments mkAdapter {W}. Arguments xa_systemCode {W}. Arguments xa_export {W}.

Section registry.
Context {W : Type}.
Definition ExportAdapterRegistry : Type := list (string * ExportAdapter W).
(** The constructor; its error carries the code that is there twice. *)
Definition new_registry (adapters : list (ExportAdapter W)) : result string ExportAdapterRegistry :=
  fold_res (λ registry adapter,
    let systemCode := normalizeSystemCode (xa_systemCode adapter) in
    if bool_decide (is_Some (map_get registry systemCode)) then Err systemCode
    else Ok (registry ++ [(systemCode, adapter)])) [] adapters.
Definition registry_export (registry : ExportAdapterRegistry) (record : ExportRecord) (w : W) :
    result string ExportResult * W :=
  let systemCode := normalizeSystemCode (xr_systemCode record) in
  match map_get registry systemCode with
  | None => (Ok (NotConfigured systemCode), w)
  | Some adapter => xa_export adapter (mkExportRecord systemCode (xr_dedupeKey record) (xr_payload record)) w
  end.
End registry.
Arguments ExportAdapterRegistry : clear implicits.

(** [StandInExportAdapter]: what it has seen, and how many effects it had. *)
Record stand_in := mkStandIn { seen : list (string * ExportResult); effectCount : nat }.
Definition stand_in_result (record : ExportRecord) : ExportResult :=
  match map_get (xr_payload record) "simulateFailure" with
  | Some (JBool true) => Failed "SIMULATED_FAILURE" "stand-in-v1"
  | _ => Acknowledged ("standin-" +:+ xr_systemCode record +:+ "-" +:+ xr_dedupeKey record) "stand-in-v1"
  end.
Definition StandInExportAdapter (systemCode : string) : ExportAdapter stand_in :=
  mkAdapter systemCode (λ record w,
    match map_get (seen w) (xr_dedupeKey record) with
    | Some existing => (Ok existing, w)
    | None => let r := stand_in_result record in
              (Ok r, mkStandIn (map_set (seen w) (xr_dedupeKey record) r) (S (effectCount w)))
    end).

(** ** Acknowledgements *)

Record export_acknowledgement := mkAck {
  xk_id : string; xk_account : string; xk_claim : option string; xk_decision : option string;
  xk_system_code : string; xk_adapter_version : string; xk_dedupe_key : string;
  xk_outcome : string + string;   (* ACKNOWLEDGED with its reference, or FAILED with its reason *)
}.
Record export_db := mkExportDb { shared : db; acknowledgements : list export_acknowledgement }.
Record RecordExportAcknowledgementInput := mkAckInput {
  ri_clientId : string; ri_claimId : option string; ri_paymentGateDecisionId : option string;
  ri_systemCode : string; ri_dedupeKey : string; ri_result : string + string; ri_adapterVersion : string;
}.
Definition is_acknowledged (x : export_acknowledgement) : bool := match xk_outcome x with inl _ => true | inr _ => false end.
Definition status_text (r : string + string) : string := match r with inl _ => "ACKNOWLEDGED" | inr _ => "FAILED" end.
(** The partial unique index of ACKNOWLEDGED rows. *)
Definition ack_clash (row x : export_acknowledgement) : bool :=
  is_acknowledged x && bool_decide (xk_account x = xk_account row) && bool_decide (xk_system_code x = xk_system_code row) &&
  bool_decide (xk_dedupe_key x = xk_dedupe_key row).

Section handlers.
Context {H : Sha256} {U : UuidSource} {V : Zod}.

(** A transaction over the shared tables, in a transaction over all of them. *)
Definition on_shared {A} (m : tx A) (e : env) (s : export_db) : result handler_error (A * export_db) :=
  '(a, d) ← m e (shared s); Ok (a, mkExportDb d (acknowledgements s)).
Definition ack_error (code : string) : handler_error := Thrown "RecordExportAcknowledgementError" code.
Definition decision_at (clientId id : string) (d : payment_gate_decision) : bool :=
  uuid_is (pd_account d) clientId && uuid_is (pd_id d) id.
(** The claim and the decision are the tenant's. *)
Definition origin_ok (i : RecordExportAcknowledgementInput) : tx unit :=
  _ ← check (zod_uuid (ri_clientId i) && nullable zod_uuid (ri_claimId i) && nullable zod_uuid (ri_paymentGateDecisionId i)) SchemaRejected;
  _ ← check (bool_decide (is_Some (ri_claimId i)) || bool_decide (is_Some (ri_paymentGateDecisionId i))) (ack_error "MISSING_ORIGIN");
  s ← query id;
  _ ← check (nullable (λ c, existsb (claim_at (ri_clientId i) c) (claims (claim_part s))) (ri_claimId i)) (ack_error "CLAIM_NOT_FOUND");
  check (nullable (λ d, existsb (decision_at (ri_clientId i) d) (payment_gate_decisions s)) (ri_paymentGateDecisionId i))
    (ack_error "PAYMENT_GATE_DECISION_NOT_FOUND").
Definition ack_row (rowId : string) (i : RecordExportAcknowledgementInput) : export_acknowledgement :=
  mkAck rowId (pg_uuid (ri_clientId i)) (pg_uuid <$> ri_claimId i) (pg_uuid <$> ri_paymentGateDecisionId i)
    (normalizeSystemCode (ri_systemCode i)) (ri_adapterVersion i) (ri_dedupeKey i) (ri_result i).
Definition ack_event (rowId : string) (i : RecordExportAcknowledgementInput) : AuditEvent :=
  audit_event (deterministicAuditEventId [ri_clientId i; rowId; "export-acknowledgement.recorded"]) (ri_clientId i)
    "export_acknowledgement" rowId "export_acknowledgement.recorded" ActorSystem None
    [("claimId", json_opt (ri_claimId i)); ("paymentGateDecisionId", json_opt (ri_paymentGateDecisionId i));
     ("systemCode", JString (normalizeSystemCode (ri_systemCode i))); ("status", JString (status_text (ri_result i)))].

(** The row's identifier, and whether it is new. *)
Definition recordExportAcknowledgement (i : RecordExportAcknowledgementInput) (e : env) (s : export_db) :
    result handler_error ((string * bool) * export_db) :=
  '(_, s) ← on_shared (origin_ok i) e s;
  '(rowId, s) ← on_shared new_uuid e s;
  let row := ack_row rowId i in
  match (if is_acknowledged row then select_one (ack_clash row) (acknowledgements s) else None) with
  | Some x => Ok ((xk_id x, false), s)
  | None =>
      '(_, s) ← on_shared (_ ← primary_key (map xk_id (acknowledgements s)) rowId; emit (ack_event rowId i)) e s;
      Ok ((rowId, true), mkExportDb (shared s) (acknowledgements s ++ [row]))
  end.

(** ** The job *)

Section job.
Context {W : Type}.
(** How a run of the handler on a transaction's client ends.  When it throws
    [ExportRecordFailedError], the row it wrote before is still in the transaction,
    for the owner of the transaction to commit or to roll back. *)
Inductive export_run : Type :=
  | Returned (s : export_db)
  | ThrewFailed (reason : string) (s : export_db)
  | Threw (x : handler_error).
Definition ack_input (env : envelope) (claimId decisionId : option string) (systemCode : string) (r : string + string)
    (version : string) : RecordExportAcknowledgementInput :=
  mkAckInput (jb_clientId env) claimId decisionId systemCode (jb_idempotencyKey env) r version.
(** The world is what the adapter leaves, however the run ends. *)
Definition handleExportRecordJob (registry : ExportAdapterRegistry W) (env : envelope) (untrusted : JobPayload)
    (e : Tx.env) (w : W) (s : export_db) : export_run * W :=
  match parseJobPayload env untrusted with
  | Some (env, EXPORT_RECORD_V1 claimId decisionId systemCode payload) =>
      let '(answer, w) := registry_export registry (mkExportRecord systemCode (jb_idempotencyKey env) payload) w in
      (match answer with
       | Err message => Threw (OtherError message)
       | Ok (NotConfigured _) => Returned s
       | Ok (Acknowledged reference version) =>
           match recordExportAcknowledgement (ack_input env claimId decisionId systemCode (inl reference) version) e s with
           | Ok (_, s') => Returned s' | Err x => Threw x end
       | Ok (Failed reason version) =>
           match recordExportAcknowledgement (ack_input env claimId decisionId systemCode (inr reason) version) e s with
           | Ok (_, s') => ThrewFailed reason s' | Err x => Threw x end
       end, w)
  | _ => (Threw SchemaRejected, w)
  end.

(** [withTenantTx({ clientIds: [...] }, fn)]: commit, or roll back and throw. *)
Definition withTenantTx {A} (clientIds : list string) (time : Z) (fn : Tx.env → export_db → export_run * A)
    (s : export_db) : option handler_error * export_db * A :=
  let '(r, a) := fn (mkEnv time (Some (map pg_uuid clientIds))) s in
  match r with
  | Returned s' => (None, s', a)
  | ThrewFailed reason _ => (Some (Thrown "ExportRecordFailedError" reason), s, a)
  | Threw x => (Some x, s, a)
  end.
(** The consumer of EXPORT_RECORD_V1: the error pg-boss sees, if any. *)
Definition consume_export (registry : ExportAdapterRegistry W) (time : Z) (env : envelope) (data : JobPayload)
    (w : W) (s : export_db) : option handler_error * export_db * W :=
  withTenantTx [jb_clientId env] time (λ e, handleExportRecordJob registry env data e w) s.
(** A caller that runs the handler in its own transaction, catches
    [ExportRecordFailedError] and commits, as the database test does; any other
    error rolls its transaction back. *)
Definition caught_and_committed (registry : ExportAdapterRegistry W) (e : Tx.env) (env : envelope) (data : JobPayload)
    (w : W) (s : export_db) : export_db * W :=
  let '(r, w') := handleExportRecordJob registry env data e w s in
  (match r with Returned s' | ThrewFailed _ s' => s' | Threw _ => s end, w').
End job.
End handlers.

(** ** What a committed acknowledgement did *)

Section safety.
Context {H : Sha256} {U : UuidSource} {V : Zod}.
Implicit Types (i : RecordExportAcknowledgementInput) (s : export_db) (x : export_acknowledgement).

Lemma on_shared_Ok {A} (m : tx A) e s r : on_shared m e s = Ok r → acknowledgements r.2 = acknowledgements s ∧
  m e (shared s) = Ok (r.1, shared r.2).
Proof using Type.
  unfold on_shared. intros ([a d] & Hm & [= <-])%bind_Ok. done.
Qed.
Definition origin_of s i : Prop :=
  (∀ c, ri_claimId i = Some c → ∃ k, k ∈ claims (claim_part (shared s)) ∧ claim_at (ri_clientId i) c k = true) ∧
  (∀ d, ri_paymentGateDecisionId i = Some d → ∃ g, g ∈ payment_gate_decisions (shared s) ∧ decision_at (ri_clientId i) d g = true) ∧
  (is_Some (ri_claimId i) ∨ is_Some (ri_paymentGateDecisionId i)).
Lemma origin_ok_Ok i e d r : origin_ok i e d = Ok r → r = (tt, d) ∧ origin_of (mkExportDb d []) i.
Proof using Type.
  intros Ho. unfold origin_ok in Ho. tx_inv. split; [done|]. unfold id in *.
  match goal with Hb : _ || _ = true |- _ => apply orb_true_iff in Hb; rewrite !bool_decide_eq_true in Hb; rename Hb into Hor end.
  split; [|split; [|exact Hor]].
  - intros c Hc. match goal with Hn : nullable _ (ri_claimId i) = true |- _ => rewrite Hc in Hn; apply existsb_true in Hn as (k & ? & ?) end.
    by exists k.
  - intros g Hg. match goal with Hn : nullable _ (ri_paymentGateDecisionId i) = true |- _ =>
      rewrite Hg in Hn; apply existsb_true in Hn as (k & ? & ?) end. by exists k.
Qed.

Lemma record_inv i e s rowId created s' : recordExportAcknowledgement i e s = Ok ((rowId, created), s') → origin_of s i ∧
  if created then acknowledgements s' = acknowledgements s ++ [ack_row rowId i] ∧ (rowId ∉ map xk_id (acknowledgements s)) ∧
    (is_acknowledged (ack_row rowId i) = true → ∀ x, x ∈ acknowledgements s → ack_clash (ack_row rowId i) x = false)
  else acknowledgements s' = acknowledgements s ∧ is_acknowledged (ack_row rowId i) = true ∧
    ∃ x, x ∈ acknowledgements s ∧ xk_id x = rowId ∧ ack_clash (ack_row rowId i) x = true.
Proof using Type.
  unfold recordExportAcknowledgement. intros ([u s1] & Ho & Hr)%bind_Ok. cbn in Hr.
  apply on_shared_Ok in Ho as [Ha1 Ho]. cbn in *. apply origin_ok_Ok in Ho as [[= _ Hd1] Ho]. split; [exact Ho|].
  set (n := gen_random_uuid _) in Hr. rewrite Ha1 in Hr. destruct (if is_acknowledged (ack_row n i) then _ else None) as [x|] eqn:Hx.
  - injection Hr as <- <- <-. destruct (is_acknowledged (ack_row n i)) eqn:Hk; [|done].
    apply select_one_Some in Hx as [Hin Hcl]. split; [done|]. split; [exact Hk|]. exists x. by split_and!.
  - apply bind_Ok in Hr as ([b s3] & Hp & [= <- <- <-]). apply on_shared_Ok in Hp as [Ha3 Hp]. cbn in *.
    apply tx_bind_Ok in Hp as (? & ? & Hp & _). apply primary_key_Ok in Hp as [Hf _]. split; [cbn; by rewrite Ha3|].
    split; [exact Hf|]. intros Hk y Hy. rewrite Hk in Hx. destruct (ack_clash _ y) eqn:Hc; [|done]. exfalso.
    by rewrite select_one_None in Hx; rewrite Hx in Hc.
Qed.


(** ** One job *)

Section one_job.
Context {W : Type}.
Implicit Types (registry : ExportAdapterRegistry W) (w : W).
Definition ack_key x : string * string * string := (xk_account x, xk_system_code x, xk_dedupe_key x).
Definition job_key (env : envelope) (systemCode : string) : string * string * string :=
  (pg_uuid (jb_clientId env), normalizeSystemCode systemCode, jb_idempotencyKey env).
Lemma ack_clash_spec row x : ack_clash row x = true ↔ is_acknowledged x = true ∧ ack_key x = ack_key row.
Proof using Type.
  unfold ack_clash, ack_key. rewrite !andb_true_iff, !bool_decide_eq_true. split; [|intros [? [= ? ? ?]]; tauto].
  intros [[[? ->] ->] ->]. done.
Qed.

End one_job.

(** ** Histories of jobs *)

Section histories.
Context {W : Type}.
Implicit Types (registry : ExportAdapterRegistry W) (w : W).

(** A job the worker runs, a run whose failure the owner of the transaction
    catches, or other work on the shared tables. *)
Inductive export_step registry : W * export_db → W * export_db → Prop :=
  | step_worker time env data w s err s' w' :
      consume_export registry time env data w s = (err, s', w') → export_step registry (w, s) (w', s')
  | step_caller e env data w s s' w' :
      caught_and_committed registry e env data w s = (s', w') → export_step registry (w, s) (w', s')
  | step_other w s d : export_step registry (w, s) (w, mkExportDb d (acknowledgements s)).
Definition any_export_step (p q : W * export_db) : Prop := ∃ registry, export_step registry p q.

Record acks_sound s : Prop := {
  as_ids : NoDup (map xk_id (acknowledgements s));
  as_keys : NoDup (map ack_key (List.filter is_acknowledged (acknowledgements s)));
}.

Lemma record_sound i e s r s' : recordExportAcknowledgement i e s = Ok (r, s') → acks_sound s →
  acks_sound s' ∧ acknowledgements s `prefix_of` acknowledgements s'.
Proof using Type.
  destruct r as [rowId created]. intros [_ Hr]%record_inv [Hids Hkeys]. destruct created.
  - destruct Hr as (Ha & Hf & Hc). split; [split|]; rewrite Ha; [| |by eexists].
    + rewrite map_app. apply NoDup_app. split; [done|]. split; [|apply NoDup_singleton].
      intros y Hy Heq. apply list_elem_of_singleton in Heq as ->. done.
    + rewrite List.filter_app, map_app. cbn [List.filter]. destruct (is_acknowledged (ack_row rowId i)) eqn:Hk.
      * apply NoDup_app. split; [done|]. split; [|apply NoDup_singleton]. intros y Hy Heq.
        apply list_elem_of_singleton in Heq as ->. apply list_elem_of_fmap in Hy as (x & Heq & Hx).
        apply list_elem_of_In, filter_In in Hx as [Hx Hkx]. apply list_elem_of_In in Hx.
        specialize (Hc eq_refl x Hx). rewrite <- not_true_iff_false, ack_clash_spec in Hc. by apply Hc.
      * by rewrite app_nil_r.
  - destruct Hr as (Ha & _). split; [split|]; by rewrite Ha.
Qed.

(** A run leaves its tables as they were, or records one answer. *)
Definition run_db (run : export_run) : option export_db :=
  match run with Returned s | ThrewFailed _ s => Some s | Threw _ => None end.
Lemma run_inv registry env data e w s run w' s' : handleExportRecordJob registry env data e w s = (run, w') →
  run_db run = Some s' → s' = s ∨ ∃ i r, recordExportAcknowledgement i e s = Ok (r, s').
Proof using Type.
  unfold handleExportRecordJob. destruct (parseJobPayload env data) as [[env' []]|]; try (by intros [= <- <-]).
  destruct (registry_export _ _ w) as [[[reference version|reason version|c]|message] w1]; intros [= <- <-]; [| |by intros [= <-]; left|done].
  - set (i := ack_input _ _ _ _ _ _). destruct (recordExportAcknowledgement i e s) as [[r s1]|x] eqn:Hr; [|done].
    intros [= <-]. right. by exists i, r.
  - set (i := ack_input _ _ _ _ _ _). destruct (recordExportAcknowledgement i e s) as [[r s1]|x] eqn:Hr; [|done].
    intros [= <-]. right. by exists i, r.
Qed.
Lemma run_sound registry env data e w s run w' s' : handleExportRecordJob registry env data e w s = (run, w') →
  run_db run = Some s' → acks_sound s → acks_sound s' ∧ acknowledgements s `prefix_of` acknowledgements s'.
Proof using Type.
  intros Hh Hs Ha. destruct (run_inv _ _ _ _ _ _ _ _ _ Hh Hs) as [->|(i & r & Hr)]; [done|]. by eapply record_sound.
Qed.
Lemma step_sound registry p q : export_step registry p q → acks_sound p.2 →
  acks_sound q.2 ∧ acknowledgements p.2 `prefix_of` acknowledgements q.2.
Proof using Type.
  intros [time env data w s err s' w' Hc|e env data w s s' w' Hc|w s d] Hs; cbn in *.
  - unfold consume_export, withTenantTx in Hc. destruct (handleExportRecordJob _ _ _ _ _ _) as [run w1] eqn:Hh.
    destruct run; injection Hc as <- <- <-; [by eapply run_sound|done..].
  - unfold caught_and_committed in Hc. destruct (handleExportRecordJob _ _ _ _ _ _) as [run w1] eqn:Hh.
    destruct run; injection Hc as <- <-; [by eapply run_sound..|done].
  - split; [destruct Hs; by split|done].
Qed.
Lemma steps_sound p q : rtc any_export_step p q → acks_sound p.2 →
  acks_sound q.2 ∧ acknowledgements p.2 `prefix_of` acknowledgements q.2.
Proof using Type.
  induction 1 as [x|x y z [registry Hstep] _ IH]; intros Hs; [done|].
  apply step_sound in Hstep as [Hy H1]; [|done]. destruct (IH Hy) as [Hz H2]. split; [done|]. by etrans.
Qed.

(** C16: whatever exports run, with whatever adapters, whether the owner of the
    transaction commits a failed attempt or rolls it back, and whatever other work
    is done between them: rows of the acknowledgement table are only appended, keep
    distinct identifiers, and no export of a system and key of a tenant has two
    acknowledgements; an export acknowledged once stays acknowledged by that row,
    whatever later attempts answer. *)
Theorem exports_settle_once w0 s0 w s : acks_sound s0 → rtc any_export_step (w0, s0) (w, s) →
  acknowledgements s0 `prefix_of` acknowledgements s ∧ NoDup (map xk_id (acknowledgements s)) ∧
  (∀ a b, a ∈ acknowledgements s → b ∈ acknowledgements s → is_acknowledged a = true → is_acknowledged b = true →
     ack_key a = ack_key b → a = b) ∧
  ∀ a, a ∈ acknowledgements s0 → is_acknowledged a = true →
    select_one (λ x, is_acknowledged x && bool_decide (ack_key x = ack_key a)) (acknowledgements s) = Some a.
Proof using Type.
  intros H0 Hr. destruct (steps_sound _ _ Hr H0) as [[Hids Hkeys] Hpre]; cbn in *.
  assert (∀ a b, a ∈ acknowledgements s → b ∈ acknowledgements s → is_acknowledged a = true → is_acknowledged b = true →
     ack_key a = ack_key b → a = b) as Huniq.
  { intros a b Ha Hb Hka Hkb. apply (NoDup_map_inj ack_key _ _ _ Hkeys); apply list_elem_of_In, filter_In;
      (split; [by apply list_elem_of_In|done]). }
  split_and!; try done. intros a Ha Hk. destruct Hpre as [added Hpre].
  assert (a ∈ acknowledgements s) as Has by (rewrite Hpre; set_solver).
  destruct (select_one_existsb (λ x, is_acknowledged x && bool_decide (ack_key x = ack_key a)) (acknowledgements s)) as [x Hx].
  { apply existsb_true. exists a. split; [done|]. by rewrite Hk, bool_decide_eq_true_2. }
  rewrite Hx. apply select_one_Some in Hx as [Hin [Hkx Hxk]%andb_true_iff]. apply bool_decide_eq_true in Hxk.
  f_equal. by apply Huniq.
Qed.

(** ** Redelivery *)

(** The contract of an adapter ([export-adapter.ts]): repeat submissions with the
    same key must not produce a second external effect. [submitted] is what the
    adapter remembers of a system's keys, whatever is exported later. *)
Record honours registry (effects : W → nat) (submitted : string → string → W → Prop) : Prop := {
  hn_submit code a record w r w' : map_get registry code = Some a → xr_systemCode record = code →
    xa_export a record w = (Ok r, w') → submitted code (xr_dedupeKey record) w';
  hn_kept code a record w r w' c k : map_get registry code = Some a → xa_export a record w = (r, w') →
    submitted c k w → submitted c k w';
  hn_once code a record w r w' : map_get registry code = Some a → xr_systemCode record = code →
    xa_export a record w = (r, w') → submitted code (xr_dedupeKey record) w → effects w' = effects w;
}.
Lemma registry_kept registry effects submitted record w r w' c k : honours registry effects submitted →
  registry_export registry record w = (r, w') → submitted c k w → submitted c k w'.
Proof using Type.
  intros Hh. unfold registry_export. destruct (map_get registry _) as [a|] eqn:Ha; [|by intros [= <- <-]]. by eapply hn_kept.
Qed.
Lemma handler_world registry env data e w s run w' : handleExportRecordJob registry env data e w s = (run, w') →
  w' = w ∨ ∃ record r, registry_export registry record w = (r, w').
Proof using Type.
  unfold handleExportRecordJob. destruct (parseJobPayload env data) as [[env' []]|]; try (intros [= _ <-]; by left).
  destruct (registry_export _ _ w) as [r w1] eqn:Hr. intros [= _ <-]. right. by eexists _, r.
Qed.
Lemma step_kept registry effects submitted c k p q : honours registry effects submitted → export_step registry p q →
  submitted c k p.1 → submitted c k q.1.
Proof using Type.
  intros Hh [time env data w s err s' w' Hc|e env data w s s' w' Hc|w s d] Hs; cbn in *; [| |done].
  - unfold consume_export, withTenantTx in Hc. destruct (handleExportRecordJob _ _ _ _ _ _) as [run w1] eqn:Hr.
    assert (w1 = w') as -> by (destruct run; congruence). destruct (handler_world _ _ _ _ _ _ _ _ Hr) as [->|(record & r & Hx)]; [done|].
    by eapply registry_kept.
  - unfold caught_and_committed in Hc. destruct (handleExportRecordJob _ _ _ _ _ _) as [run w1] eqn:Hr.
    assert (w1 = w') as -> by congruence. destruct (handler_world _ _ _ _ _ _ _ _ Hr) as [->|(record & r & Hx)]; [done|].
    by eapply registry_kept.
Qed.
Lemma steps_kept registry effects submitted c k p q : honours registry effects submitted → rtc (export_step registry) p q →
  submitted c k p.1 → submitted c k q.1.
Proof using Type. intros Hh. induction 1; [done|]. intros Hs. apply IHrtc. by eapply step_kept. Qed.

(** An export already acknowledged: another job of it, whatever the adapter answers,
    leaves the table as it is when the worker runs it. *)
Lemma acknowledged_job registry time env data env' claim decision code payload w s err s' w' x :
  parseJobPayload env data = Some (env', EXPORT_RECORD_V1 claim decision code payload) →
  x ∈ acknowledgements s → is_acknowledged x = true → ack_key x = job_key env' code →
  consume_export registry time env data w s = (err, s', w') → acknowledgements s' = acknowledgements s.
Proof using Type.
  intros Hp Hx Hk Hxk. unfold consume_export, withTenantTx, handleExportRecordJob. rewrite Hp.
  destruct (registry_export _ _ w) as [[[reference version|reason version|c]|message] w1]; [| |by intros [= <- <- <-]..].
  - set (i := ack_input _ _ _ _ _ _). destruct (recordExportAcknowledgement i _ s) as [[[n created] s1]|y] eqn:Hr; intros [= <- <- <-]; [|done].
    apply record_inv in Hr as [_ Hr]. destruct created; [|by destruct Hr]. destruct Hr as (_ & _ & Hc).
    specialize (Hc eq_refl x Hx). rewrite <- not_true_iff_false, ack_clash_spec in Hc. by destruct Hc.
  - destruct (recordExportAcknowledgement _ _ s) as [[r s1]|y]; by intros [= <- <- <-].
Qed.

Lemma consume_world registry time env data env' claim decision code payload w s err s' w' :
  parseJobPayload env data = Some (env', EXPORT_RECORD_V1 claim decision code payload) →
  consume_export registry time env data w s = (err, s', w') →
  ∃ r, registry_export registry (mkExportRecord code (jb_idempotencyKey env') payload) w = (r, w') ∧
    (err = None → ∃ answer, r = Ok answer).
Proof using Type.
  intros Hp. unfold consume_export, withTenantTx, handleExportRecordJob. rewrite Hp.
  destruct (registry_export _ _ w) as [[[reference version|reason version|c]|message] w1]; intros Hc; (eexists; split; [f_equal|]).
  all: try (destruct (recordExportAcknowledgement _ _ s) as [[r s1]|y]); injection Hc as <- <- <-; try done; eauto.
Qed.
Lemma completed_export registry time env data w s s' w' : consume_export registry time env data w s = (None, s', w') →
  ∃ env' claim decision code payload, parseJobPayload env data = Some (env', EXPORT_RECORD_V1 claim decision code payload).
Proof using Type.
  unfold consume_export, withTenantTx, handleExportRecordJob.
  destruct (parseJobPayload env data) as [[env' []]|]; try done. by eauto 10.
Qed.
(** The row that records the job's export as acknowledged. *)
Definition settles (env : envelope) (data : JobPayload) x : Prop :=
  is_acknowledged x = true ∧ match parseJobPayload env data with
  | Some (env', EXPORT_RECORD_V1 _ _ code _) => ack_key x = job_key env' code | _ => False end.

(** C24: an export job the worker completed can be delivered again without harm. If
    the adapters of the registry honour their contract (repeat submissions with the
    same key have no second external effect), then after any further history of
    exports through the same registry and of other work, delivering the job again
    has no external effect; and once an acknowledgement of the export is on record,
    delivering it again leaves the table as it is, whatever the adapter answers.
    (No real adapter is registered yet: the default registry is empty. The stand-in
    adapter of the repository honours the contract, [stand_in_honours].) *)
Theorem redelivered_export_once registry effects submitted env data w s s1 w1 w2 s2 err s3 w3 t1 t2 :
  honours registry effects submitted →
  consume_export registry t1 env data w s = (None, s1, w1) →
  rtc (export_step registry) (w1, s1) (w2, s2) →
  consume_export registry t2 env data w2 s2 = (err, s3, w3) →
  effects w3 = effects w2 ∧
  ∀ x, x ∈ acknowledgements s2 → settles env data x → acknowledgements s3 = acknowledgements s2.
Proof using Type.
  intros Hh H1 Hrtc H2. destruct (completed_export _ _ _ _ _ _ _ _ H1) as (env' & claim & decision & code & payload & Hp). split.
  - destruct (consume_world _ _ _ _ _ _ _ _ _ _ _ _ _ _ Hp H1) as (r1 & Hr1 & Hok).
    destruct (Hok eq_refl) as [answer ->]. destruct (consume_world _ _ _ _ _ _ _ _ _ _ _ _ _ _ Hp H2) as (r2 & Hr2 & _).
    unfold registry_export in Hr1, Hr2. cbn [xr_systemCode xr_dedupeKey xr_payload] in Hr1, Hr2.
    destruct (map_get registry (normalizeSystemCode code)) as [a|] eqn:Ha; [|by injection Hr2 as _ <-].
    set (record := mkExportRecord _ _ _) in Hr1, Hr2.
    apply (hn_once _ _ _ Hh _ _ record _ _ _ Ha eq_refl Hr2).
    apply (steps_kept registry effects submitted _ _ (w1, s1) (w2, s2) Hh Hrtc).
    exact (hn_submit _ _ _ Hh _ _ record _ _ _ Ha eq_refl Hr1).
  - intros x Hx [Hk Hset]. rewrite Hp in Hset. by eapply acknowledged_job.
Qed.
End histories.
End safety.

(** ** An export that is acknowledged, redelivered, and one that fails *)

Section witnesses.
#[local] Existing Instances demo_sha Tx.demo_uuid demo_zod.
Definition demo_claim : claim := mkClaim (demo_id 5) (demo_id 1) None 2500000 (Some "USD") "open" 0 None.
Definition export_start : export_db :=
  mkExportDb (upd_claim_rows (λ _, [demo_claim]) empty_db) [].
Definition demo_registry : ExportAdapterRegistry stand_in := Eval cbn in
  match new_registry [StandInExportAdapter " testerp"] with Ok r => r | Err _ => [] end.
Definition demo_envelope (key : string) : envelope := mkEnvelope (demo_id 1) key "2026-01-01T00:00:00Z".
Definition demo_job (payload : list (string * json)) : JobPayload := EXPORT_RECORD_V1 (Some (demo_id 5)) None "TestErp" payload.
#[local] Abbreviation run_export := (consume_export demo_registry 0 (demo_envelope "k1") (demo_job []) (mkStandIn [] 0) export_start).
Definition exported : export_db := Eval vm_compute in run_export.1.2.
Definition exported_world : stand_in := Eval vm_compute in run_export.2.
Lemma run_export_ok : run_export = (None, exported, exported_world).
Proof. vm_compute. reflexivity. Qed.

Lemma acks_start : acks_sound export_start.
Proof. split; constructor. Qed.
Lemma demo_step : export_step demo_registry (mkStandIn [] 0, export_start) (exported_world, exported).
Proof. eapply step_worker. exact run_export_ok. Qed.
Lemma exports_settle_once_witness : length (acknowledgements exported) = 1%nat ∧ NoDup (map xk_id (acknowledgements exported)).
Proof.
  split; [vm_compute; reflexivity|].
  exact (proj1 (proj2 (exports_settle_once (mkStandIn [] 0) export_start exported_world exported acks_start
    (rtc_once (R := any_export_step) _ _ (ex_intro _ demo_registry demo_step))))).
Defined.

(** The stand-in adapter honours its contract. *)
Definition stand_in_submitted (c key : string) (w : stand_in) : Prop := is_Some (map_get (seen w) key).
Lemma stand_in_honours : honours demo_registry effectCount stand_in_submitted.
Proof.
  assert (∀ code a, map_get demo_registry code = Some a → a = StandInExportAdapter " testerp") as Honly.
  { intros code a Ha. change demo_registry with [("TESTERP", StandInExportAdapter " testerp")] in Ha.
    unfold map_get in Ha. destruct (decide (code = "TESTERP")); [|done]. injection Ha as Ha. symmetry. exact Ha. }
  split; unfold stand_in_submitted.
  - intros code a record w r w' ->%Honly _. cbn. destruct (map_get (seen w) _) as [x|] eqn:Hx; intros [= <- <-]; [by rewrite Hx|].
    cbn. by rewrite map_get_set_eq.
  - intros code a record w r w' c k ->%Honly. cbn. destruct (map_get (seen w) _) as [x|] eqn:Hx; intros [= <- <-]; [done|].
    cbn. destruct (decide (k = xr_dedupeKey record)) as [->|Hk]; [by rewrite map_get_set_eq|by rewrite map_get_set_ne].
  - intros code a record w r w' ->%Honly _. cbn. destruct (map_get (seen w) _) as [x|] eqn:Hx; intros [= <- <-]; [done|].
    by intros [? ?].
Qed.
#[local] Abbreviation export_again := (consume_export demo_registry 60 (demo_envelope "k1") (demo_job []) exported_world exported).
Lemma redelivered_export_once_witness : effectCount exported_world = 1%nat ∧
  export_again.1.1 = None ∧ effectCount export_again.2 = 1%nat ∧ length (acknowledgements export_again.1.2) = 1%nat.
Proof.
  destruct (redelivered_export_once demo_registry effectCount stand_in_submitted (demo_envelope "k1") (demo_job []) (mkStandIn [] 0)
    export_start exported exported_world exported_world exported export_again.1.1 export_again.1.2 export_again.2 0 60
    stand_in_honours run_export_ok (rtc_refl _ _)) as [He Ha]; [by destruct export_again as [[? ?] ?]|].
  split; [vm_compute; reflexivity|]. split; [vm_compute; reflexivity|]. split; [rewrite He; vm_compute; reflexivity|].
  destruct (acknowledgements exported) as [|x [|]] eqn:Hx; try (vm_compute in Hx; discriminate Hx).
  rewrite (Ha x); [reflexivity|left|]. vm_compute in Hx. injection Hx as <-. split; vm_compute; reflexivity.
Defined.
(** A failed attempt leaves its row in the transaction, with its event: a caller
    that catches the error and commits keeps them, as the comments of the handler
    mean it. The worker's own transaction rolls them back: the error reaches the
    queue, the effect happened, no row is left. *)
Example failed_attempt_caught :
  let s' := (caught_and_committed demo_registry (mkEnv 0 (Some [demo_id 1])) (demo_envelope "k2")
    (demo_job [("simulateFailure", JBool true)]) (mkStandIn [] 0) export_start).1 in
  map xk_outcome (acknowledgements s') = [inr "SIMULATED_FAILURE"] ∧ length (audit_log (shared s')) = 1%nat.
Proof. vm_compute. split; reflexivity. Qed.
Example failed_attempt_unrecorded :
  let '(err, s', w') := consume_export demo_registry 0 (demo_envelope "k2") (demo_job [("simulateFailure", JBool true)])
    (mkStandIn [] 0) export_start in
  err = Some (Thrown "ExportRecordFailedError" "SIMULATED_FAILURE") ∧ effectCount w' = 1%nat ∧
  acknowledgements s' = [] ∧ audit_log (shared s') = [].
Proof. vm_compute. split_and!; reflexivity. Qed.
End witnesses.
