(* ===== verification/Identity.v ===== *)
(** Who may see which tenant ([src/src/modules/identity/],
    [src/src/modules/findings/tenant-auth.ts], [src/src/db/tenant-context.ts]):
    memberships and their administration, the resolvers that turn a request into a
    tenant scope, and the rows row-level security shows in that scope.  The session
    of a cookie, better-auth's, is a parameter. *)

From S2P Require Import Prelude JsText Decimal Json Store AuditLedger JsDate Database Tx X12.

(** ** Tables *)

Inductive membership_role : Set :=
  | analyst | lead | account_viewer | account_admin
  | client_scope_viewer | client_scope_admin | vendor_scope_viewer | vendor_scope_admin.
#[export] Instance membership_role_eq_dec : EqDecision membership_role.
Proof. solve_decision. Defined.
Definition role_text (r : membership_role) : string :=
  match r with
  | analyst => "analyst" | lead => "lead" | account_viewer => "account_viewer" | account_admin => "account_admin"
  | client_scope_viewer => "client_scope_viewer" | client_scope_admin => "client_scope_admin"
  | vendor_scope_viewer => "vendor_scope_viewer" | vendor_scope_admin => "vendor_scope_admin"
  end.
Record app_user := mkUser {
  us_id : string; us_email : string; us_full_name : option string; us_is_internal : bool; us_is_active : bool;
}.
Record membership := mkMembership {
  mb_id : string; mb_user : string; mb_account : string; mb_client : option string; mb_vendor : option string;
  mb_role : membership_role; mb_is_active : bool;
}.
Record identity_db := mkIdentity {
  app_users : list app_user; accounts : list account; memberships : list membership; identity_log : ledger; ids_used : nat;
}.
Definition set_memberships (l : list membership) (s : identity_db) : identity_db :=
  mkIdentity (app_users s) (accounts s) l (identity_log s) (ids_used s).
Definition with_role (r : membership_role) (m : membership) : membership :=
  mkMembership (mb_id m) (mb_user m) (mb_account m) (mb_client m) (mb_vendor m) r (mb_is_active m).
Definition with_active (b : bool) (m : membership) : membership :=
  mkMembership (mb_id m) (mb_user m) (mb_account m) (mb_client m) (mb_vendor m) (mb_role m) b.
(** [COALESCE(vendor_id, client_id, account_id)] *)
Definition mb_scope (m : membership) : string := default (default (mb_account m) (mb_client m)) (mb_vendor m).

(** ** Tenant scopes *)

Record TenantContext := mkContext { clientIds : list string; internal : bool }.
(** [setTenantTxScope] sets the setting to [clientIds.join(',')]; the function of
    migration 0083 splits it, and casts the parts to uuid. *)
Definition app_current_account_ids (setting : string) : list string :=
  if decide (setting = "") then [] else map pg_uuid (split_on ","%char setting).
(** The policy of [apply_tenant_rls]: the rows shown, and the rows that may be written. *)
Definition tenant_shows (ctx : TenantContext) (row_account : option string) : bool :=
  match row_account with
  | None => true
  | Some a => internal ctx || bool_decide (a ∈ app_current_account_ids (join "," (clientIds ctx)))
  end.
Definition tenant_writes (ctx : TenantContext) (row_account : string) : bool :=
  internal ctx || bool_decide (row_account ∈ app_current_account_ids (join "," (clientIds ctx))).

(** ** Memberships *)

Inductive identity_error : Set := Refused (constraint : string) | AuditRefused (e : AuditError).

Section memberships.
Context {H : Sha256} {U : UuidSource}.
Implicit Types (s : identity_db) (m : membership) (ctx : TenantContext).

Record CreateMembershipInput := mkCreate {
  ci_accountId : string; ci_email : string; ci_fullName : option string; ci_role : membership_role;
  ci_scopeClientId : option string; ci_scopeVendorId : option string;
}.
Definition fresh s : string * identity_db :=
  (gen_random_uuid (ids_used s), mkIdentity (app_users s) (accounts s) (memberships s) (identity_log s) (S (ids_used s))).
(** The user of the address, and whether it is new. *)
Definition user_of_email (i : CreateMembershipInput) s : result identity_error ((string * bool) * identity_db) :=
  match select_one (λ u, bool_decide (us_email u = ci_email i)) (app_users s) with
  | Some u => Ok ((us_id u, false), s)
  | None =>
      let '(id, s) := fresh s in
      if bool_decide (id ∈ map us_id (app_users s)) then Err (Refused "app_user_pkey") else
      Ok ((id, true), mkIdentity (app_users s ++ [mkUser id (ci_email i) (ci_fullName i) false true]) (accounts s)
                        (memberships s) (identity_log s) (ids_used s))
  end.
Definition same_scope (row m : membership) : bool :=
  bool_decide (mb_user m = mb_user row) && bool_decide (mb_scope m = mb_scope row).
(** The membership's id if it is new; [None] for [already_member]. *)
Definition createMembership ctx (i : CreateMembershipInput) s :
    result identity_error (option (string * string * bool) * identity_db) :=
  '((userId, isNewUser), s) ← user_of_email i s;
  let '(id, s) := fresh s in
  let row := mkMembership id userId (pg_uuid (ci_accountId i)) (pg_uuid <$> ci_scopeClientId i)
               (pg_uuid <$> ci_scopeVendorId i) (ci_role i) true in
  _ ← guard_or (tenant_writes ctx (mb_account row)) (Refused "row-level security");
  if existsb (λ m, same_scope row m || bool_decide (mb_id m = id)) (memberships s) then Ok (None, s)
  else Ok (Some (id, userId, isNewUser), set_memberships (memberships s ++ [row]) s).

(** The row [WHERE id = $1 AND account_id = $2] finds in the scope. *)
Definition membership_at ctx (accountId membershipId : string) m : bool :=
  uuid_is (mb_id m) membershipId && uuid_is (mb_account m) accountId && tenant_shows ctx (Some (mb_account m)).
Definition update_membership (id : string) (f : membership → membership) s : identity_db :=
  set_memberships (map (λ m, if decide (mb_id m = id) then f m else m) (memberships s)) s.
Definition role_event m (newRole : membership_role) (kind : ActorKind) (actor : option string) : AuditEvent :=
  let event := "membership.role_changed_to_" +:+ role_text newRole in
  audit_event (deterministicAuditEventId [mb_account m; mb_id m; event]) (mb_account m) "membership" (mb_id m) event kind actor
    [("fromRole", JString (role_text (mb_role m))); ("toRole", JString (role_text newRole))].
Definition record_event (i : AuditEvent) s : result identity_error identity_db :=
  match writeAuditEvent i (identity_log s) with
  | Ok (_, log) => Ok (mkIdentity (app_users s) (accounts s) (memberships s) log (ids_used s))
  | Err x => Err (AuditRefused x)
  end.

(** The role and the flag after the update; [None] if not found. *)
Definition updateTenantMembership ctx (accountId membershipId : string) (role : option membership_role) (isActive : option bool)
    (actor : option string) s : result identity_error (option (membership_role * bool) * identity_db) :=
  match select_one (membership_at ctx accountId membershipId) (memberships s) with
  | None => Ok (None, s)
  | Some m =>
      let m' := from_option with_active id isActive (from_option with_role id role m) in
      let s' := update_membership (mb_id m) (λ m, from_option with_active id isActive (from_option with_role id role m)) s in
      s'' ← (if bool_decide (is_Some role) && negb (bool_decide (mb_role m' = mb_role m))
             then record_event (role_event m (mb_role m') ActorAnalyst actor) s' else Ok s');
      Ok (Some (mb_role m', mb_is_active m'), s'')
  end.

Definition removeMembership ctx (accountId membershipId : string) s : bool * identity_db :=
  let gone := membership_at ctx accountId membershipId in
  (existsb gone (memberships s), set_memberships (List.filter (λ m, negb (gone m)) (memberships s)) s).

Inductive PortalRole : Set := PortalViewer | PortalAdmin.
Definition portal_role (r : PortalRole) : membership_role :=
  match r with PortalViewer => account_viewer | PortalAdmin => account_admin end.
Definition PORTAL_ROLES : list membership_role := [account_viewer; account_admin].
(** Whether it was found. *)
Definition updatePortalMemberRole ctx (accountId membershipId : string) (newRole : PortalRole) (actor : option string) s :
    result identity_error (bool * identity_db) :=
  match select_one (λ m, membership_at ctx accountId membershipId m && bool_decide (mb_role m ∈ PORTAL_ROLES)) (memberships s) with
  | None => Ok (false, s)
  | Some m =>
      s' ← record_event (role_event m (portal_role newRole) ActorClient actor)
             (update_membership (mb_id m) (with_role (portal_role newRole)) s);
      Ok (true, s')
  end.
End memberships.

(** ** Resolvers *)

(** [LIMIT 1] without ORDER BY: some row of those that match. *)
Class RowChoice := limit_1 : list membership → option membership.
Class RowChoiceLaws {R : RowChoice} : Prop := {
  limit_1_in l m : limit_1 l = Some m → m ∈ l;
  limit_1_none l : limit_1 l = None → l = [];
}.
Arguments RowChoiceLaws : clear implicits.

(** The headers the resolvers read, the first of each; [None] if absent. *)
Record request := mkRequest {
  rq_method : string; rq_x_account_id : option string; rq_x_user_id : option string; rq_cookie : option string;
}.
(** A preHandler lets the request through with what it sets, or answers. *)
Record granted := mkGranted {
  tenantContext : TenantContext; actorUserId : string; actorRole : option membership_role; clientPortalReadOnly : bool;
}.
Inductive outcome : Type := Through (g : granted) | Answered (code : Z).

Section resolvers.
Context {R : RowChoice}.
(** Whether DEV_AUTH_HEADERS is "1", and the user of a cookie's session. *)
Context (dev : bool) (getSession : string → option string).
Implicit Types (s : identity_db) (m : membership) (q : request).

Definition nonempty (o : option string) : option string := match o with Some "" => None | _ => o end.
(** The identity a request proves. *)
Definition identity_of q : option string :=
  if dev then nonempty (rq_x_user_id q) else cookie ← nonempty (rq_cookie q); getSession cookie.

Definition account_active s (accountId : string) : bool :=
  existsb (λ c, bool_decide (acc_id c = accountId) && acc_is_active c) (accounts s).
(** [tenant-auth.ts] *)
Definition lookupMembership (userId clientId : string) s : option membership_role :=
  mb_role <$> limit_1 (List.filter (λ m, uuid_is (mb_user m) userId && uuid_is (mb_account m) clientId &&
    account_active s (mb_account m) && mb_is_active m) (memberships s)).
(** [account-admin-auth.ts], [account-viewer-auth.ts] *)
Definition lookupMembershipRole (userId clientId : string) s : option membership_role :=
  mb_role <$> limit_1 (List.filter (λ m, uuid_is (mb_user m) userId && uuid_is (mb_account m) clientId &&
    account_active s (mb_account m)) (memberships s)).
Definition lookupIsInternal (userId : string) s : bool :=
  existsb (λ u, uuid_is (us_id u) userId && us_is_active u && us_is_internal u) (app_users s).

(** The common shape of the tenant resolvers: identity, account header, role. *)
Definition resolve_tenant (lookup : string → string → identity_db → option membership_role) q s :
    option (TenantContext * string * membership_role) :=
  userId ← identity_of q; clientId ← nonempty (rq_x_account_id q);
  role ← lookup userId clientId s; Some (mkContext [clientId] false, userId, role).
Definition resolveAuthorizedTenantContext := resolve_tenant lookupMembership.
Definition resolveAccountAdminContext q s : option (TenantContext * string) :=
  '(ctx, user, role) ← resolve_tenant lookupMembershipRole q s; if decide (role = account_admin) then Some (ctx, user) else None.
Definition resolveAccountViewerContext q s : option (TenantContext * string) :=
  '(ctx, user, role) ← resolve_tenant lookupMembershipRole q s; if decide (role = account_viewer) then Some (ctx, user) else None.
Definition resolveInternalAnalystContext q s : option (TenantContext * string) :=
  userId ← identity_of q; if lookupIsInternal userId s then Some (mkContext [] true, userId) else None.

(** *** PreHandlers *)

Definition tenantAuthPreHandler q s : outcome :=
  match resolveAuthorizedTenantContext q s with
  | Some (ctx, user, role) => Through (mkGranted ctx user (Some role) false) | None => Answered 401
  end.
Definition ANALYST_MEMBERSHIP_ROLES : list membership_role := [analyst; lead].
(** Nested in a scope where [tenantAuthPreHandler] has run. *)
Definition analystOnlyPreHandler (o : outcome) : outcome :=
  match o with
  | Through g => if match actorRole g with Some r => bool_decide (r ∈ ANALYST_MEMBERSHIP_ROLES) | None => false end
      then o else Answered 403
  | Answered _ => o
  end.
Definition accountAdminAuthPreHandler q s : outcome :=
  match resolveAccountAdminContext q s with
  | Some (ctx, user) => Through (mkGranted ctx user None false) | None => Answered 401
  end.
Definition SAFE_METHODS : list string := ["GET"; "HEAD"].
Definition accountViewerAuthPreHandler q s : outcome :=
  match resolveAccountViewerContext q s with
  | Some (ctx, user) =>
      if bool_decide (rq_method q ∈ SAFE_METHODS) then Through (mkGranted ctx user None true) else Answered 403
  | None => Answered 401
  end.
Definition internalAnalystAuthPreHandler q s : outcome :=
  match resolveInternalAnalystContext q s with
  | Some (ctx, user) => Through (mkGranted ctx user None false) | None => Answered 401
  end.
Definition tenantAdminAuthPreHandler q s : outcome :=
  match identity_of q with
  | None => Answered 401
  | Some user => if lookupIsInternal user s then Through (mkGranted (mkContext [] true) user None false) else Answered 403
  end.
End resolvers.

(** ** Access *)

Section access.
Context {R : RowChoice} {RL : RowChoiceLaws R}.
Context (dev : bool) (getSession : string → option string).
Implicit Types (s : identity_db) (m : membership) (q : request) (g : granted).

Lemma avoids_lower c : avoids "," (to_lower c) = true → avoids "," c = true.
Proof using Type.
  induction c as [|d c IH]; [done|]. unfold to_lower in *. cbn [string_map]. rewrite !avoids_cons. intros [Hd Hc].
  split; [|by apply IH]. by intros ->.
Qed.
(** The scope of one tenant shows that tenant. *)
Lemma scope_of_one c : avoids "," (pg_uuid c) = true → pg_uuid c ≠ "" →
  app_current_account_ids (join "," (clientIds (mkContext [c] false))) = [pg_uuid c].
Proof using Type.
  intros Hc Hne. cbn. unfold app_current_account_ids. rewrite decide_False by (by intros ->).
  by rewrite split_on_avoids by (by apply avoids_lower).
Qed.

(** A member, by the rows of [membership] and [account]. *)
Definition member s userId clientId m : Prop :=
  m ∈ memberships s ∧ mb_user m = pg_uuid userId ∧ mb_account m = pg_uuid clientId ∧ account_active s (mb_account m) = true.
Lemma member_filter s userId clientId (p : membership → bool) m :
  m ∈ List.filter (λ m, uuid_is (mb_user m) userId && uuid_is (mb_account m) clientId && account_active s (mb_account m) && p m)
        (memberships s) ↔ member s userId clientId m ∧ p m = true.
Proof using Type.
  rewrite list_elem_of_In, filter_In, <- list_elem_of_In, !andb_true_iff. unfold uuid_is, member.
  rewrite !bool_decide_eq_true. clear. tauto.
Qed.
Lemma lookupMembership_spec userId clientId s :
  match lookupMembership userId clientId s with
  | Some r => ∃ m, member s userId clientId m ∧ mb_is_active m = true ∧ mb_role m = r
  | None => ∀ m, member s userId clientId m → mb_is_active m = false
  end.
Proof using RL.
  unfold lookupMembership. destruct (limit_1 _) as [m|] eqn:E; cbn.
  - apply limit_1_in, member_filter in E as [? ?]. by exists m.
  - apply limit_1_none in E. intros m Hm. destruct (mb_is_active m) eqn:Ha; [|done]. exfalso.
    eapply (elem_of_nil m). rewrite <- E. by apply member_filter.
Qed.

(** Identifiers are uuids: not empty, without commas. *)
Definition uuids_ok s : Prop := ∀ m, m ∈ memberships s → avoids "," (mb_account m) = true ∧ mb_account m ≠ "".

(** C8: the tenant preHandler of [tenant-auth.ts] lets a request through exactly when
    the request proves an identity and names an account of which that user has an
    active membership, the account being active; it answers 401 otherwise. The role
    it sets is that of such a membership, and the transactions of a request it let
    through see the rows of that account and the rows shared by all tenants (those
    with no account), and write no rows of another account. Identifiers are uuids.
    The portal and the internal routes have preHandlers of their own, of which this
    says nothing: the portal's do not look at the flag that disables a membership
    ([disabled_admin_keeps_portal]). *)
Theorem tenant_access_exact q s : uuids_ok s →
  match tenantAuthPreHandler dev getSession q s with
  | Through g => ∃ userId clientId m, identity_of dev getSession q = Some userId ∧ rq_x_account_id q = Some clientId ∧
      member s userId clientId m ∧ mb_is_active m = true ∧ actorUserId g = userId ∧ actorRole g = Some (mb_role m) ∧
      (∀ o, tenant_shows (tenantContext g) o = true ↔ o = None ∨ o = Some (mb_account m)) ∧
      (∀ a, tenant_writes (tenantContext g) a = true ↔ a = mb_account m)
  | Answered code => code = 401 ∧ ∀ userId clientId m, identity_of dev getSession q = Some userId →
      nonempty (rq_x_account_id q) = Some clientId → member s userId clientId m → mb_is_active m = false
  end.
Proof using RL.
  intros Hok. unfold tenantAuthPreHandler, resolveAuthorizedTenantContext, resolve_tenant.
  destruct (identity_of dev getSession q) as [userId|] eqn:Hi; cbn; [|by split].
  destruct (nonempty (rq_x_account_id q)) as [clientId|] eqn:Hc; cbn; [|by split].
  pose proof (lookupMembership_spec userId clientId s) as Hl. destruct (lookupMembership userId clientId s) as [role|]; cbn.
  - destruct Hl as (m & Hm & Hact & Hrole). exists userId, clientId, m. destruct Hm as (Hin & Hu & Ha & Hca).
    destruct (Hok m Hin) as [Hcomma Hne]. rewrite Ha in Hcomma, Hne. pose proof (scope_of_one _ Hcomma Hne) as Hs. cbn in Hs.
    split_and!; try done; [|by rewrite Hrole| |].
    + unfold nonempty in Hc. by destruct (rq_x_account_id q) as [[|]|].
    + intros [a|]; unfold tenant_shows; [|naive_solver]. cbn. rewrite Hs, bool_decide_eq_true, list_elem_of_singleton, Ha. naive_solver.
    + intros a. unfold tenant_writes. cbn. rewrite Hs, bool_decide_eq_true, list_elem_of_singleton. by rewrite Ha.
  - split; [done|]. intros ? ? m [= <-] [= <-] Hm. by apply Hl.
Qed.

(** An unscoped context is granted only to an active internal user. *)
Theorem internal_access_exact q s :
  (∃ g, internalAnalystAuthPreHandler dev getSession q s = Through g) ↔
  ∃ u userId, identity_of dev getSession q = Some userId ∧ u ∈ app_users s ∧ us_id u = pg_uuid userId ∧
    us_is_active u = true ∧ us_is_internal u = true.
Proof using Type.
  unfold internalAnalystAuthPreHandler, resolveInternalAnalystContext, lookupIsInternal.
  destruct (identity_of dev getSession q) as [userId|]; cbn; [|naive_solver].
  destruct (existsb _ (app_users s)) eqn:E.
  - apply existsb_true in E as (u & Hu & [[Hid Hact]%andb_true_iff Hint]%andb_true_iff).
    apply bool_decide_eq_true in Hid. split; [intros _|by eexists]. by exists u, userId.
  - split; [intros [g [=]]|]. intros (u & ? & [= <-] & Hu & Hid & Hact & Hint). rewrite existsb_false in E.
    specialize (E u Hu). unfold uuid_is in E. by rewrite Hid, bool_decide_true, Hact, Hint in E.
Qed.

(** The portal resolvers never look at the flag that disables a membership. *)
Lemma portal_ignores_disabling q s f : (∀ l, limit_1 (map (λ m, with_active (f m) m) l) = (λ m, with_active (f m) m) <$> limit_1 l) →
  let s' := set_memberships (map (λ m, with_active (f m) m) (memberships s)) s in
  accountAdminAuthPreHandler dev getSession q s' = accountAdminAuthPreHandler dev getSession q s ∧
  accountViewerAuthPreHandler dev getSession q s' = accountViewerAuthPreHandler dev getSession q s.
Proof using Type.
  intros Hcommute s'. assert (∀ u c, lookupMembershipRole u c s' = lookupMembershipRole u c s) as Hl.
  { intros u c. unfold lookupMembershipRole. subst s'. cbn [memberships set_memberships].
    assert (∀ p l, (∀ m, p (with_active (f m) m) = p m) →
      List.filter p (map (λ m, with_active (f m) m) l) = map (λ m, with_active (f m) m) (List.filter p l)) as Hf.
    { intros p l Hp. induction l as [|m l IH]; [done|]. cbn. rewrite Hp. destruct (p m); cbn; by rewrite IH. }
    rewrite Hf by done. rewrite Hcommute. by destruct (limit_1 _). }
  unfold accountAdminAuthPreHandler, accountViewerAuthPreHandler, resolveAccountAdminContext, resolveAccountViewerContext, resolve_tenant.
  destruct (identity_of dev getSession q) as [userId|]; cbn; [|done].
  destruct (nonempty (rq_x_account_id q)) as [clientId|]; cbn; [|done]. by rewrite Hl.
Qed.
End access.

(** ** Histories of memberships *)

Section histories.
Context {H : Sha256} {U : UuidSource}.
Implicit Types (s : identity_db) (m : membership) (ctx : TenantContext).

Inductive identity_step : identity_db → identity_db → Prop :=
  | step_create ctx i s r s' : createMembership ctx i s = Ok (r, s') → identity_step s s'
  | step_update ctx accountId id role isActive actor s r s' :
      updateTenantMembership ctx accountId id role isActive actor s = Ok (r, s') → identity_step s s'
  | step_remove ctx accountId id s : identity_step s (removeMembership ctx accountId id s).2
  | step_portal ctx accountId id newRole actor s r s' :
      updatePortalMemberRole ctx accountId id newRole actor s = Ok (r, s') → identity_step s s'.

Definition scope_key m : string * string := (mb_user m, mb_scope m).
Record memberships_unique s : Prop := {
  mu_ids : NoDup (map mb_id (memberships s));
  mu_scopes : NoDup (map scope_key (memberships s));
}.

Lemma record_event_Ok i s s' : record_event i s = Ok s' → memberships s' = memberships s ∧ app_users s' = app_users s ∧
  accounts s' = accounts s ∧ ∃ v, AuditEventInputSchema i = Some v ∧
    (identity_log s' = identity_log s ++ [audit_row v] ∨
     identity_log s' = identity_log s ∧ ∃ x, x ∈ identity_log s ∧ same_evidence (audit_row v) x = true).
Proof using Type.
  unfold record_event. destruct (writeAuditEvent _ _) as [[r log]|] eqn:E; [|done]. intros [= <-].
  apply writeAuditEvent_inv in E as (v & Hv & _ & Hcase). split_and!; try done. exists v. split; [done|]. cbn.
  destruct Hcase as [(_ & -> & _)|(_ & -> & Hx)]; [by left|by right].
Qed.

Lemma NoDup_map_filter_b {A B} (f : A → B) p l : NoDup (map f l) → NoDup (map f (List.filter p l)).
Proof using Type.
  induction l as [|x l IH]; cbn; [done|]. intros [Hx Hl]%NoDup_cons. destruct (p x); [|by apply IH]. cbn.
  apply NoDup_cons. split; [|by apply IH]. intros (y & Heq & Hy)%list_elem_of_fmap. apply Hx.
  apply list_elem_of_In, filter_In in Hy as [Hy _]. rewrite Heq. apply list_elem_of_fmap_2. by apply list_elem_of_In.
Qed.
(** Changes that keep the identity and the scope of every row. *)
Lemma unique_map s s' f : memberships s' = map f (memberships s) → (∀ m, mb_id (f m) = mb_id m ∧ scope_key (f m) = scope_key m) →
  memberships_unique s → memberships_unique s'.
Proof using Type.
  intros Hm Hf [Hi Hs]. split; rewrite Hm, map_map.
  - rewrite (map_ext _ mb_id); [done|]. intros m. apply Hf.
  - rewrite (map_ext _ scope_key); [done|]. intros m. apply Hf.
Qed.
Lemma update_inv ctx accountId mid role isActive actor s r s' :
  updateTenantMembership ctx accountId mid role isActive actor s = Ok (r, s') → s' = s ∨
  ∃ f, memberships s' = map f (memberships s) ∧ (∀ m, mb_id (f m) = mb_id m ∧ scope_key (f m) = scope_key m).
Proof using Type.
  unfold updateTenantMembership. destruct (select_one _ _) as [m0|]; [|intros [= _ <-]; by left].
  intros (s1 & Hs1 & [= _ <-])%bind_Ok. right.
  exists (λ m, if decide (mb_id m = mb_id m0) then from_option with_active id isActive (from_option with_role id role m) else m).
  split; [|intros m; cbn beta; destruct (decide (mb_id m = mb_id m0)); [destruct isActive, role|]; split; reflexivity].
  destruct (_ && _); [by apply record_event_Ok in Hs1 as [-> _]|by injection Hs1 as <-].
Qed.

(** Whatever the administrators and the portals do, identifiers stay unique and no
    user has two memberships at the same account, client or vendor. *)
Theorem memberships_stay_unique s0 s : memberships_unique s0 → rtc identity_step s0 s → memberships_unique s.
Proof using Type.
  intros H0 Hr. induction Hr as [|s1 s2 s3 Hstep _ IH]; [done|]. apply IH. clear IH s3.
  destruct Hstep as [ctx i s r s' Hc|ctx accountId id role isActive actor s r s' Hc|ctx accountId id s|ctx accountId id newRole actor s r s' Hc].
  - unfold createMembership in Hc. apply bind_Ok in Hc as ([[userId isNew] s1] & Hu & Hc).
    assert (memberships s1 = memberships s) as Hm.
    { unfold user_of_email in Hu. destruct (select_one _ _); [by injection Hu as _ _ <-|]. cbn in Hu.
      destruct (bool_decide _); [done|]. by injection Hu as _ _ <-. }
    cbn in Hc. apply bind_Ok in Hc as (? & _ & Hc). destruct (existsb _ _) eqn:Ho.
    + injection Hc as _ <-. destruct H0. split; cbn; by rewrite Hm.
    + injection Hc as _ <-. rewrite existsb_false, Hm in Ho. destruct H0 as [Hi Hs]. split; cbn; rewrite Hm, map_app.
      all: apply NoDup_app; split; [done|]; split; [|apply NoDup_singleton]; intros k Hk Heq;
        apply list_elem_of_singleton in Heq as ->; apply list_elem_of_fmap in Hk as (m & Heq & Hin);
        specialize (Ho m Hin); apply orb_false_iff in Ho as [Hsc Hid].
      * cbn in Heq, Hid. by rewrite bool_decide_true in Hid.
      * unfold scope_key in Heq. injection Heq as Hu1 Hs1. unfold same_scope in Hsc.
        apply andb_false_iff in Hsc as [Hx%bool_decide_eq_false|Hx%bool_decide_eq_false]; by apply Hx.
  - apply update_inv in Hc as [->|(f & Hf & Hk)]; [done|]. by eapply unique_map.
  - destruct H0 as [Hi Hs]. split; by apply NoDup_map_filter_b.
  - unfold updatePortalMemberRole in Hc. destruct (select_one _ _) as [m0|]; [|by injection Hc as _ <-].
    apply bind_Ok in Hc as (s1 & Hs1 & [= _ <-]). apply record_event_Ok in Hs1 as [Hm _].
    eapply unique_map; [exact Hm| |done]. intros m. cbn beta. by case_decide.
Qed.

(** *** What the portals can do *)

Inductive portal_step : identity_db → identity_db → Prop :=
  | portal_role_change ctx accountId id newRole actor s r s' :
      updatePortalMemberRole ctx accountId id newRole actor s = Ok (r, s') → portal_step s s'.
(** The same membership, its role the same or moved within the portal's roles. *)
Definition portal_related m m' : Prop :=
  mb_id m' = mb_id m ∧ mb_user m' = mb_user m ∧ mb_account m' = mb_account m ∧ mb_client m' = mb_client m ∧
  mb_vendor m' = mb_vendor m ∧ mb_is_active m' = mb_is_active m ∧
  (mb_role m' = mb_role m ∨ mb_role m ∈ PORTAL_ROLES ∧ mb_role m' ∈ PORTAL_ROLES).
Lemma portal_related_refl m : portal_related m m.
Proof using Type. unfold portal_related. tauto. Qed.
Lemma portal_related_trans m1 m2 m3 : portal_related m1 m2 → portal_related m2 m3 → portal_related m1 m3.
Proof using Type.
  intros (? & ? & ? & ? & ? & ? & Hr1) (? & ? & ? & ? & ? & ? & Hr2). split_and!; try congruence.
  destruct Hr1 as [<-|[? ?]], Hr2 as [->|[? ?]]; auto.
Qed.
Lemma portal_role_portal r : portal_role r ∈ PORTAL_ROLES.
Proof using Type. destruct r; unfold PORTAL_ROLES; cbn; set_solver. Qed.

Lemma portal_step_related s s' : portal_step s s' → NoDup (map mb_id (memberships s)) →
  Forall2 portal_related (memberships s) (memberships s') ∧ app_users s' = app_users s ∧ accounts s' = accounts s ∧
  identity_log s `prefix_of` identity_log s'.
Proof using Type.
  intros Hstep Hnd. destruct Hstep as [ctx accountId mid newRole actor s r s' Hp]. unfold updatePortalMemberRole in Hp.
  assert (∀ l, Forall2 portal_related l l) as Hrefl by (intros l; apply Forall2_same_length_lookup_2; [done|]; intros i x y Hx Hy;
    assert (x = y) as -> by congruence; apply portal_related_refl).
  destruct (select_one _ _) as [m0|] eqn:Hsel; [|by injection Hp as _ <-].
  apply select_one_Some in Hsel as [Hin [_ Hrole]%andb_true_iff]. apply bool_decide_eq_true in Hrole.
  apply bind_Ok in Hp as (s1 & Hs1 & [= _ <-]). apply record_event_Ok in Hs1 as (Hm & Hu & Ha & v & _ & Hlog).
  split; [|split; [done|split; [done|]]].
  - rewrite Hm. cbn. apply Forall2_fmap_r, Forall2_same_length_lookup_2; [done|]. intros i x y Hx Hy.
    assert (x = y) as <- by congruence. cbn. case_decide as Hid; [|apply portal_related_refl].
    assert (x = m0) as -> by (by eapply (NoDup_map_inj mb_id); [exact Hnd|eapply list_elem_of_lookup_2|..]).
    unfold portal_related. split_and!; try done. right. split; [done|apply portal_role_portal].
  - destruct Hlog as [->|[-> _]]; [by apply prefix_app_r|done].
Qed.

(** C23: whatever requests the portals serve, they add and remove no membership, change
    no membership's user, scope or activity, and move roles only between the two
    portal roles: no internal role is gained or lost; the ledger only grows. *)
Theorem portal_changes_contained s0 s : NoDup (map mb_id (memberships s0)) → rtc portal_step s0 s →
  Forall2 portal_related (memberships s0) (memberships s) ∧ app_users s = app_users s0 ∧ accounts s = accounts s0 ∧
  identity_log s0 `prefix_of` identity_log s.
Proof using Type.
  intros Hnd Hr. induction Hr as [s|s1 s2 s3 Hstep _ IH].
  - split; [|done]. apply Forall2_same_length_lookup_2; [done|]. intros i x y Hx Hy.
    assert (x = y) as -> by congruence. apply portal_related_refl.
  - apply portal_step_related in Hstep as (Hm & Hu & Ha & Hl); [|done]. destruct IH as (Hm' & Hu' & Ha' & Hl').
    + assert (map mb_id (memberships s2) = map mb_id (memberships s1)) as ->; [|done].
      clear -Hm. induction Hm as [|x y l k [Hxy _] _ IH]; cbn; [done|]. by rewrite Hxy, IH.
    + split; [|split; [congruence|split; [congruence|by etrans]]]. clear -Hm Hm'.
      revert Hm'. generalize (memberships s3). induction Hm as [|x y l k Hxy _ IH]; intros k3 Hk; inversion Hk; subst; constructor; [|by apply IH].
      by eapply portal_related_trans.
Qed.
End histories.

(** ** A tenant *)

Section witnesses.
#[local] Existing Instances demo_sha Tx.demo_uuid.
Definition first_row : RowChoice := head.
Lemma first_row_laws : RowChoiceLaws first_row.
Proof.
  split; unfold limit_1, first_row; intros [|x l]; cbn; [done| |done|done]. intros m [= <-]. left.
Qed.
#[local] Existing Instances first_row first_row_laws.

Definition demo_session (cookie : string) : option string := if decide (cookie = "c2") then Some (demo_id 2) else None.
Definition demo_request (method : string) : request := mkRequest method (Some (demo_id 1)) None (Some "c2").
(** The user 2, with one membership of the account 1. *)
Definition tenant (role : membership_role) (vendor : option string) : identity_db :=
  mkIdentity [mkUser (demo_id 2) "ann@example.com" None false true] [{| acc_id := demo_id 1; acc_is_active := true |}]
    [mkMembership (demo_id 10) (demo_id 2) (demo_id 1) vendor vendor role true] [] 0.
Lemma tenant_uuids role vendor : uuids_ok (tenant role vendor).
Proof. intros m Hm. apply list_elem_of_singleton in Hm as ->. split; [vm_compute; reflexivity|discriminate]. Qed.

Lemma tenant_access_exact_witness : ∃ g, tenantAuthPreHandler false demo_session (demo_request "GET") (tenant lead None) = Through g ∧
  tenant_shows (tenantContext g) (Some (demo_id 1)) = true ∧ tenant_shows (tenantContext g) (Some (demo_id 3)) = false.
Proof.
  pose proof (tenant_access_exact false demo_session (demo_request "GET") (tenant lead None) (tenant_uuids lead None)) as Hx.
  destruct (tenantAuthPreHandler false demo_session (demo_request "GET") (tenant lead None)) as [g|code] eqn:E; [|discriminate E].
  exists g. split; [reflexivity|]. destruct Hx as (u & c & m & _ & _ & (Hm & _) & _ & _ & _ & Hshow & _).
  apply list_elem_of_singleton in Hm as ->. split; [apply Hshow; right; reflexivity|].
  apply not_true_iff_false. intros [Hs|Hs]%Hshow; discriminate Hs.
Defined.

Definition promoted : identity_db := Eval vm_compute in
  match updatePortalMemberRole (mkContext [demo_id 1] false) (demo_id 1) (demo_id 10) PortalAdmin (Some (demo_id 7)) (tenant account_viewer None) with
  | Ok (_, s) => s | Err _ => tenant account_viewer None end.
Lemma promotion : updatePortalMemberRole (mkContext [demo_id 1] false) (demo_id 1) (demo_id 10) PortalAdmin (Some (demo_id 7))
  (tenant account_viewer None) = Ok (true, promoted).
Proof. vm_compute. reflexivity. Qed.
Lemma portal_changes_contained_witness :
  map mb_role (memberships promoted) = [account_admin] ∧ accounts promoted = accounts (tenant account_viewer None).
Proof.
  split; [reflexivity|].
  exact (proj1 (proj2 (proj2 (portal_changes_contained (tenant account_viewer None) promoted (NoDup_singleton _)
    (rtc_once _ _ (portal_role_change _ _ _ _ _ _ _ _ promotion)))))).
Defined.
Lemma memberships_stay_unique_witness : map mb_role (memberships promoted) = [account_admin] ∧ memberships_unique promoted.
Proof.
  split; [reflexivity|].
  apply (memberships_stay_unique (tenant account_viewer None) promoted); [split; apply NoDup_singleton|].
  exact (rtc_once _ _ (step_portal _ _ _ _ _ _ _ _ promotion)).
Defined.

(** A disabled membership: refused by the tenant resolver, let through by the
    portal's, which grant reading and writing. *)
Example disabled_admin_keeps_portal :
  match updateTenantMembership (mkContext [] true) (demo_id 1) (demo_id 10) None (Some false) (Some (demo_id 7)) (tenant account_admin None) with
  | Ok (Some (_, isActive), s) => isActive = false ∧
      tenantAuthPreHandler false demo_session (demo_request "POST") s = Answered 401 ∧
      accountAdminAuthPreHandler false demo_session (demo_request "POST") s =
        Through (mkGranted (mkContext [demo_id 1] false) (demo_id 2) None false)
  | _ => False
  end.
Proof. vm_compute. split_and!; reflexivity. Qed.
(** A deactivated user is let through as before. *)
Example deactivated_user_keeps_access :
  tenantAuthPreHandler false demo_session (demo_request "POST")
    (mkIdentity [mkUser (demo_id 2) "ann@example.com" None false false] (accounts (tenant lead None)) (memberships (tenant lead None)) [] 0) =
    Through (mkGranted (mkContext [demo_id 1] false) (demo_id 2) (Some lead) false).
Proof. vm_compute. reflexivity. Qed.
(** A membership of one vendor is let into the whole account. *)
Example vendor_member_sees_account :
  tenantAuthPreHandler false demo_session (demo_request "POST") (tenant vendor_scope_viewer (Some (demo_id 20))) =
    Through (mkGranted (mkContext [demo_id 1] false) (demo_id 2) (Some vendor_scope_viewer) false).
Proof. vm_compute. reflexivity. Qed.
(** Asking for the same role again, as a retry does, is refused. *)
Example repeated_promotion_refused :
  updatePortalMemberRole (mkContext [demo_id 1] false) (demo_id 1) (demo_id 10) PortalAdmin (Some (demo_id 7)) promoted =
    Err (AuditRefused AUDIT_EVENT_CONFLICT).
Proof. vm_compute. reflexivity. Qed.
End witnesses.
